(* ===== verification/_CoqProject ===== *)
-Q . S2P
Prelude.v
Extent.v
Coalesce.v
Pool.v
IovaMngr.v
MemManager.v
Ring.v
Msgq.v
Ivc.v
IvcFacts.v
IvcSystem.v
IvcInit.v
IvcRace.v
Host1xJob.v
Host1xFirewall.v
Host1xPatch.v
Host1xPinned.v
Host1xPin.v
DceFsm.v
DceFacts.v
Host1xSyncpt.v
Host1xSyncFacts.v
MttcanRam.v
MttcanCfg.v
MttcanFltr.v
MttcanRx.v
MttcanTx.v
MttcanBuf.v
PvaDesc.v
PvaMap.v
PvaTask.v
PvaSafe.v
Host1xPushbuf.v
Host1xCdma.v
Host1xCdmaInv.v
Host1xCdmaFacts.v
Host1xCdmaTimeout.v
Host1xCdmaWake.v
Host1xProgram.v
DrmFirewall.v
DrmRefs.v
DrmSubmit.v
DrmBuild.v
DrmPin.v
DrmSubmitFacts.v
DrmSubmitSafe.v
DrmUapi.v
Host1xContext.v
PvaSha.v
PvaAuth.v
Sums.v
NvmapColor.v
NvmapPool.v
NvmapPages.v
NvmapHandle.v
NvmapHandleInv.v
NvmapShareOps.v
NvmapShare.v
NvmapAccess.v
NvmapReach.v
