(* ===== verification/Prelude.v ===== *)
(** A verification development for parts of the NVIDIA out-of-tree kernel drivers
    (the repository's src/ directory).

    * What is modelled

    The repository is a collection of drivers that share little code.  The
    development takes the parts that carry logic of their own: allocators, ring
    buffers and shared-memory channels, a command-stream firewall, reference
    counting with interrupts and timeouts, and a state machine.  Each part is a
    shallow embedding: C functions are Rocq functions with the state passed
    explicitly, integers are [Z] with the wrap of their C type written out ([u8],
    [u16], [u32], [u64], [s32], [s64] below), an error code is the negative [Z] the code
    returns, and [option] marks what the code cannot survive (BUG(), an access
    outside an array, a loop bound exceeded).  The lists of the kernel are
    sequences of entries found by identity (class [Node] below).  Code outside
    src/ (allocators, the DMA API, buffer objects, user copies, firmware) appears
    as parameters; what is relied on of it is a hypothesis of the theorem.

    * Files, in dependency order

    - [Prelude]: widths and their tactics ([width_lia], [zb], [case_if]), errno
      values, intrusive lists, list scans, rule induction over [rtc].
    - [Extent]: address intervals: disjointness, tilings, a reference allocator
      (best fit) and a reference release that merges neighbours, behind the class
      [Extent].
    - [Coalesce]: the release that both allocators share in shape, refining the
      reference release.
    - [Pool]: the invariant of an allocator (the free and the taken extents tile
      the managed range) and its preservation, independent of the C structures.
    - [IovaMngr]: drivers/misc/nvscic2c-pcie/iova-mngr.c.  [mngr_ctx_t] is the
      structure of that name, with its free and reserved list.  [reserve_correct],
      [release_correct], [free_list_canonical] (the free list is determined by what
      is reserved, whatever the history), [reserve_release_roundtrip], [init_correct],
      [deinit_correct] and [init_error_exit_faults].
    - [MemManager]: drivers/platform/tegra/nvadsp/mem_manager.c, over the same
      [Pool]; [mem_request_correct], [mem_release_correct], [destroy_correct],
      [alloc_order], and [full_manager_stuck] for the release that is refused when
      nothing is free.
    - [Ring]: circular arrays, contiguous and wrapping writes and reads.
    - [Msgq]: drivers/platform/tegra/nvadsp/msgq.c, refining an abstract FIFO of
      messages; [queue_message_correct], [dequeue_message_correct], [init_empty].
    - [Ivc], [IvcFacts], [IvcSystem], [IvcInit], [IvcRace]: inter-VM channels,
      drivers/platform/tegra/tegra-ivc.c.  [Ivc] holds the definitions, one per C
      function, over an endpoint record that contains both channels.  [IvcFacts]
      relates a channel to the FIFO of unread frames ([chan_repr]) and shows that
      reading and writing refine it.  [IvcSystem] puts two endpoints on one memory:
      an endpoint against a peer that stores anything ([hostile_peer_safe]: one query
      of the interface is BUG() on such stores, nothing else is), and the reset
      handshake, with data operations interleaved access by access and each
      notification one step ([handshake_safe] by rule induction, [reset_converges]).
      [IvcInit] is about parameter checks; [IvcRace] shows that the handshake fails
      when the peer acts inside a notification, and that tegra_ivc_channel_sync can
      move a position; it holds the concrete instances.
    - [Host1xJob], [Host1xFirewall], [Host1xPatch], [Host1xPinned], [Host1xPin]:
      drivers/gpu/host1x/job.c.  [Host1xFirewall] gives a reference decoder for
      command streams as an inductive relation and shows that [copy_gathers]
      accepts exactly what it accepts ([copy_gathers_correct]); [Host1xPinned] shows
      that patching afterwards changes exactly the address words
      ([pinned_copy_correct]) when buffers are distinct; [Host1xPatch] has the two
      executions in which it goes wrong; [Host1xPin] counts references.
    - [DceFsm], [DceFacts]: drivers/platform/tegra/dce/dce-fsm.c and dce-worker.c.
      Posting an event is split where the code drops the mutex; [dstep] interleaves
      posts and handlers.  [post_begin_correct], [normal_operation] (no lost and no
      stale wakeup for one request at a time, without suspend, log and abort events),
      and what interrupted waits, rollbacks and an early boot completion do to it.
    - [Host1xSyncpt], [Host1xSyncFacts]: drivers/gpu/host1x/syncpt.c, intr.c and
      fence.c: [fence_list_correct] (modular order of thresholds), [fence_life]
      (interrupt against timeout), [syncpt_alloc_correct].
    - [Host1xPushbuf], [Host1xCdma], [Host1xCdmaInv], [Host1xCdmaFacts],
      [Host1xCdmaTimeout], [Host1xCdmaWake], [Host1xProgram]: command DMA,
      drivers/gpu/host1x/cdma.c, hw/cdma_hw.c and hw/channel_hw.c.  [Host1xPushbuf]: the
      ring of command words, and the hardware that fetches from it, with the decoder of
      hw/debug_hw.c; [Host1xCdma]: a channel, one operation per C function, and the
      step relation [cstep] of a submitter that may sleep, completion, timeouts and a
      thread that stops the channel; [Host1xCdmaInv] and [Host1xCdmaFacts]: the
      invariant, by rule induction ([channel_safe]); [Host1xCdmaTimeout]: what
      completion and timeouts achieve ([update_correct], [timeout_correct]);
      [Host1xCdmaWake]: no lost wakeup ([sleeper_correct]), and submissions that are
      too large; [Host1xProgram]: from a job to the commands in the ring
      ([job_program_executes]) and their execution ([job_program_isolated]).
    - [MttcanRam], [MttcanCfg], [MttcanFltr], [MttcanRx], [MttcanBuf], [MttcanTx]: the
      M_TTCAN controller, drivers/net/can/mttcan (hal/m_ttcan_ram.c, m_ttcan.c,
      m_ttcan_list.c, native/m_ttcan_linux.c, m_ttcan_sys.c).  The message RAM is a
      function from addresses to words.  [MttcanRam]: its elements
      ([tx_rx_roundtrip]); [MttcanCfg]: its division ([mesg_ram_layout]);
      [MttcanFltr]: filters, their shadows and the resume path ([std_fltr_store],
      [resume_restores]); [MttcanRx]: FIFOs, high-priority messages, delivery and time
      stamps ([read_rx_fifo_correct], [poll_fifo_delivery],
      [extend_timestamp_correct]); [MttcanBuf]: dedicated receive buffers
      ([read_rx_buffer_correct]); [MttcanTx]: transmission as a step relation of driver
      and controller ([tx_safe] by rule induction, [tx_drains]), with a mode that has the
      behaviours the driver's accounting does not follow.  The controller's
      documented behaviour is the class [RxHwOk] for receive FIFOs and [txfqs_ok] for
      the put index; the CAN FD length table of the kernel is the class [CanLengthsOk];
      each has an instance.
    - [PvaDesc], [PvaMap], [PvaTask], [PvaSafe]: how the PVA's driver checks the DMA
      descriptors of a task, drivers/video/tegra/host/pva (pva_dma.c, parts of
      pva_queue.c, nvpva_buffer.c and pva_vpu_exe.c).  [PvaDesc]: the range check
      against the bytes a five-dimensional transfer touches ([address_range_exact]) and
      block-linear offsets against the layout ([block_linear_correct]); [PvaMap]: the
      validation of a descriptor and its addresses, in an error monad over the task
      ([patched_transfer_safe]); [PvaTask]: the packed registers, the chains that
      channels start, and [pva_task_write_dma_info]; [PvaSafe]: the transfers that the
      registers describe ([task_transfers_safe]), and descriptors that are let through
      although their registers describe something else.  The lookup of a pinned buffer,
      the symbols of the VPU program and the size of L2 memory are members of
      [pva_env]; the theorems assume that they lie in the 40-bit address space.
    - [DrmFirewall], [DrmRefs], [DrmSubmit], [DrmBuild], [DrmPin], [DrmSubmitFacts],
      [DrmSubmitSafe], [DrmUapi]: channels and job submission of the Tegra DRM driver,
      drivers/gpu/drm/tegra (firewall.c, submit.c, uapi.c, parts of gr2d.c).
      [DrmFirewall] has an inductive semantics of command words with the register
      accesses they make, and shows that the firewall accepts what it permits
      ([fw_validate_correct]).  [DrmRefs]: what the driver holds as a multiset of
      resources, where releasing what is not held has no result.  [DrmSubmit] is the
      ioctl with all of its exits; [DrmBuild]: the job it builds ([create_job_typed]);
      [DrmPin]: pinning it, through [Host1xPinned], and what a pinning that fails leaves
      behind; [DrmSubmitFacts]: every exit releases what was taken, except what that
      leaves ([submit_balanced]); [DrmSubmitSafe]: ioctl, job, ring and hardware
      together ([submission_confined], over [Host1xProgram]).  [DrmUapi]: the tables of
      a file and the lifetime of mappings, as a step relation in which the opening of a
      channel, which holds no lock, is three steps ([mapping_lifetime]).
    - [Host1xContext]: memory contexts, drivers/gpu/host1x/context.c
      ([memory_contexts_isolate]).

    - [PvaSha], [PvaAuth]: authentication of PVA programs, drivers/video/tegra/host/pva
      (pva_sha256.c, pva_vpu_app_auth.c, pva_system_allow_list.c, parts of pva_ioctl.c).
      [PvaSha] has the standard's SHA-256 next to the driver's ([sha256_correct]);
      [PvaAuth]: the format of allow lists and their parser ([allow_list_roundtrip]), the
      search ([binary_search_correct]) and the decision
      ([registration_authenticated]), with the built-in list evaluated.

    - [Sums]: sums over lists and maps, for counts of references and of pages.
    - [NvmapColor], [NvmapPool], [NvmapPages]: where nvmap gets the pages of buffers from,
      drivers/video/tegra/nvmap (nvmap_alloc.c, nvmap_pp.c).  [NvmapColor]: the colouring
      of a buffer's pages, over arrays with checked accesses
      ([alloc_colored_correct]: it returns, it uses every page once, and colours repeat
      as little as the pages permit).  [NvmapPool]: the pool of recycled pages, a function
      for each stretch under its lock.  [NvmapPages]: threads that allocate, free, zero,
      shrink and resize, as a step relation over a state that says where each page is and
      whose data it contains ([buffer_pages_isolated]).
    - [NvmapHandle], [NvmapHandleInv], [NvmapShareOps], [NvmapShare], [NvmapAccess],
      [NvmapReach]: nvmap's handles, the references and numbers that clients have for them,
      and their dma-bufs, drivers/video/tegra/nvmap (nvmap_handle.c, nvmap_sci_ipc.c,
      nvmap_id_array.c, parts of nvmap_core.c, nvmap_alloc.c, nvmap_dev.c, nvmap_dmabuf.c,
      nvmap_ioctl.c).  [NvmapHandle] has the functions, in a monad over the state whose
      failure is the use of something freed.  [NvmapHandleInv]: what the counts add up to,
      and how single stores change it; [NvmapShareOps]: a rule for each function, in a
      calculus of results ([runs]), over the class [KernelOk] for the kernel's trees and
      numbers; [NvmapShare]: who can write, which events can happen, duplication;
      [NvmapAccess]: each event; [NvmapReach]: all states that are reached
      ([handle_references_exact], [write_access_confined]), and executions in which the
      code goes wrong.

    Definitions carry the names of the C functions and types they translate.

    * Bounds and fuel

    Loops over lists are structural.  Loops over machine integers take a [nat]
    bound that is large enough by construction: [check_mask_loop] has 32 rounds for a
    32-bit mask, [validate_loop] one round per word since each round consumes one;
    both give [None] when the bound is exceeded and the theorems show that they do
    not.  In the M_TTCAN files, writing an element has 64 rounds (a length is a byte
    and each round takes four), reading one has 18 (two header words and the 16 words
    of the longest frame), the loops over the bits of a register have 32, and clearing
    a RAM of [size] bytes has [size / 4 + 1]; the theorems there show that the
    functions return.  In [PvaTask], following a chain of at most 60 descriptors has
    60 * 61 + 60 rounds: each maps a descriptor or lowers the index.  In the host1x
    files, fetching from the ring has [fetch_fuel] rounds, six for each of the 1023
    slots: a push has at most four commands, a padding and the jump at the end of the
    ring; parsing the words of one push has four.  In [PvaSha] the loop over
    blocks has [len / 64 + 1] rounds, in [PvaAuth] the search one for each element and one
    more.  [fw_validate_loop] has a round for each word of
    the gather.  In [NvmapColor] the loop that frees what is superfluous has as many rounds
    as pages to free, and one does it; in [NvmapPool] the loop that empties the lists has
    one for each entry and three for the ends of the lists, and filling has one for each
    page.  Buffers have at most 2^26 pages and the memory fewer than 2^31, as the counters
    have 32 bits.  The firewall theorems assume a copy of fewer than 2^30 words, since the C
    code computes byte offsets in 32 bits.  The fence theorems assume thresholds
    within 2^31 of each other, the range in which the code's signed comparison is
    an order.

    * What is not modelled

    Memory is sequentially consistent: barriers and cache maintenance have no effect,
    except for the range checks they contain.  Locks make the regions they
    protect atomic; where the code leaves a lock in the middle of an operation the
    model has two steps.  Messages to the log are left out.  Components that
    are register programming, tables or glue to a kernel framework are not
    modelled; those with logic of their own that are left out are the capture channels,
    the carveout heaps of nvmap and the mailbox protocols, whose other ends are firmware or
    a virtual machine.  Of nvmap's pages, a buffer is taken to have what [kzalloc] and
    [vmalloc] give it, and the page allocator answers what an event says, out of the pages
    it has.  Of the host1x channels, their allocation and
    reference counts, the stream ID and filter registers, the release of the engine's
    mutex by a timeout and debug output are left out; the hardware is its DMA registers,
    and it may complete jobs at any time.  Of the PVA, the checks of hardware
    sequencer programs, the ELF parser, queues and firmware are left out; tasks are
    those without a sequencer program, on the first two hardware generations.  Of the
    Tegra DRM driver, displays, engines, GEM objects and the legacy interface are left
    out; allocators, user copies, lookups and the callbacks of an engine answer what
    the environment ([submit_env], [map_answers], [open_answers]) says.  Of nvmap's handles,
    an ioctl runs to its end before another, counters do not overflow, a process has one
    file of the driver, and mappings, pins, sub-handles and buffers of other drivers are left
    out; [event_ok] excludes the failures after which the code's counts are wrong, and getfd
    given a descriptor, and the executions in [NvmapReach] show them.  Of M_TTCAN, the change
    to bus-off, the
    mode, bit-rate and time-triggered registers, error frames, probing and power
    management are left out. *)
From Stdlib Require Export ZArith Lia.
From stdpp Require Export base numbers gmap strings relations option list.

#[global] Open Scope Z_scope.

(** * Fixed-width integers

    A C integer of width w is a [Z] in its range; every operation that can leave
    the range is followed by the wrap of its type. *)
Definition u8 (z : Z) : Z := z mod 2 ^ 8.
Definition u16 (z : Z) : Z := z mod 2 ^ 16.
Definition u32 (z : Z) : Z := z mod 2 ^ 32.
Definition u64 (z : Z) : Z := z mod 2 ^ 64.
Definition s32 (z : Z) : Z := (z + 2 ^ 31) mod 2 ^ 32 - 2 ^ 31.
Definition s64 (z : Z) : Z := (z + 2 ^ 63) mod 2 ^ 64 - 2 ^ 63.

Definition is_u8 (z : Z) : Prop := 0 <= z < 2 ^ 8.
Definition is_u16 (z : Z) : Prop := 0 <= z < 2 ^ 16.
Definition is_u32 (z : Z) : Prop := 0 <= z < 2 ^ 32.
Definition is_u64 (z : Z) : Prop := 0 <= z < 2 ^ 64.
Definition is_s32 (z : Z) : Prop := - 2 ^ 31 <= z < 2 ^ 31.
Definition is_s64 (z : Z) : Prop := - 2 ^ 63 <= z < 2 ^ 63.

Ltac unfold_width :=
  unfold is_u8, is_u16, is_u32, is_u64, is_s32, is_s64, u8, u16, u32, u64, s32, s64 in *;
  change (2 ^ 8) with 256 in *; change (2 ^ 16) with 65536 in *;
  change (2 ^ 31) with 2147483648 in *; change (2 ^ 32) with 4294967296 in *;
  change (2 ^ 63) with 9223372036854775808 in *;
  change (2 ^ 64) with 18446744073709551616 in *.

(** [width_lia] is [lia] after the width wraps have been written out. *)
Ltac width_lia := unfold_width; Z.div_mod_to_equations; lia.

Lemma u8_range z : is_u8 (u8 z).
Proof. width_lia. Qed.
Lemma u16_range z : is_u16 (u16 z).
Proof. width_lia. Qed.
Lemma u32_range z : is_u32 (u32 z).
Proof. width_lia. Qed.
Lemma u64_range z : is_u64 (u64 z).
Proof. width_lia. Qed.
Lemma s32_range z : is_s32 (s32 z).
Proof. width_lia. Qed.

Lemma s64_range z : is_s64 (s64 z).
Proof. width_lia. Qed.

Lemma u8_id z : is_u8 z -> u8 z = z.
Proof. width_lia. Qed.
Lemma u16_id z : is_u16 z -> u16 z = z.
Proof. width_lia. Qed.
Lemma u32_id z : is_u32 z -> u32 z = z.
Proof. width_lia. Qed.
Lemma u64_id z : is_u64 z -> u64 z = z.
Proof. width_lia. Qed.
Lemma s32_id z : is_s32 z -> s32 z = z.
Proof. width_lia. Qed.
Lemma s64_id z : is_s64 z -> s64 z = z.
Proof. width_lia. Qed.

Create HintDb width.
#[export] Hint Resolve u8_range u16_range u32_range u64_range s32_range s64_range : width.

(** Drop the wraps of values known to be in range. *)
Ltac drop_wraps :=
  repeat first
    [ rewrite u8_id by width_lia | rewrite u16_id by width_lia
    | rewrite u32_id by width_lia | rewrite u64_id by width_lia
    | rewrite s32_id by width_lia | rewrite s64_id by width_lia ].

(** * errno values (include/uapi/asm-generic/errno*.h of the kernel) *)
Definition EPERM := 1.
Definition ENOENT := 2.
Definition EINTR := 4.
Definition E2BIG := 7.
Definition EAGAIN := 11.
Definition ENOMEM := 12.
Definition EFAULT := 14.
Definition EBUSY := 16.
Definition EINVAL := 22.
Definition ENOSPC := 28.
Definition ERANGE := 34.
Definition ENOMSG := 42.
Definition ENODATA := 61.
Definition ECONNRESET := 104.
Definition ETIMEDOUT := 110.

(** Pointers to objects the kernel allocates are opaque identities. *)
Abbreviation ptr := positive (only parsing).

(** * Lists *)

(** [list_for_each_entry] with a break: the first entry that satisfies [P],
    together with the entry visited just before it (the C loops keep it in a
    variable that starts as NULL). *)
Fixpoint scan_until {A} (P : A -> bool) (prev : option A) (l : list A)
  : option (option A * A) :=
  match l with
  | [] => None
  | x :: l' => if P x then Some (prev, x) else scan_until P (Some x) l'
  end.

Lemma scan_until_None {A} (P : A -> bool) prev l :
  scan_until P prev l = None <-> Forall (fun x => P x = false) l.
Proof.
  revert prev. induction l as [|x l IH]; intros prev; simpl.
  - split; auto.
  - destruct (P x) eqn:E; rewrite Forall_cons.
    + split; [done | intros [? ?]; congruence].
    + rewrite IH. tauto.
Qed.

(** The scan splits the list at the entry it stops at. *)
Lemma scan_until_Some {A} (P : A -> bool) prev l pv x :
  scan_until P prev l = Some (pv, x) ->
  exists l1 l2, l = l1 ++ x :: l2 /\ P x = true /\
    Forall (fun y => P y = false) l1 /\
    pv = match last l1 with Some y => Some y | None => prev end.
Proof.
  revert prev. induction l as [|y l IH]; intros prev; simpl; [done |].
  destruct (P y) eqn:E.
  - intros [= <- <-]. by exists [], l.
  - intros (l1 & l2 & -> & Hx & Hf & ->)%IH.
    exists (y :: l1), l2. split_and!; auto.
    rewrite last_cons. by destruct (last l1).
Qed.

Lemma submseteq_NoDup {A} (l k : list A) : l ⊆+ k -> NoDup k -> NoDup l.
Proof. intros [k' ->]%submseteq_Permutation. rewrite NoDup_app. tauto. Qed.

(** * Intrusive lists (include/linux/list.h)

    The kernel's lists link [struct list_head] nodes embedded in the entries, so
    an entry is removed, or gets a neighbour, by its identity.  A list is the
    sequence of its entries; [node_id] is the entry's address. *)
Class Node (A : Type) := node_id : A -> ptr.

Definition ids {A} `{Node A} (l : list A) : list ptr := node_id <$> l.

#[export] Instance ids_perm {A} `{Node A} : Proper ((≡ₚ) ==> (≡ₚ)) (@ids A _).
Proof. intros l k E. unfold ids. by rewrite E. Qed.

Definition list_del {A} `{Node A} (p : ptr) (l : list A) : list A :=
  filter (fun b => node_id b <> p) l.

(** A store to the fields of the entry [p]. *)
Definition list_upd {A} `{Node A} (p : ptr) (f : A -> A) (l : list A) : list A :=
  (fun b => if decide (node_id b = p) then f b else b) <$> l.

(** [list_add_tail(&b->node, &p->node)]: link [b] just before the entry [p]. *)
Fixpoint insert_before {A} `{Node A} (p : ptr) (b : A) (l : list A) : list A :=
  match l with
  | [] => []
  | c :: l' => if decide (node_id c = p) then b :: c :: l' else c :: insert_before p b l'
  end.

Definition find_node {A} `{Node A} (p : ptr) (l : list A) : option A :=
  snd <$> list_find (fun b => node_id b = p) l.

Section intrusive.
Context {A : Type} `{Node A}.
Implicit Types l : list A.

Lemma list_del_notin p l : p ∉ ids l -> list_del p l = l.
Proof.
  unfold ids, list_del. induction l as [|b l IH]; [done|].
  rewrite fmap_cons, not_elem_of_cons. intros [Hne Hl].
  rewrite filter_cons_True by done. by rewrite IH.
Qed.

Lemma list_del_mid l1 b l2 :
  NoDup (ids (l1 ++ b :: l2)) -> list_del (node_id b) (l1 ++ b :: l2) = l1 ++ l2.
Proof.
  unfold ids. rewrite fmap_app, fmap_cons, NoDup_app, NoDup_cons.
  intros (_ & Hd & Hb & _). unfold list_del.
  rewrite filter_app, filter_cons_False by tauto. f_equal.
  - apply list_del_notin. intros Hin. apply (Hd _ Hin). by left.
  - by apply list_del_notin.
Qed.

Lemma list_upd_notin p f l : p ∉ ids l -> list_upd p f l = l.
Proof.
  unfold ids, list_upd. induction l as [|b l IH]; [done|].
  rewrite !fmap_cons, not_elem_of_cons. intros [Hne Hl].
  rewrite IH by done. case_decide; [congruence|done].
Qed.

Lemma list_upd_mid l1 b l2 f :
  NoDup (ids (l1 ++ b :: l2)) ->
  list_upd (node_id b) f (l1 ++ b :: l2) = l1 ++ f b :: l2.
Proof.
  unfold ids. rewrite fmap_app, fmap_cons, NoDup_app, NoDup_cons.
  intros (_ & Hd & Hb & _). unfold list_upd. rewrite fmap_app, fmap_cons.
  rewrite decide_True by done. f_equal; [|f_equal].
  - apply list_upd_notin. intros Hin. apply (Hd _ Hin). by left.
  - by apply list_upd_notin.
Qed.

Lemma insert_before_mid l1 b l2 x :
  NoDup (ids (l1 ++ b :: l2)) ->
  insert_before (node_id b) x (l1 ++ b :: l2) = l1 ++ x :: b :: l2.
Proof.
  unfold ids. induction l1 as [|c l1 IH]; simpl; intros Hn.
  - by rewrite decide_True.
  - apply NoDup_cons in Hn as [Hc Hn]. rewrite decide_False; [by rewrite IH|].
    intros E. apply Hc. rewrite fmap_app, fmap_cons, E. set_solver.
Qed.

Lemma find_node_Some p l b :
  find_node p l = Some b -> node_id b = p /\ exists l1 l2, l = l1 ++ b :: l2.
Proof.
  unfold find_node. intros [[i b'] [Hf ?]]%fmap_Some. simplify_eq/=.
  apply list_find_Some in Hf as (Hl & Hid & _). split; [done|].
  apply list_elem_of_split. by eapply list_elem_of_lookup_2.
Qed.

Lemma find_node_mid l1 b l2 :
  NoDup (ids (l1 ++ b :: l2)) -> find_node (node_id b) (l1 ++ b :: l2) = Some b.
Proof.
  unfold ids. rewrite fmap_app, fmap_cons, NoDup_app, NoDup_cons. intros (_ & Hd & _).
  assert (Hf : list_find (fun c => node_id c = node_id b) (l1 ++ b :: l2) = Some (length l1, b)).
  { apply list_find_Some. rewrite list_lookup_middle by done. split_and!; try done.
    intros j y Hj Hlt Hy. rewrite lookup_app_l in Hj by done.
    apply (Hd (node_id b)); [|by left]. rewrite <- Hy.
    apply list_elem_of_fmap. eauto using list_elem_of_lookup_2. }
  unfold find_node. by rewrite Hf.
Qed.
End intrusive.

(** * Reachability *)

(** Bit fields as arithmetic. *)
Lemma land_ones_mod w k : 0 <= k -> Z.land w (2 ^ k - 1) = w mod 2 ^ k.
Proof. intros. by rewrite <- Z.land_ones, Z.ones_equiv, Z.sub_1_r. Qed.

Lemma lor_low x y n : 0 <= n -> 0 <= y < 2 ^ n -> Z.lor (x * 2 ^ n) y = x * 2 ^ n + y.
Proof.
  intros Hn Hy. symmetry. apply Z.add_nocarry_lor.
  replace y with (Z.land (2 ^ n - 1) y).
  - rewrite Z.land_assoc, land_ones_mod, Z.mod_mul by lia. apply Z.land_0_l.
  - rewrite Z.land_comm, land_ones_mod by lia. apply Z.mod_small. lia.
Qed.

(** Rule induction in the shape the invariants use. *)
Lemma rtc_preserves {A} (R : relation A) (P : A -> Prop) x y :
  rtc R x y -> P x -> (forall a b, P a -> R a b -> P b) -> P y.
Proof. induction 1; eauto. Qed.

(** * Tactics *)

(** Case analysis on the conditions of a translated C body, with the boolean
    comparisons turned into arithmetic facts. *)
Ltac zb :=
  repeat match goal with
  | H : (_ && _) = true |- _ => apply andb_true_iff in H; destruct H
  | H : (_ || _) = false |- _ => apply orb_false_iff in H; destruct H
  | H : (_ || _) = true |- _ => apply orb_true_iff in H
  | H : (_ && _) = false |- _ => apply andb_false_iff in H
  | H : negb _ = true |- _ => apply negb_true_iff in H
  | H : negb _ = false |- _ => apply negb_false_iff in H
  | H : (_ <=? _) = true |- _ => apply Z.leb_le in H
  | H : (_ <=? _) = false |- _ => apply Z.leb_gt in H
  | H : (_ <? _) = true |- _ => apply Z.ltb_lt in H
  | H : (_ <? _) = false |- _ => apply Z.ltb_ge in H
  | H : (_ =? _) = true |- _ => apply Z.eqb_eq in H
  | H : (_ =? _) = false |- _ => apply Z.eqb_neq in H
  end.

Ltac case_if :=
  match goal with
  | |- context [if ?b then _ else _] => destruct b eqn:?; zb
  | H : context [if ?b then _ else _] |- _ => destruct b eqn:?; zb
  end.
