(* ===== verification/Extent.v ===== *)
(** Address extents: the interface the range allocators of the code share.
    A component that hands out address ranges gives an [Extent] instance for its
    block type; the abstract view of a list of blocks is the list of its
    (address, size) pairs, how often each address is covered ([occ]), and the
    reference operation "insert sorted, then merge neighbours" that a release
    has to implement. *)
From Stdlib Require Import Sorting.Sorted.
From S2P Require Export Prelude.

Abbreviation iv := (Z * Z)%type (only parsing).

(** An object that occupies the addresses [fst .. fst + snd). *)
Class Extent (A : Type) := ext : A -> Z * Z.

#[export] Instance extent_iv : Extent (Z * Z) := fun i => i.

Definition ivs {A} `{Extent A} (l : list A) : list (Z * Z) := ext <$> l.

#[export] Instance ivs_perm {A} `{Extent A} : Proper ((≡ₚ) ==> (≡ₚ)) (@ivs A _).
Proof. intros l k E. unfold ivs. by rewrite E. Qed.

(** [inside i x]: 1 when the address [x] lies in [i], 0 otherwise. *)
Definition inside (i : Z * Z) (x : Z) : Z :=
  if (i.1 <=? x) && (x <? i.1 + i.2) then 1 else 0.

Fixpoint occ (l : list (Z * Z)) (x : Z) : Z :=
  match l with
  | [] => 0
  | i :: l' => inside i x + occ l' x
  end.

Definition nonempty (l : list (Z * Z)) : Prop := Forall (fun i => 0 < i.2) l.

(** The blocks tile the region: none is empty, and every address of the region
    is in exactly one of them, every other address in none. *)
Definition tiles (l : list (Z * Z)) (base size : Z) : Prop :=
  nonempty l /\ forall x, occ l x = inside (base, size) x.

(** Sorted by address with a gap between any two neighbours: a free list in
    which nothing is left to merge. *)
Definition gap (a b : Z * Z) : Prop := a.1 + a.2 < b.1.
Definition before (a b : Z * Z) : Prop := a.1 + a.2 <= b.1.
Definition separated (l : list (Z * Z)) : Prop := StronglySorted gap l.

(** * The reference release *)
Fixpoint iv_insert (r : Z * Z) (l : list (Z * Z)) : list (Z * Z) :=
  match l with
  | [] => [r]
  | c :: l' => if r.1 <? c.1 then r :: l else c :: iv_insert r l'
  end.

Fixpoint iv_merge (l : list (Z * Z)) : list (Z * Z) :=
  match l with
  | [] => []
  | a :: l' =>
      match iv_merge l' with
      | [] => [a]
      | b :: t => if a.1 + a.2 =? b.1 then (a.1, a.2 + b.2) :: t else a :: b :: t
      end
  end.

Lemma inside_range i x : 0 <= inside i x <= 1.
Proof. unfold inside. case_if; lia. Qed.

Lemma inside_true i x : i.1 <= x < i.1 + i.2 -> inside i x = 1.
Proof. unfold inside. intros. case_if; [done | ]. destruct Heqb; zb; lia. Qed.

Lemma inside_false i x : x < i.1 \/ i.1 + i.2 <= x -> inside i x = 0.
Proof. unfold inside. intros. case_if; lia. Qed.

Lemma inside_split a m n x :
  0 <= m -> 0 <= n -> inside (a, m + n) x = inside (a, m) x + inside (a + m, n) x.
Proof.
  intros. unfold inside; simpl.
  destruct (a <=? x) eqn:?, (x <? a + (m + n)) eqn:?, (x <? a + m) eqn:?,
    (a + m <=? x) eqn:?, (x <? a + m + n) eqn:?; simpl; zb; lia.
Qed.

Lemma occ_nonneg l x : 0 <= occ l x.
Proof. induction l; simpl; [lia | pose proof (inside_range a x); lia]. Qed.

Lemma occ_app l1 l2 x : occ (l1 ++ l2) x = occ l1 x + occ l2 x.
Proof. induction l1; simpl; lia. Qed.

Lemma occ_perm l1 l2 x : l1 ≡ₚ l2 -> occ l1 x = occ l2 x.
Proof. induction 1; simpl; lia. Qed.

Lemma occ_elem i l x : i ∈ l -> inside i x <= occ l x.
Proof.
  induction 1 as [|i j l Hi IH]; simpl.
  - pose proof (occ_nonneg l x). lia.
  - pose proof (inside_range j x). lia.
Qed.

Lemma tiles_perm l1 l2 base size : l1 ≡ₚ l2 -> tiles l1 base size -> tiles l2 base size.
Proof.
  intros Hp [Hn Ho]. split.
  - by unfold nonempty; rewrite <- Hp.
  - intros x. rewrite <- (Ho x). symmetry. by apply occ_perm.
Qed.

#[export] Instance tiles_proper : Proper ((≡ₚ) ==> eq ==> eq ==> iff) tiles.
Proof. intros l k E ? ? -> ? ? ->. split; by apply tiles_perm. Qed.

(** Every tile lies inside the region ... *)
Lemma tiles_within l base size i :
  tiles l base size -> i ∈ l -> base <= i.1 /\ i.1 + i.2 <= base + size.
Proof.
  intros [Hn Ho] Hi.
  assert (0 < i.2) by (eapply Forall_forall in Hn; eauto).
  assert (H1 : inside i i.1 = 1) by (apply inside_true; lia).
  assert (H2 : inside i (i.1 + i.2 - 1) = 1) by (apply inside_true; lia).
  pose proof (occ_elem i l i.1 Hi). pose proof (occ_elem i l (i.1 + i.2 - 1) Hi).
  rewrite Ho in *. unfold inside at 2 in H0. unfold inside at 2 in H3. simpl in *.
  repeat case_if; lia.
Qed.

(** ... and two different tiles do not overlap. *)
Lemma tiles_disjoint l1 a l2 b l3 base size :
  tiles (l1 ++ a :: l2 ++ b :: l3) base size -> before a b \/ before b a.
Proof.
  intros [Hn Ho]. unfold nonempty in Hn. unfold before.
  rewrite !Forall_app, !Forall_cons, !Forall_app, !Forall_cons in Hn.
  destruct (Z_le_gt_dec (a.1 + a.2) b.1) as [|Hab]; [by left|].
  destruct (Z_le_gt_dec (b.1 + b.2) a.1) as [|Hba]; [by right|].
  exfalso. set (x := Z.max a.1 b.1).
  assert (inside a x = 1) by (apply inside_true; lia).
  assert (inside b x = 1) by (apply inside_true; lia).
  specialize (Ho x). rewrite occ_app in Ho. simpl in Ho. rewrite occ_app in Ho. simpl in Ho.
  pose proof (inside_range (base, size) x).
  pose proof (occ_nonneg l1 x). pose proof (occ_nonneg l2 x). pose proof (occ_nonneg l3 x). lia.
Qed.

(** * Sorted lists of extents *)
Lemma separated_app l1 l2 :
  separated (l1 ++ l2) <->
  separated l1 /\ separated l2 /\ Forall (fun a => Forall (gap a) l2) l1.
Proof.
  unfold separated. induction l1 as [|a l1 IH]; simpl.
  - split; [intros; split_and!; auto; constructor | tauto].
  - rewrite Forall_cons. split.
    + intros [H1 H2]%StronglySorted_inv. apply IH in H1 as (?&?&?).
      rewrite Forall_app in H2. destruct H2. split_and!; auto. by constructor.
    + intros ([H1 H2]%StronglySorted_inv & H3 & H4 & H5).
      constructor; [by apply IH | by rewrite Forall_app].
Qed.

Lemma separated_cons a l : separated (a :: l) <-> Forall (gap a) l /\ separated l.
Proof.
  split; [intros [??]%StronglySorted_inv; done | intros []; by constructor].
Qed.

Lemma separated_nil : separated [].
Proof. constructor. Qed.

(** In a separated list of non-empty extents a gap to the head is a gap to all. *)
Lemma separated_gap_head a b l :
  separated (b :: l) -> nonempty (b :: l) -> gap a b -> Forall (gap a) (b :: l).
Proof.
  unfold separated, nonempty, gap. rewrite Forall_cons.
  intros [_ H]%StronglySorted_inv [? _] ?.
  constructor; [done|]. eapply Forall_impl; [exact H|]. simpl. lia.
Qed.

(** * Properties of the reference release *)
Lemma iv_insert_perm r l : iv_insert r l ≡ₚ r :: l.
Proof.
  induction l as [|c l IH]; simpl; [done|]. case_if; [done|].
  rewrite IH. constructor.
Qed.

Lemma iv_merge_head l :
  match l with
  | [] => iv_merge l = []
  | a :: l' => exists n t, iv_merge l = (a.1, n) :: t
  end.
Proof.
  destruct l as [|[a n] l]; simpl; [done|].
  destruct (iv_merge l) as [|[b m] t]; [by eauto|].
  case_if; eauto.
Qed.

(** Merging changes neither what is covered nor that no extent is empty. *)
Lemma iv_merge_nonempty l : nonempty l -> nonempty (iv_merge l).
Proof.
  unfold nonempty. induction l as [|a l IH]; simpl; [auto|].
  rewrite Forall_cons. intros [Ha Hl]. specialize (IH Hl).
  destruct (iv_merge l) as [|b t]; [by repeat constructor|].
  rewrite Forall_cons in IH. destruct IH.
  case_if; repeat (constructor; simpl in *; try lia); done.
Qed.

Lemma iv_merge_occ l x : nonempty l -> occ (iv_merge l) x = occ l x.
Proof.
  induction l as [|a l IH]; intros Hn; [done|].
  apply Forall_cons in Hn as [Ha Hl]. specialize (IH Hl).
  pose proof (iv_merge_nonempty l Hl) as Hm. simpl.
  destruct (iv_merge l) as [|b t] eqn:E; [simpl in *; lia|].
  apply Forall_cons in Hm as [Hb _].
  rewrite <- IH. case_if; simpl; [|done].
  rewrite inside_split by lia. destruct a as [a n], b as [b m]. simpl in *. subst b. lia.
Qed.

Lemma iv_merge_tiles l base size : tiles l base size -> tiles (iv_merge l) base size.
Proof.
  intros [Hn Ho]. split; [by apply iv_merge_nonempty|].
  intros x. by rewrite iv_merge_occ.
Qed.

Lemma iv_merge_separated_id l : separated l -> iv_merge l = l.
Proof.
  induction l as [|a l IH]; simpl; [done|].
  intros [Hg Hs]%separated_cons. rewrite IH by done.
  destruct l as [|b l]; [done|]. apply Forall_cons in Hg as [Hg _].
  unfold gap in Hg. case_if; [lia|done].
Qed.

(** An extent that leaves a gap to what follows is kept as it is. *)
Lemma iv_merge_cons_gap a l :
  match l with [] => True | b :: _ => gap a b end -> iv_merge (a :: l) = a :: iv_merge l.
Proof.
  intros H. simpl. pose proof (iv_merge_head l) as Hh.
  destruct l as [|b l]; [by rewrite Hh|].
  destruct Hh as (n & t & ->). simpl. unfold gap in H. case_if; [lia|done].
Qed.

Lemma iv_merge_app_gap l1 l2 :
  separated l1 ->
  match l2 with [] => True | b :: _ => Forall (fun a => gap a b) l1 end ->
  iv_merge (l1 ++ l2) = l1 ++ iv_merge l2.
Proof.
  induction l1 as [|a l1 IH]; intros Hs Hg; [done|].
  apply separated_cons in Hs as [Ha Hs]. rewrite <- !app_comm_cons.
  rewrite iv_merge_cons_gap.
  - rewrite IH; [done|done|]. destruct l2; [done|]. by apply Forall_cons in Hg as [_ Hg].
  - destruct l1 as [|b l1]; simpl.
    + destruct l2; [done|]. by apply Forall_cons in Hg as [Hg _].
    + by apply Forall_cons in Ha as [? _].
Qed.

(** A separated tiling is a single extent, the region itself: once everything is
    free again, nothing of the fragmentation is left. *)
Lemma separated_tiles_single l base size :
  0 < size -> separated l -> tiles l base size -> l = [(base, size)].
Proof.
  intros Hs Hsep Ht. destruct l as [|[a n] l].
  { destruct Ht as [_ Ho]. specialize (Ho base). rewrite inside_true in Ho; simpl in *; lia. }
  assert (Hw : forall i, i ∈ (a, n) :: l -> base <= i.1 /\ i.1 + i.2 <= base + size)
    by (intros; eapply tiles_within; eauto).
  destruct Ht as [Hn Ho]. apply Forall_cons in Hn as [Hn Hln]. simpl in Hn.
  apply separated_cons in Hsep as [Hg Hsep].
  assert (Hz : forall x, x <= a + n -> occ l x = 0).
  { intros x Hx. clear -Hg Hx. induction Hg as [|i l Hi _ IH]; simpl; [done|].
    rewrite IH. unfold gap in Hi; simpl in Hi. rewrite inside_false; lia. }
  destruct (Hw (a, n)) as [Hw1 Hw2]; [by left|]; simpl in *.
  assert (a = base) as ->.
  { destruct (Z_lt_le_dec base a); [|lia]. specialize (Ho base). simpl in Ho.
    rewrite Hz, (inside_true (base, size)), (inside_false (a, n)) in Ho; simpl in *; lia. }
  assert (n = size) as ->.
  { destruct (Z_lt_le_dec n size); [|lia]. specialize (Ho (base + n)). simpl in Ho.
    rewrite Hz, (inside_true (base, size)), (inside_false (base, n)) in Ho; simpl in *; lia. }
  destruct l as [|i l]; [done|]. exfalso.
  destruct (Hw i) as [_ Hw3]; [by right; left|].
  apply Forall_cons in Hg as [Hg _]. apply Forall_cons in Hln as [Hi _].
  unfold gap in Hg; simpl in Hg. lia.
Qed.

#[export] Hint Resolve separated_nil iv_merge_nonempty : core.

(** * Best fit

    The allocators walk the free list and keep the first smallest block that is
    large enough. *)
Section best_fit.
Context {A : Type} (sz : A -> Z) (size : Z).

Definition best_step (best : option A) (curr : A) : option A :=
  if size <=? sz curr then
    match best with
    | None => Some curr
    | Some b => if sz curr <? sz b then Some curr else best
    end
  else best.

Definition best_fit (l : list A) : option A := foldl best_step None l.

(** What the search promises about its result. *)
Definition is_best (l : list A) (r : option A) : Prop :=
  match r with
  | None => Forall (fun c => sz c < size) l
  | Some b =>
      size <= sz b /\
      (exists l1 l2, l = l1 ++ b :: l2 /\ Forall (fun c => size <= sz c -> sz b < sz c) l1) /\
      Forall (fun c => size <= sz c -> sz b <= sz c) l
  end.

Lemma best_step_is_best l best c : is_best l best -> is_best (l ++ [c]) (best_step best c).
Proof.
  unfold best_step, is_best. intros Hb. destruct best as [b|].
  - destruct Hb as (Hs & (l1 & l2 & -> & H1) & H2). case_if; [case_if|].
    + split_and!; [lia| |].
      * eexists _, []. split; [done|]. eapply Forall_impl; [exact H2|]. simpl. lia.
      * rewrite Forall_app. split; [|repeat constructor; lia].
        eapply Forall_impl; [exact H2|]. simpl. lia.
    + split_and!; [done| |].
      * exists l1, (l2 ++ [c]). by rewrite <- app_assoc.
      * rewrite Forall_app. split; [done|repeat constructor; lia].
    + split_and!; [done| |].
      * exists l1, (l2 ++ [c]). by rewrite <- app_assoc.
      * rewrite Forall_app. split; [done|repeat constructor; lia].
  - case_if.
    + split_and!; [lia| |].
      * eexists _, []. split; [done|]. eapply Forall_impl; [exact Hb|]. simpl. lia.
      * rewrite Forall_app. split; [|repeat constructor; lia].
        eapply Forall_impl; [exact Hb|]. simpl. lia.
    + rewrite Forall_app. split; [done|repeat constructor; lia].
Qed.

Lemma best_fit_is_best l : is_best l (best_fit l).
Proof.
  unfold best_fit. induction l as [|c l IH] using rev_ind; [by constructor|].
  rewrite foldl_app. by apply best_step_is_best.
Qed.
End best_fit.

(** * Releasing into a sorted, coalesced list *)
Section release.
Implicit Types (l : list (Z * Z)) (r p c : Z * Z).

Lemma iv_merge_starts (P : Z -> Prop) l :
  Forall (fun i => P i.1) l -> Forall (fun i => P i.1) (iv_merge l).
Proof.
  induction l as [|a l IH]; simpl; [done|]. intros [Ha Hl]%Forall_cons.
  specialize (IH Hl). destruct (iv_merge l) as [|b t]; [by constructor|].
  apply Forall_cons in IH as []. case_if; by repeat constructor.
Qed.

(** Merging a sorted list of disjoint extents leaves a gap between any two. *)
Lemma iv_merge_separated l :
  nonempty l -> StronglySorted before l -> separated (iv_merge l).
Proof.
  induction l as [|a l IH]; intros Hn Hs; [constructor|].
  apply Forall_cons in Hn as [Ha Hn]. apply StronglySorted_inv in Hs as [Hs Hb].
  specialize (IH Hn Hs). pose proof (iv_merge_nonempty l Hn) as Hm.
  assert (Hb' : Forall (fun i => a.1 + a.2 <= i.1) (iv_merge l)) by (by apply iv_merge_starts).
  simpl. destruct (iv_merge l) as [|b t]; [repeat constructor|].
  apply Forall_cons in Hb' as [Hb' _]. case_if.
  - apply separated_cons in IH as [Hg Ht]. apply separated_cons. split; [|done].
    eapply Forall_impl; [exact Hg|]. unfold gap. simpl. lia.
  - apply separated_cons. split; [|done].
    apply separated_gap_head; try done. unfold gap. lia.
Qed.

Lemma iv_insert_split r l1 l2 :
  Forall (fun c => c.1 <= r.1) l1 ->
  match l2 with [] => True | c :: _ => r.1 < c.1 end ->
  iv_insert r (l1 ++ l2) = l1 ++ r :: l2.
Proof.
  intros H1 H2. induction H1 as [|c l1 Hc _ IH]; simpl.
  - destruct l2 as [|c l2]; [done|]. simpl. case_if; [done|lia].
  - case_if; [lia|]. by rewrite IH.
Qed.

Lemma separated_sorted_before l : separated l -> StronglySorted before l.
Proof.
  induction 1 as [|a l _ IH Hg]; constructor; [done|].
  eapply Forall_impl; [exact Hg|]. unfold gap, before. simpl. lia.
Qed.

Lemma sorted_before_insert l1 r l2 :
  separated (l1 ++ l2) -> Forall (fun c => before c r) l1 -> Forall (before r) l2 ->
  0 < r.2 -> StronglySorted before (l1 ++ r :: l2).
Proof.
  intros Hs%separated_sorted_before H1 H2 Hr. induction l1 as [|a l1 IH]; simpl in *.
  - by constructor.
  - apply StronglySorted_inv in Hs as [Hs Ha]. apply Forall_cons in H1 as [Ha1 H1].
    constructor; [by apply IH|]. rewrite Forall_app in Ha. destruct Ha.
    rewrite Forall_app, Forall_cons. done.
Qed.

(** The reference release keeps the list coalesced and the coverage exact. *)
Lemma iv_release_separated l r :
  separated l -> nonempty l -> 0 < r.2 ->
  (forall c, c ∈ l -> before c r \/ before r c) ->
  separated (iv_merge (iv_insert r l)).
Proof.
  intros Hs Hn Hr Hd. apply iv_merge_separated.
  - unfold nonempty. rewrite iv_insert_perm. by constructor.
  - induction l as [|c l IH]; simpl; [by repeat constructor|].
    apply Forall_cons in Hn as [Hc Hn]. apply separated_cons in Hs as [Hg Hs].
    destruct (Hd c) as [Hb|Hb]; [by left| |].
    + unfold before in Hb. case_if; [lia|]. constructor.
      * apply IH; try done. intros. apply Hd. by right.
      * rewrite iv_insert_perm. constructor; [done|].
        eapply Forall_impl; [exact Hg|]. unfold gap, before. simpl. lia.
    + unfold before in Hb. case_if; [|lia]. constructor.
      * constructor; [by apply separated_sorted_before|].
        eapply Forall_impl; [exact Hg|]. unfold gap, before. simpl. lia.
      * constructor; [done|]. eapply Forall_impl; [exact Hg|]. unfold gap, before. simpl. lia.
Qed.

Lemma iv_release_tiles l r rest base size :
  tiles (l ++ r :: rest) base size -> tiles (iv_merge (iv_insert r l) ++ rest) base size.
Proof.
  intros [Hn Ho]. unfold nonempty in Hn. rewrite Forall_app, Forall_cons in Hn.
  destruct Hn as (H1 & H2 & H3).
  assert (Hi : nonempty (iv_insert r l)) by (unfold nonempty; rewrite iv_insert_perm; by constructor).
  split.
  - unfold nonempty. rewrite Forall_app. split; [by apply iv_merge_nonempty|done].
  - intros x. specialize (Ho x). rewrite occ_app in *.
    rewrite iv_merge_occ, (occ_perm _ _ _ (iv_insert_perm r l)) by done. simpl in *. lia.
Qed.

(** The four shapes a single-pass release distinguishes. *)
Lemma iv_release_alone l1 r l2 :
  separated l1 -> separated l2 -> Forall (fun c => gap c r) l1 ->
  match l2 with [] => True | c :: _ => gap r c end ->
  iv_merge (l1 ++ r :: l2) = l1 ++ r :: l2.
Proof.
  intros. rewrite iv_merge_app_gap by done. rewrite iv_merge_cons_gap by done.
  by rewrite iv_merge_separated_id.
Qed.

Lemma iv_release_next l1 r c l2 :
  separated l1 -> separated (c :: l2) -> Forall (fun a => gap a r) l1 ->
  r.1 + r.2 = c.1 ->
  iv_merge (l1 ++ r :: c :: l2) = l1 ++ (r.1, r.2 + c.2) :: l2.
Proof.
  intros ? Hs ? He. rewrite iv_merge_app_gap by done. f_equal.
  change (iv_merge (r :: c :: l2)) with
    (match iv_merge (c :: l2) with [] => [r]
     | b :: t => if r.1 + r.2 =? b.1 then (r.1, r.2 + b.2) :: t else r :: b :: t end).
  rewrite iv_merge_separated_id by done. case_if; [done|lia].
Qed.

Lemma iv_release_prev l1 p r l2 :
  separated (l1 ++ [p]) -> separated l2 -> p.1 + p.2 = r.1 ->
  match l2 with [] => True | c :: _ => gap r c end ->
  iv_merge (l1 ++ p :: r :: l2) = l1 ++ (p.1, p.2 + r.2) :: l2.
Proof.
  intros (? & _ & Hg)%separated_app ? He ?. rewrite iv_merge_app_gap; [|done|].
  - f_equal. change (iv_merge (p :: r :: l2)) with
    (match iv_merge (r :: l2) with [] => [p]
     | b :: t => if p.1 + p.2 =? b.1 then (p.1, p.2 + b.2) :: t else p :: b :: t end).
    rewrite iv_merge_cons_gap, iv_merge_separated_id by done. case_if; [done|lia].
  - eapply Forall_impl; [exact Hg|]. simpl. by intros ? [? _]%Forall_cons.
Qed.

Lemma iv_release_both l1 p r c l2 :
  separated (l1 ++ [p]) -> separated (c :: l2) -> p.1 + p.2 = r.1 -> r.1 + r.2 = c.1 ->
  iv_merge (l1 ++ p :: r :: c :: l2) = l1 ++ (p.1, p.2 + (c.2 + r.2)) :: l2.
Proof.
  intros (? & _ & Hg)%separated_app Hs He1 He2. rewrite iv_merge_app_gap; [|done|].
  - f_equal. pose proof (iv_release_next [] r c l2 separated_nil Hs (Forall_nil_2 _) He2) as E.
    simpl app in E. change (iv_merge (p :: r :: c :: l2)) with
    (match iv_merge (r :: c :: l2) with [] => [p]
     | b :: t => if p.1 + p.2 =? b.1 then (p.1, p.2 + b.2) :: t else p :: b :: t end).
    rewrite E. simpl. case_if; [|lia]. do 2 f_equal. lia.
  - eapply Forall_impl; [exact Hg|]. simpl. by intros ? [? _]%Forall_cons.
Qed.
End release.

Lemma tiles_two l1 l2 a b base size :
  tiles (l1 ++ l2) base size -> a ∈ l1 -> b ∈ l2 -> before a b \/ before b a.
Proof.
  intros Ht (x1 & x2 & ->)%list_elem_of_split (y1 & y2 & ->)%list_elem_of_split.
  eapply (tiles_disjoint x1 a (x2 ++ y1) b y2). by rewrite <- !app_assoc, <- app_comm_cons in *.
Qed.

(** * A separated list is determined by what it covers *)
Lemma occ_gap_zero a l x : Forall (gap a) l -> x <= a.1 + a.2 -> occ l x = 0.
Proof.
  intros Hg Hx. induction Hg as [|i l Hi _ IH]; simpl; [done|].
  rewrite IH. unfold gap in Hi. rewrite inside_false; lia.
Qed.

Lemma separated_head_occ a l x :
  separated (a :: l) -> 0 < a.2 -> occ (a :: l) x <> 0 -> a.1 <= x.
Proof.
  intros [Hg _]%separated_cons Ha Ho. destruct (Z_lt_le_dec x a.1); [|done].
  exfalso. apply Ho. simpl. rewrite (occ_gap_zero a l x), inside_false by (done || lia). done.
Qed.

(** Within the head's extent the coverage is exactly the head's, and the address
    just after it is not covered. *)
Lemma separated_head_end a l b k :
  separated (a :: l) -> separated (b :: k) -> 0 < a.2 -> 0 < b.2 ->
  (forall x, occ (a :: l) x = occ (b :: k) x) -> a.1 + a.2 <= b.1 + b.2.
Proof.
  intros Hl Hk Ha Hb Ho.
  destruct (Z_lt_le_dec (b.1 + b.2) (a.1 + a.2)) as [Hlt|]; [exfalso|lia].
  assert (a.1 <= b.1).
  { apply (separated_head_occ a l b.1); [done|done|]. rewrite Ho. simpl.
    rewrite inside_true by lia. pose proof (occ_nonneg k b.1). lia. }
  apply separated_cons in Hk as [Hg _]. specialize (Ho (b.1 + b.2)). simpl in Ho.
  rewrite (occ_gap_zero b k) in Ho by (done || lia).
  rewrite (inside_true a), (inside_false b) in Ho by lia. pose proof (occ_nonneg l (b.1 + b.2)). lia.
Qed.

Lemma separated_unique l k :
  separated l -> separated k -> nonempty l -> nonempty k ->
  (forall x, occ l x = occ k x) -> l = k.
Proof.
  revert k. induction l as [|a l IH]; intros [|b k] Hl Hk Hnl Hnk Ho; [done| | |].
  - apply Forall_cons in Hnk as [Hb _]. specialize (Ho b.1). simpl in Ho.
    rewrite inside_true in Ho by lia. pose proof (occ_nonneg k b.1). lia.
  - apply Forall_cons in Hnl as [Ha _]. specialize (Ho a.1). simpl in Ho.
    rewrite inside_true in Ho by lia. pose proof (occ_nonneg l a.1). lia.
  - apply Forall_cons in Hnl as [Ha Hnl]. apply Forall_cons in Hnk as [Hb Hnk].
    assert (a = b) as ->.
    { pose proof (separated_head_end a l b k Hl Hk Ha Hb Ho).
      pose proof (separated_head_end b k a l Hk Hl Hb Ha (fun x => eq_sym (Ho x))).
      assert (a.1 <= b.1).
      { apply (separated_head_occ a l b.1 Hl Ha). rewrite Ho. simpl.
        rewrite inside_true by lia. pose proof (occ_nonneg k b.1). lia. }
      assert (b.1 <= a.1).
      { apply (separated_head_occ b k a.1 Hk Hb). rewrite <- Ho. simpl.
        rewrite inside_true by lia. pose proof (occ_nonneg l a.1). lia. }
      destruct a, b. simpl in *. f_equal; lia. }
    f_equal. apply separated_cons in Hl as [_ Hl]. apply separated_cons in Hk as [_ Hk].
    apply IH; try done. intros x. specialize (Ho x). simpl in Ho. lia.
Qed.

Lemma occ_pos_elem l x : 0 < occ l x -> exists i, i ∈ l /\ i.1 <= x < i.1 + i.2.
Proof.
  induction l as [|i l IH]; simpl; [lia|]. intros Ho.
  destruct (decide (i.1 <= x < i.1 + i.2)) as [|Hn]; [exists i; split; [by left|done]|].
  rewrite inside_false in Ho by lia. destruct IH as (j & ? & ?); [lia|].
  exists j. split; [by right|done].
Qed.
