(* ===== verification/Coalesce.v ===== *)
(** Releasing a block into a sorted, coalesced intrusive free list in one pass.
    Two drivers (nvscic2c-pcie's IOVA manager and the ADSP memory manager) contain
    this loop body; it is stated once here, for any entry type with an identity
    and an extent, and proved to implement the reference release of [Extent]. *)
From S2P Require Export Extent.

Section coalesce.
Context {A : Type} {NA : Node A} {EA : Extent A}.

(** [resize b a s] is the entry [b] after its address and size fields were set. *)
Variable resize : A -> Z -> Z -> A.
Hypothesis resize_node : forall b a s, node_id (resize b a s) = node_id b.
Hypothesis resize_ext : forall b a s, ext (resize b a s) = (a, s).

Abbreviation addr b := (ext b).1 (only parsing).
Abbreviation size b := (ext b).2 (only parsing).

(** [curr] is the first free entry above [r], [prev] the entry before it. *)
Definition coalesce_at (free : list A) (r : A) (prev : option A) (curr : A) : list A :=
  if addr curr =? u64 (addr r + size r) then
    let grow b := resize b (addr r) (u64 (size b + size r)) in
    let free1 := list_upd (node_id curr) grow free in
    match prev with
    | Some pv =>
        if u64 (addr pv + size pv) =? addr r then
          list_del (node_id curr)
            (list_upd (node_id pv)
               (fun b => resize b (addr b) (u64 (size b + size (grow curr)))) free1)
        else free1
    | None => free1
    end
  else
    match prev with
    | Some pv =>
        if u64 (addr pv + size pv) =? addr r then
          list_upd (node_id pv) (fun b => resize b (addr b) (u64 (size b + size r))) free
        else insert_before (node_id curr) r free
    | None => insert_before (node_id curr) r free
    end.

(** No free entry lies above [r]; [lst] is the last one. *)
Definition coalesce_last (free : list A) (r : A) (lst : option A) : list A :=
  match lst with
  | Some lst =>
      if u64 (addr lst + size lst) =? addr r then
        list_upd (node_id lst) (fun b => resize b (addr b) (u64 (size b + size r))) free
      else free ++ [r]
  | None => free ++ [r]
  end.

(** What a caller knows about the free list and the block it releases. *)
Record releasable (free : list A) (r : A) (base rsize : Z) : Prop := {
  rb_ids : NoDup (ids free);
  rb_fresh : node_id r ∉ ids free;
  rb_sep : separated (ivs free);
  rb_within : forall b, b ∈ r :: free ->
    0 < size b /\ base <= addr b /\ addr b + size b <= base + rsize;
  rb_disjoint : forall c, c ∈ free -> before (ext c) (ext r) \/ before (ext r) (ext c);
  rb_base : 0 <= base;
  rb_top : base + rsize <= 2 ^ 64;
  rb_size : rsize < 2 ^ 64 }.

(** The outcome: the reference release, with no entry invented. *)
Record coalesced (free : list A) (r : A) (free' : list A) : Prop := {
  co_free : ivs free' = iv_merge (iv_insert (ext r) (ivs free));
  co_ids : ids free' ⊆+ node_id r :: ids free }.

Section proof.
Variables (free : list A) (r : A) (base rsize : Z).
Hypothesis Hrel : releasable free r base rsize.

Lemma r_bounds : 0 < size r /\ base <= addr r /\ addr r + size r <= base + rsize.
Proof. apply (rb_within _ _ _ _ Hrel). by left. Qed.

Lemma b_bounds b : b ∈ free -> 0 < size b /\ base <= addr b /\ addr b + size b <= base + rsize.
Proof. intros. apply (rb_within _ _ _ _ Hrel). by right. Qed.

(** Where the traversal stops: everything before lies below the released block,
    everything from there on above it. *)
Lemma release_scan :
  match scan_until (fun curr => addr r <? addr curr) None free with
  | Some (prev, curr) =>
      exists l1 l2, free = l1 ++ curr :: l2 /\ prev = last l1 /\
        Forall (fun c => before (ext c) (ext r)) l1 /\ before (ext r) (ext curr)
  | None => Forall (fun c => before (ext c) (ext r)) free
  end.
Proof.
  pose proof r_bounds as Hr.
  assert (Hb : forall c, c ∈ free -> (addr r <? addr c) = false -> before (ext c) (ext r)).
  { intros c Hc ?. zb. destruct (rb_disjoint _ _ _ _ Hrel c Hc) as [|H1]; [done|].
    unfold before in H1. lia. }
  destruct (scan_until _ _ _) as [[prev curr]|] eqn:E.
  - apply scan_until_Some in E as (l1 & l2 & Hl & Hc & Hf & Hp).
    exists l1, l2. split_and!; [done|by destruct (last l1)| |].
    + apply Forall_forall. intros c Hin. rewrite Forall_forall in Hf. apply Hb; [|by apply Hf].
      rewrite Hl. set_solver.
    + assert (Hin : curr ∈ free) by (rewrite Hl; set_solver).
      destruct (rb_disjoint _ _ _ _ Hrel curr Hin) as [H1|]; [|done].
      pose proof (b_bounds curr Hin). unfold before in H1. zb. lia.
  - apply scan_until_None in E. apply Forall_forall. intros c Hc.
    rewrite Forall_forall in E. apply Hb; [done|]. by apply E.
Qed.

(** The split list, seen as extents. *)
Lemma insert_at l1 l2 :
  free = l1 ++ l2 ->
  Forall (fun c => before (ext c) (ext r)) l1 ->
  match l2 with [] => True | c :: _ => before (ext r) (ext c) end ->
  iv_insert (ext r) (ivs free) = ivs l1 ++ ext r :: ivs l2.
Proof.
  intros Hl H1 H2. rewrite Hl. unfold ivs. rewrite fmap_app. apply iv_insert_split.
  - apply Forall_fmap. apply Forall_forall. intros c Hc. rewrite Forall_forall in H1.
    specialize (H1 _ Hc). destruct (b_bounds c); [rewrite Hl; set_solver|].
    unfold before in H1. simpl in *. lia.
  - destruct l2 as [|c l2]; [done|]. simpl. unfold before in H2. pose proof r_bounds. lia.
Qed.

Lemma sep_split l1 l2 : free = l1 ++ l2 -> separated (ivs l1) /\ separated (ivs l2).
Proof.
  intros Hl. pose proof (rb_sep _ _ _ _ Hrel) as Hs. rewrite Hl in Hs. unfold ivs in Hs.
  rewrite fmap_app, separated_app in Hs. tauto.
Qed.

(** A block that ends below the released one, or touches it, when not merged. *)
Lemma prev_gaps l1 l2 :
  free = l1 ++ l2 ->
  Forall (fun c => before (ext c) (ext r)) l1 ->
  match last l1 with Some p => addr p + size p <> addr r | None => True end ->
  Forall (fun c => gap c (ext r)) (ivs l1).
Proof.
  intros Hl H1 Hlast. destruct l1 as [|p l1 _] using rev_ind; [by constructor|].
  rewrite last_snoc in Hlast. rewrite Forall_app in H1. destruct H1 as [H1 Hp].
  apply Forall_cons in Hp as [Hp _]. unfold before in Hp.
  destruct (sep_split _ _ Hl) as [Hs _]. unfold ivs in *.
  rewrite fmap_app, separated_app in Hs. destruct Hs as (_ & _ & Hg).
  rewrite fmap_app, Forall_app. split; [|repeat constructor; unfold gap; simpl; lia].
  eapply Forall_impl; [exact Hg|]. simpl. intros a [Ha _]%Forall_cons.
  destruct (b_bounds p); [rewrite Hl; set_solver|]. unfold gap in *. lia.
Qed.

(** Addresses and sums of the blocks involved do not wrap. *)
Lemma sum_id b c :
  b ∈ r :: free -> c ∈ r :: free -> before (ext b) (ext c) ->
  u64 (addr b + size b) = addr b + size b.
Proof.
  intros Hb Hc Hbc. pose proof (rb_within _ _ _ _ Hrel b Hb). pose proof (rb_within _ _ _ _ Hrel c Hc).
  destruct Hrel. unfold before in Hbc. unfold u64. rewrite Z.mod_small; lia.
Qed.

Lemma size_sum_id b : b ∈ free -> u64 (size b + size r) = size b + size r.
Proof.
  intros Hb. pose proof (b_bounds b Hb). pose proof r_bounds.
  pose proof (rb_disjoint _ _ _ _ Hrel b Hb) as Hd. unfold before in Hd.
  destruct Hrel. unfold u64. rewrite Z.mod_small; lia.
Qed.

Lemma ids_mid l1 (b : A) l2 : ids (l1 ++ b :: l2) = ids l1 ++ node_id b :: ids l2.
Proof. unfold ids. by rewrite fmap_app, fmap_cons. Qed.

Lemma coalesce_last_spec :
  Forall (fun c => before (ext c) (ext r)) free ->
  coalesced free r (coalesce_last free r (last free)).
Proof.
  intros Hb. pose proof (rb_ids _ _ _ _ Hrel) as Hn. unfold coalesce_last.
  pose proof (insert_at free []) as Hi. rewrite app_nil_r in Hi. specialize (Hi eq_refl Hb I).
  pose proof (prev_gaps free []) as Hg. rewrite app_nil_r in Hg. specialize (Hg eq_refl Hb).
  pose proof (rb_sep _ _ _ _ Hrel) as Hs.
  assert (Hadd : Forall (fun c => gap c (ext r)) (ivs free) -> coalesced free r (free ++ [r])).
  { intros Hgap. split.
    - rewrite Hi. change (ivs []) with (@nil (Z * Z)). rewrite iv_release_alone by done.
      unfold ivs. by rewrite fmap_app.
    - unfold ids. rewrite fmap_app. simpl. by rewrite Permutation_app_comm. }
  destruct (last free) as [p|] eqn:El; [|by apply Hadd, Hg].
  apply last_Some in El as [l1 El].
  assert (Hp : p ∈ free) by (rewrite El; set_solver).
  assert (Hbp : before (ext p) (ext r)) by (by eapply Forall_forall in Hb; eauto).
  rewrite (sum_id p r); [|set_solver|set_solver|done].
  case_if; [|by apply Hadd, Hg].
  rewrite El at 2. rewrite (list_upd_mid l1 p []) by (by rewrite <- El). split.
  - rewrite Hi, El. unfold ivs. rewrite !fmap_app. cbn [fmap list_fmap].
    rewrite <- app_assoc. cbn [app].
    pose proof (iv_release_prev (ivs l1) (ext p) (ext r) []) as Hm. unfold ivs in Hm.
    rewrite Hm; [|by rewrite El in Hs; unfold ivs in Hs; rewrite fmap_app in Hs|constructor|done|done].
    by rewrite resize_ext, size_sum_id.
  - rewrite El, !ids_mid, resize_node. apply submseteq_cons. done.
Qed.

Section at_next.
Variables (l1 l2 : list A) (curr : A).
Hypothesis Hfree : free = l1 ++ curr :: l2.
Hypothesis Hbelow : Forall (fun c => before (ext c) (ext r)) l1.
Hypothesis Habove : before (ext r) (ext curr).

Lemma curr_in : curr ∈ free.
Proof. rewrite Hfree. set_solver. Qed.

Lemma at_insert : iv_insert (ext r) (ivs free) = ivs l1 ++ ext r :: ivs (curr :: l2).
Proof. by apply insert_at. Qed.

Lemma at_nodup : NoDup (ids (l1 ++ curr :: l2)).
Proof. rewrite <- Hfree. apply Hrel. Qed.

Lemma at_end : u64 (addr r + size r) = addr r + size r.
Proof. apply (sum_id r curr); [set_solver|pose proof curr_in; set_solver|done]. Qed.

Lemma at_prev_end p : last l1 = Some p -> u64 (addr p + size p) = addr p + size p.
Proof.
  intros [l' ->]%last_Some. apply (sum_id p r); [rewrite Hfree; set_solver|set_solver|].
  rewrite Forall_app, Forall_cons in Hbelow. tauto.
Qed.

(** No neighbour touches the released block. *)
Lemma coalesce_insert_spec :
  addr curr <> addr r + size r ->
  match last l1 with Some p => addr p + size p <> addr r | None => True end ->
  coalesced free r (insert_before (node_id curr) r free).
Proof.
  intros Hne Hl. pose proof at_nodup. rewrite Hfree at 2. rewrite insert_before_mid by done. split.
  - rewrite at_insert, iv_release_alone; [by unfold ivs; rewrite fmap_app| | | |].
    + apply (sep_split _ _ Hfree).
    + apply (sep_split _ _ Hfree).
    + by eapply prev_gaps.
    + unfold before in Habove. unfold gap. simpl in *. lia.
  - rewrite Hfree, !ids_mid. by rewrite Permutation_middle.
Qed.

(** The next block touches it, the previous one does not. *)
Lemma coalesce_next_spec :
  addr curr = addr r + size r ->
  match last l1 with Some p => addr p + size p <> addr r | None => True end ->
  coalesced free r
    (list_upd (node_id curr) (fun b => resize b (addr r) (u64 (size b + size r))) free).
Proof.
  intros Heq Hl. pose proof at_nodup. rewrite Hfree at 2. rewrite list_upd_mid by done. split.
  - rewrite at_insert. change (ivs (curr :: l2)) with (ext curr :: ivs l2).
    rewrite iv_release_next; [|apply (sep_split _ _ Hfree)|apply (sep_split _ _ Hfree)
                              |by eapply prev_gaps|lia].
    unfold ivs. rewrite fmap_app, fmap_cons, resize_ext, (size_sum_id curr curr_in).
    by rewrite Z.add_comm.
  - rewrite Hfree, !ids_mid, resize_node. by apply submseteq_cons.
Qed.

(** The free list, split around the previous block. *)
Lemma at_prev_split p : last l1 = Some p ->
  exists l0, l1 = l0 ++ [p] /\ free = l0 ++ p :: curr :: l2 /\ p ∈ free /\
    separated (ivs l0 ++ [ext p]) /\ separated (ivs (curr :: l2)).
Proof.
  intros [l0 El]%last_Some. exists l0.
  assert (Hf : free = l0 ++ p :: curr :: l2) by (by rewrite Hfree, El, <- app_assoc).
  split_and!; [done|done|rewrite Hf; set_solver| |apply (sep_split _ _ Hfree)].
  destruct (sep_split _ _ Hfree) as [Hs _]. rewrite El in Hs. unfold ivs in Hs.
  by rewrite fmap_app in Hs.
Qed.

(** The previous block touches it, the next one does not. *)
Lemma coalesce_prev_spec p :
  addr curr <> addr r + size r -> last l1 = Some p -> addr p + size p = addr r ->
  coalesced free r
    (list_upd (node_id p) (fun b => resize b (addr b) (u64 (size b + size r))) free).
Proof.
  intros Hne Hl Heq. destruct (at_prev_split p Hl) as (l0 & El & Hf & Hp & Hs1 & Hs2).
  rewrite Hf at 2. rewrite list_upd_mid by (rewrite <- Hf; apply Hrel). split.
  - rewrite at_insert, El. unfold ivs in *. rewrite !fmap_app, <- app_assoc.
    cbn [fmap list_fmap app]. rewrite iv_release_prev; [|done|done|done|].
    + by rewrite resize_ext, (size_sum_id p Hp).
    + unfold before in Habove. unfold gap. simpl in *. lia.
  - rewrite Hf, !ids_mid, resize_node. by apply submseteq_cons.
Qed.

(** Both touch it: two blocks disappear. *)
Lemma coalesce_both_spec p :
  addr curr = addr r + size r -> last l1 = Some p -> addr p + size p = addr r ->
  coalesced free r
    (list_del (node_id curr)
      (list_upd (node_id p)
         (fun b => resize b (addr b)
                     (u64 (size b + size (resize curr (addr r) (u64 (size curr + size r))))))
        (list_upd (node_id curr) (fun b => resize b (addr r) (u64 (size b + size r))) free))).
Proof.
  intros Heq Hl Hpe. pose proof at_nodup as Hn.
  destruct (at_prev_split p Hl) as (l0 & El & Hf & Hp & Hs1 & Hs2).
  rewrite Hfree at 2. rewrite (list_upd_mid l1 curr l2), El, <- app_assoc by done. cbn [app].
  set (curr' := resize curr (addr r) (u64 (size curr + size r))).
  assert (Hn' : NoDup (ids (l0 ++ p :: curr' :: l2))).
  { rewrite El, <- app_assoc in Hn. unfold ids in *. rewrite !fmap_app in *.
    cbn [fmap list_fmap app] in *. unfold curr'. by rewrite resize_node. }
  rewrite (list_upd_mid l0 p) by done. set (p' := resize p _ _).
  assert (Hd : list_del (node_id curr) (l0 ++ p' :: curr' :: l2) = l0 ++ p' :: l2).
  { pose proof (list_del_mid (l0 ++ [p']) curr' l2) as Hd. rewrite <- !app_assoc in Hd.
    cbn [app] in Hd. unfold curr' in Hd at 2. rewrite resize_node in Hd. apply Hd.
    unfold ids in *. rewrite !fmap_app, !fmap_cons in *. unfold p'. by rewrite resize_node. }
  rewrite Hd. pose proof (size_sum_id curr curr_in) as Hcs. split.
  - rewrite at_insert, El. unfold ivs in *. rewrite !fmap_app, <- app_assoc.
    cbn [fmap list_fmap app]. rewrite iv_release_both by done.
    unfold p', curr'. rewrite !resize_ext. simpl. rewrite Hcs.
    assert (Htot : u64 (size p + (size curr + size r)) = size p + (size curr + size r)); [|by rewrite Htot].
    pose proof (b_bounds p Hp). pose proof (b_bounds curr curr_in). pose proof r_bounds.
    destruct Hrel. unfold u64. rewrite Z.mod_small; lia.
  - rewrite Hf, !ids_mid. unfold p'. rewrite resize_node. apply submseteq_cons.
    apply submseteq_app; [done|]. by apply submseteq_skip, submseteq_cons.
Qed.

Lemma coalesce_at_spec : coalesced free r (coalesce_at free r (last l1) curr).
Proof.
  unfold coalesce_at. rewrite at_end.
  destruct (last l1) as [p|] eqn:El.
  - pose proof (at_prev_end p El) as Hp. case_if; rewrite Hp; case_if.
    + by apply coalesce_both_spec.
    + apply coalesce_next_spec; [done|by rewrite El].
    + by apply coalesce_prev_spec.
    + apply coalesce_insert_spec; [done|by rewrite El].
  - case_if.
    + apply coalesce_next_spec; [done|by rewrite El].
    + apply coalesce_insert_spec; [done|by rewrite El].
Qed.
End at_next.

(** What a caller needs: the scan, then one of the two bodies. *)
Lemma coalesce_spec :
  match scan_until (fun curr => addr r <? addr curr) None free with
  | Some (prev, curr) => coalesced free r (coalesce_at free r prev curr)
  | None => coalesced free r (coalesce_last free r (last free))
  end.
Proof.
  pose proof release_scan as Hs. destruct (scan_until _ _ _) as [[prev curr]|].
  - destruct Hs as (l1 & l2 & Hl & -> & Hb & Ha). by eapply coalesce_at_spec.
  - by apply coalesce_last_spec.
Qed.
End proof.
End coalesce.
