(* ===== verification/Pool.v ===== *)
(** The invariant the range allocators share: a pool of blocks, some free and
    some taken, that together tile a region, with the free list sorted and
    coalesced.  Taking a block (whole, or split off) and putting one back (as
    [Coalesce] does) preserve it.  The order of the taken list does not matter. *)
From S2P Require Export Coalesce.

Section pool.
Context {A : Type} {NA : Node A} {EA : Extent A}.
Implicit Types (free taken : list A) (b r : A).

Record pool_wf free taken (base rsize : Z) : Prop := {
  pw_ids : NoDup (ids (free ++ taken));
  pw_sep : separated (ivs free);
  pw_tiles : tiles (ivs (free ++ taken)) base rsize;
  pw_base : 0 <= base;
  pw_top : base + rsize <= 2 ^ 64;
  pw_size : rsize < 2 ^ 64 }.

Lemma pool_perm free taken taken' base rsize :
  taken ≡ₚ taken' -> pool_wf free taken base rsize -> pool_wf free taken' base rsize.
Proof. intros Hp [H1 H2 H3 ???]. split; try done; by rewrite <- Hp. Qed.

#[export] Instance pool_wf_proper free :
  Proper ((≡ₚ) ==> eq ==> eq ==> iff) (pool_wf free).
Proof. intros t t' Ht ? ? -> ? ? ->. split; apply pool_perm; by rewrite Ht. Qed.

Section wf.
Variables (free taken : list A) (base rsize : Z).
Hypothesis Hwf : pool_wf free taken base rsize.

Lemma pool_within b :
  b ∈ free ++ taken ->
  0 < (ext b).2 /\ base <= (ext b).1 /\ (ext b).1 + (ext b).2 <= base + rsize.
Proof.
  intros Hb. pose proof (pw_tiles _ _ _ _ Hwf) as Ht.
  assert (Hi : ext b ∈ ivs (free ++ taken)) by (by apply list_elem_of_fmap_2).
  split; [|by apply (tiles_within _ _ _ _ Ht Hi)].
  destruct Ht as [Hn _]. unfold nonempty in Hn. rewrite Forall_forall in Hn. exact (Hn (ext b) Hi).
Qed.

Lemma pool_free_nonempty : nonempty (ivs free).
Proof.
  destruct (pw_tiles _ _ _ _ Hwf) as [Hn _]. unfold nonempty, ivs in *.
  rewrite fmap_app, Forall_app in Hn. tauto.
Qed.

Lemma pool_disjoint c r :
  c ∈ free -> r ∈ taken -> before (ext c) (ext r) \/ before (ext r) (ext c).
Proof.
  intros Hc Hr. pose proof (pw_tiles _ _ _ _ Hwf) as Ht. unfold ivs in Ht. rewrite fmap_app in Ht.
  eapply tiles_two; [exact Ht| |]; by apply list_elem_of_fmap_2.
Qed.

Lemma pool_taken_disjoint r1 r2 t :
  taken ≡ₚ r1 :: r2 :: t -> before (ext r1) (ext r2) \/ before (ext r2) (ext r1).
Proof.
  intros Hp. pose proof (pw_tiles _ _ _ _ Hwf) as Ht. rewrite Hp in Ht. unfold ivs in Ht.
  rewrite fmap_app, !fmap_cons in Ht. by apply (tiles_disjoint _ _ [] _ _ _ _ Ht).
Qed.

Lemma pool_ids_split : NoDup (ids free) /\ NoDup (ids taken) /\
  forall p, p ∈ ids free -> p ∉ ids taken.
Proof.
  pose proof (pw_ids _ _ _ _ Hwf) as Hn. unfold ids in *. rewrite fmap_app, NoDup_app in Hn. tauto.
Qed.

Lemma pool_releasable r : r ∈ taken -> releasable free r base rsize.
Proof.
  intros Hr. destruct pool_ids_split as (Hn1 & _ & Hd). destruct Hwf. split; try done.
  - intros Hin. apply (Hd _ Hin). by apply list_elem_of_fmap_2.
  - intros b Hb. apply pool_within. set_solver.
  - intros c Hc. by apply pool_disjoint.
Qed.

(** Putting a taken block back. *)
Lemma pool_release r taken' free' :
  taken ≡ₚ r :: taken' -> coalesced free r free' -> pool_wf free' taken' base rsize.
Proof.
  intros Hp [Hfree Hids].
  assert (Hr : r ∈ taken) by (rewrite Hp; by left).
  pose proof (pool_disjoint) as Hd. pose proof pool_free_nonempty as Hnf.
  destruct (pool_within r) as (Hsr & _ & _); [set_solver|].
  destruct Hwf as [Hn Hs Ht ???]. split; try done.
  - rewrite Hp in Hn. unfold ids in *. rewrite fmap_app in *. rewrite fmap_cons in Hn.
    eapply submseteq_NoDup; [|exact Hn].
    transitivity ((node_id r :: (node_id <$> free)) ++ (node_id <$> taken')).
    { by apply submseteq_app. }
    by rewrite <- Permutation_middle.
  - rewrite Hfree. apply iv_release_separated; try done.
    intros c Hc. apply list_elem_of_fmap in Hc as (b & -> & Hb'). by apply Hd.
  - rewrite Hp in Ht. unfold ivs in *. rewrite fmap_app in *. rewrite Hfree.
    by apply iv_release_tiles.
Qed.

(** Taking a whole free block (its other fields may change). *)
Lemma pool_take best best' l1 l2 :
  free = l1 ++ best :: l2 -> node_id best' = node_id best -> ext best' = ext best ->
  pool_wf (l1 ++ l2) (best' :: taken) base rsize.
Proof.
  intros El Hid Hext. destruct Hwf as [Hn Hs Ht ???]. rewrite El in *.
  assert (Hp : forall x : A, (l1 ++ l2) ++ x :: taken ≡ₚ (l1 ++ x :: l2) ++ taken).
  { intros x. by rewrite <- (Permutation_middle (l1 ++ l2)), <- (Permutation_middle l1 l2). }
  split; try done.
  - rewrite Hp. unfold ids in *. rewrite !fmap_app, fmap_cons in *. by rewrite Hid.
  - unfold ivs in *. rewrite fmap_app in *.
    apply separated_app in Hs as (? & [_ ?]%separated_cons & Hg).
    apply separated_app. split_and!; try done.
    eapply Forall_impl; [exact Hg|]. simpl. by intros ? [_ ?]%Forall_cons.
  - rewrite Hp. unfold ivs in *. rewrite !fmap_app, fmap_cons in *. by rewrite Hext.
Qed.

(** Splitting [req] bytes off the low end of a free block. *)
Lemma pool_split best rest b req l1 l2 :
  free = l1 ++ best :: l2 -> 0 < req < (ext best).2 ->
  node_id rest = node_id best -> ext rest = ((ext best).1 + req, (ext best).2 - req) ->
  ext b = ((ext best).1, req) -> node_id b ∉ ids (free ++ taken) ->
  pool_wf (l1 ++ rest :: l2) (b :: taken) base rsize.
Proof.
  intros El Hreq Hid Hrest Hb Hfresh. destruct Hwf as [Hn Hs Ht ???]. rewrite El in *.
  assert (Hperm : (l1 ++ rest :: l2) ++ b :: taken ≡ₚ rest :: b :: (l1 ++ l2) ++ taken).
  { rewrite <- (Permutation_middle _ taken), <- (Permutation_middle l1 l2). cbn [app]. constructor. }
  assert (Hperm0 : (l1 ++ best :: l2) ++ taken ≡ₚ best :: (l1 ++ l2) ++ taken).
  { by rewrite <- Permutation_middle. }
  split; try done.
  - rewrite Hperm0 in Hn, Hfresh. rewrite Hperm. unfold ids in *. rewrite !fmap_cons in *.
    apply NoDup_cons in Hn as [? ?]. apply not_elem_of_cons in Hfresh as [? ?].
    rewrite Hid. apply NoDup_cons. split; [|by apply NoDup_cons].
    rewrite not_elem_of_cons. split; [congruence|done].
  - unfold ivs in *. rewrite fmap_app, fmap_cons in *. rewrite Hrest.
    apply separated_app in Hs as (? & [Hg ?]%separated_cons & Hgs).
    apply separated_app. split_and!; [done| |].
    + apply separated_cons. split; [|done]. eapply Forall_impl; [exact Hg|].
      unfold gap. simpl. lia.
    + eapply Forall_impl; [exact Hgs|]. simpl. intros ? [Hg1 ?]%Forall_cons.
      constructor; [|done]. unfold gap in *. simpl in *. lia.
  - rewrite Hperm0 in Ht. rewrite Hperm. unfold ivs in *. rewrite !fmap_cons in *.
    destruct Ht as [Hne Ho]. apply Forall_cons in Hne as [_ Hne]. rewrite Hrest, Hb. split.
    + repeat (constructor; simpl; [lia|]). done.
    + intros x. rewrite <- (Ho x). simpl. destruct (ext best) as [a s]. simpl.
      replace s with (req + (s - req)) at 2 by lia.
      rewrite (inside_split a) by (simpl in *; lia). lia.
Qed.
End wf.

(** What is free is determined by what is taken. *)
Lemma pool_canonical free1 taken1 free2 taken2 base rsize :
  pool_wf free1 taken1 base rsize -> pool_wf free2 taken2 base rsize ->
  ivs taken1 ≡ₚ ivs taken2 -> ivs free1 = ivs free2.
Proof.
  intros Hwf1 Hwf2 Hp. apply separated_unique; eauto using pw_sep, pool_free_nonempty.
  intros x. pose proof (occ_perm _ _ x Hp).
  pose proof (proj2 (pw_tiles _ _ _ _ Hwf1) x) as E1. pose proof (proj2 (pw_tiles _ _ _ _ Hwf2) x) as E2.
  unfold ivs in *. rewrite fmap_app, occ_app in E1, E2. lia.
Qed.

(** An empty taken list leaves the region as one free extent. *)
Lemma pool_all_free free base rsize :
  0 < rsize -> pool_wf free [] base rsize -> ivs free = [(base, rsize)].
Proof.
  intros Hs [_ Hsep Ht ???]. rewrite app_nil_r in Ht. by apply separated_tiles_single.
Qed.

(** The pool a freshly initialised allocator has. *)
Lemma pool_init b base rsize :
  ext b = (base, rsize) -> 0 <= base -> 0 < rsize < 2 ^ 64 -> base + rsize <= 2 ^ 64 ->
  pool_wf [b] [] base rsize.
Proof.
  intros He ???. split; simpl; try lia.
  - apply NoDup_singleton.
  - repeat constructor.
  - unfold ivs. simpl. rewrite He. split; [constructor; simpl; [lia|constructor]|].
    intros x. simpl. lia.
Qed.
End pool.
