(* ===== verification/IovaMngr.v ===== *)
(** The IOVA space manager of the nvscic2c-pcie driver
    (src/drivers/misc/nvscic2c-pcie/iova-mngr.c): a best-fit allocator over a
    free list that is kept sorted and coalesced, and a reserved list.

    A block is a heap object with an identity (its address as a [void *]
    handle); the two circular lists are the sequences of their entries.  kzalloc
    is a parameter of each call: [None] is NULL, [Some p] a fresh object. *)
From S2P Require Export Pool.

Definition NAME_MAX := 255.

Record block_t := Block { node : ptr; address : Z; size : Z }.

#[export] Instance block_node : Node block_t := node.
#[export] Instance block_extent : Extent block_t := fun b => (address b, size b).

Record mngr_ctx_t := MngrCtx {
  name : string;
  free_list : list block_t;
  reserved_list : list block_t;
  base_address : Z }.

Definition set_lists (ctx : mngr_ctx_t) (free reserved : list block_t) : mngr_ctx_t :=
  MngrCtx (name ctx) free reserved (base_address ctx).

(** The out parameters of a call next to its return value. *)
Record reserve_result := ReserveResult {
  rr_ret : Z;
  rr_ctx : option mngr_ctx_t;
  rr_address : option Z;
  rr_offset : option Z;
  rr_handle : option ptr }.

(** The search loop of [iova_mngr_block_reserve]. *)
Definition find_best (req : Z) (free : list block_t) : option block_t :=
  best_fit size req free.

(** [mngr_handle], [addr] and [offset] are pointers ([None] is NULL; [addr] and
    [offset] carry the pointed-to value), [*block_handle] is the value of the
    handle on entry. *)
Definition iova_mngr_block_reserve (mngr_handle : option mngr_ctx_t) (req : Z)
    (addr offset : option Z) (block_handle : option ptr) (kzalloc : option ptr)
    : reserve_result :=
  let fail ret := ReserveResult ret mngr_handle addr offset block_handle in
  match mngr_handle, block_handle with
  | None, _ => fail (- EINVAL)
  | Some _, Some _ => fail (- EINVAL)
  | Some ctx, None =>
      if req =? 0 then fail (- EINVAL) else
      match free_list ctx with
      | [] => fail (- ENOMEM)
      | _ :: _ =>
          let publish ctx' found :=
            ReserveResult 0 (Some ctx')
              ((fun _ => address found) <$> addr)
              ((fun _ => u64 (address found - base_address ctx)) <$> offset)
              (Some (node found)) in
          match find_best req (free_list ctx) with
          | None => fail (- ENOMEM)
          | Some best =>
              if size best =? req then
                publish (set_lists ctx (list_del (node best) (free_list ctx))
                           (reserved_list ctx ++ [best])) best
              else
                match kzalloc with
                | None => fail (- ENOMEM)
                | Some p =>
                    let reserve := Block p (address best) req in
                    publish (set_lists ctx
                      (list_upd (node best)
                         (fun b => Block (node b) (u64 (address b + req)) (u64 (size b - req)))
                         (free_list ctx))
                      (reserved_list ctx ++ [reserve])) reserve
                end
          end
      end
  end.

(** The body of the traversal in [iova_mngr_block_release], at the first free
    block [curr] that lies above the released one; [prev] is the free block
    before it. *)
Definition release_at (ctx : mngr_ctx_t) (release : block_t)
    (prev : option block_t) (curr : block_t) : mngr_ctx_t :=
  let reserved := list_del (node release) (reserved_list ctx) in
  let free := list_del (node release) (free_list ctx) in
  if address curr =? u64 (address release + size release) then
    (* merge with the next block *)
    let grow b := Block (node b) (address release) (u64 (size b + size release)) in
    let free1 := list_upd (node curr) grow free in
    match prev with
    | Some pv =>
        if u64 (address pv + size pv) =? address release then
          (* and with the previous one *)
          set_lists ctx
            (list_del (node curr)
              (list_upd (node pv)
                 (fun b => Block (node b) (address b) (u64 (size b + size (grow curr)))) free1))
            reserved
        else set_lists ctx free1 reserved
    | None => set_lists ctx free1 reserved
    end
  else
    let insert := set_lists ctx (insert_before (node curr) release free) reserved in
    match prev with
    | Some pv =>
        if u64 (address pv + size pv) =? address release then
          set_lists ctx
            (list_upd (node pv)
               (fun b => Block (node b) (address b) (u64 (size b + size release))) free)
            reserved
        else insert
    | None => insert
    end.

(** The code after the traversal when no free block lies above. *)
Definition release_last (ctx : mngr_ctx_t) (release : block_t) : mngr_ctx_t :=
  let reserved := list_del (node release) (reserved_list ctx) in
  let free := list_del (node release) (free_list ctx) in
  match last (free_list ctx) with
  | Some lst =>
      if u64 (address lst + size lst) =? address release then
        set_lists ctx
          (list_upd (node lst)
             (fun b => Block (node b) (address b) (u64 (size b + size release))) free)
          reserved
      else set_lists ctx (free ++ [release]) reserved
  | None => set_lists ctx (free ++ [release]) reserved
  end.

(** [iova_mngr_block_release]: the return value, the manager and the handle
    afterwards; [None] when the handle is a dangling pointer (a use after free,
    for which C defines no result). *)
Definition iova_mngr_block_release (mngr_handle : option mngr_ctx_t)
    (block_handle : option ptr) : option (Z * option mngr_ctx_t * option ptr) :=
  match mngr_handle, block_handle with
  | None, _ | _, None => Some (- EINVAL, mngr_handle, block_handle)
  | Some ctx, Some h =>
      match find_node h (reserved_list ctx ++ free_list ctx) with
      | None => None
      | Some release =>
          let ctx' :=
            match scan_until (fun curr => address release <? address curr) None
                    (free_list ctx) with
            | Some (prev, curr) => release_at ctx release prev curr
            | None => release_last ctx release
            end in
          Some (0, Some ctx', None)
      end
  end.

(** * Initialisation and teardown *)

(** A [struct list_head *] member: NULL, pointing to the zeroed memory kzalloc
    returns (the [next] pointer is NULL), or an initialised circular list. *)
Inductive list_head (A : Type) : Type :=
  | LH_null
  | LH_zeroed
  | LH_init (entries : list A).
Arguments LH_null {A}.
Arguments LH_zeroed {A}.
Arguments LH_init {A} entries.

(** Traversing the first two faults on a NULL pointer. *)
Definition traverse {A} (h : list_head A) : option (list A) :=
  match h with LH_init l => Some l | LH_null | LH_zeroed => None end.

(** The members a context has while [iova_mngr_init] fills it in. *)
Record raw_ctx := RawCtx {
  raw_name : string;
  raw_free : list_head block_t;
  raw_reserved : list_head block_t;
  raw_base : Z }.

Definition raw_of (ctx : mngr_ctx_t) : raw_ctx :=
  RawCtx (name ctx) (LH_init (free_list ctx)) (LH_init (reserved_list ctx)) (base_address ctx).

(** The loop of [iova_mngr_deinit] that releases what clients still hold. *)
Fixpoint release_all (hs : list ptr) (ctx : mngr_ctx_t) : option mngr_ctx_t :=
  match hs with
  | [] => Some ctx
  | h :: hs' =>
      match iova_mngr_block_release (Some ctx) (Some h) with
      | Some (_, Some ctx', _) => release_all hs' ctx'
      | _ => None
      end
  end.

(** [iova_mngr_deinit]: [None] is a NULL dereference; otherwise the blocks the
    last loop frees ([*mngr_handle] is NULL afterwards). *)
Definition iova_mngr_deinit (mngr_handle : option raw_ctx) : option (list block_t) :=
  match mngr_handle with
  | None => Some []
  | Some raw =>
      (* iova_mngr_print walks both lists *)
      match traverse (raw_reserved raw), traverse (raw_free raw) with
      | Some reserved, Some free =>
          let ctx := MngrCtx (raw_name raw) free reserved (raw_base raw) in
          free_list <$> release_all (ids reserved) ctx
      | _, _ => None
      end
  end.

(** Outcomes of the allocations [iova_mngr_init] makes, in order. *)
Record init_kzalloc := InitKzalloc {
  kz_ctx : bool; kz_free_list : bool; kz_reserved_list : bool; kz_block : option ptr }.

(** [mngr_handle]: [None] is a NULL argument, [Some h] has [*mngr_handle = h].
    The result is the return value and [*mngr_handle]; [None] a NULL
    dereference. *)
Definition iova_mngr_init (nm : option string) (base sz : Z)
    (mngr_handle : option (option mngr_ctx_t)) (kz : init_kzalloc)
    : option (Z * option (option mngr_ctx_t)) :=
  let err ret raw :=
    match iova_mngr_deinit raw with
    | Some _ => Some (ret, mngr_handle)
    | None => None
    end in
  match nm, mngr_handle with
  | Some nm, Some None =>
      if (base =? 0) || (sz =? 0) then Some (- EINVAL, mngr_handle)
      else if negb (kz_ctx kz) then err (- ENOMEM) None
      else if negb (kz_free_list kz) then
        err (- ENOMEM) (Some (RawCtx "" LH_null LH_null 0))
      else if negb (kz_reserved_list kz) then
        err (- ENOMEM) (Some (RawCtx "" LH_zeroed LH_null 0))
      else if NAME_MAX - 1 <? Z.of_nat (String.length nm) then
        err (- EINVAL) (Some (RawCtx "" LH_zeroed LH_zeroed 0))
      else
        match kz_block kz with
        | None => err (- ENOMEM) (Some (RawCtx nm (LH_init []) (LH_init []) base))
        | Some p => Some (0, Some (Some (MngrCtx nm [Block p base sz] [] base)))
        end
  | _, _ => Some (- EINVAL, mngr_handle)
  end.

(** * The invariant

    Free and reserved blocks form a well-formed pool over the managed region,
    which does not start at address 0. *)
Definition mngr_wf (ctx : mngr_ctx_t) (rsize : Z) : Prop :=
  0 < base_address ctx /\
  pool_wf (free_list ctx) (reserved_list ctx) (base_address ctx) rsize.

Lemma wf_pool ctx rsize : mngr_wf ctx rsize ->
  pool_wf (free_list ctx) (reserved_list ctx) (base_address ctx) rsize.
Proof. by intros []. Qed.

Lemma wf_find ctx rsize r : mngr_wf ctx rsize -> r ∈ reserved_list ctx ->
  find_node (node r) (reserved_list ctx ++ free_list ctx) = Some r.
Proof.
  intros [_ Hwf] (l1 & l2 & E)%list_elem_of_split. rewrite E, <- app_assoc, <- app_comm_cons.
  apply find_node_mid. rewrite app_comm_cons, app_assoc, <- E, Permutation_app_comm. apply Hwf.
Qed.

(** * Release implements the reference release *)
Record released (ctx : mngr_ctx_t) (r : block_t) (ctx' : mngr_ctx_t) : Prop := {
  rel_reserved : reserved_list ctx' = list_del (node r) (reserved_list ctx);
  rel_perm : reserved_list ctx ≡ₚ r :: reserved_list ctx';
  rel_free : ivs (free_list ctx') = iv_merge (iv_insert (ext r) (ivs (free_list ctx)));
  rel_base : base_address ctx' = base_address ctx }.

Definition resize (b : block_t) (a s : Z) : block_t := Block (node b) a s.

(** The list lemmas at the block type. *)
Lemma del_mid l1 (b : block_t) l2 : NoDup (ids (l1 ++ b :: l2)) ->
  list_del (node b) (l1 ++ b :: l2) = l1 ++ l2.
Proof. apply list_del_mid. Qed.

Lemma upd_mid l1 (b : block_t) l2 f : NoDup (ids (l1 ++ b :: l2)) ->
  list_upd (node b) f (l1 ++ b :: l2) = l1 ++ f b :: l2.
Proof. apply list_upd_mid. Qed.

Section release.
Variables (ctx : mngr_ctx_t) (rsize : Z) (r : block_t).
Hypothesis Hwf : mngr_wf ctx rsize.
Hypothesis Hr : r ∈ reserved_list ctx.

Lemma drop_release_free : list_del (node r) (free_list ctx) = free_list ctx.
Proof. apply list_del_notin. by eapply pool_releasable; [apply Hwf|]. Qed.

(** The two bodies of the code are the shared coalescing step. *)
Lemma release_at_coalesce prev curr :
  release_at ctx r prev curr =
  set_lists ctx (coalesce_at resize (free_list ctx) r prev curr)
    (list_del (node r) (reserved_list ctx)).
Proof.
  unfold release_at, coalesce_at. rewrite drop_release_free.
  simpl. repeat (case_match; try done).
Qed.

Lemma release_last_coalesce :
  release_last ctx r =
  set_lists ctx (coalesce_last resize (free_list ctx) r (last (free_list ctx)))
    (list_del (node r) (reserved_list ctx)).
Proof.
  unfold release_last, coalesce_last. rewrite drop_release_free.
  simpl. repeat (case_match; try done).
Qed.

Lemma reserved_del_perm : reserved_list ctx ≡ₚ r :: list_del (node r) (reserved_list ctx).
Proof.
  destruct (pool_ids_split _ _ _ _ (wf_pool _ _ Hwf)) as (_ & Hn & _).
  apply list_elem_of_split in Hr as (l1 & l2 & E). rewrite E in *.
  by rewrite del_mid, Permutation_middle.
Qed.

Lemma release_spec :
  exists ctx', iova_mngr_block_release (Some ctx) (Some (node r)) = Some (0, Some ctx', None)
               /\ released ctx r ctx' /\ mngr_wf ctx' rsize.
Proof.
  unfold iova_mngr_block_release. rewrite (wf_find _ _ r Hwf Hr).
  pose proof (coalesce_spec resize (fun _ _ _ => eq_refl) (fun _ _ _ => eq_refl) _ _ _ _
                (pool_releasable _ _ _ _ (wf_pool _ _ Hwf) r Hr)) as Hc.
  pose proof reserved_del_perm as Hp.
  assert (Hfin : forall free', coalesced (free_list ctx) r free' ->
    let ctx' := set_lists ctx free' (list_del (node r) (reserved_list ctx)) in
    released ctx r ctx' /\ mngr_wf ctx' rsize).
  { intros free' Hco. destruct Hwf. split; [by destruct Hco|]. split; [done|].
    by eapply pool_release. }
  eexists. split; [done|]. unfold ext, block_extent in Hc. simpl in Hc.
  destruct (scan_until _ _ _) as [[prev curr]|].
  - rewrite release_at_coalesce. by apply Hfin.
  - rewrite release_last_coalesce. by apply Hfin.
Qed.
End release.

(** * Reserve *)

(** What a successful reserve returns: the block [b], now reserved; [b] is cut
    from (or is) the first smallest free block that is large enough. *)
Record reserved_from (ctx : mngr_ctx_t) (req : Z) (best b : block_t) (ctx' : mngr_ctx_t)
    : Prop := {
  rv_best : is_best size req (free_list ctx) (Some best);
  rv_size : size b = req;
  rv_addr : address b = address best;
  rv_reserved : reserved_list ctx' = reserved_list ctx ++ [b];
  rv_base : base_address ctx' = base_address ctx }.

Lemma reserve_perfect_wf ctx rsize best :
  mngr_wf ctx rsize -> best ∈ free_list ctx ->
  mngr_wf (set_lists ctx (list_del (node best) (free_list ctx)) (reserved_list ctx ++ [best])) rsize.
Proof.
  intros [Hb Hwf] (l1 & l2 & El)%list_elem_of_split. split; [done|]. simpl.
  destruct (pool_ids_split _ _ _ _ Hwf) as (Hn & _).
  rewrite El in Hn at 1. rewrite El at 1. rewrite del_mid by done.
  rewrite (Permutation_app_comm (reserved_list ctx)). by eapply pool_take.
Qed.

Lemma reserve_split_wf ctx rsize best p req :
  mngr_wf ctx rsize -> best ∈ free_list ctx -> 0 < req < size best ->
  p ∉ ids (free_list ctx ++ reserved_list ctx) ->
  mngr_wf (set_lists ctx
    (list_upd (node best)
       (fun b => Block (node b) (u64 (address b + req)) (u64 (size b - req))) (free_list ctx))
    (reserved_list ctx ++ [Block p (address best) req])) rsize.
Proof.
  intros [Hb Hwf] Hin Hreq Hp.
  destruct (pool_within _ _ _ _ Hwf best) as (Hs & Ha & Ht); [set_solver|].
  simpl in Hs, Ha, Ht. pose proof (pw_top _ _ _ _ Hwf). pose proof (pw_size _ _ _ _ Hwf).
  destruct (pool_ids_split _ _ _ _ Hwf) as (Hn & _).
  apply list_elem_of_split in Hin as (l1 & l2 & El). split; [done|]. simpl.
  rewrite El in Hn. rewrite El at 1. rewrite upd_mid by done.
  rewrite (Permutation_app_comm (reserved_list ctx)).
  eapply pool_split; try done. simpl. unfold ext, block_extent, u64. simpl.
  rewrite !Z.mod_small by lia. done.
Qed.

(** * Correctness of the manager *)

(** C1.  [iova_mngr_block_reserve] on a well-formed manager either hands out a
    block of exactly the requested size, cut from the first smallest free block
    that fits, and leaves the manager well formed (so the block overlaps nothing
    else), with its address and its offset from the base stored where asked; or
    it fails with -ENOMEM and changes nothing, and then no free block is large
    enough, or the block it would have to split needs a kzalloc that failed. *)
Theorem reserve_correct ctx rsize req addr offset kz :
  mngr_wf ctx rsize -> 0 < req < 2 ^ 64 ->
  (forall p, kz = Some p -> p ∉ ids (free_list ctx ++ reserved_list ctx)) ->
  let r := iova_mngr_block_reserve (Some ctx) req addr offset None kz in
  (exists best b ctx',
     rr_ret r = 0 /\ rr_ctx r = Some ctx' /\ mngr_wf ctx' rsize /\
     reserved_from ctx req best b ctx' /\ rr_handle r = Some (node b) /\
     rr_address r = (fun _ => address b) <$> addr /\
     rr_offset r = (fun _ => address b - base_address ctx) <$> offset) \/
  (r = ReserveResult (- ENOMEM) (Some ctx) addr offset None /\
   (Forall (fun c => size c < req) (free_list ctx) \/
    kz = None /\ Forall (fun c => size c <> req) (free_list ctx))).
Proof.
  intros Hwf Hreq Hfresh r. pose proof (best_fit_is_best size req (free_list ctx)) as Hb.
  unfold r, iova_mngr_block_reserve, find_best. rewrite (proj2 (Z.eqb_neq req 0)) by lia.
  destruct (free_list ctx) as [|f0 fs] eqn:Ef; [right; split; [done|by left]|]. rewrite <- Ef in *.
  destruct (best_fit _ _ _) as [best|]; [|by right; split; [|left]].
  assert (Hin : best ∈ free_list ctx) by (destruct Hb as (_ & (?&?&->&_) & _); set_solver).
  destruct (pool_within _ _ _ _ (wf_pool _ _ Hwf) best) as (?&?&?); [set_solver|]. simpl in *.
  assert (Hoff : u64 (address best - base_address ctx) = address best - base_address ctx).
  { destruct Hwf as [? []]. unfold u64. rewrite Z.mod_small; lia. }
  case_if.
  - left. exists best, best. eexists. simpl. rewrite Hoff. split_and!; try done.
    by apply reserve_perfect_wf.
  - destruct Hb as (Hs & Hb1 & Hb2). destruct kz as [p|].
    + left. exists best, (Block p (address best) req). eexists. simpl. rewrite Hoff.
      split_and!; try done. apply reserve_split_wf; try done; [lia|by apply Hfresh].
    + right. split; [done|]. right. split; [done|].
      eapply Forall_impl; [exact Hb2|]. simpl. lia.
Qed.

(** C2.  Releasing a reserved block succeeds, clears the handle, removes the
    block from the reserved list, and turns the free list into exactly the
    reference result: the block inserted at its place and all touching
    neighbours merged.  The manager stays well formed. *)
Theorem release_correct ctx rsize r :
  mngr_wf ctx rsize -> r ∈ reserved_list ctx ->
  exists ctx',
    iova_mngr_block_release (Some ctx) (Some (node r)) = Some (0, Some ctx', None) /\
    mngr_wf ctx' rsize /\
    reserved_list ctx' = list_del (node r) (reserved_list ctx) /\
    ivs (free_list ctx') = iv_merge (iv_insert (ext r) (ivs (free_list ctx))).
Proof.
  intros Hwf Hr. destruct (release_spec ctx rsize r Hwf Hr) as (ctx' & E & Hrel & Hwf').
  exists ctx'. split_and!; [done|done|apply Hrel|apply Hrel].
Qed.

(** The free list is a canonical form: two well-formed managers of the same
    region whose reserved blocks occupy the same addresses have the same free
    extents, whatever history of reserves and releases led to them. *)
Theorem free_list_canonical ctx1 ctx2 rsize :
  mngr_wf ctx1 rsize -> mngr_wf ctx2 rsize ->
  base_address ctx1 = base_address ctx2 ->
  ivs (reserved_list ctx1) ≡ₚ ivs (reserved_list ctx2) ->
  ivs (free_list ctx1) = ivs (free_list ctx2).
Proof.
  intros [_ Hwf1] [_ Hwf2] Hb Hp. rewrite Hb in Hwf1. by eapply pool_canonical.
Qed.

(**  Reserve and release are inverse: releasing the block a reserve handed
    out restores the reserved list and the free extents. *)
Theorem reserve_release_roundtrip ctx rsize req addr offset kz ctx1 h :
  mngr_wf ctx rsize -> 0 < req < 2 ^ 64 ->
  (forall p, kz = Some p -> p ∉ ids (free_list ctx ++ reserved_list ctx)) ->
  rr_ctx (iova_mngr_block_reserve (Some ctx) req addr offset None kz) = Some ctx1 ->
  rr_handle (iova_mngr_block_reserve (Some ctx) req addr offset None kz) = Some h ->
  exists ctx2,
    iova_mngr_block_release (Some ctx1) (Some h) = Some (0, Some ctx2, None) /\
    reserved_list ctx2 = reserved_list ctx /\
    ivs (free_list ctx2) = ivs (free_list ctx).
Proof.
  intros Hwf Hreq Hfresh Ec Eh.
  destruct (reserve_correct ctx rsize req addr offset kz Hwf Hreq Hfresh)
    as [(best & b & ctx' & _ & Ec' & Hwf1 & Hres & Eh' & _)|[E _]]; [|by rewrite E in Eh].
  rewrite Ec in Ec'. rewrite Eh in Eh'. injection Ec' as ->. injection Eh' as ->. destruct Hres as [_ _ _ Hr Hb].
  destruct (release_spec ctx' rsize b Hwf1) as (ctx2 & E2 & Hrel & Hwf2); [rewrite Hr; set_solver|].
  assert (Hr2 : reserved_list ctx2 = reserved_list ctx).
  { destruct (pool_ids_split _ _ _ _ (wf_pool _ _ Hwf1)) as (_ & Hn & _).
    rewrite (rel_reserved _ _ _ Hrel), Hr in *. rewrite (del_mid (reserved_list ctx) b []) by done.
    by rewrite app_nil_r. }
  exists ctx2. split_and!; [done|done|].
  destruct Hwf as [_ Hwf], Hwf2 as [_ Hwf2]. rewrite (rel_base _ _ _ Hrel), Hb, Hr2 in Hwf2.
  by eapply pool_canonical.
Qed.

(** * Teardown and initialisation *)
Lemma release_all_spec rsize hs : forall ctx,
  mngr_wf ctx rsize -> ids (reserved_list ctx) = hs ->
  exists ctx', release_all hs ctx = Some ctx' /\ mngr_wf ctx' rsize /\
               reserved_list ctx' = [] /\ base_address ctx' = base_address ctx.
Proof.
  induction hs as [|h hs IH]; intros ctx Hwf Hids.
  - exists ctx. by destruct (reserved_list ctx).
  - destruct (reserved_list ctx) as [|r rs] eqn:Er; [done|]. injection Hids as <- Hids.
    destruct (release_spec ctx rsize r Hwf) as (ctx' & E & Hrel & Hwf'); [rewrite Er; set_solver|].
    destruct (IH ctx' Hwf') as (ctx2 & E2 & Hwf2 & Hn & Hb).
    + destruct (pool_ids_split _ _ _ _ (wf_pool _ _ Hwf)) as (_ & Hn & _).
      rewrite (rel_reserved _ _ _ Hrel), Er in *.
      pose proof (del_mid [] r rs Hn) as Hd. cbn [app] in Hd. by rewrite Hd.
    + exists ctx2. cbn [release_all]. change (node_id r) with (node r). rewrite E.
      split_and!; try done. by rewrite Hb, (rel_base _ _ _ Hrel).
Qed.

(** [iova_mngr_deinit] of a well-formed manager never touches a dangling
    pointer, and whatever clients still held, exactly one free block is left to
    free: the whole region. *)
Theorem deinit_correct ctx rsize :
  0 < rsize -> mngr_wf ctx rsize ->
  exists b, iova_mngr_deinit (Some (raw_of ctx)) = Some [b] /\
            ext b = (base_address ctx, rsize).
Proof.
  intros Hs Hwf.
  destruct (release_all_spec rsize (ids (reserved_list ctx)) ctx Hwf eq_refl)
    as (ctx' & E & Hwf' & Hn & Hb).
  unfold iova_mngr_deinit, raw_of. simpl. destruct ctx as [nm fr re ba]. simpl in *. rewrite E. simpl.
  destruct Hwf' as [_ Hwf']. rewrite Hn, Hb in Hwf'.
  pose proof (pool_all_free _ _ _ Hs Hwf') as E1.
  destruct (free_list ctx') as [|b [|]]; try done. exists b. split; [done|]. apply (f_equal head) in E1. exact (Some_inj _ _ E1).
Qed.

(** [iova_mngr_init] with valid arguments and successful allocations yields a
    well-formed manager with the whole region free; when the handle or size
    arguments are invalid it returns -EINVAL and changes nothing. *)
Theorem init_correct nm base sz p :
  0 < base -> 0 < sz -> base + sz <= 2 ^ 64 ->
  (Z.of_nat (String.length nm) <= NAME_MAX - 1) ->
  exists ctx,
    iova_mngr_init (Some nm) base sz (Some None) (InitKzalloc true true true (Some p))
      = Some (0, Some (Some ctx)) /\
    mngr_wf ctx sz /\ reserved_list ctx = [] /\ ivs (free_list ctx) = [(base, sz)] /\
    (forall h kz, iova_mngr_init None base sz h kz = Some (- EINVAL, h)) /\
    (forall c kz, iova_mngr_init (Some nm) base sz (Some (Some c)) kz = Some (- EINVAL, Some (Some c))).
Proof.
  intros Hb Hs Ht Hn. exists (MngrCtx nm [Block p base sz] [] base). split_and!; try done.
  - unfold iova_mngr_init. simpl. rewrite !(proj2 (Z.eqb_neq _ 0)) by lia. simpl.
    by rewrite (proj2 (Z.ltb_ge _ _)).
  - split; [done|]. apply pool_init; [done|simpl; lia..].
Qed.

(** The error exits of [iova_mngr_init] taken between the allocation of the
    context and the initialisation of the two list heads dereference a NULL
    pointer: [iova_mngr_deinit] walks lists that do not exist yet.  A name longer
    than NAME_MAX - 1 takes this exit, so it never returns the -EINVAL it set. *)
Theorem init_error_exit_faults nm base sz kz :
  base <> 0 -> sz <> 0 -> kz_ctx kz = true ->
  (kz_free_list kz = false \/ kz_reserved_list kz = false \/
   NAME_MAX - 1 < Z.of_nat (String.length nm)) ->
  iova_mngr_init (Some nm) base sz (Some None) kz = None.
Proof.
  intros Hb Hs Hc He. unfold iova_mngr_init. rewrite !(proj2 (Z.eqb_neq _ 0)) by done. rewrite Hc. simpl.
  destruct (kz_free_list kz) eqn:E1; simpl; [|done].
  destruct (kz_reserved_list kz) eqn:E2; simpl; [|done].
  case_if; [done|]. destruct He as [|[|]]; [done..|lia].
Qed.

(** * Concrete instances

    A manager of 0x1000 .. 0x2000 with two free and two reserved blocks. *)
Definition ex_ctx : mngr_ctx_t :=
  MngrCtx "ex" [Block 1 4096 256; Block 2 5120 3072]
    [Block 3 4352 512; Block 4 4864 256] 4096.

Lemma ex_ctx_wf : mngr_wf ex_ctx 4096.
Proof.
  split; [done|]. split; simpl; try lia.
  - unfold ids. simpl. repeat (apply NoDup_cons; split; [set_solver|]). by apply NoDup_nil.
  - unfold ivs, separated. repeat constructor; unfold gap; simpl; lia.
  - split; [by repeat constructor|]. intros x. simpl. unfold inside, ext, block_extent. simpl.
    repeat case_if; lia.
Qed.

Lemma ex_fresh p : Some 9%positive = Some p ->
  p ∉ ids (free_list ex_ctx ++ reserved_list ex_ctx).
Proof. intros [= <-]. unfold ids. simpl. set_solver. Qed.

Lemma reserve_correct_witness :
  rr_ret (iova_mngr_block_reserve (Some ex_ctx) 128 (Some 0) (Some 0) None (Some 9%positive)) = 0.
Proof.
  destruct (reserve_correct ex_ctx 4096 128 (Some 0) (Some 0) (Some 9%positive) ex_ctx_wf
              ltac:(lia) ex_fresh) as [(best & b & ctx' & E & _)|[_ [H|[H _]]]].
  - exact E.
  - exfalso. simpl in H. apply Forall_cons in H as [H _]. simpl in H. lia.
  - congruence.
Defined.

Lemma release_correct_witness :
  exists ctx', iova_mngr_block_release (Some ex_ctx) (Some 3%positive) = Some (0, Some ctx', None) /\
    ivs (free_list ctx') = [(4096, 768); (5120, 3072)].
Proof.
  destruct (release_correct ex_ctx 4096 (Block 3 4352 512) ex_ctx_wf) as (ctx' & E & _ & _ & Hf).
  - simpl. set_solver.
  - exists ctx'. split; [exact E|]. rewrite Hf. reflexivity.
Defined.

Lemma free_list_canonical_witness :
  ivs (free_list ex_ctx) = ivs (free_list ex_ctx).
Proof.
  apply (free_list_canonical ex_ctx
    (set_lists ex_ctx (free_list ex_ctx) [Block 3 4352 512; Block 4 4864 256]) 4096);
    [exact ex_ctx_wf|exact ex_ctx_wf|reflexivity|reflexivity].
Defined.

Lemma reserve_release_witness :
  exists ctx2,
    iova_mngr_block_release
      (rr_ctx (iova_mngr_block_reserve (Some ex_ctx) 128 None None None (Some 9%positive)))
      (Some 9%positive) = Some (0, Some ctx2, None) /\
    reserved_list ctx2 = reserved_list ex_ctx /\
    ivs (free_list ctx2) = [(4096, 256); (5120, 3072)].
Proof.
  exact (reserve_release_roundtrip ex_ctx 4096 128 None None (Some 9%positive) _ 9%positive
    ex_ctx_wf ltac:(lia) ex_fresh eq_refl eq_refl).
Defined.

Lemma deinit_correct_witness :
  exists b, iova_mngr_deinit (Some (raw_of ex_ctx)) = Some [b] /\ ext b = (4096, 4096).
Proof. exact (deinit_correct ex_ctx 4096 ltac:(lia) ex_ctx_wf). Defined.

Lemma init_correct_witness :
  exists ctx, iova_mngr_init (Some "pcie"%string) 4096 4096 (Some None)
                (InitKzalloc true true true (Some 1%positive)) = Some (0, Some (Some ctx)) /\
              mngr_wf ctx 4096.
Proof.
  destruct (init_correct "pcie" 4096 4096 1%positive) as (ctx & E & Hwf & _);
    [lia|lia|lia|vm_compute; discriminate|by exists ctx].
Defined.

Lemma init_error_exit_witness :
  iova_mngr_init (Some "pcie"%string) 4096 4096 (Some None) (InitKzalloc true true false None) = None.
Proof.
  apply (init_error_exit_faults "pcie" 4096 4096); [lia|lia|reflexivity|by right; left].
Defined.
