(* ===== verification/MemManager.v ===== *)
(** The ADSP shared-memory manager
    (src/drivers/platform/tegra/nvadsp/mem_manager.c): best fit over a sorted free
    list, like the IOVA manager, but with named chunks, an allocation list meant
    to be kept in address order, and a release that gives up when no free chunk
    lies above the released one. *)
From Stdlib Require Import Sorting.Sorted.
From S2P Require Export Pool.

Definition NAME_SIZE : nat := 16.

(** [strscpy(dst, src, NAME_SIZE)]: at most NAME_SIZE - 1 characters are kept. *)
Definition strscpy (src : string) : string := String.substring 0 (NAME_SIZE - 1) src.

Record mem_chunk := MemChunk { node : ptr; name : string; address : Z; size : Z }.

#[export] Instance chunk_node : Node mem_chunk := node.
#[export] Instance chunk_extent : Extent mem_chunk := fun c => (address c, size c).

Record mem_manager_info := MemManagerInfo {
  alloc_list : list mem_chunk;
  free_list : list mem_chunk;
  mm_name : string;
  start_address : Z;
  mm_size : Z }.

Definition set_lists (mm : mem_manager_info) (alloc free : list mem_chunk) : mem_manager_info :=
  MemManagerInfo alloc free (mm_name mm) (start_address mm) (mm_size mm).

Definition set_name (c : mem_chunk) (nm : string) : mem_chunk :=
  MemChunk (node c) (strscpy nm) (address c) (size c).

(** A pointer-valued result: the object, or ERR_PTR(-e). *)
Definition ptr_or_err : Type := ptr + Z.

(** The search loop of [mem_request]. *)
Definition best_match_chunk (req : Z) (free : list mem_chunk) : option mem_chunk :=
  best_fit size req free.

(** The ordered insertion into the allocation list; [at_end] is what the code
    does when no allocated chunk lies above. *)
Definition alloc_insert (c : mem_chunk) (alloc at_end : list mem_chunk) : list mem_chunk :=
  match scan_until (fun it => address c <? address it) None alloc with
  | Some (_, it) => insert_before (node it) c alloc
  | None => at_end
  end.

Definition mem_request (mm_info : mem_manager_info) (nm : string) (req : Z)
    (kzalloc : option ptr) : ptr_or_err * mem_manager_info :=
  match free_list mm_info with
  | [] => (inr (- ENOMEM), mm_info)
  | _ :: _ =>
      match best_match_chunk req (free_list mm_info) with
      | None => (inr (- ENOMEM), mm_info)
      | Some best =>
          if size best =? req then
            (* list_add puts the chunk at the head when none lies above *)
            let c := set_name best nm in
            (inl (node best),
             set_lists mm_info (alloc_insert c (alloc_list mm_info) (c :: alloc_list mm_info))
               (list_del (node best) (free_list mm_info)))
          else
            match kzalloc with
            | None => (inr (- ENOMEM), mm_info)
            | Some p =>
                let new_mc := MemChunk p (strscpy nm) (address best) req in
                (inl p,
                 set_lists mm_info
                   (alloc_insert new_mc (alloc_list mm_info) (alloc_list mm_info ++ [new_mc]))
                   (list_upd (node best)
                      (fun c => MemChunk (node c) (name c) (u64 (address c + req)) (u64 (size c - req)))
                      (free_list mm_info)))
            end
      end
  end.

(** The body of the traversal in [mem_release] at the first free chunk above. *)
Definition release_at (mm : mem_manager_info) (mc_free : mem_chunk)
    (mc_prev : option mem_chunk) (mc_curr : mem_chunk) : mem_manager_info :=
  let alloc := list_del (node mc_free) (alloc_list mm) in
  let free := list_del (node mc_free) (free_list mm) in
  let mc_free := set_name mc_free "FREE" in
  let resize c a s := MemChunk (node c) (name c) a s in
  if address mc_curr =? u64 (address mc_free + size mc_free) then
    let grow c := resize c (address mc_free) (u64 (size c + size mc_free)) in
    let free1 := list_upd (node mc_curr) grow free in
    match mc_prev with
    | Some pv =>
        if u64 (address pv + size pv) =? address mc_free then
          set_lists mm alloc
            (list_del (node mc_curr)
              (list_upd (node pv)
                 (fun c => resize c (address c) (u64 (size c + size (grow mc_curr)))) free1))
        else set_lists mm alloc free1
    | None => set_lists mm alloc free1
    end
  else
    let insert := set_lists mm alloc (insert_before (node mc_curr) mc_free free) in
    match mc_prev with
    | Some pv =>
        if u64 (address pv + size pv) =? address mc_free then
          set_lists mm alloc
            (list_upd (node pv) (fun c => resize c (address c) (u64 (size c + size mc_free))) free)
        else insert
    | None => insert
    end.

(** [mem_release]: [None] when the handle is a dangling pointer. *)
Definition mem_release (mm_info : mem_manager_info) (handle : ptr)
    : option (bool * mem_manager_info) :=
  match find_node handle (alloc_list mm_info ++ free_list mm_info) with
  | None => None
  | Some mc_free =>
      match scan_until (fun mc_curr => address mc_free <? address mc_curr) None
              (free_list mm_info) with
      | Some (mc_prev, mc_curr) => Some (true, release_at mm_info mc_free mc_prev mc_curr)
      | None => Some (false, mm_info)
      end
  end.

Definition mem_get_address (c : mem_chunk) : Z := address c.

(** [list_for_each_safe] over the allocation list, ignoring what mem_release
    returns. *)
Fixpoint release_each (hs : list ptr) (mm : mem_manager_info) : option mem_manager_info :=
  match hs with
  | [] => Some mm
  | h :: hs' =>
      match mem_release mm h with
      | Some (_, mm') => release_each hs' mm'
      | None => None
      end
  end.

Definition clear_alloc_list (mm_info : mem_manager_info) : option mem_manager_info :=
  release_each (ids (alloc_list mm_info)) mm_info.

(** The four allocations of [create_mem_manager], in order. *)
Record create_kzalloc := CreateKzalloc {
  kz_info : bool; kz_alloc_list : bool; kz_free_list : bool; kz_chunk : option ptr }.

Definition create_mem_manager (nm : string) (start sz : Z) (kz : create_kzalloc)
    : mem_manager_info + Z :=
  if negb (kz_info kz) then inr (- ENOMEM)
  else if negb (kz_alloc_list kz) then inr (- ENOMEM)
  else if negb (kz_free_list kz) then inr (- ENOMEM)
  else match kz_chunk kz with
       | None => inr (- ENOMEM)
       | Some p =>
           inl (MemManagerInfo [] [MemChunk p (strscpy "FREE") start sz] (strscpy nm) start sz)
       end.

(** [destroy_mem_manager]: [None] when it takes the list head itself for a chunk
    (the free list is empty) or follows a dangling pointer; otherwise the chunks
    that are never freed, allocated and free ones. *)
Definition destroy_mem_manager (mm_info : mem_manager_info) : option (list mem_chunk) :=
  match clear_alloc_list mm_info with
  | None => None
  | Some mm =>
      match free_list mm with
      | [] => None
      | _ :: rest => Some (alloc_list mm ++ rest)
      end
  end.

(** * The invariant *)
Definition mm_wf (mm : mem_manager_info) : Prop :=
  pool_wf (free_list mm) (alloc_list mm) (start_address mm) (mm_size mm).

Lemma mm_del_mid l1 (b : mem_chunk) l2 : NoDup (ids (l1 ++ b :: l2)) ->
  list_del (node b) (l1 ++ b :: l2) = l1 ++ l2.
Proof. apply list_del_mid. Qed.

Lemma mm_upd_mid l1 (b : mem_chunk) l2 f : NoDup (ids (l1 ++ b :: l2)) ->
  list_upd (node b) f (l1 ++ b :: l2) = l1 ++ f b :: l2.
Proof. apply list_upd_mid. Qed.

Lemma alloc_insert_perm c alloc at_end :
  NoDup (ids alloc) -> at_end ≡ₚ c :: alloc -> alloc_insert c alloc at_end ≡ₚ c :: alloc.
Proof.
  intros Hn He. unfold alloc_insert. destruct (scan_until _ _ _) as [[pv it]|] eqn:E; [|done].
  apply scan_until_Some in E as (l1 & l2 & -> & _).
  pose proof (insert_before_mid l1 it l2 c Hn) as Hi. change (node_id it) with (node it) in Hi.
  rewrite Hi. by rewrite Permutation_middle.
Qed.

Lemma mm_find mm r : mm_wf mm -> r ∈ alloc_list mm ->
  find_node (node r) (alloc_list mm ++ free_list mm) = Some r.
Proof.
  intros Hwf (l1 & l2 & E)%list_elem_of_split. rewrite E, <- app_assoc, <- app_comm_cons.
  apply find_node_mid. rewrite app_comm_cons, app_assoc, <- E, Permutation_app_comm. apply Hwf.
Qed.

(** * Release *)
Section release.
Variables (mm : mem_manager_info) (r : mem_chunk).
Hypothesis Hwf : mm_wf mm.
Hypothesis Hr : r ∈ alloc_list mm.

Lemma chunk_releasable : releasable (free_list mm) (set_name r "FREE") (start_address mm) (mm_size mm).
Proof.
  destruct (pool_releasable _ _ _ _ Hwf r Hr) as [H1 H2 H3 H4 H5 H6 H7 H8]. split; try done.
  intros b [->|Hb]%elem_of_cons; [apply (H4 r); by left|apply H4; by right].
Qed.

Lemma mm_release_at_coalesce prev curr :
  release_at mm r prev curr =
  set_lists mm (list_del (node r) (alloc_list mm))
    (coalesce_at (fun c a s => MemChunk (node c) (name c) a s) (free_list mm)
       (set_name r "FREE") prev curr).
Proof.
  unfold release_at, coalesce_at.
  rewrite (list_del_notin (node r) (free_list mm)) by apply chunk_releasable.
  simpl. repeat (case_match; try done).
Qed.

Lemma alloc_del_perm : alloc_list mm ≡ₚ r :: list_del (node r) (alloc_list mm).
Proof.
  destruct (pool_ids_split _ _ _ _ Hwf) as (_ & Hn & _).
  apply list_elem_of_split in Hr as (l1 & l2 & E). rewrite E in *.
  by rewrite mm_del_mid, Permutation_middle.
Qed.

(** The outcome decided by whether a free chunk lies above. *)
Lemma mem_release_spec :
  (exists mm', mem_release mm (node r) = Some (true, mm') /\ mm_wf mm' /\
     start_address mm' = start_address mm /\ mm_size mm' = mm_size mm /\
     alloc_list mm' = list_del (node r) (alloc_list mm) /\
     ivs (free_list mm') = iv_merge (iv_insert (ext r) (ivs (free_list mm))) /\
     Exists (fun c => address r < address c) (free_list mm)) \/
  (mem_release mm (node r) = Some (false, mm) /\
     Forall (fun c => address c <= address r) (free_list mm)).
Proof.
  unfold mem_release. rewrite (mm_find mm r Hwf Hr).
  pose proof (coalesce_spec (fun c a s => MemChunk (node c) (name c) a s)
    (fun _ _ _ => eq_refl) (fun _ _ _ => eq_refl) _ _ _ _ chunk_releasable) as Hc.
  change (fun curr => (ext (set_name r "FREE")).1 <? (ext curr).1)
    with (fun curr => address r <? address curr) in Hc.
  destruct (scan_until (fun c => address r <? address c) None (free_list mm)) as [[prev curr]|] eqn:E.
  - left. eexists. split; [done|]. rewrite mm_release_at_coalesce. simpl.
    apply scan_until_Some in E as (l1 & l2 & El & Hlt & _). split_and!; try done.
    + unfold mm_wf. simpl. eapply pool_release; [exact Hwf| |].
      * exact alloc_del_perm.
      * destruct Hc. by split.
    + by destruct Hc.
    + rewrite El. apply Exists_app. right. apply Exists_cons_hd. by zb.
  - right. split; [done|]. apply scan_until_None in E.
    eapply Forall_impl; [exact E|]. simpl. intros ? ?. by zb.
Qed.
End release.

(** * Correctness *)

(** C39.  [mem_request] for a positive size on a well-formed manager either returns
    a chunk of exactly that size, carrying the (truncated) name, cut from the first
    smallest free chunk that fits, with the chunk added to the allocated ones and
    the manager still well formed; or it returns -ENOMEM and changes nothing. *)
Theorem mem_request_correct mm nm req kz :
  mm_wf mm -> 0 < req ->
  (forall p, kz = Some p -> p ∉ ids (free_list mm ++ alloc_list mm)) ->
  (exists best c mm',
     mem_request mm nm req kz = (inl (node c), mm') /\ mm_wf mm' /\
     is_best size req (free_list mm) (Some best) /\
     size c = req /\ address c = address best /\ name c = strscpy nm /\
     alloc_list mm' ≡ₚ c :: alloc_list mm) \/
  (mem_request mm nm req kz = (inr (- ENOMEM), mm) /\
   (Forall (fun c => size c < req) (free_list mm) \/
    kz = None /\ Forall (fun c => size c <> req) (free_list mm))).
Proof.
  intros Hwf Hreq Hfresh. pose proof (best_fit_is_best size req (free_list mm)) as Hb.
  unfold mem_request, best_match_chunk.
  destruct (free_list mm) as [|f0 fs] eqn:Ef; [right; split; [done|by left]|]. rewrite <- Ef in *.
  destruct (best_fit _ _ _) as [best|]; [|by right; split; [|left]].
  destruct (pool_ids_split _ _ _ _ Hwf) as (Hnf & Hna & _).
  destruct Hb as (Hs & Hb1 & Hb2). assert (Hb1' := Hb1). destruct Hb1' as (l1 & l2 & El & _).
  destruct (pool_within _ _ _ _ Hwf best) as (Hbs & Hba & Hbt); [rewrite El; set_solver|].
  simpl in Hbs, Hba, Hbt.
  case_if; [left|destruct kz as [p|]; [left|right]].
  - set (c := set_name best nm). exists best, c. eexists. split; [done|].
    assert (Hp : alloc_insert c (alloc_list mm) (c :: alloc_list mm) ≡ₚ c :: alloc_list mm)
      by (by apply alloc_insert_perm).
    split_and!; try done. unfold mm_wf. simpl. rewrite Hp.
    rewrite El in Hnf. rewrite El at 1. rewrite mm_del_mid by done. by eapply pool_take.
  - set (c := MemChunk p (strscpy nm) (address best) req). exists best, c. eexists. split; [done|].
    assert (Hp : alloc_insert c (alloc_list mm) (alloc_list mm ++ [c]) ≡ₚ c :: alloc_list mm).
    { apply alloc_insert_perm; [done|]. by rewrite Permutation_app_comm. }
    split_and!; try done. unfold mm_wf. simpl. rewrite Hp.
    rewrite El in Hnf. rewrite El at 1. rewrite mm_upd_mid by done.
    pose proof (pw_top _ _ _ _ Hwf). pose proof (pw_size _ _ _ _ Hwf). pose proof (pw_base _ _ _ _ Hwf).
    eapply pool_split; try done; [simpl; lia| |by apply Hfresh].
    simpl. unfold ext, chunk_extent, u64. simpl. rewrite !Z.mod_small by lia. done.
  - split; [done|]. right. split; [done|]. eapply Forall_impl; [exact Hb2|]. simpl. lia.
Qed.

(**  [mem_release] of an allocated chunk returns true exactly when some free
    chunk lies above it, and then the free list becomes the reference result (the
    chunk inserted in order and merged with its neighbours) and the manager stays
    well formed; otherwise it returns false and the chunk stays allocated. *)
Theorem mem_release_correct mm r :
  mm_wf mm -> r ∈ alloc_list mm ->
  (exists mm', mem_release mm (node r) = Some (true, mm') /\ mm_wf mm' /\
     alloc_list mm' = list_del (node r) (alloc_list mm) /\
     ivs (free_list mm') = iv_merge (iv_insert (ext r) (ivs (free_list mm))) /\
     Exists (fun c => address r < address c) (free_list mm)) \/
  (mem_release mm (node r) = Some (false, mm) /\
     Forall (fun c => address c <= address r) (free_list mm)).
Proof.
  intros Hwf Hr. destruct (mem_release_spec mm r Hwf Hr) as [(mm' & ? & ? & _ & _ & ?)|H].
  - left. by exists mm'.
  - by right.
Qed.

(** The highest address of the region is not allocated. *)
Definition top_free (mm : mem_manager_info) : Prop :=
  occ (ivs (alloc_list mm)) (start_address mm + mm_size mm - 1) = 0.

Lemma top_free_above mm r :
  0 < mm_size mm -> mm_wf mm -> top_free mm -> r ∈ alloc_list mm ->
  Exists (fun c => address r < address c) (free_list mm).
Proof.
  intros Hs Hwf Ht Hr. pose proof (proj2 (pw_tiles _ _ _ _ Hwf) (start_address mm + mm_size mm - 1)) as Ho.
  rewrite inside_true in Ho by (simpl; lia). unfold top_free, ivs in *.
  rewrite fmap_app, occ_app, Ht in Ho.
  destruct (occ_pos_elem (ext <$> free_list mm) (start_address mm + mm_size mm - 1))
    as (i & Hi & Hx); [lia|].
  apply list_elem_of_fmap in Hi as (f & -> & Hf). apply Exists_exists. exists f. split; [done|].
  destruct (pool_within _ _ _ _ Hwf r) as (?&?&?); [set_solver|].
  destruct (pool_disjoint _ _ _ _ Hwf f r Hf Hr) as [Hd|Hd]; unfold before in Hd; simpl in *; lia.
Qed.

Lemma release_each_spec hs : forall mm,
  0 < mm_size mm -> mm_wf mm -> top_free mm -> ids (alloc_list mm) = hs ->
  exists mm', release_each hs mm = Some mm' /\ mm_wf mm' /\ alloc_list mm' = [] /\
              mm_size mm' = mm_size mm.
Proof.
  induction hs as [|h hs IH]; intros mm Hs Hwf Ht Hids.
  - exists mm. by destruct (alloc_list mm).
  - destruct (alloc_list mm) as [|r rs] eqn:Er; [done|]. injection Hids as <- Hids.
    assert (Hr : r ∈ alloc_list mm) by (rewrite Er; by left).
    pose proof (top_free_above mm r Hs Hwf Ht Hr) as Ha.
    destruct (mem_release_spec mm r Hwf Hr) as [(mm' & E & Hwf' & Hst & Hsz & Hal & _)|[_ Hf]].
    + destruct (pool_ids_split _ _ _ _ Hwf) as (_ & Hn & _).
      rewrite Er in Hn, Hal. pose proof (mm_del_mid [] r rs Hn) as Hd. cbn [app] in Hd.
      rewrite Hd in Hal. destruct (IH mm') as (mm2 & E2 & Hwf2 & Hn2 & Hz2); try done.
      * by rewrite Hsz.
      * unfold top_free in *. rewrite Hst, Hsz, Hal. rewrite Er in Ht.
        change (ivs (r :: rs)) with (ext r :: ivs rs) in Ht. cbn [occ] in Ht.
        pose proof (occ_nonneg (ivs rs) (start_address mm + mm_size mm - 1)).
        pose proof (inside_range (ext r) (start_address mm + mm_size mm - 1)). lia.
      * by rewrite Hal.
      * exists mm2. cbn [release_each]. change (node_id r) with (node r). rewrite E.
        split_and!; try done. congruence.
    + exfalso. apply Exists_exists in Ha as (c & Hc & ?). rewrite Forall_forall in Hf.
      specialize (Hf c Hc). lia.
Qed.

(** While the top of the region is free, [destroy_mem_manager] releases every
    allocated chunk, follows no dangling pointer, and frees everything: the free
    list has become one chunk and no chunk is leaked. *)
Theorem destroy_correct mm :
  0 < mm_size mm -> mm_wf mm -> top_free mm -> destroy_mem_manager mm = Some [].
Proof.
  intros Hs Hwf Ht. unfold destroy_mem_manager, clear_alloc_list.
  destruct (release_each_spec _ mm Hs Hwf Ht eq_refl) as (mm' & -> & Hwf' & Hal & Hsz).
  unfold mm_wf in Hwf'. rewrite Hal in *.
  pose proof (pool_all_free _ _ _ (eq_ind_r (fun z => 0 < z) Hs Hsz) Hwf') as E.
  by destruct (free_list mm') as [|c [|]].
Qed.

(** A manager whose region is completely allocated never gets anything back:
    every [mem_release] returns false and changes nothing, and
    [destroy_mem_manager] then takes the empty list's head for a chunk. *)
Theorem full_manager_stuck mm :
  mm_wf mm -> free_list mm = [] ->
  (forall r, r ∈ alloc_list mm -> mem_release mm (node r) = Some (false, mm)) /\
  destroy_mem_manager mm = None.
Proof.
  intros Hwf Hf.
  assert (Hrel : forall r, r ∈ alloc_list mm -> mem_release mm (node r) = Some (false, mm)).
  { intros r Hr. unfold mem_release. by rewrite (mm_find mm r Hwf Hr), Hf. }
  split; [done|]. unfold destroy_mem_manager, clear_alloc_list.
  assert (E : forall rs, (forall r, r ∈ rs -> r ∈ alloc_list mm) ->
    release_each (ids rs) mm = Some mm).
  { induction rs as [|r rs IH]; intros Hin; [done|]. cbn [ids fmap list_fmap release_each].
    change (node_id r) with (node r). rewrite Hrel by (apply Hin; by left).
    apply IH. intros. apply Hin. by right. }
  rewrite E by done. by rewrite Hf.
Qed.

(** * The order of the allocation list *)
Definition alloc_sorted (l : list mem_chunk) : Prop :=
  StronglySorted (fun a b => address a < address b) l.

Lemma alloc_insert_sorted c alloc at_end :
  alloc_sorted alloc -> NoDup (ids alloc) -> Forall (fun a => address a <> address c) alloc ->
  (Forall (fun a => address a < address c) alloc -> alloc_sorted at_end) ->
  alloc_sorted (alloc_insert c alloc at_end).
Proof.
  intros Hs Hn Hd He. unfold alloc_insert. destruct (scan_until _ _ _) as [[pv it]|] eqn:E.
  - apply scan_until_Some in E as (l1 & l2 & -> & Hlt & Hf & _). zb.
    pose proof (insert_before_mid l1 it l2 c Hn) as Hi. change (node_id it) with (node it) in Hi.
    rewrite Hi. clear Hi Hn He. unfold alloc_sorted in *. induction l1 as [|a l1 IH]; simpl in *.
    + constructor; [done|]. apply StronglySorted_inv in Hs as [_ Hg].
      constructor; [lia|]. eapply Forall_impl; [exact Hg|]. simpl. lia.
    + apply StronglySorted_inv in Hs as [Hs Hg]. apply Forall_cons in Hf as [Ha Hf].
      apply Forall_cons in Hd as [Hda Hd]. simpl in Ha, Hda. zb. constructor; [by apply IH|].
      rewrite Forall_app, !Forall_cons in *. destruct Hg as (? & ? & ?).
      split_and!; first [done|lia].
  - apply He. apply scan_until_None in E. rewrite Forall_forall in *. intros a Ha.
    specialize (E a Ha). specialize (Hd a Ha). simpl in E. zb. lia.
Qed.

Lemma sorted_snoc c alloc :
  alloc_sorted alloc -> Forall (fun a => address a < address c) alloc -> alloc_sorted (alloc ++ [c]).
Proof.
  unfold alloc_sorted. induction 1 as [|a l _ IH Hg]; simpl; [by repeat constructor|].
  intros [? ?]%Forall_cons. constructor; [by apply IH|]. rewrite Forall_app. split; [done|by constructor].
Qed.

(** [mem_request] keeps the allocation list in address order, except in one
    case: an exactly fitting chunk that lies above every allocated one is put at
    the head of a non-empty list, in front of chunks with lower addresses. *)
Theorem alloc_order mm nm req kz p mm' :
  mm_wf mm -> alloc_sorted (alloc_list mm) ->
  mem_request mm nm req kz = (inl p, mm') ->
  alloc_sorted (alloc_list mm') \/
  exists c, alloc_list mm' = c :: alloc_list mm /\ size c = req /\
    alloc_list mm <> [] /\ Forall (fun a => address a < address c) (alloc_list mm) /\
    ~ alloc_sorted (alloc_list mm').
Proof.
  intros Hwf Hs. unfold mem_request, best_match_chunk.
  pose proof (best_fit_is_best size req (free_list mm)) as Hb.
  destruct (free_list mm) as [|f0 fs] eqn:Ef; [done|]. rewrite <- Ef in *.
  destruct (best_fit _ _ _) as [best|]; [|done].
  destruct Hb as (_ & (l1 & l2 & El & _) & _).
  assert (Hin : best ∈ free_list mm) by (rewrite El; set_solver).
  destruct (pool_ids_split _ _ _ _ Hwf) as (_ & Hna & _).
  assert (Hd : Forall (fun a => address a <> address best) (alloc_list mm)).
  { apply Forall_forall. intros a Ha. pose proof (pool_disjoint _ _ _ _ Hwf best a Hin Ha) as Hx.
    destruct (pool_within _ _ _ _ Hwf best) as (?&_); [set_solver|].
    destruct (pool_within _ _ _ _ Hwf a) as (?&_); [set_solver|].
    unfold before in Hx. simpl in *. lia. }
  case_if; [|destruct kz as [q|]; [|done]]; intros [= <- <-]; simpl.
  - destruct (decide (Forall (fun a => address a < address best) (alloc_list mm))) as [Hall|Hnot].
    + unfold alloc_insert. rewrite (proj2 (scan_until_None _ _ _)).
      2:{ eapply Forall_impl; [exact Hall|]. simpl. intros a ?. apply Z.ltb_ge. lia. }
      destruct (alloc_list mm) as [|a l] eqn:Ea; [left; by repeat constructor|].
      right. eexists. split_and!; [done..|]. intros [_ Hg]%StronglySorted_inv.
      apply Forall_cons in Hg as [Hg _]. apply Forall_cons in Hall as [? _]. simpl in Hg. lia.
    + left. by apply alloc_insert_sorted.
  - left. apply alloc_insert_sorted; try done. intros Hall. by apply sorted_snoc.
Qed.

(** [create_mem_manager] fails with -ENOMEM when an allocation fails and
    otherwise returns a well-formed manager with the whole region free. *)
Theorem create_correct nm start sz kz :
  0 <= start -> 0 < sz < 2 ^ 64 -> start + sz <= 2 ^ 64 ->
  match create_mem_manager nm start sz kz with
  | inl mm => mm_wf mm /\ top_free mm /\ alloc_list mm = [] /\ ivs (free_list mm) = [(start, sz)] /\
              mm_name mm = strscpy nm
  | inr e => e = - ENOMEM /\
      (kz_info kz = false \/ kz_alloc_list kz = false \/ kz_free_list kz = false \/ kz_chunk kz = None)
  end.
Proof.
  intros Ha Hs Ht. unfold create_mem_manager.
  destruct (kz_info kz), (kz_alloc_list kz), (kz_free_list kz), (kz_chunk kz); simpl; try tauto.
  split_and!; try done. by apply pool_init.
Qed.

(** * Concrete instances *)
Definition ex_mm : mem_manager_info :=
  MemManagerInfo [MemChunk 3 "a" 100 50; MemChunk 4 "b" 150 10]
    [MemChunk 1 "FREE" 80 20; MemChunk 2 "FREE" 160 40] "dram" 80 120.

Lemma ex_mm_wf : mm_wf ex_mm.
Proof.
  split; simpl; try lia.
  - unfold ids. simpl. repeat (apply NoDup_cons; split; [set_solver|]). by apply NoDup_nil.
  - unfold ivs, separated. repeat constructor; unfold gap; simpl; lia.
  - split; [by repeat constructor|]. intros x. simpl. unfold inside, ext, chunk_extent. simpl.
    repeat case_if; lia.
Qed.

(** A region requested as a whole: nothing above it is free any more. *)
Definition ex_full : mem_manager_info :=
  MemManagerInfo [MemChunk 1 "all" 80 120] [] "dram" 80 120.

Lemma ex_full_reached :
  mem_request (MemManagerInfo [] [MemChunk 1 "FREE" 80 120] "dram" 80 120) "all" 120 None
  = (inl 1%positive, ex_full).
Proof. reflexivity. Qed.

Lemma ex_full_wf : mm_wf ex_full.
Proof.
  eapply (pool_perm [] [MemChunk 1 "all" 80 120] _); [done|].
  apply (pool_take [MemChunk 1 "FREE" 80 120] [] 80 120) with (best := MemChunk 1 "FREE" 80 120)
    (l1 := []) (l2 := []); try done. apply pool_init; [done|lia..].
Qed.

Lemma ex_mm_fresh p : Some 9%positive = Some p -> p ∉ ids (free_list ex_mm ++ alloc_list ex_mm).
Proof. intros [= <-]. unfold ids. simpl. set_solver. Qed.

Lemma mem_request_witness :
  exists c mm', mem_request ex_mm "codec" 30 (Some 9%positive) = (inl (node c), mm') /\ mm_wf mm' /\
                size c = 30.
Proof.
  destruct (mem_request_correct ex_mm "codec" 30 (Some 9%positive) ex_mm_wf ltac:(lia) ex_mm_fresh)
    as [(best & c & mm' & E & Hwf & _ & Hs & _)|[E _]].
  - exists c, mm'. by split_and!.
  - vm_compute in E. discriminate.
Defined.

Lemma mem_release_witness :
  exists mm', mem_release ex_mm 3 = Some (true, mm') /\
    ivs (free_list mm') = [(80, 70); (160, 40)].
Proof.
  destruct (mem_release_correct ex_mm (MemChunk 3 "a" 100 50) ex_mm_wf)
    as [(mm' & E & _ & _ & Hf & _)|[E _]].
  - simpl. set_solver.
  - exists mm'. split; [exact E|]. rewrite Hf. reflexivity.
  - vm_compute in E. discriminate.
Defined.

Lemma destroy_correct_witness : destroy_mem_manager ex_mm = Some [].
Proof. apply (destroy_correct ex_mm); [reflexivity|exact ex_mm_wf|reflexivity]. Defined.

Lemma full_manager_stuck_witness :
  mem_release ex_full 1 = Some (false, ex_full) /\ destroy_mem_manager ex_full = None.
Proof.
  destruct (full_manager_stuck ex_full ex_full_wf eq_refl) as [H1 H2]. split; [|exact H2].
  apply (H1 (MemChunk 1 "all" 80 120)). simpl. set_solver.
Defined.

Lemma alloc_order_witness :
  alloc_sorted (alloc_list ex_mm) /\
  ~ alloc_sorted (alloc_list (snd (mem_request ex_mm "top" 40 None))).
Proof.
  assert (Hs : alloc_sorted (alloc_list ex_mm)) by (repeat constructor; simpl; lia).
  split; [exact Hs|].
  destruct (alloc_order ex_mm "top" 40 None 2%positive
              (snd (mem_request ex_mm "top" 40 None)) ex_mm_wf Hs eq_refl)
    as [H|(c & _ & _ & _ & _ & H)]; [exfalso|exact H].
  apply StronglySorted_inv in H as [_ H]. apply Forall_cons in H as [H _]. simpl in H. lia.
Defined.
