(* ===== verification/Ring.v ===== *)
(** Circular buffers: a flat array read and written at positions modulo its
    length.  The contents of a ring from position [r] on are the array rotated by
    [r]; writes come as one or two contiguous copies, as the C code makes them. *)
From S2P Require Export Prelude.
From stdpp Require Import list_numbers.

Open Scope nat_scope.

Section ring.
Context {A : Type}.
Implicit Types (q ws : list A) (i r n : nat).

(** A memcpy of [ws] to the positions from [i] on. *)
Definition splice i ws q : list A := take i q ++ ws ++ drop (i + length ws) q.

Lemma length_splice i ws q : i + length ws <= length q -> length (splice i ws q) = length q.
Proof. intros. unfold splice. rewrite !length_app, length_take, length_drop. lia. Qed.

Lemma lookup_splice i ws q j :
  i + length ws <= length q ->
  splice i ws q !! j = if decide (i <= j < i + length ws) then ws !! (j - i) else q !! j.
Proof.
  intros Hl. unfold splice. case_decide.
  - rewrite lookup_app_r by (rewrite length_take; lia).
    rewrite length_take, lookup_app_l by lia. f_equal. lia.
  - destruct (decide (j < i)).
    + rewrite lookup_app_l by (rewrite length_take; lia). by rewrite lookup_take_lt.
    + rewrite !lookup_app_r by (rewrite ?length_take; lia).
      rewrite length_take, lookup_drop. f_equal. lia.
Qed.

(** Two adjacent copies make one. *)
Lemma splice_splice i ws1 ws2 q :
  i + length ws1 + length ws2 <= length q ->
  splice (i + length ws1) ws2 (splice i ws1 q) = splice i (ws1 ++ ws2) q.
Proof.
  intros Hl.
  assert (H1 : length (splice i ws1 q) = length q) by (apply length_splice; lia).
  apply list_eq. intros j.
  rewrite !lookup_splice by (rewrite ?H1, ?length_app; lia). rewrite length_app.
  repeat case_decide; try lia; try done.
  - rewrite lookup_app_r by lia. f_equal. lia.
  - by rewrite lookup_app_l by lia.
Qed.

Lemma drop_splice i ws q : i <= length q -> drop i (splice i ws q) = ws ++ drop (i + length ws) q.
Proof.
  intros. unfold splice. rewrite drop_app_ge by (rewrite length_take; lia).
  rewrite length_take. replace (i - i `min` length q) with 0 by lia. done.
Qed.

(** The element [k] places after [r]. *)
Definition ring_pos n r k : nat := if decide (r + k < n) then r + k else r + k - n.

(** The [m] elements from [r] on. *)
Definition ring_slice r m q : list A := take m (drop r q ++ take r q).

Lemma length_ring_slice r m q : r <= length q -> m <= length q -> length (ring_slice r m q) = m.
Proof. intros. unfold ring_slice. rewrite length_take, length_app, length_drop, length_take. lia. Qed.

Lemma lookup_ring_slice r m q k :
  r < length q -> m <= length q -> k < m ->
  ring_slice r m q !! k = q !! ring_pos (length q) r k.
Proof.
  intros. unfold ring_slice, ring_pos. rewrite lookup_take_lt by done. case_decide.
  - rewrite lookup_app_l by (rewrite length_drop; lia). by rewrite lookup_drop.
  - rewrite lookup_app_r by (rewrite length_drop; lia).
    rewrite length_drop, lookup_take_lt by lia. f_equal. lia.
Qed.

Lemma ring_slice_ext r m q l :
  r < length q -> m <= length q -> length l = m ->
  (forall k, k < m -> q !! ring_pos (length q) r k = l !! k) -> ring_slice r m q = l.
Proof.
  intros ??? Hk. apply list_eq. intros k. destruct (decide (k < m)) as [|].
  - by rewrite lookup_ring_slice, Hk.
  - rewrite !lookup_ge_None_2; [done|lia|rewrite length_ring_slice; lia].
Qed.

(** A prefix of a slice, and the slice after it. *)
Lemma ring_slice_app r m1 m2 q :
  r < length q -> m1 + m2 <= length q -> 0 < length q ->
  ring_slice r (m1 + m2) q = ring_slice r m1 q ++ ring_slice (ring_pos (length q) r m1) m2 q.
Proof.
  intros. assert (ring_pos (length q) r m1 < length q \/ m1 + m2 = m1).
  { unfold ring_pos. case_decide; lia. }
  apply ring_slice_ext; [done|done| |].
  - rewrite length_app, !length_ring_slice; try lia; unfold ring_pos; case_decide; lia.
  - intros k Hk. destruct (decide (k < m1)).
    + rewrite lookup_app_l by (rewrite length_ring_slice; lia). by rewrite lookup_ring_slice by lia.
    + rewrite lookup_app_r by (rewrite length_ring_slice; lia).
      rewrite length_ring_slice by lia.
      rewrite lookup_ring_slice by (unfold ring_pos; repeat case_decide; lia).
      f_equal. unfold ring_pos; repeat case_decide; lia.
Qed.

(** A contiguous slice. *)
Lemma ring_slice_contig r m q : r + m <= length q -> ring_slice r m q = take m (drop r q).
Proof. intros. unfold ring_slice. rewrite take_app_le by (rewrite length_drop; lia). done. Qed.

(** A slice that wraps: the tail of the array, then its head. *)
Lemma ring_slice_wrap r m q :
  r <= length q -> length q - r <= m -> m <= length q ->
  ring_slice r m q = drop r q ++ take (m - (length q - r)) q.
Proof.
  intros. unfold ring_slice. rewrite take_app_ge by (rewrite length_drop; lia).
  rewrite length_drop, take_take. do 2 f_equal. lia.
Qed.

(** Writing [ws] behind the first [m] elements: in one piece, ... *)
Lemma ring_write_contig r m q ws :
  r < length q -> m + length ws <= length q ->
  let w := ring_pos (length q) r m in
  w + length ws <= length q ->
  ring_slice r (m + length ws) (splice w ws q) = ring_slice r m q ++ ws.
Proof.
  intros Hr Hm w Hw. apply ring_slice_ext; rewrite ?length_splice by done; try done.
  - rewrite length_app, length_ring_slice by lia. done.
  - intros k Hk. rewrite lookup_splice by done. destruct (decide (k < m)).
    + rewrite lookup_app_l by (rewrite length_ring_slice; lia).
      rewrite lookup_ring_slice by lia. rewrite decide_False; [done|].
      unfold w, ring_pos in *; repeat case_decide; lia.
    + rewrite lookup_app_r by (rewrite length_ring_slice; lia).
      rewrite length_ring_slice by lia. rewrite decide_True.
      * f_equal. unfold w, ring_pos in *; repeat case_decide; lia.
      * unfold w, ring_pos in *; repeat case_decide; lia.
Qed.

(** ... or in two, at the end and at the start of the array. *)
Lemma ring_write_wrap r m q ws :
  r < length q -> m + length ws <= length q ->
  let w := ring_pos (length q) r m in
  w < length q -> length q - w <= length ws ->
  ring_slice r (m + length ws)
    (splice 0 (drop (length q - w) ws) (splice w (take (length q - w) ws) q))
  = ring_slice r m q ++ ws.
Proof.
  intros Hr Hm w Hw Hlen.
  assert (H1 : w + length (take (length q - w) ws) <= length q) by (rewrite length_take; lia).
  assert (H2 : 0 + length (drop (length q - w) ws) <=
               length (splice w (take (length q - w) ws) q)).
  { rewrite length_splice, length_drop by done. lia. }
  assert (Hq : length (splice 0 (drop (length q - w) ws) (splice w (take (length q - w) ws) q))
               = length q) by (rewrite length_splice; [by apply length_splice|done]).
  apply ring_slice_ext; rewrite ?Hq; try done.
  - rewrite length_app, length_ring_slice by lia. done.
  - intros k Hk. rewrite lookup_splice, lookup_splice by done.
    rewrite length_drop, length_take. destruct (decide (k < m)).
    + rewrite lookup_app_l by (rewrite length_ring_slice; lia).
      rewrite lookup_ring_slice by lia. rewrite !decide_False; [done| |];
        unfold w, ring_pos in *; repeat case_decide; lia.
    + rewrite lookup_app_r by (rewrite length_ring_slice; lia).
      rewrite length_ring_slice by lia.
      destruct (decide (k - m < length q - w)).
      * rewrite decide_False, decide_True, lookup_take_lt
          by (unfold w, ring_pos in *; repeat case_decide; lia).
        f_equal. unfold w, ring_pos in *; repeat case_decide; lia.
      * rewrite decide_True, lookup_drop by (unfold w, ring_pos in *; repeat case_decide; lia).
        f_equal. unfold w, ring_pos in *; repeat case_decide; lia.
Qed.
End ring.

Close Scope nat_scope.
