(* ===== verification/Msgq.v ===== *)
(** The circular message queue shared between the CPU and the ADSP
    (src/drivers/platform/tegra/nvadsp/msgq.c, types in
    src/drivers/include/linux/tegra_nvadsp.h): variable-length messages, each a
    size word and that many payload words, in a ring of 32-bit words.  [None]
    stands for an access outside an object. *)
From S2P Require Export Ring.

Definition MSGQ_MESSAGE_HEADER_WSIZE := 1.
Definition MSGQ_HEADER_WSIZE := 3.
Definition MSGQ_MAX_QUEUE_WSIZE := 8192 - MSGQ_HEADER_WSIZE.

(** A message in memory: the size word and the payload words the object has room
    for (at least as many as the size word says). *)
Record msgq_message_t := Message { msg_size : Z; payload : list Z }.

Record msgq_t := Msgq { size : Z; write_index : Z; read_index : Z; queue : list Z }.

Definition set_write (q : msgq_t) (wi : Z) (words : list Z) : msgq_t :=
  Msgq (size q) wi (read_index q) words.
Definition set_read (q : msgq_t) (ri : Z) : msgq_t :=
  Msgq (size q) (write_index q) ri (queue q).

(** [(int32_t * )message] as an array of words, and back. *)
Definition words (m : msgq_message_t) : list Z := msg_size m :: payload m.
Definition of_words (l : list Z) : msgq_message_t :=
  match l with [] => Message 0 [] | w :: l' => Message w l' end.

(** [msgq_wmemcpy]'s two sides: read [n] words at [i], store words at [i]. *)
Definition read_words (l : list Z) (i n : Z) : option (list Z) :=
  if (0 <=? i) && (0 <=? n) && (i + n <=? Z.of_nat (length l))
  then Some (take (Z.to_nat n) (drop (Z.to_nat i) l)) else None.
Definition write_words (l : list Z) (i : Z) (ws : list Z) : option (list Z) :=
  if (0 <=? i) && (i + Z.of_nat (length ws) <=? Z.of_nat (length l))
  then Some (splice (Z.to_nat i) ws l) else None.

(** The queue words are the memory that follows the header. *)
Definition msgq_init (msgq : msgq_t) (sz : Z) : msgq_t :=
  let sz := if MSGQ_MAX_QUEUE_WSIZE <? sz then MSGQ_MAX_QUEUE_WSIZE else sz in
  Msgq sz 0 0 (queue msgq).

Definition msgq_queue_message (msgq : option msgq_t) (message : option msgq_message_t)
    : option (Z * option msgq_t) :=
  match msgq, message with
  | Some q, Some m =>
      let ri := read_index q in
      let wi := write_index q in
      let wrap := ri <=? wi in
      let qremainder := if wrap then size q - wi else ri - wi in
      let qsize := if wrap then qremainder + ri else qremainder in
      let msize := s32 (MSGQ_MESSAGE_HEADER_WSIZE + msg_size m) in
      if qsize <=? msize then Some (- ENOSPC, msgq)
      else if msize <? qremainder then
        ws ← read_words (words m) 0 msize;
        qw ← write_words (queue q) wi ws;
        Some (0, Some (set_write q (s32 (wi + MSGQ_MESSAGE_HEADER_WSIZE + msg_size m)) qw))
      else
        ws1 ← read_words (words m) 0 qremainder;
        qw1 ← write_words (queue q) wi ws1;
        ws2 ← read_words (words m) qremainder (msize - qremainder);
        qw2 ← write_words qw1 0 ws2;
        Some (0, Some (set_write q
                 (s32 (wi + MSGQ_MESSAGE_HEADER_WSIZE + msg_size m - size q)) qw2))
  | _, _ => Some (- EFAULT, msgq)
  end.

(** The return value, the queue and the caller's message buffer afterwards. *)
Definition msgq_dequeue_message (msgq : option msgq_t) (message : option msgq_message_t)
    : option (Z * option msgq_t * option msgq_message_t) :=
  match msgq with
  | None => Some (- EFAULT, msgq, message)
  | Some q =>
      let ri := read_index q in
      let wi := write_index q in
      if ri =? wi then
        Some (- ENOMSG, msgq, (fun m => Message 0 (payload m)) <$> message)
      else
        msg_sz ← queue q !! Z.to_nat ri;
        match message with
        | None =>
            let ri' := s32 (ri + MSGQ_MESSAGE_HEADER_WSIZE + msg_sz) in
            Some (0, Some (set_read q (if ri' <? size q then ri' else ri' - size q)), None)
        | Some m =>
            if msg_size m <? msg_sz then
              Some (- ENOSPC, msgq, Some (Message msg_sz (payload m)))
            else
              let msize := s32 (MSGQ_MESSAGE_HEADER_WSIZE + msg_sz) in
              let qremainder := size q - ri in
              if msize <? qremainder then
                ws ← read_words (queue q) ri msize;
                mw ← write_words (words m) 0 ws;
                Some (0, Some (set_read q (s32 (ri + MSGQ_MESSAGE_HEADER_WSIZE + msg_sz))),
                      Some (of_words mw))
              else
                ws1 ← read_words (queue q) ri qremainder;
                mw1 ← write_words (words m) 0 ws1;
                ws2 ← read_words (queue q) 0 (msize - qremainder);
                mw2 ← write_words mw1 qremainder ws2;
                Some (0, Some (set_read q
                         (s32 (ri + MSGQ_MESSAGE_HEADER_WSIZE + msg_sz - size q))),
                      Some (of_words mw2))
        end
  end.

(** * Abstraction: a queue of payloads

    [encode] is what a message occupies in the ring. *)
Definition encode (p : list Z) : list Z := Z.of_nat (length p) :: p.
Definition encode_all (ps : list (list Z)) : list Z := concat (encode <$> ps).

(** The words a queue of payloads takes. *)
Definition used (ps : list (list Z)) : Z := Z.of_nat (length (encode_all ps)).

Record msgq_repr (q : msgq_t) (ps : list (list Z)) : Prop := {
  rp_len : Z.of_nat (length (queue q)) = size q;
  rp_max : size q <= MSGQ_MAX_QUEUE_WSIZE;
  rp_ri : 0 <= read_index q < size q;
  rp_used : used ps < size q;
  rp_wi : write_index q =
    Z.of_nat (ring_pos (length (queue q)) (Z.to_nat (read_index q)) (length (encode_all ps)));
  rp_data : ring_slice (Z.to_nat (read_index q)) (length (encode_all ps)) (queue q) = encode_all ps }.

(** A message object with payload [p] in a buffer that may be larger. *)
Definition carries (m : msgq_message_t) (p : list Z) : Prop :=
  msg_size m = Z.of_nat (length p) /\ take (length p) (payload m) = p.

Lemma encode_all_snoc ps p : encode_all (ps ++ [p]) = encode_all ps ++ encode p.
Proof.
  unfold encode_all. rewrite fmap_app, concat_app. f_equal.
  change (concat (encode <$> [p])) with (encode p ++ []). apply app_nil_r.
Qed.

Lemma encode_all_cons p ps : encode_all (p :: ps) = encode p ++ encode_all ps.
Proof. done. Qed.

Lemma carries_words m p n :
  carries m p -> (n <= length (encode p))%nat ->
  take n (words m) = take n (encode p) /\ Z.of_nat n <= Z.of_nat (length (words m)).
Proof.
  intros [Hs Hp] Hn. unfold words, encode in *. rewrite Hs. simpl in *.
  assert (Hl : (length p <= length (payload m))%nat).
  { rewrite <- Hp at 1. rewrite length_take. lia. }
  split; [|lia]. destruct n as [|n]; [done|]. simpl. f_equal.
  rewrite <- Hp, take_take. f_equal. lia.
Qed.

Lemma read_words_spec l i n :
  0 <= i -> 0 <= n -> i + n <= Z.of_nat (length l) ->
  read_words l i n = Some (take (Z.to_nat n) (drop (Z.to_nat i) l)).
Proof.
  intros. unfold read_words.
  by rewrite (proj2 (Z.leb_le 0 i)), (proj2 (Z.leb_le 0 n)), (proj2 (Z.leb_le _ _)).
Qed.

Lemma write_words_spec l i ws :
  0 <= i -> i + Z.of_nat (length ws) <= Z.of_nat (length l) ->
  write_words l i ws = Some (splice (Z.to_nat i) ws l).
Proof.
  intros. unfold write_words. by rewrite (proj2 (Z.leb_le 0 i)), (proj2 (Z.leb_le _ _)).
Qed.

Lemma length_encode p : length (encode p) = S (length p).
Proof. done. Qed.

(** The space computation of [msgq_queue_message] on a well-formed queue. *)
Lemma repr_space q ps :
  msgq_repr q ps ->
  (if read_index q <=? write_index q
   then size q - write_index q + read_index q else read_index q - write_index q)
  = size q - used ps.
Proof.
  intros [Hl _ Hri Hu Hwi _]. unfold used in *. unfold ring_pos in Hwi.
  destruct (decide _) in Hwi; case_if; lia.
Qed.

Section queue.
Variables (q : msgq_t) (ps : list (list Z)) (m : msgq_message_t) (p : list Z).
Hypothesis Hq : msgq_repr q ps.
Hypothesis Hm : carries m p.
Hypothesis Hlen : Z.of_nat (length p) < 2 ^ 31 - 1.

Lemma queue_msize : s32 (MSGQ_MESSAGE_HEADER_WSIZE + msg_size m) = Z.of_nat (length (encode p)).
Proof.
  destruct Hm as [-> _]. rewrite length_encode. unfold MSGQ_MESSAGE_HEADER_WSIZE.
  rewrite s32_id by width_lia. lia.
Qed.

(** The words of the message, read whole or in part. *)
Lemma message_words i n :
  (i + n <= length (encode p))%nat ->
  read_words (words m) (Z.of_nat i) (Z.of_nat n) = Some (take n (drop i (encode p))).
Proof.
  intros Hn. destruct (carries_words m p (i + n) Hm Hn) as [Ht Hlw].
  rewrite read_words_spec by lia. rewrite !Nat2Z.id. f_equal.
  rewrite !take_drop_commute. by rewrite Ht.
Qed.

Lemma message_words0 n :
  (n <= length (encode p))%nat ->
  read_words (words m) 0 (Z.of_nat n) = Some (take n (encode p)).
Proof. intros. apply (message_words 0 n). lia. Qed.

(** A message is refused for lack of space, exactly when it would fill the queue. *)
Lemma queue_full :
  size q <= used ps + Z.of_nat (length (encode p)) ->
  msgq_queue_message (Some q) (Some m) = Some (- ENOSPC, Some q).
Proof.
  intros Hfull. unfold msgq_queue_message. pose proof (repr_space q ps Hq) as Hs.
  rewrite queue_msize. destruct (read_index q <=? write_index q); rewrite Hs;
    rewrite (proj2 (Z.leb_le _ _)) by lia; done.
Qed.

Lemma repr_set_write wi qw :
  length qw = length (queue q) ->
  used ps + Z.of_nat (length (encode p)) < size q ->
  wi = Z.of_nat (ring_pos (length (queue q)) (Z.to_nat (read_index q))
                  (length (encode_all ps) + length (encode p))) ->
  ring_slice (Z.to_nat (read_index q)) (length (encode_all ps) + length (encode p)) qw
    = encode_all ps ++ encode p ->
  msgq_repr (set_write q wi qw) (ps ++ [p]).
Proof.
  intros Hqw Hroom Hwi Hdata. destruct Hq as [Hl Hmax Hri Hu _ _].
  unfold used in *. split; simpl; rewrite ?Hqw; try done.
  - unfold used. rewrite encode_all_snoc, length_app. lia.
  - by rewrite encode_all_snoc, length_app.
  - by rewrite encode_all_snoc, length_app.
Qed.

Lemma queue_room :
  used ps + Z.of_nat (length (encode p)) < size q ->
  exists q', msgq_queue_message (Some q) (Some m) = Some (0, Some q') /\ msgq_repr q' (ps ++ [p]).
Proof.
  intros Hroom. pose proof (repr_space q ps Hq) as Hs. pose proof (rp_max _ _ Hq) as Hmax.
  assert (Hq0 := Hq). destruct Hq0 as [Hl _ Hri Hu Hwi Hd].
  unfold msgq_queue_message. rewrite queue_msize.
  assert (Hrn : (Z.to_nat (read_index q) < length (queue q))%nat) by lia.
  unfold used in *. unfold MSGQ_MAX_QUEUE_WSIZE, MSGQ_HEADER_WSIZE in Hmax.
  set (w := ring_pos (length (queue q)) (Z.to_nat (read_index q)) (length (encode_all ps))) in *.
  assert (Hw : (w < length (queue q))%nat) by (unfold w, ring_pos; case_decide; lia).
  (* what the code computes as the room up to the end of the array or the reader *)
  set (qrem := if read_index q <=? write_index q then size q - write_index q
               else read_index q - write_index q).
  replace (if read_index q <=? write_index q then qrem + read_index q else qrem)
    with (size q - Z.of_nat (length (encode_all ps)))
    by (rewrite <- Hs; unfold qrem; destruct (read_index q <=? write_index q); lia).
  rewrite (proj2 (Z.leb_gt _ _)) by lia.
  assert (Hmsz : msg_size m = Z.of_nat (length p)) by apply Hm.
  assert (He : length (encode p) = S (length p)) by done.
  destruct (Z.ltb_spec (Z.of_nat (length (encode p))) qrem) as [Hlt|Hge].
  - rewrite message_words0 by lia.
    rewrite take_ge by lia. cbn [mbind option_bind].
    assert (Hfit : (w + length (encode p) <= length (queue q))%nat).
    { unfold qrem in Hlt. destruct (Z.leb_spec (read_index q) (write_index q)); lia. }
    rewrite write_words_spec by lia. cbn [mbind option_bind]. eexists. split; [done|].
    rewrite Hwi, Nat2Z.id. apply repr_set_write; [by apply length_splice|done| |].
    + rewrite Hmsz, s32_id by (unfold MSGQ_MESSAGE_HEADER_WSIZE; width_lia).
      unfold MSGQ_MESSAGE_HEADER_WSIZE, qrem, w, ring_pos in *.
      destruct (Z.leb_spec (read_index q) (write_index q)); repeat case_decide; lia.
    + rewrite <- Hd at 2. apply ring_write_contig; [done|lia|done].
  - assert (Hqrem : qrem = Z.of_nat (length (queue q) - w)).
    { unfold qrem in *. destruct (Z.leb_spec (read_index q) (write_index q)); [lia|].
      unfold w, ring_pos in *. case_decide; lia. }
    rewrite Hqrem. rewrite message_words0 by lia.
    cbn [mbind option_bind]. set (n := (length (queue q) - w)%nat) in *.
    rewrite write_words_spec by (rewrite ?length_take; lia). cbn [mbind option_bind].
    replace (Z.of_nat (length (encode p)) - Z.of_nat n) with (Z.of_nat (length (encode p) - n)) by lia.
    rewrite message_words by lia. rewrite (take_ge (drop n (encode p))) by (rewrite length_drop; lia).
    cbn [mbind option_bind]. rewrite Hwi, Nat2Z.id.
    assert (Hl1 : length (splice w (take n (encode p)) (queue q)) = length (queue q))
      by (apply length_splice; rewrite length_take; lia).
    rewrite write_words_spec by (rewrite ?Hl1, ?length_drop; lia). cbn [mbind option_bind].
    eexists. split; [done|]. apply repr_set_write; [|done| |].
    + rewrite length_splice; [done|rewrite Hl1, length_drop; lia].
    + rewrite Hmsz, s32_id by (unfold MSGQ_MESSAGE_HEADER_WSIZE; width_lia).
      unfold MSGQ_MESSAGE_HEADER_WSIZE, w, n, ring_pos in *. repeat case_decide; lia.
    + rewrite <- Hd at 2. apply ring_write_wrap; [done|lia|done|lia].
Qed.
End queue.

Section dequeue.
Variables (q : msgq_t) (p : list Z) (ps : list (list Z)).
Hypothesis Hq : msgq_repr q (p :: ps).

Abbreviation r := (Z.to_nat (read_index q)).

Lemma deq_bounds :
  (r < length (queue q))%nat /\ (length (encode p) + length (encode_all ps) < length (queue q))%nat /\
  Z.of_nat (length (queue q)) <= MSGQ_MAX_QUEUE_WSIZE.
Proof.
  destruct Hq as [Hl Hm Hri Hu _ _]. unfold used in Hu.
  rewrite encode_all_cons, length_app in Hu. lia.
Qed.

(** The oldest message, and the ring without it. *)
Lemma deq_slices :
  ring_slice r (length (encode p)) (queue q) = encode p /\
  ring_slice (ring_pos (length (queue q)) r (length (encode p))) (length (encode_all ps)) (queue q)
    = encode_all ps.
Proof.
  destruct deq_bounds as (Hr & Hu & _). pose proof (rp_data _ _ Hq) as Hd.
  rewrite encode_all_cons, length_app, ring_slice_app in Hd by lia.
  apply app_inj_1 in Hd; [done|]. rewrite length_ring_slice; lia.
Qed.

Lemma deq_head : queue q !! r = Some (Z.of_nat (length p)).
Proof.
  destruct deq_bounds as (Hr & Hu & _). destruct deq_slices as [Hd _].
  apply (f_equal (fun l => l !! 0%nat)) in Hd.
  rewrite lookup_ring_slice in Hd by (rewrite length_encode in *; lia).
  unfold ring_pos in Hd. rewrite decide_True in Hd by lia. by rewrite Nat.add_0_r in Hd.
Qed.

Lemma deq_nonempty : (read_index q =? write_index q) = false.
Proof.
  destruct deq_bounds as (Hr & Hu & _). destruct Hq as [Hl _ Hri _ Hwi _].
  rewrite encode_all_cons, length_app in Hwi. rewrite length_encode in *.
  apply Z.eqb_neq. unfold ring_pos in Hwi. case_decide; lia.
Qed.

Lemma deq_msize : s32 (MSGQ_MESSAGE_HEADER_WSIZE + Z.of_nat (length p)) = Z.of_nat (length (encode p)).
Proof.
  destruct deq_bounds as (_ & Hu & Hm). rewrite length_encode in *.
  unfold MSGQ_MESSAGE_HEADER_WSIZE, MSGQ_MAX_QUEUE_WSIZE, MSGQ_HEADER_WSIZE in *.
  rewrite s32_id by width_lia. lia.
Qed.

Lemma repr_set_read ri :
  ri = Z.of_nat (ring_pos (length (queue q)) r (length (encode p))) ->
  msgq_repr (set_read q ri) ps.
Proof.
  intros ->. destruct deq_bounds as (Hr & Hu & _). destruct deq_slices as [_ Hd].
  destruct Hq as [Hl Hm Hri _ Hwi _]. rewrite encode_all_cons, length_app in Hwi.
  rewrite length_encode in *. split; simpl; rewrite ?Nat2Z.id; try done.
  - unfold ring_pos; case_decide; lia.
  - unfold used. lia.
  - rewrite Hwi. unfold ring_pos; repeat case_decide; lia.
Qed.

Lemma deq_discard :
  exists q', msgq_dequeue_message (Some q) None = Some (0, Some q', None) /\ msgq_repr q' ps.
Proof.
  destruct deq_bounds as (Hr & Hu & Hm). pose proof (rp_ri _ _ Hq). pose proof (rp_len _ _ Hq).
  unfold msgq_dequeue_message. rewrite deq_nonempty, deq_head. cbn [mbind option_bind].
  eexists. split; [done|]. apply repr_set_read. rewrite length_encode in *.
  unfold MSGQ_MESSAGE_HEADER_WSIZE, MSGQ_MAX_QUEUE_WSIZE, MSGQ_HEADER_WSIZE in *.
  rewrite s32_id by width_lia. unfold ring_pos.
  destruct (Z.ltb_spec (read_index q + 1 + Z.of_nat (length p)) (size q)); case_decide; lia.
Qed.

Lemma deq_small m :
  msg_size m < Z.of_nat (length p) ->
  msgq_dequeue_message (Some q) (Some m) =
    Some (- ENOSPC, Some q, Some (Message (Z.of_nat (length p)) (payload m))).
Proof.
  intros Hs. unfold msgq_dequeue_message. rewrite deq_nonempty, deq_head. cbn [mbind option_bind].
  by rewrite (proj2 (Z.ltb_lt _ _)).
Qed.

Lemma deq_copy m :
  Z.of_nat (length p) <= msg_size m -> msg_size m <= Z.of_nat (length (payload m)) ->
  exists q', msgq_dequeue_message (Some q) (Some m) =
    Some (0, Some q', Some (Message (Z.of_nat (length p)) (p ++ drop (length p) (payload m)))) /\
    msgq_repr q' ps.
Proof.
  intros Hfit Hbuf. destruct deq_bounds as (Hr & Hu & Hm). destruct deq_slices as [Hd _].
  pose proof (rp_ri _ _ Hq) as Hri. pose proof (rp_len _ _ Hq) as Hl.
  unfold msgq_dequeue_message. rewrite deq_nonempty, deq_head. cbn [mbind option_bind].
  rewrite (proj2 (Z.ltb_ge _ _)) by lia. rewrite deq_msize.
  assert (Hw : (length (encode p) <= length (words m))%nat) by (simpl; lia).
  assert (Hfull : splice 0 (encode p) (words m) =
                  words (Message (Z.of_nat (length p)) (p ++ drop (length p) (payload m)))) by done.
  unfold MSGQ_MAX_QUEUE_WSIZE, MSGQ_HEADER_WSIZE in *.
  destruct (Z.ltb_spec (Z.of_nat (length (encode p))) (size q - read_index q)) as [Hlt|Hge].
  - rewrite read_words_spec by lia. rewrite Nat2Z.id, <- ring_slice_contig, Hd by lia.
    cbn [mbind option_bind]. rewrite write_words_spec by lia. cbn [mbind option_bind].
    change (Z.to_nat 0) with 0%nat. rewrite Hfull. eexists. split; [done|].
    apply repr_set_read. rewrite length_encode in *. unfold MSGQ_MESSAGE_HEADER_WSIZE.
    rewrite s32_id by width_lia. unfold ring_pos. case_decide; lia.
  - set (n := (length (queue q) - r)%nat).
    replace (size q - read_index q) with (Z.of_nat n) by lia.
    rewrite ring_slice_wrap in Hd by lia. fold n in Hd.
    assert (Hn : length (drop r (queue q)) = n) by (by rewrite length_drop).
    rewrite (read_words_spec (queue q) (read_index q)) by lia. rewrite Nat2Z.id, take_ge by lia.
    cbn [mbind option_bind]. rewrite write_words_spec by lia. cbn [mbind option_bind].
    change (Z.to_nat 0) with 0%nat.
    rewrite read_words_spec by lia. rewrite drop_0. cbn [mbind option_bind].
    replace (Z.to_nat (Z.of_nat (length (encode p)) - Z.of_nat n)) with (length (encode p) - n)%nat by lia.
    assert (Hn2 : length (take (length (encode p) - n) (queue q)) = (length (encode p) - n)%nat)
      by (rewrite length_take; lia).
    assert (Hs1 : length (splice 0 (drop r (queue q)) (words m)) = length (words m))
      by (apply length_splice; lia).
    rewrite write_words_spec by (rewrite ?Hs1, ?Hn2; lia). cbn [mbind option_bind]. rewrite Nat2Z.id.
    pose proof (splice_splice 0 (drop r (queue q)) (take (length (encode p) - n) (queue q)) (words m)) as Hss.
    rewrite Hn, Hd, Hfull in Hss. cbn [Nat.add] in Hss. rewrite Hss by (rewrite Hn2; lia).
    eexists. split; [done|].
    apply repr_set_read. rewrite length_encode in *. unfold MSGQ_MESSAGE_HEADER_WSIZE.
    rewrite s32_id by width_lia. unfold ring_pos. case_decide; lia.
Qed.
End dequeue.

(** * Correctness *)

(** C15.  Queueing a message appends it to the abstract FIFO when the queue keeps
    at least one word free afterwards, and otherwise fails with -ENOSPC and leaves
    the queue alone; in both cases no word outside the queue or the message is
    touched, wrapped copies included. *)
Theorem queue_message_correct q ps m p :
  msgq_repr q ps -> carries m p -> Z.of_nat (length p) < 2 ^ 31 - 1 ->
  if used (ps ++ [p]) <? size q then
    exists q', msgq_queue_message (Some q) (Some m) = Some (0, Some q') /\ msgq_repr q' (ps ++ [p])
  else msgq_queue_message (Some q) (Some m) = Some (- ENOSPC, Some q).
Proof.
  intros Hq Hm Hl. unfold used. rewrite encode_all_snoc, length_app.
  case_if; [eapply queue_room|eapply queue_full]; try done; unfold used; lia.
Qed.

(** C17.  Dequeueing returns the oldest message: copied into a buffer whose size
    word says it is large enough (words behind the message stay as they were),
    dropped when no buffer is given, and left in the queue with -ENOSPC and its
    size reported when the buffer is too small; an empty queue gives -ENOMSG. *)
Theorem dequeue_message_correct q ps message :
  msgq_repr q ps ->
  (forall m, message = Some m -> msg_size m <= Z.of_nat (length (payload m))) ->
  match ps with
  | [] => msgq_dequeue_message (Some q) message =
            Some (- ENOMSG, Some q, (fun m => Message 0 (payload m)) <$> message)
  | p :: ps' =>
      match message with
      | Some m =>
          if msg_size m <? Z.of_nat (length p) then
            msgq_dequeue_message (Some q) message =
              Some (- ENOSPC, Some q, Some (Message (Z.of_nat (length p)) (payload m)))
          else exists q' m',
            msgq_dequeue_message (Some q) message = Some (0, Some q', Some m') /\
            msgq_repr q' ps' /\ carries m' p /\
            drop (length p) (payload m') = drop (length p) (payload m)
      | None => exists q',
          msgq_dequeue_message (Some q) message = Some (0, Some q', None) /\ msgq_repr q' ps'
      end
  end.
Proof.
  intros Hq Hbuf. destruct ps as [|p ps'].
  - unfold msgq_dequeue_message. destruct Hq as [Hl _ Hri _ Hwi _].
    rewrite (proj2 (Z.eqb_eq _ _)); [done|]. rewrite Hwi. simpl.
    unfold ring_pos. rewrite decide_True; lia.
  - destruct message as [m|]; [|by eapply deq_discard]. case_if; [by eapply deq_small|].
    destruct (deq_copy q p ps' Hq m) as (q' & E & Hr); [lia|by apply Hbuf|].
    exists q', (Message (Z.of_nat (length p)) (p ++ drop (length p) (payload m))).
    split_and!; [done|done|split; simpl; [done|by rewrite take_app_length]|].
    simpl. by rewrite drop_app_length.
Qed.

(** A queue initialised over enough memory represents the empty FIFO, with
    the requested size capped at [MSGQ_MAX_QUEUE_WSIZE]. *)
Theorem init_empty q sz :
  0 < sz -> Z.of_nat (length (queue q)) = Z.min sz MSGQ_MAX_QUEUE_WSIZE ->
  msgq_repr (msgq_init q sz) [] /\ size (msgq_init q sz) = Z.min sz MSGQ_MAX_QUEUE_WSIZE.
Proof.
  intros Hs Hl. unfold msgq_init, MSGQ_MAX_QUEUE_WSIZE, MSGQ_HEADER_WSIZE in *.
  destruct (Z.ltb_spec (8192 - 3) sz); (split; [split; simpl; try lia|simpl; lia]);
    unfold used, encode_all, ring_pos, MSGQ_MAX_QUEUE_WSIZE, MSGQ_HEADER_WSIZE; simpl; try lia;
    try (rewrite decide_True; lia); done.
Qed.

(** * Concrete instances: a queue of eight words holding one message, with the
    next one wrapping around the end. *)
Definition ex_q : msgq_t := Msgq 8 7 4 [0; 0; 0; 0; 2; 11; 12; 0].

Lemma ex_q_repr : msgq_repr ex_q [[11; 12]].
Proof.
  split; try reflexivity; unfold MSGQ_MAX_QUEUE_WSIZE, MSGQ_HEADER_WSIZE; simpl; lia.
Qed.

Lemma queue_message_witness :
  exists q', msgq_queue_message (Some ex_q) (Some (Message 2 [21; 22; 99])) = Some (0, Some q') /\
             msgq_repr q' [[11; 12]; [21; 22]].
Proof.
  exact (queue_message_correct ex_q [[11; 12]] (Message 2 [21; 22; 99]) [21; 22]
    ex_q_repr (conj eq_refl eq_refl) ltac:(simpl; lia)).
Defined.

Lemma dequeue_message_witness :
  exists q' m', msgq_dequeue_message (Some ex_q) (Some (Message 3 [0; 0; 7])) = Some (0, Some q', Some m') /\
    msgq_repr q' [] /\ carries m' [11; 12] /\ drop 2 (payload m') = [7].
Proof.
  exact (dequeue_message_correct ex_q [[11; 12]] (Some (Message 3 [0; 0; 7])) ex_q_repr
    ltac:(intros m [= <-]; simpl; lia)).
Defined.

Lemma init_empty_witness : msgq_repr (msgq_init ex_q 8) [].
Proof. exact (proj1 (init_empty ex_q 8 ltac:(lia) ltac:(vm_compute; reflexivity))). Defined.
