(* ===== verification/Ivc.v ===== *)
(** Inter-VM communication channels (src/drivers/platform/tegra/tegra-ivc.c,
    types in src/include/linux/tegra-ivc-instance.h).

    An endpoint sees two channels in shared memory, one it receives on and one it
    transmits on; each has free-running 32-bit write and read counters and a ring
    of fixed-size frames.  [None] as a result is BUG(): the kernel stops.  The
    memory barriers and cache maintenance calls have no effect on the values (the
    model is sequentially consistent), but the range checks inside them are kept. *)
From S2P Require Export Ring.

Definition IVC_ALIGN := 64.
Definition offset_w_count := 0.
Definition offset_r_count := IVC_ALIGN.
Definition sizeof_header := 2 * IVC_ALIGN.
Definition UINT_MAX := 2 ^ 32 - 1.
Definition INT_MAX := 2 ^ 31 - 1.
Definition ULLONG_MAX := 2 ^ 64 - 1.

(** enum ivc_state, as it is stored in the header. *)
Definition ivc_state_established := 0.
Definition ivc_state_sync := 1.
Definition ivc_state_ack := 2.

(** The header, with the frames that follow it in memory. *)
Record ivc_channel_header := Channel {
  w_count : Z;
  state : Z;
  r_count : Z;
  frames : list (list Z) }.

(** [notify] is a callback; [notifies] counts its calls. *)
Record ivc := Ivc {
  rx_channel : ivc_channel_header;
  tx_channel : ivc_channel_header;
  w_pos : Z;
  r_pos : Z;
  notifies : nat;
  nframes : Z;
  frame_size : Z;
  peer_device : bool;
  rx_handle : Z;
  tx_handle : Z }.

(** * Stores to single fields *)
Definition set_rx (v : ivc) (c : ivc_channel_header) : ivc :=
  Ivc c (tx_channel v) (w_pos v) (r_pos v) (notifies v) (nframes v) (frame_size v)
    (peer_device v) (rx_handle v) (tx_handle v).
Definition set_tx (v : ivc) (c : ivc_channel_header) : ivc :=
  Ivc (rx_channel v) c (w_pos v) (r_pos v) (notifies v) (nframes v) (frame_size v)
    (peer_device v) (rx_handle v) (tx_handle v).
Definition set_pos (v : ivc) (w r : Z) : ivc :=
  Ivc (rx_channel v) (tx_channel v) w r (notifies v) (nframes v) (frame_size v)
    (peer_device v) (rx_handle v) (tx_handle v).
Definition do_notify (v : ivc) : ivc :=
  Ivc (rx_channel v) (tx_channel v) (w_pos v) (r_pos v) (S (notifies v)) (nframes v)
    (frame_size v) (peer_device v) (rx_handle v) (tx_handle v).
Definition set_w_count (c : ivc_channel_header) (x : Z) := Channel x (state c) (r_count c) (frames c).
Definition set_r_count (c : ivc_channel_header) (x : Z) := Channel (w_count c) (state c) x (frames c).
Definition set_state (c : ivc_channel_header) (x : Z) := Channel (w_count c) x (r_count c) (frames c).
Definition set_frame (c : ivc_channel_header) (i : Z) (f : list Z) :=
  Channel (w_count c) (state c) (r_count c) (<[Z.to_nat i := f]> (frames c)).

(** * Checked arithmetic *)
Definition is_u32_subtraction_safe (a b : Z) : bool := b <=? a.
Definition safe_subtract_u32 (a b : Z) : option Z :=
  if is_u32_subtraction_safe a b then Some (u32 (a - b)) else None.
Definition is_u64_addition_safe (a b : Z) : bool := b <=? u64 (ULLONG_MAX - a).
Definition safe_add_u64 (a b : Z) : option Z :=
  if is_u64_addition_safe a b then Some (u64 (a + b)) else None.
Definition is_u32_addition_safe (a b : Z) : bool := b <=? u32 (UINT_MAX - a).
(** The arguments are converted to uint32_t. *)
Definition safe_add_u32 (a b : Z) : option Z :=
  let a := u32 a in let b := u32 b in
  if is_u32_addition_safe a b then Some (u32 (a + b)) else None.
Definition is_u32_u32__u32_multiplication_safe (a b : Z) : bool :=
  if (a =? 0) || (b =? 0) then true else a <=? UINT_MAX / b.
Definition is_u32_u32__u64_multiplication_safe (a b : Z) : bool :=
  if (a =? 0) || (b =? 0) then true else a <=? ULLONG_MAX / b.
Definition safe_mult_u32_u32__u64 (a b : Z) : option Z :=
  if is_u32_u32__u64_multiplication_safe a b then Some (u64 (a * b)) else None.

(** * Counters *)
Definition ivc_channel_empty (v : ivc) (ch : ivc_channel_header) : bool :=
  if nframes v <? u32 (w_count ch - r_count ch) then true
  else w_count ch =? r_count ch.

Definition ivc_channel_full (v : ivc) (ch : ivc_channel_header) : bool :=
  nframes v <=? u32 (w_count ch - r_count ch).

Definition ivc_channel_avail_count (v : ivc) (ch : ivc_channel_header) : Z :=
  u32 (w_count ch - r_count ch).

Definition ivc_advance_tx (v : ivc) : ivc :=
  let v := set_tx v (set_w_count (tx_channel v) (u32 (w_count (tx_channel v) + 1))) in
  if w_pos v =? u32 (nframes v - 1) then set_pos v 0 (r_pos v)
  else set_pos v (u32 (w_pos v + 1)) (r_pos v).

Definition ivc_advance_rx (v : ivc) : ivc :=
  let v := set_rx v (set_r_count (rx_channel v) (u32 (r_count (rx_channel v) + 1))) in
  if r_pos v =? u32 (nframes v - 1) then set_pos v (w_pos v) 0
  else set_pos v (w_pos v) (u32 (r_pos v + 1)).

(** The counters are looked at twice, the second time after refreshing them from
    the peer; with coherent memory both looks see the same values. *)
Definition ivc_check_read (v : ivc) : Z :=
  if negb (state (tx_channel v) =? ivc_state_established) then - ECONNRESET
  else if negb (ivc_channel_empty v (rx_channel v)) then 0
  else if ivc_channel_empty v (rx_channel v) then - ENOMEM else 0.

Definition ivc_check_write (v : ivc) : Z :=
  if negb (state (tx_channel v) =? ivc_state_established) then - ECONNRESET
  else if negb (ivc_channel_full v (tx_channel v)) then 0
  else if ivc_channel_full v (tx_channel v) then - ENOMEM else 0.

Definition tegra_ivc_can_read (v : ivc) : bool := ivc_check_read v =? 0.
Definition tegra_ivc_can_write (v : ivc) : bool := ivc_check_write v =? 0.

Definition tegra_ivc_tx_empty (v : ivc) : option bool :=
  _ ← safe_add_u32 (tx_handle v) offset_r_count;
  Some (ivc_channel_empty v (tx_channel v)).

Definition tegra_ivc_tx_frames_available (v : ivc) : option Z :=
  _ ← safe_add_u32 (tx_handle v) offset_r_count;
  used ← safe_subtract_u32 (w_count (tx_channel v)) (r_count (tx_channel v));
  safe_subtract_u32 (nframes v) used.

(** * Frames *)

(** The frame's index stands for its address. *)
Definition ivc_frame_pointer (v : ivc) (frame : Z) : option Z :=
  if nframes v <=? frame then None else Some frame.

Definition ivc_frame_handle (v : ivc) (channel_handle frame : Z) : option Z :=
  if negb (peer_device v) then None
  else if nframes v <=? frame then None
  else
    a ← safe_add_u64 channel_handle sizeof_header;
    b ← safe_mult_u32_u32__u64 (frame_size v) frame;
    safe_add_u64 a b.

(** [ivc_invalidate_frame] and [ivc_flush_frame]: only their checks matter. *)
Definition ivc_sync_frame (v : ivc) (channel_handle frame offset : Z) : option unit :=
  if negb (peer_device v) then Some tt
  else
    h ← ivc_frame_handle v channel_handle frame;
    _ ← safe_add_u64 h offset;
    Some tt.

Definition frame_at (c : ivc_channel_header) (i : Z) : option (list Z) := frames c !! Z.to_nat i.

(** Where data goes to: a kernel buffer or a user buffer ([UserBuf ok]: whether
    copy_to_user succeeds).  Passing both or none is BUG() in the code. *)
Inductive read_dst := KernelBuf | UserBuf (copy_ok : bool).

(** Where data comes from; a failing copy_from_user
    leaves the given bytes in the frame. *)
Inductive write_src :=
  | KernelData (data : list Z)
  | UserData (data : list Z) (copy_fails_with : option (list Z)).

(** The common tail of [ivc_read_frame] and [tegra_ivc_read_advance]: notify only
    when the channel was full. *)
Definition notify_if (b : bool) (v : ivc) : ivc := if b then do_notify v else v.

Definition ivc_read_frame (v : ivc) (dst : read_dst) (max_read : Z)
    : option (Z * list Z * ivc) :=
  if frame_size v <? max_read then Some (- E2BIG, [], v)
  else
    let result := ivc_check_read v in
    if negb (result =? 0) then Some (result, [], v)
    else
      _ ← ivc_sync_frame v (rx_handle v) (r_pos v) 0;
      src ← ivc_frame_pointer v (r_pos v);
      frame ← frame_at (rx_channel v) src;
      match dst with
      | UserBuf false => Some (- EFAULT, [], v)
      | KernelBuf | UserBuf true =>
          let v := ivc_advance_rx v in
          let v := notify_if (ivc_channel_avail_count v (rx_channel v) =? u32 (nframes v - 1)) v in
          Some (max_read, take (Z.to_nat max_read) frame, v)
      end.

Definition tegra_ivc_read (v : ivc) (max_read : Z) := ivc_read_frame v KernelBuf max_read.
Definition tegra_ivc_read_user (v : ivc) (copy_ok : bool) (max_read : Z) :=
  ivc_read_frame v (UserBuf copy_ok) max_read.

Definition tegra_ivc_read_peek (v : ivc) (off count : Z) : option (Z * list Z) :=
  if negb (is_u64_addition_safe off count) then Some (- EFAULT, [])
  else if (frame_size v <? off) || (frame_size v <? u64 (off + count)) then Some (- E2BIG, [])
  else
    let result := ivc_check_read v in
    if negb (result =? 0) then Some (result, [])
    else
      _ ← ivc_sync_frame v (rx_handle v) (r_pos v) off;
      src ← ivc_frame_pointer v (r_pos v);
      frame ← frame_at (rx_channel v) src;
      Some (s32 count, take (Z.to_nat count) (drop (Z.to_nat off) frame)).

(** The next frame to read ([inl]), or ERR_PTR ([inr]). *)
Definition tegra_ivc_read_get_next_frame (v : ivc) : option (Z + Z) :=
  let result := ivc_check_read v in
  if negb (result =? 0) then Some (inr result)
  else
    _ ← ivc_sync_frame v (rx_handle v) (r_pos v) 0;
    src ← ivc_frame_pointer v (r_pos v);
    Some (inl src).

Definition tegra_ivc_read_advance (v : ivc) : option (Z * ivc) :=
  let result := ivc_check_read v in
  if negb (result =? 0) then Some (result, v)
  else if negb (is_u64_addition_safe (rx_handle v) offset_r_count) then Some (- EFAULT, v)
  else if negb (is_u64_addition_safe (rx_handle v) offset_w_count) then Some (- EFAULT, v)
  else if negb (is_u32_subtraction_safe (nframes v) 1) then Some (- EFAULT, v)
  else
    let v := ivc_advance_rx v in
    Some (0, notify_if (ivc_channel_avail_count v (rx_channel v) =? u32 (nframes v - 1)) v).

(** The bytes a frame holds after [data] was copied in and the rest cleared. *)
Definition pad_frame (v : ivc) (data : list Z) : list Z :=
  data ++ replicate (Z.to_nat (frame_size v) - length data) 0.

(** [data] has [size] bytes. *)
Definition ivc_write_frame (v : ivc) (src : write_src) : option (Z * ivc) :=
  let data := match src with KernelData d | UserData d _ => d end in
  let size := Z.of_nat (length data) in
  if frame_size v <? size then Some (- E2BIG, v)
  else
    let result := ivc_check_write v in
    if negb (result =? 0) then Some (result, v)
    else
      p ← ivc_frame_pointer v (w_pos v);
      match src with
      | UserData _ (Some garbled) =>
          Some (- EFAULT, set_tx v (set_frame (tx_channel v) p garbled))
      | KernelData _ | UserData _ None =>
          let v := set_tx v (set_frame (tx_channel v) p (pad_frame v data)) in
          _ ← ivc_sync_frame v (tx_handle v) (w_pos v) 0;
          let v := ivc_advance_tx v in
          Some (size, notify_if (ivc_channel_avail_count v (tx_channel v) =? 1) v)
      end.

Definition tegra_ivc_write (v : ivc) (data : list Z) := ivc_write_frame v (KernelData data).
Definition tegra_ivc_write_user (v : ivc) (data : list Z) (fault : option (list Z)) :=
  ivc_write_frame v (UserData data fault).

Definition tegra_ivc_write_poke (v : ivc) (data : list Z) (off : Z) : option (Z * ivc) :=
  let count := Z.of_nat (length data) in
  if negb (is_u64_addition_safe off count) then Some (- EFAULT, v)
  else if (UINT_MAX <? off) || (INT_MAX <? count) || (UINT_MAX <? u64 (off + count))
  then Some (- EFAULT, v)
  else if (frame_size v <? off) || (frame_size v <? u64 (off + count)) then Some (- E2BIG, v)
  else
    let result := ivc_check_write v in
    if negb (result =? 0) then Some (result, v)
    else
      p ← ivc_frame_pointer v (w_pos v);
      frame ← frame_at (tx_channel v) p;
      Some (count, set_tx v (set_frame (tx_channel v) p (splice (Z.to_nat off) data frame))).

Definition tegra_ivc_write_get_next_frame (v : ivc) : option (Z + Z) :=
  let result := ivc_check_write v in
  if negb (result =? 0) then Some (inr result)
  else p ← ivc_frame_pointer v (w_pos v); Some (inl p).

(** The second -EFAULT comes after the frame has been committed. *)
Definition tegra_ivc_write_advance (v : ivc) : option (Z * ivc) :=
  let result := ivc_check_write v in
  if negb (result =? 0) then Some (result, v)
  else
    _ ← ivc_sync_frame v (tx_handle v) (w_pos v) 0;
    let v := ivc_advance_tx v in
    if negb (is_u32_addition_safe (u32 (tx_handle v)) offset_r_count) then Some (- EFAULT, v)
    else Some (0, notify_if (ivc_channel_avail_count v (tx_channel v) =? 1) v).

(** * The reset protocol *)
Definition tegra_ivc_channel_reset (v : ivc) : ivc :=
  do_notify (set_tx v (set_state (tx_channel v) ivc_state_sync)).

Definition clear_counters (v : ivc) : ivc :=
  set_pos (set_rx (set_tx v (set_w_count (tx_channel v) 0)) (set_r_count (rx_channel v) 0)) 0 0.

Definition enter_state (v : ivc) (s : Z) : ivc :=
  do_notify (set_tx v (set_state (tx_channel v) s)).

(** [peer_state] is the one value read from the peer's state. *)
Definition channel_notified_body (peer_state : Z) (v : ivc) : Z * ivc :=
  let v' :=
    if peer_state =? ivc_state_sync then enter_state (clear_counters v) ivc_state_ack
    else if (state (tx_channel v) =? ivc_state_sync) && (peer_state =? ivc_state_ack)
    then enter_state (clear_counters v) ivc_state_established
    else if state (tx_channel v) =? ivc_state_ack
    then enter_state v ivc_state_established
    else v in
  ((if state (tx_channel v') =? ivc_state_established then 0 else - EAGAIN), v').

Definition tegra_ivc_channel_notified (v : ivc) : Z * ivc :=
  channel_notified_body (state (rx_channel v)) v.

Definition tegra_ivc_channel_sync (v : option ivc) : Z * option ivc :=
  match v with
  | None => (- EINVAL, v)
  | Some i =>
      if nframes i =? 0 then (- EINVAL, v)
      else (0, Some (set_pos i (w_count (tx_channel i) mod nframes i)
                               (r_count (rx_channel i) mod nframes i)))
  end.

(** * Sizes and parameters *)
Definition tegra_ivc_align (size : Z) : option Z :=
  s ← safe_add_u64 size (IVC_ALIGN - 1);
  Some (Z.land s (u64 (Z.lnot (IVC_ALIGN - 1)))).

Definition tegra_ivc_total_queue_size (queue_size : Z) : option Z :=
  if negb (Z.land queue_size (IVC_ALIGN - 1) =? 0) then Some 0
  else safe_add_u32 queue_size sizeof_header.

Definition check_ivc_params (queue_base1 queue_base2 nframes frame_size : Z) : Z :=
  if 0x100000000 <=? u64 (nframes * frame_size) then - EINVAL
  else if negb (Z.land queue_base1 (IVC_ALIGN - 1) =? 0) then - EINVAL
  else if negb (Z.land queue_base2 (IVC_ALIGN - 1) =? 0) then - EINVAL
  else if negb (Z.land frame_size (IVC_ALIGN - 1) =? 0) then - EINVAL
  else if queue_base1 <? queue_base2 then
    if queue_base2 <? u64 (queue_base1 + u32 (frame_size * nframes)) then - EINVAL else 0
  else
    if queue_base1 <? u64 (queue_base2 + u32 (frame_size * nframes)) then - EINVAL else 0.

(** The DMA API is a parameter: the handle dma_map_single returns, and whether a
    handle is an error; so is what the memory at the two bases holds. *)
Section init.
Variables (mem : Z -> ivc_channel_header) (dma_map_single : Z -> Z -> Z)
  (dma_mapping_error : Z -> bool).

Definition set_handles (v : ivc) (rxh txh : Z) : ivc :=
  Ivc (rx_channel v) (tx_channel v) (w_pos v) (r_pos v) (notifies v) (nframes v)
    (frame_size v) (peer_device v) rxh txh.

Definition tegra_ivc_init_body (v : ivc) (rx_base rx_hdl tx_base tx_hdl nfr fsz : Z)
    (peer : bool) : option (Z * ivc) :=
  let result := check_ivc_params rx_base tx_base nfr fsz in
  if negb (result =? 0) then Some (result, v)
  else if negb (is_u32_u32__u32_multiplication_safe nfr fsz) then Some (- EFAULT, v)
  else
    queue_size ← tegra_ivc_total_queue_size (u32 (nfr * fsz));
    if INT_MAX <? fsz then Some (- E2BIG, v)
    else
      let v := set_tx (set_rx v (mem rx_base)) (mem tx_base) in
      let finish v :=
        Some (0, Ivc (rx_channel v) (tx_channel v) 0 0 (notifies v) nfr fsz peer
                   (rx_handle v) (tx_handle v)) in
      if negb peer then finish v
      else if negb (rx_hdl =? 0) && negb (dma_mapping_error rx_hdl)
      then finish (set_handles v rx_hdl tx_hdl)
      else
        let v := set_handles v (dma_map_single rx_base queue_size) (tx_handle v) in
        if dma_mapping_error (rx_handle v) then Some (- ENOMEM, v)
        else
          let v := set_handles v (rx_handle v) (dma_map_single tx_base queue_size) in
          if dma_mapping_error (tx_handle v) then Some (- ENOMEM, v) else finish v.

Definition tegra_ivc_init (v : ivc) (rx_base tx_base nfr fsz : Z) (peer : bool) :=
  tegra_ivc_init_body v rx_base 0 tx_base 0 nfr fsz peer.

Definition tegra_ivc_init_with_dma_handle (v : ivc) (rx_base rx_hdl tx_base tx_hdl nfr fsz : Z)
    (peer : bool) :=
  tegra_ivc_init_body v rx_base rx_hdl tx_base tx_hdl nfr fsz peer.
End init.
