(* ===== verification/IvcFacts.v ===== *)
(** IVC channels: a channel is a bounded FIFO of frames between its writer and its
    reader, whatever the free-running counters' values, and no counter value a
    peer may put into shared memory makes an endpoint leave its frames. *)
From S2P Require Export Ivc.

(** * What a consistent channel holds

    [wp] is the writer's private position, [rp] the reader's, [q] the frames that
    were written and not yet read, oldest first. *)
Record chan_repr (n fsz : Z) (ch : ivc_channel_header) (wp rp : Z) (q : list (list Z)) : Prop := {
  cr_n : 0 < n < 2 ^ 32;
  cr_frames : Z.of_nat (length (frames ch)) = n;
  cr_fsz : Forall (fun f => Z.of_nat (length f) = fsz) (frames ch);
  cr_wc : is_u32 (w_count ch);
  cr_rc : is_u32 (r_count ch);
  cr_cnt : u32 (w_count ch - r_count ch) = Z.of_nat (length q);
  cr_len : Z.of_nat (length q) <= n;
  cr_rp : 0 <= rp < n;
  cr_wp : wp = Z.of_nat (ring_pos (length (frames ch)) (Z.to_nat rp) (length q));
  cr_data : ring_slice (Z.to_nat rp) (length q) (frames ch) = q }.

(** The DMA handle of a channel leaves room for all of its frames. *)
Definition handle_ok (v : ivc) (h : Z) : Prop :=
  peer_device v = true -> 0 <= h /\ 0 <= frame_size v < 2 ^ 32 /\
    h + sizeof_header + frame_size v * nframes v < 2 ^ 64.

Lemma sync_frame_ok v h i off :
  handle_ok v h -> 0 <= i < nframes v -> nframes v < 2 ^ 32 -> 0 <= off <= frame_size v ->
  ivc_sync_frame v h i off = Some tt.
Proof.
  unfold handle_ok, ivc_sync_frame, ivc_frame_handle. intros Hh Hi Hn Ho.
  destruct (peer_device v); simpl; [|done]. destruct (Hh eq_refl) as (H0 & Hf & H1).
  rewrite (proj2 (Z.leb_gt _ _)) by lia. unfold sizeof_header, IVC_ALIGN in *.
  assert (Hm : 0 <= frame_size v * i /\ frame_size v * i + frame_size v <= frame_size v * nframes v) by nia.
  unfold safe_add_u64, is_u64_addition_safe, ULLONG_MAX.
  rewrite (u64_id (2 ^ 64 - 1 - h)) by width_lia.
  rewrite (proj2 (Z.leb_le _ _)) by lia. cbn [mbind option_bind].
  unfold safe_mult_u32_u32__u64, is_u32_u32__u64_multiplication_safe, ULLONG_MAX.
  destruct ((frame_size v =? 0) || (i =? 0)) eqn:Ez; [|rewrite (proj2 (Z.leb_le _ _))]; cbn [mbind option_bind].
  - rewrite (u64_id (h + 2 * 64)), (u64_id (frame_size v * i)) by width_lia.
    rewrite u64_id by width_lia. rewrite (proj2 (Z.leb_le _ _)) by lia. cbn [mbind option_bind].
    rewrite (u64_id (h + 2 * 64 + _)), u64_id by width_lia.
    by rewrite (proj2 (Z.leb_le _ _)) by lia.
  - rewrite (u64_id (h + 2 * 64)), (u64_id (frame_size v * i)) by width_lia.
    rewrite u64_id by width_lia. rewrite (proj2 (Z.leb_le _ _)) by lia. cbn [mbind option_bind].
    rewrite (u64_id (h + 2 * 64 + _)), u64_id by width_lia.
    by rewrite (proj2 (Z.leb_le _ _)) by lia.
  - zb. assert (frame_size v * i <= 2 ^ 64 - 1) by lia. apply Z.div_le_lower_bound; lia.
Qed.

Section channel.
Variables (n fsz : Z) (ch : ivc_channel_header) (wp rp : Z) (q : list (list Z)).
Hypothesis Hch : chan_repr n fsz ch wp rp q.

Lemma chan_wp : 0 <= wp < n.
Proof.
  destruct Hch as [Hn Hf _ _ _ _ Hl Hr -> _]. unfold ring_pos. case_decide; lia.
Qed.

Lemma chan_empty v : nframes v = n -> ivc_channel_empty v ch = bool_decide (q = []).
Proof.
  intros Hv. destruct Hch as [Hn _ _ Hw Hr Hc Hl _ _ _]. unfold ivc_channel_empty. rewrite Hv, Hc.
  rewrite (proj2 (Z.ltb_ge _ _)) by lia. destruct q as [|f q']; simpl in *.
  - apply Z.eqb_eq. width_lia.
  - apply Z.eqb_neq. width_lia.
Qed.

Lemma chan_full v : nframes v = n -> ivc_channel_full v ch = (n <=? Z.of_nat (length q)).
Proof. intros Hv. unfold ivc_channel_full. by rewrite Hv, (cr_cnt _ _ _ _ _ _ Hch). Qed.

(** The channel after a frame was stored at the write position and the write
    counter and position advanced. *)
Lemma chan_push f wp' :
  Z.of_nat (length q) < n -> Z.of_nat (length f) = fsz ->
  wp' = (if wp =? u32 (n - 1) then 0 else u32 (wp + 1)) ->
  chan_repr n fsz
    (set_w_count (set_frame ch wp f) (u32 (w_count ch + 1))) wp' rp (q ++ [f]).
Proof.
  intros Hroom Hf Hwp'. pose proof chan_wp as Hwp.
  destruct Hch as [Hn Hfr Hfs Hw Hr Hc Hl Hrp Hwpe Hd].
  assert (Hlen : length (<[Z.to_nat wp := f]> (frames ch)) = length (frames ch)) by apply length_insert.
  assert (Hspl : <[Z.to_nat wp := f]> (frames ch) = splice (Z.to_nat wp) [f] (frames ch)).
  { apply list_eq. intros j. rewrite lookup_splice by (simpl; lia). simpl. case_decide.
    - replace j with (Z.to_nat wp) by lia. rewrite list_lookup_insert_eq by lia.
      by rewrite Nat.sub_diag.
    - rewrite list_lookup_insert_ne by lia. done. }
  split; simpl; rewrite ?length_app; simpl; rewrite ?Hlen; try done; try lia.
  - apply Forall_insert; done.
  - apply u32_range.
  - width_lia.
  - rewrite Hwp'. unfold u32. rewrite !Z.mod_small by lia. rewrite Hwpe in *.
    unfold ring_pos in *. case_if; repeat case_decide; lia.
  - pose proof (ring_write_contig (Z.to_nat rp) (length q) (frames ch) [f]) as Hrw.
    rewrite Hd in Hrw. rewrite Hspl, Hwpe, Nat2Z.id. apply Hrw; simpl; lia.
Qed.

(** The channel after its oldest frame was consumed. *)
Lemma chan_pop f q' rp' :
  q = f :: q' ->
  rp' = (if rp =? u32 (n - 1) then 0 else u32 (rp + 1)) ->
  frame_at ch rp = Some f /\
  chan_repr n fsz (set_r_count ch (u32 (r_count ch + 1))) wp rp' q'.
Proof.
  intros -> Hrp'. destruct Hch as [Hn Hfr Hfs Hw Hr Hc Hl Hrp Hwpe Hd]. simpl in Hl, Hc.
  change (length (f :: q')) with (1 + length q')%nat in *.
  rewrite ring_slice_app in Hd by lia. change (f :: q') with ([f] ++ q') in Hd. apply app_inj_1 in Hd as [Hh Ht];
    [|rewrite length_ring_slice by lia; done].
  assert (Hpos : rp' = Z.of_nat (ring_pos (length (frames ch)) (Z.to_nat rp) 1)).
  { rewrite Hrp'. unfold u32. rewrite !Z.mod_small by lia. unfold ring_pos. case_if; case_decide; lia. }
  split.
  - unfold frame_at. apply (f_equal (fun l => l !! 0%nat)) in Hh. simpl in Hh.
    rewrite lookup_ring_slice in Hh by lia. rewrite <- Hh. f_equal.
    unfold ring_pos. case_decide; lia.
  - split; simpl; try done; try lia.
    + apply u32_range.
    + width_lia.
    + rewrite Hpos. unfold ring_pos. case_decide; lia.
    + rewrite Hwpe, Hpos, Nat2Z.id. unfold ring_pos. repeat case_decide; lia.
    + by rewrite Hpos, Nat2Z.id.
Qed.
End channel.

(** * One endpoint and the FIFOs it writes to and reads from *)
Definition writer_view (v : ivc) (rp : Z) (q : list (list Z)) : Prop :=
  chan_repr (nframes v) (frame_size v) (tx_channel v) (w_pos v) rp q /\ handle_ok v (tx_handle v).
Definition reader_view (v : ivc) (wp : Z) (q : list (list Z)) : Prop :=
  chan_repr (nframes v) (frame_size v) (rx_channel v) wp (r_pos v) q /\ handle_ok v (rx_handle v).

(** Everything but the channels, the positions and the count of notifications. *)
Definition same_config (v v' : ivc) : Prop :=
  nframes v' = nframes v /\ frame_size v' = frame_size v /\ peer_device v' = peer_device v /\
  rx_handle v' = rx_handle v /\ tx_handle v' = tx_handle v.

Definition established (v : ivc) : bool := state (tx_channel v) =? ivc_state_established.

Lemma check_read_spec v wp q :
  reader_view v wp q ->
  ivc_check_read v = if established v then (if bool_decide (q = []) then - ENOMEM else 0)
                     else - ECONNRESET.
Proof.
  intros [Hc _]. unfold ivc_check_read, established. rewrite (chan_empty _ _ _ _ _ _ Hc) by done.
  by destruct (_ =? _), (bool_decide _).
Qed.

Lemma check_write_spec v rp q :
  writer_view v rp q ->
  ivc_check_write v = if established v then (if nframes v <=? Z.of_nat (length q) then - ENOMEM else 0)
                      else - ECONNRESET.
Proof.
  intros [Hc _]. unfold ivc_check_write, established. rewrite (chan_full _ _ _ _ _ _ Hc) by done.
  by destruct (_ =? _), (_ <=? _).
Qed.

Lemma frame_pointer_ok v i : i < nframes v -> ivc_frame_pointer v i = Some i.
Proof. intros. unfold ivc_frame_pointer. by rewrite (proj2 (Z.leb_gt _ _)). Qed.

Lemma notify_if_fields b v :
  rx_channel (notify_if b v) = rx_channel v /\ tx_channel (notify_if b v) = tx_channel v /\
  w_pos (notify_if b v) = w_pos v /\ r_pos (notify_if b v) = r_pos v /\
  same_config v (notify_if b v) /\
  notifies (notify_if b v) = (notifies v + if b then 1 else 0)%nat.
Proof. destruct b; unfold same_config; simpl; split_and!; try done; lia. Qed.

(** The result of a successful transmission: one frame more, and a notification
    exactly when the channel was empty. *)
Definition transmitted (v v' : ivc) (rp : Z) (q : list (list Z)) (f : list Z) : Prop :=
  writer_view v' rp (q ++ [f]) /\ rx_channel v' = rx_channel v /\ r_pos v' = r_pos v /\
  state (tx_channel v') = state (tx_channel v) /\ same_config v v' /\
  notifies v' = (notifies v + if bool_decide (q = []) then 1 else 0)%nat.

Lemma commit_frame v rp q f :
  writer_view v rp q -> Z.of_nat (length q) < nframes v -> Z.of_nat (length f) = frame_size v ->
  let v1 := ivc_advance_tx (set_tx v (set_frame (tx_channel v) (w_pos v) f)) in
  transmitted v (notify_if (ivc_channel_avail_count v1 (tx_channel v1) =? 1) v1) rp q f.
Proof.
  intros [Hc Hh] Hq Hf v1.
  pose proof (chan_push _ _ _ _ _ _ Hc f _ Hq Hf eq_refl) as Hc'.
  assert (Ev : tx_channel v1 = set_w_count (set_frame (tx_channel v) (w_pos v) f) (u32 (w_count (tx_channel v) + 1))
    /\ w_pos v1 = (if w_pos v =? u32 (nframes v - 1) then 0 else u32 (w_pos v + 1))
    /\ rx_channel v1 = rx_channel v /\ r_pos v1 = r_pos v /\ same_config v v1 /\ notifies v1 = notifies v).
  { unfold v1, ivc_advance_tx, same_config. simpl. destruct (_ =? _); simpl; split_and!; done. }
  destruct Ev as (Et & Ew & Er & Erp & Ec & En).
  destruct (notify_if_fields (ivc_channel_avail_count v1 (tx_channel v1) =? 1) v1)
    as (Nr & Nt & Nw & Nrp & Nc & Nn).
  unfold transmitted, writer_view, handle_ok, same_config in *.
  rewrite Nr, Nt, Nw, Nrp, Nn. destruct Nc as (-> & -> & -> & -> & ->).
  destruct Ec as (-> & -> & -> & -> & ->). rewrite Et, Ew. split_and!; try done.
  rewrite En. f_equal. unfold ivc_channel_avail_count. rewrite (cr_cnt _ _ _ _ _ _ Hc').
  rewrite length_app. destruct q as [|g q']; [done|].
  rewrite (proj2 (Z.eqb_neq _ _)); [done|]. simpl. lia.
Qed.

Lemma length_pad_frame v data :
  Z.of_nat (length data) <= frame_size v -> Z.of_nat (length (pad_frame v data)) = frame_size v.
Proof. intros. unfold pad_frame. rewrite length_app, length_replicate. lia. Qed.

(** What the FIFO between the endpoints makes of a call of [ivc_write_frame]. *)
Definition write_outcome (v : ivc) (rp : Z) (q : list (list Z)) (src : write_src)
    (res : Z) (v' : ivc) : Prop :=
  let data := match src with KernelData d | UserData d _ => d end in
  if decide (frame_size v < Z.of_nat (length data)) then res = - E2BIG /\ v' = v
  else if negb (established v) then res = - ECONNRESET /\ v' = v
  else if decide (nframes v <= Z.of_nat (length q)) then res = - ENOMEM /\ v' = v
  else match src with
       | UserData _ (Some _) =>
           res = - EFAULT /\ writer_view v' rp q /\ w_count (tx_channel v') = w_count (tx_channel v)
           /\ notifies v' = notifies v
       | _ => res = Z.of_nat (length data) /\ transmitted v v' rp q (pad_frame v data)
       end.

(** A store into the frame at the write position is invisible to the reader. *)
Lemma scribble v rp q f :
  writer_view v rp q -> Z.of_nat (length q) < nframes v -> Z.of_nat (length f) = frame_size v ->
  writer_view (set_tx v (set_frame (tx_channel v) (w_pos v) f)) rp q.
Proof.
  intros [Hc Hh] Hq Hf. split; [|done].
  pose proof (chan_wp _ _ _ _ _ _ Hc) as Hwp.
  destruct Hc as [Hn Hfr Hfs Hw Hr Hcn Hl Hrp Hwpe Hd].
  split; simpl; rewrite ?length_insert; try done.
  - apply Forall_insert; done.
  - apply ring_slice_ext; rewrite ?length_insert; try lia. intros k Hk.
    rewrite list_lookup_insert_ne.
    + transitivity (ring_slice (Z.to_nat rp) (length q) (frames (tx_channel v)) !! k).
      * by rewrite lookup_ring_slice by lia.
      * by rewrite Hd.
    + rewrite Hwpe, Nat2Z.id. unfold ring_pos. repeat case_decide; lia.
Qed.

(** C22.  Writing a frame appends it to the FIFO between the endpoints.  When the
    size is at most the frame size, the channel is established and the FIFO has
    room, [ivc_write_frame] (for kernel and for user data) succeeds: it returns
    the size, the FIFO gains the data padded with zeros to a whole frame, and the
    peer is notified exactly when the FIFO was empty.  Otherwise it returns
    -E2BIG, -ECONNRESET, -ENOMEM, in this order, and changes nothing; a failing
    copy_from_user gives -EFAULT and leaves the FIFO as it was.  In no case does it
    stop the kernel with BUG(). *)
Theorem write_frame_correct v rp q src :
  writer_view v rp q -> nframes v < 2 ^ 32 -> 0 <= frame_size v ->
  (forall d g, src = UserData d (Some g) -> Z.of_nat (length g) = frame_size v) ->
  exists res v', ivc_write_frame v src = Some (res, v') /\ write_outcome v rp q src res v'.
Proof.
  intros Hv Hn Hfs Hg. unfold ivc_write_frame, write_outcome. cbv zeta.
  set (data := match src with KernelData d | UserData d _ => d end) in *.
  case_decide as Hsz.
  { rewrite (proj2 (Z.ltb_lt _ _)) by done. eauto. }
  rewrite (proj2 (Z.ltb_ge _ _)) by lia.
  rewrite (check_write_spec _ _ _ Hv). destruct (established v); simpl; [|eauto].
  case_decide as Hfull.
  { rewrite (proj2 (Z.leb_le _ _)) by done. simpl. eauto. }
  rewrite (proj2 (Z.leb_gt _ _)) by lia. simpl.
  pose proof (chan_wp _ _ _ _ _ _ (proj1 Hv)) as Hwp.
  rewrite frame_pointer_ok by lia. cbn [mbind option_bind].
  assert (Hok : forall f, ivc_sync_frame (set_tx v (set_frame (tx_channel v) (w_pos v) f))
      (tx_handle v) (w_pos v) 0 = Some tt).
  { intros f. apply sync_frame_ok; simpl; try lia. apply Hv. }
  assert (Hpad : Z.of_nat (length (pad_frame v data)) = frame_size v)
    by (apply length_pad_frame; lia).
  assert (Hlen : Z.of_nat (length q) < nframes v) by lia.
  pose proof (commit_frame v rp q (pad_frame v data) Hv Hlen Hpad) as Hcommit.
  destruct src as [d|d [g|]]; subst data; rewrite ?Hok; cbn [mbind option_bind]; eauto.
  eexists _, _. split; [done|]. split_and!; try done.
  apply scribble; [done|lia|]. by eapply Hg.
Qed.

(** * Reading *)

(** The result of consuming the oldest frame: a notification exactly when the
    channel was full. *)
Definition consumed (v v' : ivc) (wp : Z) (q q' : list (list Z)) : Prop :=
  reader_view v' wp q' /\ tx_channel v' = tx_channel v /\ w_pos v' = w_pos v /\
  state (rx_channel v') = state (rx_channel v) /\ same_config v v' /\
  notifies v' = (notifies v + if bool_decide (Z.of_nat (length q) = nframes v) then 1 else 0)%nat.

Lemma consume_frame v wp f q' :
  reader_view v wp (f :: q') ->
  frame_at (rx_channel v) (r_pos v) = Some f /\
  let v1 := ivc_advance_rx v in
  consumed v (notify_if (ivc_channel_avail_count v1 (rx_channel v1) =? u32 (nframes v1 - 1)) v1)
    wp (f :: q') q'.
Proof.
  intros [Hc Hh]. pose proof (chan_pop _ _ _ _ _ _ Hc f q' _ eq_refl eq_refl) as [Hf Hc'].
  split; [done|]. cbv zeta. set (v1 := ivc_advance_rx v).
  assert (Ev : rx_channel v1 = set_r_count (rx_channel v) (u32 (r_count (rx_channel v) + 1))
    /\ r_pos v1 = (if r_pos v =? u32 (nframes v - 1) then 0 else u32 (r_pos v + 1))
    /\ tx_channel v1 = tx_channel v /\ w_pos v1 = w_pos v /\ same_config v v1 /\ notifies v1 = notifies v).
  { unfold v1, ivc_advance_rx, same_config. simpl. destruct (_ =? _); simpl; split_and!; done. }
  destruct Ev as (Er & Erp & Et & Ew & Ec & En).
  destruct (notify_if_fields (ivc_channel_avail_count v1 (rx_channel v1) =? u32 (nframes v1 - 1)) v1)
    as (Nr & Nt & Nw & Nrp & Nc & Nn).
  unfold consumed, reader_view, handle_ok, same_config in *.
  rewrite Nr, Nt, Nw, Nrp, Nn. destruct Nc as (-> & -> & -> & -> & ->).
  destruct Ec as (En1 & -> & -> & -> & ->). rewrite En1, Er, Erp. split_and!; try done.
  rewrite En. f_equal. unfold ivc_channel_avail_count. rewrite (cr_cnt _ _ _ _ _ _ Hc').
  pose proof (cr_n _ _ _ _ _ _ Hc). rewrite u32_id by width_lia.
  pose proof (cr_len _ _ _ _ _ _ Hc). simpl length in *. case_bool_decide.
  - rewrite (proj2 (Z.eqb_eq _ _)); [done|lia].
  - rewrite (proj2 (Z.eqb_neq _ _)); [done|lia].
Qed.

Definition read_outcome (v : ivc) (wp : Z) (q : list (list Z)) (dst : read_dst) (max_read : Z)
    (res : Z) (bytes : list Z) (v' : ivc) : Prop :=
  if decide (frame_size v < max_read) then res = - E2BIG /\ v' = v
  else if negb (established v) then res = - ECONNRESET /\ v' = v
  else match q, dst with
       | [], _ => res = - ENOMEM /\ v' = v
       | _, UserBuf false => res = - EFAULT /\ v' = v
       | f :: q', _ =>
           res = max_read /\ bytes = take (Z.to_nat max_read) f /\ consumed v v' wp q q'
       end.

(** C27.  Reading a frame takes the oldest one from the FIFO.  When the size asked
    for is at most the frame size, the channel is established and the FIFO is not
    empty, [ivc_read_frame] returns that size and as many bytes of the oldest
    frame, removes that frame, and notifies the peer exactly when the FIFO was
    full.  Otherwise it returns -E2BIG, -ECONNRESET or -ENOMEM, or -EFAULT when
    copy_to_user fails, and changes nothing.  It never stops the kernel. *)
Theorem read_frame_correct v wp q dst max_read :
  reader_view v wp q -> nframes v < 2 ^ 32 -> 0 <= frame_size v ->
  exists res bytes v', ivc_read_frame v dst max_read = Some (res, bytes, v') /\
    read_outcome v wp q dst max_read res bytes v'.
Proof.
  intros Hv Hn Hfs. unfold ivc_read_frame, read_outcome.
  case_decide as Hsz.
  { rewrite (proj2 (Z.ltb_lt _ _)) by done. eauto 6. }
  rewrite (proj2 (Z.ltb_ge _ _)) by lia.
  rewrite (check_read_spec _ _ _ Hv). destruct (established v); simpl; [|eauto 6].
  destruct q as [|f q']; simpl; [by eauto 6|].
  pose proof (cr_rp _ _ _ _ _ _ (proj1 Hv)) as Hrp.
  rewrite sync_frame_ok; [|apply Hv|lia|lia|lia]. cbn [mbind option_bind].
  rewrite frame_pointer_ok by lia. cbn [mbind option_bind].
  destruct (consume_frame _ _ _ _ Hv) as [-> Hcons]. cbn [mbind option_bind].
  destruct dst as [|[|]]; eauto 8.
Qed.

(** The same for the zero-copy pair: the next frame is the oldest one, and
    [tegra_ivc_read_advance] removes it. *)
Lemma read_get_next_frame_spec v wp q :
  reader_view v wp q -> nframes v < 2 ^ 32 -> 0 <= frame_size v ->
  tegra_ivc_read_get_next_frame v =
    if negb (established v) then Some (inr (- ECONNRESET))
    else match q with [] => Some (inr (- ENOMEM)) | _ => Some (inl (r_pos v)) end.
Proof.
  intros Hv Hn Hfs. unfold tegra_ivc_read_get_next_frame.
  rewrite (check_read_spec _ _ _ Hv). destruct (established v); simpl; [|done].
  destruct q as [|f q']; simpl; [done|].
  pose proof (cr_rp _ _ _ _ _ _ (proj1 Hv)) as Hrp.
  rewrite sync_frame_ok; [|apply Hv|lia|lia|lia]. cbn [mbind option_bind].
  by rewrite frame_pointer_ok by lia.
Qed.

(** * The number of free frames *)

(** [tegra_ivc_tx_frames_available] stops the kernel on a healthy channel.
    It subtracts the free-running counters with a check for underflow, although
    they are meant to wrap: on a consistent channel whose write counter wrapped past
    2^32 while frames written before are still unread, it ends in BUG(); otherwise
    it gives the number of free frames. *)
Theorem tx_frames_available_spec v rp q :
  writer_view v rp q -> u32 (tx_handle v) <= UINT_MAX - offset_r_count ->
  tegra_ivc_tx_frames_available v =
    if w_count (tx_channel v) <? r_count (tx_channel v) then None
    else Some (nframes v - Z.of_nat (length q)).
Proof.
  intros [Hc _] Hh. destruct Hc as [Hn _ _ Hw Hr Hcn Hl _ _ _].
  unfold tegra_ivc_tx_frames_available, safe_add_u32, is_u32_addition_safe.
  unfold UINT_MAX, offset_r_count, IVC_ALIGN in *.
  rewrite (u32_id (2 ^ 32 - 1 - _)) by (pose proof (u32_range (tx_handle v)); width_lia).
  rewrite (u32_id 64) by width_lia.
  rewrite (proj2 (Z.leb_le _ _)) by lia. cbn [mbind option_bind].
  unfold safe_subtract_u32, is_u32_subtraction_safe. rewrite Hcn.
  rewrite Z.leb_antisym. destruct (_ <? _) eqn:E; simpl; [done|].
  rewrite (proj2 (Z.leb_le _ _)) by lia. f_equal. apply u32_id. width_lia.
Qed.
