(* ===== verification/IvcSystem.v ===== *)
(** Two IVC endpoints on shared memory: the reset handshake of
    [tegra_ivc_channel_notified] makes both channels consistent before either side
    may use them, and an endpoint survives any stores of a hostile peer. *)
From S2P Require Export IvcFacts.

(** * The operations of an endpoint, as data *)
Inductive op :=
  | OpWrite (src : write_src)
  | OpWritePoke (data : list Z) (off : Z)
  | OpWriteGetNext
  | OpWriteAdvance
  | OpRead (dst : read_dst) (max_read : Z)
  | OpReadPeek (off count : Z)
  | OpReadGetNext
  | OpReadAdvance
  | OpReset
  | OpNotified
  | OpCanRead
  | OpCanWrite
  | OpTxEmpty
  | OpTxFramesAvailable
  | OpSync.

#[export] Instance write_src_eq_dec : EqDecision write_src.
Proof. solve_decision. Defined.
#[export] Instance read_dst_eq_dec : EqDecision read_dst.
Proof. solve_decision. Defined.
#[export] Instance op_eq_dec : EqDecision op.
Proof. solve_decision. Defined.

(** The endpoint after the operation; [None]: the kernel stopped with BUG(). *)
Definition run_op (o : op) (v : ivc) : option ivc :=
  match o with
  | OpWrite src => snd <$> ivc_write_frame v src
  | OpWritePoke data off => snd <$> tegra_ivc_write_poke v data off
  | OpWriteGetNext => (fun _ => v) <$> tegra_ivc_write_get_next_frame v
  | OpWriteAdvance => snd <$> tegra_ivc_write_advance v
  | OpRead dst n => snd <$> ivc_read_frame v dst n
  | OpReadPeek off count => (fun _ => v) <$> tegra_ivc_read_peek v off count
  | OpReadGetNext => (fun _ => v) <$> tegra_ivc_read_get_next_frame v
  | OpReadAdvance => snd <$> tegra_ivc_read_advance v
  | OpReset => Some (tegra_ivc_channel_reset v)
  | OpNotified => Some (snd (tegra_ivc_channel_notified v))
  | OpCanRead => (fun _ => v) <$> Some (tegra_ivc_can_read v)
  | OpCanWrite => (fun _ => v) <$> Some (tegra_ivc_can_write v)
  | OpTxEmpty => (fun _ => v) <$> tegra_ivc_tx_empty v
  | OpTxFramesAvailable => (fun _ => v) <$> tegra_ivc_tx_frames_available v
  | OpSync => snd (tegra_ivc_channel_sync (Some v))
  end.

(** Arguments are machine integers; a partial user copy still fills a frame.  Two
    queries truncate the endpoint's own DMA handle to 32 bits before they add to it,
    and are BUG() for a handle in the last 64 bytes below a multiple of 2^32
    ([tx_empty_bug]). *)
Definition op_ok (v : ivc) (o : op) : Prop :=
  match o with
  | OpWrite (UserData _ (Some g)) => Z.of_nat (length g) = frame_size v
  | OpWritePoke data off => is_u64 off /\ Z.of_nat (length data) < 2 ^ 64
  | OpReadPeek off count => is_u64 off /\ is_u64 count
  | OpTxEmpty | OpTxFramesAvailable => u32 (tx_handle v) <= UINT_MAX - offset_r_count
  | _ => True
  end.

(** The two operations that are neither a data operation nor part of the handshake:
    the count of free frames, and taking the positions from the counters. *)
Definition plain_op (o : op) : Prop :=
  match o with OpTxFramesAvailable | OpSync => False | _ => True end.

(** * What an endpoint relies on

    Only what it set up itself at initialisation: nothing is said about counter
    values or states, which the peer may change. *)
Record chan_shape (n fsz : Z) (ch : ivc_channel_header) : Prop := {
  cs_len : Z.of_nat (length (frames ch)) = n;
  cs_fsz : Forall (fun f => Z.of_nat (length f) = fsz) (frames ch);
  cs_w : is_u32 (w_count ch);
  cs_r : is_u32 (r_count ch) }.

Record ep_ok (v : ivc) : Prop := {
  eo_n : 0 < nframes v < 2 ^ 32;
  eo_fsz : 0 <= frame_size v < 2 ^ 32;
  eo_tx : chan_shape (nframes v) (frame_size v) (tx_channel v);
  eo_rx : chan_shape (nframes v) (frame_size v) (rx_channel v);
  eo_wp : 0 <= w_pos v < nframes v;
  eo_rp : 0 <= r_pos v < nframes v;
  eo_htx : handle_ok v (tx_handle v);
  eo_hrx : handle_ok v (rx_handle v) }.

(** An operation stores only to what its endpoint owns: the write counter, state
    and frames of the channel it transmits on, and the read counter of the other. *)
Record own_stores (v v' : ivc) : Prop := {
  os_config : same_config v v';
  os_rx_w : w_count (rx_channel v') = w_count (rx_channel v);
  os_rx_st : state (rx_channel v') = state (rx_channel v);
  os_rx_fr : frames (rx_channel v') = frames (rx_channel v);
  os_tx_r : r_count (tx_channel v') = r_count (tx_channel v) }.

#[export] Instance own_stores_preorder : PreOrder own_stores.
Proof.
  split.
  - intros v. split; unfold same_config; done.
  - intros a b c [(?&?&?&?&?) ? ? ? ?] [(?&?&?&?&?) ? ? ? ?].
    split; unfold same_config; split_and?; congruence.
Qed.

Lemma shape_frame n fsz ch i f :
  chan_shape n fsz ch -> Z.of_nat (length f) = fsz -> chan_shape n fsz (set_frame ch i f).
Proof. intros [] ?. split; simpl; rewrite ?length_insert; try done. by apply Forall_insert. Qed.

(** The two stores every transmission consists of, and the one of a reception. *)
Lemma store_frame_ok v f :
  ep_ok v -> Z.of_nat (length f) = frame_size v ->
  ep_ok (set_tx v (set_frame (tx_channel v) (w_pos v) f)) /\
  own_stores v (set_tx v (set_frame (tx_channel v) (w_pos v) f)).
Proof.
  intros [] Hf. split; split; simpl; try done. by apply shape_frame.
Qed.

Lemma notify_if_ok b v :
  ep_ok v -> ep_ok (notify_if b v) /\ own_stores v (notify_if b v).
Proof. destruct b; intros []; split; split; simpl; done. Qed.

Lemma next_pos_range n p :
  0 < n < 2 ^ 32 -> 0 <= p < n -> 0 <= (if p =? u32 (n - 1) then 0 else u32 (p + 1)) < n.
Proof. intros. rewrite !u32_id by width_lia. case_if; lia. Qed.

Lemma advance_tx_ok v : ep_ok v -> ep_ok (ivc_advance_tx v) /\ own_stores v (ivc_advance_tx v).
Proof.
  intros []. pose proof (next_pos_range _ _ eo_n0 eo_wp0).
  unfold ivc_advance_tx. simpl. split; destruct (_ =? _); split; simpl; try done;
    destruct eo_tx0; split; simpl; try done; apply u32_range.
Qed.

Lemma advance_rx_ok v : ep_ok v -> ep_ok (ivc_advance_rx v) /\ own_stores v (ivc_advance_rx v).
Proof.
  intros []. pose proof (next_pos_range _ _ eo_n0 eo_rp0).
  unfold ivc_advance_rx. simpl. split; destruct (_ =? _); split; simpl; try done;
    destruct eo_rx0; split; simpl; try done; apply u32_range.
Qed.

Lemma sync_ok v off :
  ep_ok v -> 0 <= off <= frame_size v ->
  ivc_sync_frame v (rx_handle v) (r_pos v) off = Some tt /\
  ivc_sync_frame v (tx_handle v) (w_pos v) off = Some tt.
Proof. intros [] ?. split; apply sync_frame_ok; try done; lia. Qed.

Lemma pointer_ok v :
  ep_ok v -> ivc_frame_pointer v (r_pos v) = Some (r_pos v) /\
             ivc_frame_pointer v (w_pos v) = Some (w_pos v).
Proof. intros []. rewrite !frame_pointer_ok by lia. done. Qed.

Lemma frame_at_ok n fsz ch i :
  chan_shape n fsz ch -> 0 <= i < n ->
  exists f, frame_at ch i = Some f /\ Z.of_nat (length f) = fsz.
Proof.
  intros [Hl Hf _ _] Hi. unfold frame_at.
  destruct (lookup_lt_is_Some_2 (frames ch) (Z.to_nat i)) as [f E]; [lia|].
  exists f. split; [done|]. by apply (Forall_lookup_1 _ _ _ _ Hf E).
Qed.

Lemma enter_state_ok v s : ep_ok v -> ep_ok (enter_state v s) /\ own_stores v (enter_state v s).
Proof. intros []. split; split; simpl; try done. by destruct eo_tx0; split. Qed.

Lemma clear_counters_ok v : ep_ok v -> ep_ok (clear_counters v) /\ own_stores v (clear_counters v).
Proof.
  intros []. split; split; simpl; try done; try lia; [destruct eo_tx0|destruct eo_rx0]; split; simpl; done.
Qed.

(** * What an operation can do *)
Inductive effect (v : ivc) : ivc -> Prop :=
  | ef_none : effect v v
  | ef_frame f : established v = true -> ivc_channel_full v (tx_channel v) = false ->
      Z.of_nat (length f) = frame_size v ->
      effect v (set_tx v (set_frame (tx_channel v) (w_pos v) f))
  | ef_push f b : established v = true -> ivc_channel_full v (tx_channel v) = false ->
      Z.of_nat (length f) = frame_size v ->
      effect v (notify_if b (ivc_advance_tx (set_tx v (set_frame (tx_channel v) (w_pos v) f))))
  | ef_pop b : established v = true -> ivc_channel_empty v (rx_channel v) = false ->
      effect v (notify_if b (ivc_advance_rx v))
  | ef_note b : established v = true -> effect v (notify_if b v)
  | ef_reset : effect v (tegra_ivc_channel_reset v)
  | ef_notified : effect v (snd (tegra_ivc_channel_notified v)).

Create HintDb ivc.
#[export] Hint Constructors effect : ivc.

Lemma effect_ok v v' : ep_ok v -> effect v v' -> ep_ok v' /\ own_stores v v'.
Proof.
  intros Hv He. destruct He as [|f _ _ Hf|f b _ _ Hf|b _ _|b _| |].
  - done.
  - by apply store_frame_ok.
  - destruct (store_frame_ok v f Hv Hf) as [H0 O0]. destruct (advance_tx_ok _ H0) as [H1 O1].
    destruct (notify_if_ok b _ H1). split; [done|]. do 2 (etransitivity; [done|]). done.
  - destruct (advance_rx_ok _ Hv) as [H1 O1]. destruct (notify_if_ok b _ H1).
    split; [done|]. by etransitivity.
  - by apply notify_if_ok.
  - by apply enter_state_ok.
  - unfold tegra_ivc_channel_notified, channel_notified_body. simpl. destruct (clear_counters_ok v Hv) as [Hc Hoc].
    assert (Hcs : forall s, ep_ok (enter_state (clear_counters v) s) /\
        own_stores v (enter_state (clear_counters v) s)).
    { intros s. destruct (enter_state_ok _ s Hc). split; [done|]. by etransitivity. }
    repeat case_if; auto using enter_state_ok. by split.
Qed.

Lemma check_write_0 v :
  ivc_check_write v = 0 -> established v = true /\ ivc_channel_full v (tx_channel v) = false.
Proof.
  unfold ivc_check_write, established.
  destruct (_ =? _), (ivc_channel_full v (tx_channel v)); simpl; split; first [done|lia].
Qed.

Lemma check_read_0 v :
  ivc_check_read v = 0 -> established v = true /\ ivc_channel_empty v (rx_channel v) = false.
Proof.
  unfold ivc_check_read, established.
  destruct (_ =? _), (ivc_channel_empty v (rx_channel v)); simpl; split; first [done|lia].
Qed.

(** [does r v]: the call did not stop the kernel, and had one of these effects. *)
Definition does (r : option ivc) (v : ivc) : Prop := exists v', r = Some v' /\ effect v v'.

Lemma does_effect v v' : effect v v' -> does (Some v') v.
Proof. by eexists. Qed.
#[export] Hint Resolve does_effect : ivc.

Ltac ret := cbn [mbind option_bind fmap option_fmap option_map snd]; auto with ivc.

Lemma write_does v src : ep_ok v -> op_ok v (OpWrite src) -> does (run_op (OpWrite src) v) v.
Proof.
  intros Hv Hop. simpl. unfold ivc_write_frame. cbv zeta.
  set (data := match src with KernelData d | UserData d _ => d end) in *.
  case_if; [ret|]. case_if; [ret|].
  match goal with H : ivc_check_write v = 0 |- _ => apply check_write_0 in H as [Hest Hfull] end.
  destruct (pointer_ok v Hv) as [_ ->]. cbn [mbind option_bind].
  assert (Hpad : Z.of_nat (length (pad_frame v data)) = frame_size v)
    by (apply length_pad_frame; lia).
  destruct (store_frame_ok v (pad_frame v data) Hv Hpad) as [Hv0 Ho0].
  destruct (sync_ok _ 0 Hv0) as [_ Hs]; [simpl; destruct Hv; lia|]. simpl in Hs.
  destruct src as [d|d [g|]]; simpl in *; rewrite ?Hs; ret.
Qed.

Lemma read_does v dst n : ep_ok v -> does (run_op (OpRead dst n) v) v.
Proof.
  intros Hv. simpl. unfold ivc_read_frame.
  case_if; [ret|]. case_if; [ret|].
  match goal with H : ivc_check_read v = 0 |- _ => apply check_read_0 in H as [Hest Hne] end.
  destruct (sync_ok v 0 Hv) as [-> _]; [destruct Hv; lia|]. cbn [mbind option_bind].
  destruct (pointer_ok v Hv) as [-> _]. cbn [mbind option_bind].
  destruct (frame_at_ok _ _ _ _ (eo_rx _ Hv) (eo_rp _ Hv)) as (f & -> & _).
  destruct dst as [|[|]]; ret.
Qed.

Lemma poke_does v data off :
  ep_ok v -> op_ok v (OpWritePoke data off) -> does (run_op (OpWritePoke data off) v) v.
Proof.
  intros Hv [Ho Hd]. simpl. unfold tegra_ivc_write_poke.
  case_if; [ret|]. case_if; [ret|]. case_if; [ret|]. case_if; [ret|].
  match goal with H : ivc_check_write v = 0 |- _ => apply check_write_0 in H as [Hest Hfull] end.
  destruct (pointer_ok v Hv) as [_ ->]. cbn [mbind option_bind].
  destruct (frame_at_ok _ _ _ _ (eo_tx _ Hv) (eo_wp _ Hv)) as (f & -> & Hf). ret.
  apply does_effect, ef_frame; try done. unfold is_u64_addition_safe, ULLONG_MAX in *.
  rewrite length_splice; [done|]. width_lia.
Qed.

Lemma get_next_does v :
  ep_ok v -> does (run_op OpWriteGetNext v) v /\ does (run_op OpReadGetNext v) v.
Proof.
  intros Hv. simpl. unfold tegra_ivc_write_get_next_frame, tegra_ivc_read_get_next_frame.
  destruct (pointer_ok v Hv) as [-> ->].
  destruct (sync_ok v 0 Hv) as [-> _]; [destruct Hv; lia|].
  split; case_if; ret.
Qed.

Lemma peek_does v off count :
  ep_ok v -> op_ok v (OpReadPeek off count) -> does (run_op (OpReadPeek off count) v) v.
Proof.
  intros Hv [Ho Hd]. simpl. unfold tegra_ivc_read_peek.
  case_if; [ret|]. case_if; [ret|]. case_if; [ret|].
  destruct (sync_ok v off Hv) as [-> _]; [width_lia|]. cbn [mbind option_bind].
  destruct (pointer_ok v Hv) as [-> _]. cbn [mbind option_bind].
  destruct (frame_at_ok _ _ _ _ (eo_rx _ Hv) (eo_rp _ Hv)) as (f & -> & _). ret.
Qed.

Lemma read_advance_does v : ep_ok v -> does (run_op OpReadAdvance v) v.
Proof.
  intros Hv. simpl. unfold tegra_ivc_read_advance. case_if; [ret|].
  match goal with H : ivc_check_read v = 0 |- _ => apply check_read_0 in H as [Hest Hne] end.
  repeat (case_if; [ret|]). ret.
Qed.

(** Committing the frame as it stands is storing it and committing it. *)
Lemma set_frame_same c i f : frame_at c i = Some f -> set_frame c i f = c.
Proof. intros E. unfold set_frame. rewrite list_insert_id by done. by destruct c. Qed.

Lemma advance_effect v b :
  ep_ok v -> established v = true -> ivc_channel_full v (tx_channel v) = false ->
  effect v (notify_if b (ivc_advance_tx v)).
Proof.
  intros Hv Hest Hfull.
  destruct (frame_at_ok _ _ _ _ (eo_tx _ Hv) (eo_wp _ Hv)) as (f & Ef & Hf).
  pose proof (ef_push v f b Hest Hfull Hf) as He.
  rewrite set_frame_same in He by done. by destruct v.
Qed.

Lemma write_advance_does v : ep_ok v -> does (run_op OpWriteAdvance v) v.
Proof.
  intros Hv. simpl. unfold tegra_ivc_write_advance. case_if; [ret|].
  match goal with H : ivc_check_write v = 0 |- _ => apply check_write_0 in H as [Hest Hfull] end.
  destruct (sync_ok v 0 Hv) as [_ ->]; [destruct Hv; lia|]. cbn [mbind option_bind].
  pose proof (fun b => advance_effect v b Hv Hest Hfull) as Hp.
  case_if; ret. apply does_effect, (Hp false).
Qed.

Lemma handle_add v :
  u32 (tx_handle v) <= UINT_MAX - offset_r_count ->
  safe_add_u32 (tx_handle v) offset_r_count = Some (u32 (u32 (tx_handle v) + offset_r_count)).
Proof.
  intros Hh. unfold safe_add_u32, is_u32_addition_safe, UINT_MAX, offset_r_count, IVC_ALIGN in *.
  rewrite (u32_id (2 ^ 32 - 1 - _)) by (pose proof (u32_range (tx_handle v)); width_lia).
  rewrite (u32_id 64) by width_lia. by rewrite (proj2 (Z.leb_le _ _)) by lia.
Qed.

Lemma tx_empty_does v : op_ok v OpTxEmpty -> does (run_op OpTxEmpty v) v.
Proof. intros Hh. simpl. unfold tegra_ivc_tx_empty. rewrite handle_add by done. ret. Qed.

(** A handle that ends in 0xffffffc0, which is as well aligned as the channel. *)
Lemma tx_empty_bug v : u32 (tx_handle v) = UINT_MAX - 63 -> tegra_ivc_tx_empty v = None.
Proof. intros E. unfold tegra_ivc_tx_empty, safe_add_u32. by rewrite E. Qed.

(** Every plain operation, whatever the peer wrote. *)
Lemma run_op_does v o : ep_ok v -> op_ok v o -> plain_op o -> does (run_op o v) v.
Proof.
  intros Hv Ho Hp. destruct o; try done.
  - by apply write_does.
  - by apply poke_does.
  - by apply get_next_does.
  - by apply write_advance_does.
  - by apply read_does.
  - by apply peek_does.
  - by apply get_next_does.
  - by apply read_advance_does.
  - by apply does_effect, ef_reset.
  - by apply does_effect, ef_notified.
  - by apply does_effect, ef_none.
  - by apply does_effect, ef_none.
  - by apply tx_empty_does.
Qed.

(** The positions taken from the counters, whatever these are, are positions of
    frames; the counters themselves and the peer's stores stay. *)
Lemma sync_op_ok v :
  ep_ok v -> exists v', run_op OpSync v = Some v' /\ ep_ok v' /\ own_stores v v'.
Proof.
  intros []. unfold run_op, tegra_ivc_channel_sync. rewrite (proj2 (Z.eqb_neq _ _)) by lia.
  eexists. split; [done|]. split; split; simpl; try done; apply Z.mod_pos_bound; lia.
Qed.

(** The counters for which [tegra_ivc_tx_frames_available] is BUG(): the peer's read
    counter above the write counter, or more than the number of frames below it. *)
Definition frames_bug (v : ivc) : Prop :=
  w_count (tx_channel v) < r_count (tx_channel v) \/
  nframes v < w_count (tx_channel v) - r_count (tx_channel v).

Lemma frames_available_op v :
  ep_ok v -> op_ok v OpTxFramesAvailable ->
  (run_op OpTxFramesAvailable v = Some v /\ ~ frames_bug v) \/
  (run_op OpTxFramesAvailable v = None /\ frames_bug v).
Proof.
  intros [Hn _ [_ _ Hw Hr] _ _ _ _ _] Hh. simpl in *. unfold tegra_ivc_tx_frames_available.
  rewrite handle_add by done. cbn [mbind option_bind].
  unfold safe_subtract_u32, is_u32_subtraction_safe, frames_bug.
  destruct (_ <=? w_count _) eqn:E1; zb; cbn [mbind option_bind]; [|right; split; [done|lia]].
  rewrite u32_id by (destruct Hw, Hr; width_lia).
  destruct (_ <=? nframes v) eqn:E2; zb; [left|right]; (split; [done|lia]).
Qed.

(** * A hostile peer *)

(** What happens to an endpoint: one of its own operations, or stores of the peer
    to the two channels, of which only the shape (the mapping) is fixed. *)
Inductive event := Local (o : op) | PeerStores (rx tx : ivc_channel_header).

Definition event_ok (v : ivc) (e : event) : Prop :=
  match e with
  | Local o => op_ok v o
  | PeerStores rx tx =>
      chan_shape (nframes v) (frame_size v) rx /\ chan_shape (nframes v) (frame_size v) tx
  end.

Definition run_event (v : ivc) (e : event) : option ivc :=
  match e with
  | Local o => run_op o v
  | PeerStores rx tx => Some (set_tx (set_rx v rx) tx)
  end.

Fixpoint run_events (v : ivc) (es : list event) : option ivc :=
  match es with
  | [] => Some v
  | e :: es => v' ← run_event v e; run_events v' es
  end.

Lemma event_ok_config v v' e : same_config v v' -> event_ok v e -> event_ok v' e.
Proof.
  intros (En & Ef & _ & _ & Eh). destruct e as [o|rx tx];
    [destruct o as [[|? [|]]| | | | | | | | | | | | | |]|]; simpl; rewrite ?En, ?Ef, ?Eh; auto.
Qed.

(** One event either leaves the endpoint well-formed, or is the one query that is
    BUG() on the counters it finds. *)
Lemma run_event_safe v e :
  ep_ok v -> event_ok v e ->
  (exists v', run_event v e = Some v' /\ ep_ok v' /\ same_config v v') \/
  (run_event v e = None /\ e = Local OpTxFramesAvailable /\ frames_bug v).
Proof.
  intros Hv He. destruct e as [o|rx tx]; simpl in *.
  - destruct (decide (o = OpTxFramesAvailable)) as [->|].
    { destruct (frames_available_op v Hv He) as [[E _]|[E H]]; [left|right; done].
      exists v. split_and!; [done|done|by unfold same_config]. }
    left. assert (H : exists v', run_op o v = Some v' /\ ep_ok v' /\ own_stores v v').
    { destruct (decide (o = OpSync)) as [->|]; [by apply sync_op_ok|].
      destruct (run_op_does v o Hv He) as (v' & -> & He'); [by destruct o|].
      destruct (effect_ok _ _ Hv He'). by exists v'. }
    destruct H as (v' & -> & Hv' & Ho). exists v'. split_and!; [done|done|apply Ho].
  - left. destruct He. eexists; split_and!; [done| |by unfold same_config]. destruct Hv; by split.
Qed.

(** C35.  What a peer can do to an endpoint by storing counters, states and frames
    into the shared memory between the endpoint's operations.  Any sequence of the
    exported operations on an initialised channel (read, write, peek, poke, advance,
    get-next, the queries, sync, reset, notified) either runs to its end, without
    BUG() and without an access outside the mapped frames, with the private
    positions below the number of frames; or stops at a call of
    [tegra_ivc_tx_frames_available] that finds the peer's read counter above the
    write counter or more than the number of frames below it, and then that call is
    BUG().  So a peer can stop the kernel through that query and through no other
    operation.  Assumed of the endpoint itself, not of the peer: valid arguments, and
    for the two queries of the transmit channel a DMA handle whose low 32 bits leave
    room for the header. *)
Theorem hostile_peer_safe es v :
  ep_ok v -> Forall (event_ok v) es ->
  match run_events v es with
  | Some v' => ep_ok v'
  | None => exists es1 es2 v1, es = es1 ++ Local OpTxFramesAvailable :: es2 /\
      run_events v es1 = Some v1 /\ ep_ok v1 /\ frames_bug v1
  end.
Proof.
  revert v. induction es as [|e es IH]; intros v Hv Hes; [done|].
  apply Forall_cons in Hes as [He Hes]. simpl.
  destruct (run_event_safe v e Hv He) as [(v' & Ee & Hv' & Hc)|(Ee & -> & Hb)].
  - rewrite Ee. cbn [mbind option_bind].
    assert (Hes' : Forall (event_ok v') es)
      by (eapply Forall_impl; [exact Hes|]; intros e'; by apply event_ok_config).
    specialize (IH v' Hv' Hes'). destruct (run_events v' es); [done|].
    destruct IH as (es1 & es2 & v1 & -> & E1 & H1). exists (e :: es1), es2, v1.
    split; [done|]. simpl. by rewrite Ee.
  - rewrite Ee. cbn [mbind option_bind]. by exists [], es, v.
Qed.

(** * Two endpoints *)

(** [epB]'s channels are [epA]'s with the roles exchanged. *)
Record sys := Sys { epA : ivc; epB : ivc }.

(** The peer's view after the endpoint's stores. *)
Definition linked_view (v peer : ivc) : ivc := set_tx (set_rx peer (tx_channel v)) (rx_channel v).

Definition swap (s : sys) : sys := Sys (epB s) (epA s).

(** Data operations run access by access.  [Writing] has found the channel
    established and not full, and stores to the frame; [Wrote] has moved the write
    counter and is about to look whether to notify; [Reading] and [HasRead] likewise. *)
Inductive pend := Writing | Wrote | Reading | HasRead.

(** The operations that are one step: those of the handshake, and the queries.  The
    data operations are made of the other stages ([data_op_stages]). *)
Definition whole_op (o : op) : bool :=
  match o with
  | OpReset | OpNotified | OpCanRead | OpCanWrite | OpTxEmpty | OpTxFramesAvailable => true
  | _ => false
  end.

Inductive stage : ivc -> option pend -> ivc -> option pend -> Prop :=
  | st_op o v v' : whole_op o = true -> op_ok v o -> run_op o v = Some v' -> stage v None v' None
  | st_check_write v : ivc_check_write v = 0 -> stage v None v (Some Writing)
  | st_store f v : Z.of_nat (length f) = frame_size v ->
      stage v (Some Writing) (set_tx v (set_frame (tx_channel v) (w_pos v) f)) (Some Writing)
  | st_advance_tx v : stage v (Some Writing) (ivc_advance_tx v) (Some Wrote)
  | st_notify_tx v :
      stage v (Some Wrote) (notify_if (ivc_channel_avail_count v (tx_channel v) =? 1) v) None
  | st_check_read v : ivc_check_read v = 0 -> stage v None v (Some Reading)
  | st_advance_rx v : stage v (Some Reading) (ivc_advance_rx v) (Some HasRead)
  | st_notify_rx v :
      stage v (Some HasRead)
        (notify_if (ivc_channel_avail_count v (rx_channel v) =? u32 (nframes v - 1)) v) None
  | st_return p v : stage v (Some p) v None.

(** Every data operation is a sequence of such stages: a successful check and the
    accesses after it, an error found later ([st_return]), or nothing. *)
Definition stages (x y : ivc * option pend) : Prop := stage (fst x) (snd x) (fst y) (snd y).

(** The two endpoints, each with the operation it is in. *)
Record running := Running { both : sys; pendA : option pend; pendB : option pend }.

(** A stage of either endpoint. *)
Inductive sys_step : running -> running -> Prop :=
  | step_A s p q a' p' : stage (epA s) p a' p' ->
      sys_step (Running s p q) (Running (Sys a' (linked_view a' (epB s))) p' q)
  | step_B s p q b' q' : stage (epB s) q b' q' ->
      sys_step (Running s p q) (Running (Sys (linked_view b' (epA s)) b') p q').

Definition tx_state (v : ivc) : Z := state (tx_channel v).

(** Own counters and positions are zero. *)
Definition fresh (v : ivc) : Prop :=
  w_count (tx_channel v) = 0 /\ r_count (rx_channel v) = 0 /\ w_pos v = 0 /\ r_pos v = 0.

(** One direction: [w] writes to [r]. *)
Definition direction (w r : ivc) : Prop :=
  exists q, chan_repr (nframes w) (frame_size w) (tx_channel w) (w_pos w) (r_pos r) q.

Record linked (s : sys) : Prop := {
  lk_ab : rx_channel (epB s) = tx_channel (epA s);
  lk_ba : rx_channel (epA s) = tx_channel (epB s);
  lk_n : nframes (epB s) = nframes (epA s);
  lk_f : frame_size (epB s) = frame_size (epA s);
  lk_A : ep_ok (epA s);
  lk_B : ep_ok (epB s) }.

(** The handshake's invariant. *)
Record handshake (s : sys) : Prop := {
  hs_linked : linked s;
  hs_ackA : tx_state (epA s) = ivc_state_ack -> fresh (epA s);
  hs_ackB : tx_state (epB s) = ivc_state_ack -> fresh (epB s);
  hs_open : tx_state (epA s) <> ivc_state_sync -> tx_state (epB s) <> ivc_state_sync ->
    direction (epA s) (epB s) /\ direction (epB s) (epA s) }.

Lemma swap_linked s : linked s -> linked (swap s).
Proof. intros []. split; simpl; congruence. Qed.

Lemma swap_handshake s : handshake s -> handshake (swap s).
Proof. intros [? ? ? H]. split; auto using swap_linked. intros ? ?. destruct H; auto. Qed.

Lemma empty_chan n fsz ch :
  0 < n < 2 ^ 32 -> Z.of_nat (length (frames ch)) = n ->
  Forall (fun f => Z.of_nat (length f) = fsz) (frames ch) ->
  w_count ch = 0 -> r_count ch = 0 -> chan_repr n fsz ch 0 0 [].
Proof.
  intros Hn Hl Hf Hw Hr. split; rewrite ?Hw, ?Hr; try done; try (simpl; lia).
  unfold ring_pos. rewrite decide_True by (simpl; lia). done.
Qed.

(** Both endpoints fresh: both channels are empty and consistent. *)
Lemma fresh_direction s : linked s -> fresh (epA s) -> fresh (epB s) -> direction (epA s) (epB s).
Proof.
  intros [] (HwA & _ & HpA & _) (_ & HrB & _ & HqB). exists [].
  rewrite lk_ab0 in HrB. destruct lk_A0, eo_tx0. rewrite HpA, HqB. by apply empty_chan.
Qed.

Lemma linked_view_ok a' s :
  linked s -> ep_ok a' -> own_stores (epA s) a' -> linked (Sys a' (linked_view a' (epB s))).
Proof.
  intros [] Ha [(En & Ef & _) _ _ _ _]. split; simpl; try done; try congruence.
  destruct lk_B0. destruct Ha. split; simpl; try done; congruence.
Qed.

Lemma linked_view_fresh a' s :
  linked s -> own_stores (epA s) a' -> fresh (epB s) -> fresh (linked_view a' (epB s)).
Proof.
  intros [] [_ Hw _ _ Hr] (HwB & HrB & HpB & HqB). split_and!; simpl; try done.
  - rewrite Hw, lk_ba0. done.
  - rewrite Hr, <- lk_ab0. done.
Qed.

(** Data operations keep both directions; [pp] and [po] are the peer's positions. *)
Lemma push_fields v f :
  let v1 := ivc_advance_tx (set_tx v (set_frame (tx_channel v) (w_pos v) f)) in
  tx_channel v1 = set_w_count (set_frame (tx_channel v) (w_pos v) f) (u32 (w_count (tx_channel v) + 1)) /\
  w_pos v1 = (if w_pos v =? u32 (nframes v - 1) then 0 else u32 (w_pos v + 1)) /\
  rx_channel v1 = rx_channel v /\ r_pos v1 = r_pos v /\ same_config v v1.
Proof. unfold ivc_advance_tx, same_config. simpl. destruct (_ =? _); simpl; split_and!; done. Qed.

Lemma pop_fields v :
  let v1 := ivc_advance_rx v in
  rx_channel v1 = set_r_count (rx_channel v) (u32 (r_count (rx_channel v) + 1)) /\
  r_pos v1 = (if r_pos v =? u32 (nframes v - 1) then 0 else u32 (r_pos v + 1)) /\
  tx_channel v1 = tx_channel v /\ w_pos v1 = w_pos v /\ same_config v v1.
Proof. unfold ivc_advance_rx, same_config. simpl. destruct (_ =? _); simpl; split_and!; done. Qed.

Lemma push_direction v f rp q :
  ep_ok v -> chan_repr (nframes v) (frame_size v) (tx_channel v) (w_pos v) rp q ->
  ivc_channel_full v (tx_channel v) = false -> Z.of_nat (length f) = frame_size v ->
  let v1 := ivc_advance_tx (set_tx v (set_frame (tx_channel v) (w_pos v) f)) in
  chan_repr (nframes v) (frame_size v) (tx_channel v1) (w_pos v1) rp (q ++ [f]).
Proof.
  intros Hv Hc Hfull Hf v1. subst v1. destruct (push_fields v f) as (-> & -> & _).
  rewrite (chan_full _ _ _ _ _ _ Hc) in Hfull by done. zb.
  by eapply chan_push.
Qed.

Lemma pop_direction v wp q :
  chan_repr (nframes v) (frame_size v) (rx_channel v) wp (r_pos v) q ->
  ivc_channel_empty v (rx_channel v) = false ->
  let v1 := ivc_advance_rx v in
  exists q', chan_repr (nframes v) (frame_size v) (rx_channel v1) wp (r_pos v1) q'.
Proof.
  intros Hc He v1. subst v1. destruct (pop_fields v) as (-> & -> & _).
  rewrite (chan_empty _ _ _ _ _ _ Hc) in He by done.
  destruct q as [|f q']; [done|]. exists q'. by eapply chan_pop.
Qed.

(** The endpoints of a linked system agree on the channel between them. *)
Lemma direction_rx s : linked s -> direction (epB s) (epA s) <->
  exists q, chan_repr (nframes (epA s)) (frame_size (epA s)) (rx_channel (epA s)) (w_pos (epB s)) (r_pos (epA s)) q.
Proof. intros []. unfold direction. by rewrite lk_ba0, lk_n0, lk_f0. Qed.

Lemma data_effect_open s a' :
  linked s -> ep_ok a' -> own_stores (epA s) a' ->
  tx_state a' = tx_state (epA s) ->
  (forall rp q, chan_repr (nframes (epA s)) (frame_size (epA s)) (tx_channel (epA s)) (w_pos (epA s)) rp q ->
     exists q', chan_repr (nframes (epA s)) (frame_size (epA s)) (tx_channel a') (w_pos a') rp q') ->
  (forall wp q, chan_repr (nframes (epA s)) (frame_size (epA s)) (rx_channel (epA s)) wp (r_pos (epA s)) q ->
     exists q', chan_repr (nframes (epA s)) (frame_size (epA s)) (rx_channel a') wp (r_pos a') q') ->
  established (epA s) = true -> handshake s ->
  handshake (Sys a' (linked_view a' (epB s))).
Proof.
  intros Hl Ha Ho Hst Ht Hr Hest Hs. pose proof (linked_view_ok _ _ Hl Ha Ho) as Hl'.
  unfold established in Hest. zb.
  assert (Estb : tx_state (linked_view a' (epB s)) = tx_state (epB s)).
  { unfold tx_state. simpl. rewrite (os_rx_st _ _ Ho). by rewrite (lk_ba _ Hl). }
  destruct (os_config _ _ Ho) as (En & Ef & _). split; simpl; [done| | |].
  - rewrite Hst. unfold tx_state. by rewrite Hest.
  - rewrite Estb. intros HB. apply linked_view_fresh; try done. by apply (hs_ackB _ Hs).
  - rewrite Hst, Estb. intros HA HB. destruct (hs_open _ Hs HA HB) as [[q1 H1] H2].
    apply (direction_rx _ Hl) in H2 as [q2 H2]. split.
    + unfold direction. rewrite En, Ef. simpl. by eapply Ht.
    + apply (direction_rx _ Hl'). simpl. rewrite En, Ef. by eapply Hr.
Qed.

Lemma scribble_direction v f rp q :
  chan_repr (nframes v) (frame_size v) (tx_channel v) (w_pos v) rp q ->
  handle_ok v (tx_handle v) -> ivc_channel_full v (tx_channel v) = false ->
  Z.of_nat (length f) = frame_size v ->
  chan_repr (nframes v) (frame_size v) (set_frame (tx_channel v) (w_pos v) f) (w_pos v) rp q.
Proof.
  intros Hc Hh Hfull Hf. rewrite (chan_full _ _ _ _ _ _ Hc) in Hfull by done. zb.
  by apply (scribble v rp q f (conj Hc Hh)).
Qed.

(** [tegra_ivc_channel_notified] by cases: clear and acknowledge, clear and
    establish, establish, or nothing. *)
Lemma notified_cases v :
  let v' := snd (tegra_ivc_channel_notified v) in
  (state (rx_channel v) = ivc_state_sync /\ v' = enter_state (clear_counters v) ivc_state_ack) \/
  (state (rx_channel v) = ivc_state_ack /\ tx_state v = ivc_state_sync /\
     v' = enter_state (clear_counters v) ivc_state_established) \/
  (state (rx_channel v) <> ivc_state_sync /\ tx_state v = ivc_state_ack /\
     v' = enter_state v ivc_state_established) \/
  (state (rx_channel v) <> ivc_state_sync /\ tx_state v <> ivc_state_ack /\ v' = v).
Proof.
  unfold tegra_ivc_channel_notified, channel_notified_body, tx_state. simpl. repeat case_if; try tauto; lia.
Qed.

Lemma fresh_clear v s : fresh (enter_state (clear_counters v) s).
Proof. by unfold fresh. Qed.

Lemma notified_handshake s :
  handshake s -> let a' := snd (tegra_ivc_channel_notified (epA s)) in
  handshake (Sys a' (linked_view a' (epB s))).
Proof.
  intros Hs a'. pose proof (hs_linked _ Hs) as Hl.
  destruct (effect_ok _ _ (lk_A _ Hl) (ef_notified (epA s))) as [Ha Ho].
  fold a' in Ha, Ho. pose proof (linked_view_ok _ _ Hl Ha Ho) as Hl'.
  assert (Estb : tx_state (linked_view a' (epB s)) = tx_state (epB s)).
  { unfold tx_state. simpl. rewrite (os_rx_st _ _ Ho). by rewrite (lk_ba _ Hl). }
  assert (Ep : state (rx_channel (epA s)) = tx_state (epB s)) by (unfold tx_state; by rewrite (lk_ba _ Hl)).
  pose proof (linked_view_fresh _ _ Hl Ho) as HfB.
  assert (Hboth : fresh a' -> fresh (epB s) ->
    direction a' (linked_view a' (epB s)) /\ direction (linked_view a' (epB s)) a').
  { intros H1 H2%HfB. split; [by apply (fresh_direction _ Hl')|].
    by apply (fresh_direction _ (swap_linked _ Hl')). }
  pose proof (hs_ackB _ Hs) as HB.
  destruct (notified_cases (epA s)) as [(E1 & E)|[(E1 & E2 & E)|[(E1 & E2 & E)|(E1 & E2 & E)]]];
    fold a' in E; rewrite Ep in E1;
    (split; simpl; rewrite ?Estb; [exact Hl'| |by auto|]).
  - intros _. rewrite E. apply fresh_clear.
  - by intros _ [].
  - by rewrite E.
  - intros _ _. apply Hboth; [rewrite E; apply fresh_clear|auto].
  - by rewrite E.
  - (* ACK to ESTABLISHED: nothing of the channels changes. *)
    intros _ HnB. destruct (hs_open _ Hs) as [[q1 H1] H2]; [by rewrite E2|done|].
    apply (direction_rx _ Hl) in H2 as [q2 H2]. split.
    + exists q1. rewrite E. simpl. destruct H1. by split.
    + apply (direction_rx _ Hl'). exists q2. rewrite E. simpl. done.
  - by rewrite E.
  - rewrite E. intros HA' HnB. destruct (hs_open _ Hs) as [[q1 H1] H2]; [done|done|].
    apply (direction_rx _ Hl) in H2 as [q2 H2]. split; [by exists q1|].
    rewrite E in Hl'. apply (direction_rx _ Hl'). by exists q2.
Qed.

Lemma effect_handshake s a' :
  handshake s -> effect (epA s) a' -> handshake (Sys a' (linked_view a' (epB s))).
Proof.
  intros Hs He. pose proof (hs_linked _ Hs) as Hl. pose proof (lk_A _ Hl) as Hv.
  destruct (effect_ok _ _ Hv He) as [Ha Ho].
  destruct He as [|f Hest Hfull Hf|f b Hest Hfull Hf|b Hest Hne|b Hest| |].
  - assert (E : Sys (epA s) (linked_view (epA s) (epB s)) = s); [|by rewrite E].
    destruct s as [a b], Hl as [E1 E2 _ _ _ _]. unfold linked_view. simpl in *.
    rewrite <- E1, E2. by destruct b.
  - apply data_effect_open; try done; simpl; eauto.
    intros rp q Hc. exists q. apply scribble_direction; try done. apply Hv.
  - destruct (push_fields (epA s) f) as (Et & Ew & Er & Erp & _).
    destruct (notify_if_fields b (ivc_advance_tx (set_tx (epA s) (set_frame (tx_channel (epA s)) (w_pos (epA s)) f))))
      as (Nr & Nt & Nw & Nrp & _).
    apply data_effect_open; try done.
    + unfold tx_state. by rewrite Nt, Et.
    + intros rp q Hc. rewrite Nt, Nw. eexists. by apply push_direction.
    + intros wp q Hc. rewrite Nr, Nrp, Er, Erp. by exists q.
  - destruct (pop_fields (epA s)) as (Er & Erp & Et & Ew & _).
    destruct (notify_if_fields b (ivc_advance_rx (epA s))) as (Nr & Nt & Nw & Nrp & _).
    apply data_effect_open; try done.
    + unfold tx_state. by rewrite Nt, Et.
    + intros rp q Hc. rewrite Nt, Nw, Et, Ew. by exists q.
    + intros wp q Hc. rewrite Nr, Nrp. by eapply pop_direction.
  - destruct (notify_if_fields b (epA s)) as (Nr & Nt & Nw & Nrp & _).
    apply data_effect_open; try done.
    + unfold tx_state. by rewrite Nt.
    + intros rp q Hc. rewrite Nt, Nw. by exists q.
    + intros wp q Hc. rewrite Nr, Nrp. by exists q.
  - pose proof (linked_view_ok _ _ Hl Ha Ho) as Hl'. split; [done|done| |done].
    intros HB. apply linked_view_fresh; try done. apply (hs_ackB _ Hs).
    unfold tx_state in *. simpl in HB. by rewrite (lk_ba _ Hl) in HB.
  - by apply notified_handshake.
Qed.

Ltac by_stage c := eapply (rtc_l stages _ (_, _) _); [red; simpl; eapply c; done|].

(** A frame stored and then abandoned, and one stored and sent. *)
Lemma stages_store v f :
  ivc_check_write v = 0 -> Z.of_nat (length f) = frame_size v ->
  let v1 := set_tx v (set_frame (tx_channel v) (w_pos v) f) in
  let v2 := ivc_advance_tx v1 in
  rtc stages (v, None) (v1, None) /\
  rtc stages (v, None) (notify_if (ivc_channel_avail_count v2 (tx_channel v2) =? 1) v2, None).
Proof.
  intros Hc Hf v1 v2. split; by_stage st_check_write; by_stage (st_store f).
  - by_stage st_return. apply rtc_refl.
  - by_stage st_advance_tx. by_stage st_notify_tx. apply rtc_refl.
Qed.

Lemma stages_pop v :
  ivc_check_read v = 0 ->
  let v1 := ivc_advance_rx v in
  rtc stages (v, None)
    (notify_if (ivc_channel_avail_count v1 (rx_channel v1) =? u32 (nframes v1 - 1)) v1, None).
Proof.
  intros Hc v1. by_stage st_check_read. by_stage st_advance_rx. by_stage st_notify_rx. apply rtc_refl.
Qed.

Ltac stay := by simplify_eq/=; apply rtc_refl.

Lemma write_stages v src v' :
  ep_ok v -> op_ok v (OpWrite src) -> run_op (OpWrite src) v = Some v' ->
  rtc stages (v, None) (v', None).
Proof.
  intros Hv Ho E. destruct (pointer_ok v Hv) as [_ Ep]. simpl in E. unfold ivc_write_frame in E.
  cbv zeta in E. set (data := match src with KernelData d | UserData d _ => d end) in *.
  case_if; [stay|]. case_if; [stay|].
  match goal with H : ivc_check_write v = 0 |- _ => rename H into Hc end.
  rewrite Ep in E. cbn [mbind option_bind] in E.
  assert (Hpad : Z.of_nat (length (pad_frame v data)) = frame_size v) by (apply length_pad_frame; lia).
  destruct (store_frame_ok v (pad_frame v data) Hv Hpad) as [Hv0 _].
  destruct (sync_ok _ 0 Hv0) as [_ Hsync]; [simpl; destruct Hv; lia|]. simpl in Hsync.
  destruct src as [d|d [g|]]; simpl in *; rewrite ?Hsync in E; simplify_eq/=.
  - by apply (stages_store v (pad_frame v d)).
  - by apply (stages_store v g).
  - by apply (stages_store v (pad_frame v d)).
Qed.

Lemma poke_stages v data off v' :
  ep_ok v -> op_ok v (OpWritePoke data off) -> run_op (OpWritePoke data off) v = Some v' ->
  rtc stages (v, None) (v', None).
Proof.
  intros Hv [Ho Hd] E. destruct (pointer_ok v Hv) as [_ Ep]. simpl in E.
  unfold tegra_ivc_write_poke in E. do 4 (case_if; [stay|]). rewrite Ep in E.
  destruct (frame_at_ok _ _ _ _ (eo_tx _ Hv) (eo_wp _ Hv)) as (f & Ef & Hf).
  cbn [mbind option_bind] in E. rewrite Ef in E. simplify_eq/=. apply stages_store; [done|].
  unfold is_u64_addition_safe, ULLONG_MAX in *. rewrite length_splice; [done|]. width_lia.
Qed.

Lemma write_advance_stages v v' :
  ep_ok v -> run_op OpWriteAdvance v = Some v' -> rtc stages (v, None) (v', None).
Proof.
  intros Hv E. simpl in E. unfold tegra_ivc_write_advance in E. case_if; [stay|].
  destruct (sync_ok v 0 Hv) as [_ Es]; [destruct Hv; lia|]. rewrite Es in E.
  cbn [mbind option_bind] in E. by_stage st_check_write. by_stage st_advance_tx. case_if; simplify_eq/=.
  - by_stage st_return. apply rtc_refl.
  - by_stage st_notify_tx. apply rtc_refl.
Qed.

Lemma read_stages v dst n v' :
  ep_ok v -> run_op (OpRead dst n) v = Some v' -> rtc stages (v, None) (v', None).
Proof.
  intros Hv E. destruct (pointer_ok v Hv) as [Ep _]. simpl in E. unfold ivc_read_frame in E.
  do 2 (case_if; [stay|]).
  destruct (sync_ok v 0 Hv) as [Es _]; [destruct Hv; lia|]. rewrite Es in E.
  cbn [mbind option_bind] in E. rewrite Ep in E. cbn [mbind option_bind] in E.
  destruct (frame_at_ok _ _ _ _ (eo_rx _ Hv) (eo_rp _ Hv)) as (f & Ef & _). rewrite Ef in E.
  destruct dst as [|[|]]; simplify_eq/=; [by apply stages_pop| by apply stages_pop|apply rtc_refl].
Qed.

(** Run without the peer in between, a data operation is a sequence of stages. *)
Lemma data_op_stages v o v' :
  ep_ok v -> op_ok v o -> o <> OpSync -> run_op o v = Some v' -> rtc stages (v, None) (v', None).
Proof.
  intros Hv Ho Hno E. destruct (whole_op o) eqn:Hw.
  { apply rtc_once. red. simpl. by eapply st_op. }
  destruct o; try done.
  - by eapply write_stages.
  - by eapply poke_stages.
  - simpl in E. destruct (tegra_ivc_write_get_next_frame v); stay.
  - by apply write_advance_stages.
  - by eapply read_stages.
  - simpl in E. destruct (tegra_ivc_read_peek v _ _); stay.
  - simpl in E. destruct (tegra_ivc_read_get_next_frame v); stay.
  - simpl in E. unfold tegra_ivc_read_advance in E. do 4 (case_if; [stay|]). simplify_eq/=.
    by apply stages_pop.
Qed.

(** What an operation under way relies on, whatever the peer does meanwhile. *)
Definition pend_ok (v : ivc) (p : option pend) : Prop :=
  match p with
  | None => True
  | Some Writing => established v = true /\ ivc_channel_full v (tx_channel v) = false
  | Some Reading => established v = true /\ ivc_channel_empty v (rx_channel v) = false
  | Some _ => established v = true
  end.

Lemma op_effect v o v' :
  ep_ok v -> whole_op o = true -> op_ok v o -> run_op o v = Some v' -> effect v v'.
Proof.
  intros Hv Hw Ho E. destruct (decide (o = OpTxFramesAvailable)) as [->|].
  - destruct (frames_available_op v Hv Ho) as [[E' _]|[E' _]]; rewrite E' in E; simplify_eq. constructor.
  - destruct (run_op_does _ _ Hv Ho) as (x & Ex & He); [by destruct o|].
    rewrite Ex in E. by simplify_eq.
Qed.

Lemma advance_tx_state v : state (tx_channel (ivc_advance_tx v)) = state (tx_channel v).
Proof. unfold ivc_advance_tx. by destruct (_ =? _). Qed.

Lemma established_notify b v : established (notify_if b v) = established v.
Proof. by destruct b. Qed.

Lemma stage_effect v p v' p' :
  ep_ok v -> pend_ok v p -> stage v p v' p' -> effect v v' /\ pend_ok v' p'.
Proof.
  intros Hv Hp Hst. destruct Hst as [o v v' Hw Ho E|v E|f v Hf|v|v|v E|v|v|p v]; simpl in *.
  - split; [by eapply op_effect|done].
  - apply check_write_0 in E. auto with ivc.
  - destruct Hp. auto with ivc.
  - destruct Hp as [He Hf]. split; [by apply (advance_effect v false)|].
    unfold established in *. by rewrite advance_tx_state.
  - auto with ivc.
  - apply check_read_0 in E. auto with ivc.
  - destruct Hp as [He Hf]. split; [by apply (ef_pop v false)|].
    unfold established in *. destruct (pop_fields v) as (_ & _ & -> & _). done.
  - auto with ivc.
  - auto with ivc.
Qed.

(** While A is established, a notification of B clears nothing. *)
Lemma notified_keeps s :
  linked s -> established (epA s) = true ->
  let b' := snd (tegra_ivc_channel_notified (epB s)) in
  rx_channel b' = rx_channel (epB s) /\ w_count (tx_channel b') = w_count (tx_channel (epB s)).
Proof.
  intros [Eab _ _ _ _ _] Hest b'. unfold established in Hest. zb. rewrite <- Eab in Hest.
  destruct (notified_cases (epB s)) as [(E1 & _)|[(E1 & _)|[(_ & _ & E)|(_ & _ & E)]]];
    fold b' in E || (rewrite Hest in E1; done); by rewrite E.
Qed.

(** Counting modulo 2^32: one more read or written. *)
Lemma u32_read_one w r :
  is_u32 w -> is_u32 r -> w <> r -> u32 (w - u32 (r + 1)) = u32 (w - r) - 1.
Proof. intros. width_lia. Qed.

Lemma u32_written_one w r :
  is_u32 w -> is_u32 r -> u32 (w - r) < 2 ^ 32 - 1 -> u32 (u32 (w + 1) - r) = u32 (w - r) + 1.
Proof. intros. width_lia. Qed.

(** The peer moves only its own counters, towards more room to write... *)
Lemma peer_leaves_room s b' :
  linked s -> effect (epB s) b' -> established (epA s) = true ->
  ivc_channel_full (epA s) (tx_channel (epA s)) = false ->
  ivc_channel_full (epA s) (rx_channel b') = false.
Proof.
  intros Hl He Hest Hf. pose proof (lk_ab _ Hl) as E. rewrite <- E in Hf.
  destruct He as [|f _ _ _|f b _ _ _|b _ Hne|b _| |]; try done.
  - destruct (notify_if_fields b (ivc_advance_tx (set_tx (epB s) (set_frame (tx_channel (epB s)) (w_pos (epB s)) f))))
      as (-> & _). by destruct (push_fields (epB s) f) as (_ & _ & -> & _).
  - destruct (notify_if_fields b (ivc_advance_rx (epB s))) as (-> & _).
    destruct (pop_fields (epB s)) as (-> & _). destruct (eo_rx _ (lk_B _ Hl)) as [_ _ Hw Hr].
    unfold ivc_channel_full, ivc_channel_empty in *. simpl.
    rewrite u32_read_one by (done || (intros Ewr; rewrite Ewr, Z.eqb_refl in Hne; by case_if)).
    zb. apply Z.leb_gt. lia.
  - by destruct (notify_if_fields b (epB s)) as (-> & _).
  - destruct (notified_keeps _ Hl Hest) as [-> _]. done.
Qed.

(** ... and to more to read. *)
Lemma peer_leaves_data s b' :
  linked s -> effect (epB s) b' -> established (epA s) = true ->
  ivc_channel_empty (epA s) (rx_channel (epA s)) = false ->
  ivc_channel_empty (epA s) (tx_channel b') = false.
Proof.
  intros Hl He Hest Hf. pose proof (lk_ba _ Hl) as E. rewrite E in Hf.
  destruct He as [|f _ _ _|f b _ Hfull _|b _ _|b _| |]; try done.
  - destruct (notify_if_fields b (ivc_advance_tx (set_tx (epB s) (set_frame (tx_channel (epB s)) (w_pos (epB s)) f))))
      as (_ & -> & _). destruct (push_fields (epB s) f) as (-> & _).
    destruct (eo_tx _ (lk_B _ Hl)) as [_ _ Hw Hr]. pose proof (eo_n _ (lk_B _ Hl)).
    unfold ivc_channel_full, ivc_channel_empty in *. simpl. rewrite (lk_n _ Hl) in *. zb.
    rewrite u32_written_one by (done || lia).
    rewrite (proj2 (Z.ltb_ge _ _)) by lia. apply Z.eqb_neq. intros Ewr.
    assert (u32 (u32 (w_count (tx_channel (epB s)) + 1) - r_count (tx_channel (epB s))) = 0)
      by (by rewrite Ewr, Z.sub_diag).
    rewrite u32_written_one in * by (done || lia). pose proof (u32_range (w_count (tx_channel (epB s)) - r_count (tx_channel (epB s)))).
    width_lia.
  - destruct (notify_if_fields b (ivc_advance_rx (epB s))) as (_ & -> & _).
    by destruct (pop_fields (epB s)) as (_ & _ & -> & _).
  - by destruct (notify_if_fields b (epB s)) as (_ & -> & _).
  - destruct (notified_keeps _ Hl Hest) as [_ Ew].
    pose proof (os_tx_r _ _ (proj2 (effect_ok _ _ (lk_B _ Hl) (ef_notified (epB s))))) as Er.
    unfold ivc_channel_empty in *. by rewrite Ew, Er.
Qed.

Lemma peer_keeps_pending s p b' :
  linked s -> pend_ok (epA s) p -> effect (epB s) b' -> pend_ok (linked_view b' (epA s)) p.
Proof.
  intros Hl Hp He. destruct (effect_ok _ _ (lk_B _ Hl) He) as [_ Ho].
  assert (Ee : established (linked_view b' (epA s)) = established (epA s)).
  { unfold established. simpl. by rewrite (os_rx_st _ _ Ho), (lk_ab _ Hl). }
  destruct p as [[]|]; simpl in *; rewrite ?Ee; [|done| |done|done]; destruct Hp as [Hest Hc].
  - split; [done|]. by apply (peer_leaves_room s).
  - split; [done|]. by apply (peer_leaves_data s).
Qed.

Lemma stage_A s p q a' p' :
  handshake s -> pend_ok (epA s) p -> pend_ok (epB s) q -> stage (epA s) p a' p' ->
  handshake (Sys a' (linked_view a' (epB s))) /\ pend_ok a' p' /\ pend_ok (linked_view a' (epB s)) q.
Proof.
  intros Hs Hp Hq Hst. destruct (stage_effect _ _ _ _ (lk_A _ (hs_linked _ Hs)) Hp Hst) as [He Hp'].
  split_and!; [by apply effect_handshake|done|].
  by apply (peer_keeps_pending (swap s)); [apply swap_linked, Hs| |].
Qed.

Definition running_ok (r : running) : Prop :=
  handshake (both r) /\ pend_ok (epA (both r)) (pendA r) /\ pend_ok (epB (both r)) (pendB r).

Lemma sys_step_ok r r' : running_ok r -> sys_step r r' -> running_ok r'.
Proof.
  intros (Hs & Hp & Hq) Hst. destruct Hst as [s p q a' p' H|s p q b' q' H]; simpl in *.
  - by eapply stage_A.
  - destruct (stage_A (swap s) _ p _ _ (swap_handshake _ Hs) Hq Hp H) as (H1 & H2 & H3).
    split_and!; [|done|done]. by apply (swap_handshake (Sys b' (linked_view b' (epA s)))).
Qed.

(** C33.  The handshake makes the channels consistent before they are used.  From
    any memory contents with both endpoints in the SYNC state, with the two endpoints'
    operations in any order, and their data operations interleaved access by access:
    whenever neither of them is in the SYNC state both channels are consistent FIFOs
    of frames: counters, positions and contents of writer and reader agree (so
    [write_frame_correct] and [read_frame_correct] apply), and an endpoint still in
    ACK has nothing sent or received.  [tegra_ivc_channel_notified] is one step: the
    peer does not act between its look at the peer's state and its stores, and
    [IvcRace.stale_state_breaks_channel] shows that the statement is false without
    this.  [tegra_ivc_channel_sync] is not called: [IvcRace.sync_loses_position] shows
    it may move a position of a consistent channel. *)
Theorem handshake_safe s0 r :
  linked s0 -> tx_state (epA s0) = ivc_state_sync -> tx_state (epB s0) = ivc_state_sync ->
  rtc sys_step (Running s0 None None) r ->
  let s := both r in
  (tx_state (epA s) <> ivc_state_sync -> tx_state (epB s) <> ivc_state_sync ->
     direction (epA s) (epB s) /\ direction (epB s) (epA s)) /\
  (tx_state (epA s) = ivc_state_ack -> fresh (epA s)) /\
  (tx_state (epB s) = ivc_state_ack -> fresh (epB s)).
Proof.
  intros Hl HA HB Hr. assert (H0 : running_ok (Running s0 None None)).
  { split; [split; simpl; rewrite ?HA, ?HB; done|done]. }
  destruct (rtc_preserves _ running_ok _ _ Hr H0 sys_step_ok) as [[] _]; auto.
Qed.

(** * Convergence *)

(** The calls that complete a handshake A started by a reset, and their outcome. *)
Definition converges (s : sys) : Prop :=
  let a1 := tegra_ivc_channel_reset (epA s) in
  let '(rb1, b1) := tegra_ivc_channel_notified (linked_view a1 (epB s)) in
  let '(ra2, a2) := tegra_ivc_channel_notified (linked_view b1 a1) in
  let '(rb2, b2) := tegra_ivc_channel_notified (linked_view a2 b1) in
  let a3 := linked_view b2 a2 in
  rb1 = - EAGAIN /\ ra2 = 0 /\ rb2 = 0 /\
  established a3 = true /\ established b2 = true /\ fresh a3 /\ fresh b2 /\
  chan_repr (nframes a3) (frame_size a3) (tx_channel a3) (w_pos a3) (r_pos b2) [] /\
  chan_repr (nframes b2) (frame_size b2) (tx_channel b2) (w_pos b2) (r_pos a3) [] /\
  notifies a3 = (notifies (epA s) + 2)%nat /\ notifies b2 = (notifies (epB s) + 2)%nat.

(** C40.  The handshake completes.  After endpoint A resets the channel, and with B
    in any of the three states, one call of [tegra_ivc_channel_notified] by B, one
    by A and one by B make both endpoints established: A's call and B's second
    call return 0, B's first one returns -EAGAIN, all counters and positions are
    zero, both channels are empty, and each call that changed a state notified the
    peer once. *)
Theorem reset_converges s : linked s -> 0 <= tx_state (epB s) <= 2 -> converges s.
Proof.
  intros [Hab Hba Hn Hf HA HB] Hst.
  unfold converges, tegra_ivc_channel_notified, channel_notified_body. simpl.
  split_and!; try done; try lia.
  - destruct HA as [? ? [] _ _ _ _ _]. by apply empty_chan.
  - rewrite Hba. destruct HB as [? ? [] _ _ _ _ _]. by apply empty_chan.
Qed.
