(* ===== verification/IvcInit.v ===== *)
(** Setting up an IVC endpoint: which parameters [tegra_ivc_init] accepts, and that
    an accepted endpoint is one the safety theorems of [IvcSystem] apply to. *)
From S2P Require Export IvcSystem.

(** The two data areas, as [check_ivc_params] sees them. *)
Definition params_ok (base1 base2 n fsz : Z) : Prop :=
  n * fsz < 2 ^ 32 /\ (64 | base1) /\ (64 | base2) /\ (64 | fsz) /\
  (base1 + n * fsz <= base2 \/ (base2 <= base1 /\ base2 + n * fsz <= base1)).

Lemma aligned_land x : (Z.land x (IVC_ALIGN - 1) =? 0) = true <-> (64 | x).
Proof.
  unfold IVC_ALIGN. change (64 - 1) with (Z.ones 6).
  rewrite Z.land_ones, Z.eqb_eq, Z.mod_divide by lia. done.
Qed.
Lemma unaligned_land x : (Z.land x (IVC_ALIGN - 1) =? 0) = false <-> ~ (64 | x).
Proof. rewrite <- aligned_land. by destruct (_ =? 0). Qed.

#[export] Instance divide_dec (a b : Z) : Decision (a | b) := Znumtheory.Zdivide_dec a b.
#[export] Instance params_ok_dec b1 b2 n fsz : Decision (params_ok b1 b2 n fsz).
Proof. unfold params_ok. apply _. Qed.

Lemma check_ivc_params_spec b1 b2 n fsz :
  is_u32 n -> is_u32 fsz -> 0 <= b1 -> 0 <= b2 -> b1 + n * fsz < 2 ^ 64 -> b2 + n * fsz < 2 ^ 64 ->
  check_ivc_params b1 b2 n fsz = if decide (params_ok b1 b2 n fsz) then 0 else - EINVAL.
Proof.
  intros Hn Hf H1 H2 H3 H4. unfold check_ivc_params.
  assert (Hp : 0 <= n * fsz) by (unfold is_u32 in *; nia).
  rewrite (u64_id (n * fsz)) by width_lia. unfold params_ok.
  destruct (0x100000000 <=? n * fsz) eqn:E0; zb.
  { rewrite decide_False; [done|]. width_lia. }
  rewrite (Z.mul_comm fsz n), (u32_id (n * fsz)), !u64_id by width_lia.
  destruct (negb (Z.land b1 _ =? 0)) eqn:Eb1; [|destruct (negb (Z.land b2 _ =? 0)) eqn:Eb2;
    [|destruct (negb (Z.land fsz _ =? 0)) eqn:Ef]];
    rewrite ?negb_true_iff, ?negb_false_iff, ?aligned_land, ?unaligned_land in *;
    try (rewrite decide_False by tauto; done).
  destruct (b1 <? b2) eqn:Elt; case_if; zb; try (rewrite decide_False by lia; done);
    rewrite decide_True; try done; split_and!; try done; width_lia.
Qed.

(** [tegra_ivc_align] rounds up to the alignment; it stops the kernel when the
    rounded size is not representable. *)
Lemma ivc_align_spec size :
  is_u64 size ->
  tegra_ivc_align size =
    if ULLONG_MAX - 63 <? size then None else Some (64 * ((size + 63) / 64)).
Proof.
  intros Hs. unfold tegra_ivc_align, safe_add_u64, is_u64_addition_safe, ULLONG_MAX, IVC_ALIGN.
  rewrite (u64_id (2 ^ 64 - 1 - size)) by width_lia.
  destruct (2 ^ 64 - 1 - 63 <? size) eqn:E; zb.
  - rewrite (proj2 (Z.leb_gt _ _)) by lia. done.
  - rewrite (proj2 (Z.leb_le _ _)) by lia. cbn [mbind option_bind]. f_equal.
    change (64 - 1) with 63 at 1.
    rewrite (u64_id (size + 63)) by width_lia.
    change (u64 (Z.lnot (64 - 1))) with (Z.ldiff (Z.ones 64) (Z.ones 6)).
    assert (Hz : size + 63 = Z.land (size + 63) (Z.ones 64)).
    { rewrite Z.land_ones, Z.mod_small by width_lia. done. }
    assert (Hl : Z.land (size + 63) (Z.ldiff (Z.ones 64) (Z.ones 6)) = Z.ldiff (size + 63) (Z.ones 6)).
    { rewrite Hz at 2. apply Z.bits_inj'. intros i Hi.
      rewrite Z.land_spec, !Z.ldiff_spec, Z.land_spec.
      by destruct (Z.testbit (size + 63) i), (Z.testbit (Z.ones 64) i), (Z.testbit (Z.ones 6) i). }
    rewrite Hl, Z.ldiff_ones_r, Z.shiftl_mul_pow2, Z.shiftr_div_pow2 by lia. change (2 ^ 6) with 64. lia.
Qed.

(** What a successful initialisation leaves. *)
Definition configured (mem : Z -> ivc_channel_header) (v v' : ivc) (rxb txb n fsz : Z)
    (peer : bool) (rxh txh : Z) : Prop :=
  v' = Ivc (mem rxb) (mem txb) 0 0 (notifies v) n fsz peer rxh txh.

Lemma configured_ep_ok mem v v' rxb txb n fsz peer rxh txh :
  configured mem v v' rxb txb n fsz peer rxh txh -> is_u32 n -> is_u32 fsz ->
  0 < n -> chan_shape n fsz (mem rxb) -> chan_shape n fsz (mem txb) ->
  (peer = true -> forall h, h = rxh \/ h = txh -> 0 <= h /\ h + sizeof_header + fsz * n < 2 ^ 64) ->
  ep_ok v'.
Proof.
  intros -> Hn Hf Hn0 Hrx Htx Hh. unfold is_u32 in *. split; simpl; try done; try lia;
    unfold handle_ok; simpl; intros Hp.
  - split; [|split]; [|done|]; apply (Hh Hp txh); auto.
  - split; [|split]; [|done|]; apply (Hh Hp rxh); auto.
Qed.

(** [tegra_ivc_init] validates its arguments.  It returns -EINVAL unless the
    frames fit in 32 bits, bases and frame size are 64-byte aligned and the two data
    areas do not overlap, -E2BIG when the frame size exceeds INT_MAX, and -ENOMEM
    when mapping either queue fails, without setting the number and size of frames.
    Otherwise it returns 0 with the positions at 0, and if the memory holds frames
    of that size the endpoint satisfies the precondition of the safety theorems.
    Only when the areas leave no room for the 128-byte header below 2^32 it stops
    the kernel. *)
Theorem ivc_init_correct mem dma_map_single dma_mapping_error v rxb rxh txb txh n fsz peer :
  is_u32 n -> is_u32 fsz -> 0 <= rxb -> 0 <= txb ->
  rxb + n * fsz < 2 ^ 64 -> txb + n * fsz < 2 ^ 64 ->
  let r := tegra_ivc_init_body mem dma_map_single dma_mapping_error v rxb rxh txb txh n fsz peer in
  if decide (params_ok rxb txb n fsz) then
    if decide (n * fsz + sizeof_header < 2 ^ 32) then
      exists res v', r = Some (res, v') /\
        (res <> 0 -> nframes v' = nframes v /\ frame_size v' = frame_size v) /\
        (res = - E2BIG <-> INT_MAX < fsz) /\
        (res = 0 \/ res = - E2BIG \/ (res = - ENOMEM /\ peer = true)) /\
        (res = 0 -> exists rxh' txh', configured mem v v' rxb txb n fsz peer rxh' txh' /\
           (peer = true -> rxh <> 0 -> dma_mapping_error rxh = false -> rxh' = rxh /\ txh' = txh) /\
           (0 < n -> chan_shape n fsz (mem rxb) -> chan_shape n fsz (mem txb) ->
            (peer = true -> forall h, h = rxh' \/ h = txh' ->
               0 <= h /\ h + sizeof_header + fsz * n < 2 ^ 64) ->
            ep_ok v'))
    else r = None
  else r = Some (- EINVAL, v).
Proof.
  intros Hn Hf H1 H2 H3 H4 r. subst r. unfold tegra_ivc_init_body.
  rewrite check_ivc_params_spec by done. case_decide as Hok; [|done].
  destruct Hok as (Hmul & Hd1 & Hd2 & Hd3 & Hov). simpl.
  assert (Hsafe : is_u32_u32__u32_multiplication_safe n fsz = true).
  { unfold is_u32_u32__u32_multiplication_safe, UINT_MAX. case_if; [done|].
    zb. apply Z.leb_le, Z.div_le_lower_bound; unfold is_u32 in *; lia. }
  rewrite Hsafe. simpl. rewrite (u32_id (n * fsz)) by (unfold is_u32 in *; nia).
  unfold tegra_ivc_total_queue_size.
  assert (Hal : (Z.land (n * fsz) (IVC_ALIGN - 1) =? 0) = true) by (apply aligned_land, Z.divide_mul_r; done).
  rewrite Hal. simpl negb. cbv iota.
  unfold safe_add_u32, is_u32_addition_safe, UINT_MAX; change sizeof_header with (2 * 64).
  assert (0 <= n * fsz) by (unfold is_u32 in *; nia).
  rewrite (u32_id (n * fsz)), (u32_id (2 * 64)), (u32_id (2 ^ 32 - 1 - _)) by width_lia.
  case_decide as Hroom.
  2: { rewrite (proj2 (Z.leb_gt _ _)) by lia. done. }
  rewrite (proj2 (Z.leb_le _ _)) by lia. cbn [mbind option_bind].
  destruct (INT_MAX <? fsz) eqn:Emax; zb.
  { eexists _, _. split; [done|]. split_and!; try done; auto. }
  unfold E2BIG, ENOMEM. destruct peer; simpl.
  2: { eexists _, _. split; [done|]. split_and!; try done; auto; try lia.
       intros _. eexists _, _. split; [done|]. split; [done|]. by eapply configured_ep_ok. }
  case_if.
  { eexists _, _. split; [done|]. split_and!; try done; auto; try lia.
    intros _. eexists _, _. split; [done|]. split; [done|]. by eapply configured_ep_ok. }
  assert (Hh : rxh <> 0 -> dma_mapping_error rxh = false -> False).
  { intros. destruct Heqb; zb; [done|congruence]. }
  case_if; [by eexists _, _; split; [done|]; split_and!; try done; auto; lia|].
  case_if; [by eexists _, _; split; [done|]; split_and!; try done; auto; lia|].
  eexists _, _. split; [done|]. split_and!; try done; auto; try lia.
  intros _. eexists _, _. split; [done|]. split; [|by eapply configured_ep_ok].
  intros _ Ha Hb. destruct (Hh Ha Hb).
Qed.
