(* ===== verification/IvcRace.v ===== *)
(** The handshake needs [tegra_ivc_channel_notified] to be atomic: when the peer may
    act between the read of its state and the stores that follow, the two
    endpoints can end up established on a channel whose counters disagree.  The
    file also holds the concrete instances of the theorems on IVC. *)
From S2P Require Export IvcInit.

(** * Notifications in two steps *)

(** [seenA], [seenB]: the peer state a running [tegra_ivc_channel_notified] has read. *)
Record msys := MSys { ms : sys; seenA : option Z; seenB : option Z }.

Inductive micro_step : msys -> msys -> Prop :=
  | micro_A s o a' sb : op_ok (epA s) o -> run_op o (epA s) = Some a' ->
      micro_step (MSys s None sb) (MSys (Sys a' (linked_view a' (epB s))) None sb)
  | micro_lookA s sb :
      micro_step (MSys s None sb) (MSys s (Some (state (rx_channel (epA s)))) sb)
  | micro_actA s p sb : let a' := snd (channel_notified_body p (epA s)) in
      micro_step (MSys s (Some p) sb) (MSys (Sys a' (linked_view a' (epB s))) None sb)
  | micro_B s o b' sa : op_ok (epB s) o -> run_op o (epB s) = Some b' ->
      micro_step (MSys s sa None) (MSys (Sys (linked_view b' (epA s)) b') sa None)
  | micro_lookB s sa :
      micro_step (MSys s sa None) (MSys s sa (Some (state (rx_channel (epB s)))))
  | micro_actB s p sa : let b' := snd (channel_notified_body p (epB s)) in
      micro_step (MSys s sa (Some p)) (MSys (Sys (linked_view b' (epA s)) b') sa None).

(** * Concrete endpoints *)

(** Two frames of one byte, both endpoints in the given states. *)
Definition demo_chan (st : Z) : ivc_channel_header := Channel 0 st 0 [[0]; [0]].
Definition demo_ep (rx tx : Z) : ivc := Ivc (demo_chan rx) (demo_chan tx) 0 0 0 2 1 false 0 0.
Definition demo_sys (a b : Z) : sys := Sys (demo_ep b a) (demo_ep a b).

Lemma demo_shape st : chan_shape 2 1 (demo_chan st).
Proof. by split; repeat constructor. Defined.

Lemma demo_ep_ok rx tx : ep_ok (demo_ep rx tx).
Proof. split; try apply demo_shape; by vm_compute. Defined.

Lemma demo_linked a b : linked (demo_sys a b).
Proof. split; try done; apply demo_ep_ok. Defined.

(** A channel over which the first frame, 7, was written and not yet read. *)
Definition demo_ch1 : ivc_channel_header := Channel 1 0 0 [[7]; [0]].
Lemma demo_chan1 : chan_repr 2 1 demo_ch1 1 0 [[7]].
Proof. split; try done; repeat constructor. Defined.

Definition demo_writer : ivc := Ivc (demo_chan 0) demo_ch1 1 0 0 2 1 false 0 0.
Definition demo_reader : ivc := Ivc demo_ch1 (demo_chan 0) 0 0 0 2 1 false 0 0.

Lemma demo_writer_view : writer_view demo_writer 0 [[7]].
Proof. split; [exact demo_chan1|done]. Defined.
Lemma demo_reader_view : reader_view demo_reader 1 [[7]].
Proof. split; [exact demo_chan1|done]. Defined.

Lemma counters_disagree n fsz ch wp rp q :
  chan_repr n fsz ch wp rp q -> u32 (w_count ch - r_count ch) <= n.
Proof. intros []. lia. Qed.

(** The handshake relies on notifications being handled atomically.  When the
    peer's state may change between the read of it and the stores of
    [tegra_ivc_channel_notified], there is an execution from two endpoints in SYNC
    after which both are established although A's write counter is 0 and B has
    already read one frame: the channel from A to B is not a consistent FIFO. *)
Theorem stale_state_breaks_channel :
  exists s, rtc micro_step (MSys (demo_sys ivc_state_sync ivc_state_sync) None None) s /\
    established (epA (ms s)) = true /\ established (epB (ms s)) = true /\
    seenA s = None /\ seenB s = None /\
    ~ direction (epA (ms s)) (epB (ms s)).
Proof.
  eexists. split.
  - eapply rtc_l; [apply (micro_B _ OpNotified); done|].
    eapply rtc_l; [apply (micro_A _ OpNotified); done|].
    eapply rtc_l; [apply (micro_A _ (OpWrite (KernelData [7]))); vm_compute; done|].
    eapply rtc_l; [apply micro_lookB|].
    eapply rtc_l; [apply (micro_A _ OpReset); done|].
    eapply rtc_l; [apply micro_lookA|].
    eapply rtc_l; [apply micro_actB|].
    eapply rtc_l; [apply (micro_B _ (OpRead KernelBuf 1)); vm_compute; done|].
    eapply rtc_l; [apply micro_actA|]. apply rtc_refl.
  - split_and!; try done. intros [q Hq%counters_disagree]. by vm_compute in Hq.
Qed.

(** * Instances of the theorems *)
Lemma write_frame_witness :
  exists res v', ivc_write_frame demo_writer (KernelData [9]) = Some (res, v') /\
    write_outcome demo_writer 0 [[7]] (KernelData [9]) res v'.
Proof.
  apply (write_frame_correct demo_writer 0 [[7]] (KernelData [9])); try done.
  exact demo_writer_view.
Defined.

Lemma read_frame_witness :
  exists res bytes v', ivc_read_frame demo_reader KernelBuf 1 = Some (res, bytes, v') /\
    read_outcome demo_reader 1 [[7]] KernelBuf 1 res bytes v'.
Proof. apply (read_frame_correct demo_reader 1 [[7]] KernelBuf 1); try done. exact demo_reader_view. Defined.

Lemma tx_frames_available_witness :
  tegra_ivc_tx_frames_available demo_writer = Some 1.
Proof. apply (tx_frames_available_spec demo_writer 0 [[7]]); [exact demo_writer_view|done]. Defined.

(** The same channel after 2^32 frames: healthy, but the call ends in BUG(). *)
Definition demo_wrapped : ivc :=
  Ivc (demo_chan 0) (Channel 0 0 (2 ^ 32 - 1) [[7]; [0]]) 1 0 0 2 1 false 0 0.
Lemma demo_wrapped_view : writer_view demo_wrapped 0 [[7]].
Proof. split; [|done]. split; try done; repeat constructor. Defined.
Example tx_frames_available_bug : tegra_ivc_tx_frames_available demo_wrapped = None.
Proof. reflexivity. Qed.

(** [tegra_ivc_channel_sync] takes the positions from the counters modulo the number
    of frames.  Three frames, 2^32 frames sent and received: the counters are 0 again
    and both positions are 1, the channel is consistent and empty; a sync of the
    writer alone sets its position to 0, and the channel is consistent no more. *)
Definition demo_three : ivc :=
  Ivc (demo_chan 0) (Channel 0 0 0 [[0]; [0]; [0]]) 1 0 0 3 1 false 0 0.
Lemma sync_loses_position :
  chan_repr 3 1 (tx_channel demo_three) (w_pos demo_three) 1 [] /\
  exists v', tegra_ivc_channel_sync (Some demo_three) = (0, Some v') /\
    tx_channel v' = tx_channel demo_three /\
    forall q, ~ chan_repr 3 1 (tx_channel v') (w_pos v') 1 q.
Proof.
  split; [by split; try done; repeat constructor|].
  eexists. split; [reflexivity|]. split; [done|]. intros q [_ _ _ _ _ Hc _ _ Hw _].
  vm_compute in Hc. by destruct q.
Qed.

(** A peer that sets its write counter far ahead, then a read. *)
Lemma hostile_peer_witness :
  exists v', run_events (demo_ep 0 0)
    [PeerStores (Channel 99 0 5 [[1]; [2]]) (Channel 3 2 77 [[0]; [0]]); Local (OpRead KernelBuf 1);
     Local OpSync; Local OpNotified; Local OpWriteAdvance; Local OpTxEmpty] = Some v' /\ ep_ok v'.
Proof.
  assert (Hes : Forall (event_ok (demo_ep 0 0))
    [PeerStores (Channel 99 0 5 [[1]; [2]]) (Channel 3 2 77 [[0]; [0]]); Local (OpRead KernelBuf 1);
     Local OpSync; Local OpNotified; Local OpWriteAdvance; Local OpTxEmpty])
    by (repeat constructor; simpl; done).
  pose proof (hostile_peer_safe _ _ (demo_ep_ok 0 0) Hes) as H.
  eexists. split; [reflexivity|]. exact H.
Defined.

(** The same stores, then the query that is BUG() on them. *)
Example hostile_peer_stops :
  run_events (demo_ep 0 0)
    [PeerStores (demo_chan 0) (Channel 3 0 77 [[0]; [0]]); Local OpTxFramesAvailable] = None.
Proof. reflexivity. Qed.

Lemma reset_converges_witness : converges (demo_sys ivc_state_established ivc_state_ack).
Proof. apply reset_converges; [apply demo_linked|done]. Defined.

(** Both in SYNC, then B is notified, then A: A is established and B in ACK. *)
Definition demo_open : sys :=
  let s0 := demo_sys ivc_state_sync ivc_state_sync in
  let b1 := snd (tegra_ivc_channel_notified (epB s0)) in
  let a2 := snd (tegra_ivc_channel_notified (linked_view b1 (epA s0))) in
  Sys a2 (linked_view a2 b1).
(** A has then found its channel writable and stored the frame [7], not yet counted. *)
Definition demo_writing : running :=
  Running (let a := set_tx (epA demo_open) (set_frame (tx_channel (epA demo_open)) 0 [7]) in
           Sys a (linked_view a (epB demo_open))) (Some Writing) None.
Lemma demo_writing_reachable :
  rtc sys_step (Running (demo_sys ivc_state_sync ivc_state_sync) None None) demo_writing.
Proof.
  eapply rtc_l; [apply step_B; by eapply (st_op OpNotified)|].
  eapply rtc_l; [apply step_A; by eapply (st_op OpNotified)|].
  eapply rtc_l; [apply step_A; by eapply st_check_write|].
  eapply rtc_l; [apply step_A; by apply (st_store [7])|]. apply rtc_refl.
Defined.

Lemma handshake_witness :
  direction (epA (both demo_writing)) (epB (both demo_writing)) /\
  fresh (epB (both demo_writing)) /\ established (epA (both demo_writing)) = true.
Proof.
  destruct (handshake_safe _ _ (demo_linked _ _) eq_refl eq_refl demo_writing_reachable)
    as (H1 & _ & H2).
  split; [by apply H1|]. split; [by apply H2|done].
Defined.

(** Two areas of two frames; the header after the first area is not checked for. *)
Lemma init_witness :
  exists rxh txh,
    configured (fun _ => Channel 0 0 0 [repeat 0 64; repeat 0 64]) (demo_ep 0 0)
      (Ivc (Channel 0 0 0 [repeat 0 64; repeat 0 64]) (Channel 0 0 0 [repeat 0 64; repeat 0 64])
         0 0 0 2 64 false 0 0) 0x1000 0x1080 2 64 false rxh txh.
Proof.
  pose proof (ivc_init_correct (fun _ => Channel 0 0 0 [repeat 0 64; repeat 0 64]) (fun b _ => b)
    (fun _ => false) (demo_ep 0 0) 0x1000 0 0x1080 0 2 64 false) as H.
  rewrite decide_True in H
    by (split_and!; [done|by exists 64|by exists 66|by exists 1|by left]).
  destruct H as (res & v' & E & _ & _ & _ & H); [done..|].
  vm_compute in E. injection E as <- <-. destruct H as (rxh & txh & Hc & _); [done|].
  exists rxh, txh. exact Hc.
Defined.
