(* ===== verification/Host1xJob.v ===== *)
(** Host1x jobs: building, pinning, the command-stream firewall and relocation
    patching (src/drivers/gpu/host1x/job.c, with job.h and host1x-next.h).

    [None] as a result is an access outside an array.  Buffer objects, the IOMMU
    and the DMA allocator are outside the file: what they answer is a parameter. *)
From S2P Require Export Ring.

Definition HOST1X_RELOC_READ := 1.
Definition HOST1X_RELOC_WRITE := 2.

(** struct host1x_reloc. *)
Record host1x_reloc := Reloc {
  cmdbuf_bo : ptr;
  cmdbuf_offset : Z;
  target_bo : ptr;
  target_offset : Z;
  shift : Z;
  flags : Z }.

(** struct host1x_job_gather: [words] u32s at byte [offset] of [bo]. *)
Record host1x_job_gather := Gather {
  words : Z;
  base : Z;
  bo : ptr;
  offset : Z;
  handled : bool }.

(** struct host1x_job_cmd: the tagged union. *)
Inductive host1x_job_cmd :=
  | HOST1X_JOB_CMD_GATHER (g : host1x_job_gather)
  | HOST1X_JOB_CMD_WAIT (id threshold next_class : Z) (relative : bool)
  | HOST1X_JOB_CMD_REG_WRITE (reg value : Z).

(** struct host1x_bo_mapping, as far as it is used here. *)
Record host1x_bo_mapping := Mapping {
  map_bo : ptr;
  phys : Z;
  map_size : Z;
  chunks : Z }.

(** The fields of struct host1x_job these functions use.  [cmds] holds the first num_cmds entries of an array of
    [cmds_cap]; [unpins] the first num_unpins of an array of the size of
    [addr_phys].  [gather_addr_phys] is the tail of [addr_phys] from num_relocs on. *)
Record host1x_job := Job {
  cmds_cap : Z;
  cmds : list host1x_job_cmd;
  relocs : list host1x_reloc;
  unpins : list host1x_bo_mapping;
  addr_phys : list Z;
  gather_copy : Z;
  gather_copy_mapped : list Z;
  gather_copy_size : Z;
  class : Z;
  enable_firewall : bool }.

Definition set_cmds (j : host1x_job) (cs : list host1x_job_cmd) :=
  Job (cmds_cap j) cs (relocs j) (unpins j) (addr_phys j) (gather_copy j)
    (gather_copy_mapped j) (gather_copy_size j) (class j) (enable_firewall j).
Definition set_relocs (j : host1x_job) (rs : list host1x_reloc) :=
  Job (cmds_cap j) (cmds j) rs (unpins j) (addr_phys j) (gather_copy j)
    (gather_copy_mapped j) (gather_copy_size j) (class j) (enable_firewall j).
Definition set_unpins (j : host1x_job) (us : list host1x_bo_mapping) (ps : list Z) :=
  Job (cmds_cap j) (cmds j) (relocs j) us ps (gather_copy j)
    (gather_copy_mapped j) (gather_copy_size j) (class j) (enable_firewall j).
Definition set_copy (j : host1x_job) (addr : Z) (mem : list Z) (size : Z) :=
  Job (cmds_cap j) (cmds j) (relocs j) (unpins j) (addr_phys j) addr mem size
    (class j) (enable_firewall j).
Definition set_gather (c : host1x_job_cmd) (g : host1x_job_gather) : host1x_job_cmd :=
  match c with HOST1X_JOB_CMD_GATHER _ => HOST1X_JOB_CMD_GATHER g | _ => c end.

(** An array access: [None] outside the array. *)
Definition array_get {A} (l : list A) (i : Z) : option A :=
  if i <? 0 then None else l !! Z.to_nat i.
Definition array_set {A} (l : list A) (i : Z) (x : A) : option (list A) :=
  if (0 <=? i) && (i <? Z.of_nat (length l)) then Some (<[Z.to_nat i := x]> l) else None.

(** The contents of buffer objects, in bytes. *)
Abbreviation bo_mem := (gmap ptr (list Z)).

(** * Building a job *)

(** The structure sizes of the 64-bit kernel; [kzalloc_ok]: the allocation succeeds.
    [CONFIG_FIREWALL] is CONFIG_TEGRA_HOST1X_FIREWALL. *)
Section alloc.
Variables (sizeof_job sizeof_reloc sizeof_unpin sizeof_cmd : Z) (CONFIG_FIREWALL : bool).

Definition host1x_job_alloc (num_cmdbufs num_relocs : Z) (skip_firewall kzalloc_ok : bool)
    : option host1x_job :=
  let enable_firewall := CONFIG_FIREWALL && negb skip_firewall in
  let num_unpins := if negb enable_firewall then u32 (num_relocs + num_cmdbufs) else num_relocs in
  let total :=
    u64 (sizeof_job + num_relocs * sizeof_reloc + num_unpins * sizeof_unpin +
         num_cmdbufs * sizeof_cmd + num_unpins * 8 + num_unpins * 8) in
  if 2 ^ 64 - 1 <? total then None
  else if negb kzalloc_ok then None
  else Some (Job num_cmdbufs [] (replicate (Z.to_nat num_relocs) (Reloc 1 0 1 0 0 0)) []
               (replicate (Z.to_nat num_unpins) 0) 0 [] 0 0 enable_firewall).
End alloc.

(** [job->cmds[job->num_cmds++] = c]. *)
Definition add_cmd (job : host1x_job) (c : host1x_job_cmd) : option host1x_job :=
  if Z.of_nat (length (cmds job)) <? cmds_cap job then Some (set_cmds job (cmds job ++ [c]))
  else None.

Definition host1x_job_add_gather (job : host1x_job) (b : ptr) (words offset : Z) :=
  add_cmd job (HOST1X_JOB_CMD_GATHER (Gather words 0 b offset false)).
Definition host1x_job_add_wait (job : host1x_job) (id thresh : Z) (relative : bool) (next_class : Z) :=
  add_cmd job (HOST1X_JOB_CMD_WAIT id thresh next_class relative).
Definition host1x_job_add_reg_write (job : host1x_job) (reg value : Z) :=
  add_cmd job (HOST1X_JOB_CMD_REG_WRITE reg value).

(** * The firewall *)

(** struct host1x_firewall.  [reloc] is an index into the job's relocs; the job
    and the device are the Section's variables. *)
Record host1x_firewall := Fw {
  fw_num_relocs : Z;
  fw_reloc : Z;
  fw_cmdbuf : ptr;
  fw_offset : Z;
  fw_words : Z;
  fw_class : Z;
  fw_reg : Z;
  fw_mask : Z;
  fw_count : Z }.

Definition fw_next_reloc (fw : host1x_firewall) : host1x_firewall :=
  Fw (u32 (fw_num_relocs fw - 1)) (fw_reloc fw + 1) (fw_cmdbuf fw) (fw_offset fw) (fw_words fw)
    (fw_class fw) (fw_reg fw) (fw_mask fw) (fw_count fw).
(** [fw->words--; fw->offset++]. *)
Definition fw_next_word (fw : host1x_firewall) : host1x_firewall :=
  Fw (fw_num_relocs fw) (fw_reloc fw) (fw_cmdbuf fw) (u32 (fw_offset fw + 1)) (u32 (fw_words fw - 1))
    (fw_class fw) (fw_reg fw) (fw_mask fw) (fw_count fw).
Definition fw_op (fw : host1x_firewall) (class reg mask count : Z) : host1x_firewall :=
  Fw (fw_num_relocs fw) (fw_reloc fw) (fw_cmdbuf fw) (fw_offset fw) (fw_words fw)
    class reg mask count.
Definition fw_start (fw : host1x_firewall) (words : Z) (cmdbuf : ptr) : host1x_firewall :=
  Fw (fw_num_relocs fw) (fw_reloc fw) cmdbuf 0 words
    (fw_class fw) (fw_reg fw) (fw_mask fw) (fw_count fw).

Definition check_reloc (reloc : host1x_reloc) (cmdbuf : ptr) (offset : Z) : bool :=
  let offset := u32 (offset * 4) in
  if negb (bool_decide (cmdbuf_bo reloc = cmdbuf)) || negb (cmdbuf_offset reloc =? offset) then false
  else shift reloc =? 0.

(** The job's callbacks, NULL as [None]. *)
Section firewall.
Variables (is_addr_reg : option (Z -> Z -> bool)) (is_valid_class : option (Z -> bool)).

Definition check_register (rs : list host1x_reloc) (fw : host1x_firewall) (offset : Z)
    : option (Z * host1x_firewall) :=
  match is_addr_reg with
  | None => Some (0, fw)
  | Some is_addr_reg =>
      if is_addr_reg (fw_class fw) offset then
        if fw_num_relocs fw =? 0 then Some (- EINVAL, fw)
        else
          reloc ← array_get rs (fw_reloc fw);
          if negb (check_reloc reloc (fw_cmdbuf fw) (fw_offset fw)) then Some (- EINVAL, fw)
          else Some (0, fw_next_reloc fw)
      else Some (0, fw)
  end.

Definition check_class (fw : host1x_firewall) (class : Z) : Z :=
  match is_valid_class with
  | None => if negb (fw_class fw =? class) then - EINVAL else 0
  | Some is_valid_class => if negb (is_valid_class (fw_class fw)) then - EINVAL else 0
  end.

(** The body shared by the three loops: one data word, for register [reg]. *)
Definition check_word (rs : list host1x_reloc) (fw : host1x_firewall) (reg : Z)
    : option (Z * host1x_firewall) :=
  '(ret, fw) ← check_register rs fw reg;
  if ret <? 0 then Some (ret, fw) else Some (0, fw_next_word fw).

(** [fuel] bounds the number of bits of [mask]. *)
Fixpoint check_mask_loop (rs : list host1x_reloc) (fuel : nat) (mask reg : Z) (fw : host1x_firewall)
    : option (Z * host1x_firewall) :=
  if mask =? 0 then Some (0, fw)
  else
    match fuel with
    | O => None
    | S fuel =>
        if fw_words fw =? 0 then Some (- EINVAL, fw)
        else
          '(ret, fw) ← (if negb (Z.land mask 1 =? 0) then check_word rs fw reg else Some (0, fw));
          if ret <? 0 then Some (ret, fw)
          else check_mask_loop rs fuel (Z.shiftr mask 1) (u32 (reg + 1)) fw
    end.
Definition check_mask (rs : list host1x_reloc) (fw : host1x_firewall) :=
  check_mask_loop rs 32 (fw_mask fw) (fw_reg fw) fw.

(** [next] is the register after [reg]: the next one, or the same. *)
Fixpoint check_count_loop (rs : list host1x_reloc) (next : Z -> Z) (count : nat) (reg : Z)
    (fw : host1x_firewall) : option (Z * host1x_firewall) :=
  match count with
  | O => Some (0, fw)
  | S count =>
      if fw_words fw =? 0 then Some (- EINVAL, fw)
      else
        '(ret, fw) ← check_word rs fw reg;
        if ret <? 0 then Some (ret, fw) else check_count_loop rs next count (next reg) fw
  end.
Definition check_incr (rs : list host1x_reloc) (fw : host1x_firewall) :=
  check_count_loop rs (fun reg => u32 (reg + 1)) (Z.to_nat (fw_count fw)) (fw_reg fw) fw.
Definition check_nonincr (rs : list host1x_reloc) (fw : host1x_firewall) :=
  check_count_loop rs (fun reg => reg) (Z.to_nat (fw_count fw)) (fw_reg fw) fw.

Definition opcode_of (word : Z) : Z := Z.shiftr (Z.land word 0xf0000000) 28.
Definition class_of (word : Z) : Z := Z.land (Z.shiftr word 6) 0x3ff.
Definition reg_of (word : Z) : Z := Z.land (Z.shiftr word 16) 0xfff.

(** One command word, already consumed. *)
Definition validate_op (rs : list host1x_reloc) (job_class word : Z) (fw : host1x_firewall)
    : option (Z * host1x_firewall) :=
  match opcode_of word with
  | 0 =>
      let fw := fw_op fw (class_of word) (reg_of word) (Z.land word 0x3f) 0 in
      let err := check_class fw job_class in
      if err =? 0 then check_mask rs fw else Some (err, fw)
  | 1 => check_incr rs (fw_op fw (fw_class fw) (reg_of word) 0 (Z.land word 0xffff))
  | 2 => check_nonincr rs (fw_op fw (fw_class fw) (reg_of word) 0 (Z.land word 0xffff))
  | 3 => check_mask rs (fw_op fw (fw_class fw) (reg_of word) (Z.land word 0xffff) 0)
  | 4 | 14 => Some (0, fw_op fw (fw_class fw) 0 0 0)
  | _ => Some (- EINVAL, fw_op fw (fw_class fw) 0 0 0)
  end.

(** Every round consumes a word, so [fuel] is the number of words. *)
Fixpoint validate_loop (rs : list host1x_reloc) (mem : list Z) (cmdbuf_base job_class : Z)
    (fuel : nat) (fw : host1x_firewall) : option (Z * host1x_firewall) :=
  if fw_words fw =? 0 then Some (0, fw)
  else
    match fuel with
    | O => None
    | S fuel =>
        word ← array_get mem (cmdbuf_base + fw_offset fw);
        '(err, fw) ← validate_op rs job_class word (fw_next_word fw);
        if negb (err =? 0) then Some (err, fw)
        else validate_loop rs mem cmdbuf_base job_class fuel fw
    end.

Definition validate (job : host1x_job) (fw : host1x_firewall) (g : host1x_job_gather)
    : option (Z * host1x_firewall) :=
  let fw' := fw_start fw (words g) (bo g) in
  validate_loop (relocs job) (gather_copy_mapped job) (offset g / 4) (fw_class fw)
    (Z.to_nat (words g)) fw'.

(** * Memory of buffer objects, in bytes *)

Fixpoint le_words (bytes : list Z) : list Z :=
  match bytes with
  | b0 :: b1 :: b2 :: b3 :: bytes =>
      (b0 + Z.shiftl b1 8 + Z.shiftl b2 16 + Z.shiftl b3 24) :: le_words bytes
  | _ => []
  end.
Definition le_bytes (w : Z) : list Z :=
  [Z.land w 255; Z.land (Z.shiftr w 8) 255; Z.land (Z.shiftr w 16) 255; Z.land (Z.shiftr w 24) 255].

(** [n] bytes from [off] on. *)
Definition bytes_at (mem : list Z) (off n : Z) : option (list Z) :=
  if (0 <=? off) && (0 <=? n) && (off + n <=? Z.of_nat (length mem))
  then Some (take (Z.to_nat n) (drop (Z.to_nat off) mem)) else None.
Definition bytes_set (mem : list Z) (off : Z) (bytes : list Z) : option (list Z) :=
  if (0 <=? off) && (off + Z.of_nat (length bytes) <=? Z.of_nat (length mem))
  then Some (splice (Z.to_nat off) bytes mem) else None.

(** * Copying and checking the gathers *)
Definition gather_bytes (g : host1x_job_gather) : Z := words g * 4.

Definition gathers_size (cs : list host1x_job_cmd) : Z :=
  foldl (fun size c => match c with
                       | HOST1X_JOB_CMD_GATHER g => u64 (size + gather_bytes g)
                       | _ => size
                       end) 0 cs.

(** The second loop of [copy_gathers], from command [i] on: the job is updated as
    it goes.  [off] is the byte offset of the next gather in the copy. *)
Fixpoint copy_loop (mem : bo_mem) (n : nat) (i : nat) (off : Z) (fw : host1x_firewall)
    (job : host1x_job) : option (Z * host1x_firewall * host1x_job) :=
  match n with
  | O => Some (0, fw, job)
  | S n =>
      c ← cmds job !! i;
      match c with
      | HOST1X_JOB_CMD_GATHER g =>
          content ← mem !! bo g;
          bytes ← bytes_at content (offset g) (gather_bytes g);
          let ws := le_words bytes in
          copy ← (if off / 4 + Z.of_nat (length ws) <=? Z.of_nat (length (gather_copy_mapped job))
                  then Some (splice (Z.to_nat (off / 4)) ws (gather_copy_mapped job)) else None);
          let g := Gather (words g) (gather_copy job) (bo g) (u32 off) (handled g) in
          let job := set_cmds (set_copy job (gather_copy job) copy (gather_copy_size job))
                       (<[i := HOST1X_JOB_CMD_GATHER g]> (cmds job)) in
          '(err, fw) ← validate job fw g;
          if negb (err =? 0) then Some (- EINVAL, fw, job)
          else copy_loop mem n (S i) (u64 (off + gather_bytes g)) fw job
      | _ => copy_loop mem n (S i) off fw job
      end
  end.

(** [dma_alloc_wc] is asked twice, without and with blocking; it answers with the
    address of memory of the given size, whose contents are [stale]. *)
Definition copy_gathers (mem : bo_mem) (dma_alloc_wc : bool -> option Z) (stale : Z -> list Z)
    (job : host1x_job) : option (Z * host1x_job) :=
  let fw := Fw (Z.of_nat (length (relocs job))) 0 1 0 0 (class job) 0 0 0 in
  let size := gathers_size (cmds job) in
  let addr := match dma_alloc_wc false with Some a => Some a | None => dma_alloc_wc true end in
  match addr with
  | None => Some (- ENOMEM, job)
  | Some a =>
      let job := set_copy job a (stale (size / 4)) size in
      '(err, fw, job) ← copy_loop mem (length (cmds job)) 0 0 fw job;
      if negb (err =? 0) then Some (err, job)
      else if negb (fw_num_relocs fw =? 0) then Some (- EINVAL, job)
      else Some (0, job)
  end.
End firewall.

(** * Patching *)
Definition reloc_addr (phys : Z) (r : host1x_reloc) : Z :=
  u32 (Z.shiftr (u64 (phys + target_offset r)) (shift r)).

(** The state patching works on: the job (whose copy of the gathers is patched when
    the firewall is enabled) or the buffer objects. *)
Definition patch_one (job : host1x_job) (mem : bo_mem) (g : host1x_job_gather) (i : nat)
    (r : host1x_reloc) : option (host1x_job * bo_mem) :=
  p ← addr_phys job !! i;
  if negb (bool_decide (bo g = cmdbuf_bo r)) then Some (job, mem)
  else if enable_firewall job then
    copy ← array_set (gather_copy_mapped job) (cmdbuf_offset r / 4 + offset g / 4) (reloc_addr p r);
    Some (set_copy job (gather_copy job) copy (gather_copy_size job), mem)
  else
    content ← mem !! bo g;
    content ← bytes_set content (cmdbuf_offset r) (le_bytes (reloc_addr p r));
    Some (job, <[bo g := content]> mem).

(** [bo_mmap]: whether the buffer can be mapped, asked at most once. *)
Fixpoint patch_loop (bo_mmap : ptr -> bool) (job : host1x_job) (mem : bo_mem) (g : host1x_job_gather)
    (i : nat) (rs : list host1x_reloc) : option (Z * host1x_job * bo_mem) :=
  match rs with
  | [] => Some (0, job, mem)
  | r :: rs =>
      if bool_decide (bo g = cmdbuf_bo r) && negb (enable_firewall job) && negb (bo_mmap (bo g))
      then Some (- ENOMEM, job, mem)
      else
        '(job, mem) ← patch_one job mem g i r;
        patch_loop bo_mmap job mem g (S i) rs
  end.

Definition do_relocs (bo_mmap : ptr -> bool) (job : host1x_job) (mem : bo_mem) (g : host1x_job_gather)
    : option (Z * host1x_job * bo_mem) :=
  patch_loop bo_mmap job mem g 0 (relocs job).

(** * Pinning *)
Inductive dma_data_direction := DMA_TO_DEVICE | DMA_FROM_DEVICE | DMA_BIDIRECTIONAL.

(** The calls made on buffer objects and mappings, in order; [EvPinFail i] is a call of
    host1x_bo_pin, for the entry with that index, that returns an error. *)
Inductive pin_event :=
  | EvGet (b : ptr) | EvPut (b : ptr)
  | EvPin (m : host1x_bo_mapping) | EvPinFail (i : nat) | EvUnpin (m : host1x_bo_mapping)
  | EvIovaAlloc (addr : Z) | EvIovaFree (addr : Z)
  | EvMap (addr : Z) | EvUnmap (addr : Z)
  | EvFreeCopy (addr : Z).

Definition direction_of (flags : Z) : option dma_data_direction :=
  match Z.land flags (Z.lor HOST1X_RELOC_READ HOST1X_RELOC_WRITE) with
  | 1 => Some DMA_TO_DEVICE
  | 2 => Some DMA_FROM_DEVICE
  | 3 => Some DMA_BIDIRECTIONAL
  | _ => None
  end.

(** What the outside answers.  [pin_reloc] and [pin_gather]: the mapping
    host1x_bo_pin returns for the entry with that index, or its error;
    [sg_size]: the aligned size of a mapping's scatter list; [alloc_iova] and
    [iommu_map]: the address or failure, and the number of bytes mapped. *)
Section pin.
Variables (bo_get : ptr -> bool)
  (pin_reloc : nat -> ptr -> dma_data_direction -> Z + host1x_bo_mapping)
  (pin_gather : nat -> ptr -> Z + host1x_bo_mapping)
  (domain : bool) (sg_size : host1x_bo_mapping -> Z)
  (alloc_iova : nat -> Z -> option Z) (iommu_map : nat -> Z -> Z).

(** [addr_phys[num_unpins] = phys; unpins[num_unpins].map = map; num_unpins++]. *)
Definition push_unpin (job : host1x_job) (m : host1x_bo_mapping) : option host1x_job :=
  addrs ← array_set (addr_phys job) (Z.of_nat (length (unpins job))) (phys m);
  Some (set_unpins job (unpins job ++ [m]) addrs).

(** A non-zero result is the error the caller jumps to unpin with. *)
Fixpoint pin_relocs (i : nat) (rs : list host1x_reloc) (job : host1x_job) (log : list pin_event)
    : option (Z * host1x_job * list pin_event) :=
  match rs with
  | [] => Some (0, job, log)
  | r :: rs =>
      if negb (bo_get (target_bo r)) then Some (- EINVAL, job, log)
      else
        let log := log ++ [EvGet (target_bo r)] in
        match direction_of (flags r) with
        | None => Some (- EINVAL, job, log)
        | Some d =>
            match pin_reloc i (target_bo r) d with
            | inl err => Some (err, job, log ++ [EvPinFail i])
            | inr m =>
                let log := log ++ [EvPin m] in
                if 1 <? chunks m then Some (- EINVAL, job, log)
                else job ← push_unpin job m; pin_relocs (S i) rs job log
            end
        end
  end.

(** [num_relocs + i] in [addr_phys] is [gather_addr_phys[i]]. *)
Fixpoint pin_gathers (i : nat) (cs : list host1x_job_cmd) (job : host1x_job) (log : list pin_event)
    : option (Z * host1x_job * list pin_event) :=
  match cs with
  | [] => Some (0, job, log)
  | HOST1X_JOB_CMD_GATHER g :: cs =>
      if negb (bo_get (bo g)) then Some (- EINVAL, job, log)
      else
        let log := log ++ [EvGet (bo g)] in
        match pin_gather i (bo g) with
        | inl err => Some (err, job, log ++ [EvPinFail i])
        | inr m =>
            let log := log ++ [EvPin m] in
            let finish m log :=
              job ← push_unpin job m;
              addrs ← array_set (addr_phys job) (Z.of_nat (length (relocs job) + i)) (phys m);
              pin_gathers (S i) cs (set_unpins job (unpins job) addrs) log in
            if domain then
              match alloc_iova i (sg_size m) with
              | None => Some (- ENOMEM, job, log ++ [EvPut (bo g)])
              | Some a =>
                  let log := log ++ [EvIovaAlloc a] in
                  if iommu_map i a =? 0 then Some (- EINVAL, job, log ++ [EvIovaFree a; EvPut (bo g)])
                  else finish (Mapping (map_bo m) a (sg_size m) (chunks m)) (log ++ [EvMap a])
              end
            else finish m log
        end
  | _ :: cs => pin_gathers (S i) cs job log
  end.

(** host1x_job_unpin. *)
Fixpoint unpin_loop (fw : bool) (us : list host1x_bo_mapping) (addrs : list Z) : option (list pin_event) :=
  match us with
  | [] => Some []
  | m :: us =>
      match addrs with
      | [] => None
      | a :: addrs =>
          rest ← unpin_loop fw us addrs;
          Some ((if negb fw && negb (map_size m =? 0) && domain then [EvUnmap a; EvIovaFree a] else [])
                ++ [EvUnpin m; EvPut (map_bo m)] ++ rest)
      end
  end.

Definition host1x_job_unpin (job : host1x_job) (log : list pin_event) : option (host1x_job * list pin_event) :=
  evs ← unpin_loop (enable_firewall job) (unpins job) (addr_phys job);
  Some (set_unpins job [] (addr_phys job),
        log ++ evs ++ (if negb (gather_copy_size job =? 0) then [EvFreeCopy (gather_copy job)] else [])).

Definition pin_job (job : host1x_job) : option (Z * host1x_job * list pin_event) :=
  let job := set_unpins job [] (addr_phys job) in
  '(err, job, log) ← pin_relocs 0 (relocs job) job [];
  '(err, job, log) ←
    (if negb (err =? 0) then Some (err, job, log)
     else if enable_firewall job then Some (0, job, log)
     else pin_gathers 0 (cmds job) job log);
  if err =? 0 then Some (0, job, log)
  else '(job, log) ← host1x_job_unpin job log; Some (err, job, log).

(** * The whole of host1x_job_pin *)

(** The inner loop: gathers of the same buffer are processed with the first. *)
Definition mark_handled (g : host1x_job_gather) (c : host1x_job_cmd) : host1x_job_cmd :=
  match c with
  | HOST1X_JOB_CMD_GATHER g' =>
      if bool_decide (bo g' = bo g)
      then HOST1X_JOB_CMD_GATHER (Gather (words g') (base g) (bo g') (offset g') true) else c
  | _ => c
  end.

Fixpoint patch_gathers (bo_mmap : ptr -> bool) (n i : nat) (job : host1x_job) (mem : bo_mem)
    : option (Z * host1x_job * bo_mem) :=
  match n with
  | O => Some (0, job, mem)
  | S n =>
      c ← cmds job !! i;
      match c with
      | HOST1X_JOB_CMD_GATHER g =>
          if handled g then patch_gathers bo_mmap n (S i) job mem
          else
            b ← (if enable_firewall job then Some (base g)
                 else addr_phys job !! (length (relocs job) + i)%nat);
            let g := Gather (words g) b (bo g) (offset g) (handled g) in
            let cs := take i (cmds job) ++ [HOST1X_JOB_CMD_GATHER g] ++
                      (mark_handled g <$> drop (S i) (cmds job)) in
            '(err, job, mem) ← do_relocs bo_mmap (set_cmds job cs) mem g;
            if negb (err =? 0) then Some (err, job, mem)
            else patch_gathers bo_mmap n (S i) job mem
      | _ => patch_gathers bo_mmap n (S i) job mem
      end
  end.

Definition host1x_job_pin (is_addr_reg : option (Z -> Z -> bool)) (is_valid_class : option (Z -> bool))
    (dma_alloc_wc : bool -> option Z) (stale : Z -> list Z) (bo_mmap : ptr -> bool)
    (job : host1x_job) (mem : bo_mem) : option (Z * host1x_job * bo_mem * list pin_event) :=
  '(err, job, log) ← pin_job job;
  '(err, job) ←
    (if negb (err =? 0) then Some (err, job)
     else if enable_firewall job
     then copy_gathers is_addr_reg is_valid_class mem dma_alloc_wc stale job
     else Some (0, job));
  '(err, job, mem) ←
    (if negb (err =? 0) then Some (err, job, mem)
     else patch_gathers bo_mmap (length (cmds job)) 0 job mem);
  if err =? 0 then Some (0, job, mem, log)
  else '(job, log) ← host1x_job_unpin job log; Some (err, job, mem, log).
End pin.
