(* ===== verification/Host1xFirewall.v ===== *)
(** The host1x firewall accepts exactly the command streams that a reference decoder
    accepts and in which every write to an address register is covered, in order,
    by the next relocation of the job. *)
From S2P Require Export Host1xJob.

(** * The reference decoder *)

(** Registers [reg + i] for the bits [i] of [mask] that are set. *)
Definition mask_regs (n : nat) (mask reg : Z) : list Z :=
  (fun i => reg + Z.of_nat i) <$> filter (fun i => Z.testbit mask (Z.of_nat i) = true) (seq 0 n).
Definition incr_regs (count reg : Z) : list Z := (fun i => reg + Z.of_nat i) <$> seq 0 (Z.to_nat count).
Definition nonincr_regs (count reg : Z) : list Z := replicate (Z.to_nat count) reg.

(** What a command word selects: the class after it and the registers the data
    words that follow it are written to. *)
Inductive op_writes (allowed : Z -> Prop) (c w : Z) : Z -> list Z -> Prop :=
  | op_setclass : opcode_of w = 0 -> allowed (class_of w) ->
      op_writes allowed c w (class_of w) (mask_regs 6 (Z.land w 0x3f) (reg_of w))
  | op_incr : opcode_of w = 1 ->
      op_writes allowed c w c (incr_regs (Z.land w 0xffff) (reg_of w))
  | op_nonincr : opcode_of w = 2 ->
      op_writes allowed c w c (nonincr_regs (Z.land w 0xffff) (reg_of w))
  | op_mask : opcode_of w = 3 ->
      op_writes allowed c w c (mask_regs 16 (Z.land w 0xffff) (reg_of w))
  | op_imm_extend : opcode_of w = 4 \/ opcode_of w = 14 -> op_writes allowed c w c [].

(** A register write: class, register, and the word of the gather it comes from. *)
Record write := Write { w_class : Z; w_reg : Z; w_word : Z }.
Fixpoint writes_of (c off : Z) (regs : list Z) : list write :=
  match regs with [] => [] | r :: regs => Write c r off :: writes_of c (off + 1) regs end.

(** [stream allowed c off ws l c']: from class [c] on the words [ws], of which the
    first is word [off] of the gather, make the writes [l] and end in class [c']. *)
Inductive stream (allowed : Z -> Prop) : Z -> Z -> list Z -> list write -> Z -> Prop :=
  | stream_end c off : stream allowed c off [] [] c
  | stream_op c off w data rest c1 regs l c' :
      op_writes allowed c w c1 regs -> length data = length regs ->
      stream allowed c1 (off + 1 + Z.of_nat (length regs)) rest l c' ->
      stream allowed c off (w :: data ++ rest) (writes_of c1 (off + 1) regs ++ l) c'.

(** The relocation for word [off] of buffer [b]. *)
Definition covers (b : ptr) (off : Z) (r : host1x_reloc) : Prop :=
  cmdbuf_bo r = b /\ cmdbuf_offset r = 4 * off /\ shift r = 0.
#[export] Instance covers_dec b off r : Decision (covers b off r).
Proof. unfold covers. apply _. Defined.

Lemma op_writes_det allowed c w c1 regs c2 regs2 :
  op_writes allowed c w c1 regs -> op_writes allowed c w c2 regs2 -> c1 = c2 /\ regs = regs2.
Proof.
  intros H1 H2. destruct H1; inversion H2; subst; try done;
    repeat match goal with H : _ \/ _ |- _ => destruct H end; congruence.
Qed.

Section rules.
Variables (is_addr_reg : option (Z -> Z -> bool)) (is_valid_class : option (Z -> bool)).

Definition addr_write (w : write) : bool :=
  match is_addr_reg with None => false | Some f => f (w_class w) (w_reg w) end.
Definition class_allowed (job_class c : Z) : Prop :=
  match is_valid_class with None => c = job_class | Some f => f c = true end.

(** The relocations left after the writes, when each address register write has its. *)
Fixpoint consume (b : ptr) (l : list write) (rs : list host1x_reloc) : option (list host1x_reloc) :=
  match l with
  | [] => Some rs
  | w :: l =>
      if addr_write w then
        match rs with
        | r :: rs => if decide (covers b (w_word w) r) then consume b l rs else None
        | [] => None
        end
      else consume b l rs
  end.

Lemma consume_app b l1 l2 rs : consume b (l1 ++ l2) rs = rs' ← consume b l1 rs; consume b l2 rs'.
Proof.
  revert rs. induction l1 as [|w l1 IH]; intros rs; simpl; [done|].
  destruct (addr_write w); [|apply IH]. destruct rs as [|r rs]; [done|].
  case_decide; [apply IH|done].
Qed.

(** * The loops of the firewall are one loop over a list of registers *)
Fixpoint check_list (rs : list host1x_reloc) (regs : list Z) (fw : host1x_firewall)
    : option (Z * host1x_firewall) :=
  match regs with
  | [] => Some (0, fw)
  | r :: regs =>
      if fw_words fw =? 0 then Some (- EINVAL, fw)
      else
        '(ret, fw) ← check_word is_addr_reg rs fw r;
        if ret <? 0 then Some (ret, fw) else check_list rs regs fw
  end.

Lemma mask_regs_S n m reg :
  mask_regs (S n) m reg =
    (if Z.testbit m 0 then [reg] else []) ++ mask_regs n (Z.shiftr m 1) (reg + 1).
Proof.
  unfold mask_regs. rewrite <- cons_seq, <- fmap_S_seq, filter_cons. simpl.
  assert (E : forall k : list nat, (fun i => reg + Z.of_nat i) <$> filter (fun i => Z.testbit m (Z.of_nat i) = true) (S <$> k)
    = (fun i => reg + 1 + Z.of_nat i) <$> filter (fun i => Z.testbit (Z.shiftr m 1) (Z.of_nat i) = true) k).
  { induction k as [|i k IH]; [done|]. rewrite fmap_cons, !filter_cons.
    rewrite Z.shiftr_spec, Nat2Z.inj_succ by lia. unfold Z.succ. change (Z.of_nat i + 1) with (Z.of_nat i + 1).
    destruct (decide (Z.testbit m (Z.of_nat i + 1) = true)); rewrite ?fmap_cons, IH; [|done].
    f_equal. lia. }
  rewrite <- E. case_decide as H0; simpl in *.
  - rewrite H0, Z.add_0_r. done.
  - apply not_true_is_false in H0. by rewrite H0.
Qed.

Lemma mask_regs_0 n reg : mask_regs n 0 reg = [].
Proof.
  revert reg. induction n as [|n IH]; intros reg; [done|]. rewrite mask_regs_S. simpl.
  change (Z.shiftr 0 1) with 0. apply IH.
Qed.

Lemma mask_regs_nonempty n m reg : 0 < m < 2 ^ Z.of_nat n -> mask_regs n m reg <> [].
Proof.
  revert m reg. induction n as [|n IH]; intros m reg Hm; [simpl in Hm; lia|].
  rewrite mask_regs_S. destruct (Z.testbit m 0) eqn:E; [done|]. apply IH.
  rewrite Z.bit0_odd in E. rewrite Z.shiftr_div_pow2 by lia. change (2 ^ 1) with 2.
  rewrite Nat2Z.inj_succ, Z.pow_succ_r in Hm by lia.
  assert (m mod 2 = 0) by (rewrite Zmod_odd; by rewrite E).
  Z.div_mod_to_equations. lia.
Qed.

Lemma check_mask_list rs fuel n m reg fw :
  0 <= m < 2 ^ Z.of_nat n -> (n <= fuel)%nat -> 0 <= reg -> reg + Z.of_nat n < 2 ^ 32 ->
  check_mask_loop is_addr_reg rs fuel m reg fw = check_list rs (mask_regs n m reg) fw.
Proof.
  revert n m reg fw. induction fuel as [|fuel IH]; intros n m reg fw Hm Hn Hr Hb.
  - assert (n = 0%nat) as -> by lia. simpl in Hm. by replace m with 0 by lia.
  - simpl. destruct (m =? 0) eqn:E0; zb; [by subst; rewrite mask_regs_0|].
    destruct n as [|n]; [simpl in Hm; lia|].
    pose proof (mask_regs_nonempty (S n) m reg) as Hne.
    destruct (fw_words fw =? 0) eqn:Ew.
    { destruct (mask_regs (S n) m reg) eqn:E; [destruct Hne; [lia|done]|]. simpl. by rewrite Ew. }
    rewrite mask_regs_S.
    assert (Hbit : negb (Z.land m 1 =? 0) = Z.testbit m 0).
    { rewrite Z.bit0_odd. change 1 with (Z.ones 1). rewrite Z.land_ones by lia. change (2 ^ 1) with 2.
      rewrite Zmod_odd. by destruct (Z.odd m). }
    assert (Hs : 0 <= Z.shiftr m 1 < 2 ^ Z.of_nat n).
    { rewrite Z.shiftr_div_pow2 by lia. change (2 ^ 1) with 2.
      rewrite Nat2Z.inj_succ, Z.pow_succ_r in Hm by lia. Z.div_mod_to_equations. lia. }
    rewrite Hbit, (u32_id (reg + 1)) by width_lia. destruct (Z.testbit m 0); simpl.
    + rewrite Ew. destruct (check_word _ rs fw reg) as [[ret fw']|]; simpl; [|done].
      destruct (ret <? 0); [done|]. apply IH; try done; lia.
    + apply IH; try done; lia.
Qed.

Lemma check_incr_list rs count reg fw :
  0 <= reg -> reg + Z.of_nat count < 2 ^ 32 ->
  check_count_loop is_addr_reg rs (fun r => u32 (r + 1)) count reg fw
  = check_list rs ((fun i => reg + Z.of_nat i) <$> seq 0 count) fw.
Proof.
  revert reg fw. induction count as [|n IH]; intros reg fw Hr Hb; [done|].
  rewrite <- cons_seq, <- fmap_S_seq, fmap_cons, <- list_fmap_compose. simpl.
  destruct (fw_words fw =? 0); [done|]. rewrite Z.add_0_r.
  destruct (check_word _ rs fw reg) as [[ret fw']|]; simpl; [|done].
  destruct (ret <? 0); [done|]. rewrite u32_id by width_lia. rewrite IH by lia.
  f_equal. apply list_fmap_ext. intros i x _. simpl. lia.
Qed.

Lemma check_nonincr_list rs count reg fw :
  check_count_loop is_addr_reg rs (fun r => r) count reg fw = check_list rs (replicate count reg) fw.
Proof.
  revert fw. induction count as [|n IH]; intros fw; [done|]. simpl.
  destruct (fw_words fw =? 0); [done|].
  destruct (check_word _ rs fw reg) as [[ret fw']|]; simpl; [|done].
  destruct (ret <? 0); [done|]. apply IH.
Qed.

(** * What the firewall's state stands for

    Class [c], the next word is word [off] of the gather in buffer [b], [n] words
    are left, and [rem] are the relocations not yet used. *)
Record fw_view (rs : list host1x_reloc) (b : ptr) (fw : host1x_firewall) (c off n : Z)
    (rem : list host1x_reloc) : Prop := {
  fv_class : fw_class fw = c;
  fv_off : fw_offset fw = off;
  fv_words : fw_words fw = n;
  fv_cmdbuf : fw_cmdbuf fw = b;
  fv_range : 0 <= off /\ 0 <= n /\ off + n < 2 ^ 30;
  fv_idx : 0 <= fw_reloc fw;
  fv_rem : rem = drop (Z.to_nat (fw_reloc fw)) rs;
  fv_num : fw_num_relocs fw = Z.of_nat (length rem);
  fv_rs : Z.of_nat (length rs) < 2 ^ 32 }.

Lemma fw_view_op rs b fw c off n rem c' reg mask count :
  fw_view rs b fw c off n rem -> fw_view rs b (fw_op fw c' reg mask count) c' off n rem.
Proof. intros []. by split. Qed.

Lemma fw_view_next rs b fw c off n rem :
  fw_view rs b fw c off n rem -> 0 < n -> fw_view rs b (fw_next_word fw) c (off + 1) (n - 1) rem.
Proof.
  intros [] Hn. split; simpl; subst; try done; try lia; apply u32_id; width_lia.
Qed.

Lemma check_register_spec rs b fw c off n rem reg :
  fw_view rs b fw c off n rem ->
  exists ret fw', check_register is_addr_reg rs fw reg = Some (ret, fw') /\
    match consume b [Write c reg off] rem with
    | Some rem' => ret = 0 /\ fw_view rs b fw' c off n rem'
    | None => ret = - EINVAL
    end.
Proof.
  intros Hv. pose proof Hv as []. unfold check_register, consume, addr_write.
  destruct is_addr_reg as [f|]; simpl; [|eauto 6]. rewrite fv_class0.
  destruct (f c reg); [|eauto 6]. rewrite fv_num0.
  destruct rem as [|r rem]; [by eexists _, _|]. simpl length.
  rewrite (proj2 (Z.eqb_neq _ _)) by lia. unfold array_get.
  rewrite (proj2 (Z.ltb_ge _ _)) by lia.
  assert (Hr : rs !! Z.to_nat (fw_reloc fw) = Some r).
  { rewrite <- (Nat.add_0_r (Z.to_nat (fw_reloc fw))), <- lookup_drop, <- fv_rem0. done. }
  rewrite Hr. cbn [mbind option_bind]. unfold check_reloc. rewrite fv_cmdbuf0, fv_off0.
  rewrite u32_id by width_lia. rewrite (Z.mul_comm off).
  destruct (decide (covers b off r)) as [(E1 & E2 & E3)|Hc].
  - rewrite bool_decide_true, E2, Z.eqb_refl, E3 by done. simpl.
    eexists _, _. split_and!; [done|done|]. split; simpl; try done; try lia.
    + rewrite Z2Nat.inj_add by lia. rewrite <- drop_drop, <- fv_rem0. done.
    + rewrite fv_num0. simpl length. pose proof (length_drop rs (Z.to_nat (fw_reloc fw))) as Hl.
      rewrite <- fv_rem0 in Hl. simpl in Hl. rewrite u32_id by width_lia. lia.
  - unfold covers in Hc. case_bool_decide; simpl; [|by eexists _, _].
    destruct (cmdbuf_offset r =? 4 * off) eqn:E2; simpl; [|by eexists _, _].
    destruct (shift r =? 0) eqn:E3; simpl; [|by eexists _, _]. zb. tauto.
Qed.

Lemma check_list_spec rs b regs fw c off n rem :
  fw_view rs b fw c off n rem ->
  exists err fw', check_list rs regs fw = Some (err, fw') /\
    match (if decide (Z.of_nat (length regs) <= n) then consume b (writes_of c off regs) rem else None) with
    | Some rem' => err = 0 /\ fw_view rs b fw' c (off + Z.of_nat (length regs)) (n - Z.of_nat (length regs)) rem'
    | None => err = - EINVAL
    end.
Proof.
  revert fw off n rem. induction regs as [|r regs IH]; intros fw off n rem Hv.
  { simpl. pose proof (fv_range _ _ _ _ _ _ _ Hv). rewrite decide_True by lia.
    eexists _, _. split_and!; [done|done|]. by rewrite Z.add_0_r, Z.sub_0_r. }
  pose proof Hv as []. simpl check_list. rewrite fv_words0.
  destruct (n =? 0) eqn:En; zb.
  { rewrite decide_False by (simpl; lia). by eexists _, _. }
  unfold check_word.
  destruct (check_register_spec rs b fw c off n rem r Hv) as (ret & fw1 & -> & H1).
  cbn [mbind option_bind].
  assert (Hsplit : consume b (writes_of c off (r :: regs)) rem
    = rem' ← consume b [Write c r off] rem; consume b (writes_of c (off + 1) regs) rem').
  { change (writes_of c off (r :: regs)) with ([Write c r off] ++ writes_of c (off + 1) regs).
    by rewrite consume_app. }
  rewrite Hsplit. destruct (consume b [Write c r off] rem) as [rem'|].
  2: { subst ret. simpl. eexists _, _. split; [done|]. by case_decide. }
  destruct H1 as [-> Hv1]. simpl.
  destruct (IH _ _ _ _ (fw_view_next _ _ _ _ _ _ _ Hv1 ltac:(lia))) as (err & fw' & -> & H2).
  eexists _, _. split; [done|]. 
  destruct (decide (Z.of_nat (length regs) <= n - 1));
    [rewrite decide_True by lia|rewrite decide_False by lia; done].
  destruct (consume b _ rem') as [rem2|]; [|done]. destruct H2 as [-> H2]. split; [done|].
  replace (off + Z.of_nat (S (length regs))) with (off + 1 + Z.of_nat (length regs)) by lia.
  replace (n - Z.of_nat (S (length regs))) with (n - 1 - Z.of_nat (length regs)) by lia. done.
Qed.

Lemma land_range x n : 0 <= n -> 0 <= Z.land x (Z.ones n) < 2 ^ n.
Proof. intros. rewrite Z.land_ones by done. apply Z.mod_pos_bound. lia. Qed.

Lemma reg_of_range w : 0 <= reg_of w < 4096.
Proof. apply (land_range _ 12). lia. Qed.

(** A command word: accepted with the writes the decoder gives it, or -EINVAL when
    there are no such writes, or not enough data, or a relocation is missing. *)
Definition op_outcome (rs : list host1x_reloc) (b : ptr) (jc c w off n : Z) (rem : list host1x_reloc)
    (err : Z) (fw' : host1x_firewall) : Prop :=
  (err = 0 /\ exists c1 regs rem', op_writes (class_allowed jc) c w c1 regs /\
     Z.of_nat (length regs) <= n /\ consume b (writes_of c1 off regs) rem = Some rem' /\
     fw_view rs b fw' c1 (off + Z.of_nat (length regs)) (n - Z.of_nat (length regs)) rem') \/
  (err = - EINVAL /\ forall c1 regs, op_writes (class_allowed jc) c w c1 regs ->
     Z.of_nat (length regs) <= n -> consume b (writes_of c1 off regs) rem = None).

Lemma list_outcome rs b jc c w off n rem c1 regs fw :
  op_writes (class_allowed jc) c w c1 regs ->
  (forall c1' regs', op_writes (class_allowed jc) c w c1' regs' -> c1' = c1 /\ regs' = regs) ->
  fw_view rs b fw c1 off n rem ->
  exists err fw', check_list rs regs fw = Some (err, fw') /\ op_outcome rs b jc c w off n rem err fw'.
Proof.
  intros Hop Hdet Hv. destruct (check_list_spec rs b regs fw c1 off n rem Hv) as (err & fw' & -> & H).
  eexists _, _. split; [done|]. case_decide as Hn.
  - destruct (consume b _ rem) as [rem'|] eqn:Ec.
    + destruct H as [-> H]. left. split; [done|]. by exists c1, regs, rem'.
    + right. split; [done|]. intros ?? [-> ->]%Hdet _. done.
  - right. split; [done|]. intros ?? [-> ->]%Hdet ?. lia.
Qed.

Lemma class_allowed_check fw jc :
  (check_class is_valid_class fw jc =? 0) = true <-> class_allowed jc (fw_class fw).
Proof.
  unfold check_class, class_allowed. destruct is_valid_class as [f|].
  - by destruct (f (fw_class fw)).
  - destruct (fw_class fw =? jc) eqn:E; simpl; zb; [done|]. split; done.
Qed.

Lemma check_class_err fw jc :
  check_class is_valid_class fw jc = 0 \/ check_class is_valid_class fw jc = - EINVAL.
Proof.
  unfold check_class. destruct is_valid_class as [f|];
    [destruct (f (fw_class fw))|destruct (fw_class fw =? jc)]; auto.
Qed.

Ltac invert_op :=
  intros ?? Hop'; inversion Hop'; subst; try done; try congruence;
  try match goal with H : _ \/ _ |- _ => destruct H; congruence end.

Lemma validate_op_spec rs b jc fw c w off n rem :
  fw_view rs b fw c off n rem ->
  exists err fw', validate_op is_addr_reg is_valid_class rs jc w fw = Some (err, fw') /\
    op_outcome rs b jc c w off n rem err fw'.
Proof.
  intros Hv. pose proof (fv_class _ _ _ _ _ _ _ Hv) as Hc. pose proof (reg_of_range w) as Hreg.
  pose proof (land_range w 16 ltac:(lia)) as H16. pose proof (land_range w 6 ltac:(lia)) as H6.
  change (Z.ones 16) with 0xffff in H16. change (Z.ones 6) with 0x3f in H6.
  assert (Hbad : opcode_of w <> 0 -> opcode_of w <> 1 -> opcode_of w <> 2 -> opcode_of w <> 3 ->
    opcode_of w <> 4 -> opcode_of w <> 14 -> forall fw', op_outcome rs b jc c w off n rem (- EINVAL) fw').
  { intros. right. split; [done|]. invert_op; tauto. }
  unfold validate_op.
  destruct (opcode_of w) as [|p|p] eqn:Eo;
    [|do 4 (try destruct p as [p|p|]);
      try (eexists _, _; split; [done|]; by apply Hbad)
     |eexists _, _; split; [done|]; by apply Hbad].
  - set (fw1 := fw_op fw (class_of w) (reg_of w) (Z.land w 63) 0).
    assert (Hv1 : fw_view rs b fw1 (class_of w) off n rem) by (by eapply fw_view_op).
    pose proof (class_allowed_check fw1 jc) as Hcls. simpl in Hcls.
    destruct (check_class _ fw1 jc =? 0) eqn:Ecls.
    + unfold check_mask, fw1. cbn [fw_op fw_mask fw_reg]. rewrite (check_mask_list _ _ 6) by lia.
      eapply list_outcome; [by apply op_setclass; [|apply Hcls]| |done]. invert_op.
    + eexists _, _. split; [done|]. right. split.
      * destruct (check_class_err fw1 jc) as [E|E]; [by rewrite E in Ecls|done].
      * invert_op. assert (false = true) by (by apply Hcls). done.
  - unfold check_mask. cbn [fw_op fw_mask fw_reg]. rewrite (check_mask_list _ _ 16) by lia.
    eapply list_outcome; [by apply op_mask| |rewrite <- Hc; by eapply fw_view_op]; rewrite ?Hc.
    invert_op.
  - eexists _, _. split; [done|]. left. split; [done|]. exists c, [], rem. split_and!.
    + apply op_imm_extend. tauto.
    + pose proof (fv_range _ _ _ _ _ _ _ Hv). simpl. lia.
    + done.
    + simpl. rewrite Z.add_0_r, Z.sub_0_r. rewrite Hc. by eapply fw_view_op.
  - eexists _, _. split; [done|]. left. split; [done|]. exists c, [], rem. split_and!.
    + apply op_imm_extend. tauto.
    + pose proof (fv_range _ _ _ _ _ _ _ Hv). simpl. lia.
    + done.
    + simpl. rewrite Z.add_0_r, Z.sub_0_r. rewrite Hc. by eapply fw_view_op.
  - unfold check_nonincr. cbn [fw_op fw_count fw_reg]. rewrite check_nonincr_list.
    eapply list_outcome; [by apply op_nonincr| |rewrite <- Hc; by eapply fw_view_op]; rewrite ?Hc.
    invert_op.
  - unfold check_incr. cbn [fw_op fw_count fw_reg]. rewrite check_incr_list by lia.
    eapply list_outcome; [by apply op_incr| |rewrite <- Hc; by eapply fw_view_op]; rewrite ?Hc.
    invert_op.
Qed.

(** * A whole gather *)
Definition stream_outcome (rs : list host1x_reloc) (b : ptr) (jc c off : Z) (ws : list Z)
    (rem : list host1x_reloc) (err : Z) (fw' : host1x_firewall) : Prop :=
  (err = 0 /\ exists l c' rem', stream (class_allowed jc) c off ws l c' /\
     consume b l rem = Some rem' /\ fw_view rs b fw' c' (off + Z.of_nat (length ws)) 0 rem') \/
  (err = - EINVAL /\ forall l c', stream (class_allowed jc) c off ws l c' -> consume b l rem = None).

(** A stream from a command word on: its parts. *)
Lemma stream_cons_inv allowed c off w ws l c' :
  stream allowed c off (w :: ws) l c' ->
  exists c1 regs l', op_writes allowed c w c1 regs /\ (length regs <= length ws)%nat /\
    l = writes_of c1 (off + 1) regs ++ l' /\
    stream allowed c1 (off + 1 + Z.of_nat (length regs)) (drop (length regs) ws) l' c'.
Proof.
  intros H. inversion H as [|? ? ? data rest c1 regs l' ? Hop Hlen Hs]; subst.
  exists c1, regs, l'. rewrite length_app. rewrite <- Hlen at 3. rewrite drop_app_length.
  split_and!; try done. lia.
Qed.

Lemma consume_none_app b l1 l2 rs : consume b l1 rs = None -> consume b (l1 ++ l2) rs = None.
Proof. intros E. by rewrite consume_app, E. Qed.

Lemma array_get_drop {A} (mem : list A) i w ws :
  0 <= i -> drop (Z.to_nat i) mem = w :: ws -> array_get mem i = Some w.
Proof.
  intros Hi E. unfold array_get. rewrite (proj2 (Z.ltb_ge _ _)) by lia.
  rewrite <- (Nat.add_0_r (Z.to_nat i)), <- lookup_drop, E. done.
Qed.

Lemma validate_loop_spec rs b jc mem cb fuel fw c off ws rest rem :
  0 <= cb -> (length ws <= fuel)%nat ->
  drop (Z.to_nat (cb + off)) mem = ws ++ rest ->
  fw_view rs b fw c off (Z.of_nat (length ws)) rem ->
  exists err fw', validate_loop is_addr_reg is_valid_class rs mem cb jc fuel fw = Some (err, fw') /\
    stream_outcome rs b jc c off ws rem err fw'.
Proof.
  intros Hcb. revert fw c off ws rem. induction fuel as [|fuel IH]; intros fw c off ws rem Hf Hmem Hv.
  all: pose proof (fv_words _ _ _ _ _ _ _ Hv) as Hw; pose proof (fv_range _ _ _ _ _ _ _ Hv) as Hr.
  all: cbn [validate_loop]; rewrite Hw; destruct ws as [|w ws]; cbn [length] in *; try lia.
  1, 2: change (Z.of_nat 0 =? 0) with true; eexists _, _; split; [done|]; left; split; [done|];
    exists [], c, rem; split; [constructor|]; split; [done|];
    cbn [length]; by rewrite Z.add_0_r.
  rewrite (proj2 (Z.eqb_neq _ _)) by lia. rewrite (fv_off _ _ _ _ _ _ _ Hv).
  rewrite (array_get_drop mem (cb + off) w (ws ++ rest)) by (done || lia). cbn [mbind option_bind].
  assert (Hlen : Z.of_nat (S (length ws)) = 1 + Z.of_nat (length ws)) by lia.
  rewrite Hlen in *.
  pose proof (fw_view_next _ _ _ _ _ _ _ Hv ltac:(lia)) as Hv1.
  destruct (validate_op_spec rs b jc _ c w _ _ rem Hv1) as (err & fw' & -> & Hop).
  cbn [mbind option_bind]. destruct Hop as [(-> & c1 & regs & rem' & Hop & Hn & Hcons & Hv2)|(-> & Hno)].
  - change (negb (0 =? 0)) with false. cbv iota.
    assert (Hn' : (length regs <= length ws)%nat) by lia.
    destruct (IH fw' c1 (off + 1 + Z.of_nat (length regs)) (drop (length regs) ws) rem')
      as (err & fw2 & -> & Hout).
    + rewrite length_drop. lia.
    + replace (Z.to_nat (cb + (off + 1 + Z.of_nat (length regs))))
        with (Z.to_nat (cb + off) + (1 + length regs))%nat by lia.
      rewrite <- drop_drop, Hmem. simpl. by rewrite drop_app_le.
    + rewrite length_drop. replace (Z.of_nat (length ws - length regs))
        with (1 + Z.of_nat (length ws) - 1 - Z.of_nat (length regs)) by lia. done.
    + eexists _, _. split; [done|].
      destruct Hout as [(-> & l & c' & rem2 & Hs & Hc2 & Hv3)|(-> & Hno)].
      * left. split; [done|]. exists (writes_of c1 (off + 1) regs ++ l), c', rem2. split_and!.
        -- rewrite <- (take_drop (length regs) ws). econstructor; [done| |done].
           rewrite length_take. lia.
        -- by rewrite consume_app, Hcons.
        -- rewrite length_drop in Hv3.
           replace (off + Z.of_nat (length (w :: ws)))
             with (off + 1 + Z.of_nat (length regs) + Z.of_nat (length ws - length regs)) by (simpl length; lia).
           done.
      * right. split; [done|]. intros l c' (c1' & regs' & l' & Hop' & Hle & -> & Hs)%stream_cons_inv.
        destruct (op_writes_det _ _ _ _ _ _ _ Hop Hop') as [-> ->].
        rewrite consume_app, Hcons. by eapply Hno.
  - simpl. eexists _, _. split; [done|]. right. split; [done|].
    intros l c' (c1' & regs' & l' & Hop' & Hle & -> & Hs)%stream_cons_inv.
    apply consume_none_app. eapply Hno; [done|lia].
Qed.

(** Between gathers only the class and the unused relocations matter. *)
Record fw_ready (rs : list host1x_reloc) (fw : host1x_firewall) (c : Z) (rem : list host1x_reloc) : Prop := {
  fr_class : fw_class fw = c;
  fr_idx : 0 <= fw_reloc fw;
  fr_rem : rem = drop (Z.to_nat (fw_reloc fw)) rs;
  fr_num : fw_num_relocs fw = Z.of_nat (length rem);
  fr_rs : Z.of_nat (length rs) < 2 ^ 32 }.

Lemma fw_view_ready rs b fw c off n rem : fw_view rs b fw c off n rem -> fw_ready rs fw c rem.
Proof. intros []. by split. Qed.

Lemma fw_ready_start rs fw c rem n b :
  fw_ready rs fw c rem -> 0 <= n < 2 ^ 30 -> fw_view rs b (fw_start fw n b) c 0 n rem.
Proof. intros [] Hn. split; simpl; try done; lia. Qed.

(** [validate] on a gather inside the copy reads only the gather's words. *)
Lemma validate_spec job fw b c rem ws rest off base0 handled0 :
  fw_ready (relocs job) fw c rem -> 0 <= off -> Z.of_nat (length ws) < 2 ^ 30 ->
  drop (Z.to_nat (off / 4)) (gather_copy_mapped job) = ws ++ rest ->
  let g := Gather (Z.of_nat (length ws)) base0 b off handled0 in
  exists err fw', validate is_addr_reg is_valid_class job fw g = Some (err, fw') /\
    stream_outcome (relocs job) b c c 0 ws rem err fw'.
Proof.
  intros Hv Ho Hn Hmem. simpl. unfold validate. cbn [words bo offset].
  rewrite (fr_class _ _ _ _ Hv). apply validate_loop_spec with (rest := rest).
  - apply Z.div_pos; lia.
  - lia.
  - by rewrite Z.add_0_r.
  - apply fw_ready_start; [done|lia].
Qed.

(** * All gathers of a job *)
Definition gather_words (mem : bo_mem) (g : host1x_job_gather) : option (list Z) :=
  content ← mem !! bo g;
  bytes ← bytes_at content (offset g) (gather_bytes g);
  Some (le_words bytes).

(** The gathers' streams in order, each starting in the class the one before ended
    in, which is then the only allowed one when there is no is_valid_class. *)
Inductive job_stream (mem : bo_mem) : list host1x_job_cmd -> Z -> list host1x_reloc ->
    list host1x_reloc -> Prop :=
  | js_nil c rem : job_stream mem [] c rem rem
  | js_gather g cs c ws l c' rem rem1 rem2 :
      gather_words mem g = Some ws -> stream (class_allowed c) c 0 ws l c' ->
      consume (bo g) l rem = Some rem1 -> job_stream mem cs c' rem1 rem2 ->
      job_stream mem (HOST1X_JOB_CMD_GATHER g :: cs) c rem rem2
  | js_wait id th nc r cs c rem rem2 : job_stream mem cs c rem rem2 ->
      job_stream mem (HOST1X_JOB_CMD_WAIT id th nc r :: cs) c rem rem2
  | js_write reg v cs c rem rem2 : job_stream mem cs c rem rem2 ->
      job_stream mem (HOST1X_JOB_CMD_REG_WRITE reg v :: cs) c rem rem2.

(** The words of the copy, and the commands as the copy leaves them. *)
Fixpoint copied (mem : bo_mem) (cs : list host1x_job_cmd) : list Z :=
  match cs with
  | [] => []
  | HOST1X_JOB_CMD_GATHER g :: cs => default [] (gather_words mem g) ++ copied mem cs
  | _ :: cs => copied mem cs
  end.
Fixpoint placed (addr off : Z) (cs : list host1x_job_cmd) : list host1x_job_cmd :=
  match cs with
  | [] => []
  | HOST1X_JOB_CMD_GATHER g :: cs =>
      HOST1X_JOB_CMD_GATHER (Gather (words g) addr (bo g) off (handled g))
      :: placed addr (off + gather_bytes g) cs
  | c :: cs => c :: placed addr off cs
  end.

(** Every gather lies inside its buffer object. *)
Definition gathers_inside (mem : bo_mem) (cs : list host1x_job_cmd) : Prop :=
  Forall (fun c => match c with
                   | HOST1X_JOB_CMD_GATHER g => 0 <= words g /\ is_Some (gather_words mem g)
                   | _ => True
                   end) cs.

Lemma length_le_words bytes : (4 * length (le_words bytes) <= length bytes < 4 * length (le_words bytes) + 4)%nat.
Proof.
  enough (H : forall n bs, (length bs <= n)%nat ->
    (4 * length (le_words bs) <= length bs < 4 * length (le_words bs) + 4)%nat) by eauto.
  induction n as [|n IH]; intros bs Hn.
  - destruct bs; simpl in *; lia.
  - destruct bs as [|b0 [|b1 [|b2 [|b3 bs]]]]; simpl in *; try lia.
    specialize (IH bs ltac:(lia)). lia.
Qed.

Lemma gather_words_length mem g ws :
  gather_words mem g = Some ws -> 0 <= words g -> Z.of_nat (length ws) = words g.
Proof.
  unfold gather_words. intros (content & _ & (bytes & Hb & E)%bind_Some)%bind_Some Hn.
  injection E as <-. unfold bytes_at in Hb. case_if; [|done]. injection Hb as <-.
  unfold gather_bytes in *.
  pose proof (length_le_words (take (Z.to_nat (words g * 4)) (drop (Z.to_nat (offset g)) content))) as Hl.
  rewrite length_take, length_drop in Hl. lia.
Qed.

Lemma gathers_inside_cons mem c cs : gathers_inside mem (c :: cs) ->
  gathers_inside mem cs /\
  match c with HOST1X_JOB_CMD_GATHER g => 0 <= words g /\ is_Some (gather_words mem g) | _ => True end.
Proof. unfold gathers_inside. rewrite Forall_cons. tauto. Qed.

Lemma stream_det allowed c off ws l c' l2 c2 :
  stream allowed c off ws l c' -> stream allowed c off ws l2 c2 -> l = l2 /\ c' = c2.
Proof.
  intros H. revert l2 c2. induction H as [c off|c off w data rest c1 regs l c' Hop Hlen Hs IH];
    intros l2 c2 H2.
  - by inversion H2.
  - apply stream_cons_inv in H2 as (c1' & regs' & l' & Hop' & _ & -> & Hs').
    destruct (op_writes_det _ _ _ _ _ _ _ Hop Hop') as [-> ->].
    rewrite <- Hlen, drop_app_length, Hlen in Hs'.
    destruct (IH _ _ Hs') as [-> ->]. done.
Qed.

Lemma job_stream_det mem cs c rem r1 r2 :
  job_stream mem cs c rem r1 -> job_stream mem cs c rem r2 -> r1 = r2.
Proof.
  intros H. revert r2. induction H as [|g cs c ws l c' rem rem1 rem2 Hg Hs Hc Hj IH| |];
    intros r2 H2; inversion H2; subst; auto. simplify_eq.
  match goal with H : stream _ _ _ _ _ _ |- _ => destruct (stream_det _ _ _ _ _ _ _ _ Hs H) as [<- <-] end.
  simplify_eq. auto.
Qed.

(** The state of the job while the gathers are copied. *)
Definition copying (job : host1x_job) (at_word : nat) (ws : list Z) (cs : list host1x_job_cmd) :=
  set_cmds (set_copy job (gather_copy job) (splice at_word ws (gather_copy_mapped job))
              (gather_copy_size job)) cs.

Definition loop_outcome (mem : bo_mem) (job : host1x_job) (before todo : list host1x_job_cmd)
    (off c : Z) (rem : list host1x_reloc) (err : Z) (fw' : host1x_firewall) (job' : host1x_job) : Prop :=
  (err = 0 /\ exists c' rem', job_stream mem todo c rem rem' /\ fw_ready (relocs job) fw' c' rem' /\
     job' = copying job (Z.to_nat (off / 4)) (copied mem todo)
              (before ++ placed (gather_copy job) off todo)) \/
  (err = - EINVAL /\ forall rem', ~ job_stream mem todo c rem rem').

Lemma splice_nil {A} i (q : list A) : splice i [] q = q.
Proof. unfold splice. simpl. by rewrite Nat.add_0_r, take_drop. Qed.

Lemma copying_nil job i : copying job i [] (cmds job) = job.
Proof. unfold copying. rewrite splice_nil. by destruct job. Qed.

Lemma copy_loop_skip mem cmd todo before off c rem job err fw' job' :
  (forall rem', job_stream mem (cmd :: todo) c rem rem' <-> job_stream mem todo c rem rem') ->
  copied mem (cmd :: todo) = copied mem todo ->
  placed (gather_copy job) off (cmd :: todo) = cmd :: placed (gather_copy job) off todo ->
  loop_outcome mem job (before ++ [cmd]) todo off c rem err fw' job' ->
  loop_outcome mem job before (cmd :: todo) off c rem err fw' job'.
Proof.
  intros Hs Hc Hp [(-> & c' & rem' & H1 & H2 & H3)|(-> & Hno)].
  - left. split; [done|]. exists c', rem'. rewrite Hc, Hp. rewrite <- app_assoc in H3.
    split_and!; try done. by apply Hs.
  - right. split; [done|]. intros rem' H. by apply (Hno rem'), Hs.
Qed.

Lemma copy_loop_spec mem todo before off fw job c rem :
  cmds job = before ++ todo -> gathers_inside mem todo -> fw_ready (relocs job) fw c rem ->
  0 <= off -> off mod 4 = 0 -> off < 2 ^ 32 ->
  off / 4 + Z.of_nat (length (copied mem todo)) = Z.of_nat (length (gather_copy_mapped job)) ->
  Z.of_nat (length (gather_copy_mapped job)) < 2 ^ 30 ->
  exists err fw' job', copy_loop is_addr_reg is_valid_class mem (length todo) (length before) off fw job
      = Some (err, fw', job') /\ loop_outcome mem job before todo off c rem err fw' job'.
Proof.
  revert before off fw job c rem. induction todo as [|cmd todo IH];
    intros before off fw job c rem Hcmds Hin Hfw Ho Hm Hu Hlen Hsz.
  { simpl. eexists _, _, _. split; [done|]. left. split; [done|]. exists c, rem.
    split; [constructor|]. split; [done|]. simpl. rewrite app_nil_r in *. by rewrite <- Hcmds, copying_nil. }
  apply gathers_inside_cons in Hin as [Hin Hg]. cbn [length copy_loop].
  rewrite Hcmds, list_lookup_middle by done. cbn [mbind option_bind].
  destruct cmd as [g|id th nc r|reg v].
  2, 3: assert (Hcmds' : cmds job = (before ++ [_]) ++ todo) by (rewrite Hcmds, <- app_assoc; done);
    destruct (IH _ off fw job c rem Hcmds' Hin Hfw Ho Hm Hu Hlen Hsz) as (err & fw' & job' & E & Hout);
    rewrite length_app, Nat.add_1_r in E; eexists _, _, _; split; [exact E|];
    eapply copy_loop_skip; [|done|done|exact Hout];
    intros rem'; split; [by inversion 1|by constructor].
  destruct Hg as [Hw [ws Hws]]. pose proof (gather_words_length _ _ _ Hws Hw) as Hlws.
  pose proof Hws as Hws2. unfold gather_words in Hws.
  apply bind_Some in Hws as (content & E1 & (bytes & E2 & E)%bind_Some). injection E as E.
  rewrite E1. cbn [mbind option_bind]. rewrite E2. cbn [mbind option_bind]. rewrite E. simpl copied in Hlen. rewrite Hws2 in Hlen. simpl in Hlen.
  rewrite length_app in Hlen. rewrite (proj2 (Z.leb_le _ _)) by lia. cbn [mbind option_bind].
  rewrite (u32_id off) by width_lia.
  set (i4 := Z.to_nat (off / 4)) in *.
  assert (Hi4 : 0 <= off / 4) by (apply Z.div_pos; lia).
  set (g' := Gather (words g) (gather_copy job) (bo g) off (handled g)).
  set (job1 := set_cmds _ _).
  assert (Hl1 : length (gather_copy_mapped job1) = length (gather_copy_mapped job)).
  { unfold job1. simpl. apply length_splice. lia. }
  destruct (validate_spec job1 fw (bo g) c rem ws
              (drop (i4 + length ws) (gather_copy_mapped job)) off (gather_copy job) (handled g))
    as (err & fw1 & Hval & Hout); [done|done|lia| |].
  { unfold job1. simpl. apply drop_splice. lia. }
  rewrite Hlws in Hval. fold g' in Hval. rewrite Hval. cbn [mbind option_bind].
  destruct Hout as [(-> & l & c1 & rem1 & Hs & Hc & Hv1)|(-> & Hno)].
  2: { simpl. eexists _, _, _. split; [done|]. right. split; [done|].
       intros rem' H. inversion H as [|? ? ? ws' l' c'' ? rem1 ? Hws' Hs' Hc'| |]; subst.
       rewrite Hws2 in Hws'. simplify_eq. by rewrite (Hno _ _ Hs') in Hc'. }
  change (negb (0 =? 0)) with false. cbv iota. unfold gather_bytes.
  assert (Hoff : off = 4 * (off / 4)) by (pose proof (Z.div_mod off 4); lia).
  assert (Hnext : (off + words g * 4) / 4 = off / 4 + words g).
  { rewrite Z.div_add by lia. done. }
  change (words g') with (words g). rewrite (u64_id (off + _)) by (unfold is_u64; lia).
  assert (Hcmds1 : cmds job1 = (before ++ [HOST1X_JOB_CMD_GATHER g']) ++ todo).
  { unfold job1. simpl. rewrite <- app_assoc, insert_app_r_alt, Nat.sub_diag by lia. done. }
  destruct (IH (before ++ [HOST1X_JOB_CMD_GATHER g']) (off + words g * 4) fw1 job1 c1 rem1)
    as (err & fw2 & job2 & E3 & Hout); try done.
  { by eapply fw_view_ready. }
  { lia. }
  { rewrite Z.mod_add by lia. done. }
  { lia. }
  { rewrite Hl1, Hnext. lia. }
  { by rewrite Hl1. }
  rewrite length_app, Nat.add_1_r in E3. eexists _, _, _. split; [exact E3|].
  destruct Hout as [(-> & c' & rem' & Hs' & Hr' & ->)|(-> & Hno)].
  - left. split; [done|]. exists c', rem'. split_and!.
    + by econstructor.
    + done.
    + unfold copying, job1. simpl. rewrite Hws2. simpl. fold i4.
      rewrite Hnext. replace (Z.to_nat (off / 4 + words g)) with (i4 + length ws)%nat by lia.
      rewrite splice_splice by lia. rewrite <- app_assoc. done.
  - right. split; [done|]. intros rem' H.
    inversion H as [|? ? ? ws' l' c'' ? rem1' ? Hws' Hs' Hc' Hj| |]; subst.
    rewrite Hws2 in Hws'. simplify_eq. destruct (stream_det _ _ _ _ _ _ _ _ Hs Hs') as [-> ->].
    rewrite Hc in Hc'. simplify_eq. by apply (Hno rem').
Qed.

Lemma gathers_size_spec mem cs :
  gathers_inside mem cs -> Z.of_nat (length (copied mem cs)) < 2 ^ 30 ->
  gathers_size cs = 4 * Z.of_nat (length (copied mem cs)).
Proof.
  intros Hin Hsz. unfold gathers_size.
  assert (H : forall cs acc, gathers_inside mem cs -> 0 <= acc ->
    acc + 4 * Z.of_nat (length (copied mem cs)) < 2 ^ 32 ->
    foldl (fun size c => match c with
                         | HOST1X_JOB_CMD_GATHER g => u64 (size + gather_bytes g)
                         | _ => size
                         end) acc cs = acc + 4 * Z.of_nat (length (copied mem cs))).
  { clear. induction cs as [|c cs IH]; intros acc Hin Ha Hs; [simpl; lia|].
    apply gathers_inside_cons in Hin as [Hin Hg]. simpl foldl.
    destruct c as [g|id th nc r|reg v]; [|by apply IH|by apply IH].
    destruct Hg as [Hw [ws Hws]]. pose proof (gather_words_length _ _ _ Hws Hw) as Hl.
    simpl copied in *. rewrite Hws in *. simpl in *. rewrite length_app in *. unfold gather_bytes.
    rewrite u64_id by (unfold is_u64; lia). rewrite IH by (done || lia). lia. }
  rewrite H by (done || lia). lia.
Qed.

(** C3.  The firewall lets a job pass exactly when it is harmless, and what passed is
    what runs.  For gathers inside their buffers, [copy_gathers] reads no word
    outside them and terminates; it returns -ENOMEM when both attempts to allocate
    the copy fail, and otherwise 0 or -EINVAL.  It returns 0 if and only if the
    reference decoder accepts the gathers one after the other, every write to an
    address register is covered by the next relocation, and no relocation is left
    over.  Then the copy is the concatenation of the checked words, and each
    gather's base and offset name its place there, whatever the memory held before. *)
Theorem copy_gathers_correct mem dma_alloc_wc stale job :
  gathers_inside mem (cmds job) -> Z.of_nat (length (relocs job)) < 2 ^ 32 ->
  Z.of_nat (length (copied mem (cmds job))) < 2 ^ 30 ->
  (forall n, 0 <= n -> Z.of_nat (length (stale n)) = n) ->
  exists err job',
    copy_gathers is_addr_reg is_valid_class mem dma_alloc_wc stale job = Some (err, job') /\
    (err = - ENOMEM /\ dma_alloc_wc false = None /\ dma_alloc_wc true = None /\ job' = job \/
     err = 0 /\ job_stream mem (cmds job) (class job) (relocs job) [] /\
       (exists addr, (dma_alloc_wc false = Some addr \/ dma_alloc_wc true = Some addr) /\
        let ws := copied mem (cmds job) in
        job' = set_cmds (set_copy job addr ws (4 * Z.of_nat (length ws))) (placed addr 0 (cmds job))) \/
     err = - EINVAL /\ ~ job_stream mem (cmds job) (class job) (relocs job) []).
Proof.
  intros Hin Hrs Hsz Hst. unfold copy_gathers.
  destruct (match dma_alloc_wc false with Some a => Some a | None => dma_alloc_wc true end)
    as [addr|] eqn:Ea.
  2: { eexists _, _. split; [done|]. left. by destruct (dma_alloc_wc false). }
  assert (Haddr : dma_alloc_wc false = Some addr \/ dma_alloc_wc true = Some addr)
    by (destruct (dma_alloc_wc false); auto).
  rewrite (gathers_size_spec mem) by done. rewrite Z.mul_comm, Z.div_mul by lia.
  set (job1 := set_copy _ _ _ _). set (fw := Fw _ _ _ _ _ _ _ _ _).
  assert (Hlen1 : length (gather_copy_mapped job1) = length (copied mem (cmds job))).
  { apply Nat2Z.inj. simpl. apply Hst. lia. }
  assert (Hfw : fw_ready (relocs job1) fw (class job) (relocs job)) by (split; done).
  destruct (copy_loop_spec mem (cmds job) [] 0 fw job1 (class job) (relocs job))
    as (err & fw' & job' & E & Hout); try done; [rewrite Hlen1; change (0 / 4) with 0; lia|lia|].
  change (copy_loop is_addr_reg is_valid_class mem (length (cmds job1)) 0 0 fw job1
    = Some (err, fw', job')) in E. rewrite E. cbn [mbind option_bind].
  destruct Hout as [(-> & c' & rem' & Hs & Hr & ->)|(-> & Hno)].
  2: { simpl. eexists _, _. split; [done|]. right. right. split; [done|]. apply Hno. }
  simpl. destruct rem' as [|r rem'].
  - rewrite (fr_num _ _ _ _ Hr). simpl. eexists _, _. split; [done|]. right. left.
    split_and!; try done. exists addr. split; [done|]. unfold copying. simpl.
    rewrite Z.mul_comm. do 2 f_equal. unfold splice. simpl in *.
    rewrite drop_ge by lia. by rewrite app_nil_r.
  - rewrite (fr_num _ _ _ _ Hr), (proj2 (Z.eqb_neq _ _)) by (simpl; lia). simpl.
    eexists _, _. split; [done|]. right. right. split; [done|]. intros Hs2.
    assert (Hdet := job_stream_det _ _ _ _ _ _ Hs Hs2). done.
Qed.
End rules.
