(* ===== verification/Host1xPatch.v ===== *)
(** What host1x_job_pin does to the checked copy: concrete jobs, and the two ways in
    which the addresses that reach the hardware differ from the ones checked or
    mapped. *)
From S2P Require Export Host1xFirewall.

(** * A small device: register 5 takes an address *)
Definition demo_addr_reg : option (Z -> Z -> bool) := Some (fun _ reg => reg =? 5).

(** "write one word to register 1" and "to register 5". *)
Definition demo_op1 : list Z := [1; 0; 1; 0x20].
Definition demo_op5 : list Z := [1; 0; 5; 0x20].
Definition demo_bo : list Z := demo_op1 ++ [0x11; 0; 0; 0] ++ demo_op5 ++ [0x99; 0; 0; 0].
Definition demo_mem : bo_mem := {[ 7%positive := demo_bo ]}.
Definition demo_reloc : host1x_reloc := Reloc 7 4 9 0x40 0 HOST1X_RELOC_READ.
Definition demo_gather (words off : Z) := HOST1X_JOB_CMD_GATHER (Gather words 0 7 off false).
Definition demo_job (cs : list host1x_job_cmd) (rs : list host1x_reloc) : host1x_job :=
  Job (Z.of_nat (length cs)) cs rs [] (replicate (length rs) 0) 0 [] 0 1 true.

(** host1x_job_pin with the target mapped at 0x1000. *)
Definition demo_pin (job : host1x_job) :=
  host1x_job_pin (fun _ => true) (fun _ b _ => inr (Mapping b 0x1000 0x100 1))
    (fun _ b => inr (Mapping b 0x2000 0x100 1)) false (fun _ => 0) (fun _ _ => None) (fun _ _ => 0)
    demo_addr_reg None (fun _ => Some 0x8000) (fun n => replicate (Z.to_nat n) 0) (fun _ => true)
    job demo_mem.

Definition pinned_copy (r : option (Z * host1x_job * bo_mem * list pin_event)) : option (Z * list Z) :=
  '(err, job, _, _) ← r; Some (err, gather_copy_mapped job).

(** One gather, one relocation: the checked address word is patched. *)
Example demo_pin_one :
  pinned_copy (demo_pin (demo_job [demo_gather 2 8] [demo_reloc])) = Some (0, [0x20050001; 0x1040]).
Proof. vm_compute. reflexivity. Qed.

(** Without the relocation the job is refused. *)
Example demo_pin_refused :
  fst <$> pinned_copy (demo_pin (demo_job [demo_gather 2 8] [])) = Some (- EINVAL).
Proof. vm_compute. reflexivity. Qed.

(** Two gathers from one buffer get past the firewall with an address of the
    submitter's choice.  Relocations are checked at their offset in the gather they
    are used in, but [do_relocs] runs only for the first gather of a buffer and
    patches at that gather's place.  For the job of two such gathers with one
    relocation, host1x_job_pin succeeds, overwrites the checked data word of the
    first gather and leaves the word for address register 5 as it was submitted. *)
Theorem shared_buffer_bypass :
  let job := demo_job [demo_gather 2 0; demo_gather 2 8] [demo_reloc] in
  pinned_copy (demo_pin job) = Some (0, [0x20010001; 0x1040; 0x20050001; 0x99]).
Proof. vm_compute. reflexivity. Qed.

(** * Waits before gathers, without the firewall *)

(** A wait and two gathers from buffers 3 and 4, mapped at 0x3000 and 0x4000. *)
Definition demo_plain : host1x_job :=
  Job 3 [HOST1X_JOB_CMD_WAIT 0 0 0 false;
         HOST1X_JOB_CMD_GATHER (Gather 1 0 3 0 false); HOST1X_JOB_CMD_GATHER (Gather 1 0 4 0 false)]
    [] [] [0; 0; 0] 0 [] 0 1 false.

Definition pinned_bases (r : option (Z * host1x_job * bo_mem * list pin_event)) : option (list Z) :=
  '(_, job, _, _) ← r;
  Some (omap (fun c => match c with HOST1X_JOB_CMD_GATHER g => Some (base g) | _ => None end) (cmds job)).

(** A wait before two gathers sends the wrong commands to the hardware.
    [gather_addr_phys] is indexed by command and overlaps [addr_phys], which is
    indexed by mapping: with a wait in front, pinning the second gather overwrites
    the first one's address, and host1x_job_pin gives both gathers the base of
    the second buffer. *)
Theorem wait_shifts_gather_address :
  pinned_bases (host1x_job_pin (fun _ => true) (fun _ b _ => inr (Mapping b 0 0 1))
    (fun _ b => inr (Mapping b (if decide (b = 3%positive) then 0x3000 else 0x4000) 0x100 1))
    false (fun _ => 0) (fun _ _ => None) (fun _ _ => 0)
    None None (fun _ => None) (fun _ => []) (fun _ => true) demo_plain ∅)
  = Some [0x4000; 0x4000].
Proof. vm_compute. reflexivity. Qed.

(** * Instances *)
Lemma demo_gathers_inside : gathers_inside demo_mem [demo_gather 2 8].
Proof. repeat constructor; done. Defined.

Lemma demo_stream :
  job_stream demo_addr_reg None demo_mem [demo_gather 2 8] 1 [demo_reloc] [].
Proof.
  eapply (js_gather _ _ _ _ _ _ [0x20050001; 0x99] [Write 1 5 1] 1); [done| | |constructor].
  - apply (stream_op _ 1 0 0x20050001 [0x99] [] 1 [5] [] 1); [by apply op_nonincr|done|constructor].
  - done.
Defined.

Lemma copy_gathers_witness :
  exists err job',
    copy_gathers demo_addr_reg None demo_mem (fun _ => Some 0x8000)
      (fun n => replicate (Z.to_nat n) 0) (demo_job [demo_gather 2 8] [demo_reloc]) = Some (err, job') /\
    err = 0 /\ gather_copy_mapped job' = [0x20050001; 0x99].
Proof.
  destruct (copy_gathers_correct demo_addr_reg None demo_mem (fun _ => Some 0x8000)
    (fun n => replicate (Z.to_nat n) 0) (demo_job [demo_gather 2 8] [demo_reloc]))
    as (err & job' & E & H); [apply demo_gathers_inside|done|done| |].
  - intros n Hn. rewrite length_replicate. lia.
  - exists err, job'. split; [exact E|].
    destruct H as [(_ & H & _)|[(-> & _ & addr & _ & ->)|(_ & [])]]; [done|by split|apply demo_stream].
Defined.
