(* ===== verification/Host1xPinned.v ===== *)
(** When the gathers of a job come from different buffers, host1x_job_pin leaves in
    the copy exactly what was checked, with every address word, and nothing
    else, replaced by the address of the buffer its relocation names. *)
From S2P Require Export Host1xPatch.

(** * Storing at several positions *)
Definition store_all {A} (ps : list (nat * A)) (q : list A) : list A :=
  foldl (fun q p => <[p.1 := p.2]> q) q ps.

Lemma length_store_all {A} (ps : list (nat * A)) q : length (store_all ps q) = length q.
Proof.
  revert q. induction ps as [|p ps IH]; intros q; [done|]. simpl. rewrite IH. apply length_insert.
Qed.

Lemma store_all_notin {A} (ps : list (nat * A)) q k :
  k ∉ ps.*1 -> store_all ps q !! k = q !! k.
Proof.
  revert q. induction ps as [|p ps IH]; intros q Hk; [done|]. simpl.
  rewrite fmap_cons, not_elem_of_cons in Hk. destruct Hk.
  rewrite IH by done. by apply list_lookup_insert_ne.
Qed.

Lemma store_all_in {A} (ps : list (nat * A)) q k v :
  (k, v) ∈ ps -> (forall v', (k, v') ∈ ps -> v' = v) -> (k < length q)%nat ->
  store_all ps q !! k = Some v.
Proof.
  revert q. induction ps as [|[k' v'] ps IH]; intros q Hin Hall Hk; [by apply not_elem_of_nil in Hin|].
  simpl. destruct (decide (k ∈ ps.*1)) as [Hk'|Hk'].
  - apply list_elem_of_fmap in Hk' as ([k2 v2] & Heq & Hk2). simpl in Heq. subst k2.
    rewrite (Hall v2) in Hk2 by (by right).
    apply IH; [done| |by rewrite length_insert].
    intros v3 H3. apply Hall. by right.
  - change (foldl (fun q p => <[p.1 := p.2]> q)) with (fun q (ps : list (nat * A)) => store_all ps q).
    cbv beta. rewrite store_all_notin by done.
    apply elem_of_cons in Hin as [Heq|Hin].
    + simplify_eq. by apply list_lookup_insert_eq.
    + destruct Hk'. apply list_elem_of_fmap. by exists (k, v).
Qed.

Lemma drop_S_mid {A} (l1 l2 : list A) x : drop (S (length l1)) (l1 ++ x :: l2) = l2.
Proof. induction l1; [done|]. simpl. done. Qed.

Section pinned.
Variables (is_addr_reg : option (Z -> Z -> bool)) (is_valid_class : option (Z -> bool)).

(** * The words that hold addresses, by the decoder alone *)
Definition addr_words_of (o : nat) (l : list write) : list nat :=
  (fun w => (o + Z.to_nat (w_word w))%nat) <$> filter (fun w => addr_write is_addr_reg w = true) l.

(** [o]: the word of the copy at which the next gather starts. *)
Inductive addr_words (mem : bo_mem) : list host1x_job_cmd -> Z -> nat -> list nat -> Prop :=
  | aw_nil c o : addr_words mem [] c o []
  | aw_gather g cs c o ws l c' ks :
      gather_words mem g = Some ws -> stream (class_allowed is_valid_class c) c 0 ws l c' ->
      addr_words mem cs c' (o + length ws) ks ->
      addr_words mem (HOST1X_JOB_CMD_GATHER g :: cs) c o (addr_words_of o l ++ ks)
  | aw_wait id th nc r cs c o ks : addr_words mem cs c o ks ->
      addr_words mem (HOST1X_JOB_CMD_WAIT id th nc r :: cs) c o ks
  | aw_write reg v cs c o ks : addr_words mem cs c o ks ->
      addr_words mem (HOST1X_JOB_CMD_REG_WRITE reg v :: cs) c o ks.

(** Buffer and first word in the copy of each gather. *)
Fixpoint places (mem : bo_mem) (o : nat) (cs : list host1x_job_cmd) : list (ptr * nat) :=
  match cs with
  | [] => []
  | HOST1X_JOB_CMD_GATHER g :: cs =>
      (bo g, o) :: places mem (o + length (default [] (gather_words mem g))) cs
  | _ :: cs => places mem o cs
  end.

Definition reloc_word (r : host1x_reloc) : nat := Z.to_nat (cmdbuf_offset r / 4).

Definition site_ok (ps : list (ptr * nat)) (k : nat) (r : host1x_reloc) : Prop :=
  exists o, (cmdbuf_bo r, o) ∈ ps /\ k = (o + reloc_word r)%nat /\ 0 <= cmdbuf_offset r.

Lemma consume_used b l rem rem1 :
  consume is_addr_reg b l rem = Some rem1 ->
  exists used, rem = used ++ rem1 /\
    Forall2 (fun w r => covers b (w_word w) r) (filter (fun w => addr_write is_addr_reg w = true) l) used.
Proof.
  revert rem. induction l as [|w l IH]; intros rem; simpl.
  { intros [= ->]. exists []. split; [done|]. constructor. }
  rewrite filter_cons. destruct (addr_write is_addr_reg w) eqn:Ew.
  - destruct rem as [|r rem]; [done|]. case_decide as Hc; [|done].
    intros (used & -> & Hf)%IH. exists (r :: used). rewrite decide_True by done.
    split; [done|]. by constructor.
  - intros (used & -> & Hf)%IH. exists used. by rewrite decide_False by done.
Qed.

Lemma writes_of_words c off regs w :
  w ∈ writes_of c off regs -> off <= w_word w < off + Z.of_nat (length regs).
Proof.
  revert off. induction regs as [|r regs IH]; intros off; simpl.
  - by intros ?%not_elem_of_nil.
  - intros [->|H%IH]%elem_of_cons; simpl; lia.
Qed.

Lemma writes_of_NoDup c off regs : NoDup (w_word <$> writes_of c off regs).
Proof.
  revert off. induction regs as [|r regs IH]; intros off; simpl; [constructor|].
  constructor; [|apply IH]. intros (w & Hw & H%writes_of_words)%list_elem_of_fmap. lia.
Qed.

Lemma stream_words allowed c off ws l c' :
  stream allowed c off ws l c' ->
  NoDup (w_word <$> l) /\ forall w, w ∈ l -> off <= w_word w < off + Z.of_nat (length ws).
Proof.
  induction 1 as [c off|c off w data rest c1 regs l c' Hop Hlen Hs [IHn IHb]].
  { split; [constructor|]. by intros ? ?%not_elem_of_nil. }
  split.
  - rewrite fmap_app, NoDup_app. split_and!; [apply writes_of_NoDup| |done].
    intros x (w1 & -> & H1%writes_of_words)%list_elem_of_fmap (w2 & E & H2%IHb)%list_elem_of_fmap. lia.
  - simpl. rewrite length_app. intros w1 [H%writes_of_words|H%IHb]%elem_of_app; lia.
Qed.

Lemma addr_words_of_range o l off n :
  (forall w, w ∈ l -> 0 <= w_word w < n) -> off = (o + Z.to_nat n)%nat ->
  forall k, k ∈ addr_words_of o l -> (o <= k < off)%nat.
Proof.
  intros Hl -> k (w & -> & [_ Hw]%list_elem_of_filter)%list_elem_of_fmap. specialize (Hl _ Hw). lia.
Qed.

Lemma addr_words_of_NoDup o l :
  NoDup (w_word <$> l) -> (forall w, w ∈ l -> 0 <= w_word w) -> NoDup (addr_words_of o l).
Proof.
  unfold addr_words_of. induction l as [|w l IH]; intros Hn Hl; [constructor|].
  rewrite fmap_cons in Hn. apply NoDup_cons in Hn as [Hw Hn]. rewrite filter_cons.
  assert (IH' := IH Hn (fun w H => Hl w (list_elem_of_further _ _ _ H))).
  case_decide; [|done]. rewrite fmap_cons. constructor; [|done].
  intros (w2 & E & [_ H2]%list_elem_of_filter)%list_elem_of_fmap. apply Hw, list_elem_of_fmap.
  exists w2. split; [|done].
  assert (0 <= w_word w) by (apply Hl; by left). assert (0 <= w_word w2) by (apply Hl; by right). lia.
Qed.

Lemma site_ok_mono ps ps2 k r : ps ⊆ ps2 -> site_ok ps k r -> site_ok ps2 k r.
Proof. intros Hs (o & Hin & Hk). exists o. split; [by apply Hs|done]. Qed.

Lemma covers_sites b o l used :
  (forall w, w ∈ l -> 0 <= w_word w) ->
  Forall2 (fun w r => covers b (w_word w) r) (filter (fun w => addr_write is_addr_reg w = true) l) used ->
  Forall2 (site_ok [(b, o)]) (addr_words_of o l) used.
Proof.
  intros Hl Hf. unfold addr_words_of. apply Forall2_fmap_l.
  assert (Hl' : forall w, w ∈ filter (fun w => addr_write is_addr_reg w = true) l -> 0 <= w_word w).
  { intros w [_ Hw]%list_elem_of_filter. by apply Hl. }
  revert Hl'. clear Hl. induction Hf as [|w r ws rs Hc Hf IH]; intros Hl; [constructor|].
  constructor; [|apply IH; intros w' Hw'; apply Hl; by right].
  destruct Hc as (E1 & E2 & _). assert (0 <= w_word w) by (apply Hl; by left).
  exists o. rewrite E1. split; [by left|]. unfold reloc_word. rewrite E2, Z.mul_comm, Z.div_mul by lia.
  split; [done|lia].
Qed.

(** The address words are distinct, inside the copy, and each is the site of the
    relocation consumed for it. *)
Lemma addr_words_facts mem cs c rem rem2 o ks :
  job_stream is_addr_reg is_valid_class mem cs c rem rem2 -> addr_words mem cs c o ks ->
  NoDup ks /\ (forall k, k ∈ ks -> (o <= k < o + length (copied mem cs))%nat) /\
  exists used, rem = used ++ rem2 /\ Forall2 (site_ok (places mem o cs)) ks used.
Proof.
  intros H. revert o ks. induction H as [c rem|g cs c ws l c' rem rem1 rem2 Hg Hs Hc Hj IH| |];
    intros o ks Ha; inversion Ha as [|? ? ? ? ws' l' c2 ks' Hg' Hs' Ha'| |]; subst; simpl; auto.
  { split; [constructor|]. split; [by intros ? ?%not_elem_of_nil|]. by exists []. }
  rewrite Hg in Hg'. simplify_eq. destruct (stream_det _ _ _ _ _ _ _ _ Hs Hs') as [<- <-].
  rewrite Hg. simpl. destruct (IH _ _ Ha') as (Hn & Hb & used2 & -> & Hf2).
  destruct (stream_words _ _ _ _ _ _ Hs) as [Hln Hlb].
  assert (Hl0 : forall w, w ∈ l -> 0 <= w_word w) by (intros w Hw; specialize (Hlb w Hw); lia).
  assert (Hb1 : forall k, k ∈ addr_words_of o l -> (o <= k < o + length ws')%nat).
  { apply (addr_words_of_range o l _ (Z.of_nat (length ws'))); [by intros w Hw; specialize (Hlb w Hw); lia|lia]. }
  destruct (consume_used _ _ _ _ Hc) as (used & -> & Hf).
  split_and!.
  - apply NoDup_app. split_and!; [by apply addr_words_of_NoDup| |done].
    intros k H1%Hb1 H2%Hb. lia.
  - rewrite length_app. intros k [H%Hb1|H%Hb]%elem_of_app; lia.
  - exists (used ++ used2). split; [by rewrite app_assoc|]. apply Forall2_app.
    + eapply Forall2_impl; [by apply (covers_sites _ o _ _ Hl0 Hf)|].
      intros k r. apply site_ok_mono. set_solver.
    + eapply Forall2_impl; [exact Hf2|]. intros k r. apply site_ok_mono. set_solver.
Qed.

(** * Patching *)

(** The stores for one gather: of every relocation in its buffer. *)
Fixpoint gather_stores (addrs : list Z) (b : ptr) (o : nat) (rs : list host1x_reloc) {struct rs} : list (nat * Z) :=
  match rs, addrs with
  | r :: rs, a :: addrs =>
      (if bool_decide (b = cmdbuf_bo r) then [((o + reloc_word r)%nat, reloc_addr a r)] else [])
      ++ gather_stores addrs b o rs
  | _, _ => []
  end.

Lemma gather_stores_elem addrs b o rs k v :
  (k, v) ∈ gather_stores addrs b o rs <->
  exists i r a, rs !! i = Some r /\ addrs !! i = Some a /\ b = cmdbuf_bo r /\
    k = (o + reloc_word r)%nat /\ v = reloc_addr a r.
Proof.
  revert addrs. induction rs as [|r rs IH]; intros addrs; simpl.
  { split; [by intros ?%not_elem_of_nil|]. intros (i & r & a & H & _). by rewrite lookup_nil in H. }
  destruct addrs as [|a addrs].
  { split; [by intros ?%not_elem_of_nil|]. intros (i & r' & a' & _ & H & _). by rewrite lookup_nil in H. }
  rewrite elem_of_app, IH. split.
  - intros [H|(i & r' & a' & H)].
    + case_bool_decide; [|by apply not_elem_of_nil in H].
      apply list_elem_of_singleton in H. simplify_eq. by exists 0%nat, r, a.
    + by exists (S i), r', a'.
  - intros ([|i] & r' & a' & H1 & H2 & -> & -> & ->); simpl in *; simplify_eq.
    + left. rewrite bool_decide_true by done. by left.
    + right. by exists i, r', a'.
Qed.

(** Relocations of the buffer stay inside the copy. *)
Definition sites_inside (b : ptr) (o n : nat) (rs : list host1x_reloc) : Prop :=
  forall r, r ∈ rs -> cmdbuf_bo r = b -> 0 <= cmdbuf_offset r /\ (o + reloc_word r < n)%nat.

Definition with_copy (job : host1x_job) (q : list Z) : host1x_job :=
  set_copy job (gather_copy job) q (gather_copy_size job).

Lemma with_copy_same job : with_copy job (gather_copy_mapped job) = job.
Proof. by destruct job. Qed.

Lemma patch_loop_spec bo_mmap mem rs i job g o :
  enable_firewall job = true -> offset g / 4 = Z.of_nat o ->
  (i + length rs <= length (addr_phys job))%nat ->
  sites_inside (bo g) o (length (gather_copy_mapped job)) rs ->
  patch_loop bo_mmap job mem g i rs =
    Some (0, with_copy job (store_all (gather_stores (drop i (addr_phys job)) (bo g) o rs)
                              (gather_copy_mapped job)), mem).
Proof.
  intros Hfw Ho. revert i job Hfw. induction rs as [|r rs IH]; intros i job Hfw Hlen Hin; cbn [patch_loop].
  { simpl. by rewrite with_copy_same. }
  rewrite Hfw. simpl negb. rewrite andb_false_r. simpl. unfold patch_one.
  simpl in Hlen. destruct (lookup_lt_is_Some_2 (addr_phys job) i) as [a Ha]; [lia|].
  rewrite Ha. cbn [mbind option_bind]. rewrite (drop_S _ _ _ Ha). simpl.
  case_bool_decide as Hb; simpl.
  - rewrite Hfw. destruct (Hin r) as [Hr0 Hr]; [by left|done|].
    unfold array_set. rewrite Ho.
    assert (0 <= cmdbuf_offset r / 4) by (apply Z.div_pos; lia). unfold reloc_word in Hr.
    rewrite (proj2 (Z.leb_le _ _)), (proj2 (Z.ltb_lt _ _)) by lia. cbn [andb mbind option_bind].
    rewrite IH; simpl; [|done|lia|].
    + unfold with_copy. simpl. do 4 f_equal. unfold store_all. do 2 f_equal.
      unfold reloc_word. f_equal. lia.
    + intros r' Hr' Hb'. rewrite length_insert. apply Hin; [by right|done].
  - rewrite IH; [done|done|lia|]. intros r' Hr' Hb'. apply Hin; [by right|done].
Qed.

Lemma mark_handled_other mem g addr off o cs :
  bo g ∉ (places mem o cs).*1 -> mark_handled g <$> placed addr off cs = placed addr off cs.
Proof.
  revert off o. induction cs as [|c cs IH]; intros off o Hn; [done|].
  destruct c as [g'|id th nc r|reg v]; simpl in *.
  - apply not_elem_of_cons in Hn as [Hne Hn]. rewrite bool_decide_false by congruence.
    f_equal. by eapply IH.
  - f_equal. by eapply IH.
  - f_equal. by eapply IH.
Qed.

Lemma set_cmds_same job : set_cmds job (cmds job) = job.
Proof. by destruct job. Qed.

Definition all_stores (addrs : list Z) (rs : list host1x_reloc) (ps : list (ptr * nat)) : list (nat * Z) :=
  ps ≫= fun p => gather_stores addrs p.1 p.2 rs.

Definition unhandled (cs : list host1x_job_cmd) : Prop :=
  Forall (fun c => match c with HOST1X_JOB_CMD_GATHER g => handled g = false | _ => True end) cs.

Lemma patch_gathers_skip bo_mmap mem0 mem n before c todo job r :
  cmds job = before ++ c :: todo -> match c with HOST1X_JOB_CMD_GATHER _ => False | _ => True end ->
  patch_gathers bo_mmap n (length (before ++ [c])) job mem = r ->
  patch_gathers bo_mmap (S n) (length before) job mem = r /\ places mem0 0 [c] = [].
Proof.
  intros Hc Hk Hr. cbn [patch_gathers]. rewrite Hc, list_lookup_middle by done. cbn [mbind option_bind].
  rewrite length_app, Nat.add_1_r in Hr. by destruct c.
Qed.

Lemma store_all_app {A} (p1 p2 : list (nat * A)) q : store_all (p1 ++ p2) q = store_all p2 (store_all p1 q).
Proof. apply foldl_app. Qed.

Lemma patch_gathers_spec bo_mmap mem0 mem todo before job o :
  cmds job = before ++ placed (gather_copy job) (4 * Z.of_nat o) todo ->
  enable_firewall job = true -> unhandled todo -> gathers_inside mem0 todo ->
  NoDup (places mem0 o todo).*1 -> (length (relocs job) <= length (addr_phys job))%nat ->
  (forall b o', (b, o') ∈ places mem0 o todo ->
     sites_inside b o' (length (gather_copy_mapped job)) (relocs job)) ->
  patch_gathers bo_mmap (length todo) (length before) job mem =
    Some (0, with_copy job (store_all (all_stores (addr_phys job) (relocs job) (places mem0 o todo))
                              (gather_copy_mapped job)), mem).
Proof.
  revert before job o. induction todo as [|c todo IH]; intros before job o Hc Hfw Hu Hin Hn Hlen Hs.
  { simpl. by rewrite with_copy_same. }
  apply Forall_cons in Hu as [Hu1 Hu]. apply gathers_inside_cons in Hin as [Hin Hg].
  destruct c as [g|id th nc r|reg v].
  2, 3: simpl placed in Hc; cbn [length];
    (destruct (patch_gathers_skip bo_mmap mem0 mem (length todo) before _ _ job _ Hc I eq_refl) as [-> _]);
    apply IH; try done; by rewrite Hc, <- app_assoc.
  destruct Hg as [Hw [ws Hws]]. pose proof (gather_words_length _ _ _ Hws Hw) as Hlws.
  simpl in Hc, Hn. apply NoDup_cons in Hn as [Hnb Hn]. cbn [length patch_gathers].
  rewrite Hc, list_lookup_middle by done. cbn [mbind option_bind]. simpl handled. rewrite Hu1, Hfw.
  cbn [mbind option_bind]. rewrite take_app_length, drop_S_mid.
  cbn [words base bo offset handled]. rewrite Hu1 in Hc.
  set (g' := Gather (words g) (gather_copy job) (bo g) (4 * Z.of_nat o) false) in *.
  rewrite (mark_handled_other mem0 g' _ _ _ _ Hnb).
  cbn [app].
  rewrite <- Hc, set_cmds_same. unfold do_relocs.
  rewrite (patch_loop_spec _ _ _ _ _ g' o); [|done| |done|apply Hs; by left].
  2: { simpl. rewrite Z.mul_comm. by apply Z.div_mul. }
  cbn [mbind option_bind]. change (negb (0 =? 0)) with false. cbv iota.
  set (job1 := with_copy job _).
  assert (Hl1 : length (gather_copy_mapped job1) = length (gather_copy_mapped job))
    by apply length_store_all.
  replace (S (length before)) with (length (before ++ [HOST1X_JOB_CMD_GATHER g']))
    by (rewrite length_app; simpl; lia).
  rewrite (IH _ job1 (o + length (default [] (gather_words mem0 g)))%nat); try done.
  - unfold with_copy, job1. simpl. do 4 f_equal. by rewrite store_all_app.
  - unfold job1. simpl. rewrite Hc, <- app_assoc, Hws. simpl. do 3 f_equal. unfold gather_bytes. lia.
  - intros b o' Hin'. rewrite Hl1. apply Hs. by right.
Qed.

Lemma length_placed addr off cs : length (placed addr off cs) = length cs.
Proof. revert off. induction cs as [|[]]; intros; simpl; auto. Qed.

(** Two entries for one buffer are the same. *)
Lemma places_functional (ps : list (ptr * nat)) b o1 o2 :
  NoDup ps.*1 -> (b, o1) ∈ ps -> (b, o2) ∈ ps -> o1 = o2.
Proof.
  induction ps as [|[b' o'] ps IH]; [by intros _ ?%not_elem_of_nil|].
  rewrite fmap_cons. intros [Hb Hn]%NoDup_cons.
  assert (Hno : forall o, (b', o) ∉ ps) by (intros o Ho; apply Hb, list_elem_of_fmap; by exists (b', o)).
  intros [E1|H1]%elem_of_cons [E2|H2]%elem_of_cons; simplify_eq; auto; exfalso; by eapply Hno.
Qed.

(** What the stores of all gathers are: one for each relocation, at its site. *)
Lemma all_stores_elem addrs rs ps ks k v :
  NoDup ps.*1 -> Forall2 (site_ok ps) ks rs -> (length rs <= length addrs)%nat ->
  (k, v) ∈ all_stores addrs rs ps <->
  exists i r a, ks !! i = Some k /\ rs !! i = Some r /\ addrs !! i = Some a /\ v = reloc_addr a r.
Proof.
  intros Hn Hf Hlen. unfold all_stores. rewrite list_elem_of_bind. split.
  - intros ([b o] & (i & r & a & Hr & Ha & Hb & -> & ->)%gather_stores_elem & Hp). simpl in *. subst b.
    destruct (Forall2_lookup_r _ _ _ _ _ Hf Hr) as (k' & Hk' & (o' & Hp' & -> & _)).
    rewrite (places_functional _ _ _ _ Hn Hp Hp'). by exists i, r, a.
  - intros (i & r & a & Hk & Hr & Ha & ->).
    destruct (Forall2_lookup_lr _ _ _ _ _ _ Hf Hk Hr) as (o' & Hp' & -> & _).
    exists (cmdbuf_bo r, o'). split; [|done]. apply gather_stores_elem. by exists i, r, a.
Qed.

(** C5.  What was checked is what the hardware runs, when no two gathers share a
    buffer.  Take a job as an accepting [copy_gathers] leaves it, with gathers from
    pairwise different buffers.  Then the patching of host1x_job_pin succeeds;
    the i-th word that the decoder finds to be written to an address register holds
    afterwards the address of the i-th relocation's target (shifted, in 32 bits),
    there are as many such words as relocations, and every other word of the
    copy is still the one that was checked. *)
Theorem pinned_copy_correct bo_mmap mem mem2 cs c ks job :
  job_stream is_addr_reg is_valid_class mem cs c (relocs job) [] -> addr_words mem cs c 0 ks ->
  NoDup (places mem 0 cs).*1 -> unhandled cs -> gathers_inside mem cs ->
  cmds job = placed (gather_copy job) 0 cs -> gather_copy_mapped job = copied mem cs ->
  enable_firewall job = true -> (length (relocs job) <= length (addr_phys job))%nat ->
  exists q, patch_gathers bo_mmap (length (cmds job)) 0 job mem2 = Some (0, with_copy job q, mem2) /\
    length q = length (copied mem cs) /\ length ks = length (relocs job) /\
    (forall i k r a, ks !! i = Some k -> relocs job !! i = Some r -> addr_phys job !! i = Some a ->
       q !! k = Some (reloc_addr a r)) /\
    (forall k, k ∉ ks -> q !! k = copied mem cs !! k).
Proof.
  intros Hs Ha Hn Hu Hin Hc Hq Hfw Hlen.
  destruct (addr_words_facts _ _ _ _ _ _ _ Hs Ha) as (Hks & Hb & used & E & Hf).
  rewrite app_nil_r in E. subst used.
  exists (store_all (all_stores (addr_phys job) (relocs job) (places mem 0 cs)) (copied mem cs)).
  pose proof (fun k v => all_stores_elem _ _ _ _ k v Hn Hf Hlen) as Hel. split_and!.
  - rewrite Hc, length_placed, <- Hq. apply (patch_gathers_spec bo_mmap mem mem2 cs [] job 0); try done.
    intros b o Hp r Hr <-. apply list_elem_of_lookup in Hr as [i Hr].
    destruct (Forall2_lookup_r _ _ _ _ _ Hf Hr) as (k & Hk & (o' & Hp' & -> & Hr0)).
    rewrite (places_functional _ _ _ _ Hn Hp Hp'). split; [done|].
    apply list_elem_of_lookup_2 in Hk. apply Hb in Hk. rewrite Hq. lia.
  - apply length_store_all.
  - by eapply Forall2_length.
  - intros i k r a Hk Hr Ha'. apply store_all_in.
    + apply Hel. by exists i, r, a.
    + intros v' (i' & r' & a' & Hk' & Hr' & Ha'' & ->)%Hel.
      assert (i = i') as <- by (by eapply NoDup_lookup). by simplify_eq.
    + apply list_elem_of_lookup_2 in Hk. apply Hb in Hk. lia.
  - intros k Hk. apply store_all_notin. intros ([k' v] & -> & Hel')%list_elem_of_fmap.
    apply Hel in Hel' as (i & r & a & Hk' & _). apply Hk. by eapply list_elem_of_lookup_2.
Qed.
End pinned.

(** * Instance: the one-gather job *)
Lemma demo_addr_words : addr_words demo_addr_reg None demo_mem [demo_gather 2 8] 1 0 [1%nat].
Proof.
  change [1%nat] with (addr_words_of demo_addr_reg 0 [Write 1 5 1] ++ []).
  apply (aw_gather _ _ _ _ _ _ _ [0x20050001; 0x99] [Write 1 5 1] 1 []); [done| |constructor].
  apply (stream_op _ 1 0 0x20050001 [0x99] [] 1 [5] [] 1); [by apply op_nonincr|done|constructor].
Defined.

Definition demo_checked : host1x_job :=
  Job 1 [HOST1X_JOB_CMD_GATHER (Gather 2 0x8000 7 0 false)] [demo_reloc] [] [0x1000] 0x8000
    [0x20050001; 0x99] 8 1 true.

Lemma pinned_copy_witness :
  exists q, patch_gathers (fun _ => true) 1 0 demo_checked demo_mem = Some (0, with_copy demo_checked q, demo_mem) /\
    q !! 1%nat = Some 0x1040 /\ q !! 0%nat = Some 0x20050001.
Proof.
  destruct (pinned_copy_correct demo_addr_reg None (fun _ => true) demo_mem demo_mem [demo_gather 2 8] 1
    [1%nat] demo_checked demo_stream demo_addr_words) as (q & Hp & _ & _ & H1 & H2); try done.
  - simpl. apply NoDup_singleton.
  - by repeat constructor.
  - apply demo_gathers_inside.
  - exists q. split; [exact Hp|]. split.
    + by apply (H1 0%nat 1%nat demo_reloc 0x1000).
    + rewrite H2; [done|]. by intros ?%list_elem_of_singleton.
Defined.
