(* ===== verification/Host1xPin.v ===== *)
(** References and mappings taken by host1x_job_pin are given back by
    host1x_job_unpin; an error while pinning keeps some of them. *)
From S2P Require Export Host1xJob.

(** * Counting what a log holds of a buffer *)
Definition ref_of (b : ptr) (e : pin_event) : Z :=
  match e with
  | EvGet b' => if decide (b' = b) then 1 else 0
  | EvPut b' => if decide (b' = b) then - 1 else 0
  | _ => 0
  end.
Definition map_of (b : ptr) (e : pin_event) : Z :=
  match e with
  | EvPin m => if decide (map_bo m = b) then 1 else 0
  | EvUnpin m => if decide (map_bo m = b) then - 1 else 0
  | _ => 0
  end.
Definition total {A} (f : A -> Z) (l : list A) : Z := foldr (fun x acc => f x + acc) 0 l.

Lemma total_app {A} (f : A -> Z) l1 l2 : total f (l1 ++ l2) = total f l1 + total f l2.
Proof. unfold total. induction l1 as [|x l1 IH]; simpl; [lia|]. rewrite IH. ring. Qed.
Lemma total_cons {A} (f : A -> Z) e l : total f (e :: l) = f e + total f l.
Proof. done. Qed.
Lemma total_nil {A} (f : A -> Z) : total f [] = 0.
Proof. done. Qed.
Create Rewrite HintDb total.
#[export] Hint Rewrite @total_app @total_cons @total_nil : total.

(** The job's mappings of [b]. *)
Definition pinned_of (b : ptr) : list host1x_bo_mapping -> Z :=
  total (fun m => if decide (map_bo m = b) then 1 else 0).
Lemma pinned_of_snoc b us m :
  pinned_of b (us ++ [m]) = pinned_of b us + if decide (map_bo m = b) then 1 else 0.
Proof. unfold pinned_of. rewrite total_app. unfold total. simpl. lia. Qed.

(** References and mappings are those of the job's mappings. *)
Definition balanced (us : list host1x_bo_mapping) (log : list pin_event) : Prop :=
  forall b, total (ref_of b) log = pinned_of b us /\ total (map_of b) log = pinned_of b us.

Section pin.
Variables (bo_get : ptr -> bool)
  (pin_reloc : nat -> ptr -> dma_data_direction -> Z + host1x_bo_mapping)
  (pin_gather : nat -> ptr -> Z + host1x_bo_mapping)
  (domain : bool) (sg_size : host1x_bo_mapping -> Z)
  (alloc_iova : nat -> Z -> option Z) (iommu_map : nat -> Z -> Z).
(** host1x_bo_pin returns a mapping of the buffer it was given, or a negative error. *)
Hypothesis pin_reloc_bo : forall i b d m, pin_reloc i b d = inr m -> map_bo m = b.
Hypothesis pin_gather_bo : forall i b m, pin_gather i b = inr m -> map_bo m = b.
Hypothesis pin_reloc_err : forall i b d e, pin_reloc i b d = inl e -> e <> 0.
Hypothesis pin_gather_err : forall i b e, pin_gather i b = inl e -> e <> 0.

Lemma push_unpin_spec job m job' :
  push_unpin job m = Some job' -> unpins job' = unpins job ++ [m] /\
    length (addr_phys job') = length (addr_phys job) /\
    enable_firewall job' = enable_firewall job /\ gather_copy_size job' = gather_copy_size job /\
    relocs job' = relocs job /\ cmds job' = cmds job.
Proof.
  unfold push_unpin, array_set. case_if; [|done]. intros [= <-]. simpl. by rewrite length_insert.
Qed.

Lemma balanced_push us log m b :
  balanced us log -> map_bo m = b -> forall evs,
  (forall b', total (ref_of b') evs = 0) -> (forall b', total (map_of b') evs = 0) ->
  forall m', map_bo m' = b -> balanced (us ++ [m']) (((log ++ [EvGet b]) ++ [EvPin m]) ++ evs).
Proof.
  intros Hb Hm evs He1 He2 m' Hm' b'. destruct (Hb b') as [H1 H2]. autorewrite with total.
  rewrite pinned_of_snoc, He1, He2. simpl. rewrite Hm, Hm'. destruct (decide (b = b')); lia.
Qed.

Definition keeps (job job' : host1x_job) : Prop :=
  length (addr_phys job') = length (addr_phys job) /\ enable_firewall job' = enable_firewall job /\
  gather_copy_size job' = gather_copy_size job /\ relocs job' = relocs job /\ cmds job' = cmds job.

Lemma pin_relocs_balanced i rs job log job' log' :
  pin_relocs bo_get pin_reloc i rs job log = Some (0, job', log') ->
  balanced (unpins job) log -> balanced (unpins job') log' /\ keeps job job'.
Proof.
  revert i job log. induction rs as [|r rs IH]; intros i job log; simpl; [by intros [= <- <-]|].
  destruct (bo_get (target_bo r)); simpl; [|done].
  destruct (direction_of (flags r)) as [d|]; [|done].
  destruct (pin_reloc i (target_bo r) d) as [e|m] eqn:Ep.
  { intros [= -> _ _]. by destruct (pin_reloc_err _ _ _ _ Ep). }
  case_if; [done|]. destruct (push_unpin job m) as [job1|] eqn:Epush; [|done]. simpl.
  intros Hp Hb. destruct (push_unpin_spec _ _ _ Epush) as (Eu & El & Ef & Ec & Er & Em).
  apply pin_reloc_bo in Ep. apply IH in Hp as [Hb' Hk].
  - split; [done|]. unfold keeps in *. intuition congruence.
  - rewrite Eu. rewrite <- (app_nil_r ((log ++ _) ++ _)). by eapply balanced_push.
Qed.

Lemma pin_gathers_balanced i cs job log job' log' :
  pin_gathers bo_get pin_gather domain sg_size alloc_iova iommu_map i cs job log = Some (0, job', log') ->
  balanced (unpins job) log -> balanced (unpins job') log' /\ keeps job job'.
Proof.
  revert i job log. induction cs as [|c cs IH]; intros i job log; simpl; [by intros [= <- <-]|].
  destruct c as [g|id th nc r|reg v]; [|apply IH|apply IH].
  destruct (bo_get (bo g)); simpl; [|done].
  destruct (pin_gather i (bo g)) as [e|m] eqn:Ep.
  { intros [= -> _ _]. by destruct (pin_gather_err _ _ _ Ep). }
  apply pin_gather_bo in Ep.
  assert (Hgo : forall m' evs, map_bo m' = bo g ->
    (forall b', total (ref_of b') evs = 0) -> (forall b', total (map_of b') evs = 0) ->
    (job ← push_unpin job m';
     addrs ← array_set (addr_phys job) (Z.of_nat (length (relocs job) + i)) (phys m');
     pin_gathers bo_get pin_gather domain sg_size alloc_iova iommu_map (S i) cs
       (set_unpins job (unpins job) addrs) (((log ++ [EvGet (bo g)]) ++ [EvPin m]) ++ evs))
      = Some (0, job', log') ->
    balanced (unpins job) log -> balanced (unpins job') log' /\ keeps job job').
  { intros m' evs Hm' He1 He2 Hp Hb. destruct (push_unpin job m') as [job1|] eqn:Epush; [|done].
    destruct (push_unpin_spec _ _ _ Epush) as (Eu & El & Ef & Ec & Er & Em). simpl in Hp.
    unfold array_set in Hp. case_if; [|done]. simpl in Hp. apply IH in Hp as [Hb' Hk].
    - split; [done|]. unfold keeps in *. simpl in Hk. rewrite length_insert in Hk. intuition congruence.
    - simpl. rewrite Eu. by eapply balanced_push. }
  destruct domain.
  - destruct (alloc_iova i (sg_size m)) as [a|]; [|done]. case_if; [done|].
    rewrite <- (app_assoc _ [EvIovaAlloc a]). by apply Hgo.
  - rewrite <- (app_nil_r ((log ++ _) ++ _)). by apply Hgo.
Qed.

Lemma unpin_loop_spec fw us addrs :
  (length us <= length addrs)%nat -> exists evs, unpin_loop domain fw us addrs = Some evs /\
    forall b, total (ref_of b) evs = - pinned_of b us /\ total (map_of b) evs = - pinned_of b us.
Proof.
  revert addrs. induction us as [|m us IH]; intros addrs Hl; simpl in *; [by exists []|].
  destruct addrs as [|a addrs]; simpl in Hl; [lia|].
  destruct (IH addrs) as (evs & -> & Hev); [lia|]. simpl. eexists. split; [done|]. intros b.
  destruct (Hev b) as [H1 H2]. unfold pinned_of in *. simpl.
  case_if; autorewrite with total; simpl; autorewrite with total; simpl;
    destruct (decide (map_bo m = b)); lia.
Qed.

(**  Unpinning undoes pinning.  When [pin_job] succeeds, whatever the buffer
    objects, the IOMMU and the IOVA allocator answered, host1x_job_unpin finds the
    address of every mapping, and after it every buffer has been put as often as
    it was taken and unmapped as often as it was mapped; the job holds no mapping. *)
Theorem unpin_undoes_pin job job1 log :
  pin_job bo_get pin_reloc pin_gather domain sg_size alloc_iova iommu_map job = Some (0, job1, log) ->
  (length (unpins job1) <= length (addr_phys job))%nat ->
  exists job2 log2, host1x_job_unpin domain job1 log = Some (job2, log2) /\ unpins job2 = [] /\
    forall b, total (ref_of b) log2 = 0 /\ total (map_of b) log2 = 0.
Proof.
  unfold pin_job. intros Hp Hlen.
  set (job0 := set_unpins job [] (addr_phys job)) in Hp.
  destruct (pin_relocs _ _ _ _ _ _) as [[[e1 j1] l1]|] eqn:Er; [|done]. cbn [mbind option_bind] in Hp.
  assert (Hdone : balanced (unpins job1) log /\ keeps job0 job1).
  { destruct (e1 =? 0) eqn:Ee; zb; [subst e1|].
    2: { simpl in Hp. rewrite (proj2 (Z.eqb_neq _ _) Ee) in Hp.
         destruct (host1x_job_unpin _ _ _) as [[??]|]; simpl in Hp; by simplify_eq. }
    apply pin_relocs_balanced in Er as [Hb Hk]; [|by intros b]. simpl in Hp.
    destruct (enable_firewall j1) eqn:Ef; simpl in Hp; [by simplify_eq|].
    destruct (pin_gathers _ _ _ _ _ _ _ _ _ _) as [[[e2 j2] l2]|] eqn:Eg; [|done]. simpl in Hp.
    destruct (e2 =? 0) eqn:Ee2; zb; [subst e2|].
    - apply pin_gathers_balanced in Eg as [Hb2 Hk2]; [|done]. simplify_eq.
      split; [done|]. unfold keeps in *. intuition congruence.
    - destruct (host1x_job_unpin _ _ _) as [[??]|]; simpl in Hp; by simplify_eq. }
  destruct Hdone as [Hb (Hl & _)]. simpl in Hl. unfold host1x_job_unpin.
  destruct (unpin_loop_spec (enable_firewall job1) (unpins job1) (addr_phys job1)) as (evs & -> & Hev); [lia|].
  simpl. eexists _, _. split; [done|]. split; [done|]. intros b.
  destruct (Hb b) as [H1 H2], (Hev b) as [H3 H4]. autorewrite with total.
  case_if; autorewrite with total; simpl; lia.
Qed.
End pin.

(** * Instances *)
Definition pin_demo (flags : Z) : host1x_job :=
  Job 1 [HOST1X_JOB_CMD_GATHER (Gather 1 0 3 0 false)] [Reloc 3 0 9 0 0 flags] [] [0; 0] 0 [] 0 1 false.
Definition pin_demo_run (flags chunks : Z) :=
  pin_job (fun _ => true) (fun _ b _ => inr (Mapping b 0x1000 0x100 chunks))
    (fun _ b => inr (Mapping b 0x2000 0x100 1)) true (fun _ => 0x1000) (fun _ _ => Some 0x8000)
    (fun _ _ => 1) (pin_demo flags).

Lemma unpin_undoes_pin_witness :
  exists job1 log, pin_demo_run HOST1X_RELOC_READ 1 = Some (0, job1, log) /\
  exists job2 log2, host1x_job_unpin true job1 log = Some (job2, log2) /\ unpins job2 = [] /\
    forall b, total (ref_of b) log2 = 0 /\ total (map_of b) log2 = 0.
Proof.
  eexists _, _. split; [reflexivity|].
  apply (unpin_undoes_pin (fun _ => true) (fun _ b _ => inr (Mapping b 0x1000 0x100 1))
    (fun _ b => inr (Mapping b 0x2000 0x100 1)) true (fun _ => 0x1000) (fun _ _ => Some 0x8000)
    (fun _ _ => 1)) with (job := pin_demo HOST1X_RELOC_READ); try done.
  - by intros _ b _ m [= <-].
  - by intros _ b m [= <-].
Defined.

(** An error while pinning leaks.  When a relocation's flags name no direction
    the reference just taken on its buffer is never put, and when its mapping is in
    more than one piece neither the mapping nor the reference is given back,
    although [pin_job] unpins before it returns the error. *)
Theorem pin_error_leaks :
  (exists job1 log, pin_demo_run 0 1 = Some (- EINVAL, job1, log) /\
     total (ref_of 9) log = 1 /\ total (map_of 9) log = 0) /\
  (exists job1 log, pin_demo_run HOST1X_RELOC_READ 2 = Some (- EINVAL, job1, log) /\
     total (ref_of 9) log = 1 /\ total (map_of 9) log = 1).
Proof. split; eexists _, _; (split; [reflexivity|]); by vm_compute. Qed.
