(* ===== verification/DceFsm.v ===== *)
(** The state machine of the display controller engine (DCE) driver and its
    completions (src/drivers/platform/tegra/dce/dce-fsm.c and dce-worker.c, with
    the handlers of dce-bootstrap.c, dce-admin.c and dce-pm.c that wake a waiter).

    The FSM mutex makes the check of an event and the change of state atomic; the
    handler runs after the mutex is released, so other events may come in between. *)
From S2P Require Export Prelude.

(** enum dce_fsm_event_id_type; an event is an int. *)
Definition EVENT_ID_DCE_INVALID := - 1.
Definition EVENT_ID_DCE_FSM_START := 0.
Definition EVENT_ID_DCE_BOOT_COMPLETE_REQUESTED := 1.
Definition EVENT_ID_DCE_BOOT_COMPLETE_RECEIVED := 2.
Definition EVENT_ID_DCE_BOOT_CMD_MSG_REQUESTED := 3.
Definition EVENT_ID_DCE_BOOT_CMD_MSG_RECEIVED := 4.
Definition EVENT_ID_DCE_ADMIN_IPC_MSG_REQUESTED := 5.
Definition EVENT_ID_DCE_ADMIN_IPC_MSG_RECEIVED := 6.
Definition EVENT_ID_DCE_SC7_ENTER_REQUESTED := 7.
Definition EVENT_ID_DCE_SC7_ENTERED_RECEIVED := 8.
Definition EVENT_ID_DCE_SC7_EXIT_RECEIVED := 9.
Definition EVENT_ID_DCE_LOG_REQUESTED := 10.
Definition EVENT_ID_DCE_LOG_READY_RECEIVED := 11.
Definition EVENT_ID_DCE_ABORT_RECEIVED := 12.
Definition EVENT_ID_DCE_CRASH_LOG_RECEIVED := 13.
Definition EVENT_ID_DCE_LOG_OVERFLOW_RECEIVED := 14.
Definition EVENT_ID_DCE_FSM_STOP := 15.

Inductive dce_fsm_state :=
  | STATE_DCE_INVALID | STATE_DCE_FSM_IDLE | STATE_DCE_BOOT_WAIT | STATE_DCE_BOOTCMD_WFI
  | STATE_DCE_ADMIN_WFI | STATE_DCE_SC7_ENTER_WFI | STATE_DCE_SC7_ENTERED
  | STATE_DCE_LOG_READY_WFI | STATE_DCE_ABORT.
#[export] Instance dce_fsm_state_eq_dec : EqDecision dce_fsm_state.
Proof. solve_decision. Defined.

Definition DCE_WAIT_BOOT_COMPLETE := 0.
Definition DCE_WAIT_BOOT_CMD := 1.
Definition DCE_WAIT_ADMIN_IPC := 2.
Definition DCE_WAIT_SC7_ENTER := 3.
Definition DCE_WAIT_LOG := 4.
Definition DCE_MAX_WAIT := 5.
Definition DCE_BIT (x : Z) : Z := Z.shiftl 1 x.

(** struct dce_fsm_info; the lock is implicit. *)
Record dce_fsm_info := Fsm {
  initialized : bool;
  c_state : dce_fsm_state;
  requested_ipcs : Z }.

(** [requested_ipcs & ~DCE_BIT(x)]. *)
Definition clear_bit (ipcs x : Z) : Z := Z.land ipcs (u32 (Z.lnot (DCE_BIT x))).

(** [ev] is one of the listed cases of a switch. *)
Definition one_of (ev : Z) (cases : list Z) : bool := existsb (Z.eqb ev) cases.

Definition dce_fsm_set_state (fsm : dce_fsm_info) (event : Z) : dce_fsm_info :=
  let set s ipcs := Fsm (initialized fsm) s ipcs in
  let ipcs := requested_ipcs fsm in
  if event =? EVENT_ID_DCE_FSM_START then set STATE_DCE_FSM_IDLE 0
  else if event =? EVENT_ID_DCE_BOOT_COMPLETE_REQUESTED then
    set STATE_DCE_BOOT_WAIT (Z.lor ipcs (DCE_BIT DCE_WAIT_BOOT_COMPLETE))
  else if event =? EVENT_ID_DCE_BOOT_COMPLETE_RECEIVED then
    set STATE_DCE_FSM_IDLE (clear_bit ipcs DCE_WAIT_BOOT_COMPLETE)
  else if event =? EVENT_ID_DCE_BOOT_CMD_MSG_REQUESTED then
    set STATE_DCE_BOOTCMD_WFI (Z.lor ipcs (DCE_BIT DCE_WAIT_BOOT_CMD))
  else if event =? EVENT_ID_DCE_BOOT_CMD_MSG_RECEIVED then
    set STATE_DCE_FSM_IDLE (clear_bit ipcs DCE_WAIT_BOOT_CMD)
  else if event =? EVENT_ID_DCE_ADMIN_IPC_MSG_REQUESTED then
    set STATE_DCE_ADMIN_WFI (Z.lor ipcs (DCE_BIT DCE_WAIT_ADMIN_IPC))
  else if event =? EVENT_ID_DCE_ADMIN_IPC_MSG_RECEIVED then
    set STATE_DCE_FSM_IDLE (clear_bit ipcs DCE_WAIT_ADMIN_IPC)
  else if event =? EVENT_ID_DCE_SC7_ENTER_REQUESTED then
    set STATE_DCE_SC7_ENTER_WFI (Z.lor ipcs (DCE_BIT DCE_WAIT_SC7_ENTER))
  else if event =? EVENT_ID_DCE_SC7_ENTERED_RECEIVED then
    set STATE_DCE_SC7_ENTERED (clear_bit ipcs DCE_WAIT_SC7_ENTER)
  else if event =? EVENT_ID_DCE_SC7_EXIT_RECEIVED then set STATE_DCE_FSM_IDLE 0
  else if event =? EVENT_ID_DCE_LOG_REQUESTED then
    set STATE_DCE_LOG_READY_WFI (Z.lor ipcs (DCE_BIT DCE_WAIT_LOG))
  else if event =? EVENT_ID_DCE_LOG_READY_RECEIVED then
    set STATE_DCE_FSM_IDLE (clear_bit ipcs DCE_WAIT_LOG)
  else if event =? EVENT_ID_DCE_FSM_STOP then set STATE_DCE_INVALID ipcs
  else if one_of event [EVENT_ID_DCE_ABORT_RECEIVED; EVENT_ID_DCE_CRASH_LOG_RECEIVED;
                        EVENT_ID_DCE_LOG_OVERFLOW_RECEIVED] then set STATE_DCE_ABORT ipcs
  else fsm.

(** The events a waiting state accepts besides its reply. *)
Definition abort_events : list Z :=
  [EVENT_ID_DCE_ABORT_RECEIVED; EVENT_ID_DCE_CRASH_LOG_RECEIVED;
   EVENT_ID_DCE_LOG_OVERFLOW_RECEIVED; EVENT_ID_DCE_FSM_STOP].

Definition dce_fsm_validate_event (fsm : dce_fsm_info) (event : Z) : Z :=
  let only cases := if one_of event cases then 0 else - EINVAL in
  if EVENT_ID_DCE_FSM_STOP <? event then - EINVAL
  else if negb (initialized fsm) then - EINVAL
  else
    match c_state fsm with
    | STATE_DCE_INVALID => only [EVENT_ID_DCE_FSM_START]
    | STATE_DCE_FSM_IDLE =>
        if one_of event [EVENT_ID_DCE_BOOT_COMPLETE_RECEIVED; EVENT_ID_DCE_BOOT_CMD_MSG_RECEIVED;
                         EVENT_ID_DCE_ADMIN_IPC_MSG_RECEIVED; EVENT_ID_DCE_SC7_ENTERED_RECEIVED;
                         EVENT_ID_DCE_LOG_READY_RECEIVED; EVENT_ID_DCE_FSM_START]
        then - EINVAL else 0
    | STATE_DCE_BOOT_WAIT =>
        only (EVENT_ID_DCE_BOOT_COMPLETE_RECEIVED :: EVENT_ID_DCE_SC7_ENTER_REQUESTED :: abort_events)
    | STATE_DCE_BOOTCMD_WFI =>
        only (EVENT_ID_DCE_BOOT_CMD_MSG_RECEIVED :: EVENT_ID_DCE_SC7_ENTER_REQUESTED :: abort_events)
    | STATE_DCE_ADMIN_WFI =>
        only (EVENT_ID_DCE_ADMIN_IPC_MSG_RECEIVED :: EVENT_ID_DCE_SC7_ENTER_REQUESTED :: abort_events)
    | STATE_DCE_SC7_ENTER_WFI => only (EVENT_ID_DCE_SC7_ENTERED_RECEIVED :: abort_events)
    | STATE_DCE_LOG_READY_WFI =>
        only (EVENT_ID_DCE_LOG_READY_RECEIVED :: EVENT_ID_DCE_SC7_ENTER_REQUESTED :: abort_events)
    | STATE_DCE_SC7_ENTERED => only [EVENT_ID_DCE_SC7_EXIT_RECEIVED]
    | STATE_DCE_ABORT => 0
    end.

(** The handlers of the table.  [Wake]: set a completion and return 0; [Work]:
    start deferred work and return 0; [Request]: send something and wait; [BootRequest]: look
    whether the firmware has booted, and otherwise ask it to say when it has, and wait. *)
Inductive handler := Stub | Wake (msg_id : Z) | Work | Request (msg_id : Z) | BootRequest.

Definition event_process_table : list (Z * handler) :=
  [(EVENT_ID_DCE_FSM_START, Stub);
   (EVENT_ID_DCE_BOOT_COMPLETE_REQUESTED, BootRequest);
   (EVENT_ID_DCE_BOOT_COMPLETE_RECEIVED, Wake DCE_WAIT_BOOT_COMPLETE);
   (EVENT_ID_DCE_BOOT_CMD_MSG_REQUESTED, Request DCE_WAIT_BOOT_CMD);
   (EVENT_ID_DCE_BOOT_CMD_MSG_RECEIVED, Wake DCE_WAIT_BOOT_CMD);
   (EVENT_ID_DCE_ADMIN_IPC_MSG_REQUESTED, Request DCE_WAIT_ADMIN_IPC);
   (EVENT_ID_DCE_ADMIN_IPC_MSG_RECEIVED, Wake DCE_WAIT_ADMIN_IPC);
   (EVENT_ID_DCE_SC7_ENTER_REQUESTED, Request DCE_WAIT_SC7_ENTER);
   (EVENT_ID_DCE_SC7_ENTERED_RECEIVED, Wake DCE_WAIT_SC7_ENTER);
   (EVENT_ID_DCE_SC7_EXIT_RECEIVED, Work);
   (EVENT_ID_DCE_LOG_REQUESTED, Stub);
   (EVENT_ID_DCE_LOG_READY_RECEIVED, Stub);
   (EVENT_ID_DCE_ABORT_RECEIVED, Stub);
   (EVENT_ID_DCE_CRASH_LOG_RECEIVED, Stub);
   (EVENT_ID_DCE_LOG_OVERFLOW_RECEIVED, Stub);
   (EVENT_ID_DCE_FSM_STOP, Stub)].

(** The index of the event in the table, its length when it is not there. *)
Fixpoint event_index (event : Z) (table : list (Z * handler)) : nat :=
  match table with
  | [] => 0%nat
  | e :: table => if fst e =? event then 0%nat else S (event_index event table)
  end.
Definition dce_fsm_get_event_index (event : Z) : nat := event_index event event_process_table.

(** * Completions *)

(** [ipc_waits[].complete]. *)
Record tegra_dce := Dce { fsm_info : dce_fsm_info; ipc_waits : list Z }.
Definition set_fsm (d : tegra_dce) (f : dce_fsm_info) := Dce f (ipc_waits d).
Definition set_complete (d : tegra_dce) (msg_id v : Z) :=
  Dce (fsm_info d) (<[Z.to_nat msg_id := v]> (ipc_waits d)).
Definition complete (d : tegra_dce) (msg_id : Z) : Z := nth (Z.to_nat msg_id) (ipc_waits d) 0.

(** One return of [dce_wait_interruptible]; [interrupted]: a signal ended the wait.
    [None]: it still sleeps. *)
Definition dce_wait_interruptible (d : tegra_dce) (msg_id : Z) (interrupted : bool)
    : option (Z * tegra_dce) :=
  if DCE_MAX_WAIT <=? msg_id then Some (- EINVAL, d)
  else if negb (complete d msg_id =? 1) && negb interrupted then None
  else if negb (complete d msg_id =? 1) then Some (- EINTR, d)
  else Some (0, set_complete d msg_id 0).

Definition dce_wakeup_interruptible (d : tegra_dce) (msg_id : Z) : tegra_dce :=
  if DCE_MAX_WAIT <=? msg_id then d else set_complete d msg_id 1.

Definition dce_cond_wait_reset (d : tegra_dce) (msg_id : Z) : tegra_dce :=
  if DCE_MAX_WAIT <=? msg_id then d else set_complete d msg_id 0.

(** * Posting an event *)

(** Under the lock: the check and the change of state; [Some prev] when accepted. *)
Definition post_begin (d : tegra_dce) (event : Z) : Z * tegra_dce * option dce_fsm_state :=
  let ret := dce_fsm_validate_event (fsm_info d) event in
  if negb (ret =? 0) then (ret, d, None)
  else (0, set_fsm d (dce_fsm_set_state (fsm_info d) event), Some (c_state (fsm_info d))).

(** After the handler returned [ret]: the rollback. *)
Definition post_end (d : tegra_dce) (prev : dce_fsm_state) (ret : Z) : tegra_dce :=
  if negb (ret =? 0)
  then set_fsm d (Fsm (initialized (fsm_info d)) prev (requested_ipcs (fsm_info d)))
  else d.

(** [run]: what happens while the handler runs, the handler's own effects and those
    of events posted meanwhile, and the handler's result. *)
Definition dce_fsm_post_event (run : handler -> tegra_dce -> Z * tegra_dce) (d : tegra_dce) (event : Z)
    : Z * tegra_dce :=
  let '(ret, d, prev) := post_begin d event in
  match prev with
  | None => (ret, d)
  | Some prev =>
      match event_process_table !! dce_fsm_get_event_index event with
      | Some (_, h) => let '(ret, d) := run h d in (ret, post_end d prev ret)
      | None => (ret, d)
      end
  end.

(** dce_handle_boot_complete_requested_event when the firmware has booted already: it posts
    the reply itself, and takes the completion back without waiting for it. *)
Definition boot_already_complete (run : handler -> tegra_dce -> Z * tegra_dce) (d : tegra_dce) : Z * tegra_dce :=
  let '(ret, d) := dce_fsm_post_event run d EVENT_ID_DCE_BOOT_COMPLETE_RECEIVED in
  (ret, dce_cond_wait_reset d DCE_WAIT_BOOT_COMPLETE).

Definition dce_fsm_stop (run : handler -> tegra_dce -> Z * tegra_dce) (d : tegra_dce) : tegra_dce :=
  snd (dce_fsm_post_event run d EVENT_ID_DCE_FSM_STOP).

(** [mutex_init] is the result of dce_mutex_init. *)
Definition dce_fsm_init (d : tegra_dce) (mutex_init : Z) : Z * tegra_dce :=
  let f := Fsm (initialized (fsm_info d)) STATE_DCE_INVALID (requested_ipcs (fsm_info d)) in
  if negb (mutex_init =? 0) then (mutex_init, set_fsm d f)
  else (0, set_fsm d (Fsm true (c_state f) (requested_ipcs f))).

Definition dce_fsm_deinit (d : tegra_dce) : tegra_dce :=
  set_fsm d (Fsm false (c_state (fsm_info d)) (requested_ipcs (fsm_info d))).

(** * Setting up the conditions *)

(** The condition variables: the bootstrap one and those of [ipc_waits]. *)
Inductive cond_event := CondInit (c : option nat) | CondDestroy (c : option nat).

(** [dce_init_work] twice, [dce_cond_init] for each condition: do they succeed? *)
Section conds.
Variables (init_work : Z * Z) (cond_init : option nat -> bool).

(** Conditions [i], [i+1], ... ; [inr i]: the one that failed. *)
Fixpoint init_waits (n i : nat) (d : tegra_dce) (log : list cond_event)
    : tegra_dce * list cond_event * option nat :=
  match n with
  | O => (d, log, None)
  | S n =>
      if negb (cond_init (Some i)) then (d, log, Some i)
      else init_waits n (S i) (set_complete d (Z.of_nat i) 0) (log ++ [CondInit (Some i)])
  end.

(** [while (i >= 0) destroy(i--)]. *)
Fixpoint destroy_down (i : nat) : list cond_event :=
  CondDestroy (Some i) :: match i with O => [] | S i => destroy_down i end.

Definition dce_work_cond_sw_resource_init (d : tegra_dce) : Z * tegra_dce * list cond_event :=
  if negb (fst init_work =? 0) then (fst init_work, d, [])
  else if negb (snd init_work =? 0) then (snd init_work, d, [])
  else if negb (cond_init None) then (- 1, d, [])
  else
    let '(d, log, failed) := init_waits (Z.to_nat DCE_MAX_WAIT) 0 d [CondInit None] in
    match failed with
    | None => (0, d, log)
    | Some i => (- 1, d, log ++ destroy_down i ++ [CondDestroy None])
    end.

Fixpoint deinit_waits (n i : nat) (d : tegra_dce) : tegra_dce * list cond_event :=
  match n with
  | O => (d, [])
  | S n =>
      let '(d, log) := deinit_waits n (S i) (set_complete d (Z.of_nat i) 0) in
      (d, CondDestroy (Some i) :: log)
  end.
Definition dce_work_cond_sw_resource_deinit (d : tegra_dce) : tegra_dce * list cond_event :=
  let '(d, log) := deinit_waits (Z.to_nat DCE_MAX_WAIT) 0 d in (d, log ++ [CondDestroy None]).
End conds.
