(* ===== verification/DceFacts.v ===== *)
(** The DCE state machine: what it accepts, that in normal operation no wakeup is
    lost or left over, and what an interrupted wait or a failing handler does to
    it. *)
From S2P Require Export DceFsm.

(** * Which events are accepted *)

(** The reply a state waits for, and the completion that goes with it. *)
Definition reply_of (s : dce_fsm_state) : option Z :=
  match s with
  | STATE_DCE_BOOT_WAIT => Some EVENT_ID_DCE_BOOT_COMPLETE_RECEIVED
  | STATE_DCE_BOOTCMD_WFI => Some EVENT_ID_DCE_BOOT_CMD_MSG_RECEIVED
  | STATE_DCE_ADMIN_WFI => Some EVENT_ID_DCE_ADMIN_IPC_MSG_RECEIVED
  | STATE_DCE_SC7_ENTER_WFI => Some EVENT_ID_DCE_SC7_ENTERED_RECEIVED
  | STATE_DCE_LOG_READY_WFI => Some EVENT_ID_DCE_LOG_READY_RECEIVED
  | _ => None
  end.

Definition acceptable (s : dce_fsm_state) (ev : Z) : Prop :=
  match s with
  | STATE_DCE_INVALID => ev = EVENT_ID_DCE_FSM_START
  | STATE_DCE_FSM_IDLE => ev <> EVENT_ID_DCE_FSM_START /\ forall s', reply_of s' <> Some ev
  | STATE_DCE_SC7_ENTERED => ev = EVENT_ID_DCE_SC7_EXIT_RECEIVED
  | STATE_DCE_ABORT => True
  | _ => reply_of s = Some ev \/ ev ∈ abort_events \/
         (ev = EVENT_ID_DCE_SC7_ENTER_REQUESTED /\ s <> STATE_DCE_SC7_ENTER_WFI)
  end.

Lemma one_of_elem ev l : one_of ev l = true <-> ev ∈ l.
Proof.
  unfold one_of. rewrite existsb_exists. split.
  - intros (x & Hx & E). zb. subst. by apply list_elem_of_In.
  - intros H. exists ev. split; [by apply list_elem_of_In|]. apply Z.eqb_refl.
Qed.

Lemma only_zero ev l : (if one_of ev l then 0 else - EINVAL) = 0 <-> ev ∈ l.
Proof. rewrite <- one_of_elem. by destruct (one_of ev l). Qed.

Lemma idle_replies ev :
  ev ∈ [EVENT_ID_DCE_BOOT_COMPLETE_RECEIVED; EVENT_ID_DCE_BOOT_CMD_MSG_RECEIVED;
        EVENT_ID_DCE_ADMIN_IPC_MSG_RECEIVED; EVENT_ID_DCE_SC7_ENTERED_RECEIVED;
        EVENT_ID_DCE_LOG_READY_RECEIVED; EVENT_ID_DCE_FSM_START]
  <-> ev = EVENT_ID_DCE_FSM_START \/ exists s, reply_of s = Some ev.
Proof.
  split.
  - intros H. repeat (apply elem_of_cons in H as [->|H]);
      [right; by exists STATE_DCE_BOOT_WAIT|right; by exists STATE_DCE_BOOTCMD_WFI
      |right; by exists STATE_DCE_ADMIN_WFI|right; by exists STATE_DCE_SC7_ENTER_WFI
      |right; by exists STATE_DCE_LOG_READY_WFI|by left|by apply not_elem_of_nil in H].
  - intros [->|[s E]]; [set_solver|]. destruct s; simplify_eq/=; set_solver.
Qed.

(**  Which events the state machine takes.  Once initialised, it accepts an event
    up to FSM_STOP exactly as follows: a waiting state its own reply, the aborts and
    the stop, and except in SC7_ENTER_WFI a request to enter SC7; the idle state
    everything but replies and the start; INVALID only the start and SC7_ENTERED only
    the exit.  A reply is thus never taken by a state that did not ask for it,
    except in ABORT, which takes everything.  An accepted event changes the state
    as [dce_fsm_set_state] says, and a refused one returns -EINVAL and changes nothing. *)
Theorem post_begin_correct d ev :
  initialized (fsm_info d) = true -> ev <= EVENT_ID_DCE_FSM_STOP ->
  (acceptable (c_state (fsm_info d)) ev ->
     post_begin d ev = (0, set_fsm d (dce_fsm_set_state (fsm_info d) ev), Some (c_state (fsm_info d)))) /\
  (~ acceptable (c_state (fsm_info d)) ev -> post_begin d ev = (- EINVAL, d, None)).
Proof.
  intros Hi Hev.
  assert (Hv : dce_fsm_validate_event (fsm_info d) ev = 0 <-> acceptable (c_state (fsm_info d)) ev).
  { unfold dce_fsm_validate_event. rewrite (proj2 (Z.ltb_ge _ _)), Hi by done. simpl negb. cbv iota.
    destruct (c_state (fsm_info d)); unfold acceptable; rewrite ?only_zero; unfold abort_events;
      try (simpl; set_solver).
    destruct (one_of ev _) eqn:E.
    - apply one_of_elem, idle_replies in E. split; [done|]. intros [H1 H2]. destruct E as [E|[s E]]; [done|].
      by destruct (H2 s).
    - split; [intros _|done]. assert (Hn : ~ one_of ev [EVENT_ID_DCE_BOOT_COMPLETE_RECEIVED; EVENT_ID_DCE_BOOT_CMD_MSG_RECEIVED;
        EVENT_ID_DCE_ADMIN_IPC_MSG_RECEIVED; EVENT_ID_DCE_SC7_ENTERED_RECEIVED;
        EVENT_ID_DCE_LOG_READY_RECEIVED; EVENT_ID_DCE_FSM_START] = true) by (by rewrite E).
      rewrite one_of_elem, idle_replies in Hn. split; [tauto|]. intros s Hs. apply Hn. right. by exists s. }
  assert (He : dce_fsm_validate_event (fsm_info d) ev = 0 \/ dce_fsm_validate_event (fsm_info d) ev = - EINVAL).
  { unfold dce_fsm_validate_event. destruct (_ <? ev); [auto|]. destruct (negb _); [auto|].
    destruct (c_state (fsm_info d)); try destruct (one_of ev _); auto. }
  unfold post_begin. split; intros Ha.
  - by rewrite (proj2 Hv Ha).
  - destruct He as [He|He]; [by destruct Ha; apply Hv|]. by rewrite He.
Qed.

(** * Posts and handlers in any order *)

(** Where a handler is.  [boot_already_complete] has steps of its own: [EarlyWake p]: its post
    has been accepted in state [p]; [EarlyReset ret]: its post has returned [ret]. *)
Inductive place := At (h : handler) | EarlyWake (p : dce_fsm_state) | EarlyReset (ret : Z).
Coercion At : handler >-> place.

(** A post whose handler is running. *)
Record thread := Th { th_place : place; th_prev : dce_fsm_state }.
Record dsys := DSys { dev : tegra_dce; threads : list thread }.

Definition handler_of (ev : Z) : handler :=
  match event_process_table !! dce_fsm_get_event_index ev with Some (_, h) => h | None => Stub end.

(** [allowed]: which events may be posted; [faults]: waits may be interrupted and
    requests may fail to send. *)
Section steps.
Variables (allowed : dsys -> Z -> Prop) (faults : bool).

Inductive dstep : dsys -> dsys -> Prop :=
  | d_post s ev d' prev : allowed s ev -> post_begin (dev s) ev = (0, d', Some prev) ->
      dstep s (DSys d' (threads s ++ [Th (handler_of ev) prev]))
  | d_done d l1 l2 h prev : h = Stub \/ h = Work ->
      dstep (DSys d (l1 ++ Th (At h) prev :: l2)) (DSys (post_end d prev 0) (l1 ++ l2))
  | d_wake d l1 l2 x prev :
      dstep (DSys d (l1 ++ Th (Wake x) prev :: l2))
            (DSys (post_end (dce_wakeup_interruptible d x) prev 0) (l1 ++ l2))
  | d_wait d l1 l2 x prev ret d' :
      dce_wait_interruptible d x false = Some (ret, d') ->
      dstep (DSys d (l1 ++ Th (Request x) prev :: l2)) (DSys (post_end d' prev ret) (l1 ++ l2))
  | d_interrupted d l1 l2 x prev ret d' : faults = true ->
      dce_wait_interruptible d x true = Some (ret, d') ->
      dstep (DSys d (l1 ++ Th (Request x) prev :: l2)) (DSys (post_end d' prev ret) (l1 ++ l2))
  (* dce_handle_boot_complete_requested_event: the firmware has not booted *)
  | d_boot_ask d l1 l2 prev :
      dstep (DSys d (l1 ++ Th BootRequest prev :: l2)) (DSys d (l1 ++ Th (Request DCE_WAIT_BOOT_COMPLETE) prev :: l2))
  (* it has: the post of the reply, its handler, and the end *)
  | d_early_post d l1 l2 prev d' p :
      post_begin d EVENT_ID_DCE_BOOT_COMPLETE_RECEIVED = (0, d', Some p) ->
      dstep (DSys d (l1 ++ Th BootRequest prev :: l2)) (DSys d' (l1 ++ Th (EarlyWake p) prev :: l2))
  | d_early_refused d l1 l2 prev d' ret :
      post_begin d EVENT_ID_DCE_BOOT_COMPLETE_RECEIVED = (ret, d', None) ->
      dstep (DSys d (l1 ++ Th BootRequest prev :: l2)) (DSys d' (l1 ++ Th (EarlyReset ret) prev :: l2))
  | d_early_wake d l1 l2 p prev :
      dstep (DSys d (l1 ++ Th (EarlyWake p) prev :: l2))
            (DSys (post_end (dce_wakeup_interruptible d DCE_WAIT_BOOT_COMPLETE) p 0) (l1 ++ Th (EarlyReset 0) prev :: l2))
  | d_early_reset d l1 l2 ret prev :
      dstep (DSys d (l1 ++ Th (EarlyReset ret) prev :: l2))
            (DSys (post_end (dce_cond_wait_reset d DCE_WAIT_BOOT_COMPLETE) prev ret) (l1 ++ l2))
  | d_not_sent d l1 l2 x prev ret : faults = true -> ret <> 0 -> x <> DCE_WAIT_BOOT_COMPLETE ->
      dstep (DSys d (l1 ++ Th (Request x) prev :: l2)) (DSys (post_end d prev ret) (l1 ++ l2)).
End steps.

(** * Normal operation

    Boot, boot commands and admin messages: a request is posted only when no
    other request is in flight; replies may be posted at any time, except that the firmware
    says that it has booted only when it has been asked. *)
Definition is_request (t : thread) : Prop :=
  match th_place t with At (Request _) | At BootRequest | EarlyWake _ | EarlyReset _ => True | _ => False end.
(** A request that has found the firmware booted, or has not asked yet. *)
Definition not_asked (t : thread) : Prop :=
  match th_place t with At BootRequest | EarlyWake _ | EarlyReset _ => True | _ => False end.
Definition requests : list Z :=
  [EVENT_ID_DCE_BOOT_COMPLETE_REQUESTED; EVENT_ID_DCE_BOOT_CMD_MSG_REQUESTED; EVENT_ID_DCE_ADMIN_IPC_MSG_REQUESTED].
Definition replies : list Z :=
  [EVENT_ID_DCE_BOOT_COMPLETE_RECEIVED; EVENT_ID_DCE_BOOT_CMD_MSG_RECEIVED; EVENT_ID_DCE_ADMIN_IPC_MSG_RECEIVED].
Definition normal (s : dsys) (ev : Z) : Prop :=
  (ev ∈ requests /\ Forall (fun t => ~ is_request t) (threads s)) \/
  (ev ∈ replies /\ (ev = EVENT_ID_DCE_BOOT_COMPLETE_RECEIVED -> Forall (fun t => ~ not_asked t) (threads s))).

(** The waiting state of completion [x]. *)
Definition wfi (x : Z) : dce_fsm_state :=
  if x =? DCE_WAIT_BOOT_COMPLETE then STATE_DCE_BOOT_WAIT
  else if x =? DCE_WAIT_BOOT_CMD then STATE_DCE_BOOTCMD_WFI else STATE_DCE_ADMIN_WFI.

(** No completion is set, or only [x]. *)
Definition waits_clear : list Z := [0; 0; 0; 0; 0].
Definition ready_fsm (s : dce_fsm_state) (ipcs : Z) : dce_fsm_info := Fsm true s ipcs.

Definition d_idle : tegra_dce := Dce (ready_fsm STATE_DCE_FSM_IDLE 0) waits_clear.
Definition d_waiting (x : Z) : tegra_dce := Dce (ready_fsm (wfi x) (DCE_BIT x)) waits_clear.
Definition d_woken (x : Z) : tegra_dce :=
  Dce (ready_fsm STATE_DCE_FSM_IDLE 0) (<[Z.to_nat x := 1]> waits_clear).

Inductive phase : dsys -> Prop :=
  | quiet : phase (DSys d_idle [])
  | asking prev : phase (DSys (d_waiting 0) [Th BootRequest prev])
  | early_waking p prev : phase (DSys d_idle [Th (EarlyWake p) prev])
  | early_woken prev : phase (DSys (d_woken 0) [Th (EarlyReset 0) prev])
  | waiting x prev : x ∈ [0; 1; 2] -> phase (DSys (d_waiting x) [Th (Request x) prev])
  | waking x prev prev2 : x ∈ [0; 1; 2] -> phase (DSys d_idle [Th (Request x) prev; Th (Wake x) prev2])
  | woken x prev : x ∈ [0; 1; 2] -> phase (DSys (d_woken x) [Th (Request x) prev]).

Lemma app_cons_1 {A} (l1 l2 : list A) x a : l1 ++ x :: l2 = [a] -> l1 = [] /\ l2 = [] /\ x = a.
Proof. destruct l1 as [|y l1]; [by intros [= -> ->]|]. by destruct l1. Qed.

Lemma app_cons_2 {A} (l1 l2 : list A) x a b :
  l1 ++ x :: l2 = [a; b] -> (l1 = [] /\ x = a /\ l2 = [b]) \/ (l1 = [a] /\ x = b /\ l2 = []).
Proof.
  destruct l1 as [|y l1]; [intros [= -> ->]; auto|].
  intros [= -> (-> & -> & ->)%app_cons_1]. auto.
Qed.

Ltac each_id H :=
  repeat (apply elem_of_cons in H as [->|H]); try (by apply not_elem_of_nil in H).

(** What may be posted: nothing in a phase with a request in flight but its own reply. *)
Lemma normal_busy s ev t : normal s ev -> t ∈ threads s -> is_request t ->
  ev ∈ replies /\ (not_asked t -> ev <> EVENT_ID_DCE_BOOT_COMPLETE_RECEIVED).
Proof.
  intros [[_ Hf]|[Hr Hb]] Ht Hq; [by destruct (proj1 (Forall_forall _ _) Hf t Ht)|].
  split; [done|]. intros Hn He. by destruct (proj1 (Forall_forall _ _) (Hb He) t Ht).
Qed.

(** From each phase, what may be posted. *)
Lemma phase_post s ev d' prev :
  phase s -> normal s ev -> post_begin (dev s) ev = (0, d', Some prev) ->
  phase (DSys d' (threads s ++ [Th (handler_of ev) prev])).
Proof.
  assert (Hrefused : forall d, d = d_idle \/ (exists x, d = d_woken x) -> ev ∈ replies ->
    post_begin d ev = (0, d', Some prev) -> False).
  { intros d Hd Hr Hb. destruct Hd as [->|[x ->]]; each_id Hr; vm_compute in Hb; discriminate. }
  intros Hp Hn Hb. destruct Hp as [|p|p q|p|x p Hx|x p p2 Hx|x p Hx]; cbn [dev threads app] in *.
  - destruct Hn as [[Hr _]|[Hr _]]; [|by destruct (Hrefused d_idle); auto].
    each_id Hr; vm_compute in Hb; simplify_eq.
    + apply asking.
    + by apply (waiting 1); set_solver.
    + by apply (waiting 2); set_solver.
  - destruct (normal_busy _ _ _ Hn ltac:(by left) I) as [Hr Hne]. specialize (Hne I).
    each_id Hr; [done|..]; vm_compute in Hb; discriminate.
  - destruct (normal_busy _ _ _ Hn ltac:(by left) I) as [Hr _]. by destruct (Hrefused d_idle); auto.
  - destruct (normal_busy _ _ _ Hn ltac:(by left) I) as [Hr _]. by destruct (Hrefused (d_woken 0)); eauto.
  - destruct (normal_busy _ _ _ Hn ltac:(by left) I) as [Hr _].
    each_id Hx; each_id Hr; vm_compute in Hb; simplify_eq.
    + by apply (waking 0); set_solver.
    + by apply (waking 1); set_solver.
    + by apply (waking 2); set_solver.
  - destruct (normal_busy _ _ _ Hn ltac:(by left) I) as [Hr _]. by destruct (Hrefused d_idle); auto.
  - destruct (normal_busy _ _ _ Hn ltac:(by left) I) as [Hr _]. by destruct (Hrefused (d_woken x)); eauto.
Qed.

(** A running handler in a phase. *)
Lemma phase_pick d l1 t l2 : phase (DSys d (l1 ++ t :: l2)) ->
  (exists prev, l1 = [] /\ l2 = [] /\
     (d = d_waiting 0 /\ t = Th BootRequest prev \/ (d = d_idle /\ exists p, t = Th (EarlyWake p) prev) \/
      d = d_woken 0 /\ t = Th (EarlyReset 0) prev)) \/
  exists x prev, x ∈ [0; 1; 2] /\
    ((l1 = [] /\ l2 = [] /\ t = Th (Request x) prev /\ (d = d_waiting x \/ d = d_woken x)) \/
     (d = d_idle /\ exists prev2, (l1 = [] /\ t = Th (Request x) prev /\ l2 = [Th (Wake x) prev2]) \/
        (l1 = [Th (Request x) prev] /\ t = Th (Wake x) prev2 /\ l2 = []))).
Proof.
  intros Hp. inversion Hp as [E|p E|q p E|p E|x p Hx E|x p p2 Hx E|x p Hx E];
    match goal with H : _ = l1 ++ _ |- _ => symmetry in H | H : l1 ++ _ = _ |- _ => idtac end.
  - by destruct l1.
  - match goal with H : _ = [_] |- _ => apply app_cons_1 in H as (-> & -> & ->) end. left. exists p. auto.
  - match goal with H : _ = [_] |- _ => apply app_cons_1 in H as (-> & -> & ->) end. left. exists p. eauto 10.
  - match goal with H : _ = [_] |- _ => apply app_cons_1 in H as (-> & -> & ->) end. left. exists p. auto 10.
  - match goal with H : _ = [_] |- _ => apply app_cons_1 in H as (-> & -> & ->) end.
    right. exists x, p. split; [done|]. left. auto.
  - match goal with H : _ = [_; _] |- _ => apply app_cons_2 in H as [(-> & -> & ->)|(-> & -> & ->)] end;
      right; exists x, p; (split; [done|]); right; (split; [done|]); exists p2; auto.
  - match goal with H : _ = [_] |- _ => apply app_cons_1 in H as (-> & -> & ->) end.
    right. exists x, p. split; [done|]. left. auto.
Qed.

Lemma phase_step s s' : phase s -> dstep normal false s s' -> phase s'.
Proof.
  intros Hp Hs. destruct Hs as [s ev d' prev Hn Hb|d l1 l2 h prev Hh|d l1 l2 x prev
    |d l1 l2 x prev ret d' Hw|?|d l1 l2 prev|d l1 l2 prev d' p Hb|d l1 l2 prev d' ret Hb|d l1 l2 p prev|d l1 l2 ret prev|?];
    try done; [by eapply phase_post|..];
    apply phase_pick in Hp as [(q & -> & -> & [[-> E]|[[-> [p' E]]|[-> E]]])|
      (y & q & Hy & [(-> & -> & E & [->| ->])|(-> & p2 & [(-> & E & ->)|(-> & E & ->)])])]; simplify_eq/=;
    try (by destruct Hh); try (vm_compute in Hb; simplify_eq).
  - by each_id Hy; [apply (woken 0)|apply (woken 1)|apply (woken 2)]; set_solver.
  - each_id Hy; vm_compute in Hw; simplify_eq; apply quiet.
  - each_id Hy; vm_compute in Hw; simplify_eq; apply quiet.
  - each_id Hy; vm_compute in Hw; simplify_eq; apply quiet.
  - by apply (waiting 0); set_solver.
  - apply early_waking.
  - apply early_woken.
  - apply quiet.
Qed.



(** When the firmware says that it has booted although it has not been asked, and the request
    finds it booted too, the boot request fails and a completion is left over: the reply of the
    interrupt is accepted first, that of the request is refused, and the completion is set after
    the request has cleared it. *)
Lemma ready_race_leaves_completion :
  exists s, rtc (dstep (fun s ev => ev ∈ requests /\ threads s = [] \/ ev ∈ replies) false) (DSys d_idle []) s /\
    threads s = [] /\ c_state (fsm_info (dev s)) = STATE_DCE_FSM_IDLE /\ complete (dev s) DCE_WAIT_BOOT_COMPLETE = 1.
Proof.
  exists (DSys (d_woken 0) []). split; [|done].
  eapply rtc_l; [apply (d_post _ _ _ EVENT_ID_DCE_BOOT_COMPLETE_REQUESTED (d_waiting 0) STATE_DCE_FSM_IDLE);
    [left; split; [set_solver|done]|reflexivity]|].
  eapply rtc_l; [apply (d_post _ _ _ EVENT_ID_DCE_BOOT_COMPLETE_RECEIVED d_idle STATE_DCE_BOOT_WAIT);
    [right; set_solver|reflexivity]|].
  eapply rtc_l; [apply (d_early_refused _ _ d_idle [] [Th (Wake 0) STATE_DCE_BOOT_WAIT] STATE_DCE_FSM_IDLE d_idle (- EINVAL)); reflexivity|].
  eapply rtc_l; [apply (d_early_reset _ _ d_idle [] [Th (Wake 0) STATE_DCE_BOOT_WAIT])|].
  eapply rtc_l; [apply (d_wake _ _ d_idle [] [])|]. apply rtc_refl.
Qed.

(** In one piece: a boot request that finds the firmware booted. *)
Lemma boot_already_complete_ok :
  boot_already_complete (fun h d => match h with Wake x => (0, dce_wakeup_interruptible d x) | _ => (0, d) end) (d_waiting 0) =
  (0, d_idle).
Proof. reflexivity. Qed.

(** * Interrupted waits and failing handlers *)

(** An interrupted wait poisons the next request.  With the same discipline but a
    wait that a signal may end, a reply that arrives between the signal and the
    rollback leaves the completion set with no request in flight; the next boot
    command then returns success at once, while the state machine still waits
    for its reply. *)
Theorem interrupted_wait_leaves_completion :
  exists s1 s2, rtc (dstep normal true) (DSys d_idle []) s1 /\ threads s1 = [] /\
    complete (dev s1) DCE_WAIT_BOOT_CMD = 1 /\
    dstep normal true s1 s2 /\ c_state (fsm_info (dev s2)) = STATE_DCE_BOOTCMD_WFI /\
    exists d', dce_wait_interruptible (dev s2) DCE_WAIT_BOOT_CMD false = Some (0, d') /\
      c_state (fsm_info d') = STATE_DCE_BOOTCMD_WFI.
Proof.
  exists (DSys (d_woken 1) []).
  exists (DSys (Dce (ready_fsm STATE_DCE_BOOTCMD_WFI 2) (<[1%nat := 1]> waits_clear))
            [Th (Request 1) STATE_DCE_FSM_IDLE]).
  split_and!; try done.
  - eapply rtc_l; [apply (d_post _ _ _ EVENT_ID_DCE_BOOT_CMD_MSG_REQUESTED (d_waiting 1) STATE_DCE_FSM_IDLE);
      [left; split; [set_solver|constructor]|reflexivity]|].
    eapply rtc_l; [apply (d_post _ _ _ EVENT_ID_DCE_BOOT_CMD_MSG_RECEIVED d_idle STATE_DCE_BOOTCMD_WFI);
      [right; split; [set_solver|done]|reflexivity]|].
    eapply rtc_l; [apply (d_interrupted _ _ _ [] [_] 1 _ (- EINTR) d_idle); reflexivity|].
    eapply rtc_l; [apply (d_wake _ _ _ [] [])|]. apply rtc_refl.
  - apply (d_post _ _ (DSys (d_woken 1) []) EVENT_ID_DCE_BOOT_CMD_MSG_REQUESTED); [|reflexivity].
    left. split; [set_solver|constructor].
  - eexists. split; reflexivity.
Qed.

(** A failing handler undoes an abort.  The rollback of [dce_fsm_post_event] stores
    the state from before its own event without looking at the current one: when
    an abort arrives while a request is in flight and the request then fails, the
    state machine goes from ABORT back to IDLE. *)
Theorem rollback_undoes_abort :
  exists s1 s2, rtc (dstep (fun _ _ => True) true) (DSys d_idle []) s1 /\
    c_state (fsm_info (dev s1)) = STATE_DCE_ABORT /\
    dstep (fun _ _ => False) true s1 s2 /\ c_state (fsm_info (dev s2)) = STATE_DCE_FSM_IDLE /\
    requested_ipcs (fsm_info (dev s2)) = DCE_BIT DCE_WAIT_ADMIN_IPC.
Proof.
  pose (aborted := Dce (ready_fsm STATE_DCE_ABORT 4) waits_clear).
  exists (DSys aborted [Th (Request 2) STATE_DCE_FSM_IDLE]),
    (DSys (Dce (ready_fsm STATE_DCE_FSM_IDLE 4) waits_clear) []).
  split_and!; try done.
  - eapply rtc_l; [apply (d_post _ _ _ EVENT_ID_DCE_ADMIN_IPC_MSG_REQUESTED (d_waiting 2) STATE_DCE_FSM_IDLE);
      [done|reflexivity]|].
    eapply rtc_l; [apply (d_post _ _ _ EVENT_ID_DCE_ABORT_RECEIVED aborted STATE_DCE_ADMIN_WFI);
      [done|reflexivity]|].
    eapply rtc_l; [apply (d_done _ _ aborted [_] []); by left|]. apply rtc_refl.
  - by apply (d_not_sent _ _ aborted [] [] 2 STATE_DCE_FSM_IDLE (- EINTR)).
Qed.

(** * Condition variables *)
Definition cond_count (c : option nat) (log : list cond_event) : Z :=
  foldr (fun e n => n + match e with
                        | CondInit c' => if decide (c' = c) then 1 else 0
                        | CondDestroy c' => if decide (c' = c) then - 1 else 0
                        end) 0 log.

Lemma nth_insert (q : list Z) j k : nth k (<[j := 0]> q) 0 = if decide (j = k) then 0 else nth k q 0.
Proof.
  revert j k. induction q as [|y q IH]; intros [|j] [|k]; simpl; try done.
  - by case_decide.
  - rewrite IH. repeat case_decide; lia.
Qed.

(** Setting up the conditions.  When everything succeeds,
    [dce_work_cond_sw_resource_init] initialises the bootstrap condition and the
    five wait conditions with their completions clear, and the deinit destroys
    exactly these.  When the condition of wait [k] cannot be initialised, it
    returns -1 and destroys everything initialised before, but also that condition,
    which was never initialised. *)
Theorem cond_resource_init_correct cond_init d :
  let '(ret, d', log) := dce_work_cond_sw_resource_init (0, 0) cond_init d in
  (ret = 0 /\ (forall i, (i < 5)%nat -> cond_init (Some i) = true) /\ cond_init None = true /\
     (forall c, cond_count c (log ++ snd (dce_work_cond_sw_resource_deinit d')) = 0) /\
     forall x, 0 <= x < DCE_MAX_WAIT -> complete d' x = 0) \/
  (ret = - 1 /\ cond_init None = false /\ log = []) \/
  (ret = - 1 /\ exists k, (k < 5)%nat /\ cond_init (Some k) = false /\
     forall c, cond_count c log = if decide (c = Some k) then - 1 else 0).
Proof.
  unfold dce_work_cond_sw_resource_init. simpl fst. simpl snd. cbv [negb Z.eqb].
  destruct (cond_init None) eqn:En; [|auto].
  change (Z.to_nat DCE_MAX_WAIT) with 5%nat. cbn [init_waits].
  assert (Hfail : forall k log, (k < 5)%nat -> cond_init (Some k) = false ->
    log = CondInit None :: ((fun i => CondInit (Some i)) <$> seq 0 k) ++ destroy_down k ++ [CondDestroy None] ->
    forall c, cond_count c log = if decide (c = Some k) then - 1 else 0).
  { intros k log Hk Hf -> c. do 5 (try destruct k as [|k]; [simpl; repeat case_decide; simplify_eq; lia|]). lia. }
  destruct (cond_init (Some 0%nat)) eqn:E0; [|right; right; split; [done|]; exists 0%nat; split_and!; [lia|done|by apply Hfail; [lia|..]]].
  destruct (cond_init (Some 1%nat)) eqn:E1; [|right; right; split; [done|]; exists 1%nat; split_and!; [lia|done|by apply Hfail; [lia|..]]].
  destruct (cond_init (Some 2%nat)) eqn:E2; [|right; right; split; [done|]; exists 2%nat; split_and!; [lia|done|by apply Hfail; [lia|..]]].
  destruct (cond_init (Some 3%nat)) eqn:E3; [|right; right; split; [done|]; exists 3%nat; split_and!; [lia|done|by apply Hfail; [lia|..]]].
  destruct (cond_init (Some 4%nat)) eqn:E4; [|right; right; split; [done|]; exists 4%nat; split_and!; [lia|done|by apply Hfail; [lia|..]]].
  left. split_and!; try done.
  - intros i Hi. do 5 (destruct i as [|i]; [done|]). lia.
  - intros c. simpl. repeat case_decide; simplify_eq; lia.
  - intros x Hx. unfold complete, set_complete. cbn [ipc_waits].
    assert (Hx' : (Z.to_nat x < 5)%nat) by (unfold DCE_MAX_WAIT in Hx; lia).
    change (Z.to_nat (Z.of_nat 0)) with 0%nat. change (Z.to_nat (Z.of_nat 1)) with 1%nat.
    change (Z.to_nat (Z.of_nat 2)) with 2%nat. change (Z.to_nat (Z.of_nat 3)) with 3%nat.
    change (Z.to_nat (Z.of_nat 4)) with 4%nat. rewrite !nth_insert. repeat case_decide; lia.
Qed.

(** In IDLE a boot-command reply is refused, and a request accepted. *)
Lemma post_begin_witness :
  post_begin d_idle EVENT_ID_DCE_BOOT_CMD_MSG_RECEIVED = (- EINVAL, d_idle, None) /\
  post_begin d_idle EVENT_ID_DCE_BOOT_CMD_MSG_REQUESTED = (0, d_waiting 1, Some STATE_DCE_FSM_IDLE).
Proof.
  split.
  - apply post_begin_correct; [done|done|]. intros [_ H]. by apply (H STATE_DCE_BOOTCMD_WFI).
  - apply (post_begin_correct d_idle EVENT_ID_DCE_BOOT_CMD_MSG_REQUESTED); [done|done|].
    split; [done|]. by intros [].
Defined.
