(* ===== verification/Host1xSyncpt.v ===== *)
(** Host1x syncpoints, their fences and the interrupt path
    (src/drivers/gpu/host1x/syncpt.c and syncpt.h, intr.c, fence.c).

    A syncpoint counts up modulo 2^32; a fence is signalled when the count
    reaches its threshold, by the interrupt or by a timeout. *)
From S2P Require Export Prelude.

(** * Syncpoint values *)

(** [((current - thresh) & 0x80000000) == 0]. *)
Definition value_reached (value thresh : Z) : bool := Z.land (u32 (value - thresh)) 0x80000000 =? 0.

(** struct host1x_syncpt; the name's contents do not matter, the base and the
    pool are indices. *)
Record host1x_syncpt := Syncpt {
  ref : Z;
  id : Z;
  min_val : Z;
  max_val : Z;
  name : option nat;
  client_managed : bool;
  sp_base : option nat;
  pool : option nat;
  locked : bool }.

Definition host1x_syncpt_is_expired (sp : host1x_syncpt) (thresh : Z) : bool :=
  value_reached (min_val sp) thresh.

Definition host1x_syncpt_check_max (sp : host1x_syncpt) (real : Z) : bool :=
  if client_managed sp then true else 0 <=? s32 (u32 (max_val sp - real)).

Definition set_max (sp : host1x_syncpt) (v : Z) : host1x_syncpt :=
  Syncpt (ref sp) (id sp) (min_val sp) v (name sp) (client_managed sp) (sp_base sp) (pool sp) (locked sp).
Definition set_min (sp : host1x_syncpt) (v : Z) : host1x_syncpt :=
  Syncpt (ref sp) (id sp) v (max_val sp) (name sp) (client_managed sp) (sp_base sp) (pool sp) (locked sp).
Definition set_ref (sp : host1x_syncpt) (r : Z) : host1x_syncpt :=
  Syncpt r (id sp) (min_val sp) (max_val sp) (name sp) (client_managed sp) (sp_base sp) (pool sp) (locked sp).
Definition set_sp_base (sp : host1x_syncpt) (b : option nat) : host1x_syncpt :=
  Syncpt (ref sp) (id sp) (min_val sp) (max_val sp) (name sp) (client_managed sp) b (pool sp) (locked sp).

(** Returns the new maximum. *)
Definition host1x_syncpt_incr_max (sp : host1x_syncpt) (incrs : Z) : Z * host1x_syncpt :=
  let v := u32 (max_val sp + incrs) in (v, set_max sp v).

(** * Allocation *)

(** struct host1x: the syncpoints, which bases are requested, the pools' names. *)
Record host1x := Host {
  syncpt : list host1x_syncpt;
  bases : list bool;
  pools : list string;
  syncpt_base : nat;
  syncpt_end : nat }.

Definition set_syncpt (h : host1x) (i : nat) (sp : host1x_syncpt) : host1x :=
  Host (<[i := sp]> (syncpt h)) (bases h) (pools h) (syncpt_base h) (syncpt_end h).
Definition set_bases (h : host1x) (bs : list bool) : host1x :=
  Host (syncpt h) bs (pools h) (syncpt_base h) (syncpt_end h).

Definition HOST1X_SYNCPT_CLIENT_MANAGED := 1.
Definition HOST1X_SYNCPT_HAS_BASE := 2.
Definition HOST1X_SYNCPT_GPU := 4.
Definition has_flag (flags f : Z) : bool := negb (Z.land flags f =? 0).

(** The first index from [i] on, below [i + n], that satisfies [P]. *)
Fixpoint first_from (P : nat -> bool) (n i : nat) : option nat :=
  match n with
  | O => None
  | S n => if P i then Some i else first_from P n (S i)
  end.

Definition host1x_syncpt_base_request (h : host1x) : option (nat * host1x) :=
  i ← first_from (fun i => negb (nth i (bases h) true)) (length (bases h)) 0;
  Some (i, set_bases h (<[i := true]> (bases h))).

Definition host1x_syncpt_base_free (h : host1x) (base : option nat) : host1x :=
  match base with None => h | Some b => set_bases h (<[b := false]> (bases h)) end.

(** The pool to take the syncpoint from; NULL when there is no pool "gpu". *)
Definition alloc_pool (h : host1x) (flags : Z) : option nat :=
  if has_flag flags HOST1X_SYNCPT_GPU
  then first_from (fun i => bool_decide (pools h !! i = Some "gpu"%string)) (length (pools h)) 0
  else None.

Definition alloc_fits (h : host1x) (p : option nat) (i : nat) : bool :=
  match syncpt h !! i with
  | Some sp => bool_decide (pool sp = p) && (ref sp =? 0)
  | None => false
  end.

(** [nm]: the name, or NULL; [kasprintf_ok]: the full name could be allocated.  The
    result is the index of the syncpoint. *)
Definition host1x_syncpt_alloc (h : host1x) (flags : Z) (nm : option nat) (kasprintf_ok : bool)
    : option nat * host1x :=
  match nm with
  | None => (None, h)
  | Some nm =>
      let p := alloc_pool h flags in
      match first_from (alloc_fits h p) (syncpt_end h - syncpt_base h) (syncpt_base h) with
      | None => (None, h)
      | Some i =>
          match syncpt h !! i with
          | None => (None, h)
          | Some sp =>
              let got :=
                if has_flag flags HOST1X_SYNCPT_HAS_BASE then
                  match host1x_syncpt_base_request h with
                  | None => (false, set_sp_base sp None, h)
                  | Some (b, h) => (true, set_sp_base sp (Some b), h)
                  end
                else (true, sp, h) in
              let '(ok, sp, h) := got in
              if negb ok then (None, set_syncpt h i sp)
              else if negb kasprintf_ok then
                (None, set_syncpt (host1x_syncpt_base_free h (sp_base sp)) i (set_sp_base sp None))
              else
                (Some i, set_syncpt h i
                   (Syncpt 1 (id sp) (min_val sp) (max_val sp) (Some nm)
                      (has_flag flags HOST1X_SYNCPT_CLIENT_MANAGED) (sp_base sp) (pool sp) (locked sp)))
          end
      end
  end.

(** [kref_put]: the count goes down; [true] when it reached zero and
    [syncpt_release] is to be called. *)
Definition kref_put (h : host1x) (i : nat) : bool * host1x :=
  match syncpt h !! i with
  | None => (false, h)
  | Some sp => (ref sp =? 1, set_syncpt h i (set_ref sp (ref sp - 1)))
  end.

(** [hw]: the value host1x_syncpt_read loads. *)
Definition syncpt_release (h : host1x) (i : nat) (hw : Z) : host1x :=
  match syncpt h !! i with
  | None => h
  | Some sp =>
      let h := host1x_syncpt_base_free h (sp_base sp) in
      set_syncpt h i (Syncpt (ref sp) (id sp) hw hw None false None (pool sp) false)
  end.

Definition host1x_syncpt_put (h : host1x) (i : option nat) (hw : Z) : host1x :=
  match i with
  | None => h
  | Some i => let '(zero, h) := kref_put h i in if zero then syncpt_release h i hw else h
  end.

(** [kref_get_unless_zero]. *)
Definition host1x_syncpt_get_by_id (h : host1x) (i : nat) : option nat * host1x :=
  match syncpt h !! i with
  | None => (None, h)
  | Some sp => if ref sp =? 0 then (None, h) else (Some i, set_syncpt h i (set_ref sp (ref sp + 1)))
  end.
Definition host1x_syncpt_get_by_id_noref (h : host1x) (i : nat) : option nat :=
  if (i <? length (syncpt h))%nat then Some i else None.
Definition host1x_syncpt_get (h : host1x) (i : nat) : host1x :=
  match syncpt h !! i with None => h | Some sp => set_syncpt h i (set_ref sp (ref sp + 1)) end.

(** [pool_ranges]: base and end of each pool. *)
Definition pool_of (ranges : list (nat * nat)) (j : nat) : option nat :=
  foldl (fun acc p => if (p.2.1 <=? j)%nat && (j <? p.2.2)%nat then Some p.1 else acc) None
    (zip (seq 0 (length ranges)) ranges).

Definition host1x_syncpt_init (h : host1x) (nb_pts nb_bases : nat) (ranges : list (nat * nat))
    (reserve_vblank : bool) (kcalloc_ok : bool * bool) : Z * host1x :=
  if negb (fst kcalloc_ok) || negb (snd kcalloc_ok) then (- ENOMEM, h)
  else
    let sps := (fun j => Syncpt 0 (Z.of_nat j) 0 0 None true None (pool_of ranges j) false) <$> seq 0 nb_pts in
    let reserve0 sps := if (syncpt_base h =? 0)%nat
                        then alter (fun sp => Syncpt 1 (id sp) (min_val sp) (max_val sp) (Some 0%nat)
                                      (client_managed sp) (sp_base sp) (pool sp) (locked sp)) 0%nat sps
                        else sps in
    let vblank sps := if reserve_vblank
                      then alter (fun sp => set_ref sp 1) 27%nat (alter (fun sp => set_ref sp 1) 26%nat sps)
                      else sps in
    (0, Host (vblank (reserve0 sps)) (replicate nb_bases false) (pools h) (syncpt_base h) (syncpt_end h)).

Definition host1x_syncpt_release_vblank_reservation (h : host1x) (reserve_vblank : bool) (i : nat) : host1x :=
  if negb reserve_vblank then h else snd (kref_put h i).

(** * The list of fences waiting for a syncpoint *)

(** A queued fence: its identity and its threshold. *)
Record queued_fence := QFence { q_id : nat; threshold : Z }.

(** The loop runs over the list in reverse. *)
Fixpoint insert_reverse (f : queued_fence) (reversed : list queued_fence) : list queued_fence :=
  match reversed with
  | [] => [f]
  | x :: r => if s32 (u32 (threshold x - threshold f)) <=? 0 then f :: x :: r else x :: insert_reverse f r
  end.
Definition host1x_intr_add_fence_to_list (l : list queued_fence) (f : queued_fence) : list queued_fence :=
  reverse (insert_reverse f (reverse l)).

(** What the hardware is set to: the threshold it interrupts at, or disabled. *)
Definition host1x_intr_update_hw_state (l : list queued_fence) : option Z := threshold <$> head l.

Definition host1x_intr_add_fence_locked (l : list queued_fence) (f : queued_fence)
    : list queued_fence * option Z :=
  let l := host1x_intr_add_fence_to_list l f in (l, host1x_intr_update_hw_state l).

(** The fences signalled, in order, the rest, and the hardware state. *)
Fixpoint expired_prefix (value : Z) (l : list queued_fence) : list queued_fence * list queued_fence :=
  match l with
  | [] => ([], [])
  | f :: l' =>
      if negb (value_reached value (threshold f)) then ([], l)
      else let '(s, r) := expired_prefix value l' in (f :: s, r)
  end.
Definition host1x_intr_handle_interrupt (value : Z) (l : list queued_fence)
    : list queued_fence * list queued_fence * option Z :=
  let '(signalled, l) := expired_prefix value l in (signalled, l, host1x_intr_update_hw_state l).

(** * The life of one fence *)

(** The delayed work: not scheduled, scheduled, or running at a point of
    [do_fence_timeout]: before the exchange, before the removal, before the
    signal, before the last put. *)
Inductive work_state := Idle | Pending | RunExchange | RunRemove | RunSignal | RunPut.

(** struct host1x_syncpt_fence.  [queued]: on the list; [signals]: how often
    dma_fence_signal was called; [error]: the error it carries. *)
Record host1x_fence := Fence {
  refs : Z;
  signaling : bool;
  timeout : bool;
  work : work_state;
  queued : bool;
  signals : nat;
  error : Z }.

Definition dma_fence_get (f : host1x_fence) : host1x_fence :=
  Fence (refs f + 1) (signaling f) (timeout f) (work f) (queued f) (signals f) (error f).
Definition dma_fence_put (f : host1x_fence) : host1x_fence :=
  Fence (refs f - 1) (signaling f) (timeout f) (work f) (queued f) (signals f) (error f).
Definition dma_fence_signal (f : host1x_fence) : host1x_fence :=
  Fence (refs f) (signaling f) (timeout f) (work f) (queued f) (S (signals f)) (error f).
Definition set_signaling (f : host1x_fence) : host1x_fence :=
  Fence (refs f) true (timeout f) (work f) (queued f) (signals f) (error f).
Definition set_work (f : host1x_fence) (w : work_state) : host1x_fence :=
  Fence (refs f) (signaling f) (timeout f) w (queued f) (signals f) (error f).
Definition set_queued (f : host1x_fence) (q : bool) : host1x_fence :=
  Fence (refs f) (signaling f) (timeout f) (work f) q (signals f) (error f).
Definition set_error (f : host1x_fence) (e : Z) : host1x_fence :=
  Fence (refs f) (signaling f) (timeout f) (work f) (queued f) (signals f) e.

(** [schedule_delayed_work]: nothing when it is already pending. *)
Definition schedule_work (f : host1x_fence) : host1x_fence :=
  match work f with Idle => set_work f Pending | _ => f end.
(** [cancel_delayed_work]: true when it was pending and is so no more. *)
Definition cancel_delayed_work (f : host1x_fence) : bool * host1x_fence :=
  match work f with Pending => (true, set_work f Idle) | _ => (false, f) end.

Definition host1x_fence_create (timeout : bool) : host1x_fence := Fence 1 false timeout Idle false 0 0.

Definition host1x_syncpt_fence_enable_signaling (expired : bool) (f : host1x_fence) : bool * host1x_fence :=
  if expired then (false, f)
  else
    let f := dma_fence_get f in
    let f := if timeout f then schedule_work (dma_fence_get f) else f in
    (true, set_queued f true).

(** Called with the list lock held, after the fence was taken off the list. *)
Definition host1x_fence_signal (f : host1x_fence) : host1x_fence :=
  if signaling f then dma_fence_put f
  else
    let f := set_signaling f in
    let f := if timeout f
             then let '(cancelled, f) := cancel_delayed_work f in
                  if cancelled then dma_fence_put f else f
             else f in
    dma_fence_put (dma_fence_signal f).

Definition host1x_intr_remove_fence (f : host1x_fence) : bool * host1x_fence :=
  if negb (queued f) then (false, f) else (true, set_queued f false).

(** [do_fence_timeout], from one atomic access to the next. *)
Definition do_fence_timeout (f : host1x_fence) : host1x_fence :=
  match work f with
  | RunExchange =>
      if signaling f then set_work (if timeout f then dma_fence_put f else f) Idle
      else set_work (set_signaling f) RunRemove
  | RunRemove =>
      let '(removed, f) := host1x_intr_remove_fence f in
      set_work (if removed then dma_fence_put f else f) RunSignal
  | RunSignal => set_work (dma_fence_signal (set_error f (- ETIMEDOUT))) RunPut
  | RunPut => set_work (if timeout f then dma_fence_put f else f) Idle
  | _ => f
  end.
