(* ===== verification/Host1xSyncFacts.v ===== *)
(** Fences are signalled exactly when their syncpoint reaches the threshold, exactly
    once, and released exactly when nobody uses them; syncpoints and wait bases
    are handed out exclusively. *)
From S2P Require Export Host1xSyncpt.
From stdpp Require Import sorting.

#[local] Open Scope Z_scope.

(** * Thresholds without wrap-around

    [t f] is the threshold as an unbounded count; all fences and the current value
    lie in one window of 2^31 from [w] on. *)
Section times.
Variables (t : queued_fence -> Z) (w : Z).

Definition in_window (f : queued_fence) : Prop := threshold f = u32 (t f) /\ w <= t f < w + 2 ^ 31.

Lemma compare_thresholds x f :
  in_window x -> in_window f -> s32 (u32 (threshold x - threshold f)) = t x - t f.
Proof. intros [-> Hx] [-> Hf]. width_lia. Qed.

Lemma land_top z : Z.land (u32 z) 0x80000000 = if u32 z <? 2 ^ 31 then 0 else 2 ^ 31.
Proof.
  pose proof (u32_range z) as Hz. apply Z.bits_inj'. intros i Hi. rewrite Z.land_spec.
  change 0x80000000 with (2 ^ 31). rewrite Z.pow2_bits_eqb by lia.
  destruct (31 =? i) eqn:Ei; zb; [subst i|].
  - rewrite andb_true_r. destruct (u32 z <? 2 ^ 31) eqn:E; zb.
    + rewrite Z.bits_0. rewrite Z.testbit_false by lia. rewrite Z.div_small; [done|unfold is_u32 in Hz; lia].
    + rewrite Z.pow2_bits_true by lia. rewrite Z.testbit_true by lia.
      replace (u32 z / 2 ^ 31) with 1; [done|].
      unfold is_u32 in Hz. apply Z.div_unique with (u32 z - 2 ^ 31); lia.
  - rewrite andb_false_r. destruct (u32 z <? 2 ^ 31); [by rewrite Z.bits_0|].
    rewrite Z.pow2_bits_false by lia. done.
Qed.

Lemma value_reached_spec v f :
  in_window f -> w <= v < w + 2 ^ 31 -> value_reached (u32 v) (threshold f) = (t f <=? v).
Proof.
  intros [Hf Hw] Hv. unfold value_reached. rewrite land_top, Hf.
  replace (u32 (u32 v - u32 (t f))) with (u32 (v - t f)) by width_lia.
  destruct (t f <=? v) eqn:E; zb.
  - rewrite (proj2 (Z.ltb_lt _ _)) by (rewrite u32_id by width_lia; lia). done.
  - rewrite (proj2 (Z.ltb_ge _ _)); [done|]. width_lia.
Qed.

Definition ordered (l : list queued_fence) : Prop := StronglySorted (fun x y => t x <= t y) l.

(** Insertion after the last fence that is not later. *)
Lemma insert_reverse_spec f r :
  Forall in_window r -> in_window f ->
  exists r1 r2, r = r1 ++ r2 /\ insert_reverse f r = r1 ++ f :: r2 /\
    Forall (fun x => t f < t x) r1 /\ match r2 with [] => True | x :: _ => t x <= t f end.
Proof.
  intros Hr Hf. induction Hr as [|x r Hx Hr (r1 & r2 & -> & E & H1 & H2)]; simpl.
  - by exists [], [].
  - rewrite compare_thresholds by done. case_if.
    + exists [], (x :: r1 ++ r2). split_and!; try done. lia.
    + exists (x :: r1), r2. rewrite E. split_and!; try done. constructor; [lia|done].
Qed.

Lemma add_fence_spec f l :
  Forall in_window l -> in_window f -> ordered l ->
  exists l1 l2, l = l1 ++ l2 /\ host1x_intr_add_fence_to_list l f = l1 ++ f :: l2 /\
    Forall (fun x => t x <= t f) l1 /\ Forall (fun x => t f < t x) l2.
Proof.
  intros Hl Hf Ho. unfold host1x_intr_add_fence_to_list.
  destruct (insert_reverse_spec f (reverse l)) as (r1 & r2 & E & -> & H1 & H2); [by apply Forall_reverse|done|].
  exists (reverse r2), (reverse r1). rewrite <- (reverse_involutive l), E, reverse_app.
  rewrite reverse_app, reverse_cons, <- app_assoc. split_and!; try done.
  - assert (Ho' : ordered (reverse r2 ++ reverse r1)) by (rewrite <- reverse_app, <- E, reverse_involutive; done).
    destruct r2 as [|x r2]; [constructor|]. rewrite reverse_cons in *.
    apply Forall_app. split; [|by constructor].
    apply StronglySorted_app_1_l in Ho'. apply Forall_forall. intros y Hy.
    pose proof (StronglySorted_app_1_elem_of _ _ _ y x Ho' Hy ltac:(by left)) as Hyx. simpl in Hyx. lia.
  - by apply Forall_reverse.
Qed.

Lemma expired_prefix_spec v l :
  Forall in_window l -> ordered l -> w <= v < w + 2 ^ 31 ->
  expired_prefix (u32 v) l = (filter (fun f => t f <= v) l, filter (fun f => v < t f) l).
Proof.
  intros Hl Ho Hv. induction l as [|f l IH]; [done|]. simpl.
  apply Forall_cons in Hl as [Hf Hl]. apply StronglySorted_inv in Ho as [Ho Hall].
  rewrite value_reached_spec by done. rewrite !filter_cons. destruct (t f <=? v) eqn:E; simpl; zb.
  - rewrite IH by done. rewrite decide_True, decide_False by lia. done.
  - rewrite decide_False, decide_True by lia.
    assert (Hlate : Forall (fun x => v < t x) l) by (eapply Forall_impl; [exact Hall|]; simpl; lia).
    f_equal; [|f_equal]; symmetry.
    + clear -Hlate. induction Hlate; [done|]. rewrite filter_cons, decide_False by lia. done.
    + clear -Hlate. induction Hlate; [done|]. rewrite filter_cons, decide_True by lia. by f_equal.
Qed.

(** The hardware threshold is the earliest one. *)
Definition hw_earliest (l : list queued_fence) (hw : option Z) : Prop :=
  match l with
  | [] => hw = None
  | _ => exists f, f ∈ l /\ hw = Some (threshold f) /\ forall x, x ∈ l -> t f <= t x
  end.

Lemma hw_state_spec l : ordered l -> hw_earliest l (host1x_intr_update_hw_state l).
Proof.
  intros Ho. destruct l as [|f l]; [done|]. simpl. apply StronglySorted_inv in Ho as [_ Hall].
  exists f. split_and!; [by left|done|]. intros x [->|Hx]%elem_of_cons; [lia|].
  rewrite Forall_forall in Hall. by apply Hall.
Qed.

Lemma ordered_filter (P : queued_fence -> Prop) `{forall f, Decision (P f)} l : ordered l -> ordered (filter P l).
Proof.
  induction l as [|f l IH]; [done|]. intros [Ho Hall]%StronglySorted_inv. rewrite filter_cons.
  case_decide; [|by apply IH]. constructor; [by apply IH|].
  apply Forall_forall. intros x [_ Hx]%list_elem_of_filter. rewrite Forall_forall in Hall. by apply Hall.
Qed.

(**  The fence list is kept in the order in which the fences expire, and an
    interrupt signals exactly the expired ones.  For fences whose thresholds lie in
    one window of 2^31 counts, wherever the 32-bit counter wraps: adding a fence
    keeps the list ordered, puts it behind the fences that expire no later, and
    programs the hardware with the earliest threshold; an interrupt at value [v]
    signals, in order, all fences whose threshold is at most [v] and no other,
    keeps the rest in order and programs the earliest of them, or disables the
    interrupt when none is left. *)
Theorem fence_list_correct l v :
  Forall in_window l -> ordered l -> w <= v < w + 2 ^ 31 ->
  (forall f, in_window f ->
     let '(l', hw) := host1x_intr_add_fence_locked l f in
     ordered l' /\ hw_earliest l' hw /\
     exists l1 l2, l = l1 ++ l2 /\ l' = l1 ++ f :: l2 /\
       Forall (fun x => t x <= t f) l1 /\ Forall (fun x => t f < t x) l2) /\
  let '(signalled, l', hw) := host1x_intr_handle_interrupt (u32 v) l in
  signalled = filter (fun f => t f <= v) l /\ l' = filter (fun f => v < t f) l /\
  ordered l' /\ hw_earliest l' hw.
Proof.
  intros Hl Ho Hv. split.
  - intros f Hf. unfold host1x_intr_add_fence_locked.
    destruct (add_fence_spec f l Hl Hf Ho) as (l1 & l2 & -> & -> & H1 & H2).
    assert (Ho' : ordered (l1 ++ f :: l2)).
    { apply StronglySorted_app in Ho as (H12 & Ho1 & Ho2). apply StronglySorted_app. split_and!; [|done|].
      - intros x y Hx [->|Hy]%elem_of_cons; [|by apply H12]. rewrite Forall_forall in H1. by apply H1.
      - constructor; [done|]. eapply Forall_impl; [exact H2|]. simpl. lia. }
    split_and!; [done|by apply hw_state_spec|]. by exists l1, l2.
  - unfold host1x_intr_handle_interrupt. rewrite expired_prefix_spec by done.
    split_and!; [done|done| |apply hw_state_spec]; by apply ordered_filter.
Qed.
End times.

(** Across the wrap: thresholds 2^32 - 1 and 1, the counter at 0. *)
Definition demo_t (f : queued_fence) : Z := if decide (q_id f = 0%nat) then 2 ^ 32 - 1 else 2 ^ 32 + 1.
Definition demo_fences : list queued_fence := [QFence 0 (2 ^ 32 - 1); QFence 1 1].
Lemma fence_list_witness :
  host1x_intr_handle_interrupt 0 demo_fences = ([QFence 0 (2 ^ 32 - 1)], [QFence 1 1], Some 1) /\
  let '(signalled, l', hw) := host1x_intr_handle_interrupt (u32 (2 ^ 32)) demo_fences in
  signalled = filter (fun f => demo_t f <= 2 ^ 32) demo_fences /\
  l' = filter (fun f => 2 ^ 32 < demo_t f) demo_fences /\
  ordered demo_t l' /\ hw_earliest demo_t l' hw.
Proof.
  split; [done|]. apply (fence_list_correct demo_t (2 ^ 32 - 10) demo_fences (2 ^ 32)); [| |done].
  - repeat constructor; by vm_compute.
  - repeat constructor; by vm_compute.
Defined.

(** * The life of a fence *)

(** [users]: references held by users; [enabled]: enable_signaling was called and
    armed the fence; [asked]: it was called; [cancelling]: a user is inside
    host1x_fence_cancel, waiting for the work to finish. *)
Record fsys := FSys { fence : host1x_fence; users : Z; asked : bool; armed : bool; cancelling : bool }.

(** host1x_fence_cancel is for fences without a timeout (its caller is
    host1x_syncpt_wait_ts); the canceller keeps its reference meanwhile. *)
Inductive fstep : fsys -> fsys -> Prop :=
  | f_get f u a r c : 0 < u -> fstep (FSys f u a r c) (FSys (dma_fence_get f) (u + 1) a r c)
  | f_put f u a r (c : bool) : (if c then 1 else 0) < u ->
      fstep (FSys f u a r c) (FSys (dma_fence_put f) (u - 1) a r c)
  | f_enable f u r c expired ok f' : 0 < u ->
      host1x_syncpt_fence_enable_signaling expired f = (ok, f') ->
      fstep (FSys f u false r c) (FSys f' u true ok c)
  | f_interrupt f u a r c : queued f = true ->
      fstep (FSys f u a r c) (FSys (host1x_fence_signal (set_queued f false)) u a r c)
  | f_fire f u a r c : work f = Pending ->
      fstep (FSys f u a r c) (FSys (set_work f RunExchange) u a r c)
  | f_run f u a r c : work f <> Idle -> work f <> Pending ->
      fstep (FSys f u a r c) (FSys (do_fence_timeout f) u a r c)
  | f_cancel f u a r : timeout f = false -> 0 < u ->
      fstep (FSys f u a r false) (FSys (schedule_work f) u a r true)
  | f_flushed f u a r : work f = Idle -> fstep (FSys f u a r true) (FSys f u a r false).

Definition b2z (b : bool) : Z := if b then 1 else 0.
Definition is_idle (w : work_state) : bool := match w with Idle => true | _ => false end.
Definition past_exchange (w : work_state) : bool :=
  match w with RunRemove | RunSignal | RunPut => true | _ => false end.
Definition will_signal (w : work_state) : bool :=
  match w with RunRemove | RunSignal => true | _ => false end.

(** One reference for the list, one for the timeout, the rest are the users'. *)
Record fence_inv (s : fsys) : Prop := {
  fi_users : 0 <= users s;
  fi_refs : refs (fence s) = users s + b2z (queued (fence s))
            + b2z (timeout (fence s) && negb (is_idle (work (fence s))));
  fi_signals : signals (fence s) =
    (if signaling (fence s) then if will_signal (work (fence s)) then 0 else 1 else 0)%nat;
  fi_past : past_exchange (work (fence s)) = true -> signaling (fence s) = true;
  fi_untimed : timeout (fence s) = false -> work (fence s) <> Idle -> cancelling s = true;
  fi_cancel : cancelling s = true -> 0 < users s /\ timeout (fence s) = false;
  fi_asked : asked s = false -> queued (fence s) = false /\ armed s = false /\
     (timeout (fence s) = true -> work (fence s) = Idle);
  fi_armed : armed s = true -> queued (fence s) = false -> signaling (fence s) = true;
  fi_timed : armed s = true -> timeout (fence s) = true -> signaling (fence s) = false ->
     is_idle (work (fence s)) = false }.

Ltac fence_cases :=
  repeat match goal with
  | |- fence_inv _ => split
  | |- _ /\ _ => split
  | |- _ -> _ => intro
  end; simpl in *; try done; try lia; try congruence; intuition (try congruence; try lia).

Lemma fence_step s s' : fence_inv s -> fstep s s' -> fence_inv s'.
Proof.
  intros Hi Hs. destruct Hs as [f u a r c Hu|f u a r c Hu|f u r c expired ok f' Hu He|f u a r c Hq
    |f u a r c Hw|f u a r c Hw1 Hw2|f u a r Ht Hu|f u a r Hw]; destruct Hi; simpl in *.
  - destruct f; fence_cases.
  - destruct f, c; fence_cases.
  - destruct f as [rf sg to wk q sn er]. unfold host1x_syncpt_fence_enable_signaling in He.
    destruct (fi_asked0 eq_refl) as (Hq & Hr & Ht). simpl in *. subst.
    destruct expired, to; simplify_eq/=; destruct wk; fence_cases.
  - destruct f as [rf sg to wk q sn er]. simpl in *. subst q.
    unfold host1x_fence_signal. simpl. destruct sg, to, wk; simpl in *; fence_cases.
  - destruct f as [rf sg to wk q sn er]. simpl in *. subst wk. destruct sg, to, q; fence_cases.
  - destruct f as [rf sg to wk q sn er]. simpl in *.
    destruct wk; try done; unfold do_fence_timeout, host1x_intr_remove_fence; simpl;
      destruct sg, to, q; simpl in *; fence_cases.
  - destruct f as [rf sg to wk q sn er]. simpl in *. subst to. destruct wk, sg, q; simpl in *; fence_cases.
  - destruct f as [rf sg to wk q sn er]. simpl in *. subst wk. destruct sg, to, q; fence_cases.
Qed.

Definition fence_start (timeout : bool) : fsys := FSys (host1x_fence_create timeout) 1 false false false.

Lemma fence_start_inv timeout : fence_inv (fence_start timeout).
Proof. destruct timeout; by split. Qed.

(** C34.  A fence is signalled once and freed when nobody uses it.  Whatever the order
    in which users take and drop references, signalling is enabled, the interrupt
    removes the fence, the timeout fires and proceeds step by step, and a user
    cancels an untimed fence: the driver signals the fence at most once; the count
    is the users' references plus one while the fence is queued and one while the
    timeout of a timed fence is scheduled or running, so that the fence exists
    whenever the interrupt or the timeout uses it; a timed fence that was armed and
    not signalled has its timeout pending or running; and an armed fence that is
    neither queued nor has work has been signalled, with all internal references
    given back. *)
Theorem fence_life timeout0 s :
  rtc fstep (fence_start timeout0) s ->
  (signals (fence s) <= 1)%nat /\
  refs (fence s) = users s + b2z (queued (fence s))
    + b2z (timeout (fence s) && negb (is_idle (work (fence s)))) /\
  (queued (fence s) = true \/ work (fence s) <> Idle -> 0 < refs (fence s)) /\
  (armed s = true -> timeout (fence s) = true -> signals (fence s) = 0%nat -> work (fence s) <> Idle) /\
  (armed s = true -> queued (fence s) = false -> work (fence s) = Idle ->
     signals (fence s) = 1%nat /\ refs (fence s) = users s).
Proof.
  intros Hr. pose proof (rtc_preserves _ fence_inv _ _ Hr (fence_start_inv timeout0) fence_step) as [].
  destruct s as [[rf sg to wk q sn er] u a r c]. simpl in *. subst sn rf. split_and!; try done.
  - destruct sg, (will_signal wk); lia.
  - intros H. destruct to, q, wk; simpl in *; try lia; intuition congruence || lia.
  - intros Ha Ht Hs ->. destruct sg; simpl in *; [lia|]. by specialize (fi_timed0 Ha Ht eq_refl).
  - intros Ha -> ->. rewrite (fi_armed0 Ha eq_refl). simpl. split; [done|]. rewrite andb_false_r. simpl. lia.
Qed.

(** Interrupt and timeout race: the timeout fires, the interrupt wins the exchange. *)
Lemma fence_life_witness :
  exists s, rtc fstep (fence_start true) s /\ signals (fence s) = 1%nat /\ refs (fence s) = users s /\
    armed s = true.
Proof.
  assert (Hr : rtc fstep (fence_start true) (FSys (Fence 1 true true Idle false 1 0) 1 true true false)).
  { eapply rtc_l; [by eapply (f_enable _ _ _ _ false)|].
    eapply rtc_l; [by apply f_fire|]. eapply rtc_l; [by apply f_interrupt|].
    eapply rtc_l; [by apply f_run|]. apply rtc_refl. }
  eexists. split; [exact Hr|].
  destruct (fence_life _ _ Hr) as (_ & _ & _ & _ & H). split; [by apply H|split; [by apply H|done]].
Defined.

(** * Allocation of syncpoints *)

(** Free syncpoints hold nothing, a requested base belongs to one syncpoint. *)
Record host_wf (h : host1x) : Prop := {
  hw_ref : forall i sp, syncpt h !! i = Some sp -> 0 <= ref sp;
  hw_free : forall i sp, syncpt h !! i = Some sp -> ref sp = 0 -> sp_base sp = None /\ name sp = None;
  hw_req : forall i sp b, syncpt h !! i = Some sp -> sp_base sp = Some b -> bases h !! b = Some true;
  hw_own : forall i j sp sp' b, syncpt h !! i = Some sp -> syncpt h !! j = Some sp' ->
     sp_base sp = Some b -> sp_base sp' = Some b -> i = j;
  hw_leak : forall b, bases h !! b = Some true ->
     exists i sp, syncpt h !! i = Some sp /\ sp_base sp = Some b }.

Lemma first_from_Some P n i k :
  first_from P n i = Some k -> (i <= k < i + n)%nat /\ P k = true /\ forall j, (i <= j < k)%nat -> P j = false.
Proof.
  revert i. induction n as [|n IH]; intros i; simpl; [done|]. destruct (P i) eqn:E.
  - intros [= <-]. split; [lia|]. split; [done|]. lia.
  - intros (H1 & H2 & H3)%IH. split; [lia|]. split; [done|]. intros j Hj.
    destruct (decide (j = i)) as [->|]; [done|]. apply H3. lia.
Qed.

Lemma first_from_None P n i : first_from P n i = None -> forall j, (i <= j < i + n)%nat -> P j = false.
Proof.
  revert i. induction n as [|n IH]; intros i; simpl; [lia|]. destruct (P i) eqn:E; [done|].
  intros H j Hj. destruct (decide (j = i)) as [->|]; [done|]. apply (IH _ H). lia.
Qed.

Lemma base_request_spec h b h' :
  host1x_syncpt_base_request h = Some (b, h') ->
  bases h !! b = Some false /\ h' = set_bases h (<[b := true]> (bases h)).
Proof.
  unfold host1x_syncpt_base_request. intros (i & Hf & E)%bind_Some. simplify_eq.
  apply first_from_Some in Hf as (Hr & Hn & _). split; [|done].
  destruct (bases h !! b) as [[]|] eqn:E; [|done|apply lookup_ge_None in E; lia].
  rewrite (nth_lookup_Some _ _ _ _ E) in Hn. done.
Qed.

Lemma lookup_set_syncpt h i sp j sp' :
  syncpt (set_syncpt h i sp) !! j = Some sp' ->
  (j = i /\ sp' = sp /\ is_Some (syncpt h !! i)) \/ (j <> i /\ syncpt h !! j = Some sp').
Proof.
  simpl. intros [(<- & -> & Hl)|[Hne Hl]]%list_lookup_insert_Some; [|by auto].
  left. split_and!; [done|done|]. by apply lookup_lt_is_Some_2.
Qed.

(** A syncpoint in use, with its base, put in the place of a free one. *)
Lemma take_wf h i sp sp' bs :
  host_wf h -> syncpt h !! i = Some sp -> ref sp = 0 -> 0 < ref sp' ->
  (sp_base sp' = None /\ bs = bases h \/
   exists b, sp_base sp' = Some b /\ bases h !! b = Some false /\ bs = <[b := true]> (bases h)) ->
  host_wf (set_syncpt (set_bases h bs) i sp').
Proof.
  intros [] Hi Href Hpos Hb. destruct (hw_free0 _ _ Hi Href) as [Hnob _].
  assert (Hold : forall j spj b, j <> i -> syncpt h !! j = Some spj -> sp_base spj = Some b -> bs !! b = Some true).
  { intros j spj b Hne Hj Hb'. specialize (hw_req0 _ _ _ Hj Hb').
    destruct Hb as [[_ ->]|(b' & _ & Hf & ->)]; [done|].
    rewrite list_lookup_insert_ne; [done|congruence]. }
  split.
  - intros j spj [(-> & -> & _)|[_ Hj]]%lookup_set_syncpt; [lia|by eapply hw_ref0].
  - intros j spj [(-> & -> & _)|[_ Hj]]%lookup_set_syncpt; [lia|by eapply hw_free0].
  - intros j spj b [(-> & -> & _)|[Hne Hj]]%lookup_set_syncpt Hb'; simpl; [|by eapply Hold].
    destruct Hb as [[E _]|(b' & E & Hf & ->)]; [congruence|]. simplify_eq.
    rewrite list_lookup_insert_eq; [done|]. by eapply lookup_lt_Some.
  - intros j k spj spk b [(-> & -> & _)|[Hnj Hj]]%lookup_set_syncpt
      [(-> & -> & _)|[Hnk Hk]]%lookup_set_syncpt Hbj Hbk; try done.
    + destruct Hb as [[E _]|(b' & E & Hf & _)]; [congruence|]. specialize (hw_req0 _ _ _ Hk Hbk). congruence.
    + destruct Hb as [[E _]|(b' & E & Hf & _)]; [congruence|]. specialize (hw_req0 _ _ _ Hj Hbj). congruence.
    + by eapply hw_own0.
  - simpl. intros b Hbb. assert (Hcase : bases h !! b = Some true \/ sp_base sp' = Some b).
    { destruct Hb as [[_ ->]|(b' & E & Hf & ->)]; [by left|].
      apply list_lookup_insert_Some in Hbb as [(-> & _ & _)|[_ ?]]; auto. }
    destruct Hcase as [H|H].
    + destruct (hw_leak0 _ H) as (j & spj & Hj & Hbj). exists j, spj.
      rewrite list_lookup_insert_ne; [done|]. congruence.
    + exists i, sp'. rewrite list_lookup_insert_eq; [done|]. by eapply lookup_lt_Some.
Qed.

Lemma set_syncpt_same h i sp : syncpt h !! i = Some sp -> set_syncpt h i sp = h.
Proof. intros E. unfold set_syncpt. rewrite list_insert_id by done. by destruct h. Qed.

Lemma set_sp_base_same sp : sp_base sp = None -> set_sp_base sp None = sp.
Proof. destruct sp. simpl. by intros ->. Qed.

(**  A syncpoint is handed out to one owner at a time.  In a consistent host,
    [host1x_syncpt_alloc] returns a syncpoint of the VM's range that was free and in
    the pool asked for, now with one reference, the new name and, when asked for, a
    wait base nobody else has, and changes no other syncpoint; or it returns NULL
    and changes nothing at all, and then the name was NULL, no syncpoint of the
    pool was free, no base was free although one was asked for, or the name
    could not be allocated. *)
Theorem syncpt_alloc_correct h flags nm kasprintf_ok :
  host_wf h -> (syncpt_end h <= length (syncpt h))%nat ->
  let '(r, h') := host1x_syncpt_alloc h flags nm kasprintf_ok in
  host_wf h' /\
  match r with
  | Some i =>
      (syncpt_base h <= i < syncpt_end h)%nat /\ exists sp sp', syncpt h !! i = Some sp /\
        ref sp = 0 /\ pool sp = alloc_pool h flags /\
        syncpt h' = <[i := sp']> (syncpt h) /\ ref sp' = 1 /\ id sp' = id sp /\ name sp' = nm /\
        is_Some nm /\ client_managed sp' = has_flag flags HOST1X_SYNCPT_CLIENT_MANAGED /\
        (has_flag flags HOST1X_SYNCPT_HAS_BASE = true ->
           exists b, sp_base sp' = Some b /\ bases h !! b = Some false) /\
        (has_flag flags HOST1X_SYNCPT_HAS_BASE = false -> sp_base sp' = None)
  | None =>
      h' = h /\
      (nm = None \/
       (forall i sp, (syncpt_base h <= i < syncpt_end h)%nat -> syncpt h !! i = Some sp ->
          pool sp = alloc_pool h flags -> ref sp <> 0) \/
       (has_flag flags HOST1X_SYNCPT_HAS_BASE = true /\ forall b, (b < length (bases h))%nat -> bases h !! b = Some true) \/
       kasprintf_ok = false)
  end.
Proof.
  intros Hwf Hlen. unfold host1x_syncpt_alloc. destruct nm as [nm|]; [|by split; [done|]; auto].
  destruct (first_from _ _ _) as [i|] eqn:Ef.
  2: { split; [done|]. split; [done|]. right. left. intros i sp Hi Hsp Hp Hr.
       pose proof (first_from_None _ _ _ Ef i ltac:(lia)) as H. unfold alloc_fits in H.
       rewrite Hsp, bool_decide_true, Hr in H by done. done. }
  apply first_from_Some in Ef as (Hi & Hfit & _). unfold alloc_fits in Hfit.
  destruct (syncpt h !! i) as [sp|] eqn:Hsp; [|done]. apply andb_true_iff in Hfit as [Hp%bool_decide_eq_true Hr]. zb.
  destruct (hw_free _ Hwf _ _ Hsp Hr) as [Hnob Hnon].
  destruct (has_flag flags HOST1X_SYNCPT_HAS_BASE) eqn:Eb.
  - destruct (host1x_syncpt_base_request h) as [[b h1]|] eqn:Ereq; simpl.
    2: { rewrite set_sp_base_same, set_syncpt_same by done. split; [done|]. split; [done|].
         right. right. left. split; [done|]. intros b Hb.
         unfold host1x_syncpt_base_request in Ereq. destruct (first_from _ _ _) eqn:Ef; [done|].
         pose proof (first_from_None _ _ _ Ef b ltac:(lia)) as H.
         simpl in H. destruct (lookup_lt_is_Some_2 _ _ Hb) as [x Hx]. rewrite (nth_lookup_Some _ _ _ _ Hx) in H.
         by destruct x. }
    destruct (base_request_spec _ _ _ Ereq) as [Hbf ->]. destruct kasprintf_ok; simpl.
    + split.
      * apply (take_wf h i sp _ (<[b:=true]> (bases h))); try done. right. by exists b.
      * split; [lia|]. eexists sp, _. split_and!; try done. by exists b.
    + replace (set_sp_base (set_sp_base sp (Some b)) None) with sp
        by (destruct sp; simpl in *; by subst).
      unfold set_bases. simpl. rewrite list_insert_insert_eq, list_insert_id by done.
      replace (Host (syncpt h) (bases h) (pools h) (syncpt_base h) (syncpt_end h)) with h by (by destruct h).
      rewrite set_syncpt_same by done. auto 6.
  - simpl. destruct kasprintf_ok; simpl.
    + split.
      * pose proof (take_wf h i sp (Syncpt 1 (id sp) (min_val sp) (max_val sp) (Some nm)
          (has_flag flags HOST1X_SYNCPT_CLIENT_MANAGED) (sp_base sp) (pool sp) (locked sp)) (bases h)) as Ht.
        replace (set_bases h (bases h)) with h in Ht by (by destruct h). apply Ht; auto; simpl; lia.
      * split; [lia|]. eexists sp, _. by split_and!.
    + rewrite Hnob. simpl. rewrite set_sp_base_same, set_syncpt_same by done. auto 6.
Qed.

(** A host with two syncpoints and one base. *)
Definition demo_host : host1x :=
  Host [Syncpt 0 0 5 5 None true None None false; Syncpt 0 1 7 7 None true None None false] [false] [] 0 2.
Lemma demo_host_wf : host_wf demo_host.
Proof.
  split; simpl.
  - intros [|[|i]] sp E; simplify_eq/=; lia.
  - intros [|[|i]] sp E; simplify_eq/=; done.
  - intros [|[|i]] sp b E; simplify_eq/=; done.
  - intros [|[|i]] j sp sp' b E; simplify_eq/=; done.
  - intros [|b]; simpl; [done|]. by rewrite lookup_nil.
Defined.

Lemma syncpt_alloc_witness :
  fst (host1x_syncpt_alloc demo_host HOST1X_SYNCPT_HAS_BASE (Some 3%nat) true) = Some 0%nat /\
  host_wf (snd (host1x_syncpt_alloc demo_host HOST1X_SYNCPT_HAS_BASE (Some 3%nat) true)).
Proof.
  split; [done|].
  exact (proj1 (syncpt_alloc_correct demo_host HOST1X_SYNCPT_HAS_BASE (Some 3%nat) true demo_host_wf ltac:(simpl; lia))).
Defined.

(** Releasing a syncpoint races with allocating it.  [host1x_syncpt_put] drops the
    last reference before [syncpt_release] takes the mutex, and [host1x_syncpt_alloc]
    takes a syncpoint as soon as its count is zero.  When an allocation comes in
    between, the release takes name and wait base away from the new owner, who
    still holds the reference, frees that base for others, and the base of the
    old owner stays requested with nobody holding it. *)
Theorem release_races_with_alloc :
  let host := set_bases demo_host [false; false] in
  let alloc h nm := host1x_syncpt_alloc h HOST1X_SYNCPT_HAS_BASE (Some nm) true in
  let '(zero, h1) := kref_put (snd (alloc host 3%nat)) 0 in
  let '(i, h2) := alloc h1 4%nat in
  let h3 := syncpt_release h2 0 5 in
  zero = true /\ i = Some 0%nat /\ sp_base <$> syncpt h2 !! 0%nat = Some (Some 1%nat) /\
  ref <$> syncpt h3 !! 0%nat = Some 1 /\ name <$> syncpt h3 !! 0%nat = Some None /\
  sp_base <$> syncpt h3 !! 0%nat = Some None /\ bases h3 = [true; false].
Proof. by vm_compute. Qed.
