(* ===== verification/MttcanRam.v ===== *)
(** The M_TTCAN controller library, drivers/net/can/mttcan/hal/m_ttcan_ram.c: the
    controller's state, and the encoding of CAN frames as transmit and receive
    elements of the message RAM.

    The message RAM is a store of 32-bit words, addressed by the byte offset from
    [mram_vbase]; the accesses of the code are aligned.  The two length tables of
    the kernel's CAN layer are parameters, with ISO 11898-1's table as their
    specification ([CanLengths]).  The main theorem, [tx_rx_roundtrip], says what a
    receiver obtains from a frame the driver has written for transmission. *)
From S2P Require Import Prelude.

(** * Constants (include/m_ttcan.h, include/m_ttcan_regdef.h) *)
Definition CAN_STD_ID_MASK := 0x7FF.
Definition CAN_EXT_ID_MASK := 0x1FFFFFFF.
Definition CAN_FMT := 0x80000000.
Definition CAN_RTR := 0x40000000.
Definition CAN_BRS_FLAG := 0x01.
Definition CAN_ESI_FLAG := 0x02.
Definition CAN_FD_FLAG := 0x04.
Definition CAN_DIR_RX := 0x08.
Definition CAN_WORD_IN_BYTES := 4.
Definition CANFD_MAX_DLEN := 64.

Definition RX_BUF_ESI := 0x80000000.
Definition RX_BUF_XTD := 0x40000000.
Definition RX_BUF_RTR := 0x20000000.
Definition RX_BUF_STDID_SHIFT := 18.
Definition RX_BUF_STDID_MASK := 0x1FFC0000.
Definition RX_BUF_EXTID_MASK := 0x1FFFFFFF.
Definition RX_BUF_FDF := 0x200000.
Definition RX_BUF_BRS := 0x100000.
Definition RX_BUF_DLC_SHIFT := 16.
Definition RX_BUF_DLC_MASK := 0xF0000.
Definition RX_BUF_RXTS_MASK := 0xFFFF.

Definition TX_BUF_ESI := 0x80000000.
Definition TX_BUF_XTD := 0x40000000.
Definition TX_BUF_RTR := 0x20000000.
Definition TX_BUF_STDID_SHIFT := 18.
Definition TX_BUF_MM_SHIFT := 24.
Definition TX_BUF_EFC := 0x800000.
Definition TX_BUF_FDF := 0x200000.
Definition TX_BUF_BRS := 0x100000.
Definition TX_BUF_DLC_SHIFT := 16.
Definition TX_BUF_DLC_MASK := 0xF0000.

(** [if (w & b)]. *)
Definition has (w b : Z) : bool := negb (Z.land w b =? 0).

(** * Data *)
Record ttcanfd_frame := mk_frame {
  can_id : Z;            (* u32 *)
  d_len : Z;             (* u8 *)
  flags : Z;             (* u8 *)
  resv0 : Z; resv1 : Z;  (* u8 *)
  data : list Z;         (* u8[MAX_RX_ENTRIES] *)
  tstamp : Z             (* u32 *)
}.

Definition zero_frame : ttcanfd_frame := mk_frame 0 0 0 0 0 (replicate 64 0) 0.

Definition set_can_id (v : Z) (f : ttcanfd_frame) :=
  mk_frame v (d_len f) (flags f) (resv0 f) (resv1 f) (data f) (tstamp f).
Definition set_d_len (v : Z) (f : ttcanfd_frame) :=
  mk_frame (can_id f) v (flags f) (resv0 f) (resv1 f) (data f) (tstamp f).
Definition set_flags (v : Z) (f : ttcanfd_frame) :=
  mk_frame (can_id f) (d_len f) v (resv0 f) (resv1 f) (data f) (tstamp f).
Definition set_data (v : list Z) (f : ttcanfd_frame) :=
  mk_frame (can_id f) (d_len f) (flags f) (resv0 f) (resv1 f) v (tstamp f).
Definition set_tstamp (v : Z) (f : ttcanfd_frame) :=
  mk_frame (can_id f) (d_len f) (flags f) (resv0 f) (resv1 f) (data f) v.

(** The message RAM: 32-bit words by byte offset. *)
Definition mram := Z -> Z.
Definition readl (a : Z) (m : mram) : Z := m a.
Definition writel (v a : Z) (m : mram) : mram := fun b => if b =? a then v else m b.

Record mttcan_tx_evt_element := mk_txevt { f0 : Z; f1 : Z }.

Definition ttcan_read_txevt_ram (m : mram) (read_addr : Z) : mttcan_tx_evt_element :=
  mk_txevt (readl read_addr m) (readl (read_addr + CAN_WORD_IN_BYTES) m).

(** * Lengths

    [can_fd_dlc2len] and [can_fd_len2dlc] belong to the kernel's CAN layer
    (drivers/net/can/dev/length.c).  Their documented behaviour: the former is the
    ISO 11898-1 table, and the latter gives the least code whose length is enough. *)
Class CanLengths := {
  can_fd_dlc2len : Z -> Z;
  can_fd_len2dlc : Z -> Z
}.

Definition iso_dlc_table : list Z := [0;1;2;3;4;5;6;7;8;12;16;20;24;32;48;64].

Class CanLengthsOk `{CanLengths} := {
  dlc2len_table d : 0 <= d <= 15 ->
    iso_dlc_table !! Z.to_nat d = Some (can_fd_dlc2len d);
  len2dlc_range l : 0 <= l <= 64 -> 0 <= can_fd_len2dlc l <= 15;
  len2dlc_enough l : 0 <= l <= 64 -> l <= can_fd_dlc2len (can_fd_len2dlc l);
  len2dlc_least l d : 0 <= l <= 64 -> 0 <= d <= 15 -> l <= can_fd_dlc2len d ->
    can_fd_len2dlc l <= d
}.

Section element.
Context `{CanLengths}.

Definition ttcan_dlc2len (dlc : Z) : Z := u8 (can_fd_dlc2len (u8 dlc)).
Definition ttcan_len2dlc (len : Z) : Z :=
  if 64 <? len then 0xF else u8 (can_fd_len2dlc (u8 len)).

(** * Writing a transmit element *)

Definition t0_word (f : ttcanfd_frame) : Z :=
  let msg_data :=
    if has (can_id f) CAN_FMT
    then Z.lor (Z.land (can_id f) CAN_EXT_ID_MASK) TX_BUF_XTD
    else u32 (Z.shiftl (Z.land (can_id f) CAN_STD_ID_MASK) TX_BUF_STDID_SHIFT) in
  let msg_data := if has (can_id f) CAN_RTR then Z.lor msg_data TX_BUF_RTR else msg_data in
  if has (flags f) CAN_ESI_FLAG then Z.lor msg_data TX_BUF_ESI else msg_data.

Definition t1_word (evt_q_num : Z) (f : ttcanfd_frame) (index : Z) : Z :=
  let msg_data := Z.land (Z.shiftl (ttcan_len2dlc (d_len f)) TX_BUF_DLC_SHIFT) TX_BUF_DLC_MASK in
  let msg_data := if evt_q_num =? 0 then msg_data else Z.lor msg_data TX_BUF_EFC in
  let msg_data := if has (flags f) CAN_FD_FLAG then Z.lor msg_data TX_BUF_FDF else msg_data in
  let msg_data := if has (flags f) CAN_BRS_FLAG then Z.lor msg_data TX_BUF_BRS else msg_data in
  Z.lor msg_data (u32 (Z.shiftl index TX_BUF_MM_SHIFT)).

(** [data[i]]. *)
Definition byte (f : ttcanfd_frame) (i : Z) : Z := nth (Z.to_nat i) (data f) 0.

(** The word the switch of the copy loop builds from [bytes_to_write] bytes. *)
Definition tx_data_word (f : ttcanfd_frame) (idx bytes_to_write : Z) : Z :=
  let w := 0 in
  let w := if 4 <=? bytes_to_write then u32 (Z.shiftl (byte f (idx + 3)) 24) else w in
  let w := if 3 <=? bytes_to_write then u32 (w + Z.shiftl (byte f (idx + 2)) 16) else w in
  let w := if 2 <=? bytes_to_write then u32 (w + Z.shiftl (byte f (idx + 1)) 8) else w in
  u32 (w + Z.shiftl (byte f (idx + 0)) 0).

(** [while (bytes_to_write > 0)]; a frame's length is a byte, so 64 rounds are
    enough. *)
Fixpoint tx_loop (fuel : nat) (addr : Z) (f : ttcanfd_frame) (idx bytes_to_write : Z)
    (m : mram) : option (Z * mram) :=
  if bytes_to_write <=? 0 then Some (idx, m) else
  match fuel with
  | O => None
  | S fuel =>
      let m := writel (tx_data_word f idx bytes_to_write)
                 (addr + (Z.shiftr idx 2 + 2) * CAN_WORD_IN_BYTES) m in
      tx_loop fuel addr f (u32 (idx + 4)) (bytes_to_write - 4) m
  end.

Definition ttcan_write_tx_msg_ram (evt_q_num write_addrs : Z) (f : ttcanfd_frame) (index : Z)
    (m : mram) : option (Z * mram) :=
  let m := writel (t0_word f) write_addrs m in
  let m := writel (t1_word evt_q_num f index) (write_addrs + CAN_WORD_IN_BYTES) m in
  tx_loop 64 write_addrs f 0 (d_len f) m.

(** * Reading a receive element *)

Definition rx_word0 (msg_data : Z) (f : ttcanfd_frame) : ttcanfd_frame :=
  let f := set_flags 0 (set_can_id 0 f) in
  let f :=
    if has msg_data RX_BUF_XTD
    then set_can_id (Z.lor CAN_FMT (Z.land (Z.land msg_data RX_BUF_EXTID_MASK) CAN_EXT_ID_MASK)) f
    else set_can_id (Z.land (Z.shiftr (Z.land msg_data RX_BUF_STDID_MASK) RX_BUF_STDID_SHIFT)
                            CAN_STD_ID_MASK) f in
  let f := if has msg_data RX_BUF_RTR then set_can_id (Z.lor (can_id f) CAN_RTR) f else f in
  if has msg_data RX_BUF_ESI then set_flags (Z.lor (flags f) CAN_ESI_FLAG) f else f.

Definition rx_word1 (msg_data : Z) (f : ttcanfd_frame) : ttcanfd_frame :=
  let f := set_d_len (ttcan_dlc2len (Z.shiftr (Z.land msg_data RX_BUF_DLC_MASK) RX_BUF_DLC_SHIFT)) f in
  let f := if has msg_data RX_BUF_FDF then set_flags (Z.lor (flags f) CAN_FD_FLAG) f else f in
  let f := if has msg_data RX_BUF_BRS then set_flags (Z.lor (flags f) CAN_BRS_FLAG) f else f in
  set_tstamp (Z.land msg_data RX_BUF_RXTS_MASK) f.

(** A store to [data[i]]. *)
Definition put_byte (i v : Z) (f : ttcanfd_frame) : ttcanfd_frame :=
  set_data (<[Z.to_nat i := v]> (data f)) f.

(** The switch on [bytes_to_read], with its fall-through cases. *)
Definition rx_data_word (msg_data byte_index bytes_to_read : Z) (f : ttcanfd_frame) : ttcanfd_frame :=
  let f := if 4 <=? bytes_to_read
           then put_byte (byte_index + 3) (Z.land (Z.shiftr msg_data 24) 0xFF) f else f in
  let f := if 3 <=? bytes_to_read
           then put_byte (byte_index + 2) (Z.land (Z.shiftr msg_data 16) 0xFF) f else f in
  let f := if 2 <=? bytes_to_read
           then put_byte (byte_index + 1) (Z.land (Z.shiftr msg_data 8) 0xFF) f else f in
  put_byte (byte_index + 0) (Z.land msg_data 0xFF) f.

(** [while (bytes_to_read)]: two header words and at most sixteen data words. *)
Fixpoint rx_loop (fuel : nat) (addr i bytes_to_read : Z) (m : mram) (f : ttcanfd_frame)
    : option (Z * ttcanfd_frame) :=
  if bytes_to_read =? 0 then Some (i, f) else
  match fuel with
  | O => None
  | S fuel =>
      let msg_data := readl (addr + i * CAN_WORD_IN_BYTES) m in
      if i =? 0 then rx_loop fuel addr (i + 1) bytes_to_read m (rx_word0 msg_data f)
      else if i =? 1 then
        let f := rx_word1 msg_data f in
        rx_loop fuel addr (i + 1) (d_len f) m f
      else
        let f := rx_data_word msg_data ((i - 2) * CAN_WORD_IN_BYTES) bytes_to_read f in
        rx_loop fuel addr (i + 1) (if 4 <=? bytes_to_read then bytes_to_read - 4 else 0) m f
  end.

Definition ttcan_read_rx_msg_ram (read_addrs : Z) (m : mram) (f : ttcanfd_frame)
    : option (Z * ttcanfd_frame) :=
  let f := set_flags (Z.lor (flags f) CAN_DIR_RX) f in
  rx_loop 18 read_addrs 0 CANFD_MAX_DLEN m f.

End element.

(** * Bit fields *)

(** Evaluate the mask operations between constants. *)
Ltac fold_masks :=
  repeat match goal with
  | |- context [Z.land (Zpos ?p) (Zpos ?q)] =>
      let v := eval vm_compute in (Z.land (Zpos p) (Zpos q)) in
      change (Z.land (Zpos p) (Zpos q)) with v
  | |- context [Z.lor (Zpos ?p) (Zpos ?q)] =>
      let v := eval vm_compute in (Z.lor (Zpos p) (Zpos q)) in
      change (Z.lor (Zpos p) (Zpos q)) with v
  end; rewrite ?Z.lor_0_r, ?Z.lor_0_l, ?Z.land_0_r.

(** Push a mask into a disjunction of fields. *)
Ltac push_mask := rewrite ?Z.land_lor_distr_l, <- ?Z.land_assoc; fold_masks.

Lemma has_lor w v b : has (Z.lor w v) b = has w b || has v b.
Proof.
  unfold has. rewrite Z.land_lor_distr_l.
  destruct (Z.eqb_spec (Z.land w b) 0) as [->|Hw]; simpl.
  - by rewrite Z.lor_0_l.
  - apply negb_true_iff, Z.eqb_neq. intros E%Z.lor_eq_0_iff. tauto.
Qed.

Lemma has_land w u b : has (Z.land w u) b = has w (Z.land u b).
Proof. unfold has. by rewrite Z.land_assoc. Qed.

Lemma land_255 w : Z.land w 0xFF = w mod 256.
Proof. apply (land_ones_mod w 8). lia. Qed.

(** A standard identifier fits its field, so shifting it there loses nothing. *)
Lemma std_id_field id :
  u32 (Z.shiftl (Z.land id CAN_STD_ID_MASK) TX_BUF_STDID_SHIFT) =
  Z.land (Z.shiftl id 18) RX_BUF_STDID_MASK.
Proof.
  unfold CAN_STD_ID_MASK, TX_BUF_STDID_SHIFT, RX_BUF_STDID_MASK.
  rewrite u32_id.
  - rewrite Z.shiftl_land. done.
  - change 0x7FF with (2 ^ 11 - 1). rewrite land_ones_mod, Z.shiftl_mul_pow2 by lia.
    change (2 ^ 11) with 2048. change (2 ^ 18) with 262144. width_lia.
Qed.

Lemma std_id_read id :
  Z.land (Z.shiftr (Z.land (Z.shiftl id 18) RX_BUF_STDID_MASK) RX_BUF_STDID_SHIFT)
    CAN_STD_ID_MASK = Z.land id CAN_STD_ID_MASK.
Proof.
  unfold RX_BUF_STDID_MASK, RX_BUF_STDID_SHIFT, CAN_STD_ID_MASK.
  rewrite Z.shiftr_land, Z.shiftr_shiftl_l, Z.shiftl_0_r, <- Z.land_assoc by lia. done.
Qed.

(** * The header words *)

(** The identifier that travels on the bus: the format, the identifier bits of that
    format and the remote-request bit; the error bit does not travel. *)
Definition bus_id (id : Z) : Z :=
  let v := if has id CAN_FMT then Z.lor CAN_FMT (Z.land id CAN_EXT_ID_MASK)
           else Z.land id CAN_STD_ID_MASK in
  if has id CAN_RTR then Z.lor v CAN_RTR else v.

(** The part of the second header word that travels on the bus. *)
Definition T1_BUS : Z := Z.lor TX_BUF_DLC_MASK (Z.lor TX_BUF_FDF TX_BUF_BRS).

Lemma t0_fields f :
  has (t0_word f) RX_BUF_XTD = has (can_id f) CAN_FMT /\
  has (t0_word f) RX_BUF_RTR = has (can_id f) CAN_RTR /\
  has (t0_word f) RX_BUF_ESI = has (flags f) CAN_ESI_FLAG /\
  (if has (can_id f) CAN_FMT
   then Z.land (t0_word f) RX_BUF_EXTID_MASK = Z.land (can_id f) CAN_EXT_ID_MASK
   else Z.land (t0_word f) RX_BUF_STDID_MASK
        = Z.land (Z.shiftl (can_id f) 18) RX_BUF_STDID_MASK).
Proof.
  unfold t0_word. rewrite std_id_field.
  unfold TX_BUF_ESI, TX_BUF_RTR, TX_BUF_XTD, RX_BUF_XTD, RX_BUF_RTR, RX_BUF_ESI,
    RX_BUF_EXTID_MASK, RX_BUF_STDID_MASK, CAN_EXT_ID_MASK.
  destruct (has (can_id f) CAN_FMT), (has (can_id f) CAN_RTR), (has (flags f) CAN_ESI_FLAG);
    (split_and!; [..| push_mask; done]);
    rewrite ?has_lor, ?has_land; unfold has; fold_masks; done.
Qed.

Lemma rx_word0_t0 f g :
  rx_word0 (t0_word f) g =
  set_flags (if has (flags f) CAN_ESI_FLAG then CAN_ESI_FLAG else 0)
    (set_can_id (bus_id (can_id f)) g).
Proof.
  destruct (t0_fields f) as (Hx & Hr & He & Hid). unfold rx_word0, bus_id.
  rewrite Hx, Hr, He. destruct (has (can_id f) CAN_FMT); rewrite Hid.
  - rewrite <- Z.land_assoc, Z.land_diag.
    by destruct (has (can_id f) CAN_RTR), (has (flags f) CAN_ESI_FLAG).
  - rewrite std_id_read.
    by destruct (has (can_id f) CAN_RTR), (has (flags f) CAN_ESI_FLAG).
Qed.

Section header.
Context `{CanLengthsOk}.

(** The length that travels: the smallest CAN FD length that holds the data. *)
Definition bus_len (len : Z) : Z := can_fd_dlc2len (can_fd_len2dlc len).

Lemma dlc2len_range d : 0 <= d <= 15 -> 0 <= can_fd_dlc2len d <= 64.
Proof.
  intros Hd. pose proof (dlc2len_table d Hd) as E.
  assert (Hall : Forall (fun l => 0 <= l <= 64) iso_dlc_table).
  { unfold iso_dlc_table. repeat constructor; lia. }
  by apply (Forall_lookup_1 _ _ _ _ Hall E).
Qed.

Lemma bus_len_range l : 0 <= l <= 64 -> l <= bus_len l <= 64.
Proof.
  intros Hl. split; [by apply len2dlc_enough|].
  by apply dlc2len_range, len2dlc_range.
Qed.

(** A length the bus has is sent as it is. *)
Lemma bus_len_exact l : l ∈ iso_dlc_table -> bus_len l = l.
Proof.
  intros [i Hi]%list_elem_of_lookup.
  assert (Hlt : (i < 16)%nat) by exact (lookup_lt_Some _ _ _ Hi).
  assert (Hl : 0 <= l <= 64).
  { assert (Hall : Forall (fun l => 0 <= l <= 64) iso_dlc_table).
    { unfold iso_dlc_table. repeat constructor; lia. }
    by apply (Forall_lookup_1 _ _ _ _ Hall Hi). }
  pose proof (dlc2len_table (Z.of_nat i) ltac:(lia)) as E.
  rewrite Nat2Z.id, Hi in E. injection E as El.
  pose proof (len2dlc_range l Hl) as Hr. pose proof (len2dlc_enough l Hl) as He.
  pose proof (len2dlc_least l (Z.of_nat i) Hl ltac:(lia) ltac:(by rewrite <- El)).
  assert (Hmono : forall a b : nat, (a <= b < 16)%nat ->
    nth a iso_dlc_table 0 <= nth b iso_dlc_table 0).
  { intros a b Hab. revert a Hab. unfold iso_dlc_table.
    do 16 (destruct b as [|b]; [intros a Hab; do 16 (destruct a as [|a]; [simpl; lia|]); lia|]).
    lia. }
  pose proof (dlc2len_table _ Hr) as E.
  specialize (Hmono (Z.to_nat (can_fd_len2dlc l)) i ltac:(lia)).
  rewrite (nth_lookup_Some _ _ _ _ E), (nth_lookup_Some _ _ _ _ Hi) in Hmono.
  unfold bus_len. lia.
Qed.

Lemma len2dlc_eq l : 0 <= l <= 64 -> ttcan_len2dlc l = can_fd_len2dlc l.
Proof.
  intros Hl. pose proof (len2dlc_range l Hl). unfold ttcan_len2dlc.
  case_if; [lia|]. by rewrite !u8_id by (unfold is_u8; rewrite ?u8_id by width_lia; lia).
Qed.

Lemma mm_field_masked index M :
  Z.land 0xFFFFFF M = M -> Z.land (u32 (Z.shiftl index TX_BUF_MM_SHIFT)) M = 0.
Proof.
  intros <-. rewrite Z.land_assoc. change 0xFFFFFF with (2 ^ 24 - 1).
  rewrite land_ones_mod, Z.shiftl_mul_pow2 by (unfold TX_BUF_MM_SHIFT; lia).
  replace (u32 _ mod 2 ^ 24) with 0; [done|].
  unfold TX_BUF_MM_SHIFT. change (2 ^ 24) with 16777216. width_lia.
Qed.

Lemma dlc_field d : 0 <= d <= 15 -> Z.land (Z.shiftl d 16) 0xF0000 = Z.shiftl d 16.
Proof.
  intros Hd. change 0xF0000 with (Z.shiftl (2 ^ 4 - 1) 16). rewrite <- Z.shiftl_land.
  rewrite land_ones_mod by lia. by rewrite Z.mod_small by lia.
Qed.

Lemma t1_bus ev f index :
  0 <= d_len f <= 64 ->
  Z.land (t1_word ev f index) T1_BUS =
  Z.lor (Z.lor (Z.shiftl (can_fd_len2dlc (d_len f)) 16)
    (if has (flags f) CAN_FD_FLAG then TX_BUF_FDF else 0))
    (if has (flags f) CAN_BRS_FLAG then TX_BUF_BRS else 0).
Proof.
  intros Hl. unfold t1_word. rewrite len2dlc_eq by done.
  pose proof (len2dlc_range _ Hl) as Hd. unfold TX_BUF_DLC_SHIFT.
  change TX_BUF_DLC_MASK with 0xF0000. rewrite dlc_field by done.
  rewrite Z.land_lor_distr_l, mm_field_masked, Z.lor_0_r by reflexivity.
  rewrite <- dlc_field by done.
  unfold T1_BUS, TX_BUF_DLC_MASK, TX_BUF_FDF, TX_BUF_BRS, TX_BUF_EFC.
  destruct (ev =? 0), (has (flags f) CAN_FD_FLAG), (has (flags f) CAN_BRS_FLAG);
    push_mask; done.
Qed.
End header.

Lemma flag_bits fl :
  Z.lor (Z.lor (if has fl CAN_ESI_FLAG then CAN_ESI_FLAG else 0)
    (if has fl CAN_FD_FLAG then CAN_FD_FLAG else 0))
    (if has fl CAN_BRS_FLAG then CAN_BRS_FLAG else 0) = Z.land fl 7.
Proof.
  assert (E : forall b, Z.land 7 b = b -> has fl b = has (fl mod 8) b).
  { intros b <-. rewrite <- !has_land. change 7 with (2 ^ 3 - 1).
    rewrite !land_ones_mod by lia. change (2 ^ 3) with 8. by rewrite Z.mod_mod. }
  rewrite !E by reflexivity. change 7 with (2 ^ 3 - 1). rewrite land_ones_mod by lia.
  change (2 ^ 3) with 8. pose proof (Z.mod_pos_bound fl 8 ltac:(lia)) as Hb.
  generalize dependent (fl mod 8). intros k _ Hk.
  assert (k = 0 \/ k = 1 \/ k = 2 \/ k = 3 \/ k = 4 \/ k = 5 \/ k = 6 \/ k = 7) as Hc by lia.
  destruct_or! Hc; by subst.
Qed.

(** * The data words *)

(** Byte [i] of the words from [a] on, in the little-endian order of the element. *)
Definition ram_byte (m : mram) (a i : Z) : Z :=
  Z.land (Z.shiftr (m (a + 4 * (i / 4))) (8 * (i mod 4))) 0xFF.

Record frame_wf (f : ttcanfd_frame) : Prop := {
  wf_len : 0 <= d_len f <= 64;
  wf_data : length (data f) = 64%nat;
  wf_bytes : Forall is_u8 (data f)
}.

(** The number of bytes in the whole words that hold [n] bytes. *)
Definition round4 (n : Z) : Z := 4 * ((n + 3) / 4).

Lemma byte_put i v f x :
  0 <= i < Z.of_nat (length (data f)) -> 0 <= x ->
  byte (put_byte i v f) x = if x =? i then v else byte f x.
Proof.
  intros Hi Hx. unfold byte, put_byte. simpl. rewrite !nth_lookup.
  case_if.
  - subst x. by rewrite list_lookup_insert_eq by lia.
  - by rewrite list_lookup_insert_ne by lia.
Qed.

Lemma put_byte_length i v f : length (data (put_byte i v f)) = length (data f).
Proof. apply length_insert. Qed.

Lemma byte_u8 f i : Forall is_u8 (data f) -> is_u8 (byte f i).
Proof.
  intros Hf. unfold byte. rewrite nth_lookup.
  destruct (data f !! _) eqn:E; simpl; [|width_lia].
  exact (Forall_lookup_1 _ _ _ _ Hf E).
Qed.

(** The bytes of a word built for [n] remaining bytes: data, then zeros. *)
Lemma tx_data_word_byte f idx n j :
  Forall is_u8 (data f) -> 0 < n -> 0 <= j < 4 ->
  Z.land (Z.shiftr (tx_data_word f idx n) (8 * j)) 0xFF =
  if j <? n then byte f (idx + j) else 0.
Proof.
  intros Hf Hn Hj. rewrite land_255, Z.shiftr_div_pow2 by lia.
  pose proof (byte_u8 f (idx + 0) Hf). pose proof (byte_u8 f (idx + 1) Hf).
  pose proof (byte_u8 f (idx + 2) Hf). pose proof (byte_u8 f (idx + 3) Hf).
  unfold tx_data_word. rewrite !Z.shiftl_mul_pow2 by lia.
  assert (Hc : j = 0 \/ j = 1 \/ j = 2 \/ j = 3) by lia.
  destruct_or! Hc; subst j; simpl Z.mul; simpl Z.pow; repeat case_if; try lia;
    width_lia.
Qed.

(** What the switch of the receive loop stores. *)
Lemma rx_data_word_spec w bi n f :
  0 <= bi -> 0 < n -> bi + Z.min 4 n <= Z.of_nat (length (data f)) ->
  let f' := rx_data_word w bi n f in
  length (data f') = length (data f) /\ set_data (data f) f' = f /\
  forall x, 0 <= x -> byte f' x =
    if (bi <=? x) && (x <? bi + Z.min 4 n) then Z.land (Z.shiftr w (8 * (x - bi))) 0xFF
    else byte f x.
Proof.
  intros Hbi Hn Hle. unfold rx_data_word. cbv zeta.
  split_and!.
  - repeat case_if; by rewrite ?put_byte_length.
  - by repeat case_if; destruct f.
  - intros x Hx.
    repeat case_if; rewrite !byte_put by (rewrite ?put_byte_length; lia);
      repeat case_if; try lia; try done; try (f_equal; f_equal; lia);
      replace (8 * (x - bi)) with 0 by lia; by rewrite Z.shiftr_0_r.
Qed.

Lemma round4_0 : round4 0 = 0.
Proof. done. Qed.

(** The copy loop stores one word per four bytes, and nothing else. *)
Lemma tx_loop_spec fuel addr f k n m :
  0 <= k -> 0 <= n -> 4 * k + n <= 64 -> n <= Z.of_nat fuel ->
  exists m', tx_loop fuel addr f (4 * k) n m = Some (4 * k + round4 n, m') /\
    (forall j, k <= j < k + (n + 3) / 4 ->
       m' (addr + 8 + 4 * j) = tx_data_word f (4 * j) (n - 4 * (j - k))) /\
    (forall x, (forall j, k <= j < k + (n + 3) / 4 -> x <> addr + 8 + 4 * j) -> m' x = m x).
Proof.
  revert k n m. induction fuel as [|fuel IH]; intros k n m Hk Hn Hle Hf; simpl.
  - assert (n = 0) as -> by lia. exists m.
    split_and!; [by rewrite round4_0, Z.add_0_r| |done].
    intros j Hj. change ((0 + 3) / 4) with 0 in Hj. lia.
  - case_if.
    { assert (n = 0) as -> by lia. exists m.
      split_and!; [by rewrite round4_0, Z.add_0_r| |done].
      intros j Hj. change ((0 + 3) / 4) with 0 in Hj. lia. }
    rewrite Z.shiftr_div_pow2 by lia. change (2 ^ 2) with 4.
    replace (4 * k / 4) with k by (Z.div_mod_to_equations; lia).
    rewrite u32_id by width_lia.
    replace (4 * k + 4) with (4 * (k + 1)) by lia.
    destruct (Z.le_gt_cases n 4) as [Hs|Hb].
    + assert (Hone : (n + 3) / 4 = 1) by (Z.div_mod_to_equations; lia).
      destruct fuel as [|fuel]; simpl; rewrite (proj2 (Z.leb_le _ _)) by lia;
        eexists; (split_and!; [do 2 f_equal; unfold round4; lia| |]);
        unfold writel, CAN_WORD_IN_BYTES.
      1, 3: intros j Hj; assert (j = k) as -> by lia;
        rewrite (proj2 (Z.eqb_eq _ _)) by lia; f_equal; lia.
      all: intros x Hx; rewrite (proj2 (Z.eqb_neq _ _)); [done|];
        specialize (Hx k ltac:(lia)); lia.
    + destruct (IH (k + 1) (n - 4)
        (writel (tx_data_word f (4 * k) n) (addr + (k + 2) * CAN_WORD_IN_BYTES) m))
        as (m' & -> & Hin & Hout); [lia..|].
      assert (Hd : (n + 3) / 4 = (n - 4 + 3) / 4 + 1) by (Z.div_mod_to_equations; lia).
      assert (Hp : 1 <= (n + 3) / 4) by (Z.div_mod_to_equations; lia).
      exists m'. split_and!.
      * do 2 f_equal. unfold round4. lia.
      * intros j Hj. destruct (Z.eq_dec j k) as [->|Hne].
        -- rewrite Hout by (intros; lia). unfold writel, CAN_WORD_IN_BYTES.
           rewrite (proj2 (Z.eqb_eq _ _)) by lia. f_equal. lia.
        -- rewrite Hin by lia. f_equal. lia.
      * intros x Hx. rewrite Hout by (intros; apply Hx; lia).
        unfold writel, CAN_WORD_IN_BYTES.
        rewrite (proj2 (Z.eqb_neq _ _)); [done|]. specialize (Hx k ltac:(lia)). lia.
Qed.

Section read.
Context `{CanLengths}.

(** The receive loop up to the first data word. *)
Lemma rx_loop_header fuel addr m f :
  rx_loop (S (S fuel)) addr 0 CANFD_MAX_DLEN m f =
  let h := rx_word1 (readl (addr + 4) m) (rx_word0 (readl (addr + 0) m) f) in
  rx_loop fuel addr 2 (d_len h) m h.
Proof. reflexivity. Qed.

(** The receive loop, from the first data word on. *)
Lemma rx_loop_spec fuel addr k n m f :
  0 <= k -> 0 <= n -> (n = 0 \/ 4 * k + n <= Z.of_nat (length (data f))) ->
  (n + 3) / 4 <= Z.of_nat fuel ->
  exists f', rx_loop fuel addr (2 + k) n m f = Some (2 + k + (n + 3) / 4, f') /\
    length (data f') = length (data f) /\ set_data (data f) f' = f /\
    forall x, 0 <= x -> byte f' x =
      if (4 * k <=? x) && (x <? 4 * k + n) then ram_byte m (addr + 8) x else byte f x.
Proof.
  revert k n f. induction fuel as [|fuel IH]; intros k n f Hk Hn Hle Hf.
  all: destruct (Z.eq_dec n 0) as [->|Hn0].
  all: try (exists f; split_and!;
    [change ((0 + 3) / 4) with 0; by rewrite Z.add_0_r | done | by destruct f
    | intros x Hx; destruct (_ && _) eqn:E; zb; [lia|done]]).
  { assert (1 <= (n + 3) / 4) by (Z.div_mod_to_equations; lia). lia. }
  assert (Hw : forall x, 4 * k <= x < 4 * k + 4 ->
    Z.land (Z.shiftr (readl (addr + (2 + k) * CAN_WORD_IN_BYTES) m) (8 * (x - 4 * k))) 0xFF
    = ram_byte m (addr + 8) x).
  { intros x Hx. unfold ram_byte, readl, CAN_WORD_IN_BYTES. f_equal. f_equal.
    - f_equal. Z.div_mod_to_equations; lia.
    - Z.div_mod_to_equations; lia. }
  simpl. rewrite (proj2 (Z.eqb_neq n 0)), (proj2 (Z.eqb_neq (2 + k) 0)),
    (proj2 (Z.eqb_neq (2 + k) 1)) by lia.
  replace ((2 + k - 2) * CAN_WORD_IN_BYTES) with (4 * k) by (unfold CAN_WORD_IN_BYTES; lia).
  destruct (rx_data_word_spec (readl (addr + (2 + k) * CAN_WORD_IN_BYTES) m) (4 * k) n f)
    as (Hl1 & Hf1 & Hb1); [lia..|].
  set (f1 := rx_data_word _ _ _ _) in *.
  replace (2 + k + 1) with (2 + (k + 1)) by lia.
  set (n' := if 4 <=? n then n - 4 else 0).
  assert (Hn' : n' = Z.max 0 (n - 4)) by (unfold n'; case_if; lia).
  assert (Hd : (n + 3) / 4 = (n' + 3) / 4 + 1) by (Z.div_mod_to_equations; lia).
  destruct (IH (k + 1) n' f1) as (f' & -> & Hl & Hs & Hb); [lia..|].
  exists f'. split_and!; [f_equal; f_equal; lia | by rewrite Hl | |].
  - rewrite <- Hf1, <- Hs. by destruct f'.
  - intros x Hx. rewrite Hb, Hb1 by done.
    destruct ((4 * k <=? x) && (x <? 4 * k + n)) eqn:Ein; zb.
    + destruct ((4 * (k + 1) <=? x) && (x <? 4 * (k + 1) + n')) eqn:E1; zb; [done|].
      rewrite (proj2 (andb_true_iff _ _)); [apply Hw; lia|]. rewrite Z.leb_le, Z.ltb_lt. lia.
    + destruct ((4 * (k + 1) <=? x) && (x <? 4 * (k + 1) + n')) eqn:E1; zb; [lia|].
      destruct ((4 * k <=? x) && (x <? 4 * k + Z.min 4 n)) eqn:E2; zb; [lia|done].
Qed.
End read.

(** * The round trip *)

(** What the bus carries from a transmit element at [a] of one message RAM to a
    receive element at [b] of another: the first header word, the length code and
    the FD and bit-rate bits of the second, and [len] bytes of data. *)
Record carried (len : Z) (m : mram) (a : Z) (m' : mram) (b : Z) : Prop := {
  carried_t0 : m' b = m a;
  carried_t1 : Z.land (m' (b + 4)) T1_BUS = Z.land (m (a + 4)) T1_BUS;
  carried_data k : 0 <= k -> 4 * k < len -> m' (b + 8 + 4 * k) = m (a + 8 + 4 * k)
}.

Lemma carried_byte len m a m' b i :
  carried len m a m' b -> 0 <= i < len -> ram_byte m' (b + 8) i = ram_byte m (a + 8) i.
Proof.
  intros Hc Hi. unfold ram_byte.
  by rewrite (carried_data _ _ _ _ _ Hc) by (Z.div_mod_to_equations; lia).
Qed.

Section roundtrip.
Context `{CanLengthsOk}.

Lemma rx_word1_t1 ev f index w g :
  0 <= d_len f <= 64 -> Z.land w T1_BUS = Z.land (t1_word ev f index) T1_BUS ->
  rx_word1 w g =
  set_tstamp (Z.land w RX_BUF_RXTS_MASK)
    (set_flags (Z.lor (Z.lor (flags g) (if has (flags f) CAN_FD_FLAG then CAN_FD_FLAG else 0))
                 (if has (flags f) CAN_BRS_FLAG then CAN_BRS_FLAG else 0))
      (set_d_len (bus_len (d_len f)) g)).
Proof.
  intros Hl Hw. rewrite t1_bus in Hw by done.
  pose proof (len2dlc_range _ Hl) as Hd. pose proof (bus_len_range _ Hl) as Hb.
  assert (Hdlc : Z.shiftr (Z.land w RX_BUF_DLC_MASK) RX_BUF_DLC_SHIFT
                 = can_fd_len2dlc (d_len f)).
  { change (Z.land w RX_BUF_DLC_MASK) with (Z.land w (Z.land T1_BUS 0xF0000)).
    rewrite Z.land_assoc, Hw. unfold TX_BUF_FDF, TX_BUF_BRS, RX_BUF_DLC_SHIFT.
    rewrite <- dlc_field by done.
    destruct (has (flags f) CAN_FD_FLAG), (has (flags f) CAN_BRS_FLAG); push_mask;
      by rewrite dlc_field, Z.shiftr_shiftl_l, Z.shiftl_0_r by lia. }
  assert (Hflag : forall b, Z.land T1_BUS b = b -> Z.land 0xF0000 b = 0 -> has w b =
    has (Z.lor (if has (flags f) CAN_FD_FLAG then TX_BUF_FDF else 0)
               (if has (flags f) CAN_BRS_FLAG then TX_BUF_BRS else 0)) b).
  { intros b Hb1 Hb2. rewrite <- Hb1 at 1. rewrite <- has_land, Hw, !has_lor, <- orb_assoc.
    replace (has (Z.shiftl _ _) b) with false; [done|].
    rewrite <- dlc_field, has_land, Hb2 by done. unfold has. by rewrite Z.land_0_r. }
  unfold rx_word1. rewrite Hdlc. unfold ttcan_dlc2len.
  rewrite !u8_id by (unfold is_u8; fold (bus_len (d_len f)); rewrite ?u8_id by width_lia; unfold bus_len in *; lia).
  rewrite !Hflag by reflexivity.
  destruct (has (flags f) CAN_FD_FLAG), (has (flags f) CAN_BRS_FLAG);
    simpl; rewrite ?Z.lor_0_r; reflexivity.
Qed.

(** The data words of a written element: the frame's bytes, zeros up to the end of
    the last word, and then what the RAM held before. *)
Lemma write_bytes ev a f index m :
  frame_wf f ->
  exists m1, ttcan_write_tx_msg_ram ev a f index m = Some (round4 (d_len f), m1) /\
    m1 a = t0_word f /\ m1 (a + 4) = t1_word ev f index /\
    (forall x, x < a \/ a + 8 + round4 (d_len f) <= x -> m1 x = m x) /\
    (forall i, 0 <= i -> ram_byte m1 (a + 8) i =
       if i <? d_len f then byte f i
       else if i <? round4 (d_len f) then 0 else ram_byte m (a + 8) i).
Proof.
  intros [Hl Hd Hu]. unfold ttcan_write_tx_msg_ram.
  set (m0 := writel _ (a + CAN_WORD_IN_BYTES) _).
  destruct (tx_loop_spec 64 a f 0 (d_len f) m0) as (m1 & E & Hin & Hout); [lia..|].
  exists m1. rewrite Z.mul_0_r, Z.add_0_l in E. split_and!; [exact E| | | |].
  - rewrite Hout by lia. unfold m0, writel, CAN_WORD_IN_BYTES.
    by rewrite (proj2 (Z.eqb_neq _ _)), Z.eqb_refl by lia.
  - rewrite Hout by lia. unfold m0, writel, CAN_WORD_IN_BYTES. by rewrite Z.eqb_refl.
  - intros x Hx. unfold round4 in Hx.
    assert (0 <= (d_len f + 3) / 4) by (Z.div_mod_to_equations; lia).
    rewrite Hout by lia. unfold m0, writel, CAN_WORD_IN_BYTES.
    by rewrite !(proj2 (Z.eqb_neq _ _)) by lia.
  - intros i Hi. unfold ram_byte, round4.
    assert (Hj : 0 <= i / 4) by (Z.div_mod_to_equations; lia).
    destruct (Z.lt_ge_cases (i / 4) ((d_len f + 3) / 4)) as [Hlt|Hge].
    + rewrite Hin by lia. pose proof (Z.mod_pos_bound i 4 ltac:(lia)).
      rewrite tx_data_word_byte by (try done; Z.div_mod_to_equations; lia).
      replace (4 * (i / 4) + i mod 4) with i by (Z.div_mod_to_equations; lia).
      repeat case_if; try done; exfalso; Z.div_mod_to_equations; lia.
    + rewrite Hout by lia. rewrite (proj2 (Z.ltb_ge i (d_len f))),
        (proj2 (Z.ltb_ge i (4 * _))) by (Z.div_mod_to_equations; lia).
      unfold m0, writel, CAN_WORD_IN_BYTES.
      by rewrite !(proj2 (Z.eqb_neq _ _)) by lia.
Qed.

(** The receive function on an element that the bus has filled. *)
Lemma read_carried ev a f index m1 m' b g :
  0 <= d_len f <= 64 -> length (data g) = 64%nat ->
  m1 a = t0_word f -> m1 (a + 4) = t1_word ev f index ->
  carried (bus_len (d_len f)) m1 a m' b ->
  exists f', ttcan_read_rx_msg_ram b m' g = Some (2 + (bus_len (d_len f) + 3) / 4, f') /\
    can_id f' = bus_id (can_id f) /\ d_len f' = bus_len (d_len f) /\
    flags f' = Z.land (flags f) 7 /\ tstamp f' = Z.land (m' (b + 4)) RX_BUF_RXTS_MASK /\
    length (data f') = 64%nat /\
    forall i, 0 <= i -> byte f' i =
      if i <? bus_len (d_len f) then ram_byte m1 (a + 8) i else byte g i.
Proof.
  intros Hl Hg Ht0 Ht1 Hc. pose proof (bus_len_range _ Hl) as Hb.
  unfold ttcan_read_rx_msg_ram. rewrite rx_loop_header, Z.add_0_r. cbv zeta. unfold readl. rewrite (carried_t0 _ _ _ _ _ Hc), Ht0, rx_word0_t0.
  rewrite (rx_word1_t1 ev f index) by (rewrite ?(carried_t1 _ _ _ _ _ Hc), ?Ht1; done).
  set (h := set_tstamp _ _). change (d_len h) with (bus_len (d_len f)).
  destruct (rx_loop_spec 16 b 0 (bus_len (d_len f)) m' h) as (f' & E & Hlen & Hs & Hby).
  1-2: lia. 1: simpl; rewrite Hg; lia. 1: Z.div_mod_to_equations; lia.
  rewrite !Z.add_0_r in E. exists f'.
  assert (Hh : forall A (p : ttcanfd_frame -> A), (forall v x, p (set_data v x) = p x) -> p f' = p h).
  { intros A p Hp. by rewrite <- Hs, Hp. }
  split_and!; [exact E|by rewrite (Hh _ can_id)|by rewrite (Hh _ d_len)| | | |].
  - rewrite (Hh _ flags) by done. apply flag_bits.
  - by rewrite (Hh _ tstamp).
  - rewrite Hlen. exact Hg.
  - intros i Hi. rewrite Hby by done. rewrite Z.mul_0_r, Z.add_0_l.
    rewrite (proj2 (Z.leb_le 0 i) Hi). simpl. case_if; [|done].
    by apply (carried_byte (bus_len (d_len f))).
Qed.

(** C30. Transmit and receive elements agree.  Writing a frame for transmission stores
    exactly its header and the words of its data, and a receiver that the bus hands
    the element obtains: the identifier in its format with the remote-request bit (the
    error bit does not travel), the smallest CAN FD length that holds the data, the
    ESI, FD and BRS flags and no others (in particular not the direction flag the
    receive function has just set), the controller's time stamp, and the data.  For
    a length the bus has, all received data is the frame's.  For another, the last
    word is filled with zeros, and the words after it are sent as the message RAM
    held them, that is, with data of an earlier frame. *)
Theorem tx_rx_roundtrip ev a f index m :
  frame_wf f ->
  exists m1, ttcan_write_tx_msg_ram ev a f index m = Some (round4 (d_len f), m1) /\
    (forall x, x < a \/ a + 8 + round4 (d_len f) <= x -> m1 x = m x) /\
    forall m' b g, length (data g) = 64%nat ->
      carried (bus_len (d_len f)) m1 a m' b ->
      exists f', ttcan_read_rx_msg_ram b m' g = Some (2 + (bus_len (d_len f) + 3) / 4, f') /\
        can_id f' = bus_id (can_id f) /\ d_len f' = bus_len (d_len f) /\
        flags f' = Z.land (flags f) 7 /\ tstamp f' = Z.land (m' (b + 4)) RX_BUF_RXTS_MASK /\
        (d_len f ∈ iso_dlc_table ->
           d_len f' = d_len f /\ forall i, 0 <= i < d_len f -> byte f' i = byte f i) /\
        forall i, 0 <= i -> byte f' i =
          if negb (i <? bus_len (d_len f)) then byte g i
          else if i <? d_len f then byte f i
          else if i <? round4 (d_len f) then 0
          else ram_byte m (a + 8) i.
Proof.
  intros Hf. destruct (write_bytes ev a f index m Hf) as (m1 & E & Ht0 & Ht1 & Hx & Hb).
  exists m1. split_and!; [done..|]. intros m' b g Hg Hc.
  destruct (read_carried ev a f index m1 m' b g (wf_len _ Hf) Hg Ht0 Ht1 Hc)
    as (f' & E' & Hid & Hl & Hfl & Ht & _ & Hd).
  exists f'. split_and!; try done.
  - intros Hin. rewrite Hl, bus_len_exact by done. split; [done|]. intros i Hi.
    rewrite Hd, Hb, bus_len_exact by (done || lia). by rewrite (proj2 (Z.ltb_lt _ _)) by lia.
  - intros i Hi. rewrite Hd, Hb by done. by destruct (i <? bus_len _).
Qed.
End roundtrip.

(** * Instances *)
Definition first_fit (l : Z) : Z :=
  match list_find (fun n => l <= n) iso_dlc_table with
  | Some (i, _) => Z.of_nat i
  | None => 15
  end.

Definition iso_lengths : CanLengths := {|
  can_fd_dlc2len d := nth (Z.to_nat d) iso_dlc_table 0;
  can_fd_len2dlc := first_fit
|}.

Lemma iso_lengths_ok : @CanLengthsOk iso_lengths.
Proof.
  assert (Hf : forall l, 0 <= l <= 64 -> exists i v,
    list_find (fun n => l <= n) iso_dlc_table = Some (i, v)).
  { intros l Hl. destruct (list_find (fun n => l <= n) iso_dlc_table) as [[i v]|] eqn:E; [eauto|].
    apply list_find_None in E. rewrite Forall_forall in E.
    destruct (E 64); [|lia]. repeat constructor. }
  split; unfold can_fd_dlc2len, can_fd_len2dlc, iso_lengths, first_fit.
  - intros d Hd. destruct (lookup_lt_is_Some_2 iso_dlc_table (Z.to_nat d)) as [v Hv]; [simpl; lia|].
    by rewrite Hv, (nth_lookup_Some _ _ _ _ Hv).
  - intros l Hl. destruct (Hf l Hl) as (i & v & E). rewrite E.
    apply list_find_Some in E as (Hi%lookup_lt_Some & _). simpl in Hi. lia.
  - intros l Hl. destruct (Hf l Hl) as (i & v & E). rewrite E.
    apply list_find_Some in E as (Hi & Hv & _). rewrite Nat2Z.id.
    by rewrite (nth_lookup_Some _ _ _ _ Hi).
  - intros l d Hl Hd Hle. destruct (Hf l Hl) as (i & v & E). rewrite E.
    apply list_find_Some in E as (Hi & Hv & Hmin).
    destruct (Z.le_gt_cases (Z.of_nat i) d) as [?|Hgt]; [done|].
    destruct (lookup_lt_is_Some_2 iso_dlc_table (Z.to_nat d)) as [w Hw]; [simpl; lia|].
    rewrite (nth_lookup_Some _ _ _ _ Hw) in Hle.
    by destruct (Hmin _ _ Hw ltac:(lia)).
Qed.

(** A frame of 25 bytes 7, written over a RAM full of 0xAA: the receiver obtains 32
    bytes, the last four of them 0xAA. *)
Definition frame_25 : ttcanfd_frame :=
  mk_frame 0x123 25 CAN_FD_FLAG 0 0 (replicate 64 7) 0.

Lemma frame_25_wf : frame_wf frame_25.
Proof.
  split; [simpl; lia|done|]. apply Forall_replicate. width_lia.
Qed.

Lemma tx_rx_roundtrip_witness :
  frame_wf frame_25 /\
  exists m1 f',
    @ttcan_write_tx_msg_ram iso_lengths 0 0 frame_25 5 (fun _ => 0xAAAAAAAA) = Some (28, m1) /\
    @ttcan_read_rx_msg_ram iso_lengths 0 m1 zero_frame = Some (10, f') /\
    can_id f' = 0x123 /\ d_len f' = 32 /\ flags f' = CAN_FD_FLAG /\
    byte f' 24 = 7 /\ byte f' 25 = 0 /\ byte f' 28 = 0xAA /\ byte f' 32 = 0.
Proof.
  split; [exact frame_25_wf|].
  destruct (@tx_rx_roundtrip iso_lengths iso_lengths_ok 0 0 frame_25 5 (fun _ => 0xAAAAAAAA)
    frame_25_wf) as (m1 & E & _ & Hr).
  destruct (Hr m1 0 zero_frame eq_refl) as (f' & E' & Hid & Hl & Hf & _ & _ & Hb); [by split|].
  exists m1, f'. split_and!; [exact E|exact E'|by rewrite Hid|by rewrite Hl|by rewrite Hf|..];
    rewrite Hb by lia; reflexivity.
Defined.
