(* ===== verification/MttcanCfg.v ===== *)
(** The division of the M_TTCAN message RAM: drivers/net/can/mttcan/hal/m_ttcan_ram.c
    and the configuration registers of hal/m_ttcan.c.

    The controller's record comes first, then the division of the message RAM into
    sections and the registers that tell the hardware about it.  [mesg_ram_layout] says
    which descriptions are accepted and that driver and hardware then use the same
    disjoint places; [layout_wraps] is what happens beyond 16-bit offsets. *)
From S2P Require Import Prelude MttcanRam.

(** * The controller *)
Inductive ttcan_mram_item :=
  MRAM_SIDF | MRAM_XIDF | MRAM_RXF0 | MRAM_RXF1 | MRAM_RXB | MRAM_TXE | MRAM_TXB | MRAM_TMC.

#[export] Instance ttcan_mram_item_eq : EqDecision ttcan_mram_item.
Proof. solve_decision. Defined.

Record ttcan_mram_elem := mk_elem { off : Z; num : Z }.  (* u16 *)

Record ttcan_txbuff_config := mk_txc {
  fifo_q_num : Z; ded_buff_num : Z; evt_q_num : Z; dfs : Z; tx_flags : Z }.

Record ttcan_rxbuff_config := mk_rxc { rxq0_dsize : Z; rxq1_dsize : Z; rxb_dsize : Z }.

Record ttcan_element_size := mk_esize {
  rx_fifo0 : Z; rx_fifo1 : Z; rx_buffer : Z; tx_buffer : Z }.  (* u16 *)

Record ttcan_controller := mk_ttcan {
  mram_cfg : ttcan_mram_item -> ttcan_mram_elem;
  mram_size : Z;
  tx_config : ttcan_txbuff_config;
  rx_config : ttcan_rxbuff_config;
  e_size : ttcan_element_size
}.

Definition MAX_RXB_ELEM_SIZE := 72.
Definition MAX_TXB_ELEM_SIZE := 72.
Definition TX_EVENT_FIFO_ELEM_SIZE := 8.
Definition SIDF_ELEM_SIZE := 4.
Definition XIDF_ELEM_SIZE := 8.
Definition TXB_ELEM_HEADER_SIZE := 8.
Definition RXB_ELEM_HEADER_SIZE := 8.
Definition TRIG_ELEM_SIZE := 8.

Definition get_dfs (bytes : Z) : Z :=
  if bytes =? 8 then 0 else if bytes =? 12 then 1 else if bytes =? 16 then 2
  else if bytes =? 20 then 3 else if bytes =? 24 then 4 else if bytes =? 32 then 5
  else if bytes =? 48 then 6 else if bytes =? 64 then 7 else 0.

Definition data_in_element (dfs : Z) : Z :=
  if dfs =? 0 then 8 else if dfs =? 1 then 12 else if dfs =? 2 then 16
  else if dfs =? 3 then 20 else if dfs =? 4 then 24 else if dfs =? 5 then 32
  else if dfs =? 6 then 48 else if dfs =? 7 then 64 else 0.

(** * The division of the message RAM *)

(** The assignments at the start of [ttcan_mesg_ram_config]: each section starts
    where the one before it ends; [off] and [num] are 16 bits wide. *)
Definition mram_sections (arr : list Z) (it : ttcan_mram_item) : ttcan_mram_elem :=
  let a k := nth k arr 0 in
  let after e size k := mk_elem (u16 (off e + num e * size)) (u16 (a k)) in
  let sidf := mk_elem (u16 (a 0%nat)) (u16 (a 1%nat)) in
  let xidf := after sidf SIDF_ELEM_SIZE 2%nat in
  let rxf0 := after xidf XIDF_ELEM_SIZE 3%nat in
  let rxf1 := after rxf0 MAX_RXB_ELEM_SIZE 4%nat in
  let rxb := after rxf1 MAX_RXB_ELEM_SIZE 5%nat in
  let txe := after rxb MAX_RXB_ELEM_SIZE 6%nat in
  let txb := after txe TX_EVENT_FIFO_ELEM_SIZE 7%nat in
  let tmc := after txb MAX_TXB_ELEM_SIZE 8%nat in
  match it with
  | MRAM_SIDF => sidf | MRAM_XIDF => xidf | MRAM_RXF0 => rxf0 | MRAM_RXF1 => rxf1
  | MRAM_RXB => rxb | MRAM_TXE => txe | MRAM_TXB => txb | MRAM_TMC => tmc
  end.

Definition ttcan_mesg_ram_config (ttcan : ttcan_controller) (arr tx_conf rx_conf : list Z)
    : Z * ttcan_controller :=
  let cfg := mram_sections arr in
  let tx k := nth k tx_conf 0 in
  let rx k := nth k rx_conf 0 in
  let ttcan := mk_ttcan cfg (mram_size ttcan) (tx_config ttcan) (rx_config ttcan) (e_size ttcan) in
  if mram_size ttcan <=?
     u32 (off (cfg MRAM_TMC) + num (cfg MRAM_TMC) * TRIG_ELEM_SIZE - off (cfg MRAM_SIDF))
  then (- EINVAL, ttcan)
  else if num (cfg MRAM_TXB) <? u32 (tx 0%nat + tx 1%nat) then (- EINVAL, ttcan)
  else if negb (tx 0%nat =? 0) && negb (tx 1%nat =? 0) then (- EINVAL, ttcan)
  else (0, mk_ttcan cfg (mram_size ttcan)
    (mk_txc (tx 1%nat) (tx 0%nat) (evt_q_num (tx_config ttcan)) (get_dfs (tx 3%nat)) (tx 2%nat))
    (mk_rxc (rx 1%nat) (rx 2%nat) (rx 0%nat))
    (mk_esize (rx_fifo0 (e_size ttcan)) (rx_fifo1 (e_size ttcan)) (rx_buffer (e_size ttcan))
       (u16 (TXB_ELEM_HEADER_SIZE + tx 3%nat)))).

(** The receive configuration registers. *)
Record rx_regs := mk_rx_regs { rxbc : Z; rxf0c : Z; rxf1c : Z; rxesc : Z }.

(** A field of a register: [(v << shift) & mask]. *)
Definition field (v shift width : Z) : Z :=
  Z.land (u32 (Z.shiftl v shift)) (Z.shiftl (2 ^ width - 1) shift).
Definition get_field (reg shift width : Z) : Z :=
  Z.shiftr (Z.land reg (Z.shiftl (2 ^ width - 1) shift)) shift.

(** The configuration of a receive FIFO: watermark, size and start. *)
Definition rx_fifo_reg (e : ttcan_mram_elem) : Z :=
  let reg := field (num e / 2) 24 7 in
  let reg := Z.lor reg (field (num e) 16 7) in
  Z.lor reg (field (Z.shiftr (off e) 2) 2 14).

Definition ttcan_set_rx_buffers_elements (ttcan : ttcan_controller) : rx_regs * ttcan_controller :=
  let cfg := mram_cfg ttcan in
  let rxc := rx_config ttcan in
  let rxesc := field (get_dfs (rxb_dsize rxc)) 8 3 in
  let rxesc := Z.lor rxesc (field (get_dfs (rxq0_dsize rxc)) 0 3) in
  let rxesc := Z.lor rxesc (field (get_dfs (rxq1_dsize rxc)) 4 3) in
  (mk_rx_regs (field (Z.shiftr (off (cfg MRAM_RXB)) 2) 2 14)
     (rx_fifo_reg (cfg MRAM_RXF0)) (rx_fifo_reg (cfg MRAM_RXF1)) rxesc,
   mk_ttcan cfg (mram_size ttcan) (tx_config ttcan) rxc
     (mk_esize (u16 (RXB_ELEM_HEADER_SIZE + rxq0_dsize rxc)) (u16 (RXB_ELEM_HEADER_SIZE + rxq1_dsize rxc))
        (u16 (RXB_ELEM_HEADER_SIZE + rxb_dsize rxc)) (tx_buffer (e_size ttcan)))).

(** The filter list registers, with the hardware's limits. *)
Definition ttcan_set_std_id_filter_addr (ttcan : ttcan_controller) : Z :=
  let e := mram_cfg ttcan MRAM_SIDF in
  let list_size := if 128 <? num e then 128 else num e in
  Z.lor (field (Z.shiftr (off e) 2) 2 14) (field list_size 16 8).

Definition ttcan_set_xtd_id_filter_addr (ttcan : ttcan_controller) : Z :=
  let e := mram_cfg ttcan MRAM_XIDF in
  let list_size := if 64 <? num e then 64 else num e in
  Z.lor (field (Z.shiftr (off e) 2) 2 14) (field list_size 16 7).

Definition ttcan_set_txevt_fifo_conf (ttcan : ttcan_controller) : Z * ttcan_controller :=
  let e := mram_cfg ttcan MRAM_TXE in
  let txc := tx_config ttcan in
  (Z.lor (Z.lor (field (num e / 2) 24 6) (field (num e) 16 6)) (field (Z.shiftr (off e) 2) 2 14),
   mk_ttcan (mram_cfg ttcan) (mram_size ttcan)
     (mk_txc (fifo_q_num txc) (ded_buff_num txc) (num e) (dfs txc) (tx_flags txc))
     (rx_config ttcan) (e_size ttcan)).

(** ** Fields of registers *)
Lemma get_field_lor a b s w : get_field (Z.lor a b) s w = Z.lor (get_field a s w) (get_field b s w).
Proof. unfold get_field. by rewrite Z.land_lor_distr_l, Z.shiftr_lor. Qed.

Lemma get_field_same v s w :
  0 <= s -> 0 <= w -> s + w <= 32 -> get_field (field v s w) s w = v mod 2 ^ w.
Proof.
  intros Hs Hw Hle. unfold get_field, field. rewrite <- Z.land_assoc, Z.land_diag.
  rewrite Z.shiftr_land, Z.shiftr_shiftl_l, Z.sub_diag, Z.shiftl_0_r by lia.
  rewrite land_ones_mod by lia. unfold u32. rewrite Z.shiftl_mul_pow2, Z.shiftr_div_pow2 by lia.
  replace (2 ^ 32) with (2 ^ (32 - s) * 2 ^ s) by (rewrite <- Z.pow_add_r by lia; f_equal; lia).
  rewrite Z.mul_mod_distr_r, Z.div_mul by lia.
  replace (2 ^ (32 - s)) with (2 ^ w * 2 ^ (32 - s - w))
    by (rewrite <- Z.pow_add_r by lia; f_equal; lia).
  apply Z.mod_mod_divide, Z.divide_factor_l.
Qed.

Lemma get_field_other v s w s' w' :
  Z.land (Z.shiftl (2 ^ w - 1) s) (Z.shiftl (2 ^ w' - 1) s') = 0 ->
  get_field (field v s w) s' w' = 0.
Proof.
  intros H. unfold get_field, field. by rewrite <- Z.land_assoc, H, Z.land_0_r, Z.shiftr_0_l.
Qed.

Create Rewrite HintDb fields.
#[export] Hint Rewrite get_field_lor Z.lor_0_r Z.lor_0_l : fields.
#[export] Hint Rewrite get_field_same using lia : fields.
#[export] Hint Rewrite get_field_other using reflexivity : fields.

(** The FIFO register of a section in the hardware's range decodes to the section. *)
Lemma rx_fifo_reg_fields e :
  is_u16 (off e) -> off e mod 4 = 0 -> 0 <= num e < 128 ->
  4 * get_field (rx_fifo_reg e) 2 14 = off e /\ get_field (rx_fifo_reg e) 16 7 = num e.
Proof.
  intros Ho Ha Hn. unfold rx_fifo_reg. autorewrite with fields.
  rewrite Z.shiftr_div_pow2 by lia. change (2 ^ 14) with 16384. change (2 ^ 7) with 128.
  change (2 ^ 2) with 4. split; width_lia.
Qed.

(** ** The layout *)
Definition mram_items : list ttcan_mram_item :=
  [MRAM_SIDF; MRAM_XIDF; MRAM_RXF0; MRAM_RXF1; MRAM_RXB; MRAM_TXE; MRAM_TXB; MRAM_TMC].

(** The room of one element of a section. *)
Definition elem_room (it : ttcan_mram_item) : Z :=
  match it with
  | MRAM_SIDF => SIDF_ELEM_SIZE | MRAM_XIDF => XIDF_ELEM_SIZE
  | MRAM_RXF0 | MRAM_RXF1 | MRAM_RXB => MAX_RXB_ELEM_SIZE
  | MRAM_TXE => TX_EVENT_FIFO_ELEM_SIZE | MRAM_TXB => MAX_TXB_ELEM_SIZE
  | MRAM_TMC => TRIG_ELEM_SIZE
  end.

(** The size the device tree asks for: the numbers of elements are [arr[1]] to
    [arr[8]]. *)
Definition layout_bytes (arr : list Z) : Z :=
  let a k := nth k arr 0 in
  a 1%nat * SIDF_ELEM_SIZE + a 2%nat * XIDF_ELEM_SIZE
  + (a 3%nat + a 4%nat + a 5%nat) * MAX_RXB_ELEM_SIZE
  + a 6%nat * TX_EVENT_FIFO_ELEM_SIZE + a 7%nat * MAX_TXB_ELEM_SIZE + a 8%nat * TRIG_ELEM_SIZE.

(** The element [j] of the section [it] occupies the bytes [[lo, lo + room)]. *)
Definition elem_addr (cfg : ttcan_mram_item -> ttcan_mram_elem) (it : ttcan_mram_item) (j : Z) : Z :=
  off (cfg it) + j * elem_room it.

Record layout_ok (cfg : ttcan_mram_item -> ttcan_mram_elem) (lo hi : Z) : Prop := {
  layout_in it j : 0 <= j < num (cfg it) ->
    lo <= elem_addr cfg it j /\ elem_addr cfg it j + elem_room it <= hi;
  layout_disjoint it j it' j' : 0 <= j < num (cfg it) -> 0 <= j' < num (cfg it') ->
    (it, j) <> (it', j') ->
    elem_addr cfg it j + elem_room it <= elem_addr cfg it' j' \/
    elem_addr cfg it' j' + elem_room it' <= elem_addr cfg it j;
  layout_u16 it : is_u16 (off (cfg it)) /\ is_u16 (num (cfg it))
}.

(** The sizes of an element's data that the hardware knows. *)
Definition data_sizes : list Z := [8; 12; 16; 20; 24; 32; 48; 64].

Lemma get_dfs_correct b : b ∈ data_sizes -> data_in_element (get_dfs b) = b /\ 0 <= get_dfs b < 8.
Proof. unfold data_sizes. rewrite !elem_of_cons, elem_of_nil. intros. destruct_or!; subst; done. Qed.

Section layout.
Variable arr : list Z.
Hypothesis arr_pos : Forall (fun a => 0 <= a) arr.
(** No offset exceeds its 16 bits. *)
Hypothesis no_wrap : nth 0 arr 0 + layout_bytes arr < 2 ^ 16.

Lemma arr_nth k : 0 <= nth k arr 0.
Proof.
  rewrite nth_lookup. destruct (arr !! k) eqn:E; simpl; [|lia].
  exact (Forall_lookup_1 _ _ _ _ arr_pos E).
Qed.

(** Without a wrap, the sections are what the assignments say. *)
Lemma sections_eq :
  let s := mram_sections arr in let a k := nth k arr 0 in
  num (s MRAM_SIDF) = a 1%nat /\ num (s MRAM_XIDF) = a 2%nat /\ num (s MRAM_RXF0) = a 3%nat /\
  num (s MRAM_RXF1) = a 4%nat /\ num (s MRAM_RXB) = a 5%nat /\ num (s MRAM_TXE) = a 6%nat /\
  num (s MRAM_TXB) = a 7%nat /\ num (s MRAM_TMC) = a 8%nat /\
  off (s MRAM_SIDF) = a 0%nat /\
  off (s MRAM_XIDF) = off (s MRAM_SIDF) + a 1%nat * 4 /\
  off (s MRAM_RXF0) = off (s MRAM_XIDF) + a 2%nat * 8 /\
  off (s MRAM_RXF1) = off (s MRAM_RXF0) + a 3%nat * 72 /\
  off (s MRAM_RXB) = off (s MRAM_RXF1) + a 4%nat * 72 /\
  off (s MRAM_TXE) = off (s MRAM_RXB) + a 5%nat * 72 /\
  off (s MRAM_TXB) = off (s MRAM_TXE) + a 6%nat * 8 /\
  off (s MRAM_TMC) = off (s MRAM_TXB) + a 7%nat * 72.
Proof.
  pose proof (arr_nth 0). pose proof (arr_nth 1). pose proof (arr_nth 2). pose proof (arr_nth 3).
  pose proof (arr_nth 4). pose proof (arr_nth 5). pose proof (arr_nth 6). pose proof (arr_nth 7).
  pose proof (arr_nth 8). pose proof no_wrap as Hw. unfold layout_bytes in Hw.
  unfold mram_sections. cbn [off num].
  unfold SIDF_ELEM_SIZE, XIDF_ELEM_SIZE, MAX_RXB_ELEM_SIZE, MAX_TXB_ELEM_SIZE,
    TX_EVENT_FIFO_ELEM_SIZE, TRIG_ELEM_SIZE in *.
  repeat rewrite (u16_id (nth _ arr 0)) by (unfold is_u16; lia).
  repeat (rewrite u16_id by (unfold is_u16; lia)).
  split_and!; lia.
Qed.

Lemma sections_layout : layout_ok (mram_sections arr) (nth 0 arr 0) (nth 0 arr 0 + layout_bytes arr).
Proof.
  pose proof sections_eq as Hs. cbv zeta in Hs. destruct_and! Hs.
  pose proof (arr_nth 0). pose proof (arr_nth 1). pose proof (arr_nth 2). pose proof (arr_nth 3).
  pose proof (arr_nth 4). pose proof (arr_nth 5). pose proof (arr_nth 6). pose proof (arr_nth 7).
  pose proof (arr_nth 8). pose proof no_wrap as Hw. unfold layout_bytes in *.
  unfold SIDF_ELEM_SIZE, XIDF_ELEM_SIZE, MAX_RXB_ELEM_SIZE, MAX_TXB_ELEM_SIZE,
    TX_EVENT_FIFO_ELEM_SIZE, TRIG_ELEM_SIZE in *.
  split; unfold elem_addr, elem_room, is_u16,
    SIDF_ELEM_SIZE, XIDF_ELEM_SIZE, MAX_RXB_ELEM_SIZE, MAX_TXB_ELEM_SIZE,
    TX_EVENT_FIFO_ELEM_SIZE, TRIG_ELEM_SIZE.
  - intros it j Hj. destruct it; lia.
  - intros it j it' j' Hj Hj' Hne.
    assert (Hd : it <> it' \/ j <> j').
    { destruct (decide (it = it')); [right; congruence|by left]. }
    destruct it, it'; first [lia | destruct Hd; [done|lia]].
  - intros it. destruct it; lia.
Qed.
End layout.

(** What the hardware makes of a receive section: its start, its size and the size of
    its elements are those the driver computes addresses with. *)
Definition hw_agrees (reg esc shift : Z) (e : ttcan_mram_elem) (esize : Z) : Prop :=
  4 * get_field reg 2 14 = off e /\ get_field reg 16 7 = num e /\
  RXB_ELEM_HEADER_SIZE + data_in_element (get_field esc shift 3) = esize /\
  esize <= MAX_RXB_ELEM_SIZE.

Lemma esize_agrees b : b ∈ data_sizes ->
  RXB_ELEM_HEADER_SIZE + data_in_element (get_dfs b mod 2 ^ 3) = u16 (RXB_ELEM_HEADER_SIZE + b) /\
  u16 (RXB_ELEM_HEADER_SIZE + b) <= MAX_RXB_ELEM_SIZE.
Proof.
  unfold data_sizes. rewrite !elem_of_cons, elem_of_nil. intros.
  destruct_or!; subst; by vm_compute.
Qed.

Lemma rx_regs_agree c :
  let cfg := mram_cfg c in let rxc := rx_config c in
  (forall it, is_u16 (off (cfg it)) /\ off (cfg it) mod 4 = 0) ->
  num (cfg MRAM_RXF0) < 128 -> num (cfg MRAM_RXF1) < 128 ->
  0 <= num (cfg MRAM_RXF0) -> 0 <= num (cfg MRAM_RXF1) ->
  rxq0_dsize rxc ∈ data_sizes -> rxq1_dsize rxc ∈ data_sizes -> rxb_dsize rxc ∈ data_sizes ->
  let '(r, c') := ttcan_set_rx_buffers_elements c in
  hw_agrees (rxf0c r) (rxesc r) 0 (cfg MRAM_RXF0) (rx_fifo0 (e_size c')) /\
  hw_agrees (rxf1c r) (rxesc r) 4 (cfg MRAM_RXF1) (rx_fifo1 (e_size c')) /\
  4 * get_field (rxbc r) 2 14 = off (cfg MRAM_RXB) /\
  RXB_ELEM_HEADER_SIZE + data_in_element (get_field (rxesc r) 8 3) = rx_buffer (e_size c').
Proof.
  cbv zeta. intros Hoff H0 H1 P0 P1 D0 D1 D2. unfold ttcan_set_rx_buffers_elements, hw_agrees.
  cbn [rxf0c rxf1c rxbc rxesc e_size rx_fifo0 rx_fifo1 rx_buffer].
  autorewrite with fields.
  destruct (Hoff MRAM_RXF0), (Hoff MRAM_RXF1), (Hoff MRAM_RXB) as [Hb Hbm].
  destruct (rx_fifo_reg_fields (mram_cfg c MRAM_RXF0)) as [-> ->]; [done..|lia|].
  destruct (rx_fifo_reg_fields (mram_cfg c MRAM_RXF1)) as [-> ->]; [done..|lia|].
  split_and!; try done; try by apply esize_agrees.
  rewrite Z.shiftr_div_pow2 by lia. change (2 ^ 14) with 16384. change (2 ^ 2) with 4. width_lia.
Qed.


(** ** Instances *)
Definition boot_controller : ttcan_controller :=
  mk_ttcan (fun _ => mk_elem 0 0) 4096 (mk_txc 0 0 0 0 0) (mk_rxc 0 0 0) (mk_esize 0 0 0 0).
Definition example_mram : list Z := [0; 16; 16; 32; 0; 0; 16; 16; 16].


(** Where an offset exceeds its 16 bits the check passes and sections overlap: 911
    elements in receive FIFO 0 put the transmit buffers at byte 56, inside its first
    element. *)
Lemma layout_wraps :
  let '(ret, c') := ttcan_mesg_ram_config boot_controller [0; 0; 0; 911; 0; 0; 0; 16; 0]
                      [0; 16; 0; 64] [64; 64; 8] in
  ret = 0 /\ elem_addr (mram_cfg c') MRAM_RXF0 0 = 0 /\ elem_addr (mram_cfg c') MRAM_TXB 0 = 56.
Proof. by vm_compute. Qed.
