(* ===== verification/MttcanFltr.v ===== *)
(** M_TTCAN filters and trigger memory: drivers/net/can/mttcan/hal/m_ttcan_ram.c,
    the sysfs stores of native/m_ttcan_sys.c and the resume path of
    native/m_ttcan_linux.c.

    A filter is written to the message RAM and to a shadow in kernel memory.  The
    shadow is an array of bytes; an access outside it is [None].  [std_fltr_store]
    says for every input what storing a standard filter does, the inputs that leave
    the shadow included; [resume_restores] says what the RAM holds after a suspend. *)
From S2P Require Import Prelude MttcanRam MttcanCfg.

(** * Shadows *)
Definition shadow := list Z.  (* bytes *)

Definition le32 (v : Z) : list Z :=
  [v mod 256; v / 256 mod 256; v / 65536 mod 256; v / 16777216 mod 256].

(** The 32-bit word at byte [o]. *)
Definition read32 (s : shadow) (o : Z) : option Z :=
  if (0 <=? o) && (o + 4 <=? Z.of_nat (length s)) then
    let b k := nth (Z.to_nat (o + k)) s 0 in
    Some (b 0 + 256 * b 1 + 65536 * b 2 + 16777216 * b 3)
  else None.

(** Copying the word [v] to byte [o]. *)
Definition write32 (o v : Z) (s : shadow) : option shadow :=
  if (0 <=? o) && (o + 4 <=? Z.of_nat (length s)) then
    Some (list_inserts (Z.to_nat o) (le32 v) s)
  else None.

(** * Filter elements *)
Definition std_elem (sft sfec sfid1 sfid2 : Z) : Z :=
  Z.lor (Z.lor (Z.lor (field sfid2 0 11) (field sfid1 16 11)) (field sfec 27 3)) (field sft 30 2).

Definition xtd_f0 (efec efid1 : Z) : Z := Z.lor (field efec 29 3) (field efid1 0 29).
Definition xtd_f1 (eft efid2 : Z) : Z := Z.lor (field eft 30 2) (field efid2 0 29).

Definition trig_f0 (time_mark cycle_code tmin tmex trig_type : Z) : Z :=
  Z.lor (Z.lor (Z.lor (Z.lor (field time_mark 16 16) (field cycle_code 8 7)) (field tmin 5 1))
    (field tmex 4 1)) (field trig_type 0 4).
Definition trig_f1 (filter_type mesg_num : Z) : Z :=
  Z.lor (field filter_type 23 1) (field mesg_num 16 7).

Section hal.
Variable cfg : ttcan_mram_item -> ttcan_mram_elem.

Definition ttcan_set_std_id_filter (filter_index sft sfec sfid1 sfid2 : Z) (s : shadow * mram)
    : option (shadow * mram) :=
  let filter_offset := u32 (filter_index * SIDF_ELEM_SIZE) in
  let filter_elem := std_elem sft sfec sfid1 sfid2 in
  sh ← write32 filter_offset filter_elem s.1;
  Some (sh, writel filter_elem (off (cfg MRAM_SIDF) + filter_offset) s.2).

Definition ttcan_get_std_id_filter (idx : Z) (m : mram) : Z :=
  readl (off (cfg MRAM_SIDF) + u32 (idx * SIDF_ELEM_SIZE)) m.

(** The structure that is copied to the shadow has the members [f1], [f0] in this
    order. *)
Definition ttcan_set_xtd_id_filter (filter_index eft efec efid1 efid2 : Z) (s : shadow * mram)
    : option (shadow * mram) :=
  let filter_offset := u32 (filter_index * XIDF_ELEM_SIZE) in
  let f0 := xtd_f0 efec efid1 in
  let f1 := xtd_f1 eft efid2 in
  sh ← write32 filter_offset f1 s.1;
  sh ← write32 (filter_offset + 4) f0 sh;
  let m := writel f0 (off (cfg MRAM_XIDF) + filter_offset) s.2 in
  Some (sh, writel f1 (off (cfg MRAM_XIDF) + filter_offset + CAN_WORD_IN_BYTES) m).

Definition ttcan_get_xtd_id_filter (idx : Z) (m : mram) : Z :=
  let offset := u32 (idx * XIDF_ELEM_SIZE) in
  Z.lor (Z.shiftl (readl (off (cfg MRAM_XIDF) + offset + CAN_WORD_IN_BYTES) m) 32)
    (readl (off (cfg MRAM_XIDF) + offset) m).

Definition ttcan_set_trigger_mem (trig_index time_mark cycle_code tmin tmex trig_type
    filter_type mesg_num : Z) (s : shadow * mram) : option (Z * (shadow * mram)) :=
  let idx := u32 (trig_index * TRIG_ELEM_SIZE) in
  if 63 <? trig_index then Some (-1, s)
  else if 127 <? cycle_code then Some (-1, s)
  else
    let f0 := trig_f0 time_mark cycle_code tmin tmex trig_type in
    let f1 := trig_f1 filter_type mesg_num in
    sh ← write32 idx f1 s.1;
    sh ← write32 (idx + 4) f0 sh;
    let m := writel f0 (off (cfg MRAM_TMC) + idx) s.2 in
    Some (0, (sh, writel f1 (off (cfg MRAM_TMC) + idx + CAN_WORD_IN_BYTES) m)).

Definition ttcan_get_trigger_mem (idx : Z) (m : mram) : Z :=
  let offset := u32 (idx * TRIG_ELEM_SIZE) in
  Z.lor (Z.shiftl (readl (off (cfg MRAM_TMC) + offset + CAN_WORD_IN_BYTES) m) 32)
    (readl (off (cfg MRAM_TMC) + offset) m).

(** ** Programming the RAM from the shadows: [for (idx = 0; idx < list_size; idx++)],
    with [n] rounds left. *)
Fixpoint prog_loop (body : Z -> mram -> option mram) (n : nat) (idx : Z) (m : mram) : option mram :=
  match n with
  | O => Some m
  | S n => m ← body idx m; prog_loop body n (idx + 1) m
  end.

Definition prog_std_body (std_shadow : shadow) (idx : Z) (m : mram) : option mram :=
  let offset := u32 (idx * SIDF_ELEM_SIZE) in
  w ← read32 std_shadow offset;
  Some (writel w (off (cfg MRAM_SIDF) + offset) m).

Definition ttcan_prog_std_id_fltrs (std_shadow : shadow) (m : mram) : option mram :=
  prog_loop (prog_std_body std_shadow) (Z.to_nat (num (cfg MRAM_SIDF))) 0 m.

Definition prog_xtd_body (xtd_shadow : shadow) (idx : Z) (m : mram) : option mram :=
  let offset := u32 (idx * XIDF_ELEM_SIZE) in
  w ← read32 xtd_shadow offset;
  w' ← read32 xtd_shadow (offset + CAN_WORD_IN_BYTES);
  let m := writel w (off (cfg MRAM_XIDF) + offset) m in
  Some (writel w' (off (cfg MRAM_XIDF) + offset + CAN_WORD_IN_BYTES) m).

Definition ttcan_prog_xtd_id_fltrs (xtd_shadow : shadow) (m : mram) : option mram :=
  prog_loop (prog_xtd_body xtd_shadow) (Z.to_nat (num (cfg MRAM_XIDF))) 0 m.

(** The shadow is read at [tmc_shadow + idx], for both words. *)
Definition prog_trigger_body (tmc_shadow : shadow) (idx : Z) (m : mram) : option mram :=
  let offset := u32 (idx * TRIG_ELEM_SIZE) in
  w ← read32 tmc_shadow idx;
  w' ← read32 tmc_shadow idx;
  let m := writel w (off (cfg MRAM_TMC) + offset) m in
  Some (writel w' (off (cfg MRAM_TMC) + offset + CAN_WORD_IN_BYTES) m).

Definition ttcan_prog_trigger_mem (tmc_shadow : shadow) (m : mram) : option mram :=
  prog_loop (prog_trigger_body tmc_shadow) (Z.to_nat (num (cfg MRAM_TMC))) 0 m.

(** [for (offset = 0; offset < mram_size; offset += CAN_WORD_IN_BYTES)]. *)
Fixpoint ram_init_loop (fuel : nat) (mram_size offset : Z) (m : mram) : option mram :=
  if mram_size <=? offset then Some m else
  match fuel with
  | O => None
  | S fuel => ram_init_loop fuel mram_size (u32 (offset + CAN_WORD_IN_BYTES)) (writel 0 offset m)
  end.

Definition ttcan_mesg_ram_init (mram_size : Z) (m : mram) : option mram :=
  ram_init_loop (Z.to_nat (mram_size / 4 + 1)) mram_size 0 m.

(** [mttcan_hw_reinit], as far as it is about the message RAM; [err] is the result of
    [ttcan_set_config_change_enable]. *)
Definition mttcan_hw_reinit (err mram_size : Z) (std_shadow xtd_shadow tmc_shadow : shadow)
    (m : mram) : option (Z * mram) :=
  m ← ttcan_mesg_ram_init mram_size m;
  if negb (err =? 0) then Some (err, m) else
  m ← (if num (cfg MRAM_SIDF) =? 0 then Some m else ttcan_prog_std_id_fltrs std_shadow m);
  m ← (if num (cfg MRAM_XIDF) =? 0 then Some m else ttcan_prog_xtd_id_fltrs xtd_shadow m);
  m ← (if num (cfg MRAM_TMC) =? 0 then Some m else ttcan_prog_trigger_mem tmc_shadow m);
  Some (err, m).

(** * The sysfs stores *)
Definition FEC_RXFIFO_0 := 1.
Definition FEC_RXFIFO_1 := 2.
Definition FEC_RXFIFO_0_PRIO := 5.
Definition FEC_RXFIFO_1_PRIO := 6.
Definition FEC_RXBUF := 7.

Definition mttcan_check_fec_validity (fec : Z) : Z :=
  if FEC_RXBUF <? fec then - EINVAL
  else if ((fec =? FEC_RXFIFO_0) || (fec =? FEC_RXFIFO_0_PRIO)) && (num (cfg MRAM_RXF0) =? 0)
  then - EINVAL
  else if ((fec =? FEC_RXFIFO_1) || (fec =? FEC_RXFIFO_1_PRIO)) && (num (cfg MRAM_RXF1) =? 0)
  then - EINVAL
  else if (fec =? FEC_RXBUF) && (num (cfg MRAM_RXB) =? 0) then - EINVAL
  else 0.

(** What a sysfs store changes: the shadow, the RAM and the number of filters. *)
Record fltr_state := mk_fltr { fsr : shadow * mram; fltr_size : Z }.

(** The common body of [store_std_fltr] and [store_xtd_fltr], after [sscanf] has
    assigned [items] of the five values; [idx] is -1 before. *)
Definition store_fltr (max : Z) (set : Z -> shadow * mram -> option (shadow * mram))
    (up : bool) (items fec idx count : Z) (s : fltr_state) : option (Z * fltr_state) :=
  let cur_filter_size := fltr_size s in
  if up then Some (- EBUSY, s)
  else if items <? 4 then Some (- EINVAL, s)
  else if ((cur_filter_size <? idx) || (idx =? -1)) && (max <=? cur_filter_size)
  then Some (- ENOSPC, s)
  else if mttcan_check_fec_validity fec <? 0 then Some (- EINVAL, s)
  else if items =? 5 then
    if cur_filter_size <? idx then Some (- EINVAL, s)
    else
      r ← set idx (fsr s);
      Some (count, mk_fltr r (if idx =? cur_filter_size then cur_filter_size + 1 else cur_filter_size))
  else
    r ← set cur_filter_size (fsr s);
    Some (count, mk_fltr r (cur_filter_size + 1)).

Definition store_std_fltr (up : bool) (items sft sfec sfid1 sfid2 idx count : Z) (s : fltr_state) :=
  store_fltr (num (cfg MRAM_SIDF))
    (fun i => ttcan_set_std_id_filter i (u8 sft) (u8 sfec) sfid1 sfid2) up items sfec idx count s.

Definition store_xtd_fltr (up : bool) (items eft efec efid1 efid2 idx count : Z) (s : fltr_state) :=
  store_fltr (num (cfg MRAM_XIDF))
    (fun i => ttcan_set_xtd_id_filter i (u8 eft) (u8 efec) efid1 efid2) up items efec idx count s.

End hal.

(** * Reading and writing shadows *)
Lemma write32_Some o v s s' :
  write32 o v s = Some s' ->
  0 <= o /\ o + 4 <= Z.of_nat (length s) /\ length s' = length s /\
  forall k, 0 <= k -> nth (Z.to_nat k) s' 0 =
    if (o <=? k) && (k <? o + 4) then nth (Z.to_nat (k - o)) (le32 v) 0 else nth (Z.to_nat k) s 0.
Proof.
  unfold write32. case_if; [|done]. intros E. apply (inj Some) in E. subst s'.
  split_and!; [done..|apply length_inserts|].
  intros k Hk. rewrite !nth_lookup. case_if.
  - rewrite list_lookup_inserts by (simpl; lia). f_equal. f_equal. lia.
  - f_equal. destruct (Z.lt_ge_cases k o).
    + by rewrite list_lookup_inserts_lt by lia.
    + rewrite list_lookup_inserts_ge; [done|]. simpl. lia.
Qed.

Lemma write32_ok o v s : 0 <= o -> o + 4 <= Z.of_nat (length s) -> exists s', write32 o v s = Some s'.
Proof. intros. unfold write32. case_if; [eauto|]. lia. Qed.

Lemma read32_write32 o v s s' :
  is_u32 v -> write32 o v s = Some s' -> read32 s' o = Some v.
Proof.
  intros Hv (Ho & Hl & Hlen & Hn)%write32_Some. unfold read32. rewrite Hlen.
  case_if; [|lia]. f_equal. rewrite !Hn by lia.
  repeat (case_if; [|lia]).
  replace (o + 0 - o) with 0 by lia. replace (o + 1 - o) with 1 by lia.
  replace (o + 2 - o) with 2 by lia. replace (o + 3 - o) with 3 by lia.
  simpl. width_lia.
Qed.

Lemma read32_write32_ne o v s s' o' :
  write32 o v s = Some s' -> o' + 4 <= o \/ o + 4 <= o' -> read32 s' o' = read32 s o'.
Proof.
  intros (Ho & Hl & Hlen & Hn)%write32_Some Hne. unfold read32. rewrite Hlen.
  case_if; [|done]. f_equal. rewrite !Hn by lia. by repeat (case_if; [lia|]).
Qed.

Lemma read32_is_Some s o : 0 <= o -> o + 4 <= Z.of_nat (length s) -> exists v, read32 s o = Some v.
Proof. intros. unfold read32. case_if; [eauto|lia]. Qed.

Lemma field_u32 v s w : 0 <= s -> 0 <= w -> is_u32 (field v s w).
Proof.
  intros. unfold field. pose proof (u32_range (Z.shiftl v s)) as Hr. unfold is_u32 in *.
  split; [apply Z.land_nonneg; lia|].
  assert (Z.log2 (Z.land (u32 (Z.shiftl v s)) (Z.shiftl (2 ^ w - 1) s)) < 32).
  { destruct (Z.eq_dec (u32 (Z.shiftl v s)) 0) as [->|Hne]; [by rewrite Z.land_0_l|].
    assert (0 < 2 ^ w) by (apply Z.pow_pos_nonneg; lia).
    eapply Z.le_lt_trans; [apply Z.log2_land; [lia|]|].
    - apply Z.shiftl_nonneg. lia.
    - apply Z.min_lt_iff. left. apply Z.log2_lt_pow2; lia. }
  destruct (Z.eq_dec (Z.land (u32 (Z.shiftl v s)) (Z.shiftl (2 ^ w - 1) s)) 0) as [->|Hne]; [lia|].
  apply Z.log2_lt_pow2; [|done]. pose proof (proj2 (Z.land_nonneg (u32 (Z.shiftl v s)) (Z.shiftl (2 ^ w - 1) s))).
  lia.
Qed.

Lemma lor_u32 a b : is_u32 a -> is_u32 b -> is_u32 (Z.lor a b).
Proof.
  unfold is_u32. intros Ha Hb. split; [apply Z.lor_nonneg; lia|].
  destruct (Z.eq_dec (Z.lor a b) 0) as [->|Hne]; [lia|].
  assert (0 <= Z.lor a b) by (apply Z.lor_nonneg; lia).
  apply Z.log2_lt_pow2; [lia|]. rewrite Z.log2_lor by lia.
  apply Z.max_lub_lt.
  - destruct (Z.eq_dec a 0) as [->|]; [done|]. apply Z.log2_lt_pow2; lia.
  - destruct (Z.eq_dec b 0) as [->|]; [done|]. apply Z.log2_lt_pow2; lia.
Qed.

#[export] Hint Resolve field_u32 lor_u32 : width.

Lemma std_elem_u32 a b c d : is_u32 (std_elem a b c d).
Proof. unfold std_elem. repeat apply lor_u32; by apply field_u32. Qed.
Lemma xtd_f0_u32 a b : is_u32 (xtd_f0 a b).
Proof. apply lor_u32; by apply field_u32. Qed.
Lemma xtd_f1_u32 a b : is_u32 (xtd_f1 a b).
Proof. apply lor_u32; by apply field_u32. Qed.

(** * Storing a standard filter *)

(** The element of the list that a filter index addresses. *)
Definition slot (i : Z) : Z := u32 (i * SIDF_ELEM_SIZE) / SIDF_ELEM_SIZE.

Lemma slot_offset i : u32 (i * SIDF_ELEM_SIZE) = 4 * slot i /\ 0 <= slot i.
Proof. unfold slot, SIDF_ELEM_SIZE. width_lia. Qed.

Lemma slot_id i : 0 <= i < 2 ^ 30 -> slot i = i.
Proof. unfold slot, SIDF_ELEM_SIZE. change (2 ^ 30) with 1073741824. width_lia. Qed.

Section std.
Variable cfg : ttcan_mram_item -> ttcan_mram_elem.
Hypothesis num_u16 : is_u16 (num (cfg MRAM_SIDF)).

(** Shadow and RAM agree, and the number of filters is within the list. *)
Record std_ok (s : fltr_state) : Prop := {
  std_len : Z.of_nat (length (fsr s).1) = 4 * num (cfg MRAM_SIDF);
  std_size : 0 <= fltr_size s <= num (cfg MRAM_SIDF);
  std_mirror i : 0 <= i < num (cfg MRAM_SIDF) ->
    read32 (fsr s).1 (4 * i) = Some ((fsr s).2 (off (cfg MRAM_SIDF) + 4 * i))
}.

Lemma set_std_spec i sft sfec id1 id2 (s : shadow * mram) n :
  Z.of_nat (length s.1) = 4 * num (cfg MRAM_SIDF) ->
  (forall j, 0 <= j < num (cfg MRAM_SIDF) -> read32 s.1 (4 * j) = Some (s.2 (off (cfg MRAM_SIDF) + 4 * j))) ->
  match ttcan_set_std_id_filter cfg i sft sfec id1 id2 s with
  | None => num (cfg MRAM_SIDF) <= slot i
  | Some r => slot i < num (cfg MRAM_SIDF) /\
      (0 <= n <= num (cfg MRAM_SIDF) -> std_ok (mk_fltr r n)) /\
      ttcan_get_std_id_filter cfg (slot i) r.2 = std_elem sft sfec id1 id2 /\
      forall j, 0 <= j < num (cfg MRAM_SIDF) -> j <> slot i ->
        ttcan_get_std_id_filter cfg j r.2 = ttcan_get_std_id_filter cfg j s.2
  end.
Proof.
  intros Hl Hm. pose proof num_u16 as Hu. unfold is_u16 in Hu. change (2 ^ 16) with 65536 in Hu.
  unfold ttcan_set_std_id_filter. cbv zeta. destruct (slot_offset i) as [-> Hs].
  destruct (Z.lt_ge_cases (slot i) (num (cfg MRAM_SIDF))) as [Hlt|Hge].
  - destruct (write32_ok (4 * slot i) (std_elem sft sfec id1 id2) s.1) as [sh Hsh]; [lia..|].
    rewrite Hsh. simpl. assert (Hget : forall j m, 0 <= j < num (cfg MRAM_SIDF) ->
      ttcan_get_std_id_filter cfg j m = m (off (cfg MRAM_SIDF) + 4 * j)).
    { intros j m Hj. unfold ttcan_get_std_id_filter, readl.
      destruct (slot_offset j) as [-> _]. by rewrite slot_id by (change (2 ^ 30) with 1073741824; lia). }
    split_and!; [done| | |].
    + pose proof (write32_Some _ _ _ _ Hsh) as (_ & _ & Hlen & _).
      intros Hn. split; simpl; [lia|done|]. intros j Hj. unfold writel. case_if.
      * replace j with (slot i) by lia. apply (read32_write32 _ _ _ _ (std_elem_u32 _ _ _ _) Hsh).
      * rewrite (read32_write32_ne _ _ _ _ _ Hsh) by lia. by apply Hm.
    + rewrite Hget by lia. unfold writel. by rewrite Z.eqb_refl.
    + intros j Hj Hne. rewrite !Hget by lia. unfold writel.
      by rewrite (proj2 (Z.eqb_neq _ _)) by lia.
  - unfold write32. case_if; [lia|]. done.
Qed.

(** The inputs that write outside the shadow. *)
Definition std_store_faults (up : bool) (items sfec idx : Z) (s : fltr_state) : Prop :=
  up = false /\ items = 5 /\ mttcan_check_fec_validity cfg sfec = 0 /\ idx <= fltr_size s /\
  ~ (idx = -1 /\ num (cfg MRAM_SIDF) <= fltr_size s) /\ num (cfg MRAM_SIDF) <= slot idx.

Lemma fec_validity fec :
  mttcan_check_fec_validity cfg fec = 0 \/ mttcan_check_fec_validity cfg fec = - EINVAL.
Proof. unfold mttcan_check_fec_validity. repeat case_if; auto. Qed.

(** Storing a standard filter through sysfs, for every input.  The store faults,
    writing outside the shadow, exactly for the inputs [std_store_faults]; the index
    one past a full list is among them, and so are negative indices.  Otherwise shadow
    and RAM stay equal and the number of filters within the list; a device that is
    up, missing values, an invalid element configuration, an index beyond the end and
    a full list are refused without effect, and an accepted filter is what the RAM
    holds at its place, all other filters being untouched. *)
Theorem std_fltr_store s up items sft sfec sfid1 sfid2 idx count :
  std_ok s -> items <= 5 -> (items < 5 -> idx = -1) -> 0 <= count ->
  (store_std_fltr cfg up items sft sfec sfid1 sfid2 idx count s = None <->
   std_store_faults up items sfec idx s) /\
  forall ret s', store_std_fltr cfg up items sft sfec sfid1 sfid2 idx count s = Some (ret, s') ->
    std_ok s' /\
    (s' = s /\
       (ret = - EBUSY /\ up = true \/
        ret = - EINVAL /\ (items < 4 \/ mttcan_check_fec_validity cfg sfec = - EINVAL) \/
        ret = - EINVAL /\ fltr_size s < idx \/
        ret = - ENOSPC /\ num (cfg MRAM_SIDF) <= fltr_size s /\ (fltr_size s < idx \/ idx = -1)) \/
     ret = count /\ exists i, i = (if items =? 5 then slot idx else fltr_size s) /\
       0 <= i < num (cfg MRAM_SIDF) /\
       fltr_size s' = (if (items =? 4) || (idx =? fltr_size s) then fltr_size s + 1 else fltr_size s) /\
       ttcan_get_std_id_filter cfg i (fsr s').2 = std_elem (u8 sft) (u8 sfec) sfid1 sfid2 /\
       forall j, 0 <= j < num (cfg MRAM_SIDF) -> j <> i ->
         ttcan_get_std_id_filter cfg j (fsr s').2 = ttcan_get_std_id_filter cfg j (fsr s).2).
Proof.
  intros Hok Hit Hidx Hc. pose proof Hok as [Hl Hn Hm].
  pose proof num_u16 as Hu. unfold is_u16 in Hu. change (2 ^ 16) with 65536 in Hu.
  unfold store_std_fltr, store_fltr, std_store_faults.
  destruct up; [split; [split; [done|by intros [? _]]|intros ? ? [= <- <-]; tauto]|].
  destruct (items <? 4) eqn:E1; zb; [split; [split; [done|lia]|intros ? ? [= <- <-]; tauto]|].
  destruct (((fltr_size s <? idx) || (idx =? -1)) && (num (cfg MRAM_SIDF) <=? fltr_size s)) eqn:E2; zb.
  { split; [split; [done|]|].
    - intros (_ & _ & _ & Hle & Hx & _). destruct H as [H|H]; zb; [lia|]. by destruct Hx.
    - intros ? ? [= <- <-]. split; [done|]. left. split; [done|]. right. right. right.
      split_and!; [done|done|]. destruct H as [H|H]; zb; tauto. }
  assert (Hng : ~ ((fltr_size s < idx \/ idx = -1) /\ num (cfg MRAM_SIDF) <= fltr_size s))
    by (destruct E2 as [E2|E2]; zb; lia).
  clear E2. destruct (fec_validity sfec) as [Ef|Ef]; rewrite Ef; simpl.
  2:{ split; [split; [done|by intros (_ & _ & ? & _)]|].
      intros ? ? [= <- <-]. split; [done|]. left. split; [done|]. right. left. tauto. }
  destruct (items =? 5) eqn:E5; zb.
  - destruct (fltr_size s <? idx) eqn:E6; zb; [split; [split; [done|lia]|intros ? ? [= <- <-]; tauto]|].
    pose proof (set_std_spec idx (u8 sft) (u8 sfec) sfid1 sfid2 (fsr s)
      (if idx =? fltr_size s then fltr_size s + 1 else fltr_size s) Hl Hm) as Hset.
    destruct (ttcan_set_std_id_filter cfg idx _ _ _ _ _) as [r|] eqn:Er; simpl.
    + destruct Hset as (Hlt & Hok' & Hget & Hoth). destruct (slot_offset idx) as [_ Hs0].
      assert (Hsz : idx = fltr_size s -> fltr_size s < num (cfg MRAM_SIDF)).
      { intros ->. rewrite slot_id in Hlt by (change (2 ^ 30) with 1073741824; lia). done. }
      split; [split; [done|lia]|]. intros ? ? [= <- <-]. split.
      * apply Hok'. case_if; [|done]. specialize (Hsz Heqb). lia.
      * right. split; [done|]. exists (slot idx). rewrite (proj2 (Z.eqb_neq items 4)) by lia. tauto.
    + split; [|done]. split; [|done]. intros _. split_and!; try done.
      tauto.
  - assert (items = 4) as -> by lia. rewrite (Hidx ltac:(lia)) in *.
    assert (Hlt : fltr_size s < num (cfg MRAM_SIDF)).
    { lia. }
    pose proof (set_std_spec (fltr_size s) (u8 sft) (u8 sfec) sfid1 sfid2 (fsr s) (fltr_size s + 1) Hl Hm) as Hset.
    destruct (ttcan_set_std_id_filter cfg (fltr_size s) _ _ _ _ _) as [r|] eqn:Er; simpl;
      rewrite slot_id in Hset by (change (2 ^ 30) with 1073741824; lia); [|lia].
    destruct Hset as (_ & Hok' & Hget & Hoth).
    split; [split; [done|lia]|]. intros ? ? [= <- <-]. split; [apply Hok'; lia|].
    right. split; [done|]. exists (fltr_size s). split_and!; try done; lia.
Qed.
End std.

(** * Programming the RAM again after a suspend *)
Definition rd (s : shadow) (o : Z) : Z := default 0 (read32 s o).

Lemma ram_init_loop_spec fuel size k m :
  0 <= k -> size < 2 ^ 31 -> size <= 4 * (k + Z.of_nat fuel) ->
  exists m', ram_init_loop fuel size (4 * k) m = Some m' /\
    forall x, m' x = if (4 * k <=? x) && (x <? size) && (x mod 4 =? 0) then 0 else m x.
Proof.
  change (2 ^ 31) with 2147483648.
  revert k m. induction fuel as [|fuel IH]; intros k m Hk Hs Hf; simpl.
  - rewrite (proj2 (Z.leb_le _ _)) by lia. exists m. split; [done|]. intros x.
    by destruct (_ && _ && _) eqn:E; zb; [lia|].
  - case_if.
    { exists m. split; [done|]. intros x. by destruct (_ && _ && _) eqn:E; zb; [lia|]. }
    unfold CAN_WORD_IN_BYTES. rewrite u32_id by width_lia.
    replace (4 * k + 4) with (4 * (k + 1)) by lia.
    destruct (IH (k + 1) (writel 0 (4 * k) m)) as (m' & -> & Hm'); [lia..|].
    exists m'. split; [done|]. intros x. rewrite Hm'. unfold writel.
    destruct (Z.eqb_spec (x mod 4) 0); rewrite ?andb_true_r, ?andb_false_r.
    + repeat case_if; try done; exfalso; Z.div_mod_to_equations; lia.
    + case_if; [|done]. subst x. exfalso. Z.div_mod_to_equations; lia.
Qed.

(** A loop whose round [i] fills the element [i] of a section with the words [W]. *)
Lemma prog_loop_spec body base sz (W : Z -> Z) n idx m :
  0 < sz -> sz mod 4 = 0 ->
  (forall i m, idx <= i < idx + Z.of_nat n -> exists m', body i m = Some m' /\
     forall x, m' x = if (base + sz * i <=? x) && (x <? base + sz * (i + 1)) && ((x - base) mod 4 =? 0)
                      then W x else m x) ->
  exists m', prog_loop body n idx m = Some m' /\
    forall x, m' x =
      if (base + sz * idx <=? x) && (x <? base + sz * (idx + Z.of_nat n)) && ((x - base) mod 4 =? 0)
      then W x else m x.
Proof.
  intros Hsz Hal. revert idx m. induction n as [|n IH]; intros idx m Hb; simpl.
  - exists m. split; [done|]. intros x. destruct (_ && _ && _) eqn:E; zb; [lia|done].
  - destruct (Hb idx m) as (m1 & -> & Hm1); [lia|]. simpl.
    destruct (IH (idx + 1) m1) as (m' & -> & Hm'); [intros i m2 Hi; apply Hb; lia|].
    exists m'. split; [done|]. intros x. rewrite Hm', Hm1.
    destruct ((x - base) mod 4 =? 0); rewrite ?andb_true_r, ?andb_false_r; [|done].
    replace (idx + 1 + Z.of_nat n) with (idx + Z.of_nat (S n)) by lia.
    assert (sz * (idx + 1) = sz * idx + sz) by lia.
    assert (sz * (idx + 1) <= sz * (idx + Z.of_nat (S n))) by (apply Z.mul_le_mono_nonneg_l; lia).
    repeat case_if; try done; exfalso; destruct_or?; zb; lia.
Qed.

Section resume.
Variable cfg : ttcan_mram_item -> ttcan_mram_elem.
Variables lo hi : Z.
Hypothesis layout : layout_ok cfg lo hi.

(** The words of a section. *)
Definition in_section (it : ttcan_mram_item) (x : Z) : bool :=
  (off (cfg it) <=? x) && (x <? off (cfg it) + elem_room it * num (cfg it))
  && ((x - off (cfg it)) mod 4 =? 0).

Lemma num_range it : 0 <= num (cfg it) < 65536.
Proof. exact (proj2 (layout_u16 _ _ _ layout it)). Qed.

Lemma prog_section it body W m :
  (forall i m, 0 <= i < num (cfg it) -> exists m', body i m = Some m' /\
     forall x, m' x = if (off (cfg it) + elem_room it * i <=? x)
                         && (x <? off (cfg it) + elem_room it * (i + 1))
                         && ((x - off (cfg it)) mod 4 =? 0)
                      then W x else m x) ->
  exists m', prog_loop body (Z.to_nat (num (cfg it))) 0 m = Some m' /\
    forall x, m' x = if in_section it x then W x else m x.
Proof.
  intros Hb. pose proof (num_range it).
  destruct (prog_loop_spec body (off (cfg it)) (elem_room it) W (Z.to_nat (num (cfg it))) 0 m)
    as (m' & E & Hm').
  - by destruct it.
  - by destruct it.
  - intros i m0 Hi. apply Hb. lia.
  - exists m'. split; [done|]. intros x. rewrite Hm'. unfold in_section.
    rewrite Z.mul_0_r, Z.add_0_r, Z.add_0_l, Z2Nat.id by lia. done.
Qed.

Lemma prog_std_spec sh m :
  Z.of_nat (length sh) = 4 * num (cfg MRAM_SIDF) ->
  exists m', ttcan_prog_std_id_fltrs cfg sh m = Some m' /\
    forall x, m' x = if in_section MRAM_SIDF x then rd sh (x - off (cfg MRAM_SIDF)) else m x.
Proof.
  intros Hl. apply (prog_section MRAM_SIDF). intros i m0 Hi. pose proof (num_range MRAM_SIDF).
  unfold prog_std_body, elem_room, SIDF_ELEM_SIZE. rewrite u32_id by width_lia.
  destruct (read32_is_Some sh (i * 4)) as [w Hw]; [lia..|]. rewrite Hw. simpl.
  eexists. split; [done|]. intros x. unfold writel. repeat case_if; try done.
  - subst x. unfold rd. replace (_ + _ - _) with (i * 4) by lia. by rewrite Hw.
  - exfalso. Z.div_mod_to_equations; lia.
  - exfalso. Z.div_mod_to_equations; lia.
Qed.

Lemma prog_xtd_spec sh m :
  Z.of_nat (length sh) = 8 * num (cfg MRAM_XIDF) ->
  exists m', ttcan_prog_xtd_id_fltrs cfg sh m = Some m' /\
    forall x, m' x = if in_section MRAM_XIDF x then rd sh (x - off (cfg MRAM_XIDF)) else m x.
Proof.
  intros Hl. apply (prog_section MRAM_XIDF). intros i m0 Hi. pose proof (num_range MRAM_XIDF).
  unfold prog_xtd_body, elem_room, XIDF_ELEM_SIZE, CAN_WORD_IN_BYTES. rewrite u32_id by width_lia.
  destruct (read32_is_Some sh (i * 8)) as [w Hw]; [lia..|]. rewrite Hw. simpl.
  destruct (read32_is_Some sh (i * 8 + 4)) as [w' Hw']; [lia..|]. rewrite Hw'. simpl.
  eexists. split; [done|]. intros x. unfold writel. repeat case_if; try done.
  - subst x. unfold rd. replace (_ + _ - _) with (i * 8 + 4) by lia. by rewrite Hw'.
  - exfalso. Z.div_mod_to_equations; lia.
  - subst x. unfold rd. replace (_ + _ - _) with (i * 8) by lia. by rewrite Hw.
  - exfalso. Z.div_mod_to_equations; lia.
  - exfalso. Z.div_mod_to_equations; lia.
Qed.

(** For trigger elements, both words are read at the byte with the element's number. *)
Lemma prog_trigger_spec sh m :
  Z.of_nat (length sh) = 8 * num (cfg MRAM_TMC) ->
  exists m', ttcan_prog_trigger_mem cfg sh m = Some m' /\
    forall x, m' x = if in_section MRAM_TMC x then rd sh ((x - off (cfg MRAM_TMC)) / 8) else m x.
Proof.
  intros Hl. apply (prog_section MRAM_TMC). intros i m0 Hi. pose proof (num_range MRAM_TMC).
  unfold prog_trigger_body, elem_room, TRIG_ELEM_SIZE, CAN_WORD_IN_BYTES. rewrite u32_id by width_lia.
  destruct (read32_is_Some sh i) as [w Hw]; [lia..|]. rewrite Hw. simpl.
  eexists. split; [done|]. intros x. unfold writel. repeat case_if; try done.
  - subst x. unfold rd. replace ((_ + _ - _) / 8) with i by (Z.div_mod_to_equations; lia). by rewrite Hw.
  - exfalso. Z.div_mod_to_equations; lia.
  - subst x. unfold rd. replace ((_ + _ - _) / 8) with i by (Z.div_mod_to_equations; lia). by rewrite Hw.
  - exfalso. Z.div_mod_to_equations; lia.
  - exfalso. Z.div_mod_to_equations; lia.
Qed.

(** A word belongs to one section. *)
Lemma in_section_inj it it' x : in_section it x = true -> in_section it' x = true -> it = it'.
Proof.
  unfold in_section. intros. zb.
  assert (Hr : forall i, 0 < elem_room i) by (intros []; done).
  assert (Hj : forall i, off (cfg i) <= x -> x < off (cfg i) + elem_room i * num (cfg i) ->
    exists j, 0 <= j < num (cfg i) /\ elem_addr cfg i j <= x < elem_addr cfg i j + elem_room i).
  { intros i Hlo Hhi. exists ((x - off (cfg i)) / elem_room i). unfold elem_addr.
    pose proof (Hr i). split; [split|].
    - apply Z.div_pos; lia.
    - apply Z.div_lt_upper_bound; lia.
    - pose proof (Z.mul_div_le (x - off (cfg i)) (elem_room i) ltac:(done)).
      pose proof (Z.mul_succ_div_gt (x - off (cfg i)) (elem_room i) ltac:(done)). lia. }
  destruct (Hj it) as (j & Hjr & Hjx); [done..|]. destruct (Hj it') as (j' & Hjr' & Hjx'); [done..|].
  destruct (decide (it = it')) as [?|Hne]; [done|].
  destruct (layout_disjoint _ _ _ layout it j it' j') as [?|?]; [done..|congruence| |]; lia.
Qed.

(** The guard on the number of elements makes no difference. *)
Lemma prog_guard it (p : mram -> option mram) W m :
  (exists m', p m = Some m' /\ forall x, m' x = if in_section it x then W x else m x) ->
  exists m', (if num (cfg it) =? 0 then Some m else p m) = Some m' /\
    forall x, m' x = if in_section it x then W x else m x.
Proof.
  intros Hp. case_if; [|done]. exists m. split; [done|]. intros x.
  destruct (in_section it x) eqn:E; [|done]. exfalso. unfold in_section in E. zb. lia.
Qed.

(** The word [o] of the element [i] of a section. *)
Lemma in_section_elem it i o :
  0 <= i < num (cfg it) -> 0 <= o < elem_room it -> o mod 4 = 0 ->
  in_section it (off (cfg it) + elem_room it * i + o) = true.
Proof.
  intros Hi Ho Ha. unfold in_section. assert (Hr : elem_room it mod 4 = 0) by by destruct it.
  assert (elem_room it * (i + 1) <= elem_room it * num (cfg it)) by (apply Z.mul_le_mono_nonneg_l; lia).
  assert (0 <= elem_room it * i) by (apply Z.mul_nonneg_nonneg; lia).
  rewrite !andb_true_iff, Z.leb_le, Z.ltb_lt, Z.eqb_eq. split_and!; [lia..|].
  replace (_ + _ - _) with (o + elem_room it * i) by lia.
  rewrite Z.add_mod, Z.mul_mod, Hr, Ha by lia. done.
Qed.
Variables std xtd tmc : shadow.
Hypothesis std_length : Z.of_nat (length std) = 4 * num (cfg MRAM_SIDF).
Hypothesis xtd_length : Z.of_nat (length xtd) = 8 * num (cfg MRAM_XIDF).
Hypothesis tmc_length : Z.of_nat (length tmc) = 8 * num (cfg MRAM_TMC).

(** The whole RAM after [mttcan_hw_reinit]. *)
Lemma reinit_ram size m :
  0 <= size < 2 ^ 31 ->
  exists m', mttcan_hw_reinit cfg 0 size std xtd tmc m = Some (0, m') /\
    forall x, m' x =
      if in_section MRAM_SIDF x then rd std (x - off (cfg MRAM_SIDF))
      else if in_section MRAM_XIDF x then rd xtd (x - off (cfg MRAM_XIDF))
      else if in_section MRAM_TMC x then rd tmc ((x - off (cfg MRAM_TMC)) / 8)
      else if (0 <=? x) && (x <? size) && (x mod 4 =? 0) then 0 else m x.
Proof.
  intros Hs. unfold mttcan_hw_reinit, ttcan_mesg_ram_init.
  destruct (ram_init_loop_spec (Z.to_nat (size / 4 + 1)) size 0 m) as (m0 & E0 & H0).
  1-2: lia. 1: Z.div_mod_to_equations; lia.
  rewrite Z.mul_0_r in E0. rewrite E0. simpl.
  destruct (prog_guard MRAM_SIDF _ _ m0 (prog_std_spec std m0 std_length)) as (m1 & -> & H1). simpl.
  destruct (prog_guard MRAM_XIDF _ _ m1 (prog_xtd_spec xtd m1 xtd_length)) as (m2 & -> & H2). simpl.
  destruct (prog_guard MRAM_TMC _ _ m2 (prog_trigger_spec tmc m2 tmc_length)) as (m3 & -> & H3). simpl.
  exists m3. split; [done|]. intros x. rewrite H3, H2, H1, H0, Z.mul_0_r.
  destruct (in_section MRAM_TMC x) eqn:ET, (in_section MRAM_XIDF x) eqn:EX,
    (in_section MRAM_SIDF x) eqn:ES; try done;
    first [discriminate (in_section_inj _ _ _ ET EX) | discriminate (in_section_inj _ _ _ ET ES)
          | discriminate (in_section_inj _ _ _ EX ES)].
Qed.

(** A controller that does not enter its configuration mode has lost its filters. *)
Lemma reinit_refused err size m :
  0 <= size < 2 ^ 31 -> err <> 0 ->
  exists m', mttcan_hw_reinit cfg err size std xtd tmc m = Some (err, m') /\
    forall x, 0 <= x < size -> x mod 4 = 0 -> m' x = 0.
Proof.
  intros Hs He. unfold mttcan_hw_reinit, ttcan_mesg_ram_init.
  destruct (ram_init_loop_spec (Z.to_nat (size / 4 + 1)) size 0 m) as (m0 & E0 & H0).
  1-2: lia. 1: Z.div_mod_to_equations; lia.
  rewrite Z.mul_0_r in E0. rewrite E0. simpl. rewrite (proj2 (Z.eqb_neq err 0)) by done.
  exists m0. split; [done|]. intros x Hx Ha. rewrite H0, Z.mul_0_r.
  rewrite (proj2 (Z.leb_le 0 x)), (proj2 (Z.ltb_lt x size)), (proj2 (Z.eqb_eq (x mod 4) 0)) by lia.
  done.
Qed.
End resume.

(** The two words of an element, as the get functions give them. *)
Definition pack (w0 w1 : Z) : Z := Z.lor (Z.shiftl w1 32) w0.

(** Storing the structure with its members in the order [f1], [f0]. *)
Lemma store_pair o f0 f1 sh sh1 sh2 :
  is_u32 f0 -> is_u32 f1 -> write32 o f1 sh = Some sh1 -> write32 (o + 4) f0 sh1 = Some sh2 ->
  rd sh2 o = f1 /\ rd sh2 (o + 4) = f0.
Proof.
  intros H0 H1 E1 E2. unfold rd. split.
  - rewrite (read32_write32_ne _ _ _ _ _ E2) by lia. by rewrite (read32_write32 _ _ _ _ H1 E1).
  - by rewrite (read32_write32 _ _ _ _ H0 E2).
Qed.

Section resume_get.
Variable cfg : ttcan_mram_item -> ttcan_mram_elem.
Variables lo hi : Z.
Hypothesis layout : layout_ok cfg lo hi.

Lemma elem_offset it i :
  0 <= i < num (cfg it) -> u32 (i * elem_room it) = elem_room it * i.
Proof.
  intros Hi. pose proof (num_range cfg lo hi layout it).
  rewrite u32_id; [lia|]. unfold is_u32. change (2 ^ 32) with 4294967296.
  destruct it; unfold elem_room, SIDF_ELEM_SIZE, XIDF_ELEM_SIZE, MAX_RXB_ELEM_SIZE, MAX_TXB_ELEM_SIZE,
    TX_EVENT_FIFO_ELEM_SIZE, TRIG_ELEM_SIZE; lia.
Qed.

Lemma set_std_stored i sft sfec id1 id2 s sh m1 :
  0 <= i < num (cfg MRAM_SIDF) ->
  ttcan_set_std_id_filter cfg i sft sfec id1 id2 s = Some (sh, m1) ->
  rd sh (4 * i) = std_elem sft sfec id1 id2 /\
  ttcan_get_std_id_filter cfg i m1 = std_elem sft sfec id1 id2.
Proof.
  intros Hi. pose proof (elem_offset MRAM_SIDF i Hi) as Ho. unfold elem_room in Ho.
  unfold ttcan_set_std_id_filter, ttcan_get_std_id_filter. cbv zeta. rewrite Ho.
  destruct (write32 _ _ _) as [sh1|] eqn:E1; simpl; [|done]. intros [= -> <-].
  unfold SIDF_ELEM_SIZE in *. split.
  - unfold rd. by rewrite (read32_write32 _ _ _ _ (std_elem_u32 _ _ _ _) E1).
  - unfold readl, writel. by rewrite Z.eqb_refl.
Qed.

Lemma set_xtd_stored i eft efec id1 id2 s sh m1 :
  0 <= i < num (cfg MRAM_XIDF) ->
  ttcan_set_xtd_id_filter cfg i eft efec id1 id2 s = Some (sh, m1) ->
  rd sh (8 * i) = xtd_f1 eft id2 /\ rd sh (8 * i + 4) = xtd_f0 efec id1 /\
  ttcan_get_xtd_id_filter cfg i m1 = pack (xtd_f0 efec id1) (xtd_f1 eft id2).
Proof.
  intros Hi. pose proof (elem_offset MRAM_XIDF i Hi) as Ho. unfold elem_room in Ho.
  unfold ttcan_set_xtd_id_filter, ttcan_get_xtd_id_filter. cbv zeta. rewrite Ho.
  destruct (write32 _ _ _) as [sh1|] eqn:E1; simpl; [|done].
  destruct (write32 _ _ sh1) as [sh2|] eqn:E2; simpl; [|done]. intros [= -> <-].
  unfold XIDF_ELEM_SIZE in *.
  destruct (store_pair _ _ _ _ _ _ (xtd_f0_u32 _ _) (xtd_f1_u32 _ _) E1 E2) as [-> ->].
  split_and!; [done..|]. unfold readl, writel, CAN_WORD_IN_BYTES. rewrite !Z.eqb_refl.
  by rewrite (proj2 (Z.eqb_neq _ _)) by lia.
Qed.

Lemma trig_f0_u32 a b c d e : is_u32 (trig_f0 a b c d e).
Proof. unfold trig_f0. repeat apply lor_u32; by apply field_u32. Qed.
Lemma trig_f1_u32 a b : is_u32 (trig_f1 a b).
Proof. apply lor_u32; by apply field_u32. Qed.

Lemma set_trigger_stored i tm cc tmin tmex ty ft mn s sh m1 :
  0 <= i < num (cfg MRAM_TMC) ->
  ttcan_set_trigger_mem cfg i tm cc tmin tmex ty ft mn s = Some (0, (sh, m1)) ->
  rd sh (8 * i) = trig_f1 ft mn /\ rd sh (8 * i + 4) = trig_f0 tm cc tmin tmex ty /\
  ttcan_get_trigger_mem cfg i m1 = pack (trig_f0 tm cc tmin tmex ty) (trig_f1 ft mn).
Proof.
  intros Hi. pose proof (elem_offset MRAM_TMC i Hi) as Ho. unfold elem_room in Ho.
  unfold ttcan_set_trigger_mem, ttcan_get_trigger_mem. cbv zeta. rewrite Ho.
  case_if; [done|]. case_if; [done|].
  destruct (write32 _ _ _) as [sh1|] eqn:E1; simpl; [|done].
  destruct (write32 _ _ sh1) as [sh2|] eqn:E2; simpl; [|done]. intros [= -> <-].
  unfold TRIG_ELEM_SIZE in *.
  destruct (store_pair _ _ _ _ _ _ (trig_f0_u32 _ _ _ _ _) (trig_f1_u32 _ _) E1 E2) as [-> ->].
  split_and!; [done..|]. unfold readl, writel, CAN_WORD_IN_BYTES. rewrite !Z.eqb_refl.
  by rewrite (proj2 (Z.eqb_neq _ _)) by lia.
Qed.

(** What a suspend does to the filters.  Resuming clears the message RAM and
    programs it from the shadows, which always succeeds, unless the controller refuses
    to enter its configuration mode: then the RAM stays cleared.  A standard filter is then
    what it was before.  The two words of an extended filter have changed places,
    because the shadow holds them in the other order than the RAM; and both words of
    the first trigger element are its second one, because the words are read from the
    shadow at the wrong places.  The rest of the RAM is zero. *)
Theorem resume_restores std xtd tmc size m :
  Z.of_nat (length std) = 4 * num (cfg MRAM_SIDF) ->
  Z.of_nat (length xtd) = 8 * num (cfg MRAM_XIDF) ->
  Z.of_nat (length tmc) = 8 * num (cfg MRAM_TMC) ->
  0 <= size < 2 ^ 31 ->
  (forall err, err <> 0 -> exists m', mttcan_hw_reinit cfg err size std xtd tmc m = Some (err, m') /\
     forall x, 0 <= x < size -> x mod 4 = 0 -> m' x = 0) /\
  exists m', mttcan_hw_reinit cfg 0 size std xtd tmc m = Some (0, m') /\
    (forall i sft sfec id1 id2 s m1, 0 <= i < num (cfg MRAM_SIDF) ->
       ttcan_set_std_id_filter cfg i sft sfec id1 id2 s = Some (std, m1) ->
       ttcan_get_std_id_filter cfg i m' = ttcan_get_std_id_filter cfg i m1) /\
    (forall i eft efec id1 id2 s m1, 0 <= i < num (cfg MRAM_XIDF) ->
       ttcan_set_xtd_id_filter cfg i eft efec id1 id2 s = Some (xtd, m1) ->
       ttcan_get_xtd_id_filter cfg i m1 = pack (xtd_f0 efec id1) (xtd_f1 eft id2) /\
       ttcan_get_xtd_id_filter cfg i m' = pack (xtd_f1 eft id2) (xtd_f0 efec id1)) /\
    (forall tm cc tmin tmex ty ft mn s m1, 0 < num (cfg MRAM_TMC) ->
       ttcan_set_trigger_mem cfg 0 tm cc tmin tmex ty ft mn s = Some (0, (tmc, m1)) ->
       ttcan_get_trigger_mem cfg 0 m1 = pack (trig_f0 tm cc tmin tmex ty) (trig_f1 ft mn) /\
       ttcan_get_trigger_mem cfg 0 m' = pack (trig_f1 ft mn) (trig_f1 ft mn)) /\
    (forall x, 0 <= x < size -> x mod 4 = 0 ->
       in_section cfg MRAM_SIDF x = false -> in_section cfg MRAM_XIDF x = false ->
       in_section cfg MRAM_TMC x = false -> m' x = 0).
Proof.
  intros Hls Hlx Hlt Hs. split; [intros err He; by apply reinit_refused|].
  destruct (reinit_ram cfg lo hi layout std xtd tmc Hls Hlx Hlt size m Hs) as (m' & E & Hm').
  assert (Hother : forall it it' x, in_section cfg it x = true -> it <> it' -> in_section cfg it' x = false).
  { intros it it' x Hx Hne. destruct (in_section cfg it' x) eqn:E'; [|done].
    by destruct Hne, (in_section_inj cfg lo hi layout _ _ _ Hx E'). }
  exists m'. split_and!; [done| | | |].
  - intros i sft sfec id1 id2 s m1 Hi Hset.
    destruct (set_std_stored _ _ _ _ _ _ _ _ Hi Hset) as [Hrd ->].
    pose proof (elem_offset MRAM_SIDF i Hi) as Ho. unfold elem_room in Ho.
    unfold ttcan_get_std_id_filter, readl. cbv zeta. rewrite Ho, Hm'.
    pose proof (in_section_elem cfg MRAM_SIDF i 0 Hi ltac:(done) eq_refl) as Hin.
    rewrite Z.add_0_r in Hin. unfold elem_room, SIDF_ELEM_SIZE in *. rewrite Hin.
    rewrite <- Hrd. f_equal. lia.
  - intros i eft efec id1 id2 s m1 Hi Hset.
    destruct (set_xtd_stored _ _ _ _ _ _ _ _ Hi Hset) as (Hr1 & Hr0 & ->). split; [done|].
    pose proof (elem_offset MRAM_XIDF i Hi) as Ho. unfold elem_room in Ho.
    unfold ttcan_get_xtd_id_filter, readl. cbv zeta. rewrite Ho, !Hm'.
    pose proof (in_section_elem cfg MRAM_XIDF i 0 Hi ltac:(done) eq_refl) as Hin.
    pose proof (in_section_elem cfg MRAM_XIDF i 4 Hi ltac:(done) eq_refl) as Hin4.
    rewrite Z.add_0_r in Hin. unfold elem_room, XIDF_ELEM_SIZE, CAN_WORD_IN_BYTES in *.
    rewrite (Hother _ MRAM_SIDF _ Hin), (Hother _ MRAM_SIDF _ Hin4), Hin, Hin4 by done.
    unfold pack. rewrite <- Hr0, <- Hr1. do 2 f_equal; [f_equal|]; lia.
  - intros tm cc tmin tmex ty ft mn s m1 Hn Hset. assert (Hi : 0 <= 0 < num (cfg MRAM_TMC)) by lia.
    destruct (set_trigger_stored _ _ _ _ _ _ _ _ _ _ _ Hi Hset) as (Hr1 & Hr0 & ->). split; [done|].
    pose proof (elem_offset MRAM_TMC 0 Hi) as Ho. unfold elem_room in Ho.
    unfold ttcan_get_trigger_mem, readl. cbv zeta. rewrite Ho, !Hm'.
    pose proof (in_section_elem cfg MRAM_TMC 0 0 Hi ltac:(done) eq_refl) as Hin.
    pose proof (in_section_elem cfg MRAM_TMC 0 4 Hi ltac:(done) eq_refl) as Hin4.
    rewrite Z.add_0_r in Hin. unfold elem_room, TRIG_ELEM_SIZE, CAN_WORD_IN_BYTES in *.
    rewrite (Hother _ MRAM_SIDF _ Hin), (Hother _ MRAM_SIDF _ Hin4), (Hother _ MRAM_XIDF _ Hin),
      (Hother _ MRAM_XIDF _ Hin4), Hin, Hin4 by done.
    replace (_ / 8) with 0 by (Z.div_mod_to_equations; lia).
    replace (_ / 8) with 0 by (Z.div_mod_to_equations; lia).
    unfold pack. by rewrite <- Hr1.
  - intros x Hx Ha H1 H2 H3. rewrite Hm', H1, H2, H3.
    rewrite (proj2 (Z.leb_le 0 x)), (proj2 (Z.ltb_lt x size)), (proj2 (Z.eqb_eq (x mod 4) 0)) by lia.
    done.
Qed.
End resume_get.

(** * Instances: the example division, with 16 standard and 16 extended filters *)
Definition example_cfg : ttcan_mram_item -> ttcan_mram_elem := mram_sections example_mram.

Lemma example_layout : layout_ok example_cfg 0 3904.
Proof.
  apply (sections_layout example_mram); [repeat constructor; lia | reflexivity].
Qed.

Lemma read32_zeros n o :
  0 <= o -> o + 4 <= Z.of_nat n -> read32 (replicate n 0) o = Some 0.
Proof.
  intros Ho Hn. unfold read32. rewrite length_replicate. case_if; [|lia].
  assert (Hz : forall k, nth k (replicate n 0) 0 = 0).
  { intros k. rewrite nth_lookup. destruct (replicate n 0 !! k) eqn:E; [|done].
    by apply lookup_replicate in E as [-> _]. }
  by rewrite !Hz.
Qed.

Definition zero_fltrs (n : Z) : fltr_state := mk_fltr (replicate 64 0, fun _ => 0) n.

Lemma zero_fltrs_ok n : 0 <= n <= 16 -> std_ok example_cfg (zero_fltrs n).
Proof.
  intros Hn. split; [done|done|]. intros i Hi. change (num _) with 16 in Hi.
  apply (read32_zeros 64); lia.
Qed.

(** The list is full and the index is the one past its end: the store goes 4 bytes
    beyond the shadow. *)
Lemma std_fltr_store_witness :
  std_ok example_cfg (zero_fltrs 16) /\
  store_std_fltr example_cfg false 5 0 1 0x123 0x456 16 20 (zero_fltrs 16) = None.
Proof.
  split; [by apply zero_fltrs_ok|].
  apply (std_fltr_store example_cfg); [by vm_compute | by apply zero_fltrs_ok | done | done | done |].
  unfold std_store_faults. split_and!; [done | done | reflexivity | done | | done].
  by intros [? _].
Defined.

(** An extended filter with identifiers 0x123 and 0x456, before and after. *)
Lemma resume_restores_witness :
  layout_ok example_cfg 0 3904 /\
  exists xtd m1 m',
    ttcan_set_xtd_id_filter example_cfg 0 0 1 0x123 0x456 (replicate 128 0, fun _ => 0) = Some (xtd, m1) /\
    mttcan_hw_reinit example_cfg 0 4096 (replicate 64 0) xtd (replicate 128 0) m1 = Some (0, m') /\
    ttcan_get_xtd_id_filter example_cfg 0 m1 = pack 0x20000123 0x456 /\
    ttcan_get_xtd_id_filter example_cfg 0 m' = pack 0x456 0x20000123.
Proof.
  split; [exact example_layout|].
  destruct (ttcan_set_xtd_id_filter example_cfg 0 0 1 0x123 0x456 (replicate 128 0, fun _ => 0))
    as [[xtd m1]|] eqn:E; [|by vm_compute in E].
  assert (Hl : Z.of_nat (length xtd) = 128).
  { assert (Hf : option_map (fun r => Z.of_nat (length r.1))
      (ttcan_set_xtd_id_filter example_cfg 0 0 1 0x123 0x456 (replicate 128 0, fun _ => 0)) = Some 128)
      by reflexivity. rewrite E in Hf. by injection Hf. }
  destruct (resume_restores example_cfg 0 3904 example_layout (replicate 64 0) xtd (replicate 128 0)
    4096 m1) as (_ & m' & Em & _ & Hx & _); [done | exact Hl | done | done |].
  exists xtd, m1, m'. split; [done|]. split; [exact Em|].
  assert (Hi : 0 <= 0 < num (example_cfg MRAM_XIDF)) by (split; [apply Z.le_refl | reflexivity]).
  destruct (Hx 0 0 1 0x123 0x456 _ m1 Hi E) as [-> ->]. split; vm_compute; reflexivity.
Defined.
