(* ===== verification/MttcanRx.v ===== *)
(** M_TTCAN reception: drivers/net/can/mttcan/hal/m_ttcan.c (receive FIFOs and
    high-priority messages), hal/m_ttcan_list.c (the lists of received
    messages) and the delivery to the network layer in native/m_ttcan_linux.c.

    The controller hardware is a type [D] with the registers the code uses; what its
    documentation says of a receive FIFO is the class [RxHwOk], whose instances may let
    new messages arrive at every access.  [read_rx_fifo_correct] relates the list of
    received messages to the hardware's FIFO; [poll_fifo_delivery] adds the delivery within
    a budget. *)
From S2P Require Import Prelude MttcanRam MttcanCfg.

(** * The lists of received messages *)
Inductive ttcan_rx_type := BUFFER | FIFO_0 | FIFO_1.

#[export] Instance ttcan_rx_type_eq : EqDecision ttcan_rx_type.
Proof. solve_decision. Defined.

Definition rx_type_value (t : ttcan_rx_type) : Z :=
  match t with BUFFER => 1 | FIFO_0 => 2 | FIFO_1 => 4 end.

Definition TTCAN_MAX_LIST_MEMBERS := 128.

(** One kind of reception: the list ([rx_b], [rx_q0], [rx_q1]), its length as the
    code counts it ([rxb_mem], ...) and the elements already taken as high-priority
    messages ([rxq0_bmsk], ..., u64). *)
Record rxq := mk_rxq { rx_list : list ttcanfd_frame; rx_mem : Z; rx_bmsk : Z }.

Record rx_ctl := mk_rx { rxqs : ttcan_rx_type -> rxq; list_status : Z (* u16 *) }.

Definition set_rxq (t : ttcan_rx_type) (q : rxq) (c : rx_ctl) : rx_ctl :=
  mk_rx (fun u => if decide (u = t) then q else rxqs c u) (list_status c).

Definition is_msg_list_full (c : rx_ctl) (t : ttcan_rx_type) : Z :=
  Z.land (Z.land (list_status c) (rx_type_value t)) 0xFF.

(** [alloc] is the outcome of [kzalloc]. *)
Definition add_msg_controller_list (alloc : bool) (f : ttcanfd_frame) (t : ttcan_rx_type)
    (c : rx_ctl) : Z * rx_ctl :=
  if negb alloc then (- ENOMEM, c)
  else if negb (is_msg_list_full c t =? 0) then (- ENOMEM, c)
  else
    let q := rxqs c t in
    let c := set_rxq t (mk_rxq (rx_list q ++ [f]) (rx_mem q + 1) (rx_bmsk q)) c in
    if TTCAN_MAX_LIST_MEMBERS <=? rx_mem q + 1
    then (0, mk_rx (rxqs c) (Z.lor (list_status c) (rx_type_value t)))
    else (0, c).

(** * The hardware *)
Class RxHw (D : Type) := {
  rxfs : ttcan_rx_type -> D -> Z;       (* read RXF0S, RXF1S *)
  rxfa : ttcan_rx_type -> Z -> D -> D;  (* write RXF0A, RXF1A *)
  hw_mram : D -> mram
}.

(** The int [1 << i] as a 64-bit operand; a shift by the width of an int or more has
    no defined value. *)
Definition int_bit (i : Z) : Z := u64 (s32 (Z.shiftl 1 i)).
(** [~(1U << i)] as a 64-bit operand. *)
Definition not_uint_bit (i : Z) : Z := u32 (- u32 (Z.shiftl 1 i) - 1).

Definition set_bmsk (t : ttcan_rx_type) (b : Z) (c : rx_ctl) : rx_ctl :=
  let q := rxqs c t in set_rxq t (mk_rxq (rx_list q) (rx_mem q) b) c.

Section fifo.
Context `{CanLengths} {D : Type} `{RxHw D}.
(** The section of the FIFO and the size of its elements; [kzalloc n] is the outcome
    of the allocation for the n-th message. *)
Variables (e : ttcan_mram_elem) (esize : Z) (kzalloc : nat -> bool) (t : ttcan_rx_type).

(** The loop of [ttcan_read_rx_fifo0] and [ttcan_read_rx_fifo1]; [q_read] rounds are
    left. *)
Fixpoint fifo_loop (q_read : nat) (rxfs_reg : Z) (f : ttcanfd_frame) (msgs_read : nat)
    (d : D) (c : rx_ctl) : option (nat * D * rx_ctl) :=
  if get_field rxfs_reg 0 7 =? 0 then Some (msgs_read, d, c) else
  match q_read with
  | O => Some (msgs_read, d, c)
  | S q_read =>
      let get_idx := get_field rxfs_reg 8 6 in
      if 32 <=? get_idx then None
      else if has (rx_bmsk (rxqs c t)) (int_bit get_idx) then
        let d := rxfa t get_idx d in
        let c := set_bmsk t (Z.land (rx_bmsk (rxqs c t)) (not_uint_bit get_idx)) c in
        fifo_loop q_read (rxfs t d) f msgs_read d c
      else
        let read_addr := u32 (off e + get_idx * esize) in
        match ttcan_read_rx_msg_ram read_addr (hw_mram d) f with
        | None => None
        | Some (_, f) =>
            let '(ret, c) := add_msg_controller_list (kzalloc msgs_read) f t c in
            if ret <? 0 then Some (msgs_read, d, c)
            else
              let d := rxfa t get_idx d in
              fifo_loop q_read (rxfs t d) f (S msgs_read) d c
        end
  end.

Definition ttcan_read_rx_fifo (d : D) (c : rx_ctl) : option (nat * D * rx_ctl) :=
  let rxfs_reg := rxfs t d in
  if get_field rxfs_reg 0 7 =? 0 then Some (0%nat, d, c)
  else fifo_loop (Z.to_nat (num e)) rxfs_reg zero_frame 0 d c.

End fifo.

(** ** High-priority messages *)
Section hp.
Context `{CanLengths}.
Variables (cfg : ttcan_mram_item -> ttcan_mram_elem) (es : ttcan_element_size).

(** [hpms] is the value of the register HPMS. *)
Definition ttcan_read_hp_mesgs (hpms : Z) (m : mram) (f : ttcanfd_frame) (c : rx_ctl)
    : option (Z * ttcanfd_frame * rx_ctl) :=
  let buf_idx := get_field hpms 0 6 in
  let msi := get_field hpms 6 2 in
  let take t e size :=
    match ttcan_read_rx_msg_ram (u32 (off e + buf_idx * size)) m f with
    | None => None
    | Some (_, f) =>
        if 32 <=? buf_idx then None
        else Some (1, f, set_bmsk t (Z.lor (rx_bmsk (rxqs c t)) (int_bit buf_idx)) c)
    end in
  if msi =? 1 then Some (0, f, c)
  else if msi =? 2 then take FIFO_0 (cfg MRAM_RXF0) (rx_fifo0 es)
  else if msi =? 3 then take FIFO_1 (cfg MRAM_RXF1) (rx_fifo1 es)
  else Some (0, f, c).
End hp.

(** * Delivery to the network layer *)

(** What goes into a socket buffer: a [struct canfd_frame], or a classic frame with at
    most 8 bytes. *)
Inductive skb_frame :=
| fd_skb (f : ttcanfd_frame)
| can_skb (id dlc : Z) (bytes : list Z).

Definition to_skb (f : ttcanfd_frame) : skb_frame :=
  if has (flags f) CAN_FD_FLAG then fd_skb f
  else
    let dlc := if 8 <? d_len f then 8 else d_len f in
    can_skb (can_id f) dlc (take (Z.to_nat dlc) (data f)).

(** [list_for_each_safe] over the messages taken from the list: the result, the
    delivered frames, and the messages that are left on the local list.  [alloc] gives
    the outcomes of the socket buffer allocations. *)
Fixpoint rcv_loop (alloc : nat -> bool) (rec_msgs : Z) (n : nat) (quota pushed : Z)
    (rx_q : list ttcanfd_frame) (out : list skb_frame) : Z * list skb_frame * list ttcanfd_frame :=
  match rx_q with
  | [] => (s32 (rec_msgs - pushed), out, [])
  | f :: l =>
      if quota =? 0 then (s32 (rec_msgs - pushed), out, rx_q)
      else if negb (alloc n) then (0, out, rx_q)
      else rcv_loop alloc rec_msgs (S n) (quota - 1) (u32 (pushed - 1)) l (out ++ [to_skb f])
  end.

Definition mttcan_read_rcv_list (alloc : nat -> bool) (t : ttcan_rx_type) (rec_msgs quota : Z)
    (c : rx_ctl) : Z * list skb_frame * list ttcanfd_frame * rx_ctl :=
  let q := rxqs c t in
  match rx_list q with
  | [] => (0, [], [], c)
  | rx_q =>
      let c := set_rxq t (mk_rxq [] 0 (rx_bmsk q)) c in
      let c := mk_rx (rxqs c) (Z.land (list_status c) (u16 (- Z.land (rx_type_value t) 0xFF - 1))) in
      (rcv_loop alloc rec_msgs 0 quota (u32 rec_msgs) rx_q [], c)
  end.

(** * Time stamps *)
Definition MTTCAN_TSC_SIZE := 16.
Definition MTTCAN_TSC_MASK := 0xFFFF.

Definition mttcan_extend_timestamp (captured tsc shift : Z) : Z :=
  let aligned_capture := u64 (Z.shiftl captured shift) in
  let masked_tsc := Z.land tsc (u64 (Z.shiftl MTTCAN_TSC_MASK shift)) in
  let top_tsc := u64 (Z.shiftl (Z.shiftr tsc (MTTCAN_TSC_SIZE + shift)) (MTTCAN_TSC_SIZE + shift)) in
  let top_tsc :=
    if masked_tsc <? aligned_capture
    then u64 (top_tsc - u64 (Z.shiftl 1 (MTTCAN_TSC_SIZE + shift))) else top_tsc in
  Z.lor top_tsc aligned_capture.

(** ** Extending a captured time stamp *)
(** The masked counter and its rounded value, in ticks [b] of the divided counter. *)
Lemma land_shifted_mask tsc shift :
  0 <= shift -> Z.land tsc (Z.shiftl 65535 shift) = tsc / 2 ^ shift mod 65536 * 2 ^ shift.
Proof.
  intros Hs. apply Z.bits_inj'. intros n Hn. rewrite Z.land_spec, Z.mul_pow2_bits by lia.
  change 65536 with (2 ^ 16). change 65535 with (Z.ones 16).
  destruct (Z.lt_ge_cases n shift).
  - rewrite Z.shiftl_spec_low, (Z.testbit_neg_r _ (n - shift)) by lia. apply andb_false_r.
  - rewrite Z.shiftl_spec by lia. destruct (Z.lt_ge_cases (n - shift) 16).
    + rewrite Z.ones_spec_low, Z.mod_pow2_bits_low, andb_true_r by lia.
      rewrite Z.div_pow2_bits by lia. f_equal. lia.
    + by rewrite Z.ones_spec_high, Z.mod_pow2_bits_high, andb_false_r by lia.
Qed.

Lemma round_down tsc shift :
  0 <= shift -> Z.shiftl (Z.shiftr tsc (16 + shift)) (16 + shift)
                = tsc / 2 ^ shift / 65536 * (65536 * 2 ^ shift).
Proof.
  intros Hs. rewrite Z.shiftr_div_pow2, Z.shiftl_mul_pow2 by lia.
  rewrite Z.pow_add_r by lia. change (2 ^ 16) with 65536.
  assert (0 < 2 ^ shift) by (apply Z.pow_pos_nonneg; lia).
  by rewrite (Z.mul_comm 65536), <- Z.div_div, (Z.mul_comm _ 65536) by lia.
Qed.

(** [mttcan_extend_timestamp] recovers the time of a capture from its low 16 bits:
    for a capture at tick [t] of the divided counter, at most one round of the 16-bit
    counter before the current time, the result is the tick [t] in units of the
    undivided counter, whether or not the 16 bits have rolled over in between. *)
Theorem extend_timestamp_correct t tsc shift :
  0 <= shift <= 48 -> is_u64 tsc -> 0 <= t ->
  t <= tsc / 2 ^ shift < t + 2 ^ MTTCAN_TSC_SIZE ->
  mttcan_extend_timestamp (t mod 2 ^ 16) tsc shift = t * 2 ^ shift.
Proof.
  unfold MTTCAN_TSC_SIZE. intros Hs Htsc Ht Hr. change (2 ^ 16) with 65536 in *.
  unfold mttcan_extend_timestamp, MTTCAN_TSC_SIZE, MTTCAN_TSC_MASK. cbv zeta.
  assert (E16 : 2 ^ (16 + shift) = 65536 * 2 ^ shift) by (rewrite Z.pow_add_r by lia; done).
  assert (Hpm : 65536 * 2 ^ shift <= 2 ^ 64).
  { rewrite <- E16. apply Z.pow_le_mono_r; lia. }
  assert (Hp : 0 < 2 ^ shift) by (apply Z.pow_pos_nonneg; lia).
  pose proof (Z.mul_div_le tsc (2 ^ shift) Hp) as Hdiv. unfold is_u64 in Htsc.
  rewrite round_down, !Z.shiftl_mul_pow2, E16, Z.mul_1_l by lia.
  rewrite (u64_id (65535 * _)) by (unfold is_u64; lia).
  rewrite <- (Z.shiftl_mul_pow2 65535), land_shifted_mask by lia.
  set (p := 2 ^ shift) in *. set (b := tsc / p) in *.
  pose proof (Z.mod_pos_bound t 65536 ltac:(lia)) as Htm.
  pose proof (Z.mod_pos_bound b 65536 ltac:(lia)) as Hbm.
  pose proof (Z.div_mod t 65536 ltac:(lia)) as Etd. pose proof (Z.div_mod b 65536 ltac:(lia)) as Ebd.
  assert (Hq : 0 <= t / 65536) by (apply Z.div_pos; lia).
  set (tq := t / 65536) in *. set (tr := t mod 65536) in *.
  set (bq := b / 65536) in *. set (br := b mod 65536) in *.
  assert (Htp : 0 <= tr * p <= 65535 * p) by (split; [lia|apply Z.mul_le_mono_nonneg_r; lia]).
  assert (Hbp : bq * (65536 * p) <= p * b).
  { replace (bq * (65536 * p)) with (p * (65536 * bq)) by lia. apply Z.mul_le_mono_nonneg_l; lia. }
  assert (Hbq : 0 <= bq) by lia.
  assert (Hbqp : 0 <= bq * (65536 * p)) by (apply Z.mul_nonneg_nonneg; lia).
  rewrite !(u64_id (tr * p)) by (unfold is_u64; lia).
  rewrite (u64_id (bq * _)) by (unfold is_u64; lia).
  assert (Hlow : 0 <= tr * p < 2 ^ (16 + shift)) by lia.
  replace (t * p) with (tq * 2 ^ (16 + shift) + tr * p) by (rewrite E16, Etd; lia).
  destruct (br * p <? tr * p) eqn:Ec; zb.
  - apply Z.mul_lt_mono_pos_r in Ec; [|done].
    assert (Eq : bq = tq + 1) by lia. rewrite Eq in *.
    assert (tq * (65536 * p) + 65536 * p <= p * b) by lia.
    assert (0 <= tq * (65536 * p)) by (apply Z.mul_nonneg_nonneg; lia).
    rewrite (u64_id (65536 * p)) by (unfold is_u64; lia).
    rewrite u64_id by (unfold is_u64; lia).
    replace (_ - _) with (tq * 2 ^ (16 + shift)) by (rewrite E16; lia).
    by rewrite lor_low by lia.
  - apply Z.mul_le_mono_pos_r in Ec; [|done].
    assert (Eq : bq = tq) by lia. rewrite Eq, <- E16.
    by rewrite lor_low by lia.
Qed.

Lemma extend_timestamp_witness :
  is_u64 0x4000105 /\ mttcan_extend_timestamp 0xFFFF 0x4000105 9 = 0x3FFFE00.
Proof.
  split; [width_lia|].
  apply (extend_timestamp_correct 0x1FFFF 0x4000105 9); [lia | width_lia | lia | by vm_compute].
Defined.

(** * The mask of messages taken early

    The mask has 64 bits, but the bits are made by shifting an [int]: bit 31 becomes
    bits 31 to 63 when it is set, and clearing any bit clears the upper half.  For
    elements below 32 the lower half behaves as a set. *)
Record bmsk_wf (b : Z) : Prop := {
  bmsk_u64 : is_u64 b;
  bmsk_high : b / 2 ^ 32 <> 0 -> Z.testbit b 31 = true
}.

Lemma bit_cases i : 0 <= i < 32 -> 0 <= i < 31 \/ i = 31.
Proof. lia. Qed.

Lemma int_bit_low i : 0 <= i < 31 -> int_bit i = 2 ^ i.
Proof.
  intros Hi. unfold int_bit. rewrite Z.shiftl_mul_pow2, Z.mul_1_l by lia.
  assert (0 < 2 ^ i < 2 ^ 31).
  { split; [apply Z.pow_pos_nonneg; lia | apply Z.pow_lt_mono_r; lia]. }
  rewrite s32_id, u64_id by (unfold is_s32, is_u64; lia). done.
Qed.

Lemma has_pow2 w i : 0 <= i -> has w (2 ^ i) = Z.testbit w i.
Proof.
  intros Hi. unfold has. destruct (Z.testbit w i) eqn:E.
  - apply negb_true_iff, Z.eqb_neq. intros H0.
    assert (Hb : Z.testbit (Z.land w (2 ^ i)) i = true)
      by (rewrite Z.land_spec, E, Z.pow2_bits_true by lia; done).
    by rewrite H0, Z.testbit_0_l in Hb.
  - apply negb_false_iff, Z.eqb_eq. apply Z.bits_inj'. intros n Hn.
    rewrite Z.land_spec, Z.testbit_0_l. destruct (Z.eq_dec n i) as [->|Hne]; [by rewrite E|].
    by rewrite Z.pow2_bits_false, andb_false_r by lia.
Qed.

Lemma has_int_bit b i : bmsk_wf b -> 0 <= i < 32 -> has b (int_bit i) = Z.testbit b i.
Proof.
  intros [Hu Hh] [Hi| ->]%bit_cases; [by rewrite int_bit_low, has_pow2 by lia|].
  change (int_bit 31) with (Z.shiftl (Z.ones 33) 31). destruct (Z.testbit b 31) eqn:E.
  - unfold has. apply negb_true_iff, Z.eqb_neq. intros H0.
    assert (Hb : Z.testbit (Z.land b (Z.shiftl (Z.ones 33) 31)) 31 = true)
      by (rewrite Z.land_spec, E; done).
    by rewrite H0, Z.testbit_0_l in Hb.
  - unfold has. apply negb_false_iff, Z.eqb_eq.
    assert (Hz : b / 2 ^ 32 = 0) by (destruct (Z.eq_dec (b / 2 ^ 32) 0) as [?|Hne]; [done|]; by specialize (Hh Hne)).
    apply Z.bits_inj'. intros n Hn. rewrite Z.land_spec, Z.testbit_0_l.
    destruct (Z.lt_ge_cases n 31); [by rewrite Z.shiftl_spec_low, andb_false_r by lia|].
    destruct (Z.eq_dec n 31) as [->|Hne]; [by rewrite E|].
    replace n with (n - 32 + 32) by lia. rewrite <- Z.div_pow2_bits, Hz, Z.testbit_0_l by lia. done.
Qed.

(** Taking note of an element, and forgetting it. *)
Lemma bmsk_set b i : bmsk_wf b -> 0 <= i < 32 ->
  bmsk_wf (Z.lor b (int_bit i)) /\
  forall j, 0 <= j < 32 -> Z.testbit (Z.lor b (int_bit i)) j = Z.testbit b j || (j =? i).
Proof.
  intros [Hu Hh] Hi. split.
  - split.
    + assert (Hib : is_u64 (int_bit i)) by apply u64_range. unfold is_u64 in *.
      split; [apply Z.lor_nonneg; lia|].
      destruct (Z.eq_dec (Z.lor b (int_bit i)) 0) as [->|Hne]; [lia|].
      assert (0 <= Z.lor b (int_bit i)) by (apply Z.lor_nonneg; lia).
      apply Z.log2_lt_pow2; [lia|]. rewrite Z.log2_lor by lia. apply Z.max_lub_lt.
      * destruct (Z.eq_dec b 0) as [->|]; [done|]. apply Z.log2_lt_pow2; lia.
      * destruct (Z.eq_dec (int_bit i) 0) as [->|]; [done|]. apply Z.log2_lt_pow2; lia.
    + intros Hne. rewrite Z.lor_spec. destruct (bit_cases i Hi) as [Hl| ->].
      * rewrite Hh; [done|]. intros Hz. apply Hne. rewrite int_bit_low by done.
        rewrite <- !Z.shiftr_div_pow2, Z.shiftr_lor, !Z.shiftr_div_pow2, Hz by lia.
        rewrite (Z.div_small (2 ^ i)); [done|].
        split; [apply Z.pow_nonneg; lia | apply Z.pow_lt_mono_r; lia].
      * by rewrite orb_true_r.
  - intros j Hj. rewrite Z.lor_spec. f_equal. destruct (bit_cases i Hi) as [Hl| ->].
    + rewrite int_bit_low, Z.pow2_bits_eqb by lia. apply Z.eqb_sym.
    + change (int_bit 31) with (Z.shiftl (Z.ones 33) 31).
      destruct (Z.eqb_spec j 31) as [->|]; [done|]. by rewrite Z.shiftl_spec_low by lia.
Qed.

Lemma bmsk_clear b i : bmsk_wf b -> 0 <= i < 32 ->
  bmsk_wf (Z.land b (not_uint_bit i)) /\
  forall j, 0 <= j < 32 -> Z.testbit (Z.land b (not_uint_bit i)) j = Z.testbit b j && negb (j =? i).
Proof.
  intros [Hu Hh] Hi.
  assert (Hnb : not_uint_bit i = Z.ones 32 - 2 ^ i).
  { unfold not_uint_bit. rewrite Z.shiftl_mul_pow2, Z.mul_1_l by lia.
    assert (0 < 2 ^ i < 2 ^ 32) by (split; [apply Z.pow_pos_nonneg; lia | apply Z.pow_lt_mono_r; lia]).
    rewrite (u32_id (2 ^ i)) by (unfold is_u32; lia). change (Z.ones 32) with (2 ^ 32 - 1).
    unfold u32. replace (- 2 ^ i - 1) with ((2 ^ 32 - 1 - 2 ^ i) + (-1) * 2 ^ 32) by lia.
    rewrite Z_mod_plus_full, Z.mod_small by lia. done. }
  assert (Hld : Z.ones 32 - 2 ^ i = Z.ldiff (Z.ones 32) (2 ^ i)).
  { apply Z.sub_nocarry_ldiff, Z.bits_inj'. intros n Hn. rewrite Z.ldiff_spec, Z.testbit_0_l.
    destruct (Z.eq_dec n i) as [->|]; [by rewrite Z.ones_spec_low, andb_false_r by lia|].
    by rewrite Z.pow2_bits_false by lia. }
  rewrite Hnb, Hld. split.
  - assert (Hz : Z.land b (Z.ldiff (Z.ones 32) (2 ^ i)) / 2 ^ 32 = 0).
    { rewrite <- Z.shiftr_div_pow2, Z.shiftr_land, Z.shiftr_ldiff by lia.
      change (Z.shiftr (Z.ones 32) 32) with 0. by rewrite Z.ldiff_0_l, Z.land_0_r. }
    split; [|done]. unfold is_u64 in *. split; [apply Z.land_nonneg; lia|].
    pose proof (Z.div_mod (Z.land b (Z.ldiff (Z.ones 32) (2 ^ i))) (2 ^ 32) ltac:(lia)).
    pose proof (Z.mod_pos_bound (Z.land b (Z.ldiff (Z.ones 32) (2 ^ i))) (2 ^ 32) ltac:(lia)). lia.
  - intros j Hj. rewrite Z.land_spec, Z.ldiff_spec, Z.ones_spec_low, Z.pow2_bits_eqb by lia.
    simpl. by rewrite Z.eqb_sym.
Qed.

(** * The lists *)
Record list_ok (t : ttcan_rx_type) (c : rx_ctl) : Prop := {
  list_mem : rx_mem (rxqs c t) = Z.of_nat (length (rx_list (rxqs c t)));
  list_full : is_msg_list_full c t = 0 <-> rx_mem (rxqs c t) < TTCAN_MAX_LIST_MEMBERS;
  list_bound : Z.of_nat (length (rx_list (rxqs c t))) <= TTCAN_MAX_LIST_MEMBERS
}.

Lemma rxqs_set t q c : rxqs (set_rxq t q c) t = q.
Proof. unfold set_rxq. simpl. by rewrite decide_True. Qed.
Lemma rxqs_set_ne t u q c : u <> t -> rxqs (set_rxq t q c) u = rxqs c u.
Proof. intros. unfold set_rxq. simpl. by rewrite decide_False. Qed.

Lemma full_has c t : (is_msg_list_full c t =? 0) = negb (has (list_status c) (rx_type_value t)).
Proof.
  unfold is_msg_list_full, has. rewrite <- Z.land_assoc, negb_involutive. by destruct t.
Qed.

Lemma full_iff c t : is_msg_list_full c t = 0 <-> has (list_status c) (rx_type_value t) = false.
Proof. rewrite <- Z.eqb_eq, full_has, negb_true_iff. done. Qed.

Lemma has_value t u : has (rx_type_value t) (rx_type_value u) = bool_decide (t = u).
Proof. by destruct t, u. Qed.

(** What another list's change of the status word and of its queue leaves alone. *)
Lemma list_ok_other u c c' :
  list_ok u c -> rxqs c' u = rxqs c u ->
  has (list_status c') (rx_type_value u) = has (list_status c) (rx_type_value u) ->
  list_ok u c'.
Proof.
  intros [Hm Hf Hb] Hq Hs. split; rewrite ?Hq; try done.
  rewrite full_iff, Hs, <- full_iff. done.
Qed.

Lemma add_msg_spec alloc f t c :
  list_ok t c ->
  let q := rxqs c t in
  let '(ret, c') := add_msg_controller_list alloc f t c in
  (ret = - ENOMEM /\ c' = c /\
     (alloc = false \/ Z.of_nat (length (rx_list q)) = TTCAN_MAX_LIST_MEMBERS)) \/
  (ret = 0 /\ alloc = true /\ list_ok t c' /\
     rx_list (rxqs c' t) = rx_list q ++ [f] /\ rx_bmsk (rxqs c' t) = rx_bmsk q /\
     forall u, u <> t -> rxqs c' u = rxqs c u /\ (list_ok u c -> list_ok u c')).
Proof.
  intros [Hm Hf Hb]. unfold add_msg_controller_list. destruct alloc; simpl; [|tauto].
  destruct (Z.eqb_spec (is_msg_list_full c t) 0) as [E|E]; simpl.
  2:{ left. split_and!; [done..|]. right. rewrite Hf in E. lia. }
  apply Hf in E as Hlt. rewrite full_iff in E.
  destruct (TTCAN_MAX_LIST_MEMBERS <=? rx_mem (rxqs c t) + 1) eqn:El; zb; right;
    (split_and!; [done|done|split|..]); simpl; rewrite ?decide_True by done; simpl;
    rewrite ?length_app; simpl; try lia; try done.
  - rewrite full_iff. simpl. rewrite has_lor, has_value, bool_decide_true, orb_true_r by done.
    split; [done|lia].
  - intros u Hu. rewrite decide_False by done. split; [done|]. intros Hok.
    apply (list_ok_other u c); [done|simpl; by rewrite decide_False|].
    simpl. rewrite has_lor, has_value, bool_decide_false, orb_false_r by congruence. done.
  - rewrite full_iff. simpl. split; [lia|done].
  - intros u Hu. rewrite decide_False by done. split; [done|]. intros Hok.
    apply (list_ok_other u c); [done| |done]. simpl. by rewrite decide_False.
Qed.

(** * Reading a FIFO *)

(** Two frames are the same up to the bytes beyond their length, which a receive
    leaves as they were. *)
Record same_frame (g f : ttcanfd_frame) : Prop := {
  same_id : can_id g = can_id f;
  same_len : d_len g = d_len f;
  same_flags : flags g = flags f;
  same_tstamp : tstamp g = tstamp f;
  same_size : length (data g) = 64%nat;
  same_bytes i : 0 <= i < d_len f -> byte g i = byte f i
}.

(** The element at [a] of the message RAM holds [f]. *)
Definition holds `{CanLengths} (m : mram) (a : Z) (f : ttcanfd_frame) : Prop :=
  forall g, length (data g) = 64%nat ->
    exists n g', ttcan_read_rx_msg_ram a m g = Some (n, g') /\ same_frame g' f.

(** A receive FIFO as the controller's documentation has it: [fifo d] are the elements
    waiting in it, with the messages they hold.  The status register gives their
    number and the index of the first; acknowledging the first removes it, and
    messages that have arrived in the meantime may be there as well.  [depth] is the
    configured size. *)
Class RxHwOk `{CanLengths} (D : Type) `{RxHw D} (t : ttcan_rx_type) (e : ttcan_mram_elem)
    (esize depth : Z) := {
  fifo : D -> list (Z * ttcanfd_frame);
  fifo_fill d : get_field (rxfs t d) 0 7 = Z.of_nat (length (fifo d));
  fifo_get d i f l : fifo d = (i, f) :: l -> get_field (rxfs t d) 8 6 = i;
  fifo_index d i f : (i, f) ∈ fifo d -> 0 <= i < depth;
  fifo_holds d i f : (i, f) ∈ fifo d -> holds (hw_mram d) (u32 (off e + i * esize)) f;
  fifo_ack d i f l : fifo d = (i, f) :: l -> exists new, fifo (rxfa t i d) = l ++ new
}.

(** The messages a reader sees who skips the elements [hp] has taken early, each of
    them once. *)
Fixpoint kept (hp : Z -> bool) (l : list (Z * ttcanfd_frame)) : list ttcanfd_frame :=
  match l with
  | [] => []
  | (i, f) :: l =>
      if hp i then kept (fun j => hp j && negb (j =? i)) l else f :: kept hp l
  end.

(** What remains to be skipped afterwards. *)
Fixpoint hp_left (hp : Z -> bool) (l : list (Z * ttcanfd_frame)) : Z -> bool :=
  match l with
  | [] => hp
  | (i, _) :: l => if hp i then hp_left (fun j => hp j && negb (j =? i)) l else hp_left hp l
  end.

Lemma kept_ext hp hp' l :
  (forall j, 0 <= j < 32 -> hp j = hp' j) -> Forall (fun p => 0 <= p.1 < 32) l ->
  kept hp l = kept hp' l /\ forall j, 0 <= j < 32 -> hp_left hp l j = hp_left hp' l j.
Proof.
  intros Hhp Hl. revert hp hp' Hhp. induction Hl as [|[i f] l Hi Hl IH]; intros hp hp' Hhp; simpl.
  - done.
  - rewrite <- (Hhp i) by done. destruct (hp i); [|by destruct (IH hp hp') as [-> ?]].
    apply IH. intros j Hj. by rewrite Hhp.
Qed.

Section fifo_spec.
Context `{CanLengths} {D : Type} `{RxHw D}.
Variables (e : ttcan_mram_elem) (esize : Z) (kzalloc : nat -> bool) (t : ttcan_rx_type) (depth : Z).
Context `{!RxHwOk D t e esize depth}.
Hypothesis depth_32 : depth <= 32.

Record rx_ok (c : rx_ctl) : Prop := {
  rx_list_ok : list_ok t c;
  rx_bmsk_ok : bmsk_wf (rx_bmsk (rxqs c t))
}.

(** The effect of reading at most [limit] elements, [n0] messages having been read
    before: the elements [taken] leave the FIFO in order; of them, those not taken
    early are appended to the list, in order and once; and the reading stops only
    with an empty FIFO, at the limit, with a full list, or for lack of memory. *)
Record drained (limit n0 : nat) (d : D) (c : rx_ctl) (n : nat) (d' : D) (c' : rx_ctl)
    (taken new : list (Z * ttcanfd_frame)) (got : list ttcanfd_frame) : Prop := {
  dr_fifo : fifo d ++ new = taken ++ fifo d';
  dr_limit : (length taken <= limit)%nat;
  dr_got : Forall2 same_frame got (kept (Z.testbit (rx_bmsk (rxqs c t))) taken);
  dr_list : rx_list (rxqs c' t) = rx_list (rxqs c t) ++ got;
  dr_count : n = (n0 + length got)%nat;
  dr_bmsk j : 0 <= j < 32 ->
    Z.testbit (rx_bmsk (rxqs c' t)) j = hp_left (Z.testbit (rx_bmsk (rxqs c t))) taken j;
  dr_ok : rx_ok c';
  dr_other u : u <> t -> rxqs c' u = rxqs c u /\ (list_ok u c -> list_ok u c');
  dr_stop : fifo d' = [] \/ length taken = limit \/
    Z.of_nat (length (rx_list (rxqs c' t))) = TTCAN_MAX_LIST_MEMBERS \/ kzalloc n = false
}.

Lemma drained_nil limit n d c :
  rx_ok c ->
  fifo d = [] \/ limit = 0%nat \/
    Z.of_nat (length (rx_list (rxqs c t))) = TTCAN_MAX_LIST_MEMBERS \/ kzalloc n = false ->
  drained limit n d c n d c [] [] [].
Proof.
  intros Hok Hs. split; simpl; rewrite ?app_nil_r; try done; try lia.
  destruct Hs as [?|[?|[?|?]]]; auto.
Qed.

(** An element that has been taken early is acknowledged and forgotten. *)
Lemma drained_skip limit n d c i f l new0 c1 n' d' c' taken new got :
  rx_ok c -> 0 <= i < 32 -> fifo d = (i, f) :: l ->
  fifo (rxfa t i d) = l ++ new0 ->
  Z.testbit (rx_bmsk (rxqs c t)) i = true ->
  c1 = set_bmsk t (Z.land (rx_bmsk (rxqs c t)) (not_uint_bit i)) c ->
  (forall j g, (j, g) ∈ taken -> 0 <= j < 32) ->
  drained limit n (rxfa t i d) c1 n' d' c' taken new got ->
  drained (S limit) n d c n' d' c' ((i, f) :: taken) (new0 ++ new) got.
Proof.
  intros [Hl Hb] Hi Hf Ha Ht -> Hidx [D1 D2 D3 D4 D5 D6 D7 D8 D9].
  destruct (bmsk_clear _ i Hb Hi) as [_ Hclr].
  unfold set_bmsk in *. rewrite rxqs_set in *. cbn [rx_list rx_mem rx_bmsk] in *.
  assert (Hall : Forall (fun p => 0 <= p.1 < 32) taken).
  { apply Forall_forall. intros [j g] Hj. by apply (Hidx j g). }
  destruct (kept_ext _ _ taken Hclr Hall) as [Hk Hleft].
  split; simpl; rewrite ?Ht; try done; try lia.
  - rewrite Hf. simpl. rewrite app_assoc, <- Ha. by f_equal.
  - by rewrite <- Hk.
  - intros j Hj. by rewrite D6, Hleft.
  - intros u Hu. destruct (D8 u Hu) as [Eq Hok]. rewrite rxqs_set_ne in Eq by done. split; [done|].
    intros Hu0. apply Hok, (list_ok_other u c); [done| |done]. by rewrite rxqs_set_ne.
  - destruct D9 as [?|[?|[?|?]]]; auto.
Qed.

(** Another element is read, appended and acknowledged. *)
Lemma drained_read limit n d c i f l new0 g c1 n' d' c' taken new got :
  fifo d = (i, f) :: l -> fifo (rxfa t i d) = l ++ new0 ->
  Z.testbit (rx_bmsk (rxqs c t)) i = false -> same_frame g f ->
  rx_list (rxqs c1 t) = rx_list (rxqs c t) ++ [g] -> rx_bmsk (rxqs c1 t) = rx_bmsk (rxqs c t) ->
  (forall u, u <> t -> rxqs c1 u = rxqs c u /\ (list_ok u c -> list_ok u c1)) ->
  drained limit (S n) (rxfa t i d) c1 n' d' c' taken new got ->
  drained (S limit) n d c n' d' c' ((i, f) :: taken) (new0 ++ new) (g :: got).
Proof.
  intros Hf Ha Ht Hg Hl Hb Hoth [D1 D2 D3 D4 D5 D6 D7 D8 D9]. rewrite Hb in *.
  split; simpl; rewrite ?Ht; try done; try lia.
  - rewrite Hf. simpl. rewrite app_assoc, <- Ha. by f_equal.
  - by constructor.
  - by rewrite D4, Hl, <- app_assoc.
  - intros u Hu. destruct (D8 u Hu) as [-> ?], (Hoth u Hu) as [-> ?]. auto.
  - destruct D9 as [?|[?|[?|?]]]; auto.
Qed.

Lemma set_bmsk_ok b c : rx_ok c -> bmsk_wf b -> rx_ok (set_bmsk t b c).
Proof.
  intros [[Hm Hf Hl] Hb] Hw. unfold set_bmsk. split; [split|]; rewrite ?rxqs_set; done.
Qed.

Lemma fifo_loop_spec limit : forall g n d c,
  length (data g) = 64%nat -> rx_ok c ->
  exists n' d' c' taken new got,
    fifo_loop e esize kzalloc t limit (rxfs t d) g n d c = Some (n', d', c') /\
    (forall j f, (j, f) ∈ taken -> 0 <= j < 32) /\
    drained limit n d c n' d' c' taken new got.
Proof.
  induction limit as [|limit IH]; intros g n d c Hg Hok; simpl; rewrite fifo_fill.
  all: destruct (fifo d) as [|[i f] l] eqn:Ef;
    [exists n, d, c, [], [], []; split_and!; [done | by intros ? ? ?%not_elem_of_nil | apply drained_nil; auto]|].
  all: rewrite (proj2 (Z.eqb_neq _ 0)) by (simpl; lia).
  { exists n, d, c, [], [], []. split_and!; [done | by intros ? ? ?%not_elem_of_nil | apply drained_nil; auto]. }
  rewrite (fifo_get d i f l Ef).
  assert (Hin : (i, f) ∈ fifo d) by (rewrite Ef; left).
  assert (Hi : 0 <= i < 32) by (pose proof (fifo_index d i f Hin); lia).
  rewrite (proj2 (Z.leb_gt 32 i)) by lia.
  destruct (fifo_ack d i f l Ef) as [new0 Ha].
  rewrite has_int_bit by (done || apply Hok).
  destruct (Z.testbit (rx_bmsk (rxqs c t)) i) eqn:Et.
  - destruct (IH g n (rxfa t i d) (set_bmsk t (Z.land (rx_bmsk (rxqs c t)) (not_uint_bit i)) c) Hg)
      as (n' & d' & c' & taken & new & got & -> & Hidx & Hdr).
    { apply set_bmsk_ok; [done|]. apply bmsk_clear; [apply Hok|done]. }
    exists n', d', c', ((i, f) :: taken), (new0 ++ new), got. split_and!; [done| |].
    + intros j h [[= -> ->]|Hj]%elem_of_cons; [done|eauto].
    + by eapply drained_skip.
  - destruct (fifo_holds d i f Hin g Hg) as (r & g' & -> & Hsame).
    pose proof (add_msg_spec (kzalloc n) g' t c (rx_list_ok _ Hok)) as Hadd. cbv zeta in Hadd.
    destruct (add_msg_controller_list (kzalloc n) g' t c) as [ret c1].
    destruct Hadd as [(-> & -> & Hwhy)|(-> & _ & Hok1 & Hl1 & Hb1 & Hoth)]; simpl.
    + exists n, d, c, [], [], []. split_and!; [done | by intros ? ? ?%not_elem_of_nil |].
      apply drained_nil; [done|]. destruct Hwhy; auto.
    + destruct (IH g' (S n) (rxfa t i d) c1 (same_size _ _ Hsame))
        as (n' & d' & c' & taken & new & got & -> & Hidx & Hdr).
      { split; [done|]. rewrite Hb1. apply Hok. }
      exists n', d', c', ((i, f) :: taken), (new0 ++ new), (g' :: got). split_and!; [done| |].
      * intros j h [[= -> ->]|Hj]%elem_of_cons; [done|eauto].
      * by eapply drained_read.
Qed.

Lemma read_rx_fifo_ok d c :
  rx_ok c ->
  exists n d' c' taken new got,
    ttcan_read_rx_fifo e esize kzalloc t d c = Some (n, d', c') /\
    drained (Z.to_nat (num e)) 0 d c n d' c' taken new got.
Proof.
  intros Hok. unfold ttcan_read_rx_fifo. cbv zeta.
  destruct (get_field (rxfs t d) 0 7 =? 0) eqn:E; zb.
  - exists 0%nat, d, c, [], [], []. split; [done|]. apply drained_nil; [done|]. left.
    rewrite fifo_fill in E. apply nil_length_inv. lia.
  - destruct (fifo_loop_spec (Z.to_nat (num e)) zero_frame 0 d c eq_refl Hok)
      as (n & d' & c' & taken & new & got & Eq & _ & Hdr). eauto 10.
Qed.

(** C31. Reading a receive FIFO.  Whatever arrives meanwhile, the function returns, and
    the elements it has acknowledged are a first part of the FIFO, at most as many as
    the FIFO has elements.  The messages of those among them that had not been
    delivered as high-priority messages are appended to the list in the order of
    their arrival, each once, and their number is the result; the others are skipped,
    each once.  The list stays within its bound, and a message for which there is no
    room or no memory stays in the FIFO.  The FIFO is assumed to have at most 32
    elements: an element beyond shifts an [int] by more than its width. *)
Theorem read_rx_fifo_correct d c :
  rx_ok c ->
  exists n d' c' taken new got,
    ttcan_read_rx_fifo e esize kzalloc t d c = Some (n, d', c') /\
    drained (Z.to_nat (num e)) 0 d c n d' c' taken new got.
Proof. apply read_rx_fifo_ok. Qed.
End fifo_spec.

(** * Delivery *)
Lemma list_emptied t c b :
  let c1 := set_rxq t (mk_rxq [] 0 b) c in
  let c2 := mk_rx (rxqs c1) (Z.land (list_status c1) (u16 (- Z.land (rx_type_value t) 0xFF - 1))) in
  list_ok t c2 /\ forall u, u <> t -> rxqs c2 u = rxqs c u /\ (list_ok u c -> list_ok u c2).
Proof.
  cbv zeta. split.
  - split; simpl; rewrite ?decide_True by done; simpl; [done| |done].
    rewrite full_iff. simpl. rewrite has_land. split; [done|]. intros _.
    by destruct t; unfold has; fold_masks.
  - intros u Hu. simpl. rewrite decide_False by done. split; [done|]. intros Hok.
    apply (list_ok_other u c); [done|simpl; by rewrite decide_False|]. simpl.
    rewrite has_land. f_equal. by destruct t, u.
Qed.

Lemma s32_sub_u32 a b : s32 (a - u32 b) = s32 (a - b).
Proof. width_lia. Qed.

(** The loop delivers the first [k] messages. *)
Lemma rcv_loop_spec alloc rec_msgs : forall q n quota pushed out,
  exists k, (k <= length q)%nat /\
    rcv_loop alloc rec_msgs n quota pushed q out =
      (if bool_decide (k = length q) || (quota =? Z.of_nat k)
       then s32 (rec_msgs - (pushed - Z.of_nat k)) else 0,
       out ++ (to_skb <$> take k q), drop k q) /\
    (k = length q \/ quota = Z.of_nat k \/ alloc (n + k)%nat = false) /\
    (0 <= quota -> Z.of_nat k <= quota) /\
    forall i, (i < k)%nat -> alloc (n + i)%nat = true.
Proof.
  intros q. induction q as [|f q IH]; intros n quota pushed out; simpl.
  - exists 0%nat. split_and!; [done| |by left|lia|lia]. simpl. by rewrite Z.sub_0_r, app_nil_r.
  - case_if.
    { exists 0%nat. subst quota. split_and!; [lia| |by right; left|lia|lia].
      simpl. by rewrite Z.sub_0_r, app_nil_r. }
    destruct (alloc n) eqn:Ea; simpl.
    + destruct (IH (S n) (quota - 1) (u32 (pushed - 1)) (out ++ [to_skb f]))
        as (k & Hk & -> & Hwhy & Hle & Hal).
      exists (S k). split_and!; [lia| | |lia|].
      * rewrite <- app_assoc. simpl. f_equal. f_equal.
        replace (bool_decide (S k = S (length q))) with (bool_decide (k = length q))
          by (apply bool_decide_ext; lia).
        replace (quota =? Z.of_nat (S k)) with (quota - 1 =? Z.of_nat k)
          by (apply eq_true_iff_eq; rewrite !Z.eqb_eq; lia).
        case_if; [|done].
        replace (rec_msgs - (u32 (pushed - 1) - Z.of_nat k))
          with (rec_msgs + Z.of_nat k - u32 (pushed - 1)) by lia.
        rewrite s32_sub_u32. f_equal. lia.
      * replace (n + S k)%nat with (S n + k)%nat by lia. destruct Hwhy as [?|[?|?]]; auto with lia.
      * intros [|i] Hi; [by rewrite Nat.add_0_r|]. replace (n + S i)%nat with (S n + i)%nat by lia.
        apply Hal. lia.
    + exists 0%nat. split_and!; [lia| |by right; right; rewrite Nat.add_0_r|lia|lia].
      change (Z.of_nat 0) with 0. rewrite (proj2 (Z.eqb_neq quota 0)), app_nil_r by done. done.
Qed.

(** [mttcan_read_rcv_list] empties the list; it delivers the first [k] messages. *)
Lemma rcv_list_spec alloc t rec_msgs quota c :
  rx_list (rxqs c t) <> [] -> 0 <= quota ->
  exists k c', let q := rx_list (rxqs c t) in
    (k <= length q)%nat /\
    mttcan_read_rcv_list alloc t rec_msgs quota c =
      (if bool_decide (k = length q) || (quota =? Z.of_nat k)
       then s32 (rec_msgs - (u32 rec_msgs - Z.of_nat k)) else 0,
       to_skb <$> take k q, drop k q, c') /\
    (k = length q \/ quota = Z.of_nat k \/ alloc k = false) /\ Z.of_nat k <= quota /\
    (forall i, (i < k)%nat -> alloc i = true) /\
    rx_list (rxqs c' t) = [] /\ rx_bmsk (rxqs c' t) = rx_bmsk (rxqs c t) /\ list_ok t c' /\
    forall u, u <> t -> rxqs c' u = rxqs c u /\ (list_ok u c -> list_ok u c').
Proof.
  intros Hne Hq. unfold mttcan_read_rcv_list.
  destruct (rcv_loop_spec alloc rec_msgs (rx_list (rxqs c t)) 0 quota (u32 rec_msgs) [])
    as (k & Hk & E & Hwhy & Hle & Hal).
  destruct (rx_list (rxqs c t)) as [|f q] eqn:El; [done|].
  destruct (list_emptied t c (rx_bmsk (rxqs c t))) as [Hok Hoth].
  eexists k, _. cbv zeta. split_and!; [done|by rewrite E|done|by apply Hle|done| | |done|done];
    simpl; by rewrite decide_True.
Qed.

Section poll.
Context `{CanLengths} {D : Type} `{RxHw D}.
Variables (e : ttcan_mram_elem) (esize : Z) (kzalloc alloc_skb : nat -> bool) (t : ttcan_rx_type)
  (depth : Z).
Context `{!RxHwOk D t e esize depth}.
Hypothesis depth_32 : depth <= 32.

(** A FIFO's share of [mttcan_poll_ir]: read it, and deliver the list within the
    budget. *)
Definition poll_fifo (budget : Z) (d : D) (c : rx_ctl)
    : option (Z * list skb_frame * list ttcanfd_frame * D * rx_ctl) :=
  match ttcan_read_rx_fifo e esize kzalloc t d c with
  | None => None
  | Some (rec_msgs, d, c) =>
      let '(work, out, lost, c) := mttcan_read_rcv_list alloc_skb t (Z.of_nat rec_msgs) budget c in
      Some (work, out, lost, d, c)
  end.

(** A poll of a receive FIFO whose list was empty: every message taken out of the
    FIFO and not delivered early is either delivered to the network layer, in order
    and once, or lost.  As many are delivered as the budget and the socket buffers
    allow; when the buffers last, the result is the number delivered.  The list is
    empty again, so what exceeds the budget is lost: it is in neither the FIFO nor the
    list nor delivered, whereas a poll function is meant to leave it for the next
    poll. *)
Theorem poll_fifo_delivery budget d c :
  rx_ok t c -> rx_list (rxqs c t) = [] -> 0 <= budget ->
  exists work out lost d' c' taken new got,
    poll_fifo budget d c = Some (work, out, lost, d', c') /\
    fifo d ++ new = taken ++ fifo d' /\
    Forall2 same_frame got (kept (Z.testbit (rx_bmsk (rxqs c t))) taken) /\
    (exists k, (k <= length got)%nat /\ out = to_skb <$> take k got /\ lost = drop k got /\
       Z.of_nat k <= budget /\
       (k = length got \/ Z.of_nat k = budget \/ alloc_skb k = false) /\
       ((k = length got \/ Z.of_nat k = budget) -> work = Z.of_nat k)) /\
    rx_ok t c' /\ rx_list (rxqs c' t) = [].
Proof.
  intros Hok He Hbud.
  destruct (read_rx_fifo_ok e esize kzalloc t depth depth_32 d c Hok)
    as (n & d1 & c1 & taken & new & got & E & Hdr).
  pose proof Hdr as [D1 D2 D3 D4 D5 D6 D7 D8 D9]. rewrite He in D4. simpl in D4, D5.
  pose proof (list_bound _ _ (rx_list_ok _ _ D7)) as Hbound. rewrite D4 in Hbound.
  unfold TTCAN_MAX_LIST_MEMBERS in Hbound. subst n.
  destruct got as [|g got].
  - unfold poll_fifo. rewrite E. unfold mttcan_read_rcv_list. rewrite D4.
    exists 0, [], [], d1, c1, taken, new, []. split_and!; try done.
    exists 0%nat. split_and!; auto.
  - destruct (rcv_list_spec alloc_skb t (Z.of_nat (length (g :: got))) budget c1) as (k & c2 & Hk & Er & Hwhy & Hle & _ & Hemp & Hbm & Hlok & _).
    { by rewrite D4. } { done. }
    cbv zeta in *. rewrite D4 in Hk, Er, Hwhy.
    unfold poll_fifo. rewrite E, Er.
    do 4 eexists. exists c2, taken, new, (g :: got). split_and!; [reflexivity|done|done| | |done].
    + exists k. split_and!; [done..| |].
      * destruct Hwhy as [?|[?|?]]; auto.
      * intros Hd. replace (bool_decide (k = length (g :: got)) || (budget =? Z.of_nat k)) with true.
        -- rewrite u32_id by (simpl in *; width_lia).
           rewrite s32_id by (simpl in *; width_lia). lia.
        -- symmetry. apply orb_true_iff. destruct Hd as [->|<-]; [left; by apply bool_decide_true|right; by apply Z.eqb_refl].
    + split; [done|]. rewrite Hbm. apply D7.
Qed.
End poll.

(** * An instance: a FIFO of 16 elements with messages in the elements 3 and 4 *)
Definition sim_frame (id : Z) : ttcanfd_frame := mk_frame id 0 0 0 0 (replicate 64 0) 0.
Definition sim_elem : ttcan_mram_elem := mk_elem 0 16.
Definition sim_fifo : list (Z * ttcanfd_frame) := [(3, sim_frame 0x123); (4, sim_frame 0x456)].

(** The state is the number of acknowledged messages. *)
Definition sim_status (d : nat) : Z :=
  match drop d sim_fifo with
  | [] => 0
  | (i, _) :: l => Z.lor (Z.shiftl i 8) (Z.of_nat (S (length l)))
  end.

Definition sim_ram : mram := fun a =>
  if a =? 3 * 72 then Z.shiftl 0x123 18 else if a =? 4 * 72 then Z.shiftl 0x456 18 else 0.

#[local] Instance sim_hw : RxHw nat := {|
  rxfs _ d := sim_status d;
  rxfa _ _ d := S d;
  hw_mram _ := sim_ram
|}.

#[local] Existing Instance iso_lengths.

Lemma sim_cases d :
  drop d sim_fifo = sim_fifo \/ drop d sim_fifo = [(4, sim_frame 0x456)] \/ drop d sim_fifo = [].
Proof. destruct d as [|[|d]]; simpl; auto. right. right. by destruct d. Qed.

Lemma sim_holds i id :
  (i, id) = (3, 0x123) \/ (i, id) = (4, 0x456) -> holds sim_ram (u32 (off sim_elem + i * 72)) (sim_frame id).
Proof.
  intros Hc g Hg. exists 2.
  exists (mk_frame id 0 0 (resv0 g) (resv1 g) (data g) 0).
  split; [|split; try done; simpl; lia].
  by destruct Hc as [[= -> ->]|[= -> ->]].
Qed.

Lemma sim_hw_ok : RxHwOk nat FIFO_0 sim_elem 72 16.
Proof.
  refine {| fifo (d : nat) := drop d sim_fifo |}.
  - intros d. cbn [rxfs sim_hw]. unfold sim_status.
    destruct (sim_cases d) as [->|[->| ->]]; reflexivity.
  - intros d i f l. cbn [rxfs sim_hw]. unfold sim_status.
    destruct (sim_cases d) as [->|[->| ->]]; [intros [= <- <- <-]..|]; done.
  - intros d i f [k Hk]%list_elem_of_lookup. rewrite lookup_drop in Hk.
    destruct (d + k)%nat as [|[|]]; simpl in Hk; simplify_eq; lia.
  - intros d i f [k Hk]%list_elem_of_lookup. rewrite lookup_drop in Hk.
    destruct (d + k)%nat as [|[|]]; simpl in Hk; simplify_eq; apply sim_holds; auto.
  - intros d i f l E. exists []. cbn [rxfa sim_hw]. rewrite app_nil_r.
    rewrite <- Nat.add_1_r, <- drop_drop, E. done.
Defined.

(** Element 3 has been delivered as a high-priority message. *)
Definition sim_ctl : rx_ctl := mk_rx (fun _ => mk_rxq [] 0 8) 0.

Lemma sim_ctl_ok : rx_ok FIFO_0 sim_ctl.
Proof. split; split; done. Qed.

(** Only element 4 is read. *)
Lemma read_rx_fifo_witness :
  rx_ok FIFO_0 sim_ctl /\
  exists n d' c' taken new (got : list ttcanfd_frame),
    ttcan_read_rx_fifo sim_elem 72 (fun _ => true) FIFO_0 0%nat sim_ctl = Some (n, d', c') /\
    sim_fifo ++ new = taken ++ drop d' sim_fifo /\ n = length got.
Proof.
  split; [exact sim_ctl_ok|].
  destruct (@read_rx_fifo_correct iso_lengths nat sim_hw sim_elem 72 (fun _ => true) FIFO_0 16 sim_hw_ok
    ltac:(lia) 0%nat sim_ctl sim_ctl_ok) as (n & d' & c' & taken & new & got & E & Hd).
  exists n, d', c', taken, new, got. split; [exact E|].
  destruct Hd as [Hf _ _ _ Hn _ _ _ _]. split; [exact Hf | exact Hn].
Defined.

(** Nothing taken early, and a budget of one: the second message is lost. *)
Definition sim_ctl0 : rx_ctl := mk_rx (fun _ => mk_rxq [] 0 0) 0.

Lemma poll_fifo_witness :
  rx_ok FIFO_0 sim_ctl0 /\
  exists work out lost d' c',
    poll_fifo sim_elem 72 (fun _ => true) (fun _ => true) FIFO_0 1 0%nat sim_ctl0
      = Some (work, out, lost, d', c') /\ rx_ok FIFO_0 c' /\
    (Z.of_nat (length lost) = 1 /\ drop d' sim_fifo = []).
Proof.
  assert (Hok : rx_ok FIFO_0 sim_ctl0) by (split; split; done).
  split; [exact Hok|].
  destruct (@poll_fifo_delivery iso_lengths nat sim_hw sim_elem 72 (fun _ => true) (fun _ => true)
    FIFO_0 16 sim_hw_ok ltac:(lia) 1 0%nat sim_ctl0 Hok eq_refl ltac:(lia))
    as (work & out & lost & d' & c' & taken & new & got & E & _ & _ & _ & Hc & _).
  exists work, out, lost, d', c'. split; [exact E|]. split; [exact Hc|].
  vm_compute in E. injection E as <- <- <- <- <-. done.
Defined.
