(* ===== verification/MttcanTx.v ===== *)
(** M_TTCAN transmission: drivers/net/can/mttcan/hal/m_ttcan.c (choosing and filling a
    transmit buffer) and native/m_ttcan_linux.c (start, completion, cancellation).

    The driver keeps [tx_object], the set of buffers whose frame has not been accounted
    for, next to the controller's registers for pending, transmitted and cancelled
    requests.  [tx_step] interleaves the driver's functions, each under [tx_lock], with
    the controller finishing requests.  [tx_safe] is the invariant of all executions: a
    reserved buffer holds the frame it was given; and, for a driver that is not in the
    time-triggered mode and cancellations that end one way or the other, every frame is
    accounted for.  Bus-off is not modelled: it clears [tx_object] without the lock and
    leaves the echo buffers. *)
From S2P Require Import Prelude MttcanRam MttcanCfg MttcanRx.

(** * State *)

(** The controller's transmit registers: requests pending, transmissions occurred,
    cancellations finished (one bit for each of 32 buffers). *)
Record tx_hw := mk_txhw { txbrp : Z; txbto : Z; txbcf : Z }.

Record tx_state := mk_tx {
  hw : tx_hw;
  ram : mram;
  tx_object : Z;                        (* unsigned long *)
  tx_obj_cancelled : Z;                 (* unsigned long *)
  tx_buf_dlc : list Z;                  (* u8[32] *)
  echo_skb : Z -> option ttcanfd_frame; (* the kernel's echo buffers *)
  queue_stopped : bool                  (* netif_stop_queue, netif_wake_queue *)
}.

Definition set_hw (h : tx_hw) (s : tx_state) :=
  mk_tx h (ram s) (tx_object s) (tx_obj_cancelled s) (tx_buf_dlc s) (echo_skb s) (queue_stopped s).
Definition set_ram (m : mram) (dlc : list Z) (s : tx_state) :=
  mk_tx (hw s) m (tx_object s) (tx_obj_cancelled s) dlc (echo_skb s) (queue_stopped s).
Definition set_object (o : Z) (s : tx_state) :=
  mk_tx (hw s) (ram s) o (tx_obj_cancelled s) (tx_buf_dlc s) (echo_skb s) (queue_stopped s).
Definition set_cancelled (c : Z) (s : tx_state) :=
  mk_tx (hw s) (ram s) (tx_object s) c (tx_buf_dlc s) (echo_skb s) (queue_stopped s).
Definition set_echo (i : Z) (v : option ttcanfd_frame) (s : tx_state) :=
  mk_tx (hw s) (ram s) (tx_object s) (tx_obj_cancelled s) (tx_buf_dlc s)
    (fun j => if j =? i then v else echo_skb s j) (queue_stopped s).
Definition set_stopped (b : bool) (s : tx_state) :=
  mk_tx (hw s) (ram s) (tx_object s) (tx_obj_cancelled s) (tx_buf_dlc s) (echo_skb s) b.

(** [ffs(x)] for a 32-bit word: one more than the least bit that is set, or 0. *)
Definition ffs (x : Z) : Z :=
  match list_find (fun i => Z.testbit x (Z.of_nat i) = true) (seq 0 32) with
  | Some (_, i) => Z.of_nat i + 1
  | None => 0
  end.

Section tx.
Context `{CanLengths}.
Variable cfg : ttcan_mram_item -> ttcan_mram_elem.
Variable txc : ttcan_txbuff_config.
Variable tx_buffer_size : Z.  (* e_size.tx_buffer *)

(** * Filling a buffer *)
Definition tx_ram_addr (index : Z) : Z := u32 (off (cfg MRAM_TXB) + index * tx_buffer_size).

Definition ttcan_tx_ded_msg_write (f : ttcanfd_frame) (index : Z) (s : tx_state) : option tx_state :=
  match ttcan_write_tx_msg_ram (evt_q_num txc) (tx_ram_addr index) f index (ram s) with
  | None => None
  | Some (_, m) => Some (set_ram m (<[Z.to_nat index := d_len f]> (tx_buf_dlc s)) s)
  end.

(** The number of dedicated buffers shifts an [int]. *)
Definition ttcan_tx_msg_buffer_write (f : ttcanfd_frame) (s : tx_state) : option (Z * tx_state) :=
  if 32 <=? ded_buff_num txc then None else
  let txbrp_free := u32 (Z.lnot (txbrp (hw s))) in
  let txbrp_free := Z.land txbrp_free (u32 (Z.lnot (tx_object s))) in
  let txbrp_free := Z.land txbrp_free (Z.shiftl 1 (ded_buff_num txc) - 1) in
  let msg_no := ffs txbrp_free - 1 in
  if msg_no <? 0 then Some (- ENOMEM, s)
  else
    match ttcan_tx_ded_msg_write f msg_no s with
    | None => None
    | Some s => Some (msg_no, s)
    end.

(** [txfqs] is the value of the register TXFQS. *)
Definition ttcan_tx_fifo_queue_msg (txfqs : Z) (f : ttcanfd_frame) (s : tx_state)
    : option (Z * tx_state) :=
  if negb (get_field txfqs 21 1 =? 0) then Some (- ENOMEM, s)
  else
    let put_idx := get_field txfqs 16 5 in
    if has (tx_object s) (int_bit put_idx) then Some (- ENOMEM, s)
    else
      match ttcan_tx_ded_msg_write f put_idx s with
      | None => None
      | Some s => Some (put_idx, s)
      end.

(** * The controller: a request clears the results of the last one. *)
Definition write_txbar (v : Z) (h : tx_hw) : tx_hw :=
  mk_txhw (Z.lor (txbrp h) v) (Z.ldiff (txbto h) v) (Z.ldiff (txbcf h) v).

Definition ttcan_tx_trigger_msg_transmit (index : Z) (s : tx_state) : tx_state :=
  set_hw (write_txbar (Z.shiftl 1 index) (hw s)) s.

(** * The network device *)
Definition NETDEV_TX_OK := 0.
Definition NETDEV_TX_BUSY := 16.

(** [mttcan_start_xmit] for a valid frame; [tt] is [tt_param[0]]. *)
Definition mttcan_start_xmit (tt : bool) (txfqs : Z) (f : ttcanfd_frame) (s : tx_state)
    : option (Z * tx_state) :=
  match ttcan_tx_msg_buffer_write f s with
  | None => None
  | Some (msg_no, s) =>
      match (if msg_no <? 0 then ttcan_tx_fifo_queue_msg txfqs f s else Some (msg_no, s)) with
      | None => None
      | Some (msg_no, s) =>
          if msg_no <? 0 then Some (NETDEV_TX_BUSY, set_stopped true s)
          else
            let s := set_echo msg_no (Some f) s in
            let s := if tt then s else ttcan_tx_trigger_msg_transmit msg_no s in
            let s := set_object (Z.setbit (tx_object s) msg_no) s in
            let s := set_cancelled (Z.clearbit (tx_obj_cancelled s) msg_no) s in
            Some (NETDEV_TX_OK, s)
      end
  end.

(** [while (completed_tx)]: at most one round for each of 32 bits. *)
Fixpoint complete_loop (fuel : nat) (completed_tx : Z) (s : tx_state) : option tx_state :=
  if completed_tx =? 0 then Some s else
  match fuel with
  | O => None
  | S fuel =>
      let msg_no := ffs completed_tx - 1 in
      let s := set_object (Z.clearbit (tx_object s) msg_no) s in
      let s := set_echo msg_no None s in
      complete_loop fuel (Z.land completed_tx (u32 (Z.lnot (Z.shiftl 1 msg_no)))) s
  end.

Definition mttcan_tx_complete (s : tx_state) : option tx_state :=
  let completed_tx := u32 (Z.land (txbto (hw s)) (tx_object s)) in
  match complete_loop 32 completed_tx s with
  | None => None
  | Some s => Some (if queue_stopped s then set_stopped false s else s)
  end.

Fixpoint cancel_loop (fuel : nat) (cancelled_msg : Z) (s : tx_state) : option tx_state :=
  if cancelled_msg =? 0 then Some s else
  match fuel with
  | O => None
  | S fuel =>
      let msg_no := ffs cancelled_msg - 1 in
      let buff_bit := Z.shiftl 1 msg_no in
      if has (tx_object s) buff_bit then
        let s := set_echo msg_no None s in
        let s := set_object (Z.clearbit (tx_object s) msg_no) s in
        cancel_loop fuel (Z.land cancelled_msg (u32 (Z.lnot buff_bit))) s
      else Some s
  end.

Definition mttcan_tx_cancelled (s : tx_state) : option tx_state :=
  let cancelled_reg := txbcf (hw s) in
  let cancelled_msg := u32 (Z.land (Z.lxor (tx_obj_cancelled s) cancelled_reg)
                              (Z.lnot (tx_obj_cancelled s))) in
  let s := set_cancelled cancelled_reg s in
  let s := if negb (cancelled_msg =? 0) && queue_stopped s then set_stopped false s else s in
  cancel_loop 32 cancelled_msg s.

(** * Executions *)

(** What the documentation says of TXFQS: a FIFO that is full has requests pending in
    its buffers; otherwise the put index is a buffer of the FIFO with no request
    pending.  Without a FIFO the put index is 0. *)
Definition txfqs_ok (s : tx_state) (txfqs : Z) : Prop :=
  let p := get_field txfqs 16 5 in
  if fifo_q_num txc =? 0 then p = 0
  else if get_field txfqs 21 1 =? 0
  then ded_buff_num txc <= p < ded_buff_num txc + fifo_q_num txc /\
       Z.testbit (txbrp (hw s)) p = false
  else Z.testbit (txbrp (hw s)) (ded_buff_num txc) = true.

(** The part of [mttcan_close] that concerns transmission: the controller's registers are
    cleared by the configuration mode that [mttcan_stop] enters, close_candev frees the echo buffers. *)
Definition mttcan_close (s : tx_state) : tx_state :=
  mk_tx (mk_txhw 0 0 0) (ram s) 0 (tx_obj_cancelled s) (tx_buf_dlc s) (fun _ => None) true.

(** [mttcan_open]; [m] is what the message RAM holds after the power-up. *)
Definition mttcan_open (m : mram) (s : tx_state) : tx_state :=
  set_stopped false (set_ram m (tx_buf_dlc s) s).

(** A step of the driver, or of the controller: a pending request is transmitted, or
    its cancellation finishes.  With [strict] false also what the accounting of the
    driver does not follow ([idle_cancel_strands_buffer]): the time-triggered mode, in
    which a frame is sent without a request; a cancellation, by way of sysfs, of a buffer
    without a request, which finishes at once; and a transmission that succeeds although
    it was cancelled, after which the controller shows both results. *)
Inductive tx_step (strict : bool) : tx_state -> tx_state -> Prop :=
| step_xmit s s' tt txfqs f ret :
    (strict = true -> tt = false) ->
    frame_wf f -> 8 + round4 (d_len f) <= tx_buffer_size -> txfqs_ok s txfqs ->
    mttcan_start_xmit tt txfqs f s = Some (ret, s') -> tx_step strict s s'
| step_complete s s' : mttcan_tx_complete s = Some s' -> tx_step strict s s'
| step_cancelled s s' : mttcan_tx_cancelled s = Some s' -> tx_step strict s s'
| step_reopen s m : tx_step strict s (mttcan_open m (mttcan_close s))
| step_sent s i :
    0 <= i < 32 ->
    Z.testbit (txbrp (hw s)) i = true \/ (strict = false /\ Z.testbit (tx_object s) i = true) ->
    tx_step strict s
      (set_hw (mk_txhw (Z.clearbit (txbrp (hw s)) i) (Z.setbit (txbto (hw s)) i) (txbcf (hw s))) s)
| step_cancel s i :
    0 <= i < 32 -> Z.testbit (txbrp (hw s)) i = true \/ strict = false ->
    tx_step strict s
      (set_hw (mk_txhw (Z.clearbit (txbrp (hw s)) i) (txbto (hw s)) (Z.setbit (txbcf (hw s)) i)) s)
| step_sent_cancelled s i :
    0 <= i < 32 -> strict = false -> Z.testbit (txbrp (hw s)) i = true ->
    tx_step strict s
      (set_hw (mk_txhw (Z.clearbit (txbrp (hw s)) i) (Z.setbit (txbto (hw s)) i)
                 (Z.setbit (txbcf (hw s)) i)) s).

(** After the device is opened. *)
Definition tx_initial (m : mram) : tx_state :=
  mk_tx (mk_txhw 0 0 0) m 0 0 (replicate 32 0) (fun _ => None) false.
End tx.

(** * Words as sets of bits *)
Lemma u32_bits x : is_u32 x <-> 0 <= x /\ forall i, 32 <= i -> Z.testbit x i = false.
Proof.
  unfold is_u32. split.
  - intros Hx. split; [lia|]. intros i Hi. rewrite <- (Z.mod_small x (2 ^ 32)) by done.
    by apply Z.mod_pow2_bits_high; lia.
  - intros [Hp Hi]. split; [done|]. destruct (Z.eq_dec x 0) as [->|Hne]; [lia|].
    apply Z.log2_lt_pow2; [lia|]. destruct (Z.lt_ge_cases (Z.log2 x) 32) as [|Hge]; [done|].
    pose proof (Z.bit_log2 x ltac:(lia)) as Hb. by rewrite Hi in Hb.
Qed.

Lemma u32_testbit x i : 0 <= i -> Z.testbit (u32 x) i = Z.testbit x i && (i <? 32).
Proof.
  intros Hi. unfold u32. destruct (Z.ltb_spec i 32).
  - rewrite Z.mod_pow2_bits_low by lia. by rewrite andb_true_r.
  - rewrite Z.mod_pow2_bits_high by lia. by rewrite andb_false_r.
Qed.

Lemma setbit_u32 x i : is_u32 x -> 0 <= i < 32 -> is_u32 (Z.setbit x i).
Proof.
  rewrite !u32_bits. intros [Hx Hb] Hi. split.
  - unfold Z.setbit. apply Z.lor_nonneg. split; [done|]. rewrite Z.shiftl_mul_pow2 by lia.
    pose proof (Z.pow_pos_nonneg 2 i). lia.
  - intros j Hj. rewrite Z.setbit_neq by lia. auto.
Qed.

Lemma clearbit_u32 x i : is_u32 x -> 0 <= i -> is_u32 (Z.clearbit x i).
Proof.
  rewrite !u32_bits. intros [Hx Hb] Hi. split.
  - unfold Z.clearbit. apply Z.ldiff_nonneg. by left.
  - intros j Hj. destruct (Z.eq_dec i j) as [->|]; [by rewrite Z.clearbit_eq|].
    rewrite Z.clearbit_neq by lia. auto.
Qed.

Lemma setbit_spec x i j : 0 <= i -> 0 <= j -> Z.testbit (Z.setbit x i) j = Z.testbit x j || (j =? i).
Proof.
  intros. rewrite Z.setbit_eqb by lia. rewrite orb_comm. f_equal. apply Z.eqb_sym.
Qed.

Lemma clearbit_spec x i j :
  0 <= i -> 0 <= j -> Z.testbit (Z.clearbit x i) j = Z.testbit x j && negb (j =? i).
Proof. intros. rewrite Z.clearbit_eqb by lia. do 2 f_equal. apply Z.eqb_sym. Qed.

Lemma shiftl_1_testbit i j : 0 <= i -> 0 <= j -> Z.testbit (Z.shiftl 1 i) j = (j =? i).
Proof. intros. rewrite Z.shiftl_1_l, Z.pow2_bits_eqb by lia. apply Z.eqb_sym. Qed.

Lemma drop_bit x i j : 0 <= i -> 0 <= j < 32 ->
  Z.testbit (Z.land x (u32 (Z.lnot (Z.shiftl 1 i)))) j = Z.testbit x j && negb (j =? i).
Proof.
  intros Hi Hj. rewrite Z.land_spec, u32_testbit, Z.lnot_spec, shiftl_1_testbit by lia.
  rewrite (proj2 (Z.ltb_lt j 32)) by lia. by rewrite andb_true_r.
Qed.

Lemma land_u32 x y : is_u32 x -> is_u32 (Z.land x y).
Proof.
  rewrite !u32_bits. intros [Hx Hb]. split; [apply Z.land_nonneg; by left|].
  intros i Hi. by rewrite Z.land_spec, Hb.
Qed.

Lemma nonzero_bit x : is_u32 x -> x <> 0 -> exists i, 0 <= i < 32 /\ Z.testbit x i = true.
Proof.
  intros Hx Hne. exists (Z.log2 x). pose proof Hx as [Hp Hb]%u32_bits.
  assert (Hbit : Z.testbit x (Z.log2 x) = true) by (apply Z.bit_log2; lia).
  split; [|done]. split; [apply Z.log2_nonneg|].
  destruct (Z.lt_ge_cases (Z.log2 x) 32); [done|]. by rewrite Hb in Hbit.
Qed.

Lemma ffs_spec x : is_u32 x -> x <> 0 ->
  0 <= ffs x - 1 < 32 /\ Z.testbit x (ffs x - 1) = true /\
  forall j, 0 <= j < ffs x - 1 -> Z.testbit x j = false.
Proof.
  intros Hx Hne. unfold ffs.
  destruct (list_find _ (seq 0 32)) as [[k i]|] eqn:E.
  - apply list_find_Some in E as (Hk & Hb & Hlt). apply lookup_seq in Hk as [-> Hk].
    rewrite Z.add_simpl_r. split; [lia|]. split; [done|]. intros j Hj.
    destruct (Z.testbit x j) eqn:Ej; [|done].
    destruct (Hlt (Z.to_nat j) (Z.to_nat j)); [apply lookup_seq; lia|lia|].
    by rewrite Z2Nat.id by lia.
  - apply list_find_None in E. destruct (nonzero_bit x Hx Hne) as (i & Hi & Hb).
    rewrite Forall_forall in E. destruct (E (Z.to_nat i)).
    + apply elem_of_seq. lia.
    + by rewrite Z2Nat.id by lia.
Qed.

Lemma ffs_0 : ffs 0 = 0.
Proof. reflexivity. Qed.

(** * Releasing buffers *)

(** The buffers in [x] are released, and nothing else changes. *)
Record released (x : Z) (s s' : tx_state) : Prop := {
  rl_hw : hw s' = hw s;
  rl_ram : ram s' = ram s;
  rl_canc : tx_obj_cancelled s' = tx_obj_cancelled s;
  rl_stop : queue_stopped s' = queue_stopped s;
  rl_u32 : is_u32 (tx_object s) -> is_u32 (tx_object s');
  rl_obj i : 0 <= i < 32 -> Z.testbit (tx_object s') i = Z.testbit (tx_object s) i && negb (Z.testbit x i);
  rl_echo i : 0 <= i < 32 -> echo_skb s' i = if Z.testbit x i then None else echo_skb s i
}.

Lemma released_0 s : released 0 s s.
Proof. split; try done; intros; rewrite Z.testbit_0_l; [by rewrite andb_true_r|done]. Qed.

Lemma released_step x i s s1 s' :
  0 <= i < 32 -> Z.testbit x i = true ->
  hw s1 = hw s -> ram s1 = ram s -> tx_obj_cancelled s1 = tx_obj_cancelled s ->
  queue_stopped s1 = queue_stopped s -> tx_object s1 = Z.clearbit (tx_object s) i ->
  echo_skb s1 = (fun j => if j =? i then None else echo_skb s j) ->
  released (Z.land x (u32 (Z.lnot (Z.shiftl 1 i)))) s1 s' -> released x s s'.
Proof.
  intros Hi Hx Eh Er Ec Es Eo Ee [R1 R2 R3 R4 R5 R6 R7]. split; try congruence.
  - intros Hu. apply R5. rewrite Eo. apply clearbit_u32; [done|lia].
  - intros j Hj. rewrite R6, Eo, clearbit_spec, drop_bit by lia.
    destruct (Z.eqb_spec j i) as [->|]; simpl.
    + rewrite Hx, !andb_false_r. done.
    + by rewrite !andb_true_r.
  - intros j Hj. rewrite R7, Ee, drop_bit by lia.
    destruct (Z.eqb_spec j i) as [->|]; simpl; [by rewrite Hx, andb_false_r|].
    by rewrite andb_true_r.
Qed.

(** The rounds left are enough for the bits left. *)
Lemma rest_above x fuel :
  is_u32 x -> x <> 0 -> (forall j, 0 <= j < 32 - Z.of_nat (S fuel) -> Z.testbit x j = false) ->
  forall j, 0 <= j < 32 - Z.of_nat fuel ->
    Z.testbit (Z.land x (u32 (Z.lnot (Z.shiftl 1 (ffs x - 1))))) j = false.
Proof.
  intros Hx Hne Hlow j Hj. destruct (ffs_spec x Hx Hne) as (Hr & Hb & Hleast).
  rewrite drop_bit by lia. destruct (Z.eqb_spec j (ffs x - 1)) as [|Hn]; [apply andb_false_r|].
  rewrite andb_true_r. destruct (Z.lt_ge_cases j (ffs x - 1)) as [?|?]; [apply Hleast; lia|].
  assert (32 - Z.of_nat (S fuel) <= ffs x - 1).
  { destruct (Z.lt_ge_cases (ffs x - 1) (32 - Z.of_nat (S fuel))) as [?|?]; [|done].
    rewrite Hlow in Hb; [done|lia]. }
  lia.
Qed.

Lemma no_bits x : is_u32 x -> (forall j, 0 <= j < 32 -> Z.testbit x j = false) -> x = 0.
Proof.
  intros Hx Hb. destruct (Z.eq_dec x 0) as [?|Hne]; [done|].
  destruct (nonzero_bit x Hx Hne) as (i & Hi & E). by rewrite Hb in E.
Qed.

Lemma complete_loop_spec fuel : forall x s,
  is_u32 x -> (forall j, 0 <= j < 32 - Z.of_nat fuel -> Z.testbit x j = false) ->
  exists s', complete_loop fuel x s = Some s' /\ released x s s'.
Proof.
  induction fuel as [|fuel IH]; intros x s Hx Hlow; simpl;
    destruct (Z.eqb_spec x 0) as [->|Hne]; try (exists s; split; [done|apply released_0]).
  - by rewrite (no_bits x Hx) in Hne by (intros; apply Hlow; lia).
  - destruct (ffs_spec x Hx Hne) as (Hr & Hb & _).
    edestruct IH as (s' & -> & Hrel); [apply (land_u32 x _ Hx)|apply rest_above; eauto|].
    exists s'. split; [done|]. eapply (released_step x (ffs x - 1)); [exact Hr|exact Hb|..|exact Hrel]; reflexivity.
Qed.

Lemma released_ext x y s s' :
  (forall i, 0 <= i < 32 -> Z.testbit x i = Z.testbit y i) -> released x s s' -> released y s s'.
Proof.
  intros E [R1 R2 R3 R4 R5 R6 R7]. split; try done; intros i Hi; rewrite <- E by done; auto.
Qed.

(** The cancellation loop stops at a buffer that is not reserved: what it releases is
    among the cancelled buffers, and is all of them if all are reserved. *)
Lemma cancel_loop_spec fuel : forall x s,
  is_u32 x -> (forall j, 0 <= j < 32 - Z.of_nat fuel -> Z.testbit x j = false) ->
  is_u32 (tx_object s) ->
  exists y s', cancel_loop fuel x s = Some s' /\ released y s s' /\
    (forall j, 0 <= j < 32 -> Z.testbit y j = true -> Z.testbit x j = true) /\
    ((forall j, 0 <= j < 32 -> Z.testbit x j = true -> Z.testbit (tx_object s) j = true) ->
     forall j, 0 <= j < 32 -> Z.testbit y j = Z.testbit x j).
Proof.
  induction fuel as [|fuel IH]; intros x s Hx Hlow Hu; simpl;
    (destruct (Z.eqb_spec x 0) as [->|Hne]; [exists 0, s; split_and!; [done|apply released_0|done..]|]).
  - by rewrite (no_bits x Hx) in Hne by (intros; apply Hlow; lia).
  - destruct (ffs_spec x Hx Hne) as (Hr & Hb & _). set (i := ffs x - 1) in *.
    rewrite Z.shiftl_1_l, has_pow2 by (done || lia). rewrite <- Z.shiftl_1_l.
    destruct (Z.testbit (tx_object s) i) eqn:Eo.
    2:{ exists 0, s. split_and!; [done|apply released_0|by intros j _; rewrite Z.testbit_0_l|].
        intros Hall. rewrite Hall in Eo; done. }
    edestruct (IH (Z.land x (u32 (Z.lnot (Z.shiftl 1 i)))) (set_object (Z.clearbit (tx_object s) i) (set_echo i None s)))
      as (y & s' & -> & Hrel & Hsub & Hall);
      [apply (land_u32 x _ Hx)|by apply rest_above|simpl; apply clearbit_u32; [done|lia]|].
    assert (Hyi : Z.testbit y i = false).
    { destruct (Z.testbit y i) eqn:Ey; [|done]. apply Hsub in Ey; [|done].
      by rewrite drop_bit, Z.eqb_refl, andb_false_r in Ey by lia. }
    exists (Z.setbit y i), s'. split_and!; [done| | |].
    + eapply (released_step (Z.setbit y i) i); [exact Hr| |..|eapply released_ext; [|exact Hrel]];
        try reflexivity; [by rewrite setbit_spec, Z.eqb_refl, orb_true_r by lia|].
      intros j Hj. rewrite drop_bit, setbit_spec by lia.
      destruct (Z.eqb_spec j i) as [->|]; [by rewrite andb_false_r|by rewrite orb_false_r, andb_true_r].
    + intros j Hj. rewrite setbit_spec by lia. destruct (Z.eqb_spec j i) as [->|]; [done|].
      rewrite orb_false_r. intros Hy%Hsub; [|done]. rewrite drop_bit in Hy by lia.
      by apply andb_true_iff in Hy as [? _].
    + intros Hres j Hj. rewrite setbit_spec by lia. destruct (Z.eqb_spec j i) as [->|Hji].
      { by rewrite orb_true_r, Hb. }
      rewrite orb_false_r, Hall by
        (done || (intros k Hk; simpl; rewrite drop_bit, clearbit_spec by lia;
          intros [Hxk ->]%andb_true_iff; rewrite andb_true_r; auto)).
      rewrite drop_bit by lia. by rewrite (proj2 (Z.eqb_neq _ _) Hji), andb_true_r.
Qed.

#[local] Arguments ttcan_write_tx_msg_ram : simpl never.
#[local] Arguments ttcan_tx_ded_msg_write : simpl never.
#[local] Arguments get_field : simpl never.

(** * The invariant *)
Section inv.
Context `{CanLengths}.
Variable cfg : ttcan_mram_item -> ttcan_mram_elem.
Variable txc : ttcan_txbuff_config.
Variable size : Z.

(** A configuration that [ttcan_mesg_ram_config] accepts, with at least one buffer and
    fewer than 32 dedicated ones. *)
Record tx_cfg_ok : Prop := {
  cfg_ded : 0 <= ded_buff_num txc < 32;
  cfg_fifo : 0 <= fifo_q_num txc;
  cfg_sum : 0 < ded_buff_num txc + fifo_q_num txc <= 32;
  cfg_off : is_u16 (off (cfg MRAM_TXB));
  cfg_size : 8 <= size < 2 ^ 16
}.
Hypothesis config : tx_cfg_ok.

(** The element of buffer [i] holds the frame [f]. *)
Record elem_holds (m : mram) (i : Z) (f : ttcanfd_frame) : Prop := {
  eh_wf : frame_wf f;
  eh_fits : 8 + round4 (d_len f) <= size;
  eh_t0 : m (tx_ram_addr cfg size i) = t0_word f;
  eh_t1 : m (tx_ram_addr cfg size i + 4) = t1_word (evt_q_num txc) f i;
  eh_data k : 0 <= k < d_len f -> ram_byte m (tx_ram_addr cfg size i + 8) k = byte f k
}.

Lemma addr_eq i : 0 <= i < 32 -> tx_ram_addr cfg size i = off (cfg MRAM_TXB) + i * size.
Proof.
  intros Hi. destruct config as [_ _ _ Ho Hs]. unfold tx_ram_addr, is_u16 in *.
  change (2 ^ 16) with 65536 in *. apply u32_id. unfold is_u32. change (2 ^ 32) with 4294967296.
  assert (0 <= i * size <= 31 * 65536) by (split; [lia|apply Z.mul_le_mono_nonneg; lia]). lia.
Qed.

Lemma write_elem f i s :
  frame_wf f -> 8 + round4 (d_len f) <= size -> 0 <= i < 32 ->
  exists m dlc, ttcan_tx_ded_msg_write cfg txc size f i s = Some (set_ram m dlc s) /\
    elem_holds m i f /\
    forall j g, 0 <= j < 32 -> j <> i -> elem_holds (ram s) j g -> elem_holds m j g.
Proof.
  intros Hf Hfit Hi. unfold ttcan_tx_ded_msg_write.
  destruct (write_bytes (evt_q_num txc) (tx_ram_addr cfg size i) f i (ram s) Hf)
    as (m & -> & H0' & H1' & Hx & Hb).
  eexists m, _. split; [done|]. split.
  - split; try done. intros k Hk. rewrite Hb by lia. by rewrite (proj2 (Z.ltb_lt _ _)) by lia.
  - intros j g Hj Hne [Gw Gf G0 G1 Gd].
    assert (Hapart : forall x, 0 <= x < 8 + round4 (d_len g) ->
      m (tx_ram_addr cfg size j + x) = ram s (tx_ram_addr cfg size j + x)).
    { intros x Hxr. apply Hx. rewrite !addr_eq by done.
      assert (Hc : j + 1 <= i \/ i + 1 <= j) by lia.
      destruct Hc as [Hc|Hc]; apply (Z.mul_le_mono_nonneg_r _ _ size) in Hc; lia. }
    pose proof (wf_len _ Gw) as Hlen.
    assert (0 <= round4 (d_len g)) by (unfold round4; Z.div_mod_to_equations; lia).
    split; try done.
    + rewrite <- G0. replace (tx_ram_addr cfg size j) with (tx_ram_addr cfg size j + 0) by lia.
      apply Hapart. lia.
    + rewrite <- G1. apply Hapart. lia.
    + intros k Hk. rewrite <- (Gd k Hk). unfold ram_byte. do 2 f_equal.
      rewrite <- !Z.add_assoc. apply Hapart. unfold round4. Z.div_mod_to_equations. lia.
Qed.

(** The invariant, buffer by buffer. *)
Record buf_inv (s : tx_state) (i : Z) : Prop := {
  bi_pend : Z.testbit (txbrp (hw s)) i = true ->
    Z.testbit (tx_object s) i = true /\ Z.testbit (txbto (hw s)) i = false /\
    Z.testbit (txbcf (hw s)) i = false /\ Z.testbit (tx_obj_cancelled s) i = false;
  bi_held : Z.testbit (tx_object s) i = true ->
    i < ded_buff_num txc + fifo_q_num txc /\ exists f, echo_skb s i = Some f /\ elem_holds (ram s) i f;
  bi_free : Z.testbit (tx_object s) i = false -> echo_skb s i = None
}.

Record tx_inv (s : tx_state) : Prop := {
  ti_u32 : is_u32 (tx_object s);
  ti_buf i : 0 <= i < 32 -> buf_inv s i;
  ti_stop : queue_stopped s = true -> exists i, 0 <= i < 32 /\ Z.testbit (tx_object s) i = true
}.

(** The accounting: the result of every reserved buffer is to come, or there to be seen. *)
Record buf_acc (s : tx_state) (i : Z) : Prop := {
  ba_track : Z.testbit (tx_object s) i = true ->
    Z.testbit (txbrp (hw s)) i = true \/ Z.testbit (txbto (hw s)) i = true \/
    (Z.testbit (txbcf (hw s)) i = true /\ Z.testbit (tx_obj_cancelled s) i = false);
  ba_new : Z.testbit (txbcf (hw s)) i = true -> Z.testbit (tx_obj_cancelled s) i = false ->
    Z.testbit (tx_object s) i = true;
  ba_excl : Z.testbit (txbto (hw s)) i = true -> Z.testbit (txbcf (hw s)) i = false
}.
Definition accounted (s : tx_state) : Prop := forall i, 0 <= i < 32 -> buf_acc s i.

Lemma inv_initial m : tx_inv (tx_initial m) /\ accounted (tx_initial m).
Proof.
  split; [split; [by split| |done]|]; intros i Hi; split; simpl; rewrite ?Z.testbit_0_l; done.
Qed.

Lemma inv_reopen m s : tx_inv (mttcan_open m (mttcan_close s)) /\ accounted (mttcan_open m (mttcan_close s)).
Proof.
  split; [split; [by split| |done]|]; intros i Hi; split; simpl; rewrite ?Z.testbit_0_l; done.
Qed.

(** ** Starting a transmission *)

(** The state after a frame has been put into buffer [i]. *)
Definition xmit_ok (tt : bool) (i : Z) (f : ttcanfd_frame) (s s' : tx_state) : Prop :=
  0 <= i < ded_buff_num txc + fifo_q_num txc /\
  Z.testbit (txbrp (hw s)) i = false /\ Z.testbit (tx_object s) i = false /\
  exists m dlc, elem_holds m i f /\
    (forall j g, 0 <= j < 32 -> j <> i -> elem_holds (ram s) j g -> elem_holds m j g) /\
    s' = mk_tx (if tt then hw s else write_txbar (Z.shiftl 1 i) (hw s)) m (Z.setbit (tx_object s) i)
           (Z.clearbit (tx_obj_cancelled s) i) dlc
           (fun j => if j =? i then Some f else echo_skb s j) (queue_stopped s).

Lemma msg_buffer_spec f s :
  is_u32 (tx_object s) -> frame_wf f -> 8 + round4 (d_len f) <= size ->
  (ttcan_tx_msg_buffer_write cfg txc size f s = Some (- ENOMEM, s) /\
   forall i, 0 <= i < ded_buff_num txc ->
     Z.testbit (txbrp (hw s)) i = true \/ Z.testbit (tx_object s) i = true) \/
  exists i m dlc, 0 <= i < ded_buff_num txc /\
    Z.testbit (txbrp (hw s)) i = false /\ Z.testbit (tx_object s) i = false /\
    ttcan_tx_msg_buffer_write cfg txc size f s = Some (i, set_ram m dlc s) /\
    elem_holds m i f /\
    forall j g, 0 <= j < 32 -> j <> i -> elem_holds (ram s) j g -> elem_holds m j g.
Proof.
  intros Hu Hf Hfit. destruct config as [Hded _ _ _ _]. unfold ttcan_tx_msg_buffer_write.
  rewrite (proj2 (Z.leb_gt 32 (ded_buff_num txc))) by lia. cbv zeta.
  set (free := Z.land (Z.land _ _) _).
  assert (Hfree : forall i, 0 <= i < 32 -> Z.testbit free i =
    negb (Z.testbit (txbrp (hw s)) i) && negb (Z.testbit (tx_object s) i) && (i <? ded_buff_num txc)).
  { intros i Hi. unfold free. rewrite !Z.land_spec, !u32_testbit, !Z.lnot_spec by lia.
    rewrite (proj2 (Z.ltb_lt i 32)), !andb_true_r by lia. f_equal.
    rewrite Z.shiftl_1_l, Z.sub_1_r, <- Z.ones_equiv.
    destruct (Z.ltb_spec i (ded_buff_num txc)); [by rewrite Z.ones_spec_low by lia|].
    by rewrite Z.ones_spec_high by lia. }
  assert (Hfu : is_u32 free) by (unfold free; do 2 apply land_u32; apply u32_range).
  destruct (Z.eq_dec free 0) as [E|Hne].
  - left. rewrite E, ffs_0. split; [done|]. intros i Hi. specialize (Hfree i ltac:(lia)).
    rewrite E, Z.testbit_0_l, (proj2 (Z.ltb_lt i _)), andb_true_r in Hfree by lia.
    destruct (Z.testbit (txbrp (hw s)) i), (Z.testbit (tx_object s) i); auto.
  - right. destruct (ffs_spec free Hfu Hne) as (Hr & Hb & _).
    rewrite Hfree in Hb by done. apply andb_true_iff in Hb as [[Hp Ho]%andb_true_iff Hd].
    apply negb_true_iff in Hp, Ho. apply Z.ltb_lt in Hd.
    rewrite (proj2 (Z.ltb_ge (ffs free - 1) 0)) by lia.
    destruct (write_elem f (ffs free - 1) s Hf Hfit Hr) as (m & dlc & -> & Hm & Hoth).
    exists (ffs free - 1), m, dlc. split_and!; try done; lia.
Qed.

Lemma object_bmsk o : is_u32 o -> bmsk_wf o.
Proof.
  intros Ho. unfold is_u32 in Ho. split; [width_lia|]. intros Hne.
  by rewrite Z.div_small in Hne by lia.
Qed.

Lemma start_xmit_spec tt txfqs f s :
  tx_inv s -> frame_wf f -> 8 + round4 (d_len f) <= size -> txfqs_ok txc s txfqs ->
  exists ret s', mttcan_start_xmit cfg txc size tt txfqs f s = Some (ret, s') /\
    (ret = NETDEV_TX_BUSY /\ s' = set_stopped true s /\
       (exists i, 0 <= i < 32 /\ Z.testbit (tx_object s) i = true) \/
     ret = NETDEV_TX_OK /\ exists i, xmit_ok tt i f s s').
Proof.
  intros Hinv Hf Hfit Hq. pose proof Hinv as [Hu Hbuf _]. pose proof config as [Hded Hfifo Hsum _ _].
  assert (Hres : forall i, 0 <= i < 32 -> Z.testbit (txbrp (hw s)) i = true \/ Z.testbit (tx_object s) i = true ->
    Z.testbit (tx_object s) i = true).
  { intros i Hi [Hp|?]; [|done]. by apply (bi_pend _ _ (Hbuf i Hi)). }
  unfold mttcan_start_xmit.
  destruct (msg_buffer_spec f s Hu Hf Hfit) as [[-> Hall]|(i & m & dlc & Hi & Hp & Ho & -> & Hm & Hoth)].
  - change (- ENOMEM <? 0) with true. cbv iota. unfold ttcan_tx_fifo_queue_msg.
    assert (Hded0 : 0 < ded_buff_num txc -> exists i, 0 <= i < 32 /\ Z.testbit (tx_object s) i = true).
    { intros Hd. exists 0. split; [lia|]. apply Hres; [lia|]. apply Hall. lia. }
    set (p := get_field txfqs 16 5) in *. unfold txfqs_ok in Hq. fold p in Hq. cbv zeta in Hq.
    destruct (get_field txfqs 21 1 =? 0) eqn:Efull; cbn [negb].
    + assert (Hpr : 0 <= p < 32 /\ p < ded_buff_num txc + fifo_q_num txc).
      { destruct (fifo_q_num txc =? 0); [subst p; lia|]. lia. }
      rewrite has_int_bit by (try apply object_bmsk; done || lia).
      destruct (Z.testbit (tx_object s) p) eqn:Eo.
      * change (- ENOMEM <? 0) with true. cbv iota. eexists _, _. split; [done|]. left. split_and!; [done..|]. exists p. auto with lia.
      * destruct (write_elem f p s Hf Hfit ltac:(lia)) as (m & dlc & -> & Hm & Hoth).
        rewrite (proj2 (Z.ltb_ge p 0)) by lia. eexists _, _. split; [reflexivity|]. right.
        split; [done|]. exists p. split; [lia|]. split.
        { destruct (fifo_q_num txc =? 0) eqn:Ef; zb; [|tauto].
          destruct (Z.testbit (txbrp (hw s)) p) eqn:Ep; [|done].
          apply (bi_pend _ _ (Hbuf p ltac:(lia))) in Ep as [Ep _]. congruence. }
        split; [done|]. exists m, dlc. by destruct tt.
    + change (- ENOMEM <? 0) with true. cbv iota.
      eexists _, _. split; [done|]. left. split_and!; [done..|].
      destruct (fifo_q_num txc =? 0) eqn:Ef; zb; [apply Hded0; lia|].
      exists (ded_buff_num txc). split; [lia|]. apply Hres; [lia|]. by left.
  - rewrite (proj2 (Z.ltb_ge i 0)) by lia. cbv iota. rewrite (proj2 (Z.ltb_ge i 0)) by lia.
    eexists _, _. split; [reflexivity|]. right. split; [done|]. exists i.
    split; [lia|]. split; [done|]. split; [done|]. exists m, dlc. by destruct tt.
Qed.

(** ** Preservation *)
Lemma txbar_bits i h j :
  0 <= i < 32 -> 0 <= j < 32 ->
  Z.testbit (txbrp (write_txbar (Z.shiftl 1 i) h)) j = Z.testbit (txbrp h) j || (j =? i) /\
  Z.testbit (txbto (write_txbar (Z.shiftl 1 i) h)) j = Z.testbit (txbto h) j && negb (j =? i) /\
  Z.testbit (txbcf (write_txbar (Z.shiftl 1 i) h)) j = Z.testbit (txbcf h) j && negb (j =? i).
Proof.
  intros Hi Hj. simpl. by rewrite Z.lor_spec, !Z.ldiff_spec, shiftl_1_testbit by lia.
Qed.

Lemma inv_xmit tt i f s s' : tx_inv s -> xmit_ok tt i f s s' -> tx_inv s'.
Proof.
  intros [Hu Hbuf Hst] (Hi & Hp & Ho & m & dlc & Hm & Hoth & ->).
  pose proof config as [_ _ Hsum _ _].
  split; cbn [tx_object queue_stopped].
  - apply setbit_u32; [done|lia].
  - intros j Hj. destruct (txbar_bits i (hw s) j ltac:(lia) Hj) as (B1 & B2 & B3).
    destruct (Hbuf j Hj) as [P T E].
    split; cbn [hw ram tx_object tx_obj_cancelled echo_skb];
      rewrite ?setbit_spec, ?clearbit_spec by lia;
      (destruct (Z.eqb_spec j i) as [->|Hne]; simpl; rewrite ?orb_true_r, ?orb_false_r, ?andb_false_r, ?andb_true_r).
    + destruct tt; [by rewrite Hp|]. rewrite B1, B2, B3. cbn [negb]. by rewrite !andb_false_r.
    + destruct tt; [done|]. rewrite B1, B2, B3. cbn [negb]. by rewrite orb_false_r, !andb_true_r.
    + intros _. split; [lia|]. by exists f.
    + intros Hb. destruct (T Hb) as (? & g & Hg & Hgm). split; [done|]. exists g. auto.
    + done.
    + exact E.
  - intros _. exists i. split; [lia|]. rewrite setbit_spec, Z.eqb_refl, orb_true_r by lia. done.
Qed.

Lemma acc_xmit i f s s' : accounted s -> xmit_ok false i f s s' -> accounted s'.
Proof.
  intros Ha (Hi & Hp & Ho & m & dlc & Hm & Hoth & ->) j Hj. pose proof config as [_ _ Hsum _ _].
  destruct (txbar_bits i (hw s) j ltac:(lia) Hj) as (B1 & B2 & B3). destruct (Ha j Hj) as [T N X].
  split; cbn [hw ram tx_object tx_obj_cancelled echo_skb]; rewrite ?B1, ?B2, ?B3,
    ?setbit_spec, ?clearbit_spec by lia;
    (destruct (Z.eqb_spec j i) as [->|Hne]; simpl; rewrite ?orb_true_r, ?orb_false_r, ?andb_false_r, ?andb_true_r);
    auto; done.
Qed.

(** Releasing buffers without a request. *)
Lemma inv_released x s0 s s' :
  (forall i, 0 <= i < 32 -> buf_inv s0 i) -> is_u32 (tx_object s0) ->
  hw s = hw s0 -> ram s = ram s0 -> tx_object s = tx_object s0 -> echo_skb s = echo_skb s0 ->
  (forall i, 0 <= i < 32 -> Z.testbit x i = true -> Z.testbit (txbrp (hw s0)) i = false) ->
  (forall i, 0 <= i < 32 -> Z.testbit (txbrp (hw s0)) i = true -> Z.testbit (tx_obj_cancelled s) i = false) ->
  released x s s' ->
  is_u32 (tx_object s') /\ forall i, 0 <= i < 32 -> buf_inv s' i.
Proof.
  intros Hbuf Hu Eh Er Eo Ee Hx Hc [R1 R2 R3 R4 R5 R6 R7]. rewrite Eo in *. split; [auto|].
  intros i Hi. destruct (Hbuf i Hi) as [P T E].
  specialize (Hx i Hi). specialize (Hc i Hi). specialize (R6 i Hi). specialize (R7 i Hi).
  split; rewrite ?R1, ?Eh, ?R3, ?R6, ?R7, ?R2, ?Er, ?Ee.
  - intros Hb. destruct (P Hb) as (Pob & Pto & Pcf & Pcc).
    destruct (Z.testbit x i) eqn:Ex; [rewrite Hx in Hb; done|].
    rewrite Pob. split_and!; auto.
  - intros [Hb ->%negb_true_iff]%andb_true_iff. auto.
  - destruct (Z.testbit x i); [done|]. rewrite andb_true_r. auto.
Qed.

(** Releasing buffers whose result has been seen. *)
Lemma acc_released x s0 s s' :
  accounted s0 -> hw s = hw s0 -> tx_object s = tx_object s0 ->
  (forall i, 0 <= i < 32 -> Z.testbit x i = true ->
     Z.testbit (txbcf (hw s0)) i = true -> Z.testbit (tx_obj_cancelled s) i = false -> False) ->
  (forall i, 0 <= i < 32 ->
     (Z.testbit x i = false -> Z.testbit (txbto (hw s0)) i = false ->
      Z.testbit (txbcf (hw s0)) i = true -> Z.testbit (tx_obj_cancelled s0) i = false ->
      Z.testbit (tx_obj_cancelled s) i = false) /\
     (Z.testbit (txbcf (hw s0)) i = true -> Z.testbit (tx_obj_cancelled s) i = false ->
      Z.testbit (tx_obj_cancelled s0) i = false)) ->
  released x s s' -> accounted s'.
Proof.
  intros Ha Eh Eo Hx Hc [R1 _ R3 _ _ R6 _] i Hi. rewrite Eo in R6. destruct (Ha i Hi) as [T N X].
  destruct (Hc i Hi) as (C2 & C3). specialize (Hx i Hi). specialize (R6 i Hi).
  split; rewrite ?R1, ?Eh, ?R3, ?R6.
  - intros [Hb Hnx]%andb_true_iff. apply negb_true_iff in Hnx.
    destruct (T Hb) as [?|[?|[Hcf Hcc]]]; [auto..|].
    destruct (Z.testbit (txbto (hw s0)) i) eqn:Eto; auto 10.
  - intros Hcf Hcc. rewrite N by auto.
    destruct (Z.testbit x i) eqn:Ex; [|done]. by destruct (Hx eq_refl).
  - exact X.
Qed.

(** ** Completion and cancellation *)
Lemma complete_spec s :
  exists x s1, is_u32 x /\
    (forall i, 0 <= i < 32 -> Z.testbit x i = Z.testbit (txbto (hw s)) i && Z.testbit (tx_object s) i) /\
    released x s s1 /\ mttcan_tx_complete s = Some (set_stopped false s1).
Proof.
  unfold mttcan_tx_complete. cbv zeta. set (x := u32 _).
  destruct (complete_loop_spec 32 x s) as (s1 & -> & Hrel); [apply u32_range|intros; lia|].
  exists x, s1. split_and!; [apply u32_range| |done|].
  - intros i Hi. unfold x. rewrite u32_testbit, Z.land_spec, (proj2 (Z.ltb_lt i 32)) by lia.
    by rewrite andb_true_r.
  - destruct (queue_stopped s1) eqn:E; [done|]. destruct s1. simpl in E. by subst.
Qed.

Lemma inv_complete s s' :
  tx_inv s -> mttcan_tx_complete s = Some s' -> tx_inv s' /\ (accounted s -> accounted s').
Proof.
  intros [Hu Hbuf Hst]. destruct (complete_spec s) as (x & s1 & Hx & Hxb & Hrel & ->).
  intros [= <-]. split.
  - destruct (inv_released x s s s1 Hbuf Hu eq_refl eq_refl eq_refl eq_refl) as [Hu1 Hbuf1].
    + intros i Hi Hb. rewrite Hxb in Hb by done. apply andb_true_iff in Hb as [Hto _].
      destruct (Z.testbit (txbrp (hw s)) i) eqn:Ep; [|done].
      destruct (bi_pend _ _ (Hbuf i Hi) Ep) as (_ & ? & _). congruence.
    + intros i Hi Ep. by destruct (bi_pend _ _ (Hbuf i Hi) Ep) as (_ & _ & _ & ?).
    + done.
    + split; [done| |done]. intros i Hi. destruct (Hbuf1 i Hi). by split.
  - intros Ha. assert (Ha1 : accounted s1); [|intros i Hi; destruct (Ha1 i Hi); by split].
    apply (acc_released x s s s1 Ha eq_refl eq_refl); [|done|done].
    intros i Hi Hb Hcf. rewrite Hxb in Hb by done. apply andb_true_iff in Hb as [Hto _].
    rewrite (ba_excl _ _ (Ha i Hi)) in Hcf; done.
Qed.

Lemma cancelled_spec s :
  is_u32 (tx_object s) ->
  exists (x y : Z) (s1 s' : tx_state), is_u32 x /\
    (forall i, 0 <= i < 32 -> Z.testbit x i =
       Z.testbit (txbcf (hw s)) i && negb (Z.testbit (tx_obj_cancelled s) i)) /\
    s1 = mk_tx (hw s) (ram s) (tx_object s) (txbcf (hw s)) (tx_buf_dlc s) (echo_skb s)
           (queue_stopped s && (x =? 0)) /\
    released y s1 s' /\ mttcan_tx_cancelled s = Some s' /\
    (forall i, 0 <= i < 32 -> Z.testbit y i = true -> Z.testbit x i = true) /\
    (accounted s -> forall i, 0 <= i < 32 -> Z.testbit y i = Z.testbit x i).
Proof.
  intros Hu. unfold mttcan_tx_cancelled. cbv zeta. set (x := u32 _).
  assert (Hx : forall i, 0 <= i < 32 -> Z.testbit x i =
    Z.testbit (txbcf (hw s)) i && negb (Z.testbit (tx_obj_cancelled s) i)).
  { intros i Hi. unfold x. rewrite u32_testbit, Z.land_spec, Z.lxor_spec, Z.lnot_spec by lia.
    rewrite (proj2 (Z.ltb_lt i 32)) by lia.
    by destruct (Z.testbit (txbcf (hw s)) i), (Z.testbit (tx_obj_cancelled s) i). }
  set (s1 := mk_tx (hw s) (ram s) (tx_object s) (txbcf (hw s)) (tx_buf_dlc s) (echo_skb s)
           (queue_stopped s && (x =? 0))).
  match goal with |- context [cancel_loop 32 x ?s2] => replace s2 with s1 end.
  - destruct (cancel_loop_spec 32 x s1) as (y & s' & E & Hrel & Hsub & Hall);
      [apply u32_range|intros; lia|done|].
    exists x, y, s1, s'. split_and!; [apply u32_range|done..|].
    intros Ha. apply Hall. intros i Hi Hb. rewrite Hx in Hb by done.
    apply andb_true_iff in Hb as [Hcf Hcc%negb_true_iff]. by apply (ba_new _ _ (Ha i Hi)).
  - unfold s1, set_stopped, set_cancelled. destruct s; simpl.
    by destruct queue_stopped0, (x =? 0).
Qed.

Lemma inv_cancelled s s' :
  tx_inv s -> mttcan_tx_cancelled s = Some s' -> tx_inv s' /\ (accounted s -> accounted s').
Proof.
  intros Hinv. pose proof Hinv as [Hu Hbuf Hst].
  destruct (cancelled_spec s Hu) as (x & y & s1 & s2 & Hx & Hxb & E1 & Hrel & -> & Hsub & Hall).
  intros [= <-].
  assert (Hs1 : hw s1 = hw s /\ ram s1 = ram s /\ tx_object s1 = tx_object s /\ echo_skb s1 = echo_skb s
    /\ tx_obj_cancelled s1 = txbcf (hw s) /\ queue_stopped s1 = queue_stopped s && (x =? 0)) by by subst s1.
  destruct Hs1 as (Eh & Er & Eo & Ee & Ec & Es). split.
  - destruct (inv_released y s s1 s2 Hbuf Hu Eh Er Eo Ee) as [Hu2 Hbuf2].
    + intros i Hi Hb%Hsub; [|done]. rewrite Hxb in Hb by done. apply andb_true_iff in Hb as [Hcf Hcc].
      destruct (Z.testbit (txbrp (hw s)) i) eqn:Ep; [|done].
      destruct (bi_pend _ _ (Hbuf i Hi) Ep) as (_ & _ & ? & _). congruence.
    + intros i Hi Hp. rewrite Ec. by destruct (bi_pend _ _ (Hbuf i Hi) Hp) as (_ & _ & ? & _).
    + done.
    + split; [done..|]. rewrite (rl_stop _ _ _ Hrel), Es. intros [Hq E0%Z.eqb_eq]%andb_true_iff.
      destruct (Hst Hq) as (i & Hi & Hb). exists i. split; [done|].
      rewrite (rl_obj _ _ _ Hrel), Eo, Hb by done. destruct (Z.testbit y i) eqn:Ey; [|done].
      apply Hsub in Ey; [|done]. by rewrite E0, Z.testbit_0_l in Ey.
  - intros Ha. specialize (Hall Ha). apply (acc_released y s s1 s2 Ha Eh Eo); [| |done].
    + intros i Hi _ Hcf. rewrite Ec. congruence.
    + intros i Hi. rewrite Ec. split; [|congruence].
      intros Hny _ Hcf Hcc. rewrite Hall, Hxb, Hcf, Hcc in Hny by done. done.
Qed.

(** ** The controller *)

(** A buffer's request ends with the results [to] and [cf] added. *)
Definition finish_request (i : Z) (to cf : bool) (s : tx_state) : tx_state :=
  set_hw (mk_txhw (Z.clearbit (txbrp (hw s)) i)
            (if to then Z.setbit (txbto (hw s)) i else txbto (hw s))
            (if cf then Z.setbit (txbcf (hw s)) i else txbcf (hw s))) s.

Lemma inv_finish i to cf s : 0 <= i < 32 -> tx_inv s -> tx_inv (finish_request i to cf s).
Proof.
  intros Hi [Hu Hbuf Hst]. split; [done| |done]. intros j Hj. destruct (Hbuf j Hj) as [P T E].
  split; cbn [hw set_hw finish_request ram tx_object tx_obj_cancelled echo_skb txbrp txbto txbcf]; [|done..].
  rewrite clearbit_spec by lia. destruct (Z.eqb_spec j i) as [->|Hne]; [by rewrite andb_false_r|].
  rewrite andb_true_r. intros Hp. destruct (P Hp) as (? & ? & ? & ?).
  destruct to, cf; rewrite ?setbit_spec, ?(proj2 (Z.eqb_neq _ _) Hne), ?orb_false_r by lia; done.
Qed.

(** A pending request that is sent or cancelled, not both, stays accounted for. *)
Lemma acc_finish i to s :
  0 <= i < 32 -> tx_inv s -> Z.testbit (txbrp (hw s)) i = true -> accounted s ->
  accounted (finish_request i to (negb to) s).
Proof.
  intros Hi [_ Hbuf _] Hp Ha j Hj. destruct (Ha j Hj) as [T N X].
  destruct (bi_pend _ _ (Hbuf i Hi) Hp) as (Po & Pt & Pc & Pcc).
  destruct to; split; cbn [hw set_hw finish_request ram tx_object tx_obj_cancelled echo_skb txbrp txbto txbcf negb];
    rewrite ?setbit_spec, ?clearbit_spec by lia; try done;
    (destruct (Z.eqb_spec j i) as [->|Hne]; simpl; rewrite ?orb_true_r, ?orb_false_r, ?andb_false_r, ?andb_true_r);
    auto; try congruence; done.
Qed.

Lemma inv_step strict s s' :
  tx_inv s -> tx_step cfg txc size strict s s' ->
  tx_inv s' /\ (strict = true -> accounted s -> accounted s').
Proof.
  intros Hinv Hs. destruct Hs as [s s' tt txfqs f ret Htt Hf Hfit Hq E|s s' E|s s' E|s m|s i Hi Hp|s i Hi Hp|s i Hi Hst Hp].
  - destruct (start_xmit_spec tt txfqs f s Hinv Hf Hfit Hq) as (r & s1 & E1 & Hc).
    rewrite E1 in E. injection E as <- <-. destruct Hc as [(_ & -> & Hex)|(_ & i & Hx)].
    + destruct Hinv as [Hu Hbuf _]. split; [split; [done| |done]|].
      * intros j Hj. destruct (Hbuf j Hj). by split.
      * intros _ Ha j Hj. destruct (Ha j Hj). by split.
    + split; [by eapply inv_xmit|]. intros ->%Htt Ha. by eapply acc_xmit.
  - destruct (inv_complete s s' Hinv E). auto.
  - destruct (inv_cancelled s s' Hinv E). auto.
  - destruct (inv_reopen m s). auto.
  - split; [exact (inv_finish i true false s Hi Hinv)|]. intros -> Ha. destruct Hp as [Hp|[? _]]; [|done].
    exact (acc_finish i true s Hi Hinv Hp Ha).
  - split; [exact (inv_finish i false true s Hi Hinv)|]. intros -> Ha. destruct Hp as [Hp|?]; [|done].
    exact (acc_finish i false s Hi Hinv Hp Ha).
  - split; [exact (inv_finish i true true s Hi Hinv)|]. by subst.
Qed.

Lemma reachable_inv strict m s :
  rtc (tx_step cfg txc size strict) (tx_initial m) s -> tx_inv s /\ (strict = true -> accounted s).
Proof.
  intros Hr. destruct (inv_initial m) as [Hi Ha].
  apply (rtc_preserves (tx_step cfg txc size strict) (fun s => tx_inv s /\ (strict = true -> accounted s)) _ _ Hr); [auto|].
  intros x y [Hx Hax] Hs. destruct (inv_step strict x y Hx Hs). auto.
Qed.


(** Once the controller has finished all requests, one cancellation pass and one
    completion pass release every buffer, account for every frame, and leave the queue
    running. *)
Theorem tx_drains m s :
  rtc (tx_step cfg txc size true) (tx_initial m) s -> txbrp (hw s) = 0 ->
  exists s1 s2, mttcan_tx_cancelled s = Some s1 /\ mttcan_tx_complete s1 = Some s2 /\
    tx_object s2 = 0 /\ (forall i, 0 <= i < 32 -> echo_skb s2 i = None) /\ queue_stopped s2 = false.
Proof.
  intros [Hinv Hacc]%reachable_inv Hp. specialize (Hacc eq_refl).
  destruct (cancelled_spec s (ti_u32 _ Hinv)) as (x & z & s0 & s1 & _ & Hxb & E0 & Hrel & E1 & _).
  destruct (inv_cancelled s s1 Hinv E1) as [Hinv1 Hacc1]. specialize (Hacc1 Hacc).
  destruct (complete_spec s1) as (y & s2 & _ & Hyb & Hrel2 & E2).
  destruct (inv_complete s1 _ Hinv1 E2) as [[Hu2 Hbuf2 _] _].
  assert (Hobj : forall i, 0 <= i < 32 -> Z.testbit (tx_object s2) i = false).
  { intros i Hi. rewrite (rl_obj _ _ _ Hrel2), Hyb by done. destruct (Hacc1 i Hi) as [T _ _].
    destruct (Z.testbit (tx_object s1) i) eqn:Eo; [|done].
    destruct (T eq_refl) as [Hb|[->|[Hcf Hcc]]]; [|done|];
      exfalso; rewrite (rl_hw _ _ _ Hrel) in *; subst s0; simpl in *;
      [by rewrite Hp, Z.testbit_0_l in Hb | rewrite (rl_canc _ _ _ Hrel) in Hcc; simpl in Hcc; congruence]. }
  exists s1, (set_stopped false s2). split_and!; [done..| | |done].
  - by apply no_bits.
  - intros i Hi. by apply (bi_free _ _ (Hbuf2 i Hi)), Hobj.
Qed.
End inv.

(** * Instances: 16 dedicated buffers of 64 bytes *)
Definition ex_cfg : ttcan_mram_item -> ttcan_mram_elem := mram_sections example_mram.
Definition ex_txc : ttcan_txbuff_config := mk_txc 0 16 16 7 0.

Lemma ex_tx_cfg_ok : tx_cfg_ok ex_cfg ex_txc 72.
Proof. split; simpl; try lia; by vm_compute. Qed.

(** Without a FIFO, the status register reads 0. *)
Definition ex_start : option (Z * tx_state) :=
  @mttcan_start_xmit iso_lengths ex_cfg ex_txc 72 false 0 frame_25 (tx_initial (fun _ => 0)).

Lemma ex_start_pending :
  (fun r => (Z.testbit (txbrp (hw r.2)) 0, r.1)) <$> ex_start = Some (true, NETDEV_TX_OK).
Proof. by vm_compute. Qed.

Lemma ex_start_bit r s : ex_start = Some (r, s) -> Z.testbit (txbrp (hw s)) 0 = true.
Proof.
  intros E. pose proof ex_start_pending as Hp. rewrite E in Hp.
  change (Some (Z.testbit (txbrp (hw s)) 0, r) = Some (true, NETDEV_TX_OK)) in Hp. by injection Hp.
Qed.

Lemma ex_reaches r s :
  ex_start = Some (r, s) -> rtc (@tx_step iso_lengths ex_cfg ex_txc 72 true) (tx_initial (fun _ => 0)) s.
Proof.
  intros E. apply rtc_once. apply (step_xmit _ _ _ _ _ _ false 0 frame_25 r); [done|apply frame_25_wf|done|done|exact E].
Qed.


(** The controller transmits the frame; the passes account for it. *)
Lemma tx_drains_witness :
  exists s s1 s2,
    rtc (@tx_step iso_lengths ex_cfg ex_txc 72 true) (tx_initial (fun _ => 0)) s /\
    tx_object s <> 0 /\ mttcan_tx_cancelled s = Some s1 /\ mttcan_tx_complete s1 = Some s2 /\ tx_object s2 = 0.
Proof.
  destruct ex_start as [[r s]|] eqn:E.
  - pose proof (ex_start_bit r s E) as Hb.
    assert (Hv : Z.clearbit (txbrp (hw s)) 0 = 0 /\ tx_object s <> 0).
    { assert (Hp : (fun r => (Z.clearbit (txbrp (hw r.2)) 0, tx_object r.2)) <$> ex_start = Some (0, 1))
        by by vm_compute. rewrite E in Hp.
      change (Some (Z.clearbit (txbrp (hw s)) 0, tx_object s) = Some (0, 1)) in Hp.
      injection Hp as -> ->. done. }
    set (t := set_hw (mk_txhw (Z.clearbit (txbrp (hw s)) 0) (Z.setbit (txbto (hw s)) 0) (txbcf (hw s))) s).
    assert (Hr : rtc (@tx_step iso_lengths ex_cfg ex_txc 72 true) (tx_initial (fun _ => 0)) t).
    { eapply rtc_r; [exact (ex_reaches r s E)|]. apply step_sent; [done|by left]. }
    destruct (@tx_drains iso_lengths ex_cfg ex_txc 72 ex_tx_cfg_ok _ t Hr (proj1 Hv))
      as (s1 & s2 & E1 & E2 & Ho & _).
    exists t, s1, s2. split; [exact Hr|]. split; [exact (proj2 Hv)|]. auto.
  - exfalso. pose proof ex_start_pending as Hp. by rewrite E in Hp.
Defined.

(** A cancellation of a buffer without a request, which sysfs allows: the pass stops at
    that buffer, and what it has not looked at is forgotten.  Here the buffer 0 has been
    sent and released, then both buffers are cancelled and one pass is made; buffer 1 stays
    reserved for good, with no request and no result left to be seen. *)
#[local] Existing Instance iso_lengths.
Abbreviation ex_step := (@tx_step iso_lengths ex_cfg ex_txc 72 false).
Definition ex_xmit (s : tx_state) : tx_state :=
  default s (snd <$> @mttcan_start_xmit iso_lengths ex_cfg ex_txc 72 false 0 frame_25 s).
Definition ex_complete (s : tx_state) : tx_state := default s (mttcan_tx_complete s).
Definition ex_cancelled (s : tx_state) : tx_state := default s (mttcan_tx_cancelled s).
Definition ex_finish (i : Z) (to cf : bool) (s : tx_state) : tx_state := finish_request i to cf s.

Definition ex_two : tx_state := ex_xmit (ex_xmit (tx_initial (fun _ => 0))).
Definition ex_released : tx_state := ex_complete (ex_finish 0 true false ex_two).
Definition ex_stranded : tx_state :=
  ex_cancelled (ex_finish 0 false true (ex_finish 1 false true ex_released)).

Lemma ex_xmit_step s : tx_inv ex_cfg ex_txc 72 s -> ex_step s (ex_xmit s).
Proof.
  intros Hs. destruct (@start_xmit_spec iso_lengths ex_cfg ex_txc 72 ex_tx_cfg_ok false 0 frame_25 s Hs)
    as (r & s' & E & _); [apply frame_25_wf|done|done|].
  unfold ex_xmit. rewrite E. simpl. by eapply (step_xmit _ _ _ _ s s' false 0 frame_25 r); [|apply frame_25_wf|..].
Qed.

Lemma idle_cancel_strands_buffer :
  rtc ex_step (tx_initial (fun _ => 0)) ex_stranded /\
  Z.testbit (tx_object ex_stranded) 1 = true /\ txbrp (hw ex_stranded) = 0 /\
  Z.testbit (txbto (hw ex_stranded)) 1 = false /\ Z.testbit (tx_obj_cancelled ex_stranded) 1 = true.
Proof.
  assert (Hreach : forall s s', rtc ex_step (tx_initial (fun _ => 0)) s -> ex_step s s' ->
    rtc ex_step (tx_initial (fun _ => 0)) s') by (intros; by eapply rtc_r).
  assert (Hinv : forall s, rtc ex_step (tx_initial (fun _ => 0)) s -> tx_inv ex_cfg ex_txc 72 s).
  { intros s Hr. exact (proj1 (@reachable_inv iso_lengths ex_cfg ex_txc 72 ex_tx_cfg_ok _ _ s Hr)). }
  split; [|by vm_compute].
  assert (R2 : rtc ex_step (tx_initial (fun _ => 0)) ex_two).
  { unfold ex_two. assert (R1 : rtc ex_step (tx_initial (fun _ => 0)) (ex_xmit (tx_initial (fun _ => 0)))).
    { apply rtc_once, ex_xmit_step, (Hinv _ (rtc_refl _ _)). }
    eapply Hreach; [exact R1|]. by apply ex_xmit_step, Hinv. }
  assert (R3 : rtc ex_step (tx_initial (fun _ => 0)) ex_released).
  { eapply Hreach; [eapply Hreach; [exact R2|]|].
    - apply (step_sent _ _ _ _ ex_two 0); [done|]. left. by vm_compute.
    - apply step_complete. unfold ex_released, ex_complete, ex_finish, finish_request.
      destruct (complete_spec (finish_request 0 true false ex_two)) as (x & s1 & _ & _ & _ & E).
      unfold finish_request in E. by rewrite E. }
  eapply Hreach; [eapply Hreach; [eapply Hreach; [exact R3|]|]|].
  - apply (step_cancel _ _ _ _ ex_released 1); [done|by right].
  - apply (step_cancel _ _ _ _ (ex_finish 1 false true ex_released) 0); [done|by right].
  - apply step_cancelled. unfold ex_stranded, ex_cancelled. set (s := ex_finish 0 false true _).
    assert (Hu : is_u32 (tx_object s)) by (by vm_compute).
    destruct (cancelled_spec s Hu) as (? & ? & ? & ? & _ & _ & _ & _ & E & _). by rewrite E.
Qed.
