(* ===== verification/MttcanBuf.v ===== *)
(** M_TTCAN dedicated receive buffers: [ttcan_read_rx_buffer] and [process_rx_mesg] of
    drivers/net/can/mttcan/hal/m_ttcan.c.

    Two registers of 32 bits say which of 64 buffers hold a new message.
    [read_rx_buffer_correct] gives the order in which the buffers are read, and where
    each is read from. *)
From S2P Require Import Prelude MttcanRam MttcanCfg MttcanRx MttcanTx.

(** The registers of new data, and the bits acknowledged. *)
Inductive ndat := NDAT1 | NDAT2.

Section buffers.
Context `{CanLengths}.
Variables (e : ttcan_mram_elem) (esize : Z) (kzalloc : nat -> bool) (m : mram).

(** Both halves are read from [off + bit * size]. *)
Definition rx_buffer_addr (bit_set : Z) : Z := u32 (off e + bit_set * esize).

Definition process_rx_mesg (alloc : bool) (addr : Z) (c : rx_ctl) : option (Z * rx_ctl) :=
  match ttcan_read_rx_msg_ram addr m zero_frame with
  | None => None
  | Some (_, f) => Some (add_msg_controller_list alloc f BUFFER c)
  end.

(** Reading one buffer; the second component says whether to go on. *)
Definition rx_buffer_one (r : ndat) (nd : Z) (st : nat * list (ndat * Z) * rx_ctl)
    : option (bool * (nat * list (ndat * Z) * rx_ctl)) :=
  let '(msgs_read, acks, c) := st in
  if nd =? 0 then Some (true, st) else
  let bit_set := ffs nd - 1 in
  match process_rx_mesg (kzalloc msgs_read) (rx_buffer_addr bit_set) c with
  | None => None
  | Some (ret, c) =>
      if ret =? 0 then Some (true, (S msgs_read, acks ++ [(r, bit_set)], c))
      else Some (false, (msgs_read, acks, c))
  end.

(** [ndat &= ~(1 << bit_set)]; without a bit to clear, the word is 0 already. *)
Definition drop_ndat (nd : Z) : Z :=
  if nd =? 0 then 0 else Z.land nd (u32 (Z.lnot (Z.shiftl 1 (ffs nd - 1)))).

Fixpoint rx_buffer_loop (fuel : nat) (ndat1 ndat2 : Z) (st : nat * list (ndat * Z) * rx_ctl)
    : option (nat * list (ndat * Z) * rx_ctl) :=
  if (ndat1 =? 0) && (ndat2 =? 0) then Some st else
  match fuel with
  | O => None
  | S fuel =>
      match rx_buffer_one NDAT1 ndat1 st with
      | None => None
      | Some (false, st) => Some st
      | Some (true, st) =>
          match rx_buffer_one NDAT2 ndat2 st with
          | None => None
          | Some (false, st) => Some st
          | Some (true, st) => rx_buffer_loop fuel (drop_ndat ndat1) (drop_ndat ndat2) st
          end
      end
  end.

(** The result: the number of messages, the acknowledged bits in order, and the lists. *)
Definition ttcan_read_rx_buffer (ndat1 ndat2 : Z) (c : rx_ctl)
    : option (nat * list (ndat * Z) * rx_ctl) :=
  rx_buffer_loop 32 ndat1 ndat2 (0%nat, [], c).
End buffers.

(** * The order of reading *)

(** The bits of a word, the least first. *)
Fixpoint bits_from (n : nat) (i x : Z) : list Z :=
  match n with
  | O => []
  | S n => if Z.testbit x i then i :: bits_from n (i + 1) x else bits_from n (i + 1) x
  end.
Definition bits (x : Z) : list Z := bits_from 32 0 x.

(** One bit of each register in turn. *)
Fixpoint alternate (l1 l2 : list Z) : list (ndat * Z) :=
  match l1, l2 with
  | [], [] => []
  | i :: l1, [] => (NDAT1, i) :: alternate l1 []
  | [], _ => pair NDAT2 <$> l2
  | i :: l1, j :: l2 => (NDAT1, i) :: (NDAT2, j) :: alternate l1 l2
  end.

Lemma bits_from_ext n : forall i x y,
  (forall j, i <= j < i + Z.of_nat n -> Z.testbit x j = Z.testbit y j) -> bits_from n i x = bits_from n i y.
Proof.
  induction n as [|n IH]; intros i x y Hxy; simpl; [done|].
  rewrite (Hxy i) by lia. rewrite (IH (i + 1) x y) by (intros; apply Hxy; lia). done.
Qed.

Lemma bits_from_first n : forall i x y b,
  i <= b < i + Z.of_nat n -> Z.testbit x b = true ->
  (forall j, i <= j < b -> Z.testbit x j = false) ->
  (forall j, i <= j < i + Z.of_nat n -> Z.testbit y j = Z.testbit x j && negb (j =? b)) ->
  bits_from n i x = b :: bits_from n i y.
Proof.
  induction n as [|n IH]; intros i x y b Hb Hx Hlow Hy; [lia|]. simpl.
  rewrite (Hy i) by lia. destruct (Z.eq_dec i b) as [->|Hne].
  - rewrite Hx, Z.eqb_refl. simpl. f_equal. apply bits_from_ext. intros j Hj.
    rewrite Hy by lia. rewrite (proj2 (Z.eqb_neq j b)) by lia. by rewrite andb_true_r.
  - rewrite (Hlow i) by lia. simpl. apply IH; [lia|done|intros; apply Hlow; lia|intros; apply Hy; lia].
Qed.

Lemma bits_0 : bits 0 = [].
Proof. reflexivity. Qed.

Lemma bits_from_length n i x : (length (bits_from n i x) <= n)%nat.
Proof.
  revert i. induction n as [|n IH]; intros i; simpl; [done|]. specialize (IH (i + 1)).
  destruct (Z.testbit x i); simpl; lia.
Qed.

Lemma bits_length x : (length (bits x) <= 32)%nat.
Proof. apply bits_from_length. Qed.

Lemma bits_next x : is_u32 x -> x <> 0 ->
  bits x = (ffs x - 1) :: bits (drop_ndat x) /\ 0 <= ffs x - 1 < 32.
Proof.
  intros Hx Hne. destruct (ffs_spec x Hx Hne) as (Hr & Hb & Hlow). split; [|done].
  unfold bits, drop_ndat. rewrite (proj2 (Z.eqb_neq x 0)) by done.
  apply bits_from_first; [lia|done|done|]. intros j Hj. apply drop_bit; lia.
Qed.

Lemma drop_ndat_u32 x : is_u32 x -> is_u32 (drop_ndat x).
Proof. intros Hx. unfold drop_ndat. case_if; [by split|by apply land_u32]. Qed.

Lemma drop_ndat_0 : drop_ndat 0 = 0.
Proof. reflexivity. Qed.

#[local] Opaque bits drop_ndat.

Lemma alternate_nil_l l : alternate [] l = pair NDAT2 <$> l.
Proof. by destruct l. Qed.

(** A round takes at most one bit of each register. *)
Lemma alternate_round x y :
  is_u32 x -> is_u32 y -> x <> 0 \/ y <> 0 ->
  alternate (bits x) (bits y) =
  (if x =? 0 then [] else [(NDAT1, ffs x - 1)]) ++ (if y =? 0 then [] else [(NDAT2, ffs y - 1)])
    ++ alternate (bits (drop_ndat x)) (bits (drop_ndat y)).
Proof.
  intros Hx Hy Hne.
  destruct (Z.eqb_spec x 0) as [->|Hx0], (Z.eqb_spec y 0) as [->|Hy0]; cbn [app].
  - lia.
  - destruct (bits_next y Hy Hy0) as [-> _].
    by rewrite drop_ndat_0, bits_0, !alternate_nil_l.
  - destruct (bits_next x Hx Hx0) as [-> _]. by rewrite drop_ndat_0, bits_0.
  - destruct (bits_next x Hx Hx0) as [-> _], (bits_next y Hy Hy0) as [-> _]. done.
Qed.

(** The rounds left are enough for the bits left. *)
Lemma bits_length_drop x n :
  is_u32 x -> (length (bits x) <= S n)%nat -> (length (bits (drop_ndat x)) <= n)%nat.
Proof.
  intros Hx Hl. destruct (Z.eq_dec x 0) as [->|Hne]; [rewrite drop_ndat_0, bits_0; simpl; lia|].
  destruct (bits_next x Hx Hne) as [E _]. rewrite E in Hl. simpl in Hl. lia.
Qed.

Lemma bits_nil_inv x : is_u32 x -> (length (bits x) <= 0)%nat -> x = 0.
Proof.
  intros Hx Hl. destruct (Z.eq_dec x 0) as [?|Hne]; [done|].
  destruct (bits_next x Hx Hne) as [E _]. rewrite E in Hl. simpl in Hl. lia.
Qed.

(** * Correctness *)
Section spec.
Context `{CanLengths}.
Variables (e : ttcan_mram_elem) (esize : Z) (kzalloc : nat -> bool) (m : mram).
(** The messages in the buffers, by the bit that the code reads them under. *)
Variable content : Z -> ttcanfd_frame.
Hypothesis buffers_hold : forall i, 0 <= i < 32 -> holds m (rx_buffer_addr e esize i) (content i).

(** What has been read when the buffers [todo] were left: all of [done_], unless the
    list was full or memory short, and then the rest is left alone. *)
Record buf_result (c : rx_ctl) (todo done_ rest : list (ndat * Z)) (got : list ttcanfd_frame)
    (n0 n : nat) (acks0 acks : list (ndat * Z)) (c' : rx_ctl) : Prop := {
  br_todo : todo = done_ ++ rest;
  br_count : n = (n0 + length done_)%nat;
  br_acks : acks = acks0 ++ done_;
  br_list : rx_list (rxqs c' BUFFER) = rx_list (rxqs c BUFFER) ++ got;
  br_got : Forall2 (fun g p => same_frame g (content p.2)) got done_;
  br_ok : list_ok BUFFER c';
  br_stop : rest = [] \/ Z.of_nat (length (rx_list (rxqs c' BUFFER))) = TTCAN_MAX_LIST_MEMBERS \/
    kzalloc n = false
}.

Lemma rx_buffer_one_spec r x n acks c :
  is_u32 x -> x <> 0 -> list_ok BUFFER c ->
  (rx_buffer_one e esize kzalloc m r x (n, acks, c) = Some (false, (n, acks, c)) /\
     (Z.of_nat (length (rx_list (rxqs c BUFFER))) = TTCAN_MAX_LIST_MEMBERS \/ kzalloc n = false)) \/
  exists g c1,
    rx_buffer_one e esize kzalloc m r x (n, acks, c) =
      Some (true, (S n, acks ++ [(r, ffs x - 1)], c1)) /\
    same_frame g (content (ffs x - 1)) /\ list_ok BUFFER c1 /\
    rx_list (rxqs c1 BUFFER) = rx_list (rxqs c BUFFER) ++ [g].
Proof.
  intros Hx Hne Hok. destruct (bits_next x Hx Hne) as [_ Hr].
  unfold rx_buffer_one. rewrite (proj2 (Z.eqb_neq x 0)) by done. unfold process_rx_mesg.
  destruct (buffers_hold (ffs x - 1) Hr zero_frame eq_refl) as (k & g & -> & Hg).
  pose proof (add_msg_spec (kzalloc n) g BUFFER c Hok) as Ha. cbv zeta in Ha.
  destruct (add_msg_controller_list (kzalloc n) g BUFFER c) as [ret c1].
  destruct Ha as [(-> & -> & Hw)|(-> & _ & Hok1 & Hl & _)].
  - left. split; [done|]. tauto.
  - right. exists g, c1. done.
Qed.

Lemma buf_result_cons c r i todo done_ rest got n n' acks acks' c1 c' g :
  same_frame g (content i) -> rx_list (rxqs c1 BUFFER) = rx_list (rxqs c BUFFER) ++ [g] ->
  buf_result c1 todo done_ rest got (S n) n' (acks ++ [(r, i)]) acks' c' ->
  buf_result c ((r, i) :: todo) ((r, i) :: done_) rest (g :: got) n n' acks acks' c'.
Proof.
  intros Hg Hl [R1 R2 R3 R4 R5 R6 R7]. split; try done.
  - by rewrite R1.
  - rewrite R2. simpl. lia.
  - by rewrite R3, <- app_assoc.
  - by rewrite R4, Hl, <- app_assoc.
  - by constructor.
Qed.

Lemma buf_result_stop c todo n acks :
  list_ok BUFFER c ->
  todo = [] \/ Z.of_nat (length (rx_list (rxqs c BUFFER))) = TTCAN_MAX_LIST_MEMBERS \/ kzalloc n = false ->
  buf_result c todo [] todo [] n n acks acks c.
Proof. intros Hok Hs. split; rewrite ?app_nil_r; simpl; auto. Qed.

Lemma rx_buffer_loop_spec fuel : forall x y n acks c,
  is_u32 x -> is_u32 y -> (length (bits x) <= fuel)%nat -> (length (bits y) <= fuel)%nat ->
  list_ok BUFFER c ->
  exists n' acks' c' done_ rest got,
    rx_buffer_loop e esize kzalloc m fuel x y (n, acks, c) = Some (n', acks', c') /\
    buf_result c (alternate (bits x) (bits y)) done_ rest got n n' acks acks' c'.
Proof.
  induction fuel as [|fuel IH]; intros x y n acks c Hx Hy Lx Ly Hok; cbn [rx_buffer_loop];
    destruct ((x =? 0) && (y =? 0)) eqn:E0.
  1, 3: apply andb_true_iff in E0 as [->%Z.eqb_eq ->%Z.eqb_eq]; rewrite bits_0;
    exists n, acks, c, [], [], []; (split; [done|apply buf_result_stop; auto]).
  { apply bits_nil_inv in Lx, Ly; [|done..]. by subst. }
  assert (Hne : x <> 0 \/ y <> 0) by (apply andb_false_iff in E0 as [?|?]; zb; auto).
  rewrite (alternate_round x y Hx Hy Hne).
  pose proof (bits_length_drop x fuel Hx Lx) as Lx'. pose proof (bits_length_drop y fuel Hy Ly) as Ly'.
  pose proof (drop_ndat_u32 x Hx) as Hx'. pose proof (drop_ndat_u32 y Hy) as Hy'.
  set (rest0 := alternate (bits (drop_ndat x)) (bits (drop_ndat y))).
  (* the second register, from any state the first may leave *)
  assert (H2 : forall n acks c, list_ok BUFFER c -> exists n' acks' c' done_ rest got,
    match rx_buffer_one e esize kzalloc m NDAT2 y (n, acks, c) with
    | None => None
    | Some (false, st) => Some st
    | Some (true, st) => rx_buffer_loop e esize kzalloc m fuel (drop_ndat x) (drop_ndat y) st
    end = Some (n', acks', c') /\
    buf_result c ((if y =? 0 then [] else [(NDAT2, ffs y - 1)]) ++ rest0) done_ rest got n n' acks acks' c').
  { clear n acks c Hok. intros n acks c Hok. destruct (Z.eqb_spec y 0) as [Ey|Hy0].
    - unfold rx_buffer_one at 1. rewrite (proj2 (Z.eqb_eq y 0) Ey).
      apply (IH (drop_ndat x) (drop_ndat y) n acks c); done.
    - destruct (rx_buffer_one_spec NDAT2 y n acks c Hy Hy0 Hok) as [[-> Hw]|(g & c1 & -> & Hg & Hok1 & Hl)].
      + exists n, acks, c, [], ((NDAT2, ffs y - 1) :: rest0), []. split; [done|]. apply buf_result_stop; auto.
      + destruct (IH (drop_ndat x) (drop_ndat y) (S n) (acks ++ [(NDAT2, ffs y - 1)]) c1 Hx' Hy' Lx' Ly' Hok1)
          as (n' & acks' & c' & dn & rest & got & -> & Hres).
        exists n', acks', c', ((NDAT2, ffs y - 1) :: dn), rest, (g :: got). split; [done|].
        by eapply buf_result_cons. }
  destruct (Z.eqb_spec x 0) as [Ex|Hx0].
  - unfold rx_buffer_one at 1. rewrite (proj2 (Z.eqb_eq x 0) Ex). by apply H2.
  - destruct (rx_buffer_one_spec NDAT1 x n acks c Hx Hx0 Hok) as [[-> Hw]|(g & c1 & -> & Hg & Hok1 & Hl)].
    + eexists n, acks, c, [], _, []. split; [done|]. apply buf_result_stop; auto.
    + destruct (H2 (S n) (acks ++ [(NDAT1, ffs x - 1)]) c1 Hok1)
        as (n' & acks' & c' & dn & rest & got & -> & Hres).
      exists n', acks', c', ((NDAT1, ffs x - 1) :: dn), rest, (g :: got). split; [done|].
      by eapply buf_result_cons.
Qed.

(** Reading the dedicated receive buffers always returns.  The buffers whose bits are
    set are read alternately from the two registers, from the least bit up; each is
    acknowledged once its message is on the list, in that order, and the result is
    their number.  It stops early only with a full list or without memory, and then
    the remaining buffers keep their bits.  The message read for a bit depends on the
    bit alone: for a bit of the second register, which stands for the buffer 32 + bit,
    it is the message of the buffer [bit]. *)
Theorem read_rx_buffer_correct ndat1 ndat2 c :
  is_u32 ndat1 -> is_u32 ndat2 -> list_ok BUFFER c ->
  exists n acks c' rest got,
    ttcan_read_rx_buffer e esize kzalloc m ndat1 ndat2 c = Some (n, acks, c') /\
    alternate (bits ndat1) (bits ndat2) = acks ++ rest /\ n = length acks /\
    rx_list (rxqs c' BUFFER) = rx_list (rxqs c BUFFER) ++ got /\
    Forall2 (fun g p => same_frame g (content p.2)) got acks /\ list_ok BUFFER c' /\
    (rest = [] \/ Z.of_nat (length (rx_list (rxqs c' BUFFER))) = TTCAN_MAX_LIST_MEMBERS \/
     kzalloc n = false).
Proof.
  intros H1 H2 Hok.
  destruct (rx_buffer_loop_spec 32 ndat1 ndat2 0 [] c H1 H2 (bits_length _)
    (bits_length _) Hok) as (n & acks & c' & dn & rest & got & E & [R1 R2 R3 R4 R5 R6 R7]).
  simpl in R2, R3. subst. exists (length dn), dn, c', rest, got. done.
Qed.
End spec.

(** * Instance: buffer [i] holds a message of identifier [i]; bits 0 and 5 of the first
    register and bit 3 of the second are set. *)
Definition buf_ram : mram := fun a => if a mod 72 =? 0 then Z.shiftl (a / 72) 18 else 0.

#[local] Existing Instance iso_lengths.

Lemma buf_ram_holds i :
  0 <= i < 32 -> holds buf_ram (rx_buffer_addr sim_elem 72 i) (sim_frame i).
Proof.
  intros Hi g Hg. exists 2, (mk_frame i 0 0 (resv0 g) (resv1 g) (data g) 0).
  split; [|split; try done; simpl; lia].
  destruct i as [|p|p]; [reflexivity| |lia].
  do 5 (destruct p as [p|p|]; try reflexivity); lia.
Qed.

Lemma read_rx_buffer_witness :
  is_u32 0x21 /\ list_ok BUFFER sim_ctl0 /\
  exists n acks c',
    ttcan_read_rx_buffer sim_elem 72 (fun _ => true) buf_ram 0x21 8 sim_ctl0 = Some (n, acks, c') /\
    (exists rest, [(NDAT1, 0); (NDAT2, 3); (NDAT1, 5)] = acks ++ rest) /\ n = length acks.
Proof.
  assert (Hc : list_ok BUFFER sim_ctl0) by done.
  split; [width_lia|]. split; [exact Hc|].
  destruct (read_rx_buffer_correct sim_elem 72 (fun _ => true) buf_ram sim_frame buf_ram_holds 0x21 8
    sim_ctl0 ltac:(width_lia) ltac:(width_lia) Hc) as (n & acks & c' & rest & got & E & Ha & Hn & _).
  exists n, acks, c'. split; [exact E|]. split; [exists rest; exact Ha | exact Hn].
Defined.
