(* ===== verification/PvaDesc.v ===== *)
(** PVA DMA descriptors and their range check: drivers/video/tegra/host/pva/pva_dma.c
    and the descriptor of include/uapi/linux/nvpva_ioctl.h.

    A descriptor that user space supplies moves tiles in five nested loops.
    [check_address_range] compares the lowest and the highest byte it can reach with
    the size of the buffer; [address_range_exact] shows that this is exact.
    [pitch_linear_eq_offset] translates an offset into a block-linear surface into the
    offset of the same pixel in a pitch-linear one; [block_linear_correct] compares it
    with the definition of the layout. *)
From S2P Require Import Prelude.

(** * Descriptors *)
Record nvpva_dma_descriptor := mk_desc {
  srcPtr : Z; dstPtr : Z; dst2Ptr : Z;                               (* u32 *)
  src_offset : Z; dst_offset : Z; dst2Offset : Z; surfBLOffset : Z;  (* u64 *)
  tx : Z; ty : Z; srcLinePitch : Z; dstLinePitch : Z;                (* u16 *)
  srcAdv1 : Z; dstAdv1 : Z; srcAdv2 : Z; dstAdv2 : Z; srcAdv3 : Z; dstAdv3 : Z;  (* s32 *)
  srcRpt1 : Z; dstRpt1 : Z; srcRpt2 : Z; dstRpt2 : Z; srcRpt3 : Z; dstRpt3 : Z;  (* u8 *)
  linkDescId : Z; px : Z;                                            (* u8 *)
  py : Z;                                                            (* u32 *)
  srcCbEnable : Z; dstCbEnable : Z;                                  (* u8 *)
  srcCbStart : Z; dstCbStart : Z; srcCbSize : Z; dstCbSize : Z;      (* u32 *)
  trigEventMode : Z; trigVpuEvents : Z; descReloadEnable : Z;        (* u8 *)
  srcTransferMode : Z; dstTransferMode : Z; srcFormat : Z; dstFormat : Z;
  bytePerPixel : Z; pxDirection : Z; pyDirection : Z;
  boundaryPixelExtension : Z; transTrueCompletion : Z; prefetchEnable : Z
}.

(** The values a descriptor's members can have. *)
Record desc_wf (d : nvpva_dma_descriptor) : Prop := {
  wf_src_offset : is_u64 (src_offset d); wf_dst_offset : is_u64 (dst_offset d);
  wf_dst2_offset : is_u64 (dst2Offset d); wf_surf : is_u64 (surfBLOffset d);
  wf_tx : is_u16 (tx d); wf_ty : is_u16 (ty d);
  wf_src_pitch : is_u16 (srcLinePitch d); wf_dst_pitch : is_u16 (dstLinePitch d);
  wf_src_adv1 : is_s32 (srcAdv1 d); wf_dst_adv1 : is_s32 (dstAdv1 d);
  wf_src_adv2 : is_s32 (srcAdv2 d); wf_dst_adv2 : is_s32 (dstAdv2 d);
  wf_src_adv3 : is_s32 (srcAdv3 d); wf_dst_adv3 : is_s32 (dstAdv3 d);
  wf_src_rpt1 : is_u8 (srcRpt1 d); wf_dst_rpt1 : is_u8 (dstRpt1 d);
  wf_src_rpt2 : is_u8 (srcRpt2 d); wf_dst_rpt2 : is_u8 (dstRpt2 d);
  wf_src_rpt3 : is_u8 (srcRpt3 d); wf_dst_rpt3 : is_u8 (dstRpt3 d);
  wf_px : is_u8 (px d); wf_py : is_u32 (py d)
}.

Definition BL_GOB_WIDTH_LOG2 := 6.
Definition BL_GOB_WIDTH_LOG2_ALIGNMASK := 0x3F.
Definition BL_GOB_HEIGHT_LOG2 := 3.
Definition BL_GOB_SIZE_LOG2 := 9.
Definition LOW_BITS := 0xF.
Definition NVPVA_MAX_VALID_BLK_HGT_LG2 := 5.
Definition UINT_MAX := 0xFFFFFFFF.

(** * Block-linear offsets *)

(** The two coordinates within a block row, from the bits of an offset. *)
Definition bl_x (o block_idx : Z) : Z :=
  let x := Z.land o LOW_BITS in
  let x := x + Z.b2z (Z.testbit o 5) * 16 in
  let x := x + Z.b2z (Z.testbit o 8) * 32 in
  u32 (x + u32 (Z.shiftl block_idx BL_GOB_WIDTH_LOG2)).

Definition bl_y (o gob_idx : Z) : Z :=
  let y := Z.b2z (Z.testbit o 4) in
  let y := y + Z.b2z (Z.testbit o 6) * 2 in
  let y := y + Z.b2z (Z.testbit o 7) * 4 in
  u32 (y + u32 (Z.shiftl gob_idx BL_GOB_HEIGHT_LOG2)).

(** Format, offset, line pitch and circular buffer of the first or the second
    destination or of the source. *)
Definition plane (d : nvpva_dma_descriptor) (is_dst is_dst2 : bool) : Z * Z * Z * Z :=
  if is_dst then (dstFormat d, dst_offset d, dstLinePitch d, dstCbEnable d)
  else if is_dst2 then (dstFormat d, dst2Offset d, dstLinePitch d, dstCbEnable d)
  else (srcFormat d, src_offset d, srcLinePitch d, srcCbEnable d).

(** The error and the value of [*frame_buf_offset], which is 0 before.  [None]: a
    shift by more than the width of an [int], or a division by zero. *)
Definition pitch_linear_eq_offset (d : nvpva_dma_descriptor)
    (surf_bl_offset block_ht_log2 bpp_log2 : Z) (is_dst is_dst2 : bool) : option (Z * Z) :=
  let '(format, offset, line_pitch, cb_enable) := plane d is_dst is_dst2 in
  if format =? 0 then Some (0, s64 offset)
  else if NVPVA_MAX_VALID_BLK_HGT_LG2 <? block_ht_log2 then Some (- EINVAL, 0)
  else if 31 <? bpp_log2 then None
  else
    let line_pitch_bytes := u32 (Z.shiftl line_pitch bpp_log2) in
    if negb (cb_enable =? 0) then Some (- EINVAL, 0)
    else if negb (Z.land line_pitch_bytes BL_GOB_WIDTH_LOG2_ALIGNMASK =? 0) then Some (- EINVAL, 0)
    else if negb (offset mod 64 =? 0) then Some (- EINVAL, 0)
    else
      let offset_within_surface := u32 (s32 (offset - surf_bl_offset)) in
      let block_size_log2 := BL_GOB_SIZE_LOG2 + block_ht_log2 in
      let block_mask := Z.shiftr 0xFFFFFFFF (32 - block_size_log2) in
      let blocks_per_rop := Z.shiftr line_pitch_bytes BL_GOB_WIDTH_LOG2 in
      let rop_size := u32 (Z.shiftl blocks_per_rop block_size_log2) in
      if rop_size =? 0 then None
      else
        let rop_idx := offset_within_surface / rop_size in
        let offset_to_rop := u32 (rop_idx * rop_size) in
        let offset_within_rop := u32 (offset_within_surface - offset_to_rop) in
        let block_idx := Z.shiftr offset_within_rop block_size_log2 in
        let offset_within_block := Z.land offset_within_surface block_mask in
        let gob_idx := Z.shiftr offset_within_block BL_GOB_SIZE_LOG2 in
        let x := bl_x offset_within_surface block_idx in
        let y := bl_y offset_within_surface gob_idx in
        Some (0, s64 (surf_bl_offset + offset_to_rop + u32 (y * line_pitch_bytes) + x)).

(** * The range check *)
Definition bpp_size (bytePerPixel : Z) : Z :=
  if bytePerPixel =? 0 then 1 else if bytePerPixel =? 1 then 2 else 4.

(** The last pixel of a row and the last row; a source leaves out the padding. *)
Definition last_tx (d : nvpva_dma_descriptor) (src_dst : bool) : Z :=
  tx d - 1 - (if src_dst then 0 else px d).
Definition last_ty (d : nvpva_dma_descriptor) (src_dst : bool) : Z :=
  ty d - 1 - (if src_dst then 0 else py d).

(** [s[1]] to [s[4]]. *)
Definition steps (d : nvpva_dma_descriptor) (src_dst : bool) : list Z :=
  if src_dst
  then [dstLinePitch d * last_ty d src_dst; dstAdv1 d * dstRpt1 d; dstAdv2 d * dstRpt2 d;
        dstAdv3 d * dstRpt3 d]
  else [srcLinePitch d * last_ty d src_dst; srcAdv1 d * srcRpt1 d; srcAdv2 d * srcRpt2 d;
        srcAdv3 d * srcRpt3 d].

Definition check_address_range (d : nvpva_dma_descriptor) (max_size max_size2 : Z)
    (src_dst dst2 : bool) (block_height_log2 : Z) : option Z :=
  let bppSize := bpp_size (bytePerPixel d) in
  if tx d =? 0 then Some 0
  else if ty d =? 0 then Some (- EINVAL)
  else
    let last_tx := last_tx d src_dst in
    let s := steps d src_dst in
    let start := Z.min (last_tx * bppSize) 0 in
    let end_ := Z.max (last_tx * bppSize + (bppSize - 1)) 0 in
    let '(cb_enable, cb_size) :=
      if src_dst then (dstCbEnable d, dstCbSize d) else (srcCbEnable d, srcCbSize d) in
    if cb_enable =? 1 then
      Some (if (nth 0 s 0 + last_tx + 1) * bppSize <=? cb_size then 0 else - EINVAL)
    else
      match pitch_linear_eq_offset d (s64 (surfBLOffset d)) (u8 block_height_log2)
              (bytePerPixel d) src_dst false with
      | None => None
      | Some (err, offset) =>
          if negb (err =? 0) then Some err else
          match (if src_dst
                 then pitch_linear_eq_offset d (s64 (surfBLOffset d)) (u8 block_height_log2)
                        (bytePerPixel d) false true
                 else Some (0, 0)) with
          | None => None
          | Some (err, offset2) =>
              if negb (err =? 0) then Some err else
              let start := fold_left (fun a v => a + Z.min (v * bppSize) 0) s start in
              let end_ := fold_left (fun a v => a + Z.max (v * bppSize) 0) s end_ in
              if s64 max_size <? 0 then Some (- EINVAL)
              else
                let err :=
                  if negb ((0 <=? s64 (offset + start)) && (s64 (offset + end_) <? s64 max_size))
                  then - EINVAL else 0 in
                let err :=
                  if dst2 && ((UINT_MAX <? max_size2) ||
                       negb ((0 <=? s64 (offset2 + start)) && (s64 (offset2 + end_) <? s64 max_size2)))
                  then - EINVAL else err in
                Some err
          end
      end.

(** * What a transfer touches *)

(** A loop nest: in each dimension a step, and the index of the last round. *)
Inductive reach : list (Z * Z) -> Z -> Prop :=
| reach_nil : reach [] 0
| reach_cons s n l i a : 0 <= i <= n -> reach l a -> reach ((s, n) :: l) (s * i + a).

Definition low (l : list (Z * Z)) : Z := foldr (fun '(s, n) a => Z.min (s * n) 0 + a) 0 l.
Definition high (l : list (Z * Z)) : Z := foldr (fun '(s, n) a => Z.max (s * n) 0 + a) 0 l.

(** A loop nest stays between the sums of its extreme values, and attains both. *)
Lemma reach_bounds l a : reach l a -> low l <= a <= high l.
Proof.
  induction 1 as [|s n l i a Hi Hr IH]; simpl; [lia|].
  assert (Z.min (s * n) 0 <= s * i <= Z.max (s * n) 0) by (destruct (Z.le_ge_cases 0 s); nia). lia.
Qed.

Lemma reach_low l : Forall (fun d => 0 <= d.2) l -> reach l (low l).
Proof.
  induction 1 as [|[s n] l Hn Hl IH]; simpl in *; [constructor|].
  destruct (Z.le_ge_cases 0 s).
  - replace (Z.min (s * n) 0) with (s * 0) by nia. constructor; [lia|done].
  - replace (Z.min (s * n) 0) with (s * n) by nia. constructor; [lia|done].
Qed.

Lemma reach_high l : Forall (fun d => 0 <= d.2) l -> reach l (high l).
Proof.
  induction 1 as [|[s n] l Hn Hl IH]; simpl in *; [constructor|].
  destruct (Z.le_ge_cases 0 s).
  - replace (Z.max (s * n) 0) with (s * n) by nia. constructor; [lia|done].
  - replace (Z.max (s * n) 0) with (s * 0) by nia. constructor; [lia|done].
Qed.

Lemma reach_start l : Forall (fun d => 0 <= d.2) l -> reach l 0.
Proof.
  induction 1 as [|[s n] l Hn Hl IH]; [constructor|].
  replace 0 with (s * 0 + 0) by lia. constructor; [simpl in *; lia|done].
Qed.

(** The position with the given indices. *)
Lemma reach_at l idx a :
  Forall2 (fun d i => 0 <= i <= d.2) l idx ->
  foldr Z.add 0 (zip_with (fun d i => d.1 * i) l idx) = a -> reach l a.
Proof. intros Hl <-. induction Hl as [|[s n] i l idx Hi Hl IH]; simpl; by constructor. Qed.

(** The five loops of a transfer: pixels, rows, and three repetitions. *)
Definition dims (d : nvpva_dma_descriptor) (src_dst : bool) : list (Z * Z) :=
  let b := bpp_size (bytePerPixel d) in
  (b, last_tx d src_dst) ::
  if src_dst
  then [(dstLinePitch d * b, last_ty d src_dst); (dstAdv1 d * b, dstRpt1 d);
        (dstAdv2 d * b, dstRpt2 d); (dstAdv3 d * b, dstRpt3 d)]
  else [(srcLinePitch d * b, last_ty d src_dst); (srcAdv1 d * b, srcRpt1 d);
        (srcAdv2 d * b, srcRpt2 d); (srcAdv3 d * b, srcRpt3 d)].

(** The byte [a] of the buffer is read or written, when the transfer starts at [off]. *)
Definition touches (d : nvpva_dma_descriptor) (src_dst : bool) (off a : Z) : Prop :=
  exists o b, reach (dims d src_dst) o /\ 0 <= b < bpp_size (bytePerPixel d) /\ a = off + o + b.

Lemma bpp_pos bpp : 0 < bpp_size bpp <= 4.
Proof. unfold bpp_size. repeat case_if; lia. Qed.

(** A transfer touches bytes from [off + low] to [off + high + bpp - 1]. *)
Lemma touches_within d dst off lo hi :
  Forall (fun x => 0 <= x.2) (dims d dst) ->
  (forall a, touches d dst off a -> lo <= a < hi) <->
  lo <= off + low (dims d dst) /\ off + high (dims d dst) + bpp_size (bytePerPixel d) - 1 < hi.
Proof.
  intros Hd. pose proof (bpp_pos (bytePerPixel d)) as Hb. split.
  - intros Hall.
    assert (H1 : touches d dst off (off + low (dims d dst) + 0)).
    { exists (low (dims d dst)), 0. split_and!; [by apply reach_low|lia|lia|lia]. }
    assert (H2 : touches d dst off (off + high (dims d dst) + (bpp_size (bytePerPixel d) - 1))).
    { exists (high (dims d dst)), (bpp_size (bytePerPixel d) - 1).
      split_and!; [by apply reach_high|lia|lia|lia]. }
    apply Hall in H1, H2. lia.
  - intros Hlh a (o & b & Ho%reach_bounds & Hb' & ->). lia.
Qed.

(** The sums that the check computes. *)
Definition range_start (d : nvpva_dma_descriptor) (dst : bool) : Z := low (dims d dst).
Definition range_end (d : nvpva_dma_descriptor) (dst : bool) : Z :=
  high (dims d dst) + bpp_size (bytePerPixel d) - 1.

Definition cb_enabled (d : nvpva_dma_descriptor) (dst : bool) : Z :=
  if dst then dstCbEnable d else srcCbEnable d.

(** The start of a transfer, and of the second destination, as offsets into the
    buffer. *)
Definition start_offset (d : nvpva_dma_descriptor) (bh : Z) (dst dst2 : bool) : option (Z * Z) :=
  pitch_linear_eq_offset d (s64 (surfBLOffset d)) (u8 bh) (bytePerPixel d) dst dst2.

(** Not an empty transfer, and no padding that swallows it. *)
Definition proper_tile (d : nvpva_dma_descriptor) (dst : bool) : Prop :=
  0 < tx d /\ 0 < ty d /\ 0 <= last_tx d dst /\ 0 <= last_ty d dst.

Lemma dims_count d dst : desc_wf d -> proper_tile d dst -> Forall (fun x => 0 <= x.2) (dims d dst).
Proof.
  intros [] (_ & _ & Hx & Hy). unfold dims. destruct dst; repeat constructor; simpl; try done;
    unfold_width; lia.
Qed.

Lemma start_sum d dst (b := bpp_size (bytePerPixel d)) :
  fold_left (fun a v => a + Z.min (v * b) 0) (steps d dst) (Z.min (last_tx d dst * b) 0) =
  range_start d dst.
Proof. unfold range_start, dims, steps. destruct dst; simpl; fold b; lia. Qed.

Lemma end_sum d dst (b := bpp_size (bytePerPixel d)) :
  0 <= last_tx d dst ->
  fold_left (fun a v => a + Z.max (v * b) 0) (steps d dst)
    (Z.max (last_tx d dst * b + (b - 1)) 0) = range_end d dst.
Proof.
  intros Hx. pose proof (bpp_pos (bytePerPixel d)) as Hb. fold b in Hb.
  unfold range_end, dims, steps. fold b.
  assert (Z.max (last_tx d dst * b + (b - 1)) 0 = Z.max (b * last_tx d dst) 0 + b - 1) as -> by nia.
  destruct dst; simpl; lia.
Qed.

(** Offset and size of one destination or source: the test for them. *)
Definition within (d : nvpva_dma_descriptor) (dst : bool) (o m : Z) : bool :=
  (0 <=? s64 (o + range_start d dst)) && (s64 (o + range_end d dst) <? s64 m).

(** What the check computes, outside circular buffers. *)
Lemma check_address_range_eq d max max2 dst dst2 bh off off2 :
  proper_tile d dst -> cb_enabled d dst <> 1 -> 0 <= max < 2 ^ 63 ->
  start_offset d bh dst false = Some (0, off) ->
  (if dst then start_offset d bh false true else Some (0, 0)) = Some (0, off2) ->
  check_address_range d max max2 dst dst2 bh =
    Some (if dst2 && ((UINT_MAX <? max2) || negb (within d dst off2 max2)) then - EINVAL
          else if within d dst off max then 0 else - EINVAL).
Proof.
  intros (Hx & Hy & Hlx & Hly) Hcb Hmax E1 E2. unfold check_address_range.
  rewrite !(proj2 (Z.eqb_neq _ 0)) by lia. cbv zeta.
  rewrite start_sum, end_sum by done. unfold start_offset, cb_enabled in *.
  assert (Hs : (s64 max <? 0) = false) by (apply Z.ltb_ge; rewrite s64_id by (split; lia); lia).
  assert (Hb : (if dst then (dstCbEnable d, dstCbSize d) else (srcCbEnable d, srcCbSize d)) =
    (cb_enabled d dst, if dst then dstCbSize d else srcCbSize d)) by by destruct dst.
  rewrite Hb. unfold cb_enabled. rewrite (proj2 (Z.eqb_neq _ 1)) by done. rewrite E1, E2. simpl.
  rewrite Hs. unfold within.
  set (w := (0 <=? s64 (off + _)) && _). set (w2 := (0 <=? s64 (off2 + _)) && _).
  by destruct dst2, w, w2, (UINT_MAX <? max2).
Qed.

(** Sums far from the ends of 64 bits. *)
Lemma range_small d dst :
  desc_wf d -> proper_tile d dst -> - 2 ^ 55 <= range_start d dst <= 0 /\ 0 <= range_end d dst <= 2 ^ 55.
Proof.
  intros [] (Hx & Hy & Hlx & Hly). pose proof (bpp_pos (bytePerPixel d)) as Hb.
  unfold range_start, range_end, dims. set (b := bpp_size (bytePerPixel d)) in *.
  assert (Hpx : 0 <= last_tx d dst < 2 ^ 16).
  { split; [done|]. unfold last_tx in *. unfold_width. case_if; lia. }
  assert (Hpy : 0 <= last_ty d dst < 2 ^ 16).
  { split; [done|]. unfold last_ty in *. unfold_width. case_if; lia. }
  clear Hlx Hly. set (lx := last_tx d dst) in *. set (ly := last_ty d dst) in *.
  assert (Hm : forall s n, - 2 ^ 31 <= s < 2 ^ 31 -> 0 <= n < 2 ^ 16 ->
    - 2 ^ 50 <= Z.min (s * b * n) 0 <= 0 /\ 0 <= Z.max (s * b * n) 0 <= 2 ^ 50).
  { intros s n Hs Hn. assert (- 2 ^ 47 <= s * n <= 2 ^ 47) by nia. nia. }
  unfold_width.
  destruct dst; simpl; rewrite ?(Z.mul_comm b lx).
  all: pose proof (Hm 1 lx ltac:(lia) ltac:(lia)).
  - pose proof (Hm (dstLinePitch d) ly ltac:(lia) ltac:(lia)).
    pose proof (Hm (dstAdv1 d) (dstRpt1 d) ltac:(lia) ltac:(lia)).
    pose proof (Hm (dstAdv2 d) (dstRpt2 d) ltac:(lia) ltac:(lia)).
    pose proof (Hm (dstAdv3 d) (dstRpt3 d) ltac:(lia) ltac:(lia)). lia.
  - pose proof (Hm (srcLinePitch d) ly ltac:(lia) ltac:(lia)).
    pose proof (Hm (srcAdv1 d) (srcRpt1 d) ltac:(lia) ltac:(lia)).
    pose proof (Hm (srcAdv2 d) (srcRpt2 d) ltac:(lia) ltac:(lia)).
    pose proof (Hm (srcAdv3 d) (srcRpt3 d) ltac:(lia) ltac:(lia)). lia.
Qed.

Lemma within_exact d dst off m :
  desc_wf d -> proper_tile d dst -> - 2 ^ 62 <= off < 2 ^ 62 -> 0 <= m < 2 ^ 63 ->
  within d dst off m = true <-> forall a, touches d dst off a -> 0 <= a < m.
Proof.
  intros Hd Ht Ho Hm. rewrite (touches_within d dst off 0 m) by (by apply dims_count).
  destruct (range_small d dst Hd Ht) as [Hlo Hhi]. unfold within.
  rewrite !s64_id by (unfold is_s64; lia). unfold range_start, range_end in *.
  rewrite andb_true_iff, Z.leb_le, Z.ltb_lt. lia.
Qed.

Lemma check_address_range_ok d max max2 dst dst2 bh off off2 :
  desc_wf d -> proper_tile d dst -> cb_enabled d dst <> 1 ->
  0 <= max < 2 ^ 63 -> (dst2 = true -> 0 <= max2 < 2 ^ 63) ->
  start_offset d bh dst false = Some (0, off) ->
  (if dst then start_offset d bh false true else Some (0, 0)) = Some (0, off2) ->
  - 2 ^ 62 <= off < 2 ^ 62 -> (dst2 = true -> - 2 ^ 62 <= off2 < 2 ^ 62) ->
  (check_address_range d max max2 dst dst2 bh = Some 0 <->
     (forall a, touches d dst off a -> 0 <= a < max) /\
     (dst2 = true -> max2 <= UINT_MAX /\ forall a, touches d dst off2 a -> 0 <= a < max2)) /\
  (check_address_range d max max2 dst dst2 bh = Some 0 \/
   check_address_range d max max2 dst dst2 bh = Some (- EINVAL)).
Proof.
  intros Hd Ht Hcb Hm Hm2 E1 E2 Ho Ho2.
  rewrite (check_address_range_eq d max max2 dst dst2 bh off off2) by done.
  rewrite <- (within_exact d dst off max) by done. destruct dst2; simpl.
  - rewrite <- (within_exact d dst off2 max2) by auto.
    destruct (Z.ltb_spec UINT_MAX max2), (within d dst off2 max2), (within d dst off max);
      simpl; intuition (try done; try lia).
  - destruct (within d dst off max); intuition (try done; try lia).
Qed.

(** C25. The range check of PVA DMA descriptors is exact, outside circular buffers and
    when the start is below 2^62: it accepts a source or destination exactly when
    every byte that the five nested loops of the transfer touch lies in the buffer,
    and, for a destination that is written twice, exactly when this also holds for
    the second buffer, which must be of a 32-bit size.  The start is the descriptor's
    offset, or for a block-linear surface its pitch-linear equivalent. *)
Theorem address_range_exact d max max2 dst dst2 bh off off2 :
  desc_wf d -> proper_tile d dst -> cb_enabled d dst <> 1 ->
  0 <= max < 2 ^ 63 -> (dst2 = true -> 0 <= max2 < 2 ^ 63) ->
  start_offset d bh dst false = Some (0, off) ->
  (if dst then start_offset d bh false true else Some (0, 0)) = Some (0, off2) ->
  - 2 ^ 62 <= off < 2 ^ 62 -> (dst2 = true -> - 2 ^ 62 <= off2 < 2 ^ 62) ->
  (check_address_range d max max2 dst dst2 bh = Some 0 <->
     (forall a, touches d dst off a -> 0 <= a < max) /\
     (dst2 = true -> max2 <= UINT_MAX /\ forall a, touches d dst off2 a -> 0 <= a < max2)) /\
  (check_address_range d max max2 dst dst2 bh = Some 0 \/
   check_address_range d max max2 dst dst2 bh = Some (- EINVAL)).
Proof. apply check_address_range_ok. Qed.

(** * Block-linear surfaces

    The reference: a surface is cut into block rows of [8 * 2^h] lines, these into
    blocks of 64 bytes by [8 * 2^h] lines, and these into GOBs of 64 bytes by 8 lines,
    in which the bits of the coordinates are interleaved. *)
Definition gob_offset (x y : Z) : Z :=
  x mod 16 + 16 * (y mod 2) + 32 * (x / 16 mod 2) + 64 * (y / 2) + 256 * (x / 32).

Definition bl_address (pitch h x y : Z) : Z :=
  let lines := 8 * 2 ^ h in
  y / lines * (pitch * lines) + x / 64 * (64 * lines) + y mod lines / 8 * 512 +
  gob_offset (x mod 64) (y mod 8).

(** The coordinates within a GOB, from the nine low bits of an offset. *)
Definition gob_x (g : Z) : Z :=
  Z.land g LOW_BITS + Z.b2z (Z.testbit g 5) * 16 + Z.b2z (Z.testbit g 8) * 32.
Definition gob_y (g : Z) : Z :=
  Z.b2z (Z.testbit g 4) + Z.b2z (Z.testbit g 6) * 2 + Z.b2z (Z.testbit g 7) * 4.

Lemma gob_inverse g : 0 <= g < 512 ->
  0 <= gob_x g < 64 /\ 0 <= gob_y g < 8 /\ gob_offset (gob_x g) (gob_y g) = g.
Proof.
  intros Hg.
  assert (Hall : forallb (fun n => let g := Z.of_nat n in
    (0 <=? gob_x g) && (gob_x g <? 64) && ((0 <=? gob_y g) && (gob_y g <? 8)) &&
    (gob_offset (gob_x g) (gob_y g) =? g)) (seq 0 512) = true) by (vm_compute; reflexivity).
  rewrite forallb_forall in Hall. specialize (Hall (Z.to_nat g)).
  rewrite Z2Nat.id in Hall by lia. rewrite in_seq in Hall. specialize (Hall ltac:(lia)).
  cbv zeta in Hall. rewrite !andb_true_iff, !Z.leb_le, !Z.ltb_lt, Z.eqb_eq in Hall. lia.
Qed.

Lemma gob_low_bits o : gob_x (o mod 512) = gob_x o /\ gob_y (o mod 512) = gob_y o.
Proof.
  assert (Hb : forall i, 0 <= i < 9 -> Z.testbit (o mod 512) i = Z.testbit o i)
    by (intros i Hi; exact (Z.mod_pow2_bits_low o 9 i (proj2 Hi))).
  unfold gob_x, gob_y. rewrite !Hb by lia. split; [|done].
  do 2 f_equal. change LOW_BITS with (Z.ones 4). rewrite !Z.land_ones by lia.
  change 512 with (2 ^ 4 * 2 ^ 5). apply Z.bits_inj'. intros n Hn.
  destruct (Z.lt_ge_cases n 4).
  - rewrite !Z.mod_pow2_bits_low by lia. rewrite <- Z.pow_add_r by lia.
    by rewrite Z.mod_pow2_bits_low by lia.
  - by rewrite !Z.mod_pow2_bits_high by lia.
Qed.

(** The block row, the block, the GOB and the place in it of an offset, where blocks
    have [b] bytes and there are [k] of them in a row. *)
Lemma block_parts o b k :
  0 <= o -> 0 < b -> 0 < k -> b mod 512 = 0 ->
  let r := o - o / (k * b) * (k * b) in
  0 <= r / b < k /\ 0 <= o mod b / 512 < b / 512 /\
  o = o / (k * b) * (k * b) + r / b * b + o mod b / 512 * 512 + o mod 512.
Proof.
  intros Ho Hb Hk H512 r.
  assert (Hr : r = o mod (k * b)) by (unfold r; rewrite (Z.mod_eq o (k * b)) by nia; lia).
  assert (Hrb : o mod b = r mod b).
  { rewrite Hr. rewrite (Z.mul_comm k b), Z.rem_mul_r by lia.
    rewrite (Z.mul_comm b), Z.mod_add by lia. by rewrite Z.mod_mod by lia. }
  assert (H0 : 0 <= r < k * b) by (rewrite Hr; apply Z.mod_pos_bound; nia).
  assert (Hbq : b = 512 * (b / 512)) by (apply Z.div_exact; lia).
  assert (Hog : o mod 512 = (o mod b) mod 512).
  { rewrite Hbq, Z.rem_mul_r by lia. rewrite (Z.mul_comm 512), Z.mod_add by lia.
    by rewrite Z.mod_mod by lia. }
  pose proof (Z.mod_pos_bound o b Hb). split_and!.
  - apply Z.div_pos; lia.
  - apply Z.div_lt_upper_bound; nia.
  - apply Z.div_pos; lia.
  - apply Z.div_lt_upper_bound; lia.
  - rewrite Hog. pose proof (Z.div_mod (o mod b) 512 ltac:(lia)).
    pose proof (Z.div_mod r b ltac:(lia)). unfold r in *. lia.
Qed.

(** The part of [pitch_linear_eq_offset] after the checks, without the wraps. *)
Lemma bl_coordinates o k h :
  0 <= o < 2 ^ 32 -> 0 < k < 2 ^ 12 -> 0 <= h <= 5 ->
  let rop := k * 2 ^ (9 + h) in
  let x := bl_x o ((o - o / rop * rop) / 2 ^ (9 + h)) in
  let y := bl_y o (o mod 2 ^ (9 + h) / 512) in
  let yy := o / rop * (8 * 2 ^ h) + y in
  0 <= x < 64 * k /\ 0 <= y < 8 * 2 ^ h /\ bl_address (64 * k) h x yy = o.
Proof.
  intros Ho Hk Hh. assert (Hp : 1 <= 2 ^ h <= 2 ^ 5) by (split; [apply (Z.pow_le_mono_r 2 0)|apply Z.pow_le_mono_r]; lia).
  assert (E9 : 2 ^ (9 + h) = 512 * 2 ^ h) by (rewrite Z.pow_add_r by lia; done). rewrite E9.
  set (b := 512 * 2 ^ h). intros rop x y yy.
  destruct (block_parts o b k) as (Hblk & Hgob & Hsum); [lia|lia|lia|unfold b; by rewrite Z.mul_comm, Z.mod_mul|].
  fold rop in Hblk, Hsum. set (bi := (o - o / rop * rop) / b) in *. set (gi := o mod b / 512) in *.
  assert (Hgi : gi < 2 ^ h) by (unfold b in Hgob; rewrite (Z.mul_comm 512), Z.div_mul in Hgob by lia; lia).
  destruct (gob_inverse (o mod 512)) as (Hgx & Hgy & Hinv); [apply Z.mod_pos_bound; lia|].
  destruct (gob_low_bits o) as [Ex Ey]. rewrite Ex, Ey in *.
  assert (Hx : x = 64 * bi + gob_x o).
  { unfold x, bl_x. fold (gob_x o). rewrite Z.shiftl_mul_pow2 by done.
    unfold BL_GOB_WIDTH_LOG2. change (2 ^ 6) with 64. rewrite (u32_id (bi * 64)) by width_lia.
    rewrite u32_id by width_lia. lia. }
  assert (Hy : y = 8 * gi + gob_y o).
  { unfold y, bl_y. fold (gob_y o). rewrite Z.shiftl_mul_pow2 by done.
    unfold BL_GOB_HEIGHT_LOG2. change (2 ^ 3) with 8. rewrite (u32_id (gi * 8)) by width_lia.
    rewrite u32_id by width_lia. lia. }
  split_and!; [nia..|]. unfold bl_address. set (lines := 8 * 2 ^ h) in *.
  assert (Hyl : 0 <= y < lines) by (unfold lines; nia).
  assert (Q1 : yy / lines = o / rop).
  { unfold yy. rewrite Z.div_add_l, (Z.div_small y) by lia. lia. }
  assert (Q2 : yy mod lines = y) by (unfold yy; rewrite Z.add_comm, Z.mod_add, Z.mod_small; lia).
  assert (Q3 : yy mod 8 = gob_y o).
  { unfold yy, lines. rewrite Hy. replace (_ + _) with (gob_y o + (o / rop * 2 ^ h + gi) * 8) by lia.
    rewrite Z.mod_add by lia. by apply Z.mod_small. }
  assert (Q4 : x / 64 = bi) by (rewrite Hx; symmetry; apply (Z.div_unique _ _ _ (gob_x o)); lia).
  assert (Q5 : x mod 64 = gob_x o) by (rewrite Hx; symmetry; apply (Z.mod_unique _ _ bi); lia).
  assert (Q6 : y / 8 = gi) by (rewrite Hy; symmetry; apply (Z.div_unique _ _ _ (gob_y o)); lia).
  rewrite Q1, Q2, Q3, Q4, Q5, Q6, Hinv. unfold rop, b, lines in *. lia.
Qed.

(** The accepted case. *)
Lemma block_linear_accept d surf h bpp dst dst2 fmt off pitch p k :
  plane d dst dst2 = (fmt, off, pitch, 0) -> fmt <> 0 -> off mod 64 = 0 -> 0 <= h <= 5 ->
  0 <= bpp <= 31 -> u32 (Z.shiftl pitch bpp) = p -> p = 64 * k -> 0 <= k < 2 ^ 12 ->
  - 2 ^ 62 <= surf < 2 ^ 62 ->
  let r := pitch_linear_eq_offset d surf h bpp dst dst2 in
  (k = 0 -> r = None) /\
  (0 < k -> exists x y, 0 <= x < p /\ 0 <= y /\ bl_address p h x y = u32 (off - surf) /\
     r = Some (0, surf + y * p + x)).
Proof.
  intros Epl Hf%Z.eqb_neq Ho64 Hh Hb Ep Ek Hk0 Hs r. unfold r, pitch_linear_eq_offset.
  rewrite Epl, Hf, Ep, Ho64. unfold NVPVA_MAX_VALID_BLK_HGT_LG2, BL_GOB_SIZE_LOG2.
  rewrite (proj2 (Z.ltb_ge 5 h)), (proj2 (Z.ltb_ge 31 bpp)) by lia. simpl.
  change BL_GOB_WIDTH_LOG2_ALIGNMASK with (Z.ones 6). rewrite Z.land_ones by lia.
  rewrite Z.shiftr_div_pow2 by done. unfold BL_GOB_WIDTH_LOG2. change (2 ^ 6) with 64.
  assert (Hp64 : p mod 64 = 0) by (rewrite Ek, Z.mul_comm; by apply Z.mod_mul).
  assert (Hpk : p / 64 = k) by (rewrite Ek, Z.mul_comm; by apply Z.div_mul).
  rewrite Hp64, Hpk. simpl.
  assert (Hk2 : 2 ^ 9 <= 2 ^ (9 + h) <= 2 ^ 14) by (split; apply Z.pow_le_mono_r; lia).
  assert (Erop : u32 (Z.shiftl k (9 + h)) = k * 2 ^ (9 + h)).
  { rewrite Z.shiftl_mul_pow2 by lia. apply u32_id. unfold_width. nia. }
  rewrite Erop. split; [by intros ->|].
  intros Hpos. assert (Hk : 0 < k < 2 ^ 12) by lia. rewrite (proj2 (Z.eqb_neq _ 0)) by nia.
  set (o := u32 (s32 (off - surf))).
  assert (Eo : o = u32 (off - surf)) by (unfold o; width_lia).
  pose proof (u32_range (off - surf)) as Ho. rewrite <- Eo in Ho. unfold is_u32 in Ho.
  destruct (bl_coordinates o k h Ho Hk Hh) as (Hx & Hy & Ha).
  set (rop := k * 2 ^ (9 + h)) in *.
  assert (Hq : 0 <= o / rop * rop <= o).
  { assert (0 < rop) by (unfold rop; nia). pose proof (Z.mul_div_le o rop). 
    assert (0 <= o / rop) by (apply Z.div_pos; lia). nia. }
  rewrite (u32_id (o / rop * rop)) by (unfold is_u32; lia).
  rewrite (u32_id (o - _)) by (unfold is_u32; lia).
  rewrite (Z.shiftr_div_pow2 (o - _)), (Z.shiftr_div_pow2 (Z.land _ _)) by lia.
  assert (Emask : Z.shiftr 0xFFFFFFFF (32 - (9 + h)) = Z.ones (9 + h)).
  { change 0xFFFFFFFF with (Z.ones 32). rewrite Z.shiftr_div_pow2, Z.ones_div_pow2 by lia. f_equal. lia. }
  rewrite Emask, Z.land_ones by lia.
  assert (E8 : 8 * 2 ^ h <= 256) by (assert (2 ^ h <= 2 ^ 5) by (apply Z.pow_le_mono_r; lia); lia).
  set (x := bl_x _ _) in *. set (y := bl_y _ _) in *.
  rewrite (u32_id (y * p)) by (unfold is_u32; nia).
  exists x, (o / rop * (8 * 2 ^ h) + y). rewrite Ek, <- Eo.
  assert (0 <= o / rop) by (apply Z.div_pos; unfold rop in *; nia).
  split_and!; [lia|lia|nia|exact Ha|]. f_equal. f_equal.
  assert (Er : rop = 8 * 2 ^ h * (64 * k)) by (unfold rop; rewrite Z.pow_add_r by lia; lia).
  rewrite s64_id; [rewrite Er; lia|]. unfold is_s64. nia.
Qed.

(** C37. The translation of block-linear offsets, for every input.  Pitch-linear offsets
    are kept.  A block height above 5, a circular buffer, a line pitch that is no
    multiple of 64 bytes and an offset that is not aligned are refused; with a line
    pitch of 0 the code divides by zero.  Otherwise the result is the pitch-linear
    offset of the pixel that the layout places at the given distance from the start of
    the surface.  The distance is taken modulo 2^32, so that offsets that differ by a
    multiple of 2^32 are the same to the range check. *)
Theorem block_linear_correct d surf h bpp dst dst2 :
  let '(fmt, off, pitch, cb) := plane d dst dst2 in
  let r := pitch_linear_eq_offset d surf h bpp dst dst2 in
  let p := pitch * 2 ^ bpp in
  is_u16 pitch -> is_u64 off -> 0 <= h -> 0 <= bpp <= 2 -> - 2 ^ 62 <= surf < 2 ^ 62 ->
  (fmt = 0 -> r = Some (0, s64 off)) /\
  (fmt <> 0 -> (5 < h \/ cb <> 0 \/ p mod 64 <> 0 \/ off mod 64 <> 0) -> r = Some (- EINVAL, 0)) /\
  (fmt <> 0 -> h <= 5 -> cb = 0 -> p mod 64 = 0 -> off mod 64 = 0 ->
     (pitch = 0 -> r = None) /\
     (0 < pitch -> exists x y, 0 <= x < p /\ 0 <= y /\ bl_address p h x y = u32 (off - surf) /\
        r = Some (0, surf + y * p + x))).
Proof.
  destruct (plane d dst dst2) as [[[fmt off] pitch] cb] eqn:Epl. intros r p Hpi Hoff Hh Hb Hs.
  assert (H2 : 1 <= 2 ^ bpp <= 2 ^ 2) by (split; [apply (Z.pow_le_mono_r 2 0)|apply Z.pow_le_mono_r]; lia).
  assert (Ep : u32 (Z.shiftl pitch bpp) = p).
  { rewrite Z.shiftl_mul_pow2 by lia. apply u32_id. unfold p. unfold_width. nia. }
  assert (Hp : 0 <= p < 2 ^ 18) by (unfold p; unfold_width; nia).
  split_and!.
  - intros ->. unfold r, pitch_linear_eq_offset. by rewrite Epl.
  - intros Hf%Z.eqb_neq Hbad. unfold r, pitch_linear_eq_offset.
    rewrite Epl, Hf, Ep, (proj2 (Z.ltb_ge 31 bpp)) by lia.
    change BL_GOB_WIDTH_LOG2_ALIGNMASK with (Z.ones 6). rewrite Z.land_ones by lia.
    change (2 ^ 6) with 64. unfold NVPVA_MAX_VALID_BLK_HGT_LG2.
    destruct (Z.ltb_spec 5 h) as [|Hh5]; [done|].
    destruct (Z.eqb_spec cb 0), (Z.eqb_spec (p mod 64) 0), (Z.eqb_spec (off mod 64) 0); simpl; try done. lia.
  - intros Hf Hh5 -> Hp64 Ho64. assert (Ek : p = 64 * (p / 64)) by (apply Z.div_exact; lia).
    destruct (block_linear_accept d surf h bpp dst dst2 fmt off pitch p (p / 64)) as [Hz Hk]; try done; try lia.
    split; [intros ->; by apply Hz|]. intros Hpos. apply Hk.
    assert (0 < p) by (unfold p; nia). lia.
Qed.

(** * Instances *)

(** A tile of [w] by [h] bytes from a surface with the given pitch. *)
Definition tile_desc (w h pitch off format : Z) : nvpva_dma_descriptor :=
  mk_desc 1 0 0 off 0 0 0 w h pitch 0 0 0 0 0 0 0 0 0 0 0 0 0 0 0 0 0 0 0 0 0 0 0 0 0
    1 2 format 0 0 0 0 0 0 0.

Lemma tile_desc_wf w h pitch off format :
  is_u16 w -> is_u16 h -> is_u16 pitch -> is_u64 off -> desc_wf (tile_desc w h pitch off format).
Proof. intros ????. split; simpl; try done; split; done. Qed.

(** 16 by 4 bytes with a pitch of 64 end at byte 208. *)
Lemma address_range_exact_witness :
  check_address_range (tile_desc 16 4 64 0 0) 208 0 false false 0 = Some 0 /\
  (forall a, touches (tile_desc 16 4 64 0 0) false 0 a -> 0 <= a < 208) /\
  check_address_range (tile_desc 16 4 64 0 0) 207 0 false false 0 <> Some 0.
Proof.
  assert (Hwf : desc_wf (tile_desc 16 4 64 0 0)) by (apply tile_desc_wf; width_lia).
  assert (Ht : proper_tile (tile_desc 16 4 64 0 0) false) by (unfold proper_tile; split_and!; done).
  split; [by vm_compute|]. split; [|by vm_compute].
  destruct (address_range_exact (tile_desc 16 4 64 0 0) 208 0 false false 0 0 0 Hwf Ht)
    as [Hex _]; [done|lia|done|by vm_compute|done|lia|done|].
  apply Hex. by vm_compute.
Defined.

(** A start near 2^63 is accepted whatever the size of the buffer, since the sum with
    the length of the transfer wraps around. *)
Lemma offset_wraps max :
  0 < max < 2 ^ 63 ->
  let d := tile_desc 2 1 64 (2 ^ 63 - 1) 0 in
  check_address_range d max 0 false false 0 = Some 0 /\ touches d false (2 ^ 63 - 1) (2 ^ 63).
Proof.
  intros Hm d. split.
  - rewrite (check_address_range_eq d max 0 false false 0 (2 ^ 63 - 1) 0); try done.
    2: lia.
    unfold within. change (range_start d false) with 0. change (range_end d false) with 1.
      change (s64 (2 ^ 63 - 1 + 1)) with (- 2 ^ 63). rewrite (s64_id max) by (unfold is_s64; lia).
      rewrite (proj2 (Z.ltb_lt _ max)) by lia. done.
  - exists 1, 0. split_and!; [|done|done|lia].
    apply (reach_high (dims d false)). repeat constructor; simpl; done.
Qed.

(** In a circular buffer the size of the buffer in memory is not looked at. *)
Lemma circular_ignores_size d max max' max2 dst dst2 bh :
  cb_enabled d dst = 1 ->
  check_address_range d max max2 dst dst2 bh = check_address_range d max' max2 dst dst2 bh.
Proof. unfold cb_enabled, check_address_range. destruct dst; intros ->; done. Qed.

(** An offset into a surface of pitch 128 with blocks of 16 lines. *)
Lemma block_linear_witness :
  1 <= 5 /\ exists x y, bl_address 128 1 x y = 1792 /\
    pitch_linear_eq_offset (tile_desc 16 4 128 1792 1) 0 1 0 false false = Some (0, 0 + y * 128 + x).
Proof.
  split; [lia|].
  destruct (block_linear_correct (tile_desc 16 4 128 1792 1) 0 1 0 false false) as (_ & _ & Hacc);
    [by split|by split|done|by split|by split|].
  destruct Hacc as [_ (x & y & _ & _ & Hxy & Hr)]; [done..|].
  exists x, y. split; [exact Hxy | exact Hr].
Defined.
