(* ===== verification/PvaMap.v ===== *)
(** Checking and translating one PVA DMA descriptor:
    drivers/video/tegra/host/pva/pva_dma.c (validate_descriptor,
    patch_dma_desc_address, and the body of nvpva_task_dma_desc_mapping), pva_queue.c
    (pva_task_pin_mem), pva_vpu_exe.c (pva_get_sym_offset), and the hardware's
    descriptor of fw_include/pva-sys-dma.h.

    Addresses in a descriptor are relative to a buffer, a symbol of the VPU program or
    the task's L2 memory.  [patched_transfer_safe] shows that the absolute addresses
    written for the hardware keep every byte of the transfer in the region that was
    named. *)
From S2P Require Import Prelude PvaDesc.

(** * The task *)

(** A pinned buffer, or a symbol: where it is and how large. *)
Record pva_region := mk_region { dma_addr : Z; size : Z }.

(** What does not change while descriptors are mapped. *)
Record pva_env := mk_env {
  version : Z;                          (* PVA_HW_GEN1, ... *)
  find_map_buffer_id : Z -> option pva_region;  (* the client's mapped buffers *)
  image_sym : option (list pva_region); (* the symbols of the program, if registered *)
  l2_alloc_size : Z;                    (* u32 *)
  is_system_app : bool;
  hwseqTrigMode : Z;                    (* u32 *)
  num_dma_descriptors : Z               (* u8 *)
}.

Definition PVA_HW_GEN1 := 1.
Definition PVA_HW_GEN2 := 2.
Definition NVPVA_INVALID_SYMBOL_ID := 0xFFFF.
Definition MAX_NUM_PINNED := 256.
Definition U32_MAX := 0xFFFFFFFF.

(** The sizes of the buffers of one descriptor. *)
Record pva_dma_task_buffer_info_s := mk_info {
  src_buffer_size : Z; dst_buffer_size : Z; dst2_buffer_size : Z }.

Record task_st := mk_task {
  pinned_memory : list Z;               (* the identifiers that have been pinned *)
  src_surf_base_addr : Z; dst_surf_base_addr : Z;  (* u64 *)
  special_access : Z;
  buff_info : pva_dma_task_buffer_info_s  (* of the descriptor being mapped *)
}.

Definition set_pinned l s :=
  mk_task l (src_surf_base_addr s) (dst_surf_base_addr s) (special_access s) (buff_info s).
Definition set_src_surf a s :=
  mk_task (pinned_memory s) a (dst_surf_base_addr s) (special_access s) (buff_info s).
Definition set_dst_surf a s :=
  mk_task (pinned_memory s) (src_surf_base_addr s) a (special_access s) (buff_info s).
Definition set_special v s :=
  mk_task (pinned_memory s) (src_surf_base_addr s) (dst_surf_base_addr s) v (buff_info s).
Definition set_info i s :=
  mk_task (pinned_memory s) (src_surf_base_addr s) (dst_surf_base_addr s) (special_access s) i.
Definition set_src_size v s :=
  set_info (mk_info v (dst_buffer_size (buff_info s)) (dst2_buffer_size (buff_info s))) s.
Definition set_dst_size v s :=
  set_info (mk_info (src_buffer_size (buff_info s)) v (dst2_buffer_size (buff_info s))) s.
Definition set_dst2_size v s :=
  set_info (mk_info (src_buffer_size (buff_info s)) (dst_buffer_size (buff_info s)) v) s.

(** ** Functions that change the task, and leave with an error ([goto out]) or a value;
    [None] is a computation without a defined result. *)
Definition M (A : Type) : Type := task_st -> option (task_st * (Z + A)).

#[export] Instance M_ret : MRet M := fun A a s => Some (s, inr a).
#[export] Instance M_bind : MBind M := fun A B k m s =>
  match m s with
  | None => None
  | Some (s, inl err) => Some (s, inl err)
  | Some (s, inr a) => k a s
  end.
Definition fail {A} (err : Z) : M A := fun s => Some (s, inl err).
Definition modify (f : task_st -> task_st) : M unit := fun s => Some (f s, inr tt).
Definition gets {A} (f : task_st -> A) : M A := fun s => Some (s, inr (f s)).

(** [err = f(...); if (err) ...]: the error that is passed on is [on_err err]. *)
Definition check (on_err : Z -> Z) (r : option Z) : M unit := fun s =>
  match r with
  | None => None
  | Some err => if err =? 0 then Some (s, inr tt) else Some (s, inl (on_err err))
  end.
Definition einval (err : Z) : Z := - EINVAL.

(** * Validation *)
Definition TRIG_EVENT_MODE_DIM4 := 1.
Definition TRIG_EVENT_MODE_DIM3 := 2.
Definition NVPVA_HWSEQTM_DMATRIG := 1.

Definition DMA_DESC_SRC_XFER_INVAL := 0.
Definition DMA_DESC_SRC_XFER_MC := 1.
Definition DMA_DESC_SRC_XFER_VMEM := 2.
Definition DMA_DESC_SRC_XFER_L2RAM := 3.
Definition DMA_DESC_SRC_XFER_R5TCM := 4.
Definition DMA_DESC_SRC_XFER_MMIO := 5.
Definition DMA_DESC_SRC_XFER_RSVD := 6.
Definition DMA_DESC_SRC_XFER_VPU_CONFIG := 7.
Definition DMA_DESC_DST_XFER_INVAL := 0.
Definition DMA_DESC_DST_XFER_MC := 1.
Definition DMA_DESC_DST_XFER_VMEM := 2.
Definition DMA_DESC_DST_XFER_L2RAM := 3.
Definition DMA_DESC_DST_XFER_R5TCM := 4.
Definition DMA_DESC_DST_XFER_MMIO := 5.
Definition DMA_DESC_DST_XFER_RSVD1 := 6.
Definition DMA_DESC_DST_XFER_RSVD2 := 7.

(** The events, in the order of their values, are: none, read 0, store 0,
    configuration, and then a read and a store for each of 1 to 6. *)
Definition is_valid_vpu_trigger_mode (d : nvpva_dma_descriptor) (trigger_mode : Z) : bool :=
  let src_config := srcTransferMode d =? DMA_DESC_SRC_XFER_VPU_CONFIG in
  if trigEventMode d =? 0 then true
  else if trigVpuEvents d =? 0 then trigger_mode =? NVPVA_HWSEQTM_DMATRIG
  else if trigVpuEvents d =? 3 then src_config
  else if bool_decide (trigVpuEvents d ∈ [1; 4; 6; 8; 10; 12; 14])
  then src_config || (dstTransferMode d =? DMA_DESC_DST_XFER_VMEM)
  else if bool_decide (trigVpuEvents d ∈ [2; 5; 7; 9; 11; 13; 15])
  then src_config || (srcTransferMode d =? DMA_DESC_SRC_XFER_VMEM)
  else false.

Definition validate_descriptor (d : nvpva_dma_descriptor) (trigger_mode : Z)
    (dim3_check_relaxed : bool) : Z :=
  let ret :=
    (dstTransferMode d =? DMA_DESC_DST_XFER_VMEM) &&
      ((negb (px d =? 0) && (tx d <=? px d)) || (negb (py d =? 0) && (ty d <=? py d))) in
  let ret := ret || negb (is_valid_vpu_trigger_mode d trigger_mode) in
  let ret := ret || ((trigEventMode d =? TRIG_EVENT_MODE_DIM4) &&
    ((srcRpt1 d =? 0) || (srcRpt2 d =? 0) || (dstRpt1 d =? 0) || (dstRpt2 d =? 0))) in
  let ret := ret || ((trigEventMode d =? TRIG_EVENT_MODE_DIM3) &&
    (if dim3_check_relaxed then (dstRpt1 d =? 0) || (dstRpt1 d <? srcRpt1 d)
     else (srcRpt1 d =? 0) || (dstRpt1 d =? 0))) in
  let ret := ret || ((srcFormat d =? 1) && negb (srcTransferMode d =? DMA_DESC_SRC_XFER_MC)) in
  let ret := ret || ((dstFormat d =? 1) && negb (dstTransferMode d =? DMA_DESC_DST_XFER_MC)) in
  if ret then - EINVAL else 0.

(** * Addresses *)
Section patch.
Variable env : pva_env.

Definition nvpva_buffer_submit_pin_id (id : Z) : Z + pva_region :=
  match find_map_buffer_id env id with None => inl (- EINVAL) | Some mem => inr mem end.

Definition pva_task_pin_mem (id : Z) : M pva_region := fun s =>
  if MAX_NUM_PINNED <=? Z.of_nat (length (pinned_memory s)) then Some (s, inl (- ENOMEM))
  else if id =? 0 then Some (s, inl (- EFAULT))
  else
    match nvpva_buffer_submit_pin_id id with
    | inl err => Some (s, inl err)
    | inr mem => Some (set_pinned (pinned_memory s ++ [id]) s, inr mem)
    end.

Definition pva_get_sym_offset (sym_id : Z) : option pva_region :=
  match image_sym env with
  | None => None
  | Some sym =>
      if (Z.of_nat (length sym) <=? sym_id) || (sym_id =? NVPVA_INVALID_SYMBOL_ID) then None
      else sym !! Z.to_nat sym_id
  end.

Definition get_sym (sym_id : Z) : M pva_region :=
  match pva_get_sym_offset sym_id with None => fail (- EINVAL) | Some r => mret r end.

Section desc.
Variables (d : nvpva_dma_descriptor) (hwseq_frm is_misr : bool) (block_height_log2 : Z).

Definition range (max max2 : Z) (src_dst dst2 : bool) : option Z :=
  check_address_range d max max2 src_dst dst2 block_height_log2.

(** The source: the base address, and whether it is the VPU's configuration. *)
Definition patch_src : M Z :=
  let m := srcTransferMode d in
  if m =? DMA_DESC_SRC_XFER_L2RAM then
    if version env =? PVA_HW_GEN1 then
      mem ← pva_task_pin_mem (srcPtr d);
      modify (set_src_size (size mem)) ≫= fun _ =>
      check id (range (size mem) 0 false false) ≫= fun _ =>
      mret (dma_addr mem)
    else
      modify (set_src_size (l2_alloc_size env)) ≫= fun _ =>
      (if hwseq_frm then mret tt else check id (range (l2_alloc_size env) 0 false false)) ≫= fun _ =>
      mret 0
  else if m =? DMA_DESC_SRC_XFER_VMEM then
    if U32_MAX <? src_offset d then fail (- EINVAL)
    else
      sym ← get_sym (srcPtr d);
      check einval (range (size sym) 0 false false) ≫= fun _ =>
      modify (set_src_size (size sym)) ≫= fun _ =>
      mret (dma_addr sym)
  else if m =? DMA_DESC_SRC_XFER_VPU_CONFIG then
    if negb (dstPtr d =? NVPVA_INVALID_SYMBOL_ID) || negb (dst2Ptr d =? NVPVA_INVALID_SYMBOL_ID)
       || (U32_MAX <? src_offset d)
    then fail (- EINVAL)
    else
      sym ← get_sym (srcPtr d);
      modify (set_src_size (size sym)) ≫= fun _ =>
      mret (dma_addr sym)
  else if m =? DMA_DESC_SRC_XFER_MC then
    mem ← pva_task_pin_mem (srcPtr d);
    (if hwseq_frm then mret tt else check einval (range (size mem) 0 false false)) ≫= fun _ =>
    modify (set_src_surf (dma_addr mem)) ≫= fun _ =>
    modify (set_src_size (size mem)) ≫= fun _ =>
    mret (if version env <=? PVA_HW_GEN2
          then Z.lor (dma_addr mem) (u64 (Z.shiftl (srcFormat d) 39)) else dma_addr mem)
  else if m =? DMA_DESC_SRC_XFER_R5TCM then
    if is_system_app env then modify (set_special 1) ≫= fun _ => mret 0 else fail (- EFAULT)
  else if (m =? DMA_DESC_SRC_XFER_MMIO) || (m =? DMA_DESC_SRC_XFER_INVAL)
          || (m =? DMA_DESC_SRC_XFER_RSVD)
  then fail (- EINVAL)
  else fail (- EFAULT).

Definition patch_dst : M Z :=
  let m := dstTransferMode d in
  if is_misr then
    if (m =? DMA_DESC_DST_XFER_L2RAM) || (m =? DMA_DESC_DST_XFER_MC) then mret (dstPtr d)
    else fail (- EINVAL)
  else if m =? DMA_DESC_DST_XFER_L2RAM then
    if version env =? PVA_HW_GEN1 then
      mem ← pva_task_pin_mem (dstPtr d);
      modify (set_dst_size (size mem)) ≫= fun _ =>
      check einval (range (size mem) 0 true false) ≫= fun _ =>
      mret (dma_addr mem)
    else
      modify (set_dst_size (l2_alloc_size env)) ≫= fun _ =>
      check einval (range (l2_alloc_size env) 0 true false) ≫= fun _ =>
      mret 0
  else if m =? DMA_DESC_DST_XFER_VMEM then
    if (U32_MAX <? dst_offset d) || (U32_MAX <? dst2Offset d) then fail (- EINVAL)
    else
      sym ← get_sym (dstPtr d);
      second ← (if dst2Ptr d =? NVPVA_INVALID_SYMBOL_ID then mret None
                else
                  sym2 ← get_sym (dst2Ptr d);
                  if negb (Z.land (u64 (dma_addr sym2 + dst2Offset d)) 0x3F =? 0)
                  then fail (- EINVAL) else mret (Some sym2));
      let size2 := match second with Some sym2 => size sym2 | None => 0 end in
      check einval (range (size sym) size2 true (bool_decide (is_Some second))) ≫= fun _ =>
      modify (set_dst_size (size sym)) ≫= fun _ =>
      modify (set_dst2_size size2) ≫= fun _ =>
      mret (dma_addr sym)
  else if m =? DMA_DESC_DST_XFER_MC then
    mem ← pva_task_pin_mem (dstPtr d);
    check einval (range (size mem) 0 true false) ≫= fun _ =>
    modify (set_dst_surf (dma_addr mem)) ≫= fun _ =>
    modify (set_dst_size (size mem)) ≫= fun _ =>
    mret (if version env <=? PVA_HW_GEN2
          then Z.lor (dma_addr mem) (u64 (Z.shiftl (dstFormat d) 39)) else dma_addr mem)
  else if m =? DMA_DESC_DST_XFER_R5TCM then
    if is_system_app env then modify (set_special 1) ≫= fun _ => mret 0 else fail (- EFAULT)
  else if (m =? DMA_DESC_DST_XFER_MMIO) || (m =? DMA_DESC_DST_XFER_INVAL)
          || (m =? DMA_DESC_DST_XFER_RSVD1) || (m =? DMA_DESC_DST_XFER_RSVD2)
  then fail (- EINVAL)
  else fail (- EFAULT).

(** The address members of the hardware's descriptor; a destination that is not
    written keeps the value [old]. *)
Record hw_addr := mk_hw_addr { adr0 : Z (* u32 *); adr1 : Z (* u8 *) }.

Definition split_addr (a : Z) : hw_addr :=
  mk_hw_addr (Z.land a 0xFFFFFFFF) (Z.land (Z.shiftr a 32) 0xFF).

Definition patch_dma_desc_address (old : hw_addr) : M (hw_addr * hw_addr) :=
  src_base ← patch_src;
  let src := split_addr (u64 (src_base + src_offset d)) in
  if srcTransferMode d =? DMA_DESC_SRC_XFER_VPU_CONFIG then mret (src, old)
  else
    dst_base ← patch_dst;
    mret (src, split_addr (u64 (dst_base + dst_offset d))).
End desc.
End patch.

(** * The transfers that are let through *)

(** What a pointer of a descriptor names, in the mode [m] of its source or
    destination. *)
Definition named_region (env : pva_env) (m p : Z) : option pva_region :=
  if m =? DMA_DESC_SRC_XFER_MC then find_map_buffer_id env p
  else if m =? DMA_DESC_SRC_XFER_L2RAM then
    if version env =? PVA_HW_GEN1 then find_map_buffer_id env p
    else Some (mk_region 0 (l2_alloc_size env))
  else if m =? DMA_DESC_SRC_XFER_VMEM then pva_get_sym_offset env p
  else None.

(** Regions lie in the 40-bit address space of the engine. *)
Definition region_ok (r : pva_region) : Prop :=
  0 <= dma_addr r /\ 0 <= size r /\ dma_addr r + size r <= 2 ^ 40.

Definition offset_of (d : nvpva_dma_descriptor) (dst : bool) : Z :=
  if dst then dst_offset d else src_offset d.
Definition format_of (d : nvpva_dma_descriptor) (dst : bool) : Z :=
  if dst then dstFormat d else srcFormat d.

(** A pitch-linear transfer without a circular buffer and with sane offsets. *)
Record plain (d : nvpva_dma_descriptor) (dst : bool) : Prop := {
  plain_tile : proper_tile d dst;
  plain_cb : cb_enabled d dst <> 1;
  plain_format : format_of d dst = 0;
  plain_offset : offset_of d dst < 2 ^ 62
}.

Definition hw_address (a : hw_addr) : Z := adr0 a + 2 ^ 32 * adr1 a.

Lemma split_addr_inv a : 0 <= a < 2 ^ 40 -> hw_address (split_addr a) = a.
Proof.
  intros Ha. unfold hw_address, split_addr. simpl.
  change 0xFFFFFFFF with (Z.ones 32). change 0xFF with (Z.ones 8).
  rewrite !Z.land_ones, Z.shiftr_div_pow2 by lia.
  rewrite (Z.mod_small (a / 2 ^ 32)).
  - pose proof (Z.div_mod a (2 ^ 32) ltac:(lia)). lia.
  - split; [apply Z.div_pos; lia|apply Z.div_lt_upper_bound; lia].
Qed.

Lemma start_offset_plain d bh dst :
  desc_wf d -> plain d dst -> start_offset d bh dst false = Some (0, offset_of d dst).
Proof.
  intros [] [_ _ Hf Ho]. unfold start_offset, pitch_linear_eq_offset, plane, offset_of, format_of in *.
  destruct dst; rewrite Hf; simpl; rewrite s64_id; try done; unfold is_s64, is_u64 in *; lia.
Qed.

Lemma start_offset_dst2 d bh :
  desc_wf d -> plain d true -> start_offset d bh false true = Some (0, s64 (dst2Offset d)).
Proof.
  intros _ [_ _ Hf _]. unfold start_offset, pitch_linear_eq_offset, plane, format_of in *. by rewrite Hf.
Qed.

(** What the range check has established for a plain transfer. *)
Lemma range_accepts d bh max max2 dst dst2 :
  desc_wf d -> plain d dst -> 0 <= max < 2 ^ 63 ->
  (dst2 = true -> dst = true /\ 0 <= max2 < 2 ^ 63 /\ dst2Offset d < 2 ^ 62) ->
  range d bh max max2 dst dst2 = Some 0 ->
  (forall a, touches d dst (offset_of d dst) a -> 0 <= a < max) /\
  (dst2 = true -> forall a, touches d dst (dst2Offset d) a -> 0 <= a < max2).
Proof.
  intros Hd Hp Hm H2 Hr. pose proof Hd as [? ? Hd2]. unfold is_u64 in Hd2.
  assert (Ho : 0 <= offset_of d dst < 2 ^ 62).
  { destruct Hp as [_ _ _ Ho]. split; [|done]. unfold offset_of, is_u64 in *. destruct dst; lia. }
  destruct Hp as [Ht Hcb Hf Hoff] eqn:Ep.
  destruct (check_address_range_ok d max max2 dst dst2 bh (offset_of d dst)
    (if dst then s64 (dst2Offset d) else 0)) as [Hex _]; try done.
  - intros Hd2'. by destruct (H2 Hd2') as (_ & ? & _).
  - by apply start_offset_plain.
  - destruct dst; [by apply start_offset_dst2|done].
  - lia.
  - intros Hd2'. destruct (H2 Hd2') as (-> & _ & ?). rewrite s64_id; unfold is_s64; lia.
  - apply Hex in Hr as [H1 Hr2]. split; [done|]. intros Hd2'.
    destruct (H2 Hd2') as (-> & _ & ?). destruct (Hr2 Hd2') as [_ Hr3].
    rewrite s64_id in Hr3 by (unfold is_s64; lia). done.
Qed.

Lemma touches_shift d dst off b a :
  touches d dst (b + off) a <-> touches d dst off (a - b).
Proof.
  unfold touches. split; intros (o & e & Ho & He & Ha); exists o, e; split_and!; try done; lia.
Qed.

Lemma touches_start d dst off : desc_wf d -> proper_tile d dst -> touches d dst off off.
Proof.
  intros Hd Ht. exists 0, 0. pose proof (bpp_pos (bytePerPixel d)). split_and!; [|lia|lia|lia].
  by apply reach_start, dims_count.
Qed.

(** From offsets within a region to addresses. *)
Lemma region_addresses d dst r :
  desc_wf d -> plain d dst -> region_ok r -> 0 <= offset_of d dst ->
  (forall a, touches d dst (offset_of d dst) a -> 0 <= a < size r) ->
  forall a, touches d dst (hw_address (split_addr (u64 (dma_addr r + offset_of d dst)))) a ->
    dma_addr r <= a < dma_addr r + size r.
Proof.
  intros Hd Hp (H0 & H1 & H2) Ho Hin a Ha.
  pose proof (Hin _ (touches_start d dst (offset_of d dst) Hd (plain_tile _ _ Hp))) as Hs.
  rewrite u64_id, split_addr_inv in Ha by (unfold is_u64; lia).
  apply touches_shift, Hin in Ha. lia.
Qed.

(** ** Inversion of the error monad *)
Lemma bind_ok {A B} (m : M A) (k : A -> M B) s s' b :
  (m ≫= k) s = Some (s', inr b) ->
  exists s1 a, m s = Some (s1, inr a) /\ k a s1 = Some (s', inr b).
Proof.
  unfold mbind, M_bind. destruct (m s) as [[s1 [e|a]]|]; intros Hk; simplify_eq. by exists s1, a.
Qed.

Lemma check_ok f r s s' u : check f r s = Some (s', inr u) -> r = Some 0 /\ s' = s.
Proof.
  unfold check. destruct r as [err|]; [|done].
  destruct (Z.eqb_spec err 0) as [->|]; intros Hk; by simplify_eq.
Qed.

Lemma pin_ok env p s s' r :
  pva_task_pin_mem env p s = Some (s', inr r) -> find_map_buffer_id env p = Some r.
Proof.
  unfold pva_task_pin_mem, nvpva_buffer_submit_pin_id. repeat case_if; try done.
  destruct (find_map_buffer_id env p); intros Hk; by simplify_eq.
Qed.

Lemma get_sym_ok env p s s' r :
  get_sym env p s = Some (s', inr r) -> pva_get_sym_offset env p = Some r.
Proof.
  unfold get_sym. destruct (pva_get_sym_offset env p); intros Hk; [|done].
  unfold mret, M_ret in Hk. by simplify_eq.
Qed.

Ltac inv_M :=
  repeat match goal with
  | H : (_ ≫= _) _ = Some (_, inr _) |- _ =>
      let s1 := fresh "s" in let a := fresh "r" in let H1 := fresh "Hm" in
      apply bind_ok in H as (s1 & a & H1 & H); cbv beta in H
  | H : check _ _ _ = Some (_, inr _) |- _ =>
      let Hc := fresh "Hchk" in apply check_ok in H as [Hc ->]
  | H : pva_task_pin_mem _ _ _ = Some (_, inr _) |- _ => apply pin_ok in H
  | H : get_sym _ _ _ = Some (_, inr _) |- _ => apply get_sym_ok in H
  | H : modify _ _ = Some (_, inr _) |- _ => unfold modify in H; simplify_eq
  | H : mret _ _ = Some (_, inr _) |- _ => unfold mret, M_ret in H; simplify_eq
  | H : fail _ _ = Some (_, inr _) |- _ => discriminate H
  end.

(** ** The source *)

(** The modes in which nothing is checked: the firmware's memory, for system
    applications only, and the VPU's configuration. *)
Definition unchecked_mode (env : pva_env) (m : Z) : Prop :=
  (m = DMA_DESC_SRC_XFER_R5TCM /\ is_system_app env = true) \/ m = DMA_DESC_SRC_XFER_VPU_CONFIG.

Lemma lor_format_0 a : Z.lor a (u64 (Z.shiftl 0 39)) = a.
Proof. by rewrite Z.shiftl_0_l, Z.lor_0_r. Qed.

Lemma patch_src_ok env d frm bh s s' base :
  patch_src env d frm bh s = Some (s', inr base) ->
  unchecked_mode env (srcTransferMode d) \/
  exists r, named_region env (srcTransferMode d) (srcPtr d) = Some r /\
    (srcFormat d = 0 -> base = dma_addr r) /\
    (frm = false -> range d bh (size r) 0 false false = Some 0).
Proof.
  unfold patch_src, named_region, unchecked_mode. intros Hp.
  destruct (Z.eqb_spec (srcTransferMode d) DMA_DESC_SRC_XFER_L2RAM) as [->|_].
  { right. change (DMA_DESC_SRC_XFER_L2RAM =? DMA_DESC_SRC_XFER_MC) with false. simpl.
    destruct (version env =? PVA_HW_GEN1); inv_M; [by eexists|].
    eexists. split_and!; [done|done|]. intros ->. by inv_M. }
  destruct (Z.eqb_spec (srcTransferMode d) DMA_DESC_SRC_XFER_VMEM) as [->|_].
  { right. simpl. case_if; inv_M. by eexists. }
  destruct (Z.eqb_spec (srcTransferMode d) DMA_DESC_SRC_XFER_VPU_CONFIG) as [->|_]; [by left; right|].
  destruct (Z.eqb_spec (srcTransferMode d) DMA_DESC_SRC_XFER_MC) as [->|_].
  { right. simpl. inv_M. eexists. split_and!; [done| |].
    - intros ->. case_if; [apply lor_format_0|done].
    - intros ->. by inv_M. }
  destruct (Z.eqb_spec (srcTransferMode d) DMA_DESC_SRC_XFER_R5TCM) as [->|_].
  { left. left. by destruct (is_system_app env). }
  case_if; inv_M.
Qed.

(** ** The destination *)
Definition second_sym (env : pva_env) (d : nvpva_dma_descriptor) : option pva_region :=
  if dst2Ptr d =? NVPVA_INVALID_SYMBOL_ID then None else pva_get_sym_offset env (dst2Ptr d).

Lemma patch_dst_ok env d bh s s' base :
  patch_dst env d false bh s = Some (s', inr base) ->
  (dstTransferMode d = DMA_DESC_DST_XFER_R5TCM /\ is_system_app env = true) \/
  exists r, named_region env (dstTransferMode d) (dstPtr d) = Some r /\
    (dstFormat d = 0 -> base = dma_addr r) /\
    let second := if dstTransferMode d =? DMA_DESC_DST_XFER_VMEM then second_sym env d else None in
    (is_Some second -> dst2Offset d <= U32_MAX) /\
    range d bh (size r) (match second with Some r2 => size r2 | None => 0 end) true
      (bool_decide (is_Some second)) = Some 0.
Proof.
  unfold patch_dst, named_region, second_sym. intros Hp.
  destruct (Z.eqb_spec (dstTransferMode d) DMA_DESC_DST_XFER_L2RAM) as [->|_].
  { right. simpl. destruct (version env =? PVA_HW_GEN1); inv_M; eexists; split_and!; try done;
      by intros [? ?]. }
  destruct (Z.eqb_spec (dstTransferMode d) DMA_DESC_DST_XFER_VMEM) as [->|_].
  { right. simpl. destruct (_ || _) eqn:Eo in Hp; [by inv_M|]. apply orb_false_iff in Eo as [_ Eo%Z.ltb_ge].
    inv_M. destruct (Z.eqb_spec (dst2Ptr d) NVPVA_INVALID_SYMBOL_ID) as [Ei|Ei].
    - inv_M. eexists. split_and!; [done|done| |done]. by intros [? ?].
    - inv_M. case_if; inv_M. eexists. rewrite Hm1. split_and!; done. }
  destruct (Z.eqb_spec (dstTransferMode d) DMA_DESC_DST_XFER_MC) as [->|_].
  { right. simpl. inv_M. eexists. split_and!; [done| |by intros [? ?]|done].
    intros ->. case_if; [apply lor_format_0|done]. }
  destruct (Z.eqb_spec (dstTransferMode d) DMA_DESC_DST_XFER_R5TCM) as [->|_].
  { left. by destruct (is_system_app env). }
  destruct (_ || _ || _ || _) in Hp; inv_M.
Qed.

(** * Correctness *)
Section safe.
Variable env : pva_env.
(** The client's buffers and the program's symbols lie in the address space. *)
Hypothesis buffers_ok : forall p r, find_map_buffer_id env p = Some r -> region_ok r.
Hypothesis symbols_ok : forall p r, pva_get_sym_offset env p = Some r -> region_ok r.
Hypothesis l2_ok : is_u32 (l2_alloc_size env).

Lemma named_region_ok m p r : named_region env m p = Some r -> region_ok r.
Proof.
  unfold named_region. intros Hr. unfold is_u32 in l2_ok.
  repeat case_if; simplify_eq; eauto. unfold region_ok. simpl. lia.
Qed.

Lemma patched_transfer_ok d bh old s s' src dst :
  patch_dma_desc_address env d false false bh old s = Some (s', inr (src, dst)) ->
  desc_wf d -> plain d false -> plain d true ->
  (unchecked_mode env (srcTransferMode d) \/
   exists r, named_region env (srcTransferMode d) (srcPtr d) = Some r /\
     forall a, touches d false (hw_address src) a -> dma_addr r <= a < dma_addr r + size r) /\
  (srcTransferMode d = DMA_DESC_SRC_XFER_VPU_CONFIG \/
   (dstTransferMode d = DMA_DESC_DST_XFER_R5TCM /\ is_system_app env = true) \/
   exists r, named_region env (dstTransferMode d) (dstPtr d) = Some r /\
     (forall a, touches d true (hw_address dst) a -> dma_addr r <= a < dma_addr r + size r) /\
     (dstTransferMode d = DMA_DESC_DST_XFER_VMEM -> forall r2, second_sym env d = Some r2 ->
        forall a, touches d true (dma_addr r2 + dst2Offset d) a ->
          dma_addr r2 <= a < dma_addr r2 + size r2)).
Proof.
  unfold patch_dma_desc_address. intros Hp Hd Hsrc Hdst.
  apply bind_ok in Hp as (s1 & base & Hs & Hp). apply patch_src_ok in Hs.
  pose proof (wf_src_offset d Hd) as [Hso _]. pose proof (wf_dst_offset d Hd) as [Hdo _].
  assert (Eq : src = split_addr (u64 (base + src_offset d)) /\
    (srcTransferMode d = DMA_DESC_SRC_XFER_VPU_CONFIG \/ exists s2 base2,
       patch_dst env d false bh s1 = Some (s2, inr base2) /\
       dst = split_addr (u64 (base2 + dst_offset d)))).
  { destruct (Z.eqb_spec (srcTransferMode d) DMA_DESC_SRC_XFER_VPU_CONFIG); inv_M; auto. split; eauto. }
  destruct Eq as [-> Hd2]. split.
  - destruct Hs as [?|(r & Hr & Hb & Hrng)]; [by left|]. right. exists r. split; [done|].
    rewrite (Hb (plain_format _ _ Hsrc)). pose proof (named_region_ok _ _ _ Hr) as Hok.
    apply (region_addresses d false r); try done.
    pose proof Hok as (? & ? & ?).
    by destruct (range_accepts d bh (size r) 0 false false Hd Hsrc ltac:(lia) ltac:(done) (Hrng eq_refl)).
  - destruct Hd2 as [?|(s2 & base2 & Hd2 & ->)]; [by left|]. right.
    apply patch_dst_ok in Hd2 as [?|(r & Hr & Hb & Hsec & Hrng)]; [by left|]. right.
    exists r. split; [done|]. rewrite (Hb (plain_format _ _ Hdst)).
    pose proof (named_region_ok _ _ _ Hr) as Hok. pose proof Hok as (? & ? & ?).
    set (second := if dstTransferMode d =? _ then _ else _) in *.
    destruct (range_accepts d bh (size r) (match second with Some r2 => size r2 | None => 0 end) true
      (bool_decide (is_Some second)) Hd Hdst ltac:(lia)) with (2 := Hrng) as [Hfst Hsnd].
    { intros Hs2%bool_decide_eq_true. split; [done|]. specialize (Hsec Hs2). destruct Hs2 as [r2 E2].
      rewrite E2. unfold second, second_sym in E2. clear Hp.
      repeat case_if; try done. destruct (symbols_ok _ _ E2) as (? & ? & ?).
      unfold U32_MAX in Hsec. lia. }
    clear Hp.
    split; [by apply (region_addresses d true r)|].
    intros Hv r2 E2 a Ha%touches_shift.
    assert (Es : second = Some r2) by (unfold second; by rewrite Hv). rewrite Es in Hsnd.
    specialize (Hsnd eq_refl _ Ha). lia.
Qed.

End safe.

(** * Instance: a buffer of 4096 bytes, and a program with one symbol of 256 bytes *)
Definition ex_env : pva_env :=
  mk_env 2 (fun p => if p =? 1 then Some (mk_region 0x10000 4096) else None)
    (Some [mk_region 0x40 256]) 0 false 0 1.

Definition ex_task : task_st := mk_task [] 0 0 0 (mk_info 0 0 0).

(** 16 by 4 bytes from byte 128 of the buffer to both destinations in the symbol. *)
Definition ex_desc : nvpva_dma_descriptor := tile_desc 16 4 64 128 0.

Lemma ex_buffers_ok p r : find_map_buffer_id ex_env p = Some r -> region_ok r.
Proof. simpl. case_if; intros ?; simplify_eq. split_and!; done. Qed.

Lemma ex_symbols_ok p r : pva_get_sym_offset ex_env p = Some r -> region_ok r.
Proof.
  unfold pva_get_sym_offset. simpl. destruct (_ || _); [done|].
  intros ->%list_elem_of_lookup_2%list_elem_of_singleton. split_and!; done.
Qed.

Lemma ex_desc_plain : desc_wf ex_desc /\ plain ex_desc false /\ plain ex_desc true.
Proof.
  split_and!; [apply tile_desc_wf; by split| |]; (split; [unfold proper_tile; split_and!|..]; done).
Qed.

