(* ===== verification/PvaTask.v ===== *)
(** Mapping all DMA descriptors of a PVA task: drivers/video/tegra/host/pva/pva_dma.c,
    nvpva_task_dma_desc_mapping, nvpva_task_dma_channel_mapping and
    pva_task_write_dma_info, for tasks that do not use the hardware sequencer.

    Channels start chains of descriptors, which the code follows first; then it maps
    the descriptors that are left.  [chain_ok] shows that following a chain ends,
    although links may form cycles, and [write_dma_info_ok] that after a success every
    descriptor of the task has been checked and translated, each once.  On an error the
    registers of the descriptor at which it occurs are left as they were, where the code
    may have written a part of them; the task is then not submitted. *)
From S2P Require Import Prelude PvaDesc PvaMap.

(** * One descriptor *)

(** The registers of a hardware descriptor. *)
Record pva_dtd_s := mk_dtd {
  transfer_control0 : Z; link_did : Z;         (* u8 *)
  src_adr : hw_addr; dst_adr : hw_addr;
  dtd_tx : Z; dtd_ty : Z; slp_adv : Z; dlp_adv : Z;  (* u16 *)
  srcpt1_cntl : Z; dstpt1_cntl : Z; srcpt2_cntl : Z; dstpt2_cntl : Z;
  srcpt3_cntl : Z; dstpt3_cntl : Z;            (* u32 *)
  sb_start : Z; db_start : Z; sb_size : Z; db_size : Z;
  trig_ch_events : Z; hw_sw_trig_events : Z;   (* u16 *)
  dtd_px : Z; dtd_py : Z;
  transfer_control1 : Z; transfer_control2 : Z; cb_ext : Z;  (* u8 *)
  frda : Z                                     (* u16 *)
}.

Definition zero_dtd : pva_dtd_s :=
  mk_dtd 0 0 (mk_hw_addr 0 0) (mk_hw_addr 0 0) 0 0 0 0 0 0 0 0 0 0 0 0 0 0 0 0 0 0 0 0 0 0.

Definition NVPVA_RESERVED_DESCRIPTORS_START_IDX := 60.
Definition NVPVA_NUM_RESERVED_DESCRIPTORS := 4.
Definition resv_desc_end_idx :=
  NVPVA_RESERVED_DESCRIPTORS_START_IDX + NVPVA_NUM_RESERVED_DESCRIPTORS - 1.
Definition MAX_NUM_DESCS := 60.

(** [a | b << n | ...] into a register of the given width. *)
Definition reg_or (wrap : Z -> Z) (fields : list (Z * Z)) : Z :=
  wrap (fold_left (fun r '(v, n) => Z.lor r (u32 (Z.shiftl v n))) fields 0).

(** A repetition count and an advance of 24 bits. *)
Definition pt_cntl (rpt adv : Z) : Z :=
  Z.lor (Z.shiftl (Z.land rpt 0xFF) 24) (Z.land adv 0xFFFFFF).

Definition tc0_of (d : nvpva_dma_descriptor) : Z :=
  reg_or u8 [(srcTransferMode d, 0); (srcFormat d, 3); (dstTransferMode d, 4); (dstFormat d, 7)].
Definition tc1_of (d : nvpva_dma_descriptor) : Z :=
  reg_or u8 [(bytePerPixel d, 0); (pxDirection d, 2); (pyDirection d, 3);
             (boundaryPixelExtension d, 4); (transTrueCompletion d, 7)].
Definition tc2_of (d : nvpva_dma_descriptor) : Z :=
  reg_or u8 [(prefetchEnable d, 0); (dstCbEnable d, 1); (srcCbEnable d, 2)].

(** GOB offset of a surface: [(base & 0x3E00) >> 6]. *)
Definition gob_bits (base : Z) : Z := u8 (Z.shiftr (Z.land base 0x3E00) 6).

Section one.
Variable env : pva_env.

(** Bit [16] of a circular buffer's start or size, at bit [n]. *)
Definition ext_bit (v n : Z) : Z := Z.shiftl (Z.land (Z.shiftr v 16) 1) n.

(** [transfer_control2] with the start of a block-linear surface. *)
Definition map_surface (d : nvpva_dma_descriptor) : M Z :=
  if (srcFormat d =? 1) && (srcTransferMode d =? DMA_DESC_SRC_XFER_MC) then
    a ← gets src_surf_base_addr;
    let a := u64 (a + surfBLOffset d) in
    modify (set_src_surf a) ≫= fun _ => mret (Z.lor (tc2_of d) (gob_bits a))
  else if (dstFormat d =? 1) && (dstTransferMode d =? DMA_DESC_DST_XFER_MC) then
    a ← gets dst_surf_base_addr;
    let a := u64 (a + surfBLOffset d) in
    modify (set_dst_surf a) ≫= fun _ => mret (Z.lor (tc2_of d) (gob_bits a))
  else mret (tc2_of d).

(** The body of the loop of [nvpva_task_dma_desc_mapping] for one descriptor: the
    registers, and whether block-linear transfers are in use.  [old] is the hardware's
    descriptor before. *)
Definition map_desc (d : nvpva_dma_descriptor) (hwseq_frm relaxed is_misr : bool)
    (block_height_log2 : Z) (old : pva_dtd_s) : M (pva_dtd_s * bool) :=
  check id (Some (validate_descriptor d (hwseqTrigMode env) relaxed)) ≫= fun _ =>
  adr ← patch_dma_desc_address env d hwseq_frm is_misr block_height_log2 (dst_adr old);
  let bl := (srcFormat d =? 1) || (dstFormat d =? 1) in
  if negb (prefetchEnable d =? 0) &&
     ((tx d =? 0) || (ty d =? 0) || negb (srcTransferMode d =? DMA_DESC_SRC_XFER_MC)
      || negb (dstTransferMode d =? DMA_DESC_DST_XFER_VMEM))
  then fail (- EINVAL)
  else
    tc2 ← map_surface d;
    if (num_dma_descriptors env <? linkDescId d) ||
       ((NVPVA_RESERVED_DESCRIPTORS_START_IDX <? linkDescId d) &&
        (linkDescId d <=? resv_desc_end_idx + 1))
    then fail (- EINVAL)
    else
      fr ← (if dst2Ptr d =? NVPVA_INVALID_SYMBOL_ID then mret (frda old)
            else
              sym2 ← get_sym env (dst2Ptr d);
              mret (Z.lor (frda old)
                (Z.land (Z.shiftr (u32 (dma_addr sym2 + dst2Offset d)) 6) 0x3FFF)));
      mret (mk_dtd (tc0_of d) (linkDescId d) adr.1 adr.2
        (tx d) (ty d) (srcLinePitch d) (dstLinePitch d)
        (pt_cntl (srcRpt1 d) (srcAdv1 d)) (pt_cntl (dstRpt1 d) (dstAdv1 d))
        (pt_cntl (srcRpt2 d) (srcAdv2 d)) (pt_cntl (dstRpt2 d) (dstAdv2 d))
        (pt_cntl (srcRpt3 d) (srcAdv3 d)) (pt_cntl (dstRpt3 d) (dstAdv3 d))
        (u16 (srcCbStart d)) (u16 (dstCbStart d)) (u16 (srcCbSize d)) (u16 (dstCbSize d))
        0 (reg_or u16 [(trigEventMode d, 0); (trigVpuEvents d, 2); (descReloadEnable d, 12)])
        (u8 (px d)) (u8 (py d)) (tc1_of d) tc2
        (Z.lor (Z.lor (ext_bit (srcCbStart d) 0) (ext_bit (dstCbStart d) 2))
           (Z.lor (ext_bit (srcCbSize d) 4) (ext_bit (dstCbSize d) 6)))
        fr, bl).
End one.

(** * The loop over descriptors *)
Record loop_st := mk_loop {
  tsk : task_st;
  infos : list pva_dma_task_buffer_info_s;  (* task_buff_info *)
  desc_processed : Z;                       (* u64[2], as 128 bits *)
  num_dma_desc_processed : Z;               (* u8 *)
  heights : list Z;                         (* desc_block_height_log2 *)
  dtds : list pva_dtd_s;                    (* hw_task->dma_desc *)
  bl_in_use : bool
}.

Definition set_height (i v : Z) (s : loop_st) : loop_st :=
  mk_loop (tsk s) (infos s) (desc_processed s) (num_dma_desc_processed s)
    (<[Z.to_nat i := v]> (heights s)) (dtds s) (bl_in_use s).
Definition set_processed (i : Z) (s : loop_st) : loop_st :=
  mk_loop (tsk s) (infos s) (Z.setbit (desc_processed s) i) (u8 (num_dma_desc_processed s + 1))
    (heights s) (dtds s) (bl_in_use s).
Definition set_desc (i : Z) (t : task_st) (h : pva_dtd_s) (bl : bool) (s : loop_st) : loop_st :=
  mk_loop t (<[Z.to_nat i := PvaMap.buff_info t]> (infos s)) (desc_processed s)
    (num_dma_desc_processed s) (heights s) (<[Z.to_nat i := h]> (dtds s)) (bl || bl_in_use s).

Section task.
Variable env : pva_env.
(** The task's descriptors, and the mask of those under MISR test. *)
Variables (descs : list nvpva_dma_descriptor) (misr : Z -> bool).

(** Checking and translating the descriptor at an index of the arrays. *)
Definition map_at (i : Z) (s : loop_st) : option (loop_st * Z) :=
  match descs !! Z.to_nat i, heights s !! Z.to_nat i, infos s !! Z.to_nat i, dtds s !! Z.to_nat i with
  | Some d, Some bh, Some info, Some old =>
      match map_desc env d false false (misr i) bh old (set_info info (tsk s)) with
      | None => None
      | Some (t, inl err) => Some (set_desc i t old false s, err)
      | Some (t, inr (h, bl)) => Some (set_desc i t h bl s, 0)
      end
  | _, _, _, _ => None
  end.

(** [nvpva_task_dma_desc_mapping]: the state, the error, and [*did].  Each round
    increments [i]. *)
Fixpoint mapping_loop (fuel : nat) (i desc_num num_descs did : Z) (s : loop_st)
    : option (loop_st * Z * Z) :=
  if negb ((i <? num_descs) && (num_dma_desc_processed s <? num_dma_descriptors env))
  then Some (s, 0, did)
  else
    match fuel with
    | O => None
    | S fuel =>
        if 128 <=? desc_num then None
        else if Z.testbit (desc_processed s) desc_num
        then mapping_loop fuel (i + 1) (desc_num + 1) num_descs did s
        else
          let s := set_processed desc_num s in
          if desc_num =? NVPVA_RESERVED_DESCRIPTORS_START_IDX then
            mapping_loop fuel
              (i + (resv_desc_end_idx - NVPVA_RESERVED_DESCRIPTORS_START_IDX + 1) + 1)
              (resv_desc_end_idx + 1) num_descs did s
          else if MAX_NUM_DESCS <=? desc_num then None
          else
            match map_at desc_num s with
            | None => None
            | Some (s, err) =>
                if negb (err =? 0) then Some (s, err, did)
                else
                  match descs !! Z.to_nat desc_num with
                  | None => None
                  | Some d => mapping_loop fuel (i + 1) (desc_num + 1) num_descs (linkDescId d) s
                  end
            end
    end.

Definition nvpva_task_dma_desc_mapping (num_descs did : Z) (s : loop_st) : option (loop_st * Z * Z) :=
  mapping_loop (Z.to_nat num_descs) 0 did num_descs did s.

(** [while ((did != 0U) && (did != prev_did))]: following the chain of a channel. *)
Fixpoint chain_loop (fuel : nat) (height did prev_did : Z) (s : loop_st) : option (loop_st * Z) :=
  if (did =? 0) || (did =? prev_did) then Some (s, 0)
  else
    match fuel with
    | O => None
    | S fuel =>
        if MAX_NUM_DESCS <=? did - 1 then None
        else
          match nvpva_task_dma_desc_mapping 1 (did - 1) (set_height (did - 1) height s) with
          | None => None
          | Some (s, err, did') =>
              if negb (err =? 0) then Some (s, err) else chain_loop fuel height did' did s
          end
    end.
End task.

(** * Channels *)
Record nvpva_dma_channel := mk_channel {
  descIndex : Z; blockHeight : Z;          (* u8 *)
  adbSize : Z; vdbSize : Z; adbOffset : Z; vdbOffset : Z;  (* u16, u8, u16, u8 *)
  outputEnableMask : Z; padValue : Z;      (* u32 *)
  reqPerGrant : Z; ch_prefetchEnable : Z; chRepFactor : Z;
  hwseqStart : Z; hwseqEnd : Z; hwseqEnable : Z; hwseqTraversalOrder : Z;
  hwseqTxSelect : Z; hwseqTriggerDone : Z  (* u8 *)
}.

Record pva_dma_ch_config_s := mk_ch {
  ch_number : Z; cntl0 : Z; cntl1 : Z; boundary_pad : Z; hwseqcntl : Z }.  (* u32 *)

Definition PVA_NUM_DYNAMIC_VDB_BUFFS := 128.
Definition PVA_NUM_DYNAMIC_ADB_BUFFS_T19X := 256 - 8.
Definition PVA_NUM_DYNAMIC_ADB_BUFFS_T23X := 272 - 16.

(** A field [(v & mask) << n]. *)
Definition bits_at (v mask n : Z) : Z := u32 (Z.shiftl (Z.land v mask) n).

Definition channel_cntl0 (c : nvpva_dma_channel) : Z :=
  let r := bits_at (descIndex c + 1) 0xFF 0 in
  let r := Z.lor r (bits_at (vdbSize c) 0xFF 8) in
  let r := Z.lor r (bits_at (adbSize c) 0x1FF 16) in
  let r := Z.lor r (bits_at 5 7 25) in
  let r := Z.lor r (bits_at (ch_prefetchEnable c) 1 30) in
  Z.lor r (bits_at 1 1 31).

Definition channel_cntl1 (hwgen : Z) (c : nvpva_dma_channel) : Z :=
  let r := bits_at (reqPerGrant c) 7 2 in
  let r := Z.lor r (bits_at (vdbOffset c) 0x7F 16) in
  Z.lor r (if hwgen =? PVA_HW_GEN1 then bits_at (adbOffset c) 0xFF 24
           else bits_at (adbOffset c) 0x1FF 23).

Definition channel_hwseqcntl (c : nvpva_dma_channel) : Z :=
  let r := bits_at (hwseqStart c) 0xFF 0 in
  let r := Z.lor r (bits_at (hwseqEnd c) 0xFF 12) in
  let r := Z.lor r (bits_at (hwseqTriggerDone c) 3 24) in
  let r := Z.lor r (bits_at (hwseqTxSelect c) 1 27) in
  let r := Z.lor r (bits_at (hwseqTraversalOrder c) 1 30) in
  Z.lor r (bits_at (hwseqEnable c) 1 31).

(** [nvpva_task_dma_channel_mapping] when no hardware sequencer is used
    ([hwseq_in_use] is false). *)
Definition nvpva_task_dma_channel_mapping (hwgen : Z) (c : nvpva_dma_channel)
    (ch : pva_dma_ch_config_s) : Z * pva_dma_ch_config_s :=
  let adb_limit := if hwgen =? PVA_HW_GEN1 then PVA_NUM_DYNAMIC_ADB_BUFFS_T19X
                   else PVA_NUM_DYNAMIC_ADB_BUFFS_T23X in
  if ((NVPVA_RESERVED_DESCRIPTORS_START_IDX <? descIndex c) && (descIndex c <=? resv_desc_end_idx))
     || (PVA_NUM_DYNAMIC_VDB_BUFFS <? vdbSize c + vdbOffset c)
  then (- EINVAL, ch)
  else if adb_limit <? adbSize c + adbOffset c then (- EINVAL, ch)
  else
    let ch := mk_ch (ch_number ch) (channel_cntl0 c) (channel_cntl1 hwgen c) (padValue c) (hwseqcntl ch) in
    if hwgen =? PVA_HW_GEN1 then (0, ch)
    else if negb (chRepFactor c =? 0) && negb (chRepFactor c =? 6) then (- EINVAL, ch)
    else (0, mk_ch (ch_number ch) (cntl0 ch) (Z.lor (cntl1 ch) (bits_at (chRepFactor c) 7 8))
               (boundary_pad ch) (channel_hwseqcntl c)).

Definition nvpva_update_blockheight (ch : pva_dma_ch_config_s) (block_height_log2 : Z)
    : pva_dma_ch_config_s :=
  if NVPVA_MAX_VALID_BLK_HGT_LG2 <? block_height_log2 then ch
  else mk_ch (ch_number ch)
         (Z.lor (Z.land (cntl0 ch) (u32 (Z.lnot (Z.shiftl 7 25)))) (bits_at block_height_log2 7 25))
         (cntl1 ch) (boundary_pad ch) (hwseqcntl ch).

(** The trigger registers: the loop over [j], and the last ones. *)
Definition or_at (i : nat) (v : Z) (l : list Z) : list Z := alter (fun w => Z.lor w v) i l.

Definition channel_triggers (hwgen ch_num mask : Z) (trig : list Z) : list Z :=
  let bit k := Z.land (Z.shiftr mask k) 1 in
  let trig := fold_left (fun t j =>
      or_at j (Z.lor (u32 (Z.shiftl (bit (2 * Z.of_nat j)) ch_num))
                 (u32 (Z.shiftl (bit (2 * Z.of_nat j + 1)) (ch_num + 16)))) t) (seq 0 7) trig in
  let trig := or_at 7 (u32 (Z.shiftl (bit 14) ch_num)) trig in
  if hwgen =? PVA_HW_GEN2
  then or_at 8 (Z.lor (u32 (Z.shiftl (bit 15) ch_num)) (u32 (Z.shiftl (bit 16) (ch_num + 16)))) trig
  else trig.

Section write.
Variable env : pva_env.
Variables (descs : list nvpva_dma_descriptor) (misr : Z -> bool).

(** Each round of [chain_loop] maps a descriptor or lowers [did]. *)
Definition chain_fuel : nat := Z.to_nat (60 * 61 + 60).

Definition set_bl (b : bool) (s : loop_st) : loop_st :=
  mk_loop (tsk s) (infos s) (desc_processed s) (num_dma_desc_processed s) (heights s) (dtds s) b.

(** The loop over the channels of [pva_task_write_dma_info]; [i] counts them. *)
Fixpoint channels_loop (i : Z) (chans : list nvpva_dma_channel) (cfg : list pva_dma_ch_config_s)
    (trig : list Z) (s : loop_st) : option (loop_st * list pva_dma_ch_config_s * list Z * Z) :=
  match chans with
  | [] => Some (s, cfg, trig, 0)
  | c :: chans =>
      match cfg !! Z.to_nat i with
      | None => None
      | Some ch =>
          let s := set_bl false s in
          let ch_num := i + 1 in
          let '(err, ch) := nvpva_task_dma_channel_mapping (version env) c ch in
          if negb (err =? 0) then Some (s, <[Z.to_nat i := ch]> cfg, trig, err)
          else if negb (hwseqcntl ch =? 0) then Some (s, <[Z.to_nat i := ch]> cfg, trig, - EINVAL)
          else
            let ch := mk_ch ch_num (cntl0 ch) (cntl1 ch) (boundary_pad ch) (hwseqcntl ch) in
            let trig := channel_triggers (version env) ch_num (outputEnableMask c) trig in
            if hwseqEnable c =? 1 then channels_loop (i + 1) chans (<[Z.to_nat i := ch]> cfg) trig s
            else
              match chain_loop env descs misr chain_fuel (blockHeight c) (u8 (descIndex c + 1)) 0 s with
              | None => None
              | Some (s, err) =>
                  if negb (err =? 0) then Some (s, <[Z.to_nat i := ch]> cfg, trig, err)
                  else
                    let ch := if bl_in_use s then nvpva_update_blockheight ch (blockHeight c) else ch in
                    channels_loop (i + 1) chans (<[Z.to_nat i := ch]> cfg) trig s
              end
      end
  end.

(** [pva_task_write_dma_info] for a task without a hardware sequencer program; the
    registers of the channels and the triggers are zero before. *)
Definition pva_task_write_dma_info (chans : list nvpva_dma_channel) (t : task_st)
    : option (loop_st * list pva_dma_ch_config_s * list Z * Z) :=
  let s := mk_loop (set_special 0 t) (replicate 60 (mk_info 0 0 0)) 0 0 (replicate 60 0xFF)
             (replicate 60 zero_dtd) false in
  let cfg := replicate 15 (mk_ch 0 0 0 0 0) in
  let trig := replicate 9 0 in
  if (num_dma_descriptors env =? 0) || (Nat.eqb (length chans) 0) then Some (s, cfg, trig, 0)
  else
    match channels_loop 0 chans cfg trig s with
    | None => None
    | Some (s, cfg, trig, err) =>
        if negb (err =? 0) then Some (s, cfg, trig, err)
        else
          match nvpva_task_dma_desc_mapping env descs misr (num_dma_descriptors env) 0 s with
          | None => None
          | Some (s, err, _) => Some (s, cfg, trig, err)
          end
    end.
End write.

(** * Following chains *)

(** A descriptor whose check is defined: a block-linear one has a line pitch, and a
    pixel size the hardware knows. *)
Definition desc_defined (d : nvpva_dma_descriptor) : Prop :=
  is_u16 (srcLinePitch d) /\ is_u16 (dstLinePitch d) /\ 0 <= linkDescId d /\
  ((srcFormat d = 0 \/ (0 < srcLinePitch d /\ 0 <= bytePerPixel d <= 2)) /\
   (dstFormat d = 0 \/ (0 < dstLinePitch d /\ 0 <= bytePerPixel d <= 2))).

Lemma pitch_linear_defined d surf h dst dst2 :
  0 <= h -> desc_defined d -> pitch_linear_eq_offset d surf h (bytePerPixel d) dst dst2 <> None.
Proof.
  intros Hh (Hs & Hd & _ & Hsf & Hdf). unfold pitch_linear_eq_offset.
  destruct (plane d dst dst2) as [[[fmt off] pitch] cb] eqn:Ep.
  destruct (Z.eqb_spec fmt 0) as [|Hf]; [done|].
  assert (Hp : 0 < pitch < 2 ^ 16 /\ 0 <= bytePerPixel d <= 2).
  { unfold plane, is_u16 in *. destruct dst, dst2; simplify_eq; lia. }
  destruct (Z.ltb_spec NVPVA_MAX_VALID_BLK_HGT_LG2 h) as [|Hh5]; [done|].
  unfold NVPVA_MAX_VALID_BLK_HGT_LG2 in Hh5.
  rewrite (proj2 (Z.ltb_ge 31 _)) by lia.
  assert (H2 : 1 <= 2 ^ bytePerPixel d <= 2 ^ 2)
    by (split; [apply (Z.pow_le_mono_r 2 0)|apply Z.pow_le_mono_r]; lia).
  set (p := u32 _). assert (Hpp : p = pitch * 2 ^ bytePerPixel d).
  { unfold p. rewrite Z.shiftl_mul_pow2 by lia. apply u32_id. unfold_width. nia. }
  assert (Hp18 : 0 < p < 2 ^ 18) by nia. clear Hpp.
  change BL_GOB_WIDTH_LOG2_ALIGNMASK with (Z.ones 6). rewrite Z.land_ones by lia.
  change (2 ^ 6) with 64.
  destruct (cb =? 0); [|done]. destruct (Z.eqb_spec (p mod 64) 0) as [Hp64|]; [|done].
  destruct (off mod 64 =? 0); [|done]. simpl.
  assert (Hk : 1 <= Z.shiftr p BL_GOB_WIDTH_LOG2 < 2 ^ 12).
  { rewrite Z.shiftr_div_pow2 by done. unfold BL_GOB_WIDTH_LOG2. change (2 ^ 6) with 64.
    Z.div_mod_to_equations. lia. }
  assert (Hk2 : 2 ^ 9 <= 2 ^ (BL_GOB_SIZE_LOG2 + h) <= 2 ^ 14)
    by (unfold BL_GOB_SIZE_LOG2; split; apply Z.pow_le_mono_r; lia).
  rewrite (proj2 (Z.eqb_neq _ 0)); [done|].
  rewrite Z.shiftl_mul_pow2 by (unfold BL_GOB_SIZE_LOG2; lia).
  rewrite u32_id by (unfold_width; nia). nia.
Qed.

Lemma check_defined d max max2 dst dst2 bh :
  desc_defined d -> range d bh max max2 dst dst2 <> None.
Proof.
  intros Hd. unfold range, check_address_range.
  assert (Hu : 0 <= u8 bh) by apply u8_range.
  destruct (tx d =? 0); [done|]. destruct (ty d =? 0); [done|].
  set (cb := if dst then (dstCbEnable d, dstCbSize d) else (srcCbEnable d, srcCbSize d)).
  destruct cb as [e sz]. destruct (e =? 1); [done|].
  destruct (pitch_linear_eq_offset d _ _ _ dst false) as [[err off]|] eqn:E1;
    [|by apply pitch_linear_defined in E1].
  destruct (negb (err =? 0)); [done|].
  destruct (if dst then _ else _) as [[err2 off2]|] eqn:E2; [by repeat case_if|].
  destruct dst; [by apply pitch_linear_defined in E2|done].
Qed.

(** A function of the monad that is defined everywhere, and whose errors are not 0. *)
Definition total {A} (m : M A) : Prop :=
  forall s, match m s with
            | None => False
            | Some (_, inl e) => e <> 0
            | Some (_, inr _) => True
            end.

Lemma total_bind {A B} (m : M A) (k : A -> M B) : total m -> (forall a, total (k a)) -> total (m ≫= k).
Proof.
  intros Hm Hk s. unfold mbind, M_bind. specialize (Hm s).
  destruct (m s) as [[s1 [e|a]]|]; try done. apply Hk.
Qed.
Lemma total_ret {A} (a : A) : total (mret a).
Proof. done. Qed.
Lemma total_fail {A} e : e <> 0 -> total (@fail A e).
Proof. intros He s. exact He. Qed.
Lemma total_modify f : total (modify f).
Proof. done. Qed.
Lemma total_gets {A} (f : task_st -> A) : total (gets f).
Proof. done. Qed.
Lemma total_check f r : r <> None -> (forall e, e <> 0 -> f e <> 0) -> total (check f r).
Proof.
  unfold check. intros Hr Hf s. destruct r as [e|]; [|done].
  destruct (Z.eqb_spec e 0); [done|]. by apply Hf.
Qed.
Lemma total_pin env p : total (pva_task_pin_mem env p).
Proof.
  intros s. unfold pva_task_pin_mem, nvpva_buffer_submit_pin_id.
  destruct (_ <=? _); [done|]. destruct (p =? 0); [done|].
  by destruct (find_map_buffer_id env p).
Qed.
Lemma total_sym env p : total (get_sym env p).
Proof. unfold get_sym. by destruct (pva_get_sym_offset env p). Qed.

Create HintDb total.
#[export] Hint Resolve @total_ret total_modify @total_gets total_pin total_sym : total.

Ltac total_steps :=
  repeat first
    [ progress intros
    | apply total_bind
    | apply total_fail; done
    | apply total_check; [first [done | apply check_defined; assumption] | done]
    | match goal with |- total (if ?b then _ else _) => destruct b end
    | match goal with |- total (match ?r with _ => _ end) => destruct r end
    | solve [auto with total] | done ].

Lemma map_desc_defined env d frm relaxed is_misr bh old :
  desc_defined d -> total (map_desc env d frm relaxed is_misr bh old).
Proof.
  intros Hd. unfold map_desc, patch_dma_desc_address, patch_src, patch_dst, map_surface. total_steps.
Qed.

(** A successful mapping has a valid link. *)
Lemma map_desc_link env d frm relaxed is_misr bh old s s' r :
  map_desc env d frm relaxed is_misr bh old s = Some (s', inr r) ->
  linkDescId d <= num_dma_descriptors env.
Proof.
  unfold map_desc. intros Hm. inv_M.
  destruct (negb (prefetchEnable d =? 0) && _); inv_M.
  destruct (_ || _) eqn:E in Hm; inv_M.
  apply orb_false_iff in E as [E%Z.ltb_ge _]. lia.
Qed.

Section chain.
Variable env : pva_env.
Variables (descs : list nvpva_dma_descriptor) (misr : Z -> bool).
Abbreviation n := (num_dma_descriptors env).
Hypothesis n_range : 0 <= n <= MAX_NUM_DESCS.
Hypothesis descs_length : length descs = 60%nat.
Hypothesis descs_defined : Forall desc_defined descs.

(** The hardware's descriptor [i] is the translation of the task's, after all checks. *)
Definition checked_at (hw : list pva_dtd_s) (i : Z) : Prop :=
  exists d bh old t t' h bl,
    descs !! Z.to_nat i = Some d /\
    map_desc env d false false (misr i) bh old t = Some (t', inr (h, bl)) /\
    hw !! Z.to_nat i = Some h.

(** The descriptors [D] have been mapped, each once. *)
Record loop_inv (D : gset Z) (s : loop_st) : Prop := {
  li_len : length (heights s) = 60%nat /\ length (infos s) = 60%nat /\ length (dtds s) = 60%nat;
  li_bits : forall i, 0 <= i -> Z.testbit (desc_processed s) i = bool_decide (i ∈ D);
  li_range : forall i, i ∈ D -> 0 <= i < n;
  li_count : num_dma_desc_processed s = Z.of_nat (base.size D);
  li_checked : forall i, i ∈ D -> checked_at (dtds s) i
}.

(** All indices below [n]. *)
Definition below_n : gset Z := list_to_set (seqZ 0 n).

Lemma elem_below i : i ∈ below_n <-> 0 <= i < n.
Proof. unfold below_n. rewrite elem_of_list_to_set, elem_of_seqZ. lia. Qed.

Lemma count_below : Z.of_nat (base.size below_n) = n.
Proof.
  unfold below_n. rewrite size_list_to_set by apply NoDup_seqZ.
  rewrite length_seqZ. lia.
Qed.

Lemma inv_subset D s : loop_inv D s -> D ⊆ below_n.
Proof. intros Hi i Hin. apply elem_below. by apply (li_range D s Hi). Qed.

Lemma inv_size D s : loop_inv D s -> Z.of_nat (base.size D) <= n.
Proof.
  intros Hi%inv_subset. pose proof (subseteq_size _ _ Hi). pose proof count_below. lia.
Qed.

Lemma inv_full D s : loop_inv D s -> n <= Z.of_nat (base.size D) -> D = below_n.
Proof.
  intros Hi%inv_subset Hs. apply set_eq. intros i. split; [apply Hi|].
  intros Hin. destruct (decide (i ∈ D)) as [|Hni]; [done|].
  assert (Hss : D ∪ {[ i ]} ⊆ below_n) by set_solver.
  apply subseteq_size in Hss. rewrite size_union, size_singleton in Hss by set_solver.
  pose proof count_below. lia.
Qed.

Lemma inv_height D s i v : loop_inv D s -> loop_inv D (set_height i v s).
Proof. intros [(H1 & H2 & H3) ? ? ? ?]. split; try done. simpl. by rewrite length_insert. Qed.

Lemma inv_bl D s b : loop_inv D s -> loop_inv D (set_bl b s).
Proof. by intros []. Qed.

(** Mapping a descriptor that has not been mapped. *)
Lemma map_new D s i :
  loop_inv D s -> 0 <= i < n -> i ∉ D ->
  exists d s' err, descs !! Z.to_nat i = Some d /\
    map_at env descs misr i (set_processed i s) = Some (s', err) /\
    (err = 0 -> loop_inv (D ∪ {[ i ]}) s' /\ 0 <= linkDescId d <= n).
Proof.
  intros Hi Hr Hni. pose proof Hi as [(L1 & L2 & L3) Hb Hrg Hc Hck]. pose proof (inv_size D s Hi) as Hsz.
  unfold MAX_NUM_DESCS in n_range. assert (Hlt : (Z.to_nat i < 60)%nat) by lia.
  destruct (lookup_lt_is_Some_2 descs (Z.to_nat i)) as [d Ed]; [by rewrite descs_length|].
  destruct (lookup_lt_is_Some_2 (heights s) (Z.to_nat i)) as [bh Eh]; [by rewrite L1|].
  destruct (lookup_lt_is_Some_2 (infos s) (Z.to_nat i)) as [info Ei]; [by rewrite L2|].
  destruct (lookup_lt_is_Some_2 (dtds s) (Z.to_nat i)) as [old Eo]; [by rewrite L3|].
  pose proof (proj1 (Forall_lookup _ _) descs_defined _ _ Ed) as Hdef.
  exists d. unfold map_at. simpl. rewrite Ed, Eh, Ei, Eo.
  pose proof (map_desc_defined env d false false (misr i) bh old Hdef (set_info info (tsk s))) as Hne.
  destruct (map_desc env d false false (misr i) bh old (set_info info (tsk s))) as [[t [e|[h bl]]]|] eqn:Em;
    [| |done].
  - by eexists _, e.
  - eexists _, 0. split_and!; [done|done|]. intros _. split.
    + split; simpl.
      * rewrite !length_insert. done.
      * intros j Hj. rewrite Z.setbit_eqb by lia. rewrite Hb by done.
        apply eq_bool_prop_intro. rewrite !Is_true_true, orb_true_iff, Z.eqb_eq, !bool_decide_eq_true.
        set_solver.
      * intros j [Hj| ->%elem_of_singleton]%elem_of_union; [by apply Hrg|done].
      * rewrite Hc, size_union, size_singleton by set_solver.
        rewrite u8_id; [lia|]. unfold is_u8. assert (i ∈ below_n) by (by apply elem_below).
        lia.
      * intros j Hj. destruct (decide (j = i)) as [->|Hne'].
        -- exists d, bh, old, (set_info info (tsk s)), t, h, bl. split_and!; [done|done|].
           apply list_lookup_insert_eq. by rewrite L3.
        -- assert (HjD : j ∈ D) by set_solver. destruct (Hck j HjD) as (d' & bh' & o' & t1 & t2 & h' & b' & ?&?&?).
           exists d', bh', o', t1, t2, h', b'. split_and!; [done|done|].
           rewrite list_lookup_insert_ne; [done|]. specialize (Hrg j HjD). lia.
    + apply map_desc_link in Em. split; [|done]. by destruct Hdef as (_ & _ & ? & _).
Qed.

(** One call for one descriptor: it maps the descriptor and returns its link, or the
    descriptor was mapped before. *)
Lemma map_single D s i :
  loop_inv D s -> 0 <= i < n ->
  exists s' err did', nvpva_task_dma_desc_mapping env descs misr 1 i s = Some (s', err, did') /\
    (err = 0 -> (s' = s /\ did' = i /\ i ∈ D) \/
       ((i ∉ D) /\ loop_inv (D ∪ {[ i ]}) s' /\ 0 <= did' <= num_dma_descriptors env)).
Proof.
  intros Hi Hr. pose proof Hi as [_ Hb _ Hc _]. unfold MAX_NUM_DESCS in n_range.
  unfold nvpva_task_dma_desc_mapping. change (Z.to_nat 1) with 1%nat. cbn [mapping_loop].
  change (0 <? 1) with true. destruct (Z.ltb_spec (num_dma_desc_processed s) n) as [Hlt|Hge]; simpl.
  - rewrite (proj2 (Z.leb_gt 128 i)), Hb by lia.
    destruct (bool_decide_reflect (i ∈ D)) as [Hin|Hni].
    + exists s, 0, i. split; [done|]. auto.
    + unfold NVPVA_RESERVED_DESCRIPTORS_START_IDX, MAX_NUM_DESCS.
      rewrite (proj2 (Z.eqb_neq i 60)), (proj2 (Z.leb_gt 60 i)) by lia.
      destruct (map_new D s i Hi Hr Hni) as (d & s' & err & -> & -> & Hok).
      destruct (Z.eqb_spec err 0) as [->|He]; simpl.
      * destruct (Hok eq_refl) as [Hi' Hl]. eexists _, 0, _. split; [done|]. auto.
      * by eexists _, err, i.
  - rewrite Hc in Hge. apply (inv_full D s Hi) in Hge. exists s, 0, i. split; [done|].
    intros _. left. split_and!; [done..|]. rewrite Hge. by apply elem_below.
Qed.

(** Following a chain, with enough rounds for the descriptors left and the index. *)
Lemma chain_ok fuel : forall D s height did prev,
  loop_inv D s -> 0 <= did <= n ->
  (n - Z.of_nat (base.size D)) * (n + 1) + did <= Z.of_nat fuel ->
  exists s' err, chain_loop env descs misr fuel height did prev s = Some (s', err) /\
    (err = 0 -> exists D', D ⊆ D' /\ loop_inv D' s').
Proof.
  unfold MAX_NUM_DESCS in n_range.
  induction fuel as [|fuel IH]; intros D s height did prev Hi Hd Hf; cbn [chain_loop].
  - pose proof (inv_size D s Hi). replace did with 0 by nia. exists s, 0. eauto.
  - destruct (Z.eqb_spec did 0) as [|H0]; simpl; [exists s, 0; eauto|].
    destruct (did =? prev); [exists s, 0; eauto|].
    unfold MAX_NUM_DESCS. rewrite (proj2 (Z.leb_gt 60 (did - 1))) by lia.
    pose proof (inv_height D s (did - 1) height Hi) as Hi1.
    destruct (map_single D _ (did - 1) Hi1 ltac:(lia)) as (s' & err & did' & -> & Hok).
    destruct (Z.eqb_spec err 0) as [->|He]; simpl; [|exists s', err; split; [done|by intros]].
    destruct (Hok eq_refl) as [(-> & -> & _)|(Hni & Hi' & Hd')].
    + apply (IH D _ height (did - 1) did Hi1); lia.
    + destruct (IH (D ∪ {[ did - 1 ]}) s' height did' did Hi' Hd') as (s2 & err2 & E2 & H2).
      { rewrite size_union, size_singleton by set_solver. nia. }
      exists s2, err2. split; [done|]. intros He. destruct (H2 He) as (D' & Hsub & ?).
      exists D'. split; [set_solver|done].
Qed.

(** Mapping all descriptors: the rounds before [i] have mapped those below it. *)
Lemma mapping_all fuel : forall D s i did,
  loop_inv D s -> 0 <= i <= n -> (forall j, 0 <= j < i -> j ∈ D) -> n - i <= Z.of_nat fuel ->
  exists s' err did', mapping_loop env descs misr fuel i i n did s = Some (s', err, did') /\
    (err = 0 -> loop_inv below_n s').
Proof.
  unfold MAX_NUM_DESCS in n_range.
  induction fuel as [|fuel IH]; intros D s i did Hi Hr Hlow Hf; cbn [mapping_loop].
  all: destruct (Z.ltb_spec i n) as [Hin|Hin]; simpl.
  1: lia.
  1, 3: exists s, 0, did; split; [done|]; intros _;
    replace below_n with D; [done|]; apply set_eq; intros j; rewrite elem_below;
    split; [apply (li_range D s Hi)|intros Hj; apply Hlow; lia].
  destruct (Z.ltb_spec (num_dma_desc_processed s) n) as [Hlt|Hge]; simpl.
  - rewrite (proj2 (Z.leb_gt 128 i)) by lia. rewrite (li_bits D s Hi) by lia.
    destruct (bool_decide_reflect (i ∈ D)) as [HinD|Hni].
    + apply (IH D); [done|lia| |lia]. intros j Hj. destruct (decide (j = i)) as [->|]; [done|apply Hlow; lia].
    + unfold NVPVA_RESERVED_DESCRIPTORS_START_IDX, MAX_NUM_DESCS.
      rewrite (proj2 (Z.eqb_neq i 60)), (proj2 (Z.leb_gt 60 i)) by lia.
      destruct (map_new D s i Hi ltac:(lia) Hni) as (d & s' & err & -> & -> & Hok).
      destruct (Z.eqb_spec err 0) as [->|He]; simpl; [|by eexists s', err, did].
      destruct (Hok eq_refl) as [Hi' _]. apply (IH (D ∪ {[ i ]})); [done|lia| |lia].
      intros j Hj. destruct (decide (j = i)) as [->|]; [set_solver|].
      apply elem_of_union. left. apply Hlow. lia.
  - rewrite (li_count D s Hi) in Hge. exists s, 0, did. split; [done|]. intros _.
    by rewrite <- (inv_full D s Hi Hge).
Qed.

(** The channels: each starts a chain at a descriptor of the task. *)
Lemma channels_ok chans : forall i cfg trig D s,
  loop_inv D s -> 0 <= i -> i + Z.of_nat (length chans) <= Z.of_nat (length cfg) ->
  Forall (fun c => 0 <= descIndex c < n) chans ->
  exists s' cfg' trig' err, channels_loop env descs misr i chans cfg trig s = Some (s', cfg', trig', err) /\
    (err = 0 -> exists D', loop_inv D' s').
Proof.
  induction chans as [|c chans IH]; intros i cfg trig D s Hi H0 Hlen Hc; cbn [channels_loop].
  - by exists s, cfg, trig, 0; eauto.
  - apply Forall_cons in Hc as [Hc Hcs]. simpl in Hlen.
    destruct (lookup_lt_is_Some_2 cfg (Z.to_nat i)) as [ch ->]; [lia|].
    destruct (nvpva_task_dma_channel_mapping (version env) c ch) as [e ch1].
    destruct (Z.eqb_spec e 0) as [_|He]; cbn [negb]; [|by eexists _, _, _, e].
    destruct (hwseqcntl ch1 =? 0); cbn [negb]; [|by eexists _, _, _, _].
    assert (Hlen' : forall x, i + 1 + Z.of_nat (length chans) <= Z.of_nat (length (<[Z.to_nat i:=x]> cfg)))
      by (intros; rewrite length_insert; lia).
    destruct (hwseqEnable c =? 1).
    { apply (IH (i + 1) _ _ D); [by apply inv_bl|lia|apply Hlen'|done]. }
    unfold MAX_NUM_DESCS in n_range. pose proof (inv_size D s Hi).
    destruct (chain_ok chain_fuel D (set_bl false s) (blockHeight c) (u8 (descIndex c + 1)) 0
      (inv_bl _ _ _ Hi)) as (s1 & err & -> & Hok).
    { rewrite u8_id; unfold is_u8; lia. }
    { unfold chain_fuel. rewrite u8_id by (unfold is_u8; lia). rewrite Z2Nat.id by lia. nia. }
    destruct (Z.eqb_spec err 0) as [->|He]; cbn [negb]; [|by eexists _, _, _, err].
    destruct (Hok eq_refl) as (D' & _ & Hi').
    apply (IH (i + 1) _ _ D'); [done|lia|apply Hlen'|done].
Qed.

Lemma initial_inv t : loop_inv ∅ (mk_loop t (replicate 60 (mk_info 0 0 0)) 0 0 (replicate 60 0xFF)
  (replicate 60 zero_dtd) false).
Proof.
  split; [done| |set_solver|done|set_solver]. simpl.
  intros i Hi. by rewrite Z.testbit_0_l, bool_decide_eq_false_2 by set_solver.
Qed.

(** A task's descriptors are mapped, or an error is returned; after a success all of
    them have been checked. *)
Lemma write_dma_info_ok chans t :
  0 < n -> chans <> [] -> (length chans <= 15)%nat ->
  Forall (fun c => 0 <= descIndex c < n) chans ->
  exists s cfg trig err, pva_task_write_dma_info env descs misr chans t = Some (s, cfg, trig, err) /\
    (err = 0 -> forall i, 0 <= i < n -> checked_at (dtds s) i).
Proof.
  intros Hn Hne Hlen Hc. unfold pva_task_write_dma_info.
  rewrite (proj2 (Z.eqb_neq n 0)) by lia.
  destruct chans as [|c chans]; [done|]. cbn [orb Nat.eqb length].
  destruct (channels_ok (c :: chans) 0 (replicate 15 (mk_ch 0 0 0 0 0)) (replicate 9 0) ∅ _
    (initial_inv (set_special 0 t)) ltac:(lia)) as (s & cfg & trig & err & E & Hok);

    [by rewrite length_replicate; lia|done|].
  rewrite E. destruct (Z.eqb_spec err 0) as [->|He]; simpl; [|by eexists _, _, _, err].
  destruct (Hok eq_refl) as (D & Hi).
  destruct (mapping_all (Z.to_nat n) D s 0 0 Hi ltac:(lia) ltac:(lia) ltac:(lia))
    as (s' & err' & did' & Em & Hok').
  unfold nvpva_task_dma_desc_mapping. rewrite Em. eexists _, _, _, err'. split; [done|].
  intros He i Hin. apply (li_checked _ _ (Hok' He)). by apply elem_below.
Qed.
End chain.
