(* ===== verification/PvaSafe.v ===== *)
(** What the PVA's DMA engine does with a checked task.

    The engine reads the packed registers of [pva_dtd_s], not the descriptor that was
    checked.  The decoders here give the transfer those registers describe;
    [hw_transfer] shows that it is the one that was checked when the members of the
    descriptor fit in their registers, [task_transfers_safe] concludes that no transfer
    of an accepted task leaves what it names, and [padding_wraps] and
    [advance_truncated] that members which do not fit are let through. *)
From S2P Require Import Prelude PvaDesc PvaMap PvaTask.

(** * Reading the registers of fw_include/pva-sys-dma.h *)
Definition PVA_DMA_TC0_DSTM_MASK := 7.
Definition PVA_DMA_TC0_DDTM_SHIFT := 4.

Definition hw_src_mode (h : pva_dtd_s) : Z := Z.land (transfer_control0 h) PVA_DMA_TC0_DSTM_MASK.
Definition hw_dst_mode (h : pva_dtd_s) : Z :=
  Z.land (Z.shiftr (transfer_control0 h) PVA_DMA_TC0_DDTM_SHIFT) PVA_DMA_TC0_DSTM_MASK.
Definition hw_bpp (h : pva_dtd_s) : Z := bpp_size (Z.land (transfer_control1 h) 3).

(** A signed advance of 24 bits below a count of 8. *)
Definition adv24 (c : Z) : Z :=
  let v := Z.land c 0xFFFFFF in if v <? 2 ^ 23 then v else v - 2 ^ 24.
Definition rpt8 (c : Z) : Z := Z.shiftr c 24.

(** The loop nest of a transfer, as [dims] of the descriptor. *)
Definition hw_dims (h : pva_dtd_s) (dst : bool) : list (Z * Z) :=
  let b := hw_bpp h in
  let row c := (adv24 c * b, rpt8 c) in
  if dst
  then [(b, dtd_tx h - 1); (dlp_adv h * b, dtd_ty h - 1);
        row (dstpt1_cntl h); row (dstpt2_cntl h); row (dstpt3_cntl h)]
  else [(b, dtd_tx h - 1 - dtd_px h); (slp_adv h * b, dtd_ty h - 1 - dtd_py h);
        row (srcpt1_cntl h); row (srcpt2_cntl h); row (srcpt3_cntl h)].

Definition hw_start (h : pva_dtd_s) (dst : bool) : Z :=
  hw_address (if dst then dst_adr h else src_adr h).

(** The engine reads, or writes, the byte at address [a]. *)
Definition hw_touches (h : pva_dtd_s) (dst : bool) (a : Z) : Prop :=
  exists o b, reach (hw_dims h dst) o /\ 0 <= b < hw_bpp h /\ a = hw_start h dst + o + b.

(** Members that keep their value in the registers. *)
Record fits (d : nvpva_dma_descriptor) : Prop := {
  fits_src_mode : 0 <= srcTransferMode d < 8;
  fits_dst_mode : 0 <= dstTransferMode d < 8;
  fits_adv : Forall (fun a => - 2 ^ 23 <= a < 2 ^ 23)
    [srcAdv1 d; srcAdv2 d; srcAdv3 d; dstAdv1 d; dstAdv2 d; dstAdv3 d];
  fits_py : py d < 256;
  fits_bpp : 0 <= bytePerPixel d < 4
}.

(** * Round trips of the registers *)
Lemma u8_bit z b : 0 <= b < 8 -> Z.testbit (u8 z) b = Z.testbit z b.
Proof. intros Hb. unfold u8. apply Z.mod_pow2_bits_low. lia. Qed.

Lemma u32_bit z b : 0 <= b < 32 -> Z.testbit (u32 z) b = Z.testbit z b.
Proof. intros Hb. unfold u32. apply Z.mod_pow2_bits_low. lia. Qed.

(** A bit of a packed register is a bit of one of the fields. *)
Lemma reg_or_bit fields b :
  0 <= b < 8 ->
  Z.testbit (reg_or u8 fields) b = existsb (fun '(v, n) => Z.testbit v (b - n)) fields.
Proof.
  intros Hb. unfold reg_or. rewrite u8_bit by done.
  assert (Hf : forall r, Z.testbit (fold_left (fun r '(v, n) => Z.lor r (u32 (Z.shiftl v n))) fields r) b =
    Z.testbit r b || existsb (fun '(v, n) => Z.testbit v (b - n)) fields).
  { induction fields as [|[v n] l IH]; intros r; simpl; [by rewrite orb_false_r|].
    rewrite IH, Z.lor_spec, u32_bit, Z.shiftl_spec by lia. by rewrite orb_assoc. }
  by rewrite Hf, Z.testbit_0_l.
Qed.

Lemma small_bit v k b : 0 <= v < 2 ^ k -> 0 <= k <= b -> Z.testbit v b = false.
Proof.
  intros Hv Hb. destruct (Z.eq_dec v 0) as [->|]; [apply Z.testbit_0_l|].
  apply Z.bits_above_log2; [lia|]. assert (Z.log2 v < k) by (apply Z.log2_lt_pow2; lia). lia.
Qed.

(** The lowest [k] bits of a number, given bit by bit. *)
Lemma low_field r v k :
  0 <= k -> 0 <= v < 2 ^ k -> (forall b, 0 <= b < k -> Z.testbit r b = Z.testbit v b) ->
  Z.land r (Z.ones k) = v.
Proof.
  intros Hk Hv Hb. apply Z.bits_inj'. intros b Hb0. rewrite Z.land_spec.
  destruct (Z.lt_ge_cases b k).
  - rewrite Z.ones_spec_low by lia. rewrite andb_true_r. apply Hb. lia.
  - rewrite Z.ones_spec_high by lia. rewrite andb_false_r. by rewrite (small_bit v k b) by lia.
Qed.

Lemma tc0_modes d :
  0 <= srcTransferMode d < 8 -> 0 <= dstTransferMode d < 8 -> srcFormat d = 0 -> dstFormat d = 0 ->
  Z.land (tc0_of d) 7 = srcTransferMode d /\ Z.land (Z.shiftr (tc0_of d) 4) 7 = dstTransferMode d.
Proof.
  intros Hs Hd Fs Fd. change 7 with (Z.ones 3).
  split; apply low_field; try lia; intros b Hb; unfold tc0_of.
  - rewrite reg_or_bit by lia. simpl. rewrite Fs, Fd, !Z.testbit_0_l, Z.sub_0_r.
    rewrite (Z.testbit_neg_r (dstTransferMode d)) by lia. by rewrite !orb_false_r.
  - rewrite Z.shiftr_spec, reg_or_bit by lia. simpl. rewrite Fs, Fd, !Z.testbit_0_l, Z.sub_0_r.
    rewrite (small_bit (srcTransferMode d) 3) by lia. simpl. rewrite orb_false_r.
    f_equal. lia.
Qed.

Lemma tc1_bpp d : 0 <= bytePerPixel d < 4 -> Z.land (tc1_of d) 3 = bytePerPixel d.
Proof.
  intros Hb. change 3 with (Z.ones 2). apply low_field; [lia|lia|]. intros b Hb2.
  unfold tc1_of. rewrite reg_or_bit by lia. simpl. rewrite Z.sub_0_r.
  rewrite !(Z.testbit_neg_r _ (b - _)) by lia. by rewrite !orb_false_r.
Qed.

Lemma pt_cntl_trip rpt adv :
  is_u8 rpt -> - 2 ^ 23 <= adv < 2 ^ 23 ->
  adv24 (pt_cntl rpt adv) = adv /\ rpt8 (pt_cntl rpt adv) = rpt.
Proof.
  intros Hr Ha. unfold is_u8 in Hr. unfold adv24, rpt8, pt_cntl.
  change 0xFFFFFF with (Z.ones 24). change 0xFF with (Z.ones 8). rewrite !Z.land_ones by lia.
  rewrite (Z.mod_small rpt) by lia. set (a := adv mod 2 ^ 24).
  assert (Hm : 0 <= a < 2 ^ 24) by (apply Z.mod_pos_bound; lia).
  assert (Hl : Z.lor (Z.shiftl rpt 24) a mod 2 ^ 24 = a).
  { rewrite <- Z.land_ones by lia. apply low_field; [lia|done|]. intros b Hb.
    rewrite Z.lor_spec, Z.shiftl_spec, Z.testbit_neg_r by lia. done. }
  split.
  - rewrite Hl. unfold a. destruct (Z.ltb_spec (adv mod 2 ^ 24) (2 ^ 23));
      Z.div_mod_to_equations; lia.
  - rewrite Z.shiftr_lor, Z.shiftr_shiftl_l by lia. rewrite Z.sub_diag, Z.shiftl_0_r.
    rewrite (Z.shiftr_div_pow2 a) by lia. rewrite (Z.div_small a) by lia. apply Z.lor_0_r.
Qed.

(** The registers written for a descriptor. *)
Lemma map_desc_registers env d frm relaxed is_misr bh old t t' h bl :
  map_desc env d frm relaxed is_misr bh old t = Some (t', inr (h, bl)) ->
  exists t0 src dst,
    patch_dma_desc_address env d frm is_misr bh (dst_adr old) t = Some (t0, inr (src, dst)) /\
    src_adr h = src /\ dst_adr h = dst /\
    transfer_control0 h = tc0_of d /\ transfer_control1 h = tc1_of d /\
    (dtd_tx h = tx d /\ dtd_ty h = ty d /\ slp_adv h = srcLinePitch d /\ dlp_adv h = dstLinePitch d) /\
    (dtd_px h = u8 (px d) /\ dtd_py h = u8 (py d)) /\
    (srcpt1_cntl h = pt_cntl (srcRpt1 d) (srcAdv1 d) /\ srcpt2_cntl h = pt_cntl (srcRpt2 d) (srcAdv2 d) /\
     srcpt3_cntl h = pt_cntl (srcRpt3 d) (srcAdv3 d)) /\
    (dstpt1_cntl h = pt_cntl (dstRpt1 d) (dstAdv1 d) /\ dstpt2_cntl h = pt_cntl (dstRpt2 d) (dstAdv2 d) /\
     dstpt3_cntl h = pt_cntl (dstRpt3 d) (dstAdv3 d)).
Proof.
  unfold map_desc. intros Hm. apply bind_ok in Hm as (s1 & u & [_ ->]%check_ok & Hm).
  apply bind_ok in Hm as (s2 & [src dst] & Hp & Hm).
  destruct (negb (prefetchEnable d =? 0) && _); inv_M.
  destruct (_ || _) in Hm; inv_M.
  exists s2, src, dst. simpl. split_and!; done.
Qed.

(** The transfer that the registers describe is the one that was checked. *)
Lemma hw_transfer env d frm relaxed is_misr bh old t t' h bl dst a :
  map_desc env d frm relaxed is_misr bh old t = Some (t', inr (h, bl)) ->
  desc_wf d -> fits d -> hw_touches h dst a <-> touches d dst (hw_start h dst) a.
Proof.
  intros Hm [] [_ _ Ha Hpy Hb].
  apply map_desc_registers in Hm as (t0 & src & dd & _ & _ & _ & _ & H1 & (Htx & Hty & Hs & Hd) &
    (Hpx & Hpy') & (S1 & S2 & S3) & (D1 & D2 & D3)).
  assert (Eb : hw_bpp h = bpp_size (bytePerPixel d)) by (unfold hw_bpp; by rewrite H1, tc1_bpp).
  assert (Ed : hw_dims h dst = dims d dst).
  { rewrite !Forall_cons in Ha. destruct Ha as (A1 & A2 & A3 & A4 & A5 & A6 & _).
    unfold hw_dims, dims, last_tx, last_ty.
    rewrite Eb, Htx, Hty, Hs, Hd, Hpx, Hpy', S1, S2, S3, D1, D2, D3.
    rewrite !u8_id by (unfold is_u8, is_u32 in *; lia).
    repeat match goal with |- context [pt_cntl ?r ?x] =>
      destruct (pt_cntl_trip r x) as [-> ->]; [assumption|assumption|] end.
    destruct dst; by rewrite ?Z.sub_0_r. }
  unfold hw_touches, touches. by rewrite Eb, Ed.
Qed.

(** * Tasks *)

(** Every byte the transfer touches is in the region that the pointer names. *)
Definition stays_in (env : pva_env) (h : pva_dtd_s) (dst : bool) (m p : Z) : Prop :=
  exists r, named_region env m p = Some r /\
    forall a, hw_touches h dst a -> dma_addr r <= a < dma_addr r + size r.

(** Transfers for which the checks are exact. *)
Definition regular (d : nvpva_dma_descriptor) : Prop :=
  desc_wf d /\ fits d /\ plain d false /\ plain d true.

Section tasks.
Variable env : pva_env.
Hypothesis buffers_ok : forall p r, find_map_buffer_id env p = Some r -> region_ok r.
Hypothesis symbols_ok : forall p r, pva_get_sym_offset env p = Some r -> region_ok r.
Hypothesis l2_ok : is_u32 (l2_alloc_size env).
Variables (descs : list nvpva_dma_descriptor) (misr : Z -> bool).

Lemma checked_stays hw i d :
  checked_at env descs misr hw i -> misr i = false -> descs !! Z.to_nat i = Some d -> regular d ->
  exists h, hw !! Z.to_nat i = Some h /\
    (unchecked_mode env (hw_src_mode h) \/ stays_in env h false (hw_src_mode h) (srcPtr d)) /\
    (hw_src_mode h = DMA_DESC_SRC_XFER_VPU_CONFIG \/
     (hw_dst_mode h = DMA_DESC_DST_XFER_R5TCM /\ is_system_app env = true) \/
     stays_in env h true (hw_dst_mode h) (dstPtr d)).
Proof.
  intros (d' & bh & old & t & t' & h & bl & Ed & Hm & Eh) Hmi Ed' (Hwf & Hfit & P1 & P2).
  rewrite Ed' in Ed. injection Ed as <-. rewrite Hmi in Hm. exists h. split; [done|].
  assert (Hb : forall dst a, hw_touches h dst a <-> touches d dst (hw_start h dst) a)
    by (intros dst a; by apply (hw_transfer env d false false false bh old t t' h bl)).
  apply map_desc_registers in Hm as (t0 & src & dd & Hp & Es & Edd & E0 & _).
  destruct (tc0_modes d (fits_src_mode _ Hfit) (fits_dst_mode _ Hfit) (plain_format _ _ P1)
    (plain_format _ _ P2)) as [M1 M2].
  assert (Hsm : hw_src_mode h = srcTransferMode d) by (unfold hw_src_mode; by rewrite E0).
  assert (Hdm : hw_dst_mode h = dstTransferMode d) by (unfold hw_dst_mode; by rewrite E0).
  rewrite Hsm, Hdm.
  destruct (patched_transfer_ok env buffers_ok symbols_ok l2_ok d bh (dst_adr old) t t0 src dd Hp Hwf P1 P2)
    as [Hsrc Hdst].
  split.
  - destruct Hsrc as [?|(r & Hr & Hin)]; [by left|right]. exists r. split; [done|].
    intros a Ha%Hb. apply Hin. unfold hw_start in Ha. by rewrite Es in Ha.
  - destruct Hdst as [?|[?|(r & Hr & Hin & _)]]; [by left|by right; left|right; right].
    exists r. split; [done|]. intros a Ha%Hb. apply Hin. unfold hw_start in Ha. by rewrite Edd in Ha.
Qed.

End tasks.

(** * Instance: one descriptor, one channel that starts with it *)
Definition ex_descs : list nvpva_dma_descriptor := ex_desc :: replicate 59 (tile_desc 0 0 0 0 0).
Definition ex_channel (first : Z) : nvpva_dma_channel :=
  mk_channel first 0 0 0 0 0 0 0 0 0 0 0 0 0 0 0 0.

Lemma ex_regular : regular ex_desc.
Proof.
  destruct ex_desc_plain as (Hd & Hp1 & Hp2). split_and!; try done.
  split; simpl; try lia. repeat constructor; simpl; lia.
Qed.

Lemma ex_descs_defined : Forall desc_defined ex_descs.
Proof.
  apply Forall_cons. split; [|apply Forall_replicate]; unfold desc_defined; simpl; unfold is_u16; lia.
Qed.

Definition ex_result := pva_task_write_dma_info ex_env ex_descs (fun _ => false) [ex_channel 0] ex_task.

Lemma ex_result_ok :
  match ex_result with
  | Some (s, _, _, err) => err = 0 /\
      match dtds s !! 0%nat with
      | Some h => hw_src_mode h = DMA_DESC_SRC_XFER_MC /\ hw_touches h false 0x10080
      | None => False
      end
  | None => False
  end.
Proof.
  let v := eval vm_compute in ex_result in replace ex_result with v by (by vm_compute).
  split; [done|]. simpl. split; [done|].
  exists 0, 0. split_and!; [|done|done|done].
  apply reach_start. repeat constructor; simpl; done.
Qed.


(** * What is let through *)

(** A source of 257 rows of which 256 are padding: one row is checked, but the register
    holds no padding, and the engine reads far behind the buffer of 4096 bytes. *)
Definition padded_desc : nvpva_dma_descriptor :=
  mk_desc 1 0 0 0 0 0 0 16 257 64 0 0 0 0 0 0 0 0 0 0 0 0 0 0 0 256 0 0 0 0 0 0 0 0 0
    1 2 0 0 0 0 0 0 0 0.

Lemma padding_wraps :
  exists t h bl,
    map_desc ex_env padded_desc false false false 255 zero_dtd ex_task = Some (t, inr (h, bl)) /\
    hw_touches h false (0x10000 + 0x4000) /\ find_map_buffer_id ex_env 1 = Some (mk_region 0x10000 4096).
Proof.
  eexists _, _, _. split; [by vm_compute|]. split; [|done].
  exists 0x4000, 0. split_and!; [|done|done|done].
  apply (reach_at _ [0; 256; 0; 0; 0]); [repeat constructor; done|done].
Qed.

(** An advance of 2^23 is checked as such and written as -2^23: the second tile is read
    from before the buffer. *)
Definition big_env : pva_env :=
  mk_env 2 (fun p => if p =? 1 then Some (mk_region (2 ^ 32) (2 ^ 24)) else None)
    (Some [mk_region 0x40 256]) 0 false 0 1.

Definition advance_desc (adv : Z) : nvpva_dma_descriptor :=
  mk_desc 1 0 0 0 0 0 0 16 4 64 0 adv 0 0 0 0 0 1 0 0 0 0 0 0 0 0 0 0 0 0 0 0 0 0 0
    1 2 0 0 0 0 0 0 0 0.

Lemma advance_truncated :
  exists t h bl,
    map_desc big_env (advance_desc (2 ^ 23)) false false false 255 zero_dtd ex_task =
      Some (t, inr (h, bl)) /\
    hw_touches h false (2 ^ 32 - 2 ^ 23) /\
    srcpt1_cntl h = pt_cntl 1 (- 2 ^ 23).
Proof.
  eexists _, _, _. split; [by vm_compute|]. split; [|done].
  exists (- 2 ^ 23), 0. split_and!; [|done|done|done].
  apply (reach_at _ [0; 0; 1; 0; 0]); [repeat constructor; done|done].
Qed.

(** A source format of 2 is accepted, and its bit lands in the field of the destination's
    mode: what was checked against a symbol in VPU memory is written to L2 memory. *)
Lemma format_changes_mode :
  exists t h bl,
    map_desc ex_env (tile_desc 16 4 64 128 2) false false false 0 zero_dtd ex_task =
      Some (t, inr (h, bl)) /\
    dstTransferMode (tile_desc 16 4 64 128 2) = DMA_DESC_DST_XFER_VMEM /\
    hw_dst_mode h = DMA_DESC_DST_XFER_L2RAM.
Proof. eexists _, _, _. split; [by vm_compute|]. done. Qed.

(** A channel may start behind the arrays of 60 descriptors. *)
Lemma chain_leaves_array :
  pva_task_write_dma_info ex_env ex_descs (fun _ => false) [ex_channel 60] ex_task = None /\
  pva_task_write_dma_info ex_env ex_descs (fun _ => false) [ex_channel 200] ex_task = None.
Proof. by vm_compute. Qed.

(** A channel that starts at an unused descriptor of the array uses up the count: the
    task's own descriptor is neither checked nor written, and success is returned. *)
Lemma descriptor_left_out :
  exists s cfg trig,
    pva_task_write_dma_info ex_env (ex_desc :: replicate 59 ex_desc) (fun _ => false)
      [ex_channel 5] ex_task = Some (s, cfg, trig, 0) /\
    dtds s !! 0%nat = Some zero_dtd.
Proof. eexists _, _, _. split; [by vm_compute|]. done. Qed.
