(* ===== verification/Host1xPushbuf.v ===== *)
(** The push buffer of a host1x channel (src/drivers/gpu/host1x/cdma.c, hw/cdma_hw.c,
    and the decoder of hw/debug_hw.c).

    A ring of 1023 slots of two words, behind which a RESTART opcode sends the fetching
    hardware back to the start.  [pb_repr] relates the ring to the list of occupied
    slots; [fetch_layout] shows that the hardware decodes from the ring exactly the
    commands that were pushed, although wide commands take two slots and may need
    padding at the end of the ring. *)
From S2P Require Export Prelude.

(** * The buffer *)
Definition HOST1X_PUSHBUFFER_SLOTS := 1023.

(** struct push_buffer: the words, [fence] and [pos] as byte offsets. *)
Record push_buffer := mk_pb {
  mapped : list Z; fence : Z; pos : Z; pb_size : Z; alloc_size : Z }.

Definition host1x_opcode_restart (address : Z) : Z := Z.lor (Z.shiftl 5 28) (Z.shiftr address 4).

(** A word of the buffer; [None] outside of it. *)
Definition load_word (m : list Z) (i : Z) : option Z := if 0 <=? i then m !! Z.to_nat i else None.
Definition store_word (m : list Z) (i v : Z) : option (list Z) :=
  if (0 <=? i) && (i <? Z.of_nat (length m)) then Some (<[Z.to_nat i := v]> m) else None.

Definition set_mapped m pb := mk_pb m (fence pb) (pos pb) (pb_size pb) (alloc_size pb).
Definition set_fence f pb := mk_pb (mapped pb) f (pos pb) (pb_size pb) (alloc_size pb).
Definition set_pos p pb := mk_pb (mapped pb) (fence pb) p (pb_size pb) (alloc_size pb).

(** Put the restart at the end of the memory. *)
Definition push_buffer_init (pb : push_buffer) : option push_buffer :=
  m ← store_word (mapped pb) (pb_size pb / 4) (host1x_opcode_restart 0);
  mret (set_mapped m pb).

(** What [host1x_pushbuffer_init] holds when it returns. *)
Inductive pb_resource := DmaMemory | Iova | IommuMapping.

Section init.
(** The DMA allocator: memory of at least the size that was asked for; the IOMMU. *)
Variable domain : bool.
Variable dma_alloc_wc : Z -> option (list Z).
Variable iova_align : Z -> Z.
Variable alloc_iova_ok : bool.
Variable iommu_map : Z.

Definition host1x_pushbuffer_init : option (Z * push_buffer * list pb_resource) :=
  let size := HOST1X_PUSHBUFFER_SLOTS * 8 in
  let pb m alloc := mk_pb m (size - 8) 0 size alloc in
  if domain then
    let alloc := iova_align (size + 4) in
    match dma_alloc_wc alloc with
    | None => Some (- ENOMEM, pb [] 0, [])
    | Some m =>
        if negb alloc_iova_ok then Some (- ENOMEM, pb m 0, [])
        else if negb (iommu_map =? 0) then Some (iommu_map, pb m 0, [])
        else p ← push_buffer_init (pb m alloc); mret (0, p, [DmaMemory; Iova; IommuMapping])
    end
  else
    match dma_alloc_wc (size + 4) with
    | None => Some (- ENOMEM, pb [] 0, [])
    | Some m => p ← push_buffer_init (pb m (size + 4)); mret (0, p, [DmaMemory])
    end.
End init.

(** Push two words; the caller ensures that there is room. *)
Definition host1x_pushbuffer_push (pb : push_buffer) (op1 op2 : Z) : option push_buffer :=
  m ← store_word (mapped pb) (pos pb / 4) op1;
  m ← store_word m (pos pb / 4 + 1) op2;
  let p := u32 (pos pb + 8) in
  mret (set_pos (if pb_size pb <=? p then p - pb_size pb else p) (set_mapped m pb)).

Definition host1x_pushbuffer_pop (pb : push_buffer) (slots : Z) : push_buffer :=
  let f := u32 (fence pb + slots * 8) in
  set_fence (if pb_size pb <=? f then f - pb_size pb else f) pb.

Definition host1x_pushbuffer_space (pb : push_buffer) : Z :=
  let f := if fence pb <? pos pb then u32 (fence pb + pb_size pb) else fence pb in
  u32 (f - pos pb) / 8.

(** * The ring of slots *)
Definition slot : Type := Z * Z.
Abbreviation NS := HOST1X_PUSHBUFFER_SLOTS.

(** The slot [i] of the memory holds [x]. *)
Definition slot_is (m : list Z) (i : Z) (x : slot) : Prop :=
  m !! Z.to_nat (2 * i) = Some x.1 /\ m !! Z.to_nat (2 * i + 1) = Some x.2.

(** The slots from [f] on, around the end, hold [l]. *)
Definition holds (m : list Z) (f : Z) (l : list slot) : Prop :=
  forall k x, l !! k = Some x -> slot_is m ((f + Z.of_nat k) mod NS) x.

(** The occupied slots, oldest first, begin at [f]. *)
Record pb_repr (pb : push_buffer) (f : Z) (l : list slot) : Prop := {
  pr_mem : 2 * NS + 1 <= Z.of_nat (length (mapped pb));
  pr_restart : mapped pb !! Z.to_nat (2 * NS) = Some (host1x_opcode_restart 0);
  pr_size : pb_size pb = 8 * NS;
  pr_first : 0 <= f < NS;
  pr_fence : fence pb = 8 * ((f - 1) mod NS);
  pr_pos : pos pb = 8 * ((f + Z.of_nat (length l)) mod NS);
  pr_room : Z.of_nat (length l) < NS;
  pr_holds : holds (mapped pb) f l
}.

Ltac ring_lia := unfold HOST1X_PUSHBUFFER_SLOTS, u32 in *; Z.div_mod_to_equations; lia.

Lemma store_word_ok m i v :
  0 <= i < Z.of_nat (length m) ->
  exists m', store_word m i v = Some m' /\ length m' = length m /\
    forall k, m' !! k = if decide (k = Z.to_nat i) then Some v else m !! k.
Proof.
  intros Hi. unfold store_word.
  rewrite (proj2 (Z.leb_le 0 i)), (proj2 (Z.ltb_lt i _)) by lia. simpl.
  eexists. split_and!; [done|apply length_insert|]. intros k. case_decide as Hk.
  - subst k. apply list_lookup_insert_eq. lia.
  - by apply list_lookup_insert_ne.
Qed.

Lemma space_ok pb f l : pb_repr pb f l -> host1x_pushbuffer_space pb = NS - 1 - Z.of_nat (length l).
Proof.
  intros [_ _ Hs Hf Hfe Hp Hr _]. unfold host1x_pushbuffer_space. rewrite Hs, Hfe, Hp.
  destruct (Z.ltb_spec (8 * ((f - 1) mod NS)) (8 * ((f + Z.of_nat (length l)) mod NS)));
    ring_lia.
Qed.

(** Two slots of the ring are different words. *)
Lemma slot_is_store m m' i j v x :
  0 <= i -> 0 <= j -> i / 2 <> j ->
  (forall k, m' !! k = if decide (k = Z.to_nat i) then Some v else m !! k) ->
  slot_is m j x -> slot_is m' j x.
Proof.
  intros Hi Hj Hne Hm [H1 H2].
  assert (2 * j <> i /\ 2 * j + 1 <> i) by (Z.div_mod_to_equations; lia).
  split; rewrite Hm, decide_False by lia; done.
Qed.

Lemma ring_index_inj f k1 k2 :
  0 <= k1 < NS -> 0 <= k2 < NS -> (f + k1) mod NS = (f + k2) mod NS -> k1 = k2.
Proof. intros. ring_lia. Qed.

(** Pushing into a ring that is not full. *)
Lemma push_ok pb f l op1 op2 :
  pb_repr pb f l -> Z.of_nat (length l) < NS - 1 ->
  exists pb', host1x_pushbuffer_push pb op1 op2 = Some pb' /\ pb_repr pb' f (l ++ [(op1, op2)]).
Proof.
  intros [Hm Hrs Hs Hf Hfe Hp Hr Hh] Hl. unfold host1x_pushbuffer_push.
  set (w := (f + Z.of_nat (length l)) mod NS) in *.
  assert (Hw : 0 <= w < NS) by (apply Z.mod_pos_bound; done).
  assert (E1 : pos pb / 4 = 2 * w) by (rewrite Hp; Z.div_mod_to_equations; lia). rewrite E1.
  unfold HOST1X_PUSHBUFFER_SLOTS in Hm, Hw.
  destruct (store_word_ok (mapped pb) (2 * w) op1 ltac:(lia)) as (m1 & -> & L1 & K1). simpl.
  destruct (store_word_ok m1 (2 * w + 1) op2 ltac:(lia)) as (m2 & -> & L2 & K2). simpl.
  eexists. split; [done|].
  assert (Hh' : forall k x, l !! k = Some x -> slot_is m2 ((f + Z.of_nat k) mod NS) x).
  { intros k x Hk. assert (Hkl : (k < length l)%nat) by (by eapply lookup_lt_Some).
    assert (Hne : (f + Z.of_nat k) mod NS <> w).
    { intros He. apply ring_index_inj in He; lia. }
    assert (0 <= (f + Z.of_nat k) mod NS) by (apply Z.mod_pos_bound; done).
    eapply slot_is_store; [| | |exact K2|]; [lia|done|Z.div_mod_to_equations; lia|].
    eapply slot_is_store; [| | |exact K1|by apply Hh]; [lia|done|Z.div_mod_to_equations; lia]. }
  split; simpl.
  - rewrite L2, L1. unfold HOST1X_PUSHBUFFER_SLOTS. lia.
  - rewrite K2, decide_False, K1, decide_False; [done|..]; unfold HOST1X_PUSHBUFFER_SLOTS; lia.
  - done.
  - done.
  - done.
  - rewrite Hp, Hs, length_app. simpl.
    destruct (Z.leb_spec (8 * NS) (u32 (8 * w + 8))); unfold w; ring_lia.
  - rewrite length_app. simpl. lia.
  - intros k x Hk. apply lookup_app_Some in Hk as [Hk|[Hk Hx]]; [by apply Hh'|].
    apply list_lookup_singleton_Some in Hx as [Hk0 <-].
    replace (f + Z.of_nat k) with (f + Z.of_nat (length l)) by lia. fold w. split; simpl.
    + rewrite K2, decide_False, K1, decide_True; [done|..]; lia.
    + rewrite K2, decide_True; [done|lia].
Qed.

(** Popping the oldest slots. *)
Lemma pop_ok pb f l n :
  pb_repr pb f l -> (n <= length l)%nat ->
  pb_repr (host1x_pushbuffer_pop pb (Z.of_nat n)) ((f + Z.of_nat n) mod NS) (drop n l).
Proof.
  intros [Hm Hrs Hs Hf Hfe Hp Hr Hh] Hn.
  split; simpl; try done.
  - apply Z.mod_pos_bound. done.
  - rewrite Hfe, Hs. destruct (Z.leb_spec (8 * NS) (u32 (8 * ((f - 1) mod NS) + Z.of_nat n * 8)));
      ring_lia.
  - rewrite Hp, length_drop. ring_lia.
  - rewrite length_drop. lia.
  - intros k x Hk. rewrite lookup_drop in Hk. apply Hh in Hk.
    replace (((f + Z.of_nat n) mod NS + Z.of_nat k) mod NS) with ((f + Z.of_nat (n + k)) mod NS)
      by ring_lia. done.
Qed.

(** Nothing is occupied after initialisation, and nothing is held after a failure. *)
Lemma pushbuffer_init_ok domain alloc align iova_ok map :
  (forall n m, alloc n = Some m -> n <= 4 * Z.of_nat (length m)) -> (forall n, n <= align n) ->
  exists err pb held, host1x_pushbuffer_init domain alloc align iova_ok map = Some (err, pb, held) /\
    (if err =? 0 then pb_repr pb 0 [] else held = []).
Proof.
  intros Ha Hal. unfold host1x_pushbuffer_init.
  assert (Hok : forall m n a, HOST1X_PUSHBUFFER_SLOTS * 8 + 4 <= n -> alloc n = Some m ->
    exists p, push_buffer_init (mk_pb m (NS * 8 - 8) 0 (NS * 8) a) = Some p /\ pb_repr p 0 []).
  { intros m n a Hn Hm%Ha. unfold push_buffer_init. simpl.
    change (NS * 8 / 4) with 2046. unfold HOST1X_PUSHBUFFER_SLOTS in Hn.
    destruct (store_word_ok m 2046 (host1x_opcode_restart 0) ltac:(lia)) as (m' & -> & L & K). simpl.
    eexists. split; [done|]. split; try done; simpl.
    rewrite L. unfold HOST1X_PUSHBUFFER_SLOTS. lia. }
  destruct domain.
  - destruct (alloc (align _)) as [m|] eqn:Em; [|by eexists _, _, _].
    destruct iova_ok; simpl; [|by eexists _, _, _].
    destruct (Z.eqb_spec map 0) as [|Hne]; simpl.
    + edestruct Hok as (p & -> & Hp); [apply Hal|done|]. by eexists _, _, _.
    + eexists _, _, _. split; [done|]. by rewrite (proj2 (Z.eqb_neq map 0)).
  - destruct (alloc _) as [m|] eqn:Em; [|by eexists _, _, _].
    edestruct Hok as (p & -> & Hp); [|done|]; [done|]. by eexists _, _, _.
Qed.

(** * Commands *)

(** One call of [host1x_cdma_push] or [host1x_cdma_push_wide]. *)
Inductive push_cmd := Push (op1 op2 : Z) | PushWide (op1 op2 op3 op4 : Z).

Definition words_of (c : push_cmd) : list Z :=
  match c with Push op1 op2 => [op1; op2] | PushWide op1 op2 op3 op4 => [op1; op2; op3; op4] end.

(** The number of words that follow an opcode, and the payload register after it. *)
Definition HOST1X_OPCODE_RESTART := 5.
Definition HOST1X_OPCODE_RESTART_W := 13.
Definition INVALID_PAYLOAD := 0xffffffff.

Definition hweight (n w : Z) : Z := Z.of_nat (length (filter (fun i => Z.testbit w i = true) (seqZ 0 n))).

Definition show_channel_command (val payload : Z) : Z * Z :=
  let opcode := Z.shiftr val 28 in
  if opcode =? 0 then (hweight 6 (Z.land val 0x3f), payload)
  else if (opcode =? 1) || (opcode =? 2) then (Z.land val 0xffff, payload)
  else if opcode =? 3 then (hweight 16 (Z.land val 0xffff), payload)
  else if opcode =? 6 then (1, payload)
  else if opcode =? 9 then (0, Z.land val 0xffff)
  else if (opcode =? 10) || (opcode =? 11) then
    if (payload =? 0) || (payload =? INVALID_PAYLOAD) then (0, payload) else (payload, payload)
  else if opcode =? 12 then (2, payload)
  else (0, payload).

(** A command is its opcode and the words that belong to it. *)
Definition command : Type := Z * list Z.

Definition is_restart (w : Z) : bool :=
  (Z.shiftr w 28 =? HOST1X_OPCODE_RESTART) || (Z.shiftr w 28 =? HOST1X_OPCODE_RESTART_W).
(** The number of operands depends on the payload register. *)
Definition is_payload_op (w : Z) : bool := (Z.shiftr w 28 =? 10) || (Z.shiftr w 28 =? 11).
Definition operands (w : Z) : Z := (show_channel_command w INVALID_PAYLOAD).1.

Lemma operands_nonneg w : 0 <= operands w.
Proof.
  unfold operands, show_channel_command, hweight. repeat case_match; simpl; try lia;
    apply Z.land_nonneg; right; done.
Qed.
#[global] Opaque operands.

(** Words that are complete commands and do not jump. *)
Fixpoint parse (fuel : nat) (ws : list Z) : option (list command) :=
  match ws, fuel with
  | [], _ => Some []
  | _, O => None
  | w :: ws, S fuel =>
      if is_restart w || is_payload_op w then None
      else
        let n := Z.to_nat (operands w) in
        if Nat.ltb (length ws) n then None
        else cs ← parse fuel (drop n ws); mret ((w, take n ws) :: cs)
  end.

Definition decode_cmd (c : push_cmd) : option (list command) := parse 4 (words_of c).

(** ** The fetching hardware: from [get] until [put], following RESTART, whose target is in
    units of 16 bytes, and RESTART_W, whose target is a word *)
Definition load_words (m : list Z) (i n : Z) : option (list Z) := mapM (load_word m) (seqZ i n).

Fixpoint fetch (fuel : nat) (m : list Z) (get put : Z) : option (list command) :=
  if get =? put then Some []
  else
    match fuel with
    | O => None
    | S fuel =>
        op ← load_word m (get / 4);
        if Z.shiftr op 28 =? HOST1X_OPCODE_RESTART
        then fetch fuel m (Z.shiftl (Z.land op 0xfffffff) 4) put
        else if Z.shiftr op 28 =? HOST1X_OPCODE_RESTART_W
        then fetch fuel m (4 * Z.land op 0xfffffff) put
        else
          args ← load_words m (get / 4 + 1) (operands op);
          rest ← fetch fuel m (get + 4 * (operands op + 1)) put;
          mret ((op, args) :: rest)
    end.

(** * Where commands are put *)

(** The slots for a command whose turn is slot [p]: a wide one is not split over the end
    of the ring. *)
Definition padding : slot := (Z.shiftl 5 28, 0xdead0000).
Definition cmd_slots (p : Z) (c : push_cmd) : list slot :=
  match c with
  | Push op1 op2 => [(op1, op2)]
  | PushWide op1 op2 op3 op4 => (if p =? NS - 1 then [padding] else []) ++ [(op1, op2); (op3, op4)]
  end.

Fixpoint layout (p : Z) (cs : list push_cmd) : list slot :=
  match cs with
  | [] => []
  | c :: cs => cmd_slots p c ++ layout ((p + Z.of_nat (length (cmd_slots p c))) mod NS) cs
  end.

Lemma layout_app p cs cs' :
  0 <= p < NS ->
  layout p (cs ++ cs') = layout p cs ++ layout ((p + Z.of_nat (length (layout p cs))) mod NS) cs'.
Proof.
  revert p. induction cs as [|c cs IH]; intros p Hp; cbn [layout app].
  - simpl. rewrite Z.add_0_r, Z.mod_small by done. done.
  - rewrite IH by (apply Z.mod_pos_bound; done). rewrite <- app_assoc, length_app. do 3 f_equal.
    ring_lia.
Qed.

(** Words in memory from index [i] on. *)
Definition words_at (m : list Z) (i : Z) (ws : list Z) : Prop :=
  forall k w, ws !! k = Some w -> load_word m (i + Z.of_nat k) = Some w.

Lemma words_at_drop m i n ws : words_at m i ws -> words_at m (i + Z.of_nat n) (drop n ws).
Proof.
  intros Hw k w Hk. rewrite lookup_drop in Hk. apply Hw in Hk. rewrite <- Hk. f_equal. lia.
Qed.

Lemma load_words_at m i ws n :
  words_at m i ws -> (n <= length ws)%nat -> load_words m i (Z.of_nat n) = Some (take n ws).
Proof.
  revert i ws. induction n as [|n IH]; intros i ws Hw Hn; [done|].
  destruct ws as [|w ws]; [simpl in Hn; lia|]. unfold load_words. rewrite seqZ_cons by lia.
  simpl. assert (H0 : load_word m i = Some w) by (rewrite <- (Hw 0%nat w eq_refl); f_equal; lia).
  rewrite H0. simpl. replace (Z.pred (Z.of_nat (S n))) with (Z.of_nat n) by lia.
  assert (Hw' : words_at m (Z.succ i) ws).
  { intros k x Hk. rewrite <- (Hw (S k) x Hk). f_equal. lia. }
  specialize (IH _ _ Hw' ltac:(simpl in Hn; lia)). unfold load_words in IH. by rewrite IH.
Qed.

(** Complete commands in memory are fetched as such. *)
Lemma fetch_words n : forall m i ws put cs fuel,
  parse n ws = Some cs -> 0 <= i -> words_at m i ws ->
  ~ (4 * i <= put < 4 * (i + Z.of_nat (length ws))) ->
  fetch (length cs + fuel) m (4 * i) put =
    rest ← fetch fuel m (4 * (i + Z.of_nat (length ws))) put; mret (cs ++ rest).
Proof.
  induction n as [|n IH]; intros m i ws put cs fuel Hp Hi Hw Hput.
  all: destruct ws as [|w ws]; [simpl in Hp; simplify_eq; simpl;
    rewrite Z.add_0_r; by destruct (fetch fuel m (4 * i) put)|].
  1: done.
  cbn [parse] in Hp. destruct (is_restart w || is_payload_op w) eqn:Eo; [done|].
  apply orb_false_iff in Eo as [Er _]. unfold is_restart in Er. apply orb_false_iff in Er as [Er Er2].
  destruct (Nat.ltb_spec (length ws) (Z.to_nat (operands w))) as [|Hn]; [done|].
  destruct (parse n (drop (Z.to_nat (operands w)) ws)) as [cs'|] eqn:Ep; [|done].
  injection Hp as <-.
  assert (H0 : load_word m i = Some w) by (rewrite <- (Hw 0%nat w eq_refl); f_equal; lia).
  pose proof (operands_nonneg w) as Hops.
  assert (Hw' : words_at m (i + 1) ws).
  { intros k x Hk. rewrite <- (Hw (S k) x Hk). f_equal. lia. }
  simpl length. cbn [fetch Nat.add].
  rewrite (proj2 (Z.eqb_neq (4 * i) put)) by (simpl in Hput; lia).
  replace (4 * i / 4) with i by (rewrite Z.mul_comm, Z.div_mul; lia). rewrite H0. cbn [mbind option_bind].
  rewrite Er, Er2. rewrite <- (Z2Nat.id (operands w)) at 1 by done.
  rewrite (load_words_at m (i + 1) ws) by done. cbn [mbind option_bind].
  replace (4 * i + 4 * (operands w + 1)) with (4 * (i + 1 + Z.of_nat (Z.to_nat (operands w)))) by lia.
  simpl in Hput.
  rewrite (IH m _ (drop (Z.to_nat (operands w)) ws) put cs' fuel Ep);
    [|lia|by apply words_at_drop|rewrite length_drop; lia].
  rewrite length_drop.
  replace (i + 1 + Z.of_nat (Z.to_nat (operands w)) + Z.of_nat (length ws - Z.to_nat (operands w)))
    with (i + Z.of_nat (S (length ws))) by lia.
  by destruct (fetch fuel m _ put).
Qed.

(** RESTART(0), wherever it is. *)
Lemma fetch_restart m i w put fuel :
  0 <= i -> load_word m i = Some w -> Z.shiftr w 28 = HOST1X_OPCODE_RESTART -> Z.land w 0xfffffff = 0 ->
  4 * i <> put -> fetch (S fuel) m (4 * i) put = fetch fuel m 0 put.
Proof.
  intros Hi Hw Ho Ha Hp. cbn [fetch]. rewrite (proj2 (Z.eqb_neq _ _)) by done.
  replace (4 * i / 4) with i by (rewrite Z.mul_comm, Z.div_mul; lia).
  rewrite Hw. cbn [mbind option_bind]. by rewrite Ho, Ha.
Qed.

Section layout.
Variable m : list Z.
Hypothesis restart_at_end : m !! Z.to_nat (2 * NS) = Some (host1x_opcode_restart 0).

(** At the end of the ring the hardware goes on at its start. *)
Lemma fetch_wrap e put :
  0 <= e <= NS -> put < 8 * NS ->
  exists j, (j <= 1)%nat /\ forall fuel, fetch (j + fuel) m (8 * e) put = fetch fuel m (8 * (e mod NS)) put.
Proof.
  intros He Hp. destruct (Z.eq_dec e NS) as [->|Hne].
  - exists 1%nat. split; [done|]. intros fuel. change (8 * (NS mod NS)) with 0.
    replace (8 * NS) with (4 * (2 * NS)) by lia.
    apply (fetch_restart m (2 * NS) (host1x_opcode_restart 0)); try done. lia.
  - exists 0%nat. split; [lia|]. intros fuel. by rewrite Z.mod_small by lia.
Qed.

Lemma slot_words p x : 0 <= p -> slot_is m p x -> words_at m (2 * p) [x.1; x.2].
Proof.
  intros Hp [H1 H2] k w Hk. unfold load_word.
  destruct k as [|[|k]]; simpl in Hk; simplify_eq; rewrite (proj2 (Z.leb_le 0 _)) by lia.
  - by rewrite Z.add_0_r.
  - by replace (2 * p + Z.of_nat 1) with (2 * p + 1) by lia.
Qed.

Lemma words_at_app i ws ws' :
  words_at m i ws -> words_at m (i + Z.of_nat (length ws)) ws' -> words_at m i (ws ++ ws').
Proof.
  intros H1 H2 k w Hk. apply lookup_app_Some in Hk as [Hk|[Hl Hk]]; [by apply H1|].
  apply H2 in Hk. rewrite <- Hk. f_equal. lia.
Qed.

Lemma parse_length n ws cs : parse n ws = Some cs -> (length cs <= length ws)%nat.
Proof.
  revert ws cs. induction n as [|n IH]; intros [|w ws] cs Hp; cbn [parse] in Hp;
    try (by injection Hp as <-); [done|].
  case_match; [done|]. destruct (Nat.ltb_spec (length ws) (Z.to_nat (operands w))) as [|Hn]; [done|].
  destruct (parse n _) as [cs'|] eqn:Ep; [|done]. injection Hp as <-.
  apply IH in Ep. rewrite length_drop in Ep. cbn [length]. lia.
Qed.

(** The words of one command, from slot [p] on and not over the end. *)
Lemma fetch_group p ws ds k q :
  parse 4 ws = Some ds -> Z.of_nat (length ws) = 2 * k -> k <= 2 ->
  0 <= p -> p + k <= NS -> words_at m (2 * p) ws -> 0 <= q < NS -> ~ (p <= q < p + k) ->
  exists j, (j <= 5)%nat /\ forall fuel, fetch (j + fuel) m (8 * p) (8 * q) =
    rest ← fetch fuel m (8 * ((p + k) mod NS)) (8 * q); mret (ds ++ rest).
Proof.
  intros Hd Ek Hk Hp Hfit Hw Hq Hne.
  destruct (fetch_wrap (p + k) (8 * q) ltac:(lia) ltac:(lia)) as (j & Hj & Hwr).
  exists (length ds + j)%nat. split; [apply parse_length in Hd; lia|]. intros fuel.
  rewrite <- Nat.add_assoc. replace (8 * p) with (4 * (2 * p)) by lia.
  rewrite (fetch_words 4 m (2 * p) ws (8 * q) ds) by (done || lia).
  rewrite Ek. replace (4 * (2 * p + 2 * k)) with (8 * (p + k)) by lia. by rewrite Hwr.
Qed.

Lemma fetch_cmd p c ds q :
  decode_cmd c = Some ds -> 0 <= p < NS -> holds m p (cmd_slots p c) -> 0 <= q < NS ->
  (forall k, 0 <= k < Z.of_nat (length (cmd_slots p c)) -> q <> (p + k) mod NS) ->
  exists j, (j <= 6)%nat /\ forall fuel, fetch (j + fuel) m (8 * p) (8 * q) =
    rest ← fetch fuel m (8 * ((p + Z.of_nat (length (cmd_slots p c))) mod NS)) (8 * q);
    mret (ds ++ rest).
Proof.
  intros Hd Hp Hh Hq Hne. destruct c as [a b|a b c d].
  - specialize (Hh 0%nat (a, b) eq_refl). rewrite Z.add_0_r, Z.mod_small in Hh by done.
    specialize (Hne 0 ltac:(simpl; lia)). rewrite Z.add_0_r, Z.mod_small in Hne by done.
    destruct (fetch_group p [a; b] ds 1 q Hd) as (j & Hj & E); try (cbn [length]; lia).
    + apply (slot_words p (a, b)); [lia|done].
    + exists j. split; [lia|done].
  - unfold cmd_slots in *. destruct (Z.eqb_spec p (NS - 1)) as [->|Hpn]; cbn [app] in *.
    + pose proof (Hh 0%nat _ eq_refl) as H0. pose proof (Hh 1%nat _ eq_refl) as H1.
      pose proof (Hh 2%nat _ eq_refl) as H2. change (Z.of_nat 3) with 3.
      change ((NS - 1 + Z.of_nat 0) mod NS) with (NS - 1) in H0.
      change ((NS - 1 + Z.of_nat 1) mod NS) with 0 in H1.
      change ((NS - 1 + Z.of_nat 2) mod NS) with 1 in H2.
      pose proof (Hne 0 ltac:(done)) as N0. pose proof (Hne 1 ltac:(done)) as N1.
      pose proof (Hne 2 ltac:(done)) as N2.
      change ((NS - 1 + 0) mod NS) with (NS - 1) in N0. change ((NS - 1 + 1) mod NS) with 0 in N1.
      change ((NS - 1 + 2) mod NS) with 1 in N2.
      destruct (fetch_group 0 [a; b; c; d] ds 2 q Hd) as (j & Hj & E); try (cbn [length]; lia).
      * apply (words_at_app 0 [a; b]); [by apply (slot_words 0 (a, b))|by apply (slot_words 1 (c, d))].
      * exists (S j). split; [lia|]. intros fuel. cbn [Nat.add].
        replace (8 * (NS - 1)) with (4 * (2 * (NS - 1))) by lia.
        rewrite (fetch_restart m (2 * (NS - 1)) (Z.shiftl 5 28)); [exact (E fuel)|done| |done|done|lia].
        by destruct H0 as [H0 _].
    + pose proof (Hh 0%nat _ eq_refl) as H0. pose proof (Hh 1%nat _ eq_refl) as H1.
      rewrite Z.add_0_r, Z.mod_small in H0 by done. rewrite Z.mod_small in H1 by lia.
      pose proof (Hne 0 ltac:(done)) as N0. pose proof (Hne 1 ltac:(done)) as N1.
      rewrite Z.mod_small in N0, N1 by lia.
      destruct (fetch_group p [a; b; c; d] ds 2 q Hd) as (j & Hj & E); try (cbn [length]; lia).
      * apply (words_at_app (2 * p) [a; b]); [apply (slot_words p (a, b)); [lia|done]|].
        change (Z.of_nat (length [a; b])) with 2. replace (2 * p + 2) with (2 * (p + 1)) by lia.
        apply (slot_words (p + 1) (c, d)); [lia|done].
      * exists j. split; [lia|done].
Qed.

Lemma holds_app p l l' :
  holds m p (l ++ l') <-> holds m p l /\ holds m ((p + Z.of_nat (length l)) mod NS) l'.
Proof.
  unfold holds. split.
  - intros Hh. split; intros k x Hk.
    + apply Hh. by apply lookup_app_l_Some.
    + specialize (Hh (length l + k)%nat x). rewrite lookup_app_r in Hh by lia.
      replace (length l + k - length l)%nat with k in Hh by lia. specialize (Hh Hk).
      by replace (((p + Z.of_nat (length l)) mod NS + Z.of_nat k) mod NS)
        with ((p + Z.of_nat (length l + k)) mod NS) by ring_lia.
  - intros [H1 H2] k x [Hk|[Hl Hk]]%lookup_app_Some; [by apply H1|]. apply H2 in Hk.
    by replace ((p + Z.of_nat k) mod NS)
      with (((p + Z.of_nat (length l)) mod NS + Z.of_nat (k - length l)) mod NS) by ring_lia.
Qed.

(** The hardware fetches [out] while it goes from slot [p] over [n] slots, wherever it
    stops behind them. *)
Definition fetches (p : Z) (n : nat) (out : list command) : Prop :=
  forall q, 0 <= q < NS -> (forall i, 0 <= i < Z.of_nat n -> q <> (p + i) mod NS) ->
  exists j, (j <= 6 * n)%nat /\ forall fuel, fetch (j + fuel) m (8 * p) (8 * q) =
    rest ← fetch fuel m (8 * ((p + Z.of_nat n) mod NS)) (8 * q); mret (out ++ rest).

Lemma fetches_nil p : 0 <= p < NS -> fetches p 0 [].
Proof.
  intros Hp q Hq _. exists 0%nat. split; [lia|]. intros fuel. cbn [Nat.add Z.of_nat].
  rewrite Z.add_0_r, Z.mod_small by done. by destruct (fetch _ _ _ _).
Qed.

Lemma fetches_app p n n' out out' :
  fetches p n out -> fetches ((p + Z.of_nat n) mod NS) n' out' -> fetches p (n + n') (out ++ out').
Proof.
  intros H1 H2 q Hq Hne.
  destruct (H1 q Hq) as (j1 & Hj1 & E1); [intros i Hi; apply Hne; lia|].
  destruct (H2 q Hq) as (j2 & Hj2 & E2).
  { intros i Hi. replace (((p + Z.of_nat n) mod NS + i) mod NS) with ((p + (Z.of_nat n + i)) mod NS)
      by ring_lia. apply Hne. lia. }
  exists (j1 + j2)%nat. split; [lia|]. intros fuel. rewrite <- Nat.add_assoc, E1, E2.
  replace (((p + Z.of_nat n) mod NS + Z.of_nat n') mod NS) with ((p + Z.of_nat (n + n')) mod NS)
    by ring_lia.
  destruct (fetch fuel m _ _) as [rest|]; simpl; [|done]. by rewrite app_assoc.
Qed.

(** Up to the slot behind them. *)
Lemma fetches_all p n out fuel :
  fetches p n out -> 0 <= p < NS -> Z.of_nat n < NS -> (6 * n <= fuel)%nat ->
  fetch fuel m (8 * p) (8 * ((p + Z.of_nat n) mod NS)) = Some out.
Proof.
  intros Hf Hp Hn Hfuel. set (q := (p + Z.of_nat n) mod NS).
  assert (Hq : 0 <= q < NS) by (apply Z.mod_pos_bound; done).
  destruct (Hf q Hq) as (j & Hj & E).
  { intros i Hi He. unfold q in He. apply ring_index_inj in He; lia. }
  replace fuel with (j + (fuel - j))%nat by lia. rewrite E. fold q.
  destruct (fuel - j)%nat; cbn [fetch]; rewrite Z.eqb_refl; simpl; by rewrite app_nil_r.
Qed.

(** What has been laid out from slot [p] on is fetched command by command. *)
Lemma fetch_layout cs : forall p dss,
  mapM decode_cmd cs = Some dss -> 0 <= p < NS -> holds m p (layout p cs) ->
  fetches p (length (layout p cs)) (concat dss).
Proof.
  induction cs as [|c cs IH]; intros p dss Hd Hp Hh.
  - injection Hd as <-. by apply fetches_nil.
  - cbn [mapM] in Hd. destruct (decode_cmd c) as [ds|] eqn:Ec; [|done].
    destruct (mapM decode_cmd cs) as [dss'|] eqn:Ecs; [|done]. injection Hd as <-.
    cbn [layout concat] in *. rewrite length_app. apply holds_app in Hh as [Hh1 Hh2].
    apply fetches_app; [|apply IH; [done|apply Z.mod_pos_bound; done|done]].
    intros q Hq Hne. destruct (fetch_cmd p c ds q Ec Hp Hh1 Hq Hne) as (j & Hj & E).
    exists j. split; [|done].
    assert (0 < length (cmd_slots p c))%nat by (destruct c; simpl; [lia|case_match; simpl; lia]). lia.
Qed.
End layout.
