(* ===== verification/Host1xCdma.v ===== *)
(** Command DMA of a host1x channel (src/drivers/gpu/host1x/cdma.c, cdma.h,
    hw/cdma_hw.c): submission, the queue of submitted jobs, completion and timeouts.

    One operation per C function, over a channel record that contains the DMA
    registers; [cstep] interleaves a submitter, which may sleep for space in the push
    buffer, completion, timeouts and a thread that stops the channel.  The channel's
    lock is held in the states [Pushing], [InWait], [StopLocked] and [StopLoop]. *)
From stdpp Require Export functions.
From S2P Require Export Host1xPushbuf Host1xSyncpt.

(** * State *)

Inductive cdma_event := CDMA_EVENT_NONE | CDMA_EVENT_SYNC_QUEUE_EMPTY | CDMA_EVENT_PUSH_BUFFER_SPACE.
#[export] Instance cdma_event_eq_dec : EqDecision cdma_event.
Proof. solve_decision. Defined.

(** The members of struct host1x_job that command DMA uses, and what was pushed for it. *)
Record cdma_job := mk_cjob {
  job_id : Z; job_client : Z; job_syncpt : nat; job_end : Z; job_timeout : Z;
  syncpt_recovery : bool; cancelled : bool; first_get : Z; num_slots : Z;
  program : list push_cmd }.

Definition set_cancelled j := mk_cjob (job_id j) (job_client j) (job_syncpt j) (job_end j)
  (job_timeout j) (syncpt_recovery j) true (first_get j) (num_slots j) (program j).
Definition set_no_timeout j := mk_cjob (job_id j) (job_client j) (job_syncpt j) (job_end j) 0
  (syncpt_recovery j) (cancelled j) (first_get j) (num_slots j) (program j).
Definition set_place fg n j := mk_cjob (job_id j) (job_client j) (job_syncpt j) (job_end j)
  (job_timeout j) (syncpt_recovery j) (cancelled j) fg n (program j).
Definition add_program c j := mk_cjob (job_id j) (job_client j) (job_syncpt j) (job_end j)
  (job_timeout j) (syncpt_recovery j) (cancelled j) (first_get j) (num_slots j) (program j ++ [c]).

Record buffer_timeout := mk_tmo {
  initialized : bool; tmo_client : option Z; tmo_syncpt : nat; tmo_val : Z;
  pending : bool  (* the delayed work is scheduled *) }.

(** The registers of the channel. *)
Record ch_regs := mk_regs { dmaput : Z; dmaget : Z; dmastop : bool; cmdproc_stop : bool }.

Record host1x_cdma := mk_cdma {
  event : cdma_event;
  completions : nat;                 (* completed and not yet waited for *)
  slots_used : Z; slots_free : Z; cdma_first_get : Z; last_pos : Z;
  push_buf : push_buffer;
  sync_queue : list cdma_job;
  timeout : buffer_timeout;
  running : bool; torndown : bool;
  regs : ch_regs }.

(** What happens to jobs: they are unpinned, and references are taken and put. *)
Inductive job_event := JobUnpin (id : Z) | JobGet (id : Z) | JobPut (id : Z).

Record chan := mk_chan {
  cdma : host1x_cdma;
  sps : nat -> host1x_syncpt;        (* syncpoints, with the cached value [min_val] *)
  live : nat -> Z;                   (* the hardware's counters *)
  log : list job_event }.

Section setters.
Implicit Types c : host1x_cdma.
Definition set_event e c := mk_cdma e (completions c) (slots_used c) (slots_free c) (cdma_first_get c)
  (last_pos c) (push_buf c) (sync_queue c) (timeout c) (running c) (torndown c) (regs c).
Definition set_completions n c := mk_cdma (event c) n (slots_used c) (slots_free c) (cdma_first_get c)
  (last_pos c) (push_buf c) (sync_queue c) (timeout c) (running c) (torndown c) (regs c).
Definition set_slots used free c := mk_cdma (event c) (completions c) used free (cdma_first_get c)
  (last_pos c) (push_buf c) (sync_queue c) (timeout c) (running c) (torndown c) (regs c).
Definition set_first_get g c := mk_cdma (event c) (completions c) (slots_used c) (slots_free c) g
  (last_pos c) (push_buf c) (sync_queue c) (timeout c) (running c) (torndown c) (regs c).
Definition set_last_pos p c := mk_cdma (event c) (completions c) (slots_used c) (slots_free c)
  (cdma_first_get c) p (push_buf c) (sync_queue c) (timeout c) (running c) (torndown c) (regs c).
Definition set_push_buf pb c := mk_cdma (event c) (completions c) (slots_used c) (slots_free c)
  (cdma_first_get c) (last_pos c) pb (sync_queue c) (timeout c) (running c) (torndown c) (regs c).
Definition set_queue q c := mk_cdma (event c) (completions c) (slots_used c) (slots_free c)
  (cdma_first_get c) (last_pos c) (push_buf c) q (timeout c) (running c) (torndown c) (regs c).
Definition set_timeout t c := mk_cdma (event c) (completions c) (slots_used c) (slots_free c)
  (cdma_first_get c) (last_pos c) (push_buf c) (sync_queue c) t (running c) (torndown c) (regs c).
Definition set_running r t c := mk_cdma (event c) (completions c) (slots_used c) (slots_free c)
  (cdma_first_get c) (last_pos c) (push_buf c) (sync_queue c) (timeout c) r t (regs c).
Definition set_regs r c := mk_cdma (event c) (completions c) (slots_used c) (slots_free c)
  (cdma_first_get c) (last_pos c) (push_buf c) (sync_queue c) (timeout c) (running c) (torndown c) r.
End setters.

Definition upd (f : host1x_cdma -> host1x_cdma) (c : chan) : chan :=
  mk_chan (f (cdma c)) (sps c) (live c) (log c).
Definition add_log (l : list job_event) (c : chan) : chan :=
  mk_chan (cdma c) (sps c) (live c) (log c ++ l).
Definition set_sp (i : nat) (sp : host1x_syncpt) (c : chan) : chan :=
  mk_chan (cdma c) (<[i := sp]> (sps c)) (live c) (log c).
Definition set_live (i : nat) (v : Z) (c : chan) : chan :=
  mk_chan (cdma c) (sps c) (<[i := v]> (live c)) (log c).

(** * Syncpoints *)
Definition host1x_syncpt_set_locked (sp : host1x_syncpt) : host1x_syncpt :=
  Syncpt (ref sp) (id sp) (min_val sp) (max_val sp) (name sp) (client_managed sp) (sp_base sp) (pool sp) true.

(** [syncpt_load]: the cached value becomes the hardware's. *)
Definition host1x_syncpt_load (i : nat) (c : chan) : Z * chan :=
  (live c i, set_sp i (set_min (sps c i) (live c i)) c).

Definition host1x_syncpt_idle (sp : host1x_syncpt) : bool := min_val sp =? max_val sp.

Definition host1x_syncpt_incr (i : nat) (c : chan) : chan :=
  if negb (client_managed (sps c i)) && host1x_syncpt_idle (sps c i) then c
  else set_live i (u32 (live c i + 1)) c.

(** * The registers *)
Definition cdma_flush (c : host1x_cdma) : host1x_cdma :=
  let p := pos (push_buf c) in
  if p =? last_pos c then c
  else set_last_pos p (set_regs (mk_regs p (dmaget (regs c)) (dmastop (regs c)) (cmdproc_stop (regs c))) c).

(** Resetting the get pointer loads it with the put pointer. *)
Definition cdma_start (c : host1x_cdma) : host1x_cdma :=
  if running c then c
  else
    let p := pos (push_buf c) in
    set_running true (torndown c)
      (set_last_pos p (set_regs (mk_regs p p false (cmdproc_stop (regs c))) c)).

Definition cdma_timeout_restart (getptr : Z) (c : host1x_cdma) : host1x_cdma :=
  if running c then c
  else
    let p := pos (push_buf c) in
    set_running true (torndown c)
      (set_last_pos p (set_regs (mk_regs p getptr false (cmdproc_stop (regs c))) c)).

Definition cdma_hw_cmdproc_stop (stop : bool) (c : host1x_cdma) : host1x_cdma :=
  set_regs (mk_regs (dmaput (regs c)) (dmaget (regs c)) (dmastop (regs c)) stop) c.

Definition cdma_freeze (c : host1x_cdma) : host1x_cdma :=
  if torndown c && negb (running c) then c
  else
    let c := cdma_hw_cmdproc_stop true c in
    set_running false true
      (set_regs (mk_regs (dmaput (regs c)) (dmaget (regs c)) true (cmdproc_stop (regs c))) c).

Definition cdma_resume (getptr : Z) (c : host1x_cdma) : host1x_cdma :=
  let c := cdma_hw_cmdproc_stop false c in
  cdma_timeout_restart getptr (set_running (running c) false c).

Definition cdma_timeout_init (c : host1x_cdma) : host1x_cdma :=
  let t := timeout c in
  set_timeout (mk_tmo true (tmo_client t) (tmo_syncpt t) (tmo_val t) (pending t)) c.

Definition cdma_timeout_destroy (c : host1x_cdma) : host1x_cdma :=
  let t := timeout c in
  set_timeout (mk_tmo false (tmo_client t) (tmo_syncpt t) (tmo_val t)
    (if initialized t then false else pending t)) c.

(** * Completion *)
Definition cdma_start_timer_locked (job : cdma_job) (c : host1x_cdma) : host1x_cdma :=
  match tmo_client (timeout c) with
  | Some _ => c
  | None =>
      set_timeout (mk_tmo (initialized (timeout c)) (Some (job_client job)) (job_syncpt job)
        (job_end job) true) c
  end.

Definition stop_cdma_timer_locked (c : host1x_cdma) : host1x_cdma :=
  let t := timeout c in
  set_timeout (mk_tmo (initialized t) None (tmo_syncpt t) (tmo_val t) false) c.

(** A job that update removes. *)
Definition finished (sp : nat -> host1x_syncpt) (job : cdma_job) : bool :=
  host1x_syncpt_is_expired (sp (job_syncpt job)) (job_end job) || cancelled job.

(** The loop over the queue; the result says whether to signal. *)
Fixpoint update_loop (jobs : list cdma_job) (signal : bool) (c : chan) : chan * bool :=
  match jobs with
  | [] => (c, signal)
  | job :: rest =>
      if negb (finished (sps c) job)
      then (if negb (job_timeout job =? 0) then upd (cdma_start_timer_locked job) c else c, signal)
      else
        let c := if bool_decide (is_Some (tmo_client (timeout (cdma c))))
                 then upd stop_cdma_timer_locked c else c in
        let c := add_log [JobUnpin (job_id job)] c in
        let pop := negb (num_slots job =? 0) in
        let c := if pop
                 then upd (fun d => set_push_buf (host1x_pushbuffer_pop (push_buf d) (num_slots job)) d) c
                 else c in
        let signal := signal || (pop && bool_decide (event (cdma c) = CDMA_EVENT_PUSH_BUFFER_SPACE)) in
        update_loop rest signal (add_log [JobPut (job_id job)] (upd (set_queue rest) c))
  end.

Definition update_cdma_locked (c : chan) : chan :=
  let '(c, signal) := update_loop (sync_queue (cdma c)) false c in
  let signal := signal || (bool_decide (event (cdma c) = CDMA_EVENT_SYNC_QUEUE_EMPTY) &&
                           bool_decide (sync_queue (cdma c) = [])) in
  if signal
  then upd (fun d => set_completions (S (completions d)) (set_event CDMA_EVENT_NONE d)) c
  else c.

(** * Timeouts *)
Section wide.
(** Whether the chip has the wide opcodes. *)
Variable has_wide_gather : bool.

(** Overwriting the slots of a job that is cancelled: [i] counts up to [num_slots]. *)
Definition blank_slot (job : cdma_job) (i : Z) (m : list Z) : option (list Z) :=
  let slot := (first_get job / 8 + i) mod HOST1X_PUSHBUFFER_SLOTS in
  if (i =? 0) && has_wide_gather then
    let next_job := (first_get job / 8 + num_slots job) mod HOST1X_PUSHBUFFER_SLOTS in
    m ← store_word m (2 * slot) (Z.lor (Z.shiftl 0xd 28) (next_job * 2));
    store_word m (2 * slot + 1) 0
  else
    m ← store_word m (2 * slot) 0x1bad0000;
    store_word m (2 * slot + 1) 0x1bad0000.

Definition blank_slots (job : cdma_job) (m : list Z) : option (list Z) :=
  foldl (fun m i => m ≫= blank_slot job i) (Some m) (seqZ 0 (num_slots job)).

(** The jobs behind the failed one that use its syncpoint. *)
Fixpoint cancel_rest (sp : nat) (jobs : list cdma_job) (m : list Z) : option (list cdma_job * list Z) :=
  match jobs with
  | [] => Some ([], m)
  | job :: rest =>
      if negb (Nat.eqb (job_syncpt job) sp) then
        '(rest, m) ← cancel_rest sp rest m; mret (job :: rest, m)
      else
        m ← blank_slots job m;
        '(rest, m) ← cancel_rest sp rest m; mret (set_cancelled job :: rest, m)
  end.

(** The jobs that count as completed, and the queue from the first that does not. *)
Fixpoint skip_completed (syncpt_val : Z) (jobs : list cdma_job) : list cdma_job * list cdma_job :=
  match jobs with
  | [] => ([], [])
  | job :: rest =>
      if syncpt_val <? job_end job then ([], jobs)
      else let '(done_jobs, jobs) := skip_completed syncpt_val rest in (job :: done_jobs, jobs)
  end.

Definition host1x_cdma_update_sync_queue (c : chan) : option chan :=
  let sp := tmo_syncpt (timeout (cdma c)) in
  let '(syncpt_val, c) := host1x_syncpt_load sp c in
  let '(done_jobs, jobs) := skip_completed syncpt_val (sync_queue (cdma c)) in
  match jobs with
  | [] => Some (upd (cdma_resume (last_pos (cdma c))) c)
  | job :: rest =>
      let restart_addr := match rest with next_job :: _ => first_get next_job | [] => last_pos (cdma c) end in
      c ← (if syncpt_recovery job then
             let c := upd (set_queue (done_jobs ++ set_no_timeout job :: rest)) c in
             let syncpt_incrs := u32 (job_end job - syncpt_val) in
             let c := Nat.iter (Z.to_nat syncpt_incrs) (host1x_syncpt_incr sp) c in
             Some (snd (host1x_syncpt_load sp c))
           else
             let c := set_sp (job_syncpt job) (host1x_syncpt_set_locked (sps c (job_syncpt job))) c in
             '(rest, m) ← cancel_rest (job_syncpt job) rest (mapped (push_buf (cdma c)));
             let c := upd (fun d => set_queue (done_jobs ++ set_cancelled job :: rest)
                                      (set_push_buf (set_mapped m (push_buf d)) d)) c in
             Some (update_cdma_locked c));
      mret (upd (cdma_resume restart_addr) c)
  end.

(** The delayed work, once it has the lock. *)
Definition cdma_timeout_handler (c : chan) : option chan :=
  match tmo_client (timeout (cdma c)) with
  | None => Some c
  | Some _ =>
      let c := upd (cdma_hw_cmdproc_stop true) c in
      let '(syncpt_val, c) := host1x_syncpt_load (tmo_syncpt (timeout (cdma c))) c in
      if 0 <=? s32 (u32 (syncpt_val - tmo_val (timeout (cdma c))))
      then Some (upd (cdma_hw_cmdproc_stop false) c)
      else host1x_cdma_update_sync_queue (upd cdma_freeze c)
  end.
End wide.

(** * Submission *)

(** On success the lock is kept. *)
Definition host1x_cdma_begin (job : cdma_job) (c : chan) : Z * chan :=
  if locked (sps c (job_syncpt job)) then (- EPERM, c)
  else
    let c := if negb (job_timeout job =? 0) && negb (initialized (timeout (cdma c)))
             then upd cdma_timeout_init c else c in
    let c := if running (cdma c) then c else upd cdma_start c in
    (0, upd (fun d => set_first_get (pos (push_buf d)) (set_slots 0 0 d)) c).

Definition push_words (op1 op2 : Z) (c : host1x_cdma) : option host1x_cdma :=
  pb ← host1x_pushbuffer_push (push_buf c) op1 op2; mret (set_push_buf pb c).

(** The end of [host1x_cdma_push], with [free] slots. *)
Definition push_narrow (op1 op2 free : Z) (c : host1x_cdma) : option host1x_cdma :=
  push_words op1 op2 (set_slots (slots_used c + 1) (free - 1) c).

(** [host1x_cdma_push_wide]: the slots for padding, and the slots that are needed. *)
Definition wide_extra (pb : push_buffer) : Z :=
  if pb_size pb <? u32 (pos pb + 16) then u32 (pb_size pb - pos pb) / 8 else 0.
Definition wide_needed (pb : push_buffer) : Z := 2 + wide_extra pb.

(** The end of [host1x_cdma_push_wide], when there is room. *)
Definition push_wide (op1 op2 op3 op4 : Z) (c : host1x_cdma) : option host1x_cdma :=
  let extra := wide_extra (push_buf c) in
  let needed := wide_needed (push_buf c) in
  let c := set_slots (slots_used c + needed) (host1x_pushbuffer_space (push_buf c) - needed) c in
  c ← (if 0 <? extra then push_words (Z.shiftl 5 28) 0xdead0000 c else Some c);
  c ← push_words op1 op2 c;
  push_words op3 op4 c.

Definition host1x_cdma_end (job : cdma_job) (c : chan) : chan :=
  let idle := bool_decide (sync_queue (cdma c) = []) in
  let c := upd cdma_flush c in
  let job := set_place (cdma_first_get (cdma c)) (slots_used (cdma c)) job in
  let c := add_log [JobGet (job_id job)] c in
  let c := upd (fun d => set_queue (sync_queue d ++ [job]) d) c in
  if negb (job_timeout job =? 0) && idle then upd (cdma_start_timer_locked job) c else c.

(** * Interleavings *)

(** A submission: the job with what has been pushed for it, and what is left to push. *)
Record submission := mk_sub { sub_job : cdma_job; todo : list push_cmd }.

Inductive submit_pc :=
  | Idle
  | Pushing (s : submission)    (* before the next command *)
  | InWait (s : submission)     (* in the loop that waits for space *)
  | Yielded (s : submission)    (* dropped the lock since somebody is waiting *)
  | Sleeping (s : submission).  (* waits for the completion *)

Inductive stop_pc := StopIdle | StopLocked | StopLoop | StopYielded | StopSleeping.

Record world := mk_world { ch : chan; sub : submit_pc; stp : stop_pc }.

(** Nobody holds the lock. *)
Definition unlocked (w : world) : Prop :=
  match sub w with Pushing _ | InWait _ => False | _ => True end /\
  match stp w with StopLocked | StopLoop => False | _ => True end.

Definition pushed (c : push_cmd) (rest : list push_cmd) (s : submission) : submission :=
  mk_sub (add_program c (sub_job s)) rest.

(** The start of a push: a narrow one takes a slot that is known to be free; the others
    look for space, a narrow one after a flush. *)
Definition push_start (s : submission) (c : chan) : option (chan * submit_pc) :=
  match todo s with
  | [] => None
  | Push op1 op2 as p :: rest =>
      if slots_free (cdma c) =? 0 then Some (upd cdma_flush c, InWait s)
      else
        d ← push_narrow op1 op2 (slots_free (cdma c)) (cdma c);
        mret (upd (fun _ => d) c, Pushing (pushed p rest s))
  | PushWide _ _ _ _ :: _ => Some (c, InWait s)
  end.

(** One round of [host1x_cdma_wait_locked] or [host1x_cdma_wait_pushbuffer_space], and
    the rest of the push when there is space. *)
Definition wait_iter (s : submission) (c : chan) : option (chan * submit_pc) :=
  let space := host1x_pushbuffer_space (push_buf (cdma c)) in
  let wait c :=
    if bool_decide (event (cdma c) = CDMA_EVENT_NONE)
    then Some (upd (set_event CDMA_EVENT_PUSH_BUFFER_SPACE) c, Sleeping s)
    else Some (c, Yielded s) in
  match todo s with
  | [] => None
  | Push op1 op2 as p :: rest =>
      if space =? 0 then wait c
      else
        d ← push_narrow op1 op2 space (cdma c);
        mret (upd (fun _ => d) c, Pushing (pushed p rest s))
  | PushWide op1 op2 op3 op4 as p :: rest =>
      if space <? wide_needed (push_buf (cdma c)) then wait (upd cdma_flush c)
      else
        d ← push_wide op1 op2 op3 op4 (cdma c);
        mret (upd (fun _ => d) c, Pushing (pushed p rest s))
  end.

(** One round of the wait for an empty queue in [cdma_stop]. *)
Definition stop_iter (c : chan) : chan * stop_pc :=
  if bool_decide (sync_queue (cdma c) = []) then
    (upd (fun d => set_running false (torndown d)
            (set_regs (mk_regs (dmaput (regs d)) (dmaget (regs d)) true (cmdproc_stop (regs d))) d)) c,
     StopIdle)
  else if bool_decide (event (cdma c) = CDMA_EVENT_NONE)
  then (upd (set_event CDMA_EVENT_SYNC_QUEUE_EMPTY) c, StopSleeping)
  else (c, StopYielded).

Definition stop_start (c : chan) : chan * stop_pc :=
  if running (cdma c) then (c, StopLoop) else (c, StopIdle).

Inductive cstep (wide : bool) : world -> world -> Prop :=
| step_begin c t job cmds c' :
    unlocked (mk_world c Idle t) -> program job = [] -> cancelled job = false ->
    Forall (fun p => is_Some (decode_cmd p)) cmds ->
    host1x_cdma_begin job c = (0, c') ->
    cstep wide (mk_world c Idle t) (mk_world c' (Pushing (mk_sub job cmds)) t)
| step_push c t s c' p :
    push_start s c = Some (c', p) ->
    cstep wide (mk_world c (Pushing s) t) (mk_world c' p t)
| step_wait c t s c' p :
    wait_iter s c = Some (c', p) ->
    cstep wide (mk_world c (InWait s) t) (mk_world c' p t)
| step_resume c t s :
    unlocked (mk_world c (Yielded s) t) ->
    cstep wide (mk_world c (Yielded s) t) (mk_world c (InWait s) t)
| step_wake c t s n :
    unlocked (mk_world c (Sleeping s) t) -> completions (cdma c) = S n ->
    cstep wide (mk_world c (Sleeping s) t) (mk_world (upd (set_completions n) c) (InWait s) t)
| step_end c t job :
    cstep wide (mk_world c (Pushing (mk_sub job [])) t) (mk_world (host1x_cdma_end job c) Idle t)
| step_update c p t :
    unlocked (mk_world c p t) ->
    cstep wide (mk_world c p t) (mk_world (update_cdma_locked c) p t)
| step_timeout c p t c' (d := upd (fun d => set_timeout (mk_tmo (initialized (timeout d))
      (tmo_client (timeout d)) (tmo_syncpt (timeout d)) (tmo_val (timeout d)) false) d) c) :
    unlocked (mk_world c p t) -> pending (timeout (cdma c)) = true ->
    cdma_timeout_handler wide d = Some c' ->
    cstep wide (mk_world c p t) (mk_world c' p t)
| step_stop c p t :
    unlocked (mk_world c p t) -> t = StopIdle ->
    cstep wide (mk_world c p t) (mk_world c p StopLocked)
| step_stop_start c p c' t' :
    stop_start c = (c', t') -> cstep wide (mk_world c p StopLocked) (mk_world c' p t')
| step_stop_iter c p c' t' :
    stop_iter c = (c', t') -> cstep wide (mk_world c p StopLoop) (mk_world c' p t')
| step_stop_resume c p :
    unlocked (mk_world c p StopYielded) ->
    cstep wide (mk_world c p StopYielded) (mk_world c p StopLoop)
| step_stop_wake c p n :
    unlocked (mk_world c p StopSleeping) -> completions (cdma c) = S n ->
    cstep wide (mk_world c p StopSleeping) (mk_world (upd (set_completions n) c) p StopLoop)
| step_live c p t i v : cstep wide (mk_world c p t) (mk_world (set_live i v c) p t)
| step_load c p t i : cstep wide (mk_world c p t) (mk_world (snd (host1x_syncpt_load i c)) p t)
| step_incr_max c p t i n :
    cstep wide (mk_world c p t) (mk_world (set_sp i (snd (host1x_syncpt_incr_max (sps c i) n)) c) p t).

(** [host1x_cdma_init] and [host1x_cdma_deinit]; the push buffer is initialised by
    [host1x_pushbuffer_init], whose error is passed on. *)
Definition host1x_cdma_init (pb : push_buffer) : host1x_cdma :=
  mk_cdma CDMA_EVENT_NONE 0 0 0 0 0 pb [] (mk_tmo false None 0 0 false) false false
    (mk_regs 0 0 true false).

Definition host1x_cdma_deinit (c : host1x_cdma) : Z * host1x_cdma :=
  if running c then (- EBUSY, c)
  else (0, cdma_timeout_destroy (set_push_buf (set_mapped [] (push_buf c)) c)).
