(* ===== verification/Host1xCdmaInv.v ===== *)
(** The invariant of a host1x channel.

    The occupied part of the push buffer is divided into the slots of the queued jobs, in
    the order of the queue, and those of the submission in progress ([queue_repr]).  A
    job's slots hold what was pushed for it, or, after it was cancelled, what replaces
    it ([seg]).  Here are the effects of an update and of a timeout on this;
    Host1xCdmaFacts shows that every step keeps it. *)
From S2P Require Import Prelude Host1xPushbuf Host1xSyncpt Host1xCdma.

(** * Segments *)
Definition bad_word := 0x1bad0000.
Definition bad_cmd : push_cmd := Push bad_word bad_word.

(** The slots of a job: commands, or a jump over them. *)
Inductive seg := Runs (cs : list push_cmd) | Skip (n : nat).

Definition restart_w (t : Z) : Z := Z.lor (Z.shiftl 0xd 28) (t * 2).

Definition seg_slots (p : Z) (s : seg) : list slot :=
  match s with
  | Runs cs => layout p cs
  | Skip O => []
  | Skip (S n) => (restart_w ((p + Z.of_nat (S n)) mod NS), 0) :: replicate n (bad_word, bad_word)
  end.

Definition seg_out (s : seg) : option (list command) :=
  match s with Runs cs => (fun dss => concat dss) <$> mapM decode_cmd cs | Skip _ => Some [] end.

Fixpoint segs_slots (p : Z) (segs : list seg) : list slot :=
  match segs with
  | [] => []
  | s :: segs => seg_slots p s ++ segs_slots ((p + Z.of_nat (length (seg_slots p s))) mod NS) segs
  end.

Lemma mod_next a b : ((a mod NS) + b) mod NS = (a + b) mod NS.
Proof. ring_lia. Qed.

Lemma mod_range a : 0 <= a mod NS < NS.
Proof. by apply Z.mod_pos_bound. Qed.
#[export] Hint Resolve mod_range : core.

Lemma segs_slots_app p segs segs' :
  0 <= p < NS ->
  segs_slots p (segs ++ segs') =
  segs_slots p segs ++ segs_slots ((p + Z.of_nat (length (segs_slots p segs))) mod NS) segs'.
Proof.
  revert p. induction segs as [|s segs IH]; intros p Hp; cbn [segs_slots app].
  - simpl. by rewrite Z.add_0_r, Z.mod_small.
  - rewrite IH by done. rewrite <- app_assoc, length_app, mod_next. do 4 f_equal. lia.
Qed.

(** ** What the hardware makes of them *)
Lemma restart_w_decodes t :
  0 <= t < NS ->
  Z.shiftr (restart_w t) 28 = HOST1X_OPCODE_RESTART_W /\ Z.land (restart_w t) 0xfffffff = 2 * t.
Proof.
  intros Ht.
  assert (H : forallb (fun t => (Z.shiftr (restart_w t) 28 =? HOST1X_OPCODE_RESTART_W) &&
    (Z.land (restart_w t) 0xfffffff =? 2 * t)) (seqZ 0 NS) = true) by (vm_compute; reflexivity).
  rewrite forallb_forall in H. specialize (H t).
  rewrite <- list_elem_of_In, elem_of_seqZ, andb_true_iff, !Z.eqb_eq in H. apply H. lia.
Qed.

Section fetch.
Variable m : list Z.
Hypothesis restart_at_end : m !! Z.to_nat (2 * NS) = Some (host1x_opcode_restart 0).

Lemma fetch_skip p n : 0 <= p < NS -> holds m p (seg_slots p (Skip n)) -> fetches m p n [].
Proof.
  intros Hp Hh. destruct n as [|n]; [by apply fetches_nil|].
  intros q Hq Hne. exists 1%nat. split; [lia|]. intros fuel.
  specialize (Hh 0%nat _ eq_refl). rewrite Z.add_0_r, Z.mod_small in Hh by done.
  specialize (Hne 0 ltac:(lia)). rewrite Z.add_0_r, Z.mod_small in Hne by done.
  destruct (restart_w_decodes ((p + Z.of_nat (S n)) mod NS)) as [Ho Ht]; [done|].
  assert (Hw : load_word m (2 * p) = Some (restart_w ((p + Z.of_nat (S n)) mod NS))).
  { destruct Hh as [Hh _]. unfold load_word. by rewrite (proj2 (Z.leb_le 0 (2 * p))) by lia. }
  cbn [Nat.add fetch]. rewrite (proj2 (Z.eqb_neq (8 * p) (8 * q))) by lia.
  replace (8 * p / 4) with (2 * p) by (Z.div_mod_to_equations; lia).
  rewrite Hw. cbn [mbind option_bind]. rewrite Ho, Ht. simpl.
  replace (4 * (2 * ((p + Z.of_nat (S n)) mod NS))) with (8 * ((p + Z.of_nat (S n)) mod NS)) by lia.
  by destruct (fetch fuel m _ _).
Qed.

Lemma fetch_seg p s out :
  seg_out s = Some out -> 0 <= p < NS -> holds m p (seg_slots p s) ->
  fetches m p (length (seg_slots p s)) out.
Proof.
  intros Ho Hp Hh. destruct s as [cs|n]; simpl in Ho.
  - destruct (mapM decode_cmd cs) as [dss|] eqn:Ed; [|done]. injection Ho as <-.
    by apply fetch_layout.
  - injection Ho as <-. assert (En : length (seg_slots p (Skip n)) = n)
      by (destruct n; simpl; [done|by rewrite length_replicate]).
    rewrite En. by apply fetch_skip.
Qed.

Lemma fetch_segs segs : forall p outs,
  mapM seg_out segs = Some outs -> 0 <= p < NS -> holds m p (segs_slots p segs) ->
  fetches m p (length (segs_slots p segs)) (concat outs).
Proof.
  induction segs as [|s segs IH]; intros p outs Ho Hp Hh.
  - injection Ho as <-. by apply fetches_nil.
  - cbn [mapM] in Ho. destruct (seg_out s) as [o|] eqn:Es; [|done].
    destruct (mapM seg_out segs) as [os|] eqn:Eo; [|done]. injection Ho as <-.
    cbn [segs_slots concat] in *. rewrite length_app. apply holds_app in Hh as [Hh1 Hh2].
    apply fetches_app; [by apply fetch_seg|by apply IH].
Qed.
End fetch.

(** * The queue *)

(** The commands of a job, or what replaces them once it is cancelled. *)
Definition seg_of (j : cdma_job) (s : seg) : Prop :=
  s = Runs (program j) \/
  cancelled j = true /\ (s = Skip (Z.to_nat (num_slots j)) \/ s = Runs (replicate (Z.to_nat (num_slots j)) bad_cmd)).

(** A job's segment starts at slot [p]. *)
Record job_at (p : Z) (j : cdma_job) (s : seg) : Prop := {
  ja_first : first_get j = 8 * p;
  ja_slots : num_slots j = Z.of_nat (length (seg_slots p s));
  ja_seg : seg_of j s;
  ja_out : is_Some (seg_out s)
}.

Lemma ja_runs p j s : job_at p j s -> cancelled j = false -> s = Runs (program j).
Proof. intros [_ _ [->|[H _]] _] Hc; [done|congruence]. Qed.

Fixpoint jobs_at (p : Z) (jobs : list cdma_job) (segs : list seg) : Prop :=
  match jobs, segs with
  | [], [] => True
  | j :: jobs, s :: segs =>
      job_at p j s /\ jobs_at ((p + Z.of_nat (length (seg_slots p s))) mod NS) jobs segs
  | _, _ => False
  end.

Record queue_repr (d : host1x_cdma) (f : Z) (segs : list seg) (cur : list slot) : Prop := {
  qr_ring : pb_repr (push_buf d) f (segs_slots f segs ++ cur);
  qr_jobs : jobs_at f (sync_queue d) segs
}.

(** The slot after the queued jobs. *)
Definition sub_start (f : Z) (segs : list seg) : Z := (f + Z.of_nat (length (segs_slots f segs))) mod NS.

Lemma jobs_at_app p jobs segs jobs' segs' :
  0 <= p < NS -> length jobs = length segs ->
  jobs_at p (jobs ++ jobs') (segs ++ segs') <->
  jobs_at p jobs segs /\ jobs_at (sub_start p segs) jobs' segs'.
Proof.
  unfold sub_start. revert p segs. induction jobs as [|j jobs IH]; intros p [|s segs] Hp Hl;
    try done; cbn [app jobs_at segs_slots].
  - simpl. rewrite Z.add_0_r, Z.mod_small by done. naive_solver.
  - rewrite IH by (done || by injection Hl). rewrite length_app, mod_next.
    replace (p + Z.of_nat (length (seg_slots p s)) + Z.of_nat _) with
      (p + Z.of_nat (length (seg_slots p s) + length (segs_slots
        ((p + Z.of_nat (length (seg_slots p s))) mod NS) segs))) by lia. tauto.
Qed.

Lemma jobs_at_length p jobs segs : jobs_at p jobs segs -> length jobs = length segs.
Proof. revert p segs. induction jobs as [|j jobs IH]; intros p [|s segs]; simpl; try done. intros [_ ?%IH]. lia. Qed.

(** Operations that keep the ring and the queue. *)
Lemma queue_repr_ext d d' f segs cur :
  push_buf d' = push_buf d -> sync_queue d' = sync_queue d ->
  queue_repr d f segs cur -> queue_repr d' f segs cur.
Proof. intros E1 E2 [H1 H2]. split; by rewrite ?E1, ?E2. Qed.

(** * Completion *)

(** The jobs that an update removes, and the others. *)
Fixpoint split_finished (sp : nat -> host1x_syncpt) (jobs : list cdma_job) : list cdma_job * list cdma_job :=
  match jobs with
  | [] => ([], [])
  | j :: rest =>
      if finished sp j then let '(fin, rest) := split_finished sp rest in (j :: fin, rest)
      else ([], jobs)
  end.

Definition pops (fin : list cdma_job) (pb : push_buffer) : push_buffer :=
  foldl (fun pb j => if num_slots j =? 0 then pb else host1x_pushbuffer_pop pb (num_slots j)) pb fin.

Definition stop_tmo (t : buffer_timeout) : buffer_timeout :=
  match tmo_client t with
  | None => t
  | Some _ => mk_tmo (initialized t) None (tmo_syncpt t) (tmo_val t) false
  end.
Definition start_tmo (rest : list cdma_job) (t : buffer_timeout) : buffer_timeout :=
  match rest, tmo_client t with
  | j :: _, None =>
      if job_timeout j =? 0 then t
      else mk_tmo (initialized t) (Some (job_client j)) (job_syncpt j) (job_end j) true
  | _, _ => t
  end.
Definition tmo_after (fin rest : list cdma_job) (t : buffer_timeout) : buffer_timeout :=
  start_tmo rest (match fin with [] => t | _ => stop_tmo t end).

Definition releases (fin : list cdma_job) : list job_event :=
  fin ≫= fun j => [JobUnpin (job_id j); JobPut (job_id j)].

Definition frees_slots (fin : list cdma_job) : bool := existsb (fun j => negb (num_slots j =? 0)) fin.

Lemma stop_tmo_idem t : stop_tmo (stop_tmo t) = stop_tmo t.
Proof. unfold stop_tmo. by destruct (tmo_client t) eqn:E; simpl; rewrite ?E. Qed.

(** The loop, in terms of the jobs it removes. *)
Lemma update_loop_eq jobs : forall signal c fin rest,
  sync_queue (cdma c) = jobs -> split_finished (sps c) jobs = (fin, rest) ->
  update_loop jobs signal c =
    (mk_chan (set_timeout (tmo_after fin rest (timeout (cdma c)))
                (set_push_buf (pops fin (push_buf (cdma c))) (set_queue rest (cdma c))))
       (sps c) (live c) (log c ++ releases fin),
     signal || (frees_slots fin && bool_decide (event (cdma c) = CDMA_EVENT_PUSH_BUFFER_SPACE))).
Proof.
  induction jobs as [|j jobs IH]; intros signal c fin rest Hq Hs; cbn [split_finished update_loop] in *.
  - injection Hs as <- <-. destruct c as [d sp lv lg]. destruct d. simpl in *. subst. simpl.
    by rewrite app_nil_r, orb_false_r.
  - destruct (finished (sps c) j) eqn:Ef; cbn [negb].
    + destruct (split_finished (sps c) jobs) as [fin' rest'] eqn:Es. injection Hs as <- <-.
      erewrite IH with (fin := fin') (rest := rest'); [|done|].
      2: { simpl. destruct (bool_decide _), (num_slots j =? 0); simpl; exact Es. }
      f_equal.
      * destruct c as [d sp lv lg]. simpl in *. f_equal.
        -- destruct d as [ev cm us fr fg lp pb sq tm rn td rg]. simpl in *.
           unfold tmo_after, stop_tmo. destruct tm as [ti tc ts tv tp].
           destruct tc, (num_slots j =? 0), fin'; done.
        -- by destruct (bool_decide _), (num_slots j =? 0).
        -- by destruct (bool_decide _), (num_slots j =? 0).
        -- unfold releases. destruct (bool_decide _), (num_slots j =? 0); simpl; by rewrite <- !app_assoc.
      * destruct c as [d sp lv lg]. simpl in *.
        destruct (bool_decide (is_Some _)), (num_slots j =? 0); simpl;
          destruct signal, (bool_decide (event d = _)), (frees_slots fin'); done.
    + injection Hs as <- <-. rewrite andb_false_l, orb_false_r.
      destruct c as [d sp lv lg]. destruct d as [ev cm us fr fg lp pb sq tm rn td rg]. simpl in *. subst sq.
      unfold releases. simpl. rewrite app_nil_r. unfold cdma_start_timer_locked, tmo_after, start_tmo.
      destruct tm as [ti tc ts tv tp]. simpl.
      destruct (job_timeout j =? 0); simpl; destruct tc; done.
Qed.

(** Popping the slots of jobs at the head of the queue. *)
Lemma pops_ok fin : forall d f segs cur rest,
  queue_repr d f segs cur -> sync_queue d = fin ++ rest ->
  exists f' segs', length segs = (length fin + length segs')%nat /\
    segs' = drop (length fin) segs /\
    queue_repr (set_push_buf (pops fin (push_buf d)) (set_queue rest d)) f' segs' cur /\
    sub_start f' segs' = sub_start f segs /\
    (length (segs_slots f' segs') <= length (segs_slots f segs))%nat.
Proof.
  induction fin as [|j fin IH]; intros d f segs cur rest [Hr Hj] Hq.
  - exists f, segs. split_and!; [done|done| |done|done]. split; simpl; [done|]. by rewrite Hq in Hj.
  - rewrite Hq in Hj. destruct segs as [|s segs]; [done|]. destruct Hj as [Hj Hjs].
    set (f1 := (f + Z.of_nat (length (seg_slots f s))) mod NS) in *.
    set (pb1 := if num_slots j =? 0 then push_buf d else host1x_pushbuffer_pop (push_buf d) (num_slots j)).
    assert (Hr1 : pb_repr pb1 f1 (segs_slots f1 segs ++ cur)).
    { cbn [segs_slots] in Hr. rewrite <- app_assoc in Hr. fold f1 in Hr.
      destruct (Z.eqb_spec (num_slots j) 0) as [E0|E0]; unfold pb1.
      - rewrite (ja_slots _ _ _ Hj) in E0.
        assert (Es : seg_slots f s = []) by (apply nil_length_inv; lia).
        assert (Ef : f1 = f).
        { unfold f1. rewrite Es. simpl. rewrite Z.add_0_r. apply Z.mod_small, (pr_first _ _ _ Hr). }
        rewrite Ef in Hr |- *. by rewrite Es in Hr.
      - rewrite (ja_slots _ _ _ Hj).
        pose proof (pop_ok _ _ _ (length (seg_slots f s)) Hr ltac:(rewrite length_app; lia)) as Hp.
        by rewrite drop_app_length in Hp. }
    destruct (IH (set_push_buf pb1 (set_queue (fin ++ rest) d)) f1 segs cur rest)
      as (f' & segs' & El & Ed & Hq' & Hs & Hle).
    { by split. }
    { done. }
    exists f', segs'. split_and!; [simpl; lia|done| | |].
    3: { cbn [segs_slots]. rewrite length_app. fold f1. lia. }
    + split; [apply Hq'|apply Hq'].
    + rewrite Hs. unfold sub_start. cbn [segs_slots]. rewrite length_app. fold f1. unfold f1 at 1.
      rewrite mod_next. f_equal. lia.
Qed.

Lemma split_finished_app sp jobs fin rest : split_finished sp jobs = (fin, rest) -> jobs = fin ++ rest.
Proof.
  revert fin rest. induction jobs as [|j jobs IH]; intros fin rest; cbn [split_finished].
  - by intros [= <- <-].
  - destruct (finished sp j); [|by intros [= <- <-]].
    destruct (split_finished sp jobs) as [fin' rest']. intros [= <- <-].
    by rewrite (IH fin' rest' eq_refl).
Qed.

(** Whether an update signals the completion. *)
Definition update_signals (fin rest : list cdma_job) (e : cdma_event) : bool :=
  (frees_slots fin && bool_decide (e = CDMA_EVENT_PUSH_BUFFER_SPACE)) ||
  (bool_decide (e = CDMA_EVENT_SYNC_QUEUE_EMPTY) && bool_decide (rest = [])).

Lemma update_eq c fin rest :
  split_finished (sps c) (sync_queue (cdma c)) = (fin, rest) ->
  update_cdma_locked c =
    let d := set_timeout (tmo_after fin rest (timeout (cdma c)))
               (set_push_buf (pops fin (push_buf (cdma c))) (set_queue rest (cdma c))) in
    mk_chan (if update_signals fin rest (event (cdma c))
             then set_completions (S (completions (cdma c))) (set_event CDMA_EVENT_NONE d) else d)
      (sps c) (live c) (log c ++ releases fin).
Proof.
  intros Hs. unfold update_cdma_locked. rewrite (update_loop_eq _ false c fin rest eq_refl Hs).
  cbv zeta. rewrite orb_false_l. unfold update_signals. simpl.
  destruct (_ || _); done.
Qed.

(** Nothing of the submission in progress or of the registers changes. *)
Record same_submission (d d' : host1x_cdma) : Prop := {
  ss_used : slots_used d' = slots_used d;
  ss_free : slots_free d' = slots_free d;
  ss_first : cdma_first_get d' = cdma_first_get d;
  ss_pos : pos (push_buf d') = pos (push_buf d)
}.

Lemma same_submission_refl d : same_submission d d.
Proof. done. Qed.
Lemma same_submission_trans d1 d2 d3 :
  same_submission d1 d2 -> same_submission d2 d3 -> same_submission d1 d3.
Proof. intros [] []. split; congruence. Qed.

Lemma pops_pos fin pb : pos (pops fin pb) = pos pb /\ mapped (pops fin pb) = mapped pb.
Proof.
  unfold pops. revert pb. induction fin as [|j fin IH]; intros pb; [done|]. simpl.
  destruct (IH (if num_slots j =? 0 then pb else host1x_pushbuffer_pop pb (num_slots j))) as [-> ->].
  by destruct (num_slots j =? 0).
Qed.

Lemma update_repr c f segs cur :
  queue_repr (cdma c) f segs cur ->
  exists f' segs', queue_repr (cdma (update_cdma_locked c)) f' segs' cur /\
    sub_start f' segs' = sub_start f segs /\
    same_submission (cdma c) (cdma (update_cdma_locked c)) /\
    host1x_pushbuffer_space (push_buf (cdma c)) <=
      host1x_pushbuffer_space (push_buf (cdma (update_cdma_locked c))) /\
    (exists n, segs' = drop n segs /\ sync_queue (cdma (update_cdma_locked c)) = drop n (sync_queue (cdma c))) /\
    regs (cdma (update_cdma_locked c)) = regs (cdma c) /\
    last_pos (cdma (update_cdma_locked c)) = last_pos (cdma c) /\
    running (cdma (update_cdma_locked c)) = running (cdma c) /\
    torndown (cdma (update_cdma_locked c)) = torndown (cdma c).
Proof.
  intros Hq. destruct (split_finished (sps c) (sync_queue (cdma c))) as [fin rest] eqn:Es.
  pose proof (split_finished_app _ _ _ _ Es) as Ea.
  destruct (pops_ok fin (cdma c) f segs cur rest Hq Ea) as (f' & segs' & _ & Ed & Hq' & Hs & Hle).
  rewrite (update_eq c fin rest Es). exists f', segs'. cbv zeta. simpl.
  destruct (pops_pos fin (push_buf (cdma c))) as [Hp _].
  split_and!; [|done| | | | | | |].
  - eapply queue_repr_ext; [| |exact Hq']; by destruct (update_signals _ _ _).
  - split; destruct (update_signals _ _ _); done.
  - rewrite (space_ok _ _ _ (qr_ring _ _ _ _ Hq)).
    pose proof (space_ok _ _ _ (qr_ring _ _ _ _ Hq')) as Hsp. simpl in Hsp.
    rewrite !length_app in *. destruct (update_signals _ _ _); simpl; lia.
  - exists (length fin). split; [done|]. rewrite Ea, drop_app_length.
    by destruct (update_signals _ _ _).
  - by destruct (update_signals _ _ _).
  - by destruct (update_signals _ _ _).
  - by destruct (update_signals _ _ _).
  - by destruct (update_signals _ _ _).
Qed.

(** * Cancelling *)

Lemma store_slot m i a b :
  0 <= i < NS -> 2 * NS + 1 <= Z.of_nat (length m) ->
  exists m', (m1 ← store_word m (2 * i) a; store_word m1 (2 * i + 1) b) = Some m' /\
    length m' = length m /\ m' !! Z.to_nat (2 * NS) = m !! Z.to_nat (2 * NS) /\
    slot_is m' i (a, b) /\ (forall j x, 0 <= j -> j <> i -> slot_is m j x -> slot_is m' j x).
Proof.
  intros Hi Hl.
  destruct (store_word_ok m (2 * i) a ltac:(lia)) as (m1 & E1 & L1 & K1). rewrite E1.
  cbn [mbind option_bind].
  destruct (store_word_ok m1 (2 * i + 1) b ltac:(lia)) as (m2 & E2 & L2 & K2). rewrite E2.
  exists m2. split_and!; [done|congruence| | |].
  - rewrite K2, decide_False, K1, decide_False by lia. done.
  - split; rewrite K2; [rewrite decide_False, K1, decide_True by lia|rewrite decide_True by lia]; done.
  - intros j x Hj Hne [H1 H2]. split; rewrite K2, decide_False, K1, decide_False by lia; done.
Qed.

Lemma layout_bad n : forall p, layout p (replicate n bad_cmd) = replicate n (bad_word, bad_word).
Proof. induction n as [|n IH]; intros p; [done|]. cbn [replicate layout]. by rewrite IH. Qed.

Section cancel.
Variable wide : bool.

(** What replaces the slots of a cancelled job. *)
Definition cancelled_seg (j : cdma_job) : seg :=
  if wide then Skip (Z.to_nat (num_slots j)) else Runs (replicate (Z.to_nat (num_slots j)) bad_cmd).

Lemma length_cancelled p j :
  0 <= num_slots j -> Z.of_nat (length (seg_slots p (cancelled_seg j))) = num_slots j.
Proof.
  intros Hn. unfold cancelled_seg. destruct wide; simpl.
  - destruct (Z.to_nat (num_slots j)) eqn:E; simpl; rewrite ?length_replicate; lia.
  - rewrite layout_bad, length_replicate. lia.
Qed.

Lemma cancelled_out j : is_Some (seg_out (cancelled_seg j)).
Proof.
  unfold cancelled_seg. destruct wide; [done|]. simpl. induction (Z.to_nat (num_slots j)) as [|n [out IH]]; [done|].
  cbn [replicate mapM]. assert (Hd : decode_cmd bad_cmd = Some [(bad_word, []); (bad_word, [])])
    by (vm_compute; reflexivity). rewrite Hd. cbn [mbind option_bind].
  destruct (mapM decode_cmd (replicate n bad_cmd)); [by eexists|discriminate IH].
Qed.

(** The slots of a region do not change. *)
Definition unchanged_outside (p : Z) (n : Z) (m m' : list Z) : Prop :=
  length m' = length m /\ m' !! Z.to_nat (2 * NS) = m !! Z.to_nat (2 * NS) /\
  forall i x, 0 <= i < NS -> (forall k, 0 <= k < n -> i <> (p + k) mod NS) -> slot_is m i x -> slot_is m' i x.

Lemma cancelled_slot p j k :
  (Z.of_nat k < num_slots j) ->
  seg_slots p (cancelled_seg j) !! k =
    Some (if Nat.eqb k 0 && wide then (restart_w ((p + num_slots j) mod NS), 0) else (bad_word, bad_word)).
Proof.
  intros Hk. unfold cancelled_seg. destruct wide; simpl.
  - destruct (Z.to_nat (num_slots j)) as [|n] eqn:En; [lia|]. destruct k as [|k]; simpl.
    + by replace (p + Z.of_nat (S n)) with (p + num_slots j) by lia.
    + apply lookup_replicate_2. lia.
  - rewrite layout_bad, andb_false_r. apply lookup_replicate_2. lia.
Qed.

Lemma blank_slots_upto p j m (n : nat) :
  first_get j = 8 * p -> 0 <= p < NS -> 2 * NS + 1 <= Z.of_nat (length m) ->
  Z.of_nat n <= num_slots j -> num_slots j < NS ->
  exists m', foldl (fun m i => m ≫= blank_slot wide j i) (Some m) (seqZ 0 (Z.of_nat n)) = Some m' /\
    unchanged_outside p (Z.of_nat n) m m' /\ holds m' p (take n (seg_slots p (cancelled_seg j))).
Proof.
  intros Hf Hp Hl. induction n as [|n IH]; intros Hn Hmax.
  - exists m. split_and!; [done|done|]. intros k x Hk. by rewrite take_0 in Hk.
  - destruct IH as (m1 & E1 & (L1 & R1 & U1) & H1); [lia|done|].
    replace (Z.of_nat (S n)) with (Z.of_nat n + 1) by lia.
    rewrite seqZ_app by lia. rewrite foldl_app, E1. cbn [seqZ foldl].
    replace (0 + Z.of_nat n) with (Z.of_nat n) by lia. change (seqZ (Z.of_nat n) 1) with [Z.of_nat n].
    cbn [foldl mbind option_bind].
    set (i := (p + Z.of_nat n) mod NS). assert (Hi : 0 <= i < NS) by apply mod_range.
    assert (Ei : (first_get j / 8 + Z.of_nat n) mod HOST1X_PUSHBUFFER_SLOTS = i).
    { unfold i. rewrite Hf, Z.mul_comm, Z.div_mul by lia. done. }
    assert (Eb : exists x, seg_slots p (cancelled_seg j) !! n = Some x /\
      blank_slot wide j (Z.of_nat n) m1 =
        (m2 ← store_word m1 (2 * i) x.1; store_word m2 (2 * i + 1) x.2)).
    { eexists. split; [apply cancelled_slot; lia|]. unfold blank_slot. rewrite Ei.
      replace (Z.of_nat n =? 0) with (Nat.eqb n 0) by (destruct n; done).
      destruct (Nat.eqb n 0 && wide); [|done].
      by replace (first_get j / 8) with p by (rewrite Hf; Z.div_mod_to_equations; lia). }
    destruct Eb as (x & Ex & ->). destruct x as [a b].
    destruct (store_slot m1 i a b Hi ltac:(lia)) as (m2 & E2 & L2 & R2 & S2 & U2).
    exists m2. split_and!; [exact E2| |].
    + split_and!; [congruence|congruence|]. intros i' y Hi' Hne Hs. apply U2; [lia| |].
      * apply Hne. lia.
      * apply U1; [done| |done]. intros k Hk. apply Hne. lia.
    + assert (Et : take (S n) (seg_slots p (cancelled_seg j)) =
        take n (seg_slots p (cancelled_seg j)) ++ [(a, b)]) by exact (take_S_r _ _ _ Ex).
      rewrite Et. apply holds_app. split.
      * intros k y Hk. apply U2; [apply mod_range| |by apply H1].
        apply lookup_take_Some in Hk as [_ Hk]. unfold i. intros He%ring_index_inj; lia.
      * assert (Ht : length (take n (seg_slots p (cancelled_seg j))) = n).
        { pose proof (length_cancelled p j ltac:(lia)). rewrite length_take. lia. }
        rewrite Ht. intros k y Hk. apply list_lookup_singleton_Some in Hk as [-> <-].
        rewrite Z.add_0_r, Z.mod_mod by done. exact S2.
Qed.

Lemma blank_slots_ok p j m :
  first_get j = 8 * p -> 0 <= p < NS -> 2 * NS + 1 <= Z.of_nat (length m) -> 0 <= num_slots j < NS ->
  exists m', blank_slots wide j m = Some m' /\ unchanged_outside p (num_slots j) m m' /\
    holds m' p (seg_slots p (cancelled_seg j)).
Proof.
  intros Hf Hp Hl Hn.
  destruct (blank_slots_upto p j m (Z.to_nat (num_slots j)) Hf Hp Hl ltac:(lia) ltac:(lia)) as (m' & E & U & H).
  rewrite Z2Nat.id in E, U by lia. exists m'. split_and!; [exact E|done|].
  rewrite take_ge in H; [done|]. pose proof (length_cancelled p j ltac:(lia)). lia.
Qed.

Definition cancel_segs (sp : nat) (jobs : list cdma_job) (segs : list seg) : list seg :=
  zip_with (fun j s => if Nat.eqb (job_syncpt j) sp then cancelled_seg j else s) jobs segs.

Lemma unchanged_refl p n m : unchanged_outside p n m m.
Proof. done. Qed.

Lemma unchanged_holds p n m m' q l :
  unchanged_outside p n m m' ->
  (forall i k, 0 <= i < Z.of_nat (length l) -> 0 <= k < n -> (q + i) mod NS <> (p + k) mod NS) ->
  holds m q l -> holds m' q l.
Proof.
  intros (_ & _ & Hu) Hd Hh k x Hk. pose proof (lookup_lt_Some _ _ _ Hk).
  apply Hu; [done| |by apply Hh]. intros i Hi. apply Hd; lia.
Qed.

(** The jobs of a syncpoint are replaced, the others keep their slots. *)
Lemma cancel_rest_ok sp jobs : forall p m segs,
  jobs_at p jobs segs -> 0 <= p < NS -> 2 * NS + 1 <= Z.of_nat (length m) ->
  Z.of_nat (length (segs_slots p segs)) < NS -> holds m p (segs_slots p segs) ->
  exists jobs' m', cancel_rest wide sp jobs m = Some (jobs', m') /\
    jobs' = map (fun j => if Nat.eqb (job_syncpt j) sp then set_cancelled j else j) jobs /\
    jobs_at p jobs' (cancel_segs sp jobs segs) /\
    length (segs_slots p (cancel_segs sp jobs segs)) = length (segs_slots p segs) /\
    holds m' p (segs_slots p (cancel_segs sp jobs segs)) /\
    unchanged_outside p (Z.of_nat (length (segs_slots p segs))) m m'.
Proof.
  induction jobs as [|j jobs IH]; intros p m [|s segs] Hj Hp Hl Hlen Hh; try done.
  { by exists [], m. }
  destruct Hj as [Hj Hjs]. cbn [segs_slots] in Hlen, Hh. rewrite length_app in Hlen.
  apply holds_app in Hh as [Hh1 Hh2]. pose proof (ja_slots _ _ _ Hj) as Hns.
  set (k := length (seg_slots p s)) in *. set (p' := (p + Z.of_nat k) mod NS) in *.
  cbn [cancel_rest cancel_segs zip_with map].
  assert (Hstep : exists m1 s1, (if negb (Nat.eqb (job_syncpt j) sp) then Some m else blank_slots wide j m) = Some m1 /\
    s1 = (if Nat.eqb (job_syncpt j) sp then cancelled_seg j else s) /\
    job_at p (if Nat.eqb (job_syncpt j) sp then set_cancelled j else j) s1 /\
    length (seg_slots p s1) = k /\ holds m1 p (seg_slots p s1) /\ unchanged_outside p (Z.of_nat k) m m1).
  { destruct (Nat.eqb (job_syncpt j) sp); simpl.
    - destruct (blank_slots_ok p j m (ja_first _ _ _ Hj) Hp Hl ltac:(lia)) as (m1 & E & U & H).
      pose proof (length_cancelled p j ltac:(lia)) as Hlc.
      exists m1, (cancelled_seg j). split_and!; [done|done| |lia|done|by rewrite <- Hns].
      destruct Hj. split; [done|simpl; lia| |apply cancelled_out].
      right. split; [done|]. unfold cancelled_seg. destruct wide; auto.
    - exists m, s. by split_and!. }
  destruct Hstep as (m1 & s1 & E1 & Es1 & Hj1 & Hk1 & H1 & U1).
  assert (Hdisj : forall i1 i2, 0 <= i1 < Z.of_nat k -> 0 <= i2 < Z.of_nat (length (segs_slots p' segs)) ->
    (p + i1) mod NS <> (p' + i2) mod NS).
  { intros i1 i2 H1' H2' He. unfold p' in He. rewrite mod_next, <- Z.add_assoc in He.
    apply ring_index_inj in He; lia. }
  destruct (IH p' m1 segs Hjs) as (jobs' & m2 & E2 & Ej & Hjs' & Hlen' & H2 & U2);
    [by apply mod_range|destruct U1; lia|lia| |].
  { eapply unchanged_holds; [exact U1| |exact Hh2]. intros i k' Hi Hk' He. symmetry in He.
    by apply Hdisj in He. }
  fold (cancel_segs sp jobs segs).
  exists ((if Nat.eqb (job_syncpt j) sp then set_cancelled j else j) :: jobs'), m2.
  rewrite <- Es1. cbn [jobs_at segs_slots]. rewrite Hk1. fold p'.
  split_and!; [| | done|done| | | ].
  - destruct (Nat.eqb (job_syncpt j) sp); simpl in *; [rewrite E1; simpl|injection E1 as ->]; by rewrite E2.
  - by rewrite Ej.
  - rewrite !length_app. fold k p'. lia.
  - apply holds_app. rewrite Hk1. split; [|done]. eapply unchanged_holds; [exact U2| |exact H1].
    rewrite Hk1. intros i k' Hi Hk'. by apply Hdisj.
  - rewrite length_app. fold k p'. destruct U1 as (L1 & R1 & U1), U2 as (L2 & R2 & U2).
    split_and!; [congruence|congruence|]. intros i x Hi Hne Hs. apply U2; [done| |].
    + intros k' Hk'. unfold p'. rewrite mod_next, <- Z.add_assoc. apply Hne. lia.
    + apply U1; [done| |done]. intros k' Hk'. apply Hne. lia.
Qed.
End cancel.

(** * Timeouts *)

(** Replacing a region of the ring. *)
Lemma pb_repr_region pb f l1 l2 l3 l2' m' :
  pb_repr pb f (l1 ++ l2 ++ l3) -> length l2' = length l2 ->
  unchanged_outside ((f + Z.of_nat (length l1)) mod NS) (Z.of_nat (length l2)) (mapped pb) m' ->
  holds m' ((f + Z.of_nat (length l1)) mod NS) l2' ->
  pb_repr (set_mapped m' pb) f (l1 ++ l2' ++ l3).
Proof.
  intros [Hm Hrs Hs Hf Hfe Hp Hr Hh] El Hu H2.
  assert (Et : length (l1 ++ l2' ++ l3) = length (l1 ++ l2 ++ l3)) by (rewrite !length_app; lia).
  pose proof Hu as (L & R & _). rewrite !length_app in Hr.
  split; simpl; rewrite ?Et; try done.
  - by rewrite L.
  - by rewrite R.
  - rewrite !length_app. lia.
  - apply holds_app in Hh as [H1 Hh]. apply holds_app in Hh as [_ H3].
    apply holds_app. split; [|apply holds_app; split; [done|rewrite El]];
      (eapply unchanged_holds; [exact Hu| |done]); intros i k Hi Hk He.
    + rewrite mod_next, <- Z.add_assoc in He. apply ring_index_inj in He; lia.
    + rewrite !mod_next, <- !Z.add_assoc, mod_next, <- !Z.add_assoc in He. apply ring_index_inj in He; lia.
Qed.

Lemma skip_completed_app v jobs dn rest : skip_completed v jobs = (dn, rest) -> jobs = dn ++ rest.
Proof.
  revert dn rest. induction jobs as [|j jobs IH]; intros dn rest; cbn [skip_completed].
  - by intros [= <- <-].
  - destruct (v <? job_end j); [by intros [= <- <-]|].
    destruct (skip_completed v jobs) as [dn' rest']. intros [= <- <-]. by rewrite (IH dn' rest' eq_refl).
Qed.

Lemma iter_incr_cdma n i c : cdma (Nat.iter n (host1x_syncpt_incr i) c) = cdma c.
Proof.
  induction n as [|n IH]; [done|]. simpl. rewrite <- IH. unfold host1x_syncpt_incr. by destruct (_ && _).
Qed.

(** The queue is divided into the segments before and behind a job. *)
Lemma jobs_at_split f dn j rest segs :
  0 <= f < NS -> jobs_at f (dn ++ j :: rest) segs ->
  exists segs1 s segs2, segs = segs1 ++ s :: segs2 /\ length segs1 = length dn /\
    jobs_at f dn segs1 /\ job_at (sub_start f segs1) j s /\ jobs_at (sub_start f (segs1 ++ [s])) rest segs2.
Proof.
  intros Hf Hj. pose proof (jobs_at_length _ _ _ Hj) as Hl. rewrite length_app in Hl. simpl in Hl.
  destruct (drop (length dn) segs) as [|s segs2] eqn:Ed.
  { apply (f_equal length) in Ed. rewrite length_drop in Ed. simpl in Ed. lia. }
  exists (take (length dn) segs), s, segs2. pose proof (take_drop (length dn) segs) as Et.
  rewrite Ed in Et. assert (Elt : length (take (length dn) segs) = length dn) by (rewrite length_take; lia).
  rewrite <- Et in Hj. apply jobs_at_app in Hj as (H1 & H2 & H3); [|done|done].
  split_and!; [done|done|done|done|]. unfold sub_start. rewrite segs_slots_app by done.
  rewrite length_app. cbn [segs_slots]. rewrite app_nil_r. unfold sub_start in H3.
  rewrite mod_next in H3. replace (f + Z.of_nat (_ + _)) with
    (f + Z.of_nat (length (segs_slots f (take (length dn) segs))) + Z.of_nat (length (seg_slots
      ((f + Z.of_nat (length (segs_slots f (take (length dn) segs)))) mod NS) s))) by lia. done.
Qed.

Lemma jobs_at_join f dn j rest segs1 s segs2 :
  0 <= f < NS -> length segs1 = length dn ->
  jobs_at f dn segs1 -> job_at (sub_start f segs1) j s -> jobs_at (sub_start f (segs1 ++ [s])) rest segs2 ->
  jobs_at f (dn ++ j :: rest) (segs1 ++ s :: segs2).
Proof.
  intros Hf Hl H1 H2 H3. apply jobs_at_app; [done|done|]. split; [done|]. split; [done|].
  unfold sub_start in H3. rewrite segs_slots_app in H3 by done. rewrite length_app in H3.
  cbn [segs_slots] in H3. rewrite app_nil_r in H3. unfold sub_start. rewrite mod_next.
  replace (f + Z.of_nat (_ + _)) with
    (f + Z.of_nat (length (segs_slots f segs1)) + Z.of_nat (length (seg_slots
      ((f + Z.of_nat (length (segs_slots f segs1))) mod NS) s))) in H3 by lia. done.
Qed.

(** The slots of the queue, around the job at which it is divided. *)
Lemma segs_slots_split f segs1 s segs2 :
  0 <= f < NS ->
  segs_slots f (segs1 ++ s :: segs2) =
    segs_slots f (segs1 ++ [s]) ++ segs_slots (sub_start f (segs1 ++ [s])) segs2.
Proof.
  intros Hf. replace (segs1 ++ s :: segs2) with ((segs1 ++ [s]) ++ segs2) by by rewrite <- app_assoc.
  by apply segs_slots_app.
Qed.

(** Cancelling the failed job and those behind it that use its syncpoint. *)
Lemma cancel_ok wide d f segs cur dn job rest :
  queue_repr d f segs cur -> sync_queue d = dn ++ job :: rest ->
  exists segs1 s segs2 rest' m', segs = segs1 ++ s :: segs2 /\
    jobs_at (sub_start f (segs1 ++ [s])) rest segs2 /\
    cancel_rest wide (job_syncpt job) rest (mapped (push_buf d)) = Some (rest', m') /\
    rest' = map (fun j => if Nat.eqb (job_syncpt j) (job_syncpt job) then set_cancelled j else j) rest /\
    (let segs2' := cancel_segs wide (job_syncpt job) rest segs2 in
     length (segs_slots (sub_start f (segs1 ++ [s])) segs2') =
       length (segs_slots (sub_start f (segs1 ++ [s])) segs2) /\
     queue_repr (set_queue (dn ++ set_cancelled job :: rest') (set_push_buf (set_mapped m' (push_buf d)) d))
       f (segs1 ++ s :: segs2') cur).
Proof.
  intros [Hr Hj] Hq. pose proof (pr_first _ _ _ Hr) as Hf. rewrite Hq in Hj.
  destruct (jobs_at_split _ _ _ _ _ Hf Hj) as (segs1 & s & segs2 & -> & El & H1 & H2 & H3).
  rewrite segs_slots_split, <- app_assoc in Hr by done.
  set (p := sub_start f (segs1 ++ [s])) in *.
  pose proof (pr_room _ _ _ Hr) as Hroom. rewrite !length_app in Hroom.
  pose proof (pr_holds _ _ _ Hr) as Hh. apply holds_app in Hh as [_ Hh].
  fold (sub_start f (segs1 ++ [s])) in Hh. fold p in Hh. apply holds_app in Hh as [Hh _].
  destruct (cancel_rest_ok wide (job_syncpt job) rest p (mapped (push_buf d)) segs2 H3)
    as (rest' & m' & E & Er & Hj' & Hlen & Hh' & Hu); [apply mod_range|apply Hr|lia|done|].
  exists segs1, s, segs2, rest', m'. split_and!; [done|done|done|done|]. split; [done|].
  split; simpl.
  - rewrite segs_slots_split, <- app_assoc by done. fold p. by eapply pb_repr_region.
  - apply jobs_at_join; [done|done|done| |done]. destruct H2 as [? ? Hs ?]. split; [done|done| |done].
    destruct Hs as [->|[_ Hs]]; [by left|by right].
Qed.
