(* ===== verification/Host1xCdmaFacts.v ===== *)
(** The push buffer under command DMA.

    [cdma_inv_step]: every step keeps the invariant of the channel.  [channel_safe]: in every
    interleaving, what is in the push buffer for a job is what was pushed for it, and
    nothing is stored outside the buffer.  [example_run] is a run with three jobs. *)
From S2P Require Import Prelude Host1xPushbuf Host1xSyncpt Host1xCdma Host1xCdmaInv.

(** * Steps keep the invariant *)

(** The part of a channel that a submission in progress relies on. *)
Record submission_at (d : host1x_cdma) (f : Z) (segs : list seg) (cur : list slot) (s : submission) : Prop := {
  sa_used : slots_used d = Z.of_nat (length cur);
  sa_first : cdma_first_get d = 8 * sub_start f segs;
  sa_cur : cur = layout (sub_start f segs) (program (sub_job s));
  sa_free : 0 <= slots_free d <= host1x_pushbuffer_space (push_buf d);
  sa_live : cancelled (sub_job s) = false;
  sa_decodes : Forall (fun p => is_Some (decode_cmd p)) (program (sub_job s) ++ todo s)
}.

Definition sub_inv (d : host1x_cdma) (f : Z) (segs : list seg) (cur : list slot) (p : submit_pc) : Prop :=
  match p with
  | Idle => cur = [] /\ last_pos d = pos (push_buf d)
  | Pushing s | InWait s | Yielded s | Sleeping s => submission_at d f segs cur s
  end.

Definition chan_inv (c : chan) (p : submit_pc) : Prop :=
  exists f segs cur, queue_repr (cdma c) f segs cur /\ sub_inv (cdma c) f segs cur p.

Definition cdma_inv (w : world) : Prop := chan_inv (ch w) (sub w).

(** An operation between steps of the submission keeps the queue's end, may free slots,
    and leaves no unflushed words when there is no submission. *)
Definition benign (d d' : host1x_cdma) : Prop := forall f segs cur,
  queue_repr d f segs cur -> exists f' segs',
    queue_repr d' f' segs' cur /\ sub_start f' segs' = sub_start f segs /\ same_submission d d' /\
    host1x_pushbuffer_space (push_buf d) <= host1x_pushbuffer_space (push_buf d') /\
    (last_pos d = pos (push_buf d) -> last_pos d' = pos (push_buf d')).

Lemma benign_inv c c' p : benign (cdma c) (cdma c') -> chan_inv c p -> chan_inv c' p.
Proof.
  intros Hb (f & segs & cur & Hq & Hs).
  destruct (Hb f segs cur Hq) as (f' & segs' & Hq' & Est & [U F G P] & Hsp & Hl).
  exists f', segs', cur. split; [done|].
  assert (Ha : forall s, submission_at (cdma c) f segs cur s -> submission_at (cdma c') f' segs' cur s).
  { intros s []. split; rewrite ?U, ?F, ?G, ?Est; try done. lia. }
  destruct p; simpl in *; try by apply Ha. destruct Hs. split; [done|]. by apply Hl.
Qed.

Lemma benign_refl d : benign d d.
Proof. intros f segs cur Hq. exists f, segs. split_and!; done. Qed.

Lemma benign_trans d1 d2 d3 : benign d1 d2 -> benign d2 d3 -> benign d1 d3.
Proof.
  intros H1 H2 f segs cur Hq. destruct (H1 _ _ _ Hq) as (f1 & s1 & Hq1 & E1 & S1 & L1 & P1).
  destruct (H2 _ _ _ Hq1) as (f2 & s2 & Hq2 & E2 & S2 & L2 & P2).
  exists f2, s2. split_and!; [done|congruence|by eapply same_submission_trans|lia|auto].
Qed.

(** Members that do not matter. *)
Lemma benign_ext d d' :
  push_buf d' = push_buf d -> sync_queue d' = sync_queue d -> same_submission d d' ->
  (last_pos d' = last_pos d \/ last_pos d' = pos (push_buf d')) -> benign d d'.
Proof.
  intros E1 E2 Hs Hl f segs cur Hq. exists f, segs. split_and!; [|done|done|rewrite E1; lia|].
  - by eapply queue_repr_ext.
  - rewrite E1 in *. intros Hp. destruct Hl; congruence.
Qed.

Lemma benign_update c : benign (cdma c) (cdma (update_cdma_locked c)).
Proof.
  intros f segs cur Hq.
  destruct (update_repr c f segs cur Hq) as (f' & segs' & Hq' & Est & Hss & Hsp & _ & _ & El & _).
  exists f', segs'. split_and!; try done. rewrite El. destruct Hss as [_ _ _ ->]. done.
Qed.

Lemma restart_ext getptr d :
  push_buf (cdma_resume getptr d) = push_buf d /\ sync_queue (cdma_resume getptr d) = sync_queue d /\
  same_submission d (cdma_resume getptr d) /\
  (last_pos (cdma_resume getptr d) = last_pos d \/
   last_pos (cdma_resume getptr d) = pos (push_buf (cdma_resume getptr d))).
Proof.
  unfold cdma_resume, cdma_timeout_restart. simpl. destruct (running d); split_and!; auto; by split.
Qed.

Lemma benign_resume getptr d : benign d (cdma_resume getptr d).
Proof. destruct (restart_ext getptr d) as (?&?&?&?). by apply benign_ext. Qed.

Lemma space_set_mapped pb m : host1x_pushbuffer_space (set_mapped m pb) = host1x_pushbuffer_space pb.
Proof. done. Qed.

(** Replacing the failed job and the contents of those behind it. *)
Lemma benign_cancel wide d dn job rest rest' m' :
  sync_queue d = dn ++ job :: rest ->
  cancel_rest wide (job_syncpt job) rest (mapped (push_buf d)) = Some (rest', m') ->
  benign d (set_queue (dn ++ set_cancelled job :: rest') (set_push_buf (set_mapped m' (push_buf d)) d)).
Proof.
  intros Hq E f segs cur Hr.
  destruct (cancel_ok wide d f segs cur dn job rest Hr Hq)
    as (s1 & s & s2 & rest2 & m2 & -> & _ & E2 & _ & Hl & Hr'). rewrite E in E2. injection E2 as <- <-.
  pose proof (pr_first _ _ _ (qr_ring _ _ _ _ Hr)) as Hf.
  exists f, (s1 ++ s :: cancel_segs wide (job_syncpt job) rest s2).
  split_and!; [done| |by split|done|done].
  unfold sub_start at 1 2. rewrite (segs_slots_split f s1 s (cancel_segs _ _ _ _)) by done.
  rewrite (segs_slots_split f s1 s s2), !length_app by done. by rewrite Hl.
Qed.

Lemma benign_no_timeout d dn job rest :
  sync_queue d = dn ++ job :: rest -> benign d (set_queue (dn ++ set_no_timeout job :: rest) d).
Proof.
  intros Hq f segs cur [Hr Hj]. exists f, segs. split_and!; try done.
  split; [done|]. simpl. rewrite Hq in Hj. pose proof (pr_first _ _ _ Hr) as Hf.
  destruct (jobs_at_split _ _ _ _ _ Hf Hj) as (s1 & s & s2 & -> & El & H1 & H2 & H3).
  apply jobs_at_join; try done. by destruct H2.
Qed.

Lemma update_sync_queue_benign wide c f segs cur :
  queue_repr (cdma c) f segs cur ->
  exists c', host1x_cdma_update_sync_queue wide c = Some c' /\ benign (cdma c) (cdma c').
Proof.
  intros Hr. unfold host1x_cdma_update_sync_queue. cbn [host1x_syncpt_load].
  set (c1 := set_sp _ _ c). change (cdma c1) with (cdma c). set (v := live c _).
  destruct (skip_completed v (sync_queue (cdma c))) as [dn jobs] eqn:Es.
  pose proof (skip_completed_app _ _ _ _ Es) as Eq.
  destruct jobs as [|job rest].
  { eexists. split; [reflexivity|]. cbn [cdma upd]. apply (benign_resume _ (cdma c)). }
  destruct (syncpt_recovery job).
  - eexists. split; [done|]. simpl. rewrite iter_incr_cdma. simpl.
    eapply benign_trans; [|apply benign_resume]. by apply benign_no_timeout.
  - cbn [cdma set_sp upd]. change (cdma c1) with (cdma c).
    destruct (cancel_ok wide (cdma c) f segs cur dn job rest Hr Eq)
      as (s1 & s & s2 & rest' & m' & _ & _ & E & _ & _). rewrite E. simpl.
    eexists. split; [done|]. simpl. eapply benign_trans; [|apply benign_resume].
    eapply benign_trans; [|apply benign_update]. simpl. by eapply benign_cancel.
Qed.

Lemma freeze_benign d : benign d (cdma_freeze d).
Proof. unfold cdma_freeze. destruct (_ && _); [apply benign_refl|]. apply benign_ext; auto; by split. Qed.

Lemma handler_benign wide c f segs cur :
  queue_repr (cdma c) f segs cur ->
  exists c', cdma_timeout_handler wide c = Some c' /\ benign (cdma c) (cdma c').
Proof.
  intros Hr. unfold cdma_timeout_handler.
  destruct (tmo_client (timeout (cdma c))); [|eexists; split; [done|apply benign_refl]].
  cbn [host1x_syncpt_load]. destruct (0 <=? _).
  - eexists. split; [done|]. apply benign_ext; auto; by split.
  - set (c1 := upd cdma_freeze _).
    assert (Hb : benign (cdma c) (cdma c1)).
    { eapply benign_trans; [|apply freeze_benign]. simpl. apply benign_ext; auto; by split. }
    destruct (Hb f segs cur Hr) as (f1 & segs1 & Hr1 & _).
    destruct (update_sync_queue_benign wide c1 f1 segs1 cur Hr1) as (c' & E & Hb').
    exists c'. split; [done|]. by eapply benign_trans.
Qed.

(** ** Pushing *)

Lemma push_words_ok d f l a b :
  pb_repr (push_buf d) f l -> Z.of_nat (length l) < NS - 1 ->
  exists pb, push_words a b d = Some (set_push_buf pb d) /\ pb_repr pb f (l ++ [(a, b)]).
Proof.
  intros Hr Hl. unfold push_words. destruct (push_ok _ _ _ a b Hr Hl) as (pb & -> & Hr').
  exists pb. by split.
Qed.

(** A submission after a command: its slots, and the counts. *)
Lemma submission_pushed d d' f segs cur s p rest free :
  queue_repr d f segs cur -> submission_at d f segs cur s -> todo s = p :: rest ->
  let sl := cmd_slots ((sub_start f segs + Z.of_nat (length cur)) mod NS) p in
  d' = set_push_buf (push_buf d') (set_slots (slots_used d + Z.of_nat (length sl)) free d) ->
  pb_repr (push_buf d') f (segs_slots f segs ++ cur ++ sl) ->
  0 <= free <= host1x_pushbuffer_space (push_buf d') ->
  queue_repr d' f segs (cur ++ sl) /\ submission_at d' f segs (cur ++ sl) (pushed p rest s).
Proof.
  intros [Hr Hj] [U F C Fr Lv Dc] Et sl Ed Hr' Hfree. split; [split; [done|by rewrite Ed]|].
  assert (Hu : slots_used d' = slots_used d + Z.of_nat (length sl)) by by rewrite Ed.
  assert (Hg : cdma_first_get d' = cdma_first_get d) by by rewrite Ed.
  assert (Hf : slots_free d' = free) by by rewrite Ed.
  split; simpl.
  - rewrite Hu, U, length_app. lia.
  - by rewrite Hg.
  - rewrite layout_app by apply mod_range. rewrite <- C. cbn [layout]. by rewrite app_nil_r.
  - by rewrite Hf.
  - done.
  - rewrite Et in Dc. by rewrite <- app_assoc.
Qed.

(** The ring behind the queue and the submission. *)
Lemma sub_end f segs cur :
  (sub_start f segs + Z.of_nat (length cur)) mod NS =
  (f + Z.of_nat (length (segs_slots f segs ++ cur))) mod NS.
Proof. unfold sub_start. rewrite mod_next, length_app. f_equal. lia. Qed.

Lemma push_narrow_ok d f segs cur s a b rest free :
  queue_repr d f segs cur -> submission_at d f segs cur s -> todo s = Push a b :: rest ->
  0 < free <= host1x_pushbuffer_space (push_buf d) ->
  exists d', push_narrow a b free d = Some d' /\
    queue_repr d' f segs (cur ++ [(a, b)]) /\
    submission_at d' f segs (cur ++ [(a, b)]) (pushed (Push a b) rest s).
Proof.
  intros Hq Hs Et Hf. pose proof (qr_ring _ _ _ _ Hq) as Hr.
  rewrite (space_ok _ _ _ Hr) in Hf.
  destruct (push_words_ok (set_slots (slots_used d + 1) (free - 1) d) f _ a b Hr ltac:(lia)) as (pb & E & Hr').
  exists (set_push_buf pb (set_slots (slots_used d + 1) (free - 1) d)). split; [exact E|].
  rewrite <- app_assoc in Hr'.
  apply (submission_pushed d _ f segs cur s (Push a b) rest (free - 1) Hq Hs Et); simpl; try done.
  rewrite (space_ok _ _ _ Hr'), !length_app in *. simpl. lia.
Qed.

Lemma wide_extra_ok pb f l :
  pb_repr pb f l -> wide_extra pb = if (f + Z.of_nat (length l)) mod NS =? NS - 1 then 1 else 0.
Proof.
  intros [_ _ Hs Hf _ Hp _ _]. unfold wide_extra. rewrite Hs, Hp.
  set (q := (f + Z.of_nat (length l)) mod NS). assert (Hq : 0 <= q < NS) by apply mod_range. clearbody q.
  unfold HOST1X_PUSHBUFFER_SLOTS in *. rewrite !u32_id by (unfold is_u32; lia).
  destruct (Z.eqb_spec q (1023 - 1)) as [->|Hne]; [done|].
  rewrite (proj2 (Z.ltb_ge _ _)) by lia. done.
Qed.

Lemma push_wide_ok d f segs cur s a b c e rest :
  queue_repr d f segs cur -> submission_at d f segs cur s -> todo s = PushWide a b c e :: rest ->
  wide_needed (push_buf d) <= host1x_pushbuffer_space (push_buf d) ->
  exists d', push_wide a b c e d = Some d' /\
    exists cur', queue_repr d' f segs cur' /\ submission_at d' f segs cur' (pushed (PushWide a b c e) rest s).
Proof.
  intros Hq Hs Et Hn. pose proof (qr_ring _ _ _ _ Hq) as Hr.
  pose proof (wide_extra_ok _ _ _ Hr) as He. pose proof (space_ok _ _ _ Hr) as Hsp.
  unfold push_wide, wide_needed in *. rewrite Hsp, He in *. cbv zeta.
  rewrite <- sub_end in *. set (q := (sub_start f segs + Z.of_nat (length cur)) mod NS) in *.
  set (x := if q =? NS - 1 then 1 else 0) in *.
  set (free := NS - 1 - Z.of_nat (length (segs_slots f segs ++ cur)) - (2 + x)).
  set (d0 := set_slots (slots_used d + (2 + x)) free d).
  set (pad := if q =? NS - 1 then [padding] else []).
  assert (Hx : Z.of_nat (length pad) = x) by (unfold pad, x; by destruct (q =? NS - 1)).
  assert (Hpad : exists pb1, (if 0 <? x then push_words (Z.shiftl 5 28) 0xdead0000 d0 else Some d0) =
      Some (set_push_buf pb1 d0) /\ pb_repr pb1 f ((segs_slots f segs ++ cur) ++ pad)).
  { unfold x, pad in *. destruct (q =? NS - 1); simpl.
    - apply (push_words_ok d0 f _ (Z.shiftl 5 28) 0xdead0000 Hr). lia.
    - exists (push_buf d). rewrite app_nil_r. split; [by destruct d|done]. }
  destruct Hpad as (pb1 & -> & Hr1). cbn [mbind option_bind].
  rewrite <- app_assoc in Hr1.
  destruct (push_words_ok (set_push_buf pb1 d0) f _ a b Hr1) as (pb2 & -> & Hr2).
  { rewrite !length_app in *. lia. }
  cbn [mbind option_bind].
  destruct (push_words_ok (set_push_buf pb2 (set_push_buf pb1 d0)) f _ c e Hr2) as (pb3 & -> & Hr3).
  { rewrite !length_app in *. simpl. lia. }
  eexists. split; [done|]. exists (cur ++ cmd_slots q (PushWide a b c e)).
  assert (Hsl : cmd_slots q (PushWide a b c e) = pad ++ [(a, b); (c, e)]) by done.
  apply (submission_pushed d _ f segs cur s (PushWide a b c e) rest free Hq Hs Et).
  - fold q. rewrite Hsl, length_app. simpl. rewrite Nat2Z.inj_add, Hx.
    unfold d0. replace (x + Z.of_nat 2) with (2 + x) by lia. done.
  - fold q. rewrite Hsl. simpl. by rewrite <- !app_assoc in Hr3.
  - simpl. rewrite (space_ok _ _ _ Hr3). unfold free. rewrite !length_app in *. simpl in *. lia.
Qed.

(** ** The steps *)

Lemma benign_flush d : benign d (cdma_flush d).
Proof. unfold cdma_flush. destruct (_ =? _); [apply benign_refl|]. apply benign_ext; auto; by split. Qed.

Lemma begin_inv c job cmds c' :
  chan_inv c Idle -> program job = [] -> cancelled job = false ->
  Forall (fun p => is_Some (decode_cmd p)) cmds ->
  host1x_cdma_begin job c = (0, c') -> chan_inv c' (Pushing (mk_sub job cmds)).
Proof.
  intros (f & segs & cur & Hq & -> & Hl) Hp Hc Hd. unfold host1x_cdma_begin.
  destruct (locked _); [done|]. intros [= <-].
  set (c1 := if negb (job_timeout job =? 0) && _ then _ else c).
  assert (H1 : push_buf (cdma c1) = push_buf (cdma c) /\ sync_queue (cdma c1) = sync_queue (cdma c))
    by (unfold c1; by destruct (_ && _)).
  set (c2 := if running (cdma c1) then c1 else _).
  assert (H2 : push_buf (cdma c2) = push_buf (cdma c) /\ sync_queue (cdma c2) = sync_queue (cdma c)).
  { unfold c2. destruct (running (cdma c1)) eqn:E; [done|]. simpl. unfold cdma_start. by rewrite E. }
  destruct H2 as [E1 E2]. exists f, segs, []. split.
  - eapply queue_repr_ext; [| |exact Hq]; simpl; done.
  - pose proof (qr_ring _ _ _ _ Hq) as Hr. split; simpl; try done.
    + rewrite E1, (pr_pos _ _ _ Hr), app_nil_r. done.
    + by rewrite Hp.
    + rewrite E1, (space_ok _ _ _ Hr). pose proof (pr_room _ _ _ Hr). lia.
    + by rewrite Hp.
Qed.

(** The definedness of a push, and what it does. *)
Lemma push_start_inv c s :
  chan_inv c (Pushing s) -> todo s <> [] ->
  exists c' p, push_start s c = Some (c', p) /\ chan_inv c' p.
Proof.
  intros (f & segs & cur & Hq & Hs) Ht. unfold push_start. simpl in Hs.
  destruct (todo s) as [|[a b|a b d e] rest] eqn:Et; [done| |].
  - destruct (Z.eqb_spec (slots_free (cdma c)) 0) as [|Hne].
    + eexists _, _. split; [done|].
      apply (benign_inv c (upd cdma_flush c) (InWait s)); [apply benign_flush|]. by exists f, segs, cur.
    + destruct (push_narrow_ok (cdma c) f segs cur s a b rest (slots_free (cdma c)) Hq Hs Et)
        as (d' & -> & Hq' & Hs'); [destruct Hs; lia|].
      eexists _, _. split; [done|]. by exists f, segs, (cur ++ [(a, b)]).
  - eexists _, _. split; [done|]. by exists f, segs, cur.
Qed.

Lemma wait_iter_inv c s :
  chan_inv c (InWait s) -> todo s <> [] ->
  exists c' p, wait_iter s c = Some (c', p) /\ chan_inv c' p.
Proof.
  intros (f & segs & cur & Hq & Hs) Ht. unfold wait_iter. simpl in Hs.
  assert (Hw : forall c1, benign (cdma c) (cdma c1) -> exists c' p,
    (if bool_decide (event (cdma c1) = CDMA_EVENT_NONE)
     then Some (upd (set_event CDMA_EVENT_PUSH_BUFFER_SPACE) c1, Sleeping s)
     else Some (c1, Yielded s)) = Some (c', p) /\ chan_inv c' p).
  { intros c1 Hb. assert (Hi : chan_inv c1 (InWait s)).
    { eapply benign_inv; [exact Hb|]. by exists f, segs, cur. }
    destruct (bool_decide _); eexists _, _; (split; [done|]); [|exact Hi].
    eapply (benign_inv c1 _ (Sleeping s)); [|exact Hi]. apply benign_ext; auto; by split. }
  destruct (todo s) as [|[a b|a b d e] rest] eqn:Et; [done| |].
  - destruct (Z.eqb_spec (host1x_pushbuffer_space (push_buf (cdma c))) 0) as [|Hne].
    + apply Hw, benign_refl.
    + destruct (push_narrow_ok (cdma c) f segs cur s a b rest
        (host1x_pushbuffer_space (push_buf (cdma c))) Hq Hs Et) as (d' & -> & Hq' & Hs').
      { rewrite (space_ok _ _ _ (qr_ring _ _ _ _ Hq)) in *. pose proof (pr_room _ _ _ (qr_ring _ _ _ _ Hq)). lia. }
      eexists _, _. split; [done|]. by exists f, segs, (cur ++ [(a, b)]).
  - destruct (Z.ltb_spec (host1x_pushbuffer_space (push_buf (cdma c))) (wide_needed (push_buf (cdma c)))).
    + apply Hw, benign_flush.
    + destruct (push_wide_ok (cdma c) f segs cur s a b d e rest Hq Hs Et ltac:(lia))
        as (d' & -> & cur' & Hq' & Hs').
      eexists _, _. split; [done|]. by exists f, segs, cur'.
Qed.

Lemma decode_all cs : Forall (fun p => is_Some (decode_cmd p)) cs -> is_Some (mapM decode_cmd cs).
Proof. intros H. by apply mapM_is_Some. Qed.

Lemma end_inv c job : chan_inv c (Pushing (mk_sub job [])) -> chan_inv (host1x_cdma_end job c) Idle.
Proof.
  intros (f & segs & cur & Hq & Hs).
  assert (Hb : benign (cdma c) (cdma_flush (cdma c))) by apply benign_flush.
  assert (El : last_pos (cdma_flush (cdma c)) = pos (push_buf (cdma_flush (cdma c))) /\
    push_buf (cdma_flush (cdma c)) = push_buf (cdma c) /\ sync_queue (cdma_flush (cdma c)) = sync_queue (cdma c) /\
    cdma_first_get (cdma_flush (cdma c)) = cdma_first_get (cdma c) /\
    slots_used (cdma_flush (cdma c)) = slots_used (cdma c)).
  { unfold cdma_flush. by destruct (Z.eqb_spec (pos (push_buf (cdma c))) (last_pos (cdma c))). }
  destruct El as (El & Ep & Eq & Eg & Eu).
  destruct Hq as [Hr Hj]. destruct Hs as [U F C _ Lv Dc]. simpl in C, Lv, Dc. rewrite app_nil_r in Dc.
  pose proof (pr_first _ _ _ Hr) as Hf.
  assert (Hcur : seg_slots (sub_start f segs) (Runs (program job)) = cur) by done.
  assert (Hr' : pb_repr (push_buf (cdma c)) f (segs_slots f (segs ++ [Runs (program job)]) ++ [])).
  { rewrite app_nil_r, segs_slots_app by done. cbn [segs_slots]. fold (sub_start f segs).
    by rewrite Hcur, app_nil_r. }
  set (job' := set_place (cdma_first_get (cdma c)) (slots_used (cdma c)) job).
  assert (Hj' : jobs_at f (sync_queue (cdma c) ++ [job']) (segs ++ [Runs (program job)])).
  { apply jobs_at_app; [done|by eapply jobs_at_length|]. split; [done|]. split; [|done].
    split; simpl; [done|by rewrite U, C|by left|]. destruct (decode_all _ Dc) as [dss ->]. done. }
  unfold host1x_cdma_end. cbv zeta. set (x := upd (fun d => set_queue _ d) _).
  assert (Hx : chan_inv x Idle).
  { exists f, (segs ++ [Runs (program job)]), []. unfold x. simpl. rewrite Eg, Eu. fold job'.
    split; [|done]. split; simpl; by rewrite ?Ep, ?Eq. }
  destruct (_ && _); [|exact Hx]. eapply (benign_inv x); [|exact Hx].
  apply benign_ext; simpl; unfold cdma_start_timer_locked; destruct (tmo_client _); auto; by split.
Qed.

Lemma cdma_inv_step wide w w' : cdma_inv w -> cstep wide w w' -> cdma_inv w'.
Proof.
  unfold cdma_inv. intros Hi Hst.
  destruct Hst as [c t job cmds c' _ Hp Hc Hd Hb|c t s c' p E|c t s c' p E|c t s _|c t s n _ _|c t job
    |c p t _|c p t c' d _ _ E|c p t _ ->|c p c' t' E|c p c' t' E|c p _|c p n _ _|c p t i v|c p t i|c p t i n];
    simpl in *.
  - by eapply begin_inv.
  - destruct (push_start_inv c s Hi) as (c1 & p1 & E1 & H1); [intros Et; unfold push_start in E; by rewrite Et in E|].
    rewrite E in E1. by injection E1 as <- <-.
  - destruct (wait_iter_inv c s Hi) as (c1 & p1 & E1 & H1); [intros Et; unfold wait_iter in E; by rewrite Et in E|].
    rewrite E in E1. by injection E1 as <- <-.
  - done.
  - eapply (benign_inv c _ (InWait s)); [|exact Hi]. apply benign_ext; auto; by split.
  - by apply end_inv.
  - eapply benign_inv; [apply benign_update|done].
  - pose proof Hi as (f & segs & cur & Hq & _).
    assert (Hb : benign (cdma c) (cdma d)) by (apply benign_ext; auto; by split).
    destruct (Hb f segs cur Hq) as (f1 & s1 & Hq1 & _).
    destruct (handler_benign wide d f1 s1 cur Hq1) as (c1 & E1 & H1). rewrite E in E1. injection E1 as <-.
    eapply benign_inv; [|exact Hi]. by eapply benign_trans.
  - done.
  - unfold stop_start in E. destruct (running (cdma c)); by injection E as <- <-.
  - unfold stop_iter in E.
    eapply benign_inv; [|exact Hi].
    destruct (bool_decide (sync_queue _ = _)); [injection E as <- <-; apply benign_ext; auto; by split|].
    destruct (bool_decide _); injection E as <- <-; [apply benign_ext; auto; by split|apply benign_refl].
  - done.
  - eapply benign_inv; [|exact Hi]. apply benign_ext; auto; by split.
  - done.
  - done.
  - done.
Qed.

(** * What is in the buffer *)

Definition queue_slots (jobs : list cdma_job) : Z := foldr (fun j n => num_slots j + n) 0 jobs.

Lemma jobs_at_slots f jobs segs :
  jobs_at f jobs segs -> queue_slots jobs = Z.of_nat (length (segs_slots f segs)).
Proof.
  revert f segs. induction jobs as [|j jobs IH]; intros f [|s segs]; try done.
  intros [[_ Hn _ _] Hj]. cbn [queue_slots foldr segs_slots]. fold (queue_slots jobs).
  rewrite (IH _ _ Hj), length_app. lia.
Qed.

(** Slots of the submission in progress. *)
Definition current_slots (w : world) : Z :=
  match sub w with Idle => 0 | _ => slots_used (cdma (ch w)) end.

(** The next step of the submitter, and a timeout, store only inside the buffer. *)
Definition stores_inside (wide : bool) (w : world) : Prop :=
  match sub w with
  | Pushing s => todo s = [] \/ is_Some (push_start s (ch w))
  | InWait s => todo s = [] \/ is_Some (wait_iter s (ch w))
  | _ => True
  end /\ is_Some (cdma_timeout_handler wide (ch w)).

(** Enough rounds for every fetch from the ring. *)
Definition fetch_fuel : nat := 6 * 1023.

(** The words of a job in the buffer, as the hardware fetches them, are its program. *)
Definition program_intact (pb : push_buffer) (j : cdma_job) : Prop :=
  exists dss, mapM decode_cmd (program j) = Some dss /\
    fetch fetch_fuel (mapped pb) (first_get j) ((first_get j + 8 * num_slots j) mod pb_size pb) =
      Some (concat dss).

Lemma queue_fetch pb f segs cur j s p :
  pb_repr pb f (segs_slots f segs ++ cur) -> 0 <= p < NS ->
  job_at p j s -> holds (mapped pb) p (seg_slots p s) -> num_slots j < NS ->
  exists out, seg_out s = Some out /\
    fetch fetch_fuel (mapped pb) (first_get j) ((first_get j + 8 * num_slots j) mod pb_size pb) = Some out.
Proof.
  intros Hr Hp [Hf Hn _ [out Ho]] Hh Hlt. exists out. split; [done|].
  rewrite (pr_size _ _ _ Hr), Hf, <- Z.mul_add_distr_l, Z.mul_mod_distr_l by done.
  rewrite Hn in Hlt. rewrite Hn.
  apply fetches_all; [|done|done|unfold fetch_fuel, HOST1X_PUSHBUFFER_SLOTS in *; lia].
  apply fetch_seg; [apply Hr|done|done|done].
Qed.

Lemma inv_intact c p j pre post :
  chan_inv c p -> sync_queue (cdma c) = pre ++ j :: post -> cancelled j = false ->
  program_intact (push_buf (cdma c)) j.
Proof.
  intros (f & segs & cur & [Hr Hj] & _) Eq Hc. rewrite Eq in Hj.
  pose proof (pr_first _ _ _ Hr) as Hf.
  destruct (jobs_at_split _ _ _ _ _ Hf Hj) as (s1 & s & s2 & -> & El & _ & H2 & _).
  pose proof (pr_holds _ _ _ Hr) as Hh. pose proof (pr_room _ _ _ Hr) as Hroom.
  rewrite segs_slots_app in Hh, Hroom by done. cbn [segs_slots] in Hh, Hroom. rewrite <- !app_assoc in Hh.
  apply holds_app in Hh as [_ Hh]. apply holds_app in Hh as [Hh _]. fold (sub_start f s1) in Hh, Hroom.
  destruct (queue_fetch _ f _ cur j s (sub_start f s1) Hr) as (out & Ho & Hfe); try done.
  { apply mod_range. }
  { rewrite !length_app in Hroom. rewrite (ja_slots _ _ _ H2). lia. }
  rewrite (ja_runs _ _ _ H2 Hc) in Ho. simpl in Ho.
  destruct (mapM decode_cmd (program j)) as [dss|] eqn:Ed; [|done]. injection Ho as <-. by exists dss.
Qed.

(** What the hardware executes of a queued job: its program, or, of a cancelled one, nothing
    or words without effect; of the job that failed it would still be the program. *)
Definition runs_as (j : cdma_job) (out : list command) : Prop :=
  (exists dss, mapM decode_cmd (program j) = Some dss /\ out = concat dss) \/
  (cancelled j = true /\ (out = [] \/ out = replicate (2 * Z.to_nat (num_slots j)) (bad_word, []))).

Lemma bad_out n : seg_out (Runs (replicate n bad_cmd)) = Some (replicate (2 * n) (bad_word, [])).
Proof.
  simpl. induction n as [|n IH]; [done|].
  cbn [replicate mapM]. assert (Hd : decode_cmd bad_cmd = Some [(bad_word, []); (bad_word, [])])
    by (vm_compute; reflexivity). rewrite Hd. cbn [mbind option_bind].
  destruct (mapM decode_cmd (replicate n bad_cmd)) as [dss|]; [|done]. simpl in IH. injection IH as IH.
  simpl. rewrite IH, Nat.add_0_r. by rewrite Nat.add_succ_r.
Qed.

Lemma seg_runs_as p j s : job_at p j s -> exists out, seg_out s = Some out /\ runs_as j out.
Proof.
  intros [_ _ Hs [out Ho]]. destruct Hs as [->|(Hc & [->| ->])].
  - exists out. split; [done|]. left. simpl in Ho. destruct (mapM decode_cmd (program j)) as [dss|]; [|done].
    injection Ho as <-. by exists dss.
  - exists []. split; [done|]. right. auto.
  - rewrite bad_out. eexists. split; [done|]. right. auto.
Qed.
Lemma segs_run p jobs segs : jobs_at p jobs segs -> exists outs, mapM seg_out segs = Some outs /\ Forall2 runs_as jobs outs.
Proof.
  revert p segs. induction jobs as [|j jobs IH]; intros p [|s segs] H; try done; [by exists []|].
  destruct H as [Hj Hjs]. destruct (seg_runs_as _ _ _ Hj) as (out & Eo & Ho), (IH _ _ Hjs) as (outs & Es & Hos).
  exists (out :: outs). cbn [mapM]. rewrite Eo, Es. split; [done|by constructor].
Qed.

(** Where the slots of the queue end: at the put pointer of the hardware, or where the
    submission in progress has started. *)
Definition queue_end (w : world) : Z :=
  match sub w with Idle => dmaput (regs (cdma (ch w))) | _ => cdma_first_get (cdma (ch w)) end.

(** The shadow of the put pointer is exact. *)
Definition put_shadow (d : host1x_cdma) : Prop := dmaput (regs d) = last_pos d.

Lemma queue_suffix w pre j post :
  cdma_inv w -> put_shadow (cdma (ch w)) -> sync_queue (cdma (ch w)) = pre ++ j :: post ->
  exists outs, Forall2 runs_as (j :: post) outs /\
    fetch fetch_fuel (mapped (push_buf (cdma (ch w)))) (first_get j) (queue_end w) = Some (concat outs).
Proof.
  intros (f & segs & cur & [Hr Hj] & Hs) Hput Eq. rewrite Eq in Hj.
  pose proof (pr_first _ _ _ Hr) as Hf.
  destruct (jobs_at_split _ _ _ _ _ Hf Hj) as (s1 & s & s2 & -> & El & _ & H2 & H3).
  set (p := sub_start f s1) in *. assert (Hp : 0 <= p < NS) by apply mod_range.
  assert (Hjs : jobs_at p (j :: post) (s :: s2)).
  { split; [done|]. unfold sub_start in H3. rewrite segs_slots_app in H3 by done. fold (sub_start f s1) in H3.
    rewrite length_app in H3. cbn [segs_slots] in H3. rewrite app_nil_r in H3. unfold p, sub_start. rewrite mod_next.
    replace (f + Z.of_nat (_ + _)) with (f + Z.of_nat (length (segs_slots f s1)) + Z.of_nat (length (seg_slots p s))) in H3
      by (unfold p; lia). exact H3. }
  destruct (segs_run _ _ _ Hjs) as (outs & Eo & Ho). exists outs. split; [done|].
  pose proof (pr_holds _ _ _ Hr) as Hh. pose proof (pr_room _ _ _ Hr) as Hroom.
  rewrite segs_slots_app, <- app_assoc in Hh by done. fold (sub_start f s1) in Hh. fold p in Hh.
  apply holds_app in Hh as [_ Hh]. apply holds_app in Hh as [Hh _].
  rewrite segs_slots_app in Hroom by done. fold (sub_start f s1) in Hroom. fold p in Hroom. rewrite !length_app in Hroom.
  set (n := length (segs_slots p (s :: s2))) in *.
  assert (Eend : queue_end w = 8 * ((p + Z.of_nat n) mod NS)).
  { assert (Est : sub_start f (s1 ++ s :: s2) = (p + Z.of_nat n) mod NS).
    { unfold sub_start. rewrite segs_slots_app, length_app by done. fold (sub_start f s1). fold p. fold n.
      unfold p, sub_start. rewrite mod_next. f_equal. lia. }
    unfold queue_end, sub_inv in *. destruct (sub w).
    - destruct Hs as [-> Hl]. rewrite Hput, Hl, (pr_pos _ _ _ Hr), app_nil_r. by rewrite <- Est.
    - by rewrite (sa_first _ _ _ _ _ Hs), Est.
    - by rewrite (sa_first _ _ _ _ _ Hs), Est.
    - by rewrite (sa_first _ _ _ _ _ Hs), Est.
    - by rewrite (sa_first _ _ _ _ _ Hs), Est. }
  rewrite Eend, (ja_first _ _ _ H2). apply fetches_all; [|done|lia|unfold fetch_fuel, HOST1X_PUSHBUFFER_SLOTS in *; lia].
  apply fetch_segs; [apply Hr|done|done|done].
Qed.

(** ** The get pointer *)

(** The address from which the hardware goes on, at a job of the queue. *)
Definition restart_at (rest : list cdma_job) (d : host1x_cdma) : Z :=
  match rest with next_job :: _ => first_get next_job | [] => last_pos d end.

Definition get_at (d : host1x_cdma) (d' : host1x_cdma) : Prop :=
  dmaget (regs d') = dmaget (regs d) \/
  exists pre post, sync_queue d = pre ++ post /\ dmaget (regs d') = restart_at post d.

Lemma update_frame c :
  regs (cdma (update_cdma_locked c)) = regs (cdma c) /\ last_pos (cdma (update_cdma_locked c)) = last_pos (cdma c) /\
  running (cdma (update_cdma_locked c)) = running (cdma c) /\ pos (push_buf (cdma (update_cdma_locked c))) = pos (push_buf (cdma c)).
Proof.
  destruct (split_finished (sps c) (sync_queue (cdma c))) as [fin rest] eqn:Es.
  rewrite (update_eq c fin rest Es). cbv zeta. destruct (pops_pos fin (push_buf (cdma c))) as [Hp _].
  by destruct (update_signals _ _ _).
Qed.

Lemma freeze_regs d : dmaget (regs (cdma_freeze d)) = dmaget (regs d) /\ dmaput (regs (cdma_freeze d)) = dmaput (regs d) /\
  last_pos (cdma_freeze d) = last_pos d /\ sync_queue (cdma_freeze d) = sync_queue d.
Proof. unfold cdma_freeze. by destruct (_ && _). Qed.

Lemma resume_regs g d : (put_shadow d -> put_shadow (cdma_resume g d)) /\
  (dmaget (regs (cdma_resume g d)) = dmaget (regs d) \/ dmaget (regs (cdma_resume g d)) = g).
Proof.
  unfold cdma_resume, cdma_timeout_restart, put_shadow. simpl. destruct (running d); simpl; auto.
Qed.

(** What an operation does to the pointers of the hardware. *)
Definition pointers_ok (d d' : host1x_cdma) : Prop := (put_shadow d -> put_shadow d') /\ get_at d d'.
Lemma pointers_same d d' : regs d' = regs d -> last_pos d' = last_pos d -> pointers_ok d d'.
Proof. intros E1 E2. unfold pointers_ok, put_shadow, get_at. rewrite E1, E2. auto. Qed.

Lemma update_sync_queue_pointers wide c c' :
  host1x_cdma_update_sync_queue wide c = Some c' -> pointers_ok (cdma c) (cdma c').
Proof.
  unfold host1x_cdma_update_sync_queue. cbn [host1x_syncpt_load].
  change (cdma (set_sp _ _ c)) with (cdma c).
  destruct (skip_completed _ (sync_queue (cdma c))) as [dn jobs] eqn:Es.
  pose proof (skip_completed_app _ _ _ _ Es) as Eq.
  assert (Hgo : forall g d, regs d = regs (cdma c) -> last_pos d = last_pos (cdma c) ->
    (exists pre post, sync_queue (cdma c) = pre ++ post /\ g = restart_at post (cdma c)) ->
    pointers_ok (cdma c) (cdma_resume g d)).
  { intros g d E1 E2 Hg. destruct (resume_regs g d) as [H1 H2]. unfold pointers_ok, get_at, put_shadow in *.
    rewrite E1, E2 in *. split; [done|]. destruct H2 as [-> | ->]; auto. }
  destruct jobs as [|job rest].
  { intros [= <-]. simpl. apply Hgo; [done|done|]. exists (sync_queue (cdma c)), []. by rewrite app_nil_r. }
  assert (Hg : exists pre post, sync_queue (cdma c) = pre ++ post /\
    match rest with next_job :: _ => first_get next_job | [] => last_pos (cdma c) end = restart_at post (cdma c)).
  { exists (dn ++ [job]), rest. by rewrite <- app_assoc. }
  destruct (syncpt_recovery job).
  - intros [= <-]. simpl. apply Hgo; [|simpl|exact Hg]; by rewrite iter_incr_cdma.
  - destruct (cancel_rest _ _ _ _) as [[rest' m']|]; [|done]. intros [= <-]. simpl.
    match goal with |- context [update_cdma_locked ?x] => destruct (update_frame x) as (F1 & F2 & _) end.
    by apply Hgo; [rewrite F1|rewrite F2|].
Qed.

Lemma handler_pointers wide c c' : cdma_timeout_handler wide c = Some c' -> pointers_ok (cdma c) (cdma c').
Proof.
  unfold cdma_timeout_handler. destruct (tmo_client _); [|intros [= <-]; by apply pointers_same].
  cbn [host1x_syncpt_load]. destruct (0 <=? _).
  - intros [= <-]. unfold pointers_ok, put_shadow, get_at. simpl. auto.
  - intros H%update_sync_queue_pointers. revert H. simpl.
    destruct (freeze_regs (cdma_hw_cmdproc_stop true (cdma c))) as (E1 & E2 & E3 & E4).
    unfold pointers_ok, put_shadow, get_at. rewrite E1, E2, E3, E4. simpl.
    intros [H1 H2]. split; [done|]. destruct H2 as [->|(pre & post & Hq & ->)]; [by left|right].
    exists pre, post. split; [done|]. destruct post; [exact E3|done].
Qed.

Lemma flush_pointers d : pointers_ok d (cdma_flush d).
Proof. unfold cdma_flush. destruct (_ =? _); [by apply pointers_same|]. unfold pointers_ok, put_shadow, get_at. simpl. auto. Qed.

Lemma push_pointers d d' : (exists a b f, push_narrow a b f d = Some d') \/ (exists a b e f, push_wide a b e f d = Some d') ->
  regs d' = regs d /\ last_pos d' = last_pos d.
Proof.
  assert (Hw : forall a b x y, push_words a b x = Some y -> regs y = regs x /\ last_pos y = last_pos x).
  { unfold push_words. intros a b x y H. destruct (host1x_pushbuffer_push _ _ _); [|done].
    simpl in H. injection H as <-. done. }
  intros [(a & b & f & H)|(a & b & e & f & H)]; [by apply Hw in H|]. unfold push_wide in H.
  match type of H with (?m ≫= _) = _ => destruct m as [x|] eqn:E1 end; [|done]. cbn [mbind option_bind] in H.
  destruct (push_words a b x) as [y|] eqn:E2; [|done]. cbn [mbind option_bind] in H.
  apply Hw in H as [-> ->], E2 as [-> ->]. destruct (0 <? _); [by apply Hw in E1|by injection E1 as <-].
Qed.

Lemma pointers_trans_same d d1 d2 : pointers_ok d d1 -> regs d2 = regs d1 -> last_pos d2 = last_pos d1 -> pointers_ok d d2.
Proof. unfold pointers_ok, put_shadow, get_at. intros [H1 H2] -> ->. auto. Qed.

Lemma wait_pointers s c c' p : wait_iter s c = Some (c', p) -> pointers_ok (cdma c) (cdma c').
Proof.
  intros E. unfold wait_iter in E.
  assert (Hw : forall x, pointers_ok (cdma c) (cdma x) -> (if bool_decide (event (cdma x) = CDMA_EVENT_NONE)
      then Some (upd (set_event CDMA_EVENT_PUSH_BUFFER_SPACE) x, Sleeping s) else Some (x, Yielded s)) = Some (c', p) ->
    pointers_ok (cdma c) (cdma c')).
  { intros x Hx. clear E. destruct (bool_decide _); intros [= <- _]; [|done]. by eapply pointers_trans_same. }
  destruct (todo s) as [|[a b|a b d e] rest]; [done| |].
  - destruct (_ =? 0); [by apply (Hw c); [apply pointers_same|]|].
    destruct (push_narrow _ _ _ _) as [d|] eqn:Ep; [|done]. simpl in E. injection E as <- _. simpl.
    destruct (push_pointers (cdma c) d) as [E1 E2]; [left; eauto|]. by apply pointers_same.
  - destruct (_ <? _); [by apply (Hw (upd cdma_flush c)); [apply flush_pointers|]|].
    destruct (push_wide _ _ _ _ _) as [x|] eqn:Ep; [|done]. simpl in E. injection E as <- _. simpl.
    destruct (push_pointers (cdma c) x) as [E1 E2]; [right; eauto|]. by apply pointers_same.
Qed.
Lemma start_pointers s c c' p : push_start s c = Some (c', p) -> pointers_ok (cdma c) (cdma c').
Proof.
  intros E. unfold push_start in E. destruct (todo s) as [|[a b|a b d e] rest]; [done| |injection E as <- _; by apply pointers_same].
  destruct (_ =? 0); [injection E as <- _; apply flush_pointers|].
  destruct (push_narrow _ _ _ _) as [d|] eqn:Ep; [|done]. simpl in E. injection E as <- _. simpl.
  destruct (push_pointers (cdma c) d) as [E1 E2]; [left; eauto|]. by apply pointers_same.
Qed.

Lemma begin_pointers c job c' err : last_pos (cdma c) = pos (push_buf (cdma c)) ->
  host1x_cdma_begin job c = (err, c') -> pointers_ok (cdma c) (cdma c').
Proof.
  intros Hl. unfold host1x_cdma_begin. destruct (locked _); [intros [= _ <-]; by apply pointers_same|].
  set (c1 := if negb (job_timeout job =? 0) && _ then _ else c).
  assert (H1 : regs (cdma c1) = regs (cdma c) /\ last_pos (cdma c1) = last_pos (cdma c) /\ push_buf (cdma c1) = push_buf (cdma c) /\
    sync_queue (cdma c1) = sync_queue (cdma c)) by (unfold c1; by destruct (_ && _)).
  destruct H1 as (E1 & E2 & E3 & E4). destruct (running (cdma c1)) eqn:Er; intros [= _ <-]; simpl; [by apply pointers_same|].
  unfold cdma_start. rewrite Er. unfold pointers_ok, put_shadow, get_at. simpl. split; [done|]. right.
  exists (sync_queue (cdma c)), []. rewrite app_nil_r. split; [done|]. simpl. by rewrite Hl, E3.
Qed.

Lemma step_pointers wide w w' : cdma_inv w -> cstep wide w w' -> pointers_ok (cdma (ch w)) (cdma (ch w')).
Proof.
  intros Hi Hst.
  destruct Hst as [c t job cmds c' _ Hp Hc Hd Hb|c t s c' p E|c t s c' p E|c t s _|c t s n _ _|c t job
    |c p t _|c p t c' d _ _ E|c p t _ ->|c p c' t' E|c p c' t' E|c p _|c p n _ _|c p t i v|c p t i|c p t i n];
    cbn [ch sub stp] in *; try (by apply pointers_same).
  - destruct Hi as (f & segs & cur & _ & _ & Hl). by eapply begin_pointers.
  - by eapply start_pointers.
  - by eapply wait_pointers.
  - unfold host1x_cdma_end. cbv zeta.
    eapply (pointers_trans_same _ (cdma_flush (cdma c))); [apply flush_pointers|..];
      destruct (_ && _); simpl; unfold cdma_start_timer_locked; simpl; try done; by destruct (tmo_client _).
  - destruct (update_frame c) as (E1 & E2 & _). by apply pointers_same.
  - exact (handler_pointers wide d c' E).
  - unfold stop_start in E. destruct (running (cdma c)); injection E as <- <-; by apply pointers_same.
  - unfold stop_iter in E. destruct (bool_decide (sync_queue _ = _)).
    + injection E as <- <-. unfold pointers_ok, put_shadow, get_at. simpl. auto.
    + destruct (bool_decide _); injection E as <- <-; by apply pointers_same.
Qed.

Lemma inv_account w :
  cdma_inv w -> host1x_pushbuffer_space (push_buf (cdma (ch w))) + queue_slots (sync_queue (cdma (ch w))) +
    current_slots w = NS - 1.
Proof.
  intros (f & segs & cur & [Hr Hj] & Hs). rewrite (space_ok _ _ _ Hr), (jobs_at_slots _ _ _ Hj), length_app.
  unfold current_slots. destruct (sub w); simpl in Hs; try (rewrite (sa_used _ _ _ _ _ Hs); lia).
  destruct Hs as [-> _]. simpl. lia.
Qed.

Lemma inv_stores wide w : cdma_inv w -> stores_inside wide w.
Proof.
  intros Hi. split.
  - unfold cdma_inv in Hi. destruct (sub w) as [|s|s|s|s] eqn:Es; try done.
    + destruct (decide (todo s = [])) as [|Ht]; [by left|right].
      destruct (push_start_inv (ch w) s Hi Ht) as (c' & p & -> & _). done.
    + destruct (decide (todo s = [])) as [|Ht]; [by left|right].
      destruct (wait_iter_inv (ch w) s Hi Ht) as (c' & p & -> & _). done.
  - destruct Hi as (f & segs & cur & Hq & _).
    destruct (handler_benign wide (ch w) f segs cur Hq) as (c' & -> & _). done.
Qed.

(** The channel after [host1x_cdma_init]. *)
Definition init_world (pb : push_buffer) (sp : nat -> host1x_syncpt) (lv : nat -> Z) : world :=
  mk_world (mk_chan (host1x_cdma_init pb) sp lv []) Idle StopIdle.

Lemma init_inv pb sp lv : pb_repr pb 0 [] -> cdma_inv (init_world pb sp lv).
Proof. intros Hp. exists 0, [], []. split; [by split|]. split; [done|]. simpl. by rewrite (pr_pos _ _ _ Hp). Qed.

Lemma reachable_cdma_inv wide pb sp lv w :
  pb_repr pb 0 [] -> rtc (cstep wide) (init_world pb sp lv) w -> cdma_inv w.
Proof.
  intros Hp Hs. apply (rtc_preserves (cstep wide) cdma_inv _ _ Hs); [by apply init_inv|].
  intros x y Hx Hxy. by eapply cdma_inv_step.
Qed.

Lemma reachable_put wide pb sp lv w :
  pb_repr pb 0 [] -> rtc (cstep wide) (init_world pb sp lv) w -> put_shadow (cdma (ch w)).
Proof.
  intros Hp Hs. apply (rtc_preserves (cstep wide) (fun w => cdma_inv w /\ put_shadow (cdma (ch w))) _ _ Hs).
  - split; [by apply init_inv|done].
  - intros x y [Hx Hsx] Hxy. split; [by eapply cdma_inv_step|]. by apply (step_pointers wide x y Hx Hxy).
Qed.

(** C6. The push buffer is never corrupted.  In every state that submissions, waits,
    completions, timeouts and stops can lead to: the words in the part of the ring of each queued
    job that was not cancelled decode to exactly the commands that were pushed for it, in order
    and with their operands; a fetch from the start of any queued job to the end of the queue,
    which is the put pointer when no submission is in progress, executes it and all behind it,
    in order, each as it was pushed, or, when it was cancelled, possibly nothing or words
    without effect; the free slots, those of the queued jobs and those of the submission in
    progress are the 1022 usable slots; neither the next step of the submitter nor a
    timeout stores outside the buffer; and when the next step moves the get pointer of the
    hardware, it moves it to the start of a queued job or to the put pointer.  Which of the
    jobs are executed when the hardware goes on after a timeout is not said here (see
    [timeout_correct]). *)
Theorem channel_safe wide pb sp lv w :
  pb_repr pb 0 [] -> rtc (cstep wide) (init_world pb sp lv) w ->
  (forall pre j post, sync_queue (cdma (ch w)) = pre ++ j :: post -> cancelled j = false ->
     program_intact (push_buf (cdma (ch w))) j) /\
  (forall pre j post, sync_queue (cdma (ch w)) = pre ++ j :: post ->
     exists outs, Forall2 runs_as (j :: post) outs /\
       fetch fetch_fuel (mapped (push_buf (cdma (ch w)))) (first_get j) (queue_end w) = Some (concat outs)) /\
  host1x_pushbuffer_space (push_buf (cdma (ch w))) + queue_slots (sync_queue (cdma (ch w))) +
    current_slots w = HOST1X_PUSHBUFFER_SLOTS - 1 /\
  stores_inside wide w /\
  (forall w', cstep wide w w' -> dmaget (regs (cdma (ch w'))) <> dmaget (regs (cdma (ch w))) ->
     (exists pre j post, sync_queue (cdma (ch w)) = pre ++ j :: post /\ dmaget (regs (cdma (ch w'))) = first_get j) \/
     dmaget (regs (cdma (ch w'))) = dmaput (regs (cdma (ch w)))).
Proof.
  intros Hp Hs. pose proof (reachable_put _ _ _ _ _ Hp Hs) as Hput. apply (reachable_cdma_inv _ _ _ _ _ Hp) in Hs as Hi.
  split_and!; [| |by apply inv_account|by apply inv_stores|].
  - intros pre j post. by eapply inv_intact.
  - intros pre j post. by apply queue_suffix.
  - intros w' Hst Hne. destruct (step_pointers wide w w' Hi Hst) as [_ [?|(pre & post & Hq & Hg)]]; [done|].
    destruct post as [|j post]; [right|left; by exists pre, j, post]. simpl in Hg. unfold put_shadow in Hput. congruence.
Qed.

(** * A run *)

(** A push buffer as [host1x_pushbuffer_init] leaves it. *)
Definition example_pb : push_buffer :=
  mk_pb (replicate 2046 0 ++ [host1x_opcode_restart 0]) (8 * 1022) 0 (8 * 1023) 8188.

Lemma example_pb_ok : pb_repr example_pb 0 [].
Proof. by split; vm_compute. Qed.

Definition example_sp (i : nat) : host1x_syncpt := Syncpt 1 (Z.of_nat i) 0 3 None false None None false.
Definition example_job (id : Z) (sp : nat) (e : Z) : cdma_job := mk_cjob id 7 sp e 100 false false 0 0 [].
Definition example_cmds : list push_cmd := [Push 0x10000000 0x20000000; PushWide 0x10010001 0x10020001 0x10030001 6].

(** The pushes of a submission, without waiting. *)
Fixpoint push_all (n : nat) (s : submission) (c : chan) : option chan :=
  match todo s, n with
  | [], _ => Some (host1x_cdma_end (sub_job s) c)
  | _, O => None
  | _, S n =>
      '(c, p) ← push_start s c;
      match p with
      | Pushing s => push_all n s c
      | InWait s => '(c, p) ← wait_iter s c; match p with Pushing s => push_all n s c | _ => None end
      | _ => None
      end
  end.

Definition submit (j : cdma_job) (cmds : list push_cmd) (c : chan) : option chan :=
  let '(err, c) := host1x_cdma_begin j c in
  if err =? 0 then push_all (length cmds) (mk_sub j cmds) c else None.

Lemma push_all_steps wide n s c c' :
  push_all n s c = Some c' ->
  rtc (cstep wide) (mk_world c (Pushing s) StopIdle) (mk_world c' Idle StopIdle).
Proof.
  revert s c. induction n as [|n IH]; intros [j td] c E; cbn [push_all todo sub_job] in E.
  - destruct td; [|done]. injection E as <-. apply rtc_once, step_end.
  - destruct td as [|cmd td]; [injection E as <-; apply rtc_once, step_end|].
    destruct (push_start _ c) as [[c1 p]|] eqn:E1; [|done]. simpl in E.
    eapply rtc_l; [by apply step_push|]. destruct p as [|s1|s1|s1|s1]; try done; [by apply IH|].
    destruct (wait_iter s1 c1) as [[c2 [|s2|s2|s2|s2]]|] eqn:E2; try done. simpl in E.
    eapply rtc_l; [by apply step_wait|]. by apply IH.
Qed.

Lemma submit_steps wide j cmds c c' :
  submit j cmds c = Some c' -> program j = [] -> cancelled j = false ->
  Forall (fun p => is_Some (decode_cmd p)) cmds ->
  rtc (cstep wide) (mk_world c Idle StopIdle) (mk_world c' Idle StopIdle).
Proof.
  unfold submit. intros E Hp Hc Hd. destruct (host1x_cdma_begin j c) as [err c1] eqn:Eb.
  destruct (Z.eqb_spec err 0) as [->|]; [|done].
  eapply rtc_l; [by apply step_begin|]. by eapply push_all_steps.
Qed.

(** Several submissions, one after the other. *)
Fixpoint submits (jobs : list (cdma_job * list push_cmd)) (c : chan) : option chan :=
  match jobs with [] => Some c | (j, cmds) :: jobs => c ← submit j cmds c; submits jobs c end.

Definition well_formed (jc : cdma_job * list push_cmd) : Prop :=
  program jc.1 = [] /\ cancelled jc.1 = false /\ Forall (fun p => is_Some (decode_cmd p)) jc.2.

Lemma submits_steps wide jobs c c' :
  Forall well_formed jobs -> submits jobs c = Some c' ->
  rtc (cstep wide) (mk_world c Idle StopIdle) (mk_world c' Idle StopIdle).
Proof.
  intros Hw. revert c. induction Hw as [|[j cmds] jobs (H1 & H2 & H3) _ IH]; intros c E; simpl in *.
  - by injection E as <-.
  - destruct (submit j cmds c) as [c1|] eqn:E1; [|done]. etrans; [by eapply submit_steps|]. by apply IH.
Qed.

(** Three submissions, the last for another syncpoint. *)
Definition example_jobs : list (cdma_job * list push_cmd) :=
  [(example_job 1 0 1, example_cmds); (example_job 2 0 2, example_cmds); (example_job 3 1 1, example_cmds)].

Lemma example_run wide :
  exists c, submits example_jobs (ch (init_world example_pb example_sp (fun _ => 0))) = Some c /\
    rtc (cstep wide) (init_world example_pb example_sp (fun _ => 0)) (mk_world c Idle StopIdle).
Proof.
  assert (H : is_Some (submits example_jobs (ch (init_world example_pb example_sp (fun _ => 0)))))
    by (vm_compute; by eexists).
  destruct H as [c Ec]. exists c. split; [done|]. eapply submits_steps; [|exact Ec].
  assert (Hd : Forall (fun p => is_Some (decode_cmd p)) example_cmds)
    by (repeat constructor; vm_compute; by eexists).
  by repeat constructor.
Qed.

Lemma channel_safe_witness :
  exists w, rtc (cstep true) (init_world example_pb example_sp (fun _ => 0)) w /\
    length (sync_queue (cdma (ch w))) = 3%nat /\
    (forall pre j post, sync_queue (cdma (ch w)) = pre ++ j :: post -> cancelled j = false ->
       program_intact (push_buf (cdma (ch w))) j) /\
    host1x_pushbuffer_space (push_buf (cdma (ch w))) = 1013.
Proof.
  destruct (example_run true) as (c & Ec & Hs). exists (mk_world c Idle StopIdle).
  destruct (channel_safe true example_pb example_sp (fun _ => 0) _ example_pb_ok Hs) as (H1 & _).
  vm_compute in Ec. injection Ec as <-. split_and!; [done|done|exact H1|vm_compute; done].
Defined.
