(* ===== verification/Host1xCdmaTimeout.v ===== *)
(** What completion and timeouts of a host1x channel achieve.

    [update_correct]: an update of the queue removes the finished jobs at its head, and
    only those.  [timeout_correct]: after a timeout the hardware goes on behind the job
    that failed, past the other jobs of its syncpoint, with those of other syncpoints as
    they were submitted. *)
From S2P Require Import Prelude Host1xPushbuf Host1xSyncpt Host1xCdma Host1xCdmaInv Host1xCdmaFacts.

(** * Updates *)

Lemma split_finished_spec sp jobs fin rest :
  split_finished sp jobs = (fin, rest) ->
  Forall (fun j => finished sp j = true) fin /\ match rest with [] => True | j :: _ => finished sp j = false end.
Proof.
  revert fin rest. induction jobs as [|j jobs IH]; intros fin rest; cbn [split_finished].
  - intros [= <- <-]. by split.
  - destruct (finished sp j) eqn:Ef.
    + destruct (split_finished sp jobs) as [fin' rest'] eqn:Es. intros [= <- <-].
      destruct (IH _ _ eq_refl) as [H1 H2]. split; [by constructor|done].
    + intros [= <- <-]. by split.
Qed.

Lemma queue_slots_app l l' : queue_slots (l ++ l') = queue_slots l + queue_slots l'.
Proof.
  induction l as [|j l IH]; [done|]. change (num_slots j + queue_slots (l ++ l') =
    num_slots j + queue_slots l + queue_slots l'). lia.
Qed.

(** The slots that an update frees. *)
Lemma pops_space d f segs cur fin rest :
  queue_repr d f segs cur -> sync_queue d = fin ++ rest ->
  host1x_pushbuffer_space (pops fin (push_buf d)) = host1x_pushbuffer_space (push_buf d) + queue_slots fin.
Proof.
  intros Hq Ea. destruct (pops_ok fin d f segs cur rest Hq Ea) as (f' & segs' & _ & _ & [Hr' Hj'] & _).
  destruct Hq as [Hr Hj]. simpl in Hr', Hj'. rewrite (space_ok _ _ _ Hr'), (space_ok _ _ _ Hr), !length_app.
  apply jobs_at_slots in Hj'. apply jobs_at_slots in Hj. rewrite Ea in Hj.
  rewrite queue_slots_app in Hj. lia.
Qed.

(** The timer that is to run for the first job of the queue. *)
Definition timer_for (j : cdma_job) (t : buffer_timeout) : buffer_timeout :=
  mk_tmo (initialized t) (Some (job_client j)) (job_syncpt j) (job_end j) true.

Lemma tmo_after_spec fin rest t :
  (fin = [] -> is_Some (tmo_client t) -> tmo_after fin rest t = t) /\
  (forall j, head rest = Some j -> job_timeout j <> 0 -> fin <> [] \/ tmo_client t = None ->
     tmo_after fin rest t = timer_for j t) /\
  (fin <> [] -> (forall j, head rest = Some j -> job_timeout j = 0) -> tmo_client (tmo_after fin rest t) = None).
Proof.
  unfold tmo_after, start_tmo, stop_tmo, timer_for. split_and!.
  - intros -> [x ->]. by destruct rest.
  - intros j Hj Ht Hc. destruct rest as [|j' rest]; [done|]. injection Hj as ->.
    rewrite (proj2 (Z.eqb_neq _ _) Ht). destruct fin; destruct (tmo_client t) eqn:Et; simpl; rewrite ?Et; try done.
    by destruct Hc.
  - intros Hf Hr. destruct fin; [done|]. destruct rest as [|j rest]; [by destruct (tmo_client t) eqn:E|].
    rewrite (Hr j eq_refl). destruct (tmo_client t) eqn:E; simpl; by rewrite ?E.
Qed.

(** An update of the queue, in any reachable state, removes the longest prefix of
    jobs that have reached their syncpoint threshold or were cancelled, unpins and
    releases each of them exactly once and in order, and frees exactly their slots.  The
    timer then runs for the first job that is left, if that has a timeout and the timer
    was stopped or served a job that is gone; it does not run for a job that is gone.
    The completion is signalled if slots were freed for somebody who waits for space, or
    the queue is empty and somebody waits for that. *)
Theorem update_correct wide pb sp lv w :
  pb_repr pb 0 [] -> rtc (cstep wide) (init_world pb sp lv) w ->
  let c := ch w in let d := cdma c in
  let c' := update_cdma_locked c in let d' := cdma c' in
  exists fin rest, sync_queue d = fin ++ rest /\
    Forall (fun j => finished (sps c) j = true) fin /\
    (forall j, head rest = Some j -> finished (sps c) j = false) /\
    sync_queue d' = rest /\
    log c' = log c ++ (fin ≫= fun j => [JobUnpin (job_id j); JobPut (job_id j)]) /\
    host1x_pushbuffer_space (push_buf d') = host1x_pushbuffer_space (push_buf d) + queue_slots fin /\
    ((fin = [] -> is_Some (tmo_client (timeout d)) -> timeout d' = timeout d) /\
     (forall j, head rest = Some j -> job_timeout j <> 0 -> fin <> [] \/ tmo_client (timeout d) = None ->
        timeout d' = timer_for j (timeout d)) /\
     (fin <> [] -> (forall j, head rest = Some j -> job_timeout j = 0) -> tmo_client (timeout d') = None)) /\
    (if frees_slots fin && bool_decide (event d = CDMA_EVENT_PUSH_BUFFER_SPACE) ||
        bool_decide (event d = CDMA_EVENT_SYNC_QUEUE_EMPTY) && bool_decide (rest = [])
     then event d' = CDMA_EVENT_NONE /\ completions d' = S (completions d)
     else event d' = event d /\ completions d' = completions d).
Proof.
  intros Hp Hs. destruct (reachable_cdma_inv _ _ _ _ _ Hp Hs) as (f & segs & cur & Hq & _). cbv zeta.
  destruct (split_finished (sps (ch w)) (sync_queue (cdma (ch w)))) as [fin rest] eqn:Es.
  pose proof (split_finished_app _ _ _ _ Es) as Ea. destruct (split_finished_spec _ _ _ _ Es) as [Hf Hr].
  exists fin, rest. rewrite (update_eq _ fin rest Es). cbv zeta. cbn [cdma log].
  pose proof (pops_space _ _ _ _ _ _ Hq Ea) as Hsp.
  pose proof (tmo_after_spec fin rest (timeout (cdma (ch w)))) as Ht.
  unfold update_signals.
  split_and!; [done|done| | |done|..].
  { intros j Hj. destruct rest; [done|]. by injection Hj as ->. }
  all: destruct Ht as (T1 & T2 & T3); by destruct (_ || _).
Qed.

(** A run in which the first job has finished. *)
Lemma update_correct_witness :
  exists w, rtc (cstep true) (init_world example_pb example_sp (fun _ => 0)) w /\
    length (sync_queue (cdma (ch w))) = 3%nat /\
    length (sync_queue (cdma (update_cdma_locked (ch w)))) = 2%nat /\
    exists fin rest, sync_queue (cdma (ch w)) = fin ++ rest /\
      sync_queue (cdma (update_cdma_locked (ch w))) = rest /\
      log (update_cdma_locked (ch w)) = log (ch w) ++ (fin ≫= fun j => [JobUnpin (job_id j); JobPut (job_id j)]).
Proof.
  destruct (example_run true) as (c & Ec & Hs).
  assert (Hs' : rtc (cstep true) (init_world example_pb example_sp (fun _ => 0))
    (mk_world (snd (host1x_syncpt_load 0 (set_live 0 1 c))) Idle StopIdle)).
  { etrans; [exact Hs|]. eapply rtc_l; [by apply (step_live _ _ _ _ 0%nat 1)|]. apply rtc_once, step_load. }
  assert (Hl : length (sync_queue (cdma c)) = 3%nat /\
    length (sync_queue (cdma (update_cdma_locked (snd (host1x_syncpt_load 0 (set_live 0 1 c)))))) = 2%nat).
  { clear Hs Hs'. vm_compute in Ec. injection Ec as <-. split; vm_compute; reflexivity. }
  destruct (update_correct true example_pb example_sp (fun _ => 0) _ example_pb_ok Hs')
    as (fin & rest & E1 & _ & _ & E2 & E3 & _).
  eexists. split; [exact Hs'|]. split; [exact (proj1 Hl)|]. split; [exact (proj2 Hl)|].
  exists fin, rest. split; [exact E1|]. split; [exact E2|exact E3].
Defined.

(** * Timeouts *)

(** What the hardware executes of a job behind the failed one: nothing, or words without
    effect, if it uses the same syncpoint, and else the commands that were pushed. *)
Definition executed (wide : bool) (sp : nat) (j : cdma_job) : option (list command) :=
  if Nat.eqb (job_syncpt j) sp
  then Some (if wide then [] else replicate (2 * Z.to_nat (num_slots j)) (bad_word, []))
  else (fun dss => concat dss) <$> mapM decode_cmd (program j).

Lemma cancelled_executes wide j :
  seg_out (cancelled_seg wide j) =
    Some (if wide then [] else replicate (2 * Z.to_nat (num_slots j)) (bad_word, [])).
Proof.
  unfold cancelled_seg. destruct wide; [done|]. apply bad_out.
Qed.

Lemma rest_executes wide sp p rest segs :
  jobs_at p rest segs -> Forall (fun j => cancelled j = false) rest ->
  mapM seg_out (cancel_segs wide sp rest segs) = mapM (executed wide sp) rest /\
  is_Some (mapM (executed wide sp) rest).
Proof.
  revert p segs. induction rest as [|j rest IH]; intros p [|s segs] Hj Hc; try done.
  destruct Hj as [Hj Hjs]. apply Forall_cons in Hc as [Hc Hcs].
  destruct (IH _ _ Hjs Hcs) as [E1 [outs E2]]. cbn [cancel_segs zip_with mapM]. fold (cancel_segs wide sp rest segs).
  assert (E0 : seg_out (if Nat.eqb (job_syncpt j) sp then cancelled_seg wide j else s) = executed wide sp j /\
    is_Some (executed wide sp j)).
  { unfold executed. destruct (Nat.eqb (job_syncpt j) sp).
    - rewrite cancelled_executes. split; [done|by eexists].
    - rewrite (ja_runs _ _ _ Hj Hc). split; [done|]. pose proof (ja_out _ _ _ Hj) as Ho.
      by rewrite (ja_runs _ _ _ Hj Hc) in Ho. }
  destruct E0 as [E0 [o Eo]]. rewrite E0, E1, E2, Eo. split; [done|by eexists].
Qed.

Lemma split_finished_prefix sp l r :
  Forall (fun j => finished sp j = true) l ->
  split_finished sp (l ++ r) = (l ++ (split_finished sp r).1, (split_finished sp r).2).
Proof.
  induction 1 as [|j l Hj _ IH]; cbn [app split_finished]; [by destruct (split_finished sp r)|].
  by rewrite Hj, IH.
Qed.

(** The queue, and the ring from slot [p] up to the put pointer, after an update. *)
Lemma update_after_cancel c f segs1 s segs2 dn job rest :
  queue_repr (cdma c) f (segs1 ++ s :: segs2) [] -> sync_queue (cdma c) = dn ++ job :: rest -> cancelled job = true ->
  let c' := update_cdma_locked c in
  push_buf (cdma c') = pops (split_finished (sps c) (sync_queue (cdma c))).1 (push_buf (cdma c)) /\
  exists n, sync_queue (cdma c') = drop n (dn ++ job :: rest) /\
    (Forall (fun j => finished (sps c) j = true) dn -> (S (length dn) <= n)%nat).
Proof.
  intros Hq Eq Hc. cbv zeta. destruct (split_finished (sps c) (sync_queue (cdma c))) as [fin r] eqn:Es.
  pose proof (split_finished_app _ _ _ _ Es) as Ea. rewrite (update_eq c fin r Es). cbv zeta. simpl.
  split; [by destruct (update_signals _ _ _)|]. exists (length fin). split.
  - rewrite <- Eq, Ea, drop_app_length. by destruct (update_signals _ _ _).
  - intros Hd. rewrite Eq, (split_finished_prefix _ _ _ Hd) in Es. cbn [split_finished] in Es.
    assert (Hf : finished (sps c) job = true) by (unfold finished; rewrite Hc; apply orb_true_r).
    rewrite Hf in Es. destruct (split_finished (sps c) rest). simpl in Es. injection Es as <- _.
    rewrite length_app. simpl. lia.
Qed.

(** The slots from [p] on, up to the position for the next push. *)
Lemma fetch_to_end pb f l p segs outs :
  pb_repr pb f (l ++ segs_slots p segs) -> p = (f + Z.of_nat (length l)) mod NS ->
  mapM seg_out segs = Some outs ->
  fetch fetch_fuel (mapped pb) (8 * p) (pos pb) = Some (concat outs).
Proof.
  intros Hr -> Ho. set (p := (f + Z.of_nat (length l)) mod NS) in *.
  assert (Hp : 0 <= p < NS) by apply mod_range.
  pose proof (pr_holds _ _ _ Hr) as Hh. apply holds_app in Hh as [_ Hh]. fold p in Hh.
  pose proof (pr_room _ _ _ Hr) as Hroom. rewrite length_app in Hroom.
  rewrite (pr_pos _ _ _ Hr), length_app.
  replace ((f + Z.of_nat (length l + length (segs_slots p segs))) mod NS)
    with ((p + Z.of_nat (length (segs_slots p segs))) mod NS)
    by (unfold p at 1; rewrite mod_next; f_equal; lia).
  apply fetches_all; [|done|lia|unfold fetch_fuel, HOST1X_PUSHBUFFER_SLOTS in *; lia].
  apply fetch_segs; [apply Hr|done|done|done].
Qed.

Lemma freeze_frame d :
  push_buf (cdma_freeze d) = push_buf d /\ sync_queue (cdma_freeze d) = sync_queue d /\
  last_pos (cdma_freeze d) = last_pos d /\ timeout (cdma_freeze d) = timeout d /\ running (cdma_freeze d) = false.
Proof.
  unfold cdma_freeze. destruct (torndown d && negb (running d)) eqn:E; [|done].
  apply andb_true_iff in E as [_ E]. by apply negb_true_iff in E.
Qed.

Lemma resume_frame g d :
  running d = false ->
  push_buf (cdma_resume g d) = push_buf d /\ sync_queue (cdma_resume g d) = sync_queue d /\
  regs (cdma_resume g d) = mk_regs (pos (push_buf d)) g false false /\ running (cdma_resume g d) = true.
Proof. intros E. unfold cdma_resume, cdma_timeout_restart. simpl. by rewrite E. Qed.

Lemma restart_at_slot d f segs1 s segs2 rest :
  pb_repr (push_buf d) f (segs_slots f (segs1 ++ s :: segs2) ++ []) -> last_pos d = pos (push_buf d) ->
  jobs_at (sub_start f (segs1 ++ [s])) rest segs2 -> restart_at rest d = 8 * sub_start f (segs1 ++ [s]).
Proof.
  intros Hr Hl Hj. destruct rest as [|j rest]; destruct segs2 as [|s2 segs2]; try done; simpl.
  - by rewrite Hl, (pr_pos _ _ _ Hr), app_nil_r.
  - destruct Hj as [Hj _]. apply Hj.
Qed.

Section handler.
Variables (wide : bool) (c : chan) (dn : list cdma_job) (job : cdma_job) (rest : list cdma_job).
Hypothesis idle : chan_inv c Idle.
Hypothesis armed : is_Some (tmo_client (timeout (cdma c))).
Hypothesis expired : s32 (u32 (live c (tmo_syncpt (timeout (cdma c))) - tmo_val (timeout (cdma c)))) < 0.
Hypothesis failed : skip_completed (live c (tmo_syncpt (timeout (cdma c)))) (sync_queue (cdma c)) = (dn, job :: rest).
Hypothesis no_recovery : syncpt_recovery job = false.
Hypothesis uncancelled : Forall (fun j => cancelled j = false) rest.

Definition cancelled_rest : list cdma_job :=
  map (fun j => if Nat.eqb (job_syncpt j) (job_syncpt job) then set_cancelled j else j) rest.

(** The handler, as its last two steps from the state in which the jobs are cancelled. *)
Lemma handler_cancels :
  exists (c2 : chan) f segs1 s segs2, cdma_timeout_handler wide c =
      Some (upd (cdma_resume (8 * sub_start f (segs1 ++ [s]))) (update_cdma_locked c2)) /\
    queue_repr (cdma c2) f (segs1 ++ s :: cancel_segs wide (job_syncpt job) rest segs2) [] /\
    jobs_at (sub_start f (segs1 ++ [s])) rest segs2 /\
    sync_queue (cdma c2) = dn ++ set_cancelled job :: cancelled_rest /\
    locked (sps c2 (job_syncpt job)) = true /\ running (cdma c2) = false.
Proof.
  destruct idle as (f & segs & cur & Hq & -> & Hl). destruct armed as [cl Hcl].
  unfold cdma_timeout_handler. rewrite Hcl. cbn [host1x_syncpt_load cdma upd timeout set_sp].
  change (timeout (cdma_hw_cmdproc_stop true (cdma c))) with (timeout (cdma c)).
  change (live (upd (cdma_hw_cmdproc_stop true) c)) with (live c).
  rewrite (proj2 (Z.leb_gt 0 _)) by exact expired.
  destruct (freeze_frame (cdma_hw_cmdproc_stop true (cdma c))) as (F1 & F2 & F3 & F4 & F5).
  set (d1 := cdma_freeze (cdma_hw_cmdproc_stop true (cdma c))) in *.
  change (push_buf (cdma_hw_cmdproc_stop true (cdma c))) with (push_buf (cdma c)) in F1.
  change (sync_queue (cdma_hw_cmdproc_stop true (cdma c))) with (sync_queue (cdma c)) in F2.
  change (last_pos (cdma_hw_cmdproc_stop true (cdma c))) with (last_pos (cdma c)) in F3.
  change (timeout (cdma_hw_cmdproc_stop true (cdma c))) with (timeout (cdma c)) in F4.
  assert (Hq1 : queue_repr d1 f segs []) by (by eapply queue_repr_ext).
  unfold host1x_cdma_update_sync_queue. cbn [host1x_syncpt_load cdma upd set_sp live timeout].
  fold d1. rewrite F4, F2, failed. rewrite no_recovery. cbn [cdma upd set_sp].
  destruct (cancel_ok wide d1 f segs [] dn job rest Hq1) as (segs1 & s & segs2 & rest' & m' & Es & Hj & E & Er & _ & Hq2).
  { rewrite F2. by eapply skip_completed_app. }
  fold d1. rewrite E. cbn [mbind option_bind mret option_ret].
  assert (Hg : restart_at rest d1 = 8 * sub_start f (segs1 ++ [s])).
  { eapply restart_at_slot; [rewrite <- Es; apply Hq1|congruence|done]. }
  unfold restart_at in Hg. rewrite Hg.
  eexists _, f, segs1, s, segs2. split; [reflexivity|]. cbn [cdma upd set_sp sps]. fold d1.
  split_and!; [exact Hq2|done|by rewrite Er| |exact F5].
  unfold set_sp. cbn [sps upd]. by rewrite fn_lookup_insert.
Qed.

Lemma handler_correct :
  exists c' n outs, cdma_timeout_handler wide c = Some c' /\
    sync_queue (cdma c') = drop n (dn ++ set_cancelled job :: cancelled_rest) /\
    (Forall (fun j => finished (sps c') j = true) dn -> (S (length dn) <= n)%nat) /\
    locked (sps c' (job_syncpt job)) = true /\
    running (cdma c') = true /\ dmastop (regs (cdma c')) = false /\ cmdproc_stop (regs (cdma c')) = false /\
    mapM (executed wide (job_syncpt job)) rest = Some outs /\
    fetch fetch_fuel (mapped (push_buf (cdma c'))) (dmaget (regs (cdma c'))) (dmaput (regs (cdma c'))) =
      Some (concat outs).
Proof.
  destruct handler_cancels as (c2 & f & segs1 & s & segs2 & -> & Hq & Hj & Eq & Hl & Hrun).
  destruct (rest_executes wide (job_syncpt job) _ rest segs2 Hj uncancelled) as [Eo [outs Eouts]].
  rewrite Eouts in Eo.
  destruct (update_after_cancel c2 f segs1 s _ dn _ _ Hq Eq eq_refl) as (Ep & n & En & Hn).
  assert (Hu : running (cdma (update_cdma_locked c2)) = false /\ sps (update_cdma_locked c2) = sps c2).
  { destruct (split_finished (sps c2) (sync_queue (cdma c2))) as [fin r] eqn:Es.
    rewrite (update_eq c2 fin r Es). cbv zeta. simpl. by destruct (update_signals _ _ _). }
  destruct Hu as [Hr2 Hs2].
  destruct (resume_frame (8 * sub_start f (segs1 ++ [s])) _ Hr2) as (R1 & R2 & R3 & R4).
  eexists _, n, outs. split; [reflexivity|]. cbn [cdma upd sps].
  rewrite R1, R2, R3, Ep. cbn [dmaget dmaput dmastop cmdproc_stop].
  split_and!; [done|by rewrite Hs2|by rewrite Hs2|done|done|done|done|].
  destruct (pops_pos (split_finished (sps c2) (sync_queue (cdma c2))).1 (push_buf (cdma c2))) as [-> ->].
  pose proof (qr_ring _ _ _ _ Hq) as Hr. rewrite app_nil_r in Hr.
  rewrite segs_slots_split in Hr by apply (pr_first _ _ _ Hr).
  by eapply fetch_to_end.
Qed.
End handler.

(** C20. A timeout does what it is for.  Let the timer of a reachable channel fire
    between submissions, when its threshold has not been reached, the failed job - the first
    one whose end is above the counter, see [wrapped_timeout_ignored] - is not one that recovers
    its syncpoint, and no job behind it has been cancelled before.  Then the job's syncpoint is
    locked, so that later submissions for it fail with EPERM; the job and the jobs behind it that
    use the same syncpoint are cancelled, and the failed job leaves the queue if those before it
    have finished; and the hardware is started again such that it executes, of everything
    behind the failed job, exactly the commands of the jobs of other syncpoints, in
    order: for the others it executes nothing, or without the wide opcodes only words
    that have no effect. *)
Theorem timeout_correct wide pb sp lv w dn job rest :
  pb_repr pb 0 [] -> rtc (cstep wide) (init_world pb sp lv) w -> sub w = Idle ->
  let c := ch w in let t := timeout (cdma c) in
  is_Some (tmo_client t) -> s32 (u32 (live c (tmo_syncpt t) - tmo_val t)) < 0 ->
  skip_completed (live c (tmo_syncpt t)) (sync_queue (cdma c)) = (dn, job :: rest) ->
  syncpt_recovery job = false -> Forall (fun j => cancelled j = false) rest ->
  exists c' n outs, cdma_timeout_handler wide c = Some c' /\
    sync_queue (cdma c') = drop n (dn ++ set_cancelled job ::
      map (fun j => if Nat.eqb (job_syncpt j) (job_syncpt job) then set_cancelled j else j) rest) /\
    (Forall (fun j => finished (sps c') j = true) dn -> (S (length dn) <= n)%nat) /\
    (forall job', job_syncpt job' = job_syncpt job -> host1x_cdma_begin job' c' = (- EPERM, c')) /\
    running (cdma c') = true /\ dmastop (regs (cdma c')) = false /\ cmdproc_stop (regs (cdma c')) = false /\
    mapM (executed wide (job_syncpt job)) rest = Some outs /\
    fetch fetch_fuel (mapped (push_buf (cdma c'))) (dmaget (regs (cdma c'))) (dmaput (regs (cdma c'))) =
      Some (concat outs).
Proof.
  intros Hp Hs%(reachable_cdma_inv _ _ _ _ _ Hp) Hw c t Ht He Hk Hr Hc. unfold cdma_inv in Hs. rewrite Hw in Hs.
  destruct (handler_correct wide c dn job rest Hs Ht He Hk Hr Hc) as (c' & n & outs & H1 & H2 & H3 & H4 & H5).
  exists c', n, outs. split_and!; try done; try apply H5.
  intros job' E. unfold host1x_cdma_begin. by rewrite E, H4.
Qed.

(** The first of three jobs fails; the second is skipped, the third is executed. *)
Lemma timeout_correct_witness :
  exists w c' outs, rtc (cstep true) (init_world example_pb example_sp (fun _ => 0)) w /\
    cdma_timeout_handler true (ch w) = Some c' /\
    length (sync_queue (cdma (ch w))) = 3%nat /\ length outs = 2%nat /\
    fetch fetch_fuel (mapped (push_buf (cdma c'))) (dmaget (regs (cdma c'))) (dmaput (regs (cdma c'))) =
      Some (concat outs).
Proof.
  destruct (example_run true) as (c & Ec & Hs).
  assert (H : exists job rest, sync_queue (cdma c) = job :: rest /\
    skip_completed (live c (tmo_syncpt (timeout (cdma c)))) (sync_queue (cdma c)) = ([], job :: rest) /\
    is_Some (tmo_client (timeout (cdma c))) /\
    s32 (u32 (live c (tmo_syncpt (timeout (cdma c))) - tmo_val (timeout (cdma c)))) < 0 /\
    syncpt_recovery job = false /\ Forall (fun j => cancelled j = false) rest /\ length rest = 2%nat).
  { clear Hs. vm_compute in Ec. injection Ec as <-. eexists _, _.
    split_and!; [reflexivity|vm_compute; reflexivity|by eexists|vm_compute; done|done|by repeat constructor|done]. }
  destruct H as (job & rest & Eq & Hk & Ht & He & Hr & Hc & Hl).
  destruct (timeout_correct true example_pb example_sp (fun _ => 0) (mk_world c Idle StopIdle) [] job rest
    example_pb_ok Hs eq_refl Ht He Hk Hr Hc) as (c' & n & outs & E1 & _ & _ & _ & _ & _ & _ & Eo & Ef).
  exists (mk_world c Idle StopIdle), c', outs. split_and!; [done|done| | |exact Ef].
  - simpl. rewrite Eq. simpl. by rewrite Hl.
  - by rewrite <- (length_mapM _ _ _ Eo).
Defined.

(** ** When the comparison is misled *)

Lemma skip_all v jobs : Forall (fun j => job_end j <= v) jobs -> skip_completed v jobs = (jobs, []).
Proof.
  induction 1 as [|j jobs Hj _ IH]; cbn [skip_completed]; [done|].
  by rewrite (proj2 (Z.ltb_ge _ _)), IH by lia.
Qed.

(** The queue is scanned with an unsigned comparison, where the timer's test is
    wrap-around safe.  If the thresholds have wrapped around and the counter has not,
    every job counts as completed: nothing is cancelled, no syncpoint is locked, the
    hardware skips the jobs, and the timer stays armed without being scheduled, so that
    [cdma_start_timer_locked] never starts it again. *)
Lemma wrapped_timeout_ignored wide c cl :
  let t := timeout (cdma c) in
  tmo_client t = Some cl -> s32 (u32 (live c (tmo_syncpt t) - tmo_val t)) < 0 ->
  Forall (fun j => job_end j <= live c (tmo_syncpt t)) (sync_queue (cdma c)) ->
  last_pos (cdma c) = pos (push_buf (cdma c)) ->
  exists c', cdma_timeout_handler wide c = Some c' /\
    sync_queue (cdma c') = sync_queue (cdma c) /\ log c' = log c /\
    (forall i, locked (sps c' i) = locked (sps c i)) /\
    timeout (cdma c') = t /\ dmaget (regs (cdma c')) = dmaput (regs (cdma c')) /\
    forall job, cdma_start_timer_locked job (cdma c') = cdma c'.
Proof.
  intros t Hcl He Hall Hl. unfold t in *. unfold cdma_timeout_handler. rewrite Hcl.
  cbn [host1x_syncpt_load cdma upd timeout set_sp].
  change (timeout (cdma_hw_cmdproc_stop true (cdma c))) with (timeout (cdma c)).
  change (live (upd (cdma_hw_cmdproc_stop true) c)) with (live c).
  rewrite (proj2 (Z.leb_gt 0 _)) by exact He.
  destruct (freeze_frame (cdma_hw_cmdproc_stop true (cdma c))) as (F1 & F2 & F3 & F4 & F5).
  unfold host1x_cdma_update_sync_queue. cbn [host1x_syncpt_load cdma upd set_sp live timeout].
  set (d1 := cdma_freeze (cdma_hw_cmdproc_stop true (cdma c))) in *.
  change (push_buf (cdma_hw_cmdproc_stop true (cdma c))) with (push_buf (cdma c)) in F1.
  change (sync_queue (cdma_hw_cmdproc_stop true (cdma c))) with (sync_queue (cdma c)) in F2.
  change (last_pos (cdma_hw_cmdproc_stop true (cdma c))) with (last_pos (cdma c)) in F3.
  change (timeout (cdma_hw_cmdproc_stop true (cdma c))) with (timeout (cdma c)) in F4.
  rewrite F4, F2, (skip_all _ _ Hall). eexists. split; [reflexivity|].
  destruct (resume_frame (last_pos d1) d1 F5) as (R1 & R2 & R3 & R4).
  assert (Rt : timeout (cdma_resume (last_pos d1) d1) = timeout d1)
    by (unfold cdma_resume, cdma_timeout_restart; simpl; by rewrite F5).
  cbn [cdma upd set_sp log sps]. fold d1. rewrite R2, R3, Rt, F4, F2. cbn [dmaget dmaput].
  split_and!; [done|done| |done|congruence|].
  - intros i. unfold set_sp. cbn [sps upd]. unfold set_min.
    destruct (decide (i = tmo_syncpt (timeout (cdma c)))) as [->|Hne];
      [by rewrite !fn_lookup_insert|by rewrite !fn_lookup_insert_ne by done].
  - intros job. unfold cdma_start_timer_locked. by rewrite Rt, F4, Hcl.
Qed.
