(* ===== verification/Host1xCdmaWake.v ===== *)
(** Waiting for space in the push buffer of a host1x channel.

    One completion serves a submitter that waits for space and a thread that waits for
    an empty queue; [event] says for whom it is to be signalled.  [sleeper_correct] shows
    that no wakeup is lost, and that only a submission that is larger than the ring
    waits in vain. *)
From S2P Require Import Prelude Host1xPushbuf Host1xSyncpt Host1xCdma Host1xCdmaInv Host1xCdmaFacts.

(** The slots that the next command needs. *)
Definition needed (s : submission) (pb : push_buffer) : Z :=
  match todo s with [] => 0 | Push _ _ :: _ => 1 | PushWide _ _ _ _ :: _ => wide_needed pb end.

Definition sleepers (w : world) : nat :=
  (match sub w with Sleeping _ => 1 | _ => 0 end) + (match stp w with StopSleeping => 1 | _ => 0 end).

(** The submission that is held up. *)
Definition waiting (p : submit_pc) : option submission :=
  match p with InWait s | Yielded s | Sleeping s => Some s | _ => None end.

(** Sleeping threads are matched by completions and by an event that is waited for. *)
Record wake_inv (w : world) : Prop := {
  wk_count : sleepers w =
    (completions (cdma (ch w)) + if decide (event (cdma (ch w)) = CDMA_EVENT_NONE) then 0 else 1)%nat;
  wk_empty : event (cdma (ch w)) = CDMA_EVENT_SYNC_QUEUE_EMPTY -> sync_queue (cdma (ch w)) <> [];
  wk_space : event (cdma (ch w)) = CDMA_EVENT_PUSH_BUFFER_SPACE ->
    exists s, waiting (sub w) = Some s /\
      host1x_pushbuffer_space (push_buf (cdma (ch w))) < needed s (push_buf (cdma (ch w)))
}.

(** What operations other than those of the waiting threads do: they leave the event as
    it is, and then neither free slots for somebody who waits for them nor empty a queue
    that is waited for; or they signal. *)
Definition same_ring (pb pb' : push_buffer) : Prop :=
  fence pb' = fence pb /\ pos pb' = pos pb /\ pb_size pb' = pb_size pb.

Definition wakes (d d' : host1x_cdma) : Prop :=
  (event d' = event d /\ completions d' = completions d /\
   (event d = CDMA_EVENT_PUSH_BUFFER_SPACE -> same_ring (push_buf d) (push_buf d')) /\
   (event d = CDMA_EVENT_SYNC_QUEUE_EMPTY -> sync_queue d <> [] -> sync_queue d' <> [])) \/
  (event d' = CDMA_EVENT_NONE /\ completions d' = S (completions d) /\ event d <> CDMA_EVENT_NONE).

Lemma same_ring_needed pb pb' s :
  same_ring pb pb' ->
  host1x_pushbuffer_space pb' = host1x_pushbuffer_space pb /\ needed s pb' = needed s pb.
Proof.
  intros (E1 & E2 & E3). unfold host1x_pushbuffer_space, needed, wide_needed, wide_extra.
  by rewrite E1, E2, E3.
Qed.

Lemma wakes_ext d d' :
  event d' = event d -> completions d' = completions d -> push_buf d' = push_buf d ->
  sync_queue d' = sync_queue d -> wakes d d'.
Proof. intros E1 E2 E3 E4. left. rewrite E3, E4. split_and!; done. Qed.

Lemma wakes_trans d1 d2 d3 : wakes d1 d2 -> wakes d2 d3 -> wakes d1 d3.
Proof.
  intros [(E1 & C1 & P1 & Q1)|(E1 & C1 & N1)] [(E2 & C2 & P2 & Q2)|(E2 & C2 & N2)].
  - left. split_and!; [congruence|congruence| |].
    + intros He. destruct (P1 He) as (?&?&?), (P2 ltac:(congruence)) as (?&?&?). split_and!; congruence.
    + intros He Hq. apply Q2; [congruence|]. by apply Q1.
  - right. split_and!; [done|congruence|congruence].
  - right. split_and!; [congruence|congruence|done].
  - congruence.
Qed.

Lemma pops_nothing fin pb : frees_slots fin = false -> pops fin pb = pb.
Proof.
  unfold pops. revert pb. induction fin as [|j fin IH]; intros pb; [done|]. simpl.
  intros [Hj Hf]%orb_false_iff. apply negb_false_iff in Hj. rewrite Hj. by apply IH.
Qed.

Lemma wakes_update c : wakes (cdma c) (cdma (update_cdma_locked c)).
Proof.
  destruct (split_finished (sps c) (sync_queue (cdma c))) as [fin rest] eqn:Es.
  rewrite (update_eq c fin rest Es). cbv zeta. simpl.
  destruct (update_signals fin rest (event (cdma c))) eqn:Eu; unfold update_signals in Eu.
  - right. simpl. split_and!; [done|done|]. intros He. rewrite He in Eu.
    rewrite andb_false_r in Eu. done.
  - left. simpl. apply orb_false_iff in Eu as [E1 E2]. split_and!; [done|done| |].
    + intros He. rewrite He, bool_decide_eq_true_2, andb_true_r in E1 by done.
      rewrite (pops_nothing _ _ E1). by split_and!.
    + intros He _. rewrite He, bool_decide_eq_true_2 in E2 by done.
      by apply bool_decide_eq_false in E2.
Qed.

Lemma wakes_resume getptr d : wakes d (cdma_resume getptr d).
Proof. unfold cdma_resume, cdma_timeout_restart. simpl. destruct (running d); by apply wakes_ext. Qed.

Lemma wakes_handler wide c c' : cdma_timeout_handler wide c = Some c' -> wakes (cdma c) (cdma c').
Proof.
  unfold cdma_timeout_handler. destruct (tmo_client (timeout (cdma c))); [|intros [= <-]; by apply wakes_ext].
  cbn [host1x_syncpt_load]. destruct (0 <=? _); [intros [= <-]; by apply wakes_ext|].
  set (c1 := upd cdma_freeze _).
  assert (H1 : wakes (cdma c) (cdma c1)).
  { unfold c1. simpl. unfold cdma_freeze. simpl. destruct (_ && _); by apply wakes_ext. }
  intros E. eapply wakes_trans; [exact H1|]. clearbody c1. clear c H1.
  unfold host1x_cdma_update_sync_queue in E. cbn [host1x_syncpt_load] in E.
  set (c2 := set_sp _ _ c1) in E. change (cdma c1) with (cdma c2). clearbody c2.
  destruct (skip_completed _ _) as [dn jobs] eqn:Es. apply skip_completed_app in Es.
  destruct jobs as [|job rest]; [injection E as <-; apply wakes_resume|].
  destruct (syncpt_recovery job).
  - injection E as <-. simpl. eapply wakes_trans; [|apply wakes_resume].
    rewrite iter_incr_cdma. simpl. left. simpl. split_and!; try done. intros _ _. by destruct dn.
  - destruct (cancel_rest _ _ _ _) as [[rest' m']|]; [|done]. injection E as <-. simpl.
    eapply wakes_trans; [|apply wakes_resume]. eapply wakes_trans; [|apply wakes_update]. simpl.
    left. simpl. split_and!; try done. intros _ _. by destruct dn.
Qed.

Lemma wake_inv_wakes c c' p t :
  wakes (cdma c) (cdma c') -> wake_inv (mk_world c p t) -> wake_inv (mk_world c' p t).
Proof.
  intros [(E & C & P & Q)|(E & C & Hn)] [K1 K2 K3]; simpl in *.
  - split; simpl; rewrite ?E, ?C; [done| |].
    + intros He. auto.
    + intros He. destruct (K3 He) as (s & Hs & Hlt). exists s. split; [done|].
      destruct (same_ring_needed _ _ s (P He)) as [-> ->]. done.
  - split; simpl; rewrite ?E, ?C; try done. unfold sleepers in *. simpl in *.
    rewrite decide_False in K1 by done. lia.
Qed.

(** A submitter that is not held up: nobody waits for space. *)
Lemma not_space w : wake_inv w -> waiting (sub w) = None -> event (cdma (ch w)) <> CDMA_EVENT_PUSH_BUFFER_SPACE.
Proof. intros [_ _ H3] Hw He. destruct (H3 He) as (s & Hs & _). congruence. Qed.

Lemma space_nonneg pb : 0 <= host1x_pushbuffer_space pb.
Proof. unfold host1x_pushbuffer_space. apply Z.div_pos; [|done]. apply Z.mod_pos_bound. done. Qed.

Lemma flush_keeps d :
  event (cdma_flush d) = event d /\ completions (cdma_flush d) = completions d /\
  sync_queue (cdma_flush d) = sync_queue d /\ push_buf (cdma_flush d) = push_buf d.
Proof. unfold cdma_flush. by destruct (_ =? _). Qed.

Lemma begin_keeps job c c' :
  host1x_cdma_begin job c = (0, c') ->
  event (cdma c') = event (cdma c) /\ completions (cdma c') = completions (cdma c) /\
  sync_queue (cdma c') = sync_queue (cdma c).
Proof.
  unfold host1x_cdma_begin, cdma_start. destruct (locked _); [done|]. intros [= <-].
  destruct (_ && _); simpl; destruct (running (cdma c)) eqn:Er; simpl; by rewrite ?Er.
Qed.

Lemma push_words_keeps a b d d' :
  push_words a b d = Some d' ->
  event d' = event d /\ completions d' = completions d /\ sync_queue d' = sync_queue d.
Proof. unfold push_words. destruct (host1x_pushbuffer_push _ _ _); [|done]. by intros [= <-]. Qed.

Lemma push_wide_keeps a b e f d :
  push_wide a b e f d = None \/
  exists d', push_wide a b e f d = Some d' /\
    event d' = event d /\ completions d' = completions d /\ sync_queue d' = sync_queue d.
Proof.
  unfold push_wide. cbv zeta. set (d0 := set_slots _ _ d).
  assert (H0 : event d0 = event d /\ completions d0 = completions d /\ sync_queue d0 = sync_queue d) by done.
  clearbody d0. destruct (if 0 <? _ then _ else _) as [d1|] eqn:E1; [|by left].
  assert (H1 : event d1 = event d0 /\ completions d1 = completions d0 /\ sync_queue d1 = sync_queue d0)
    by (destruct (0 <? _); [by apply push_words_keeps in E1|by injection E1 as <-]).
  cbn [mbind option_bind]. destruct (push_words a b d1) as [d2|] eqn:E2; [|by left].
  apply push_words_keeps in E2. cbn [mbind option_bind].
  destruct (push_words e f d2) as [d3|] eqn:E3; [|by left]. apply push_words_keeps in E3.
  right. exists d3. split; [done|]. destruct_and!. split_and!; congruence.
Qed.

(** Steps of a submitter for whom nobody waits. *)
Lemma wake_inv_sub c c' p p' t :
  wake_inv (mk_world c p t) -> event (cdma c) <> CDMA_EVENT_PUSH_BUFFER_SPACE ->
  event (cdma c') = event (cdma c) -> completions (cdma c') = completions (cdma c) ->
  (sync_queue (cdma c) <> [] -> sync_queue (cdma c') <> []) ->
  (forall s, p <> Sleeping s) -> (forall s, p' <> Sleeping s) -> wake_inv (mk_world c' p' t).
Proof.
  intros [K1 K2 K3] Hne E C Q Hp Hp'. unfold sleepers in K1. simpl in *.
  split; unfold sleepers; simpl; rewrite ?E, ?C; [|by auto|done].
  rewrite <- K1. destruct p, p'; try done; first [by edestruct Hp|by edestruct Hp'].
Qed.

(** A round of the wait: the rest of the push, and then the event is not for the
    submitter; or it waits. *)
Lemma wake_inv_wait c s c' p t :
  wake_inv (mk_world c (InWait s) t) -> wait_iter s c = Some (c', p) -> wake_inv (mk_world c' p t).
Proof.
  intros Hi E.
  assert (Hgo : forall d cmd rest, needed s (push_buf (cdma c)) <= host1x_pushbuffer_space (push_buf (cdma c)) ->
    event d = event (cdma c) -> completions d = completions (cdma c) -> sync_queue d = sync_queue (cdma c) ->
    wake_inv (mk_world (upd (fun _ => d) c) (Pushing (pushed cmd rest s)) t)).
  { intros d cmd rest Hsp E1 E2 E3. eapply (wake_inv_sub c _ (InWait s)); [exact Hi| |exact E1|exact E2| |done|done].
    - intros He. destruct (wk_space _ Hi He) as (s' & [= <-] & Hlt). simpl in Hlt. lia.
    - simpl. by rewrite E3. }
  assert (Hwait : forall c1, host1x_pushbuffer_space (push_buf (cdma c)) < needed s (push_buf (cdma c)) ->
    event (cdma c1) = event (cdma c) -> completions (cdma c1) = completions (cdma c) ->
    sync_queue (cdma c1) = sync_queue (cdma c) -> push_buf (cdma c1) = push_buf (cdma c) ->
    (if bool_decide (event (cdma c1) = CDMA_EVENT_NONE)
     then Some (upd (set_event CDMA_EVENT_PUSH_BUFFER_SPACE) c1, Sleeping s)
     else Some (c1, Yielded s)) = Some (c', p) -> wake_inv (mk_world c' p t)).
  { intros c1 Hlt E1 E2 E3 E4 Ew. destruct Hi as [K1 K2 K3]. unfold sleepers in K1. simpl in *. rewrite E1 in Ew.
    destruct (bool_decide_reflect (event (cdma c) = CDMA_EVENT_NONE)) as [He|He]; injection Ew as <- <-;
      split; unfold sleepers; simpl; rewrite ?E1, ?E2, ?E3, ?E4; try done.
    - rewrite decide_True in K1 by done. lia.
    - intros _. by exists s. }
  unfold wait_iter in E. destruct (todo s) as [|[a b|a b e f] rest] eqn:Et; [done| |].
  - assert (En : needed s (push_buf (cdma c)) = 1) by (unfold needed; by rewrite Et).
    destruct (Z.eqb_spec (host1x_pushbuffer_space (push_buf (cdma c))) 0) as [H0|H0].
    + eapply Hwait; [lia|done|done|done|done|exact E].
    + unfold push_narrow, push_words in E. destruct (host1x_pushbuffer_push _ _ _); [|done].
      injection E as <- <-. apply Hgo; [rewrite En|done|done|done].
      pose proof (space_nonneg (push_buf (cdma c))). lia.
  - assert (En : needed s (push_buf (cdma c)) = wide_needed (push_buf (cdma c))) by (unfold needed; by rewrite Et).
    destruct (Z.ltb_spec (host1x_pushbuffer_space (push_buf (cdma c))) (wide_needed (push_buf (cdma c)))).
    + eapply (Hwait (upd cdma_flush c)); [lia| | | | |exact E]; by destruct (flush_keeps (cdma c)) as (?&?&?&?).
    + destruct (push_wide_keeps a b e f (cdma c)) as [Ek|(d & Ek & E1 & E2 & E3)]; rewrite Ek in E; [done|].
      injection E as <- <-. apply Hgo; [lia|done|done|done].
Qed.

Lemma wake_step wide w w' : wake_inv w -> cstep wide w w' -> wake_inv w'.
Proof.
  intros Hi Hst.
  destruct Hst as [c t job cmds c' _ Hp Hc Hd Hb|c t s c' p E|c t s c' p E|c t s _|c t s n _ En|c t job
    |c p t _|c p t c' d _ _ E|c p t _ ->|c p c' t' E|c p c' t' E|c p _|c p n _ En|c p t i v|c p t i|c p t i n].
  - pose proof (not_space _ Hi eq_refl) as Hn. simpl in Hn. destruct (begin_keeps _ _ _ Hb) as (E1 & E2 & E3).
    eapply (wake_inv_sub c _ Idle); [exact Hi|exact Hn|exact E1|exact E2|by rewrite E3|done|done].
  - pose proof (not_space _ Hi eq_refl) as Hn. simpl in Hn. unfold push_start in E.
    destruct (todo s) as [|[a b|a b e f] rest] eqn:Et; [done| |].
    + destruct (slots_free (cdma c) =? 0).
      * injection E as <- <-. eapply (wake_inv_sub c _ (Pushing s)); [exact Hi|exact Hn| | | |done|done];
          simpl; by destruct (flush_keeps (cdma c)) as (E1 & E2 & E3 & E4); rewrite ?E3.
      * unfold push_narrow, push_words in E. destruct (host1x_pushbuffer_push _ _ _); [|done].
        injection E as <- <-. by eapply (wake_inv_sub c _ (Pushing s)).
    + injection E as <- <-. by eapply (wake_inv_sub c _ (Pushing s)).
  - by eapply wake_inv_wait.
  - destruct Hi as [K1 K2 K3]. by split.
  - destruct Hi as [K1 K2 K3]. unfold sleepers in K1. simpl in *. split; unfold sleepers; simpl; try done.
    rewrite En in K1. lia.
  - pose proof (not_space _ Hi eq_refl) as Hn. simpl in Hn.
    eapply (wake_inv_sub c _ (Pushing (mk_sub job []))); [exact Hi|exact Hn| | | |done|done].
    all: unfold host1x_cdma_end; cbv zeta; destruct (_ && _); simpl; unfold cdma_start_timer_locked;
      repeat case_match; simpl; unfold cdma_flush; cbv zeta; repeat case_match; simpl; try done.
    all: intros _ He; by apply app_eq_nil in He as [_ ?].
  - by eapply wake_inv_wakes; [apply wakes_update|].
  - eapply wake_inv_wakes; [|exact Hi]. eapply wakes_trans; [|by eapply wakes_handler]. by apply wakes_ext.
  - destruct Hi as [K1 K2 K3]. by split.
  - unfold stop_start in E. destruct (running (cdma c)); injection E as <- <-; destruct Hi as [K1 K2 K3]; by split.
  - destruct Hi as [K1 K2 K3]. unfold sleepers in K1. simpl in *. unfold stop_iter in E.
    destruct (bool_decide_reflect (sync_queue (cdma c) = [])) as [|Hq]; [injection E as <- <-; by split|].
    destruct (bool_decide_reflect (event (cdma c) = CDMA_EVENT_NONE)) as [He|He]; injection E as <- <-; [|by split].
    split; unfold sleepers; simpl; try done. rewrite decide_True in K1 by done. lia.
  - destruct Hi as [K1 K2 K3]. by split.
  - destruct Hi as [K1 K2 K3]. unfold sleepers in K1. simpl in *. split; unfold sleepers; simpl; try done.
    rewrite En in K1. destruct p; simpl in *; lia.
  - destruct Hi as [K1 K2 K3]. by split.
  - destruct Hi as [K1 K2 K3]. by split.
  - destruct Hi as [K1 K2 K3]. by split.
Qed.

Lemma init_wake pb sp lv : wake_inv (init_world pb sp lv).
Proof. by split. Qed.

Lemma reachable_wake wide pb sp lv w : rtc (cstep wide) (init_world pb sp lv) w -> wake_inv w.
Proof.
  intros Hs. apply (rtc_preserves (cstep wide) wake_inv _ _ Hs); [by apply init_wake|].
  intros x y Hx Hxy. by eapply wake_step.
Qed.

(** * Waking *)

(** The rest of the submission's next command fits into an empty ring. *)
Definition fits (w : world) (s : submission) : Prop :=
  current_slots w + needed s (push_buf (cdma (ch w))) <= HOST1X_PUSHBUFFER_SLOTS - 1.

Lemma split_finished_all sp jobs : Forall (fun j => finished sp j = true) jobs -> split_finished sp jobs = (jobs, []).
Proof. induction 1 as [|j jobs Hj _ IH]; simpl; [done|]. by rewrite Hj, IH. Qed.

Lemma frees_none jobs : frees_slots jobs = false -> queue_slots jobs = 0.
Proof.
  induction jobs as [|j jobs IH]; [done|]. cbn [frees_slots existsb queue_slots foldr].
  intros [Hj%negb_false_iff%Z.eqb_eq Hf]%orb_false_iff. specialize (IH Hf). unfold queue_slots in IH. lia.
Qed.

(** An update after all jobs have finished, with a submitter that waits. *)
Lemma update_wakes c s p t :
  cdma_inv (mk_world c p t) -> wake_inv (mk_world c p t) -> waiting p = Some s -> fits (mk_world c p t) s ->
  Forall (fun j => finished (sps c) j = true) (sync_queue (cdma c)) ->
  event (cdma (update_cdma_locked c)) = CDMA_EVENT_NONE /\ sync_queue (cdma (update_cdma_locked c)) = [].
Proof.
  intros Hi Hk Hw Hfit Hall. rewrite (update_eq c _ _ (split_finished_all _ _ Hall)). cbv zeta. simpl.
  destruct (update_signals (sync_queue (cdma c)) [] (event (cdma c))) eqn:Eu; simpl; [done|].
  split; [|done]. unfold update_signals in Eu. apply orb_false_iff in Eu as [E1 E2].
  destruct (event (cdma c)) eqn:Ee; [done|discriminate E2|]. exfalso.
  rewrite bool_decide_eq_true_2, andb_true_r in E1 by done.
  destruct (wk_space _ Hk Ee) as (s' & Hs' & Hlt). simpl in Hs', Hlt. rewrite Hw in Hs'. injection Hs' as <-.
  pose proof (inv_account _ Hi) as Ha. unfold fits in Hfit. simpl in Ha, Hfit.
  apply frees_none in E1. lia.
Qed.

(** With an empty queue a waiting submission goes on. *)
Lemma wait_proceeds c s t :
  cdma_inv (mk_world c (InWait s) t) -> fits (mk_world c (InWait s) t) s -> sync_queue (cdma c) = [] ->
  todo s <> [] -> exists c' cmd rest, wait_iter s c = Some (c', Pushing (pushed cmd rest s)).
Proof.
  intros Hi Hfit Hq Ht. pose proof (inv_account _ Hi) as Ha. unfold fits in Hfit. simpl in Ha, Hfit.
  rewrite Hq in Ha. simpl in Ha.
  destruct (wait_iter_inv c s Hi Ht) as (c' & p' & E & _). rewrite E. unfold wait_iter, needed in *.
  destruct (todo s) as [|[a b|a b e f] rest]; [done| |].
  - rewrite (proj2 (Z.eqb_neq _ _)) in E by lia. unfold push_narrow in E.
    destruct (push_words _ _ _); [|done]. injection E as <- <-. by eexists _, _, _.
  - rewrite (proj2 (Z.ltb_ge _ _)) in E by lia.
    destruct (push_wide _ _ _ _ _); [|done]. injection E as <- <-. by eexists _, _, _.
Qed.

(** A submitter that waits has a command to push. *)
Definition waits_to_push (w : world) : Prop := forall s, waiting (sub w) = Some s -> todo s <> [].

Lemma waits_step wide w w' : waits_to_push w -> cstep wide w w' -> waits_to_push w'.
Proof.
  unfold waits_to_push. intros Hi Hst.
  destruct Hst as [| c t s c' p E | c t s c' p E | | | | | | | | | | | | |]; simpl in *; try done.
  - unfold push_start in E. destruct (todo s) as [|[a b|a b e f] rest] eqn:Et; [done| |].
    + destruct (_ =? 0); [injection E as _ <-; intros s' [= <-]; by rewrite Et|].
      destruct (push_narrow _ _ _ _); [|done]. by injection E as _ <-.
    + injection E as _ <-. intros s' [= <-]. by rewrite Et.
  - specialize (Hi s eq_refl). intros s' Hs'. enough (s' = s) as -> by done.
    unfold wait_iter in E. destruct (todo s) as [|[a b|a b e f] rest]; [done| |].
    all: destruct (_ : bool) in E;
      [destruct (bool_decide _); injection E as _ <-; by injection Hs'|].
    all: destruct (_ : option host1x_cdma) in E; [|done]; by injection E as _ <-.
Qed.

Lemma reachable_waits wide pb sp lv w : rtc (cstep wide) (init_world pb sp lv) w -> waits_to_push w.
Proof. intros Hs. apply (rtc_preserves (cstep wide) waits_to_push _ _ Hs); [done|]. intros x y Hx. by apply waits_step. Qed.

(** An update keeps the position, so that the same slots are needed after it. *)
Lemma update_fits c p t s f segs cur :
  queue_repr (cdma c) f segs cur -> p <> Idle -> fits (mk_world c p t) s ->
  forall q, q <> Idle -> fits (mk_world (update_cdma_locked c) q t) s.
Proof.
  intros Hq Hp Hf q Hn. destruct (update_repr c f segs cur Hq) as (f' & segs' & Hq' & _ & [U _ _ P] & _).
  unfold fits, current_slots, needed, wide_needed, wide_extra in *. simpl in *.
  rewrite (pr_size _ _ _ (qr_ring _ _ _ _ Hq')), P. rewrite (pr_size _ _ _ (qr_ring _ _ _ _ Hq)) in Hf.
  destruct p; [done|..]; (destruct q; [done|..]); rewrite ?U; exact Hf.
Qed.

(** C26. No wakeup is lost.  While a submitter sleeps until there is space in the push
    buffer, the completion has been signalled; or the event says that somebody waits for
    space, of which there really is too little for the submitter; or it says that
    somebody waits for an empty queue, and the queue is not empty.  And once all queued
    jobs have finished, the next update signals the completion for every thread that
    sleeps, and the submitter then finds the space it needs, if its submission so far
    and its next command fit into an empty ring; otherwise it never does
    ([hung_forever], [large_submission_hangs]). *)
Theorem sleeper_correct wide pb sp lv w s :
  pb_repr pb 0 [] -> rtc (cstep wide) (init_world pb sp lv) w -> sub w = Sleeping s ->
  let d := cdma (ch w) in
  let c' := update_cdma_locked (ch w) in
  ((0 < completions d)%nat \/
   (event d = CDMA_EVENT_PUSH_BUFFER_SPACE /\ host1x_pushbuffer_space (push_buf d) < needed s (push_buf d)) \/
   (event d = CDMA_EVENT_SYNC_QUEUE_EMPTY /\ sync_queue d <> [])) /\
  (Forall (fun j => finished (sps (ch w)) j = true) (sync_queue d) -> fits w s ->
   completions (cdma c') = sleepers w /\
   exists n c'' cmd rest, sleepers w = S n /\
     wait_iter s (upd (set_completions n) c') = Some (c'', Pushing (pushed cmd rest s))).
Proof.
  intros Hp Hs Hw. pose proof (reachable_cdma_inv _ _ _ _ _ Hp Hs) as Hi.
  pose proof (reachable_wake _ _ _ _ _ Hs) as Hk. pose proof (reachable_waits _ _ _ _ _ Hs) as Ht.
  destruct w as [c p t]. simpl in Hw. subst p. cbv zeta. simpl. specialize (Ht s eq_refl).
  split.
  - destruct Hk as [K1 K2 K3]. unfold sleepers in K1. simpl in *.
    destruct (event (cdma c)); [left; simpl in K1; lia| |]; right; [right|left].
    + split; [done|]. by apply K2.
    + split; [done|]. by destruct (K3 eq_refl) as (s' & [= <-] & Hlt).
  - intros Hall Hfit.
    destruct (update_wakes c s _ t Hi Hk eq_refl Hfit Hall) as [Ee Eq].
    assert (Hk2 : wake_inv (mk_world (update_cdma_locked c) (Sleeping s) t)).
    { by eapply wake_inv_wakes; [apply wakes_update|]. }
    pose proof (wk_count _ Hk2) as Hc. simpl in Hc. rewrite Ee in Hc. simpl in Hc. rewrite Nat.add_0_r in Hc.
    split; [by rewrite <- Hc|].
    set (n := match t with StopSleeping => 1%nat | _ => 0%nat end).
    assert (Hi' : chan_inv (upd (set_completions n) (update_cdma_locked c)) (InWait s)).
    { eapply (benign_inv (update_cdma_locked c)); [apply benign_ext; auto; by split|].
      eapply (benign_inv c _ (InWait s)); [apply benign_update|exact Hi]. }
    assert (Hf' : fits (mk_world (upd (set_completions n) (update_cdma_locked c)) (InWait s) t) s).
    { destruct Hi as (f & segs & cur & Hq & _).
      exact (update_fits c (Sleeping s) t s f segs cur Hq ltac:(done) Hfit (InWait s) ltac:(done)). }
    destruct (wait_proceeds _ s t Hi' Hf' Eq Ht) as (c'' & cmd & rest & E).
    exists n, c'', cmd, rest. by split.
Qed.

(** * Submissions that are too large *)

(** The submitter waits for space although no job is queued. *)
Definition hung (w : world) : Prop :=
  (exists s, sub w = Sleeping s) /\ sync_queue (cdma (ch w)) = [] /\
  event (cdma (ch w)) = CDMA_EVENT_PUSH_BUFFER_SPACE /\ completions (cdma (ch w)) = 0%nat.

Lemma handler_empty wide c c' :
  cdma_timeout_handler wide c = Some c' -> sync_queue (cdma c) = [] ->
  sync_queue (cdma c') = [] /\ event (cdma c') = event (cdma c) /\ completions (cdma c') = completions (cdma c).
Proof.
  unfold cdma_timeout_handler. destruct (tmo_client (timeout (cdma c))); [|by intros [= <-]].
  cbn [host1x_syncpt_load]. destruct (0 <=? _); [by intros [= <-]|]. intros E Hq.
  unfold host1x_cdma_update_sync_queue in E. cbn [host1x_syncpt_load] in E.
  assert (Hf : forall d, sync_queue (cdma_freeze d) = sync_queue d /\ event (cdma_freeze d) = event d /\
    completions (cdma_freeze d) = completions d) by (intros d; unfold cdma_freeze; by destruct (_ && _)).
  cbn [cdma upd set_sp] in E. destruct (Hf (cdma_hw_cmdproc_stop true (cdma c))) as (F1 & F2 & F3).
  rewrite F1 in E. change (sync_queue (cdma_hw_cmdproc_stop true (cdma c))) with (sync_queue (cdma c)) in E.
  rewrite Hq in E. injection E as <-. simpl. unfold cdma_resume, cdma_timeout_restart.
  simpl. destruct (running _); simpl; rewrite ?F1, ?F2, ?F3; by rewrite ?Hq.
Qed.

(** Such a submitter sleeps forever: whatever updates, timeouts, completions of the
    hardware and stops follow, it is never woken. *)
Lemma hung_forever wide w w' : hung w -> rtc (cstep wide) w w' -> hung w' /\ sub w' = sub w.
Proof.
  intros Hh Hs. apply (rtc_preserves (cstep wide) (fun w' => hung w' /\ sub w' = sub w) _ _ Hs); [done|].
  clear Hs w'. intros x y [((s & Hsub) & Hq & He & Hc) E] Hst. rewrite <- E. clear E Hh w. unfold hung.
  destruct Hst as [| | | |c t s' n _ En| |c p t _|c p t c' d _ _ E| |c p c' t' E|c p c' t' E| |c p n _ En| | |];
    simpl in *; try done; try (by split_and!; try done; eexists).
  - congruence.
  - rewrite (update_eq c [] []) by by rewrite Hq. unfold update_signals. simpl.
    rewrite He. simpl. by split_and!; try done; eexists.
  - apply handler_empty in E as (E1 & E2 & E3); [|done]. simpl in *.
    split_and!; try congruence. by eexists.
  - unfold stop_start in E. destruct (running (cdma c)); injection E as <- <-; by split_and!; try done; eexists.
  - unfold stop_iter in E. rewrite Hq in E. simpl in E. injection E as <- <-. simpl.
    by split_and!; try done; eexists.
  - congruence.
Qed.

Lemma push_narrow_keeps a b free d d' :
  push_narrow a b free d = Some d' ->
  event d' = event d /\ completions d' = completions d /\ sync_queue d' = sync_queue d /\
  slots_used d' = slots_used d + 1.
Proof.
  unfold push_narrow, push_words. destruct (host1x_pushbuffer_push _ _ _); [|done]. by intros [= <-].
Qed.

(** Pushing more than there is room for. *)
Lemma pushes_sleep wide t : forall n c s,
  chan_inv c (Pushing s) -> todo s = replicate n (Push 0 0) ->
  host1x_pushbuffer_space (push_buf (cdma c)) < Z.of_nat n ->
  event (cdma c) = CDMA_EVENT_NONE -> completions (cdma c) = 0%nat ->
  exists c' s', rtc (cstep wide) (mk_world c (Pushing s) t) (mk_world c' (Sleeping s') t) /\
    sync_queue (cdma c') = sync_queue (cdma c) /\ sps c' = sps c /\
    event (cdma c') = CDMA_EVENT_PUSH_BUFFER_SPACE /\ completions (cdma c') = 0%nat /\
    host1x_pushbuffer_space (push_buf (cdma c')) = 0 /\ needed s' (push_buf (cdma c')) = 1.
Proof.
  induction n as [|n IH]; intros c s Hi Et Hlt He Hc; [pose proof (space_nonneg (push_buf (cdma c))); lia|].
  assert (Hne : todo s <> []) by by rewrite Et.
  assert (Hnext : forall c1 d, chan_inv (upd (fun _ => d) c1) (Pushing (pushed (Push 0 0) (replicate n (Push 0 0)) s)) ->
    event d = event (cdma c) -> completions d = completions (cdma c) -> sync_queue d = sync_queue (cdma c) ->
    slots_used d = slots_used (cdma c) + 1 -> sps c1 = sps c ->
    exists c' s', rtc (cstep wide) (mk_world (upd (fun _ => d) c1)
        (Pushing (pushed (Push 0 0) (replicate n (Push 0 0)) s)) t) (mk_world c' (Sleeping s') t) /\
      sync_queue (cdma c') = sync_queue (cdma c) /\ sps c' = sps c /\
      event (cdma c') = CDMA_EVENT_PUSH_BUFFER_SPACE /\ completions (cdma c') = 0%nat /\
      host1x_pushbuffer_space (push_buf (cdma c')) = 0 /\ needed s' (push_buf (cdma c')) = 1).
  { intros c1 d Hd E1 E2 E3 E4 E5. rewrite <- E3, <- E5. apply (IH (upd (fun _ => d) c1)); simpl; try done; try congruence.
    pose proof (inv_account (mk_world _ _ t) Hi) as A1. pose proof (inv_account (mk_world _ _ t) Hd) as A2.
    unfold current_slots in A1, A2. simpl in A1, A2. rewrite E3, E4 in A2. lia. }
  destruct (push_start_inv c s Hi Hne) as (c1 & p1 & E & Hi1). pose proof (step_push wide c t s c1 p1 E) as Hst.
  unfold push_start in E. rewrite Et in E. cbn [replicate] in E. destruct (Z.eqb_spec (slots_free (cdma c)) 0) as [H0|H0].
  - injection E as <- <-. destruct (wait_iter_inv _ s Hi1 Hne) as (c2 & p2 & E & Hi2).
    pose proof (step_wait wide _ t s c2 p2 E) as Hst2. destruct (flush_keeps (cdma c)) as (F1 & F2 & F3 & F4).
    assert (Fu : slots_used (cdma_flush (cdma c)) = slots_used (cdma c))
      by (unfold cdma_flush; by destruct (_ =? _)).
    unfold wait_iter in E. rewrite Et in E. cbn [replicate cdma upd] in E. rewrite F1, F4, He in E.
    destruct (Z.eqb_spec (host1x_pushbuffer_space (push_buf (cdma c))) 0).
    + injection E as <- <-. eexists _, s. split; [eapply rtc_l; [exact Hst|]; by eapply rtc_once|].
      unfold needed. rewrite Et. simpl. split_and!; congruence.
    + destruct (push_narrow _ _ _ _) as [d|] eqn:Ed; [|done]. injection E as <- <-.
      apply push_narrow_keeps in Ed as (E1 & E2 & E3 & E4).
      destruct (Hnext (upd cdma_flush c) d Hi2) as (c' & s' & Hw & Hh); try congruence; [done|].
      exists c', s'. split; [|done]. eapply rtc_l; [exact Hst|]. by eapply rtc_l.
  - destruct (push_narrow _ _ _ _) as [d|] eqn:Ed; [|done]. injection E as <- <-.
    apply push_narrow_keeps in Ed as (E1 & E2 & E3 & E4).
    destruct (Hnext c d Hi1) as (c' & s' & Hw & Hh); try congruence.
    exists c', s'. split; [|done]. by eapply rtc_l.
Qed.

(** From the start of a submission. *)
Lemma submission_sleeps wide c job n :
  chan_inv c Idle -> program job = [] -> cancelled job = false -> locked (sps c (job_syncpt job)) = false ->
  host1x_pushbuffer_space (push_buf (cdma c)) < Z.of_nat n ->
  event (cdma c) = CDMA_EVENT_NONE -> completions (cdma c) = 0%nat ->
  exists c' s', rtc (cstep wide) (mk_world c Idle StopIdle) (mk_world c' (Sleeping s') StopIdle) /\
    sync_queue (cdma c') = sync_queue (cdma c) /\ sps c' = sps c /\
    event (cdma c') = CDMA_EVENT_PUSH_BUFFER_SPACE /\ completions (cdma c') = 0%nat /\
    host1x_pushbuffer_space (push_buf (cdma c')) = 0 /\ needed s' (push_buf (cdma c')) = 1.
Proof.
  intros Hi Hprog Hcn Hl Hn He Hc.
  destruct (host1x_cdma_begin job c) as [err c'] eqn:Hb. pose proof Hb as Hb'. unfold host1x_cdma_begin in Hb'.
  rewrite Hl in Hb'. injection Hb' as <- Ec.
  assert (Hd : Forall (fun p => is_Some (decode_cmd p)) (replicate n (Push 0 0)))
    by (apply Forall_replicate; vm_compute; by eexists).
  pose proof (step_begin wide c StopIdle job (replicate n (Push 0 0)) c' ltac:(by split) Hprog Hcn Hd Hb) as Hst.
  pose proof (begin_inv c job _ c' Hi Hprog Hcn Hd Hb) as Hi'.
  destruct (begin_keeps _ _ _ Hb) as (E1 & E2 & E3).
  assert (Es : push_buf (cdma c') = push_buf (cdma c) /\ sps c' = sps c).
  { subst c'. simpl. unfold cdma_start. destruct (_ && _); simpl; destruct (running (cdma c)) eqn:Er; simpl; by rewrite ?Er. }
  destruct Es as [Es1 Es2].
  destruct (pushes_sleep wide StopIdle n c' (mk_sub job (replicate n (Push 0 0))) Hi' eq_refl)
    as (c2 & s' & Hw & H1 & H2 & H3); try congruence.
  exists c2, s'. split; [by eapply rtc_l|]. split; [congruence|]. split; [congruence|done].
Qed.

(** A submission of more than 1022 commands hangs on an idle channel. *)
Lemma large_submission_hangs wide pb sp lv job n :
  pb_repr pb 0 [] -> program job = [] -> cancelled job = false -> locked (sp (job_syncpt job)) = false ->
  (HOST1X_PUSHBUFFER_SLOTS <= Z.of_nat n) ->
  exists w, rtc (cstep wide) (init_world pb sp lv) w /\ hung w.
Proof.
  intros Hp Hprog Hcn Hl Hn.
  destruct (submission_sleeps wide (mk_chan (host1x_cdma_init pb) sp lv []) job n) as (c' & s' & Hw & H1 & H2 & H3 & H4 & _);
    try done; [by apply (init_inv pb sp lv)| |].
  - simpl. rewrite (space_ok _ _ _ Hp). simpl. lia.
  - exists (mk_world c' (Sleeping s') StopIdle). split; [done|]. split_and!; [by eexists|done..].
Qed.

(** A submission of 1022 commands behind a queued job, which then finishes. *)
Lemma sleeper_correct_witness :
  exists w s, rtc (cstep true) (init_world example_pb example_sp (fun _ => 0)) w /\ sub w = Sleeping s /\
    sync_queue (cdma (ch w)) <> [] /\ completions (cdma (update_cdma_locked (ch w))) = 1%nat /\
    exists c'' cmd rest, wait_iter s (upd (set_completions 0) (update_cdma_locked (ch w))) =
      Some (c'', Pushing (pushed cmd rest s)).
Proof.
  assert (H : exists c, submit (example_job 1 0 1) [Push 0 0] (ch (init_world example_pb example_sp (fun _ => 0))) = Some c /\
    event (cdma c) = CDMA_EVENT_NONE /\ completions (cdma c) = 0%nat /\ locked (sps c 0%nat) = false /\
    host1x_pushbuffer_space (push_buf (cdma c)) = 1021 /\
    exists j, sync_queue (cdma c) = [j] /\ job_syncpt j = 0%nat /\ job_end j = 1 /\ num_slots j = 1).
  { eexists. split; [vm_compute; reflexivity|]. split_and!; [vm_compute; reflexivity..|]. eexists. by split_and!. }
  destruct H as (c & Ec & He & Hc & Hl & Hsp & j & Eq & Ej & Ee & En).
  assert (Hs : rtc (cstep true) (init_world example_pb example_sp (fun _ => 0)) (mk_world c Idle StopIdle)).
  { eapply submit_steps; [exact Ec|done|done|]. repeat constructor. vm_compute. by eexists. }
  pose proof (reachable_cdma_inv _ _ _ _ _ example_pb_ok Hs) as Hi.
  destruct (submission_sleeps true c (example_job 2 0 2) 1022 Hi eq_refl eq_refl Hl) as (c' & s & Hw & H1 & H2 & H3 & H4 & H5 & H6);
    [rewrite Hsp; done|done|done|].
  set (c1 := snd (host1x_syncpt_load 0 (set_live 0 1 c'))).
  assert (Hs1 : rtc (cstep true) (init_world example_pb example_sp (fun _ => 0)) (mk_world c1 (Sleeping s) StopIdle)).
  { etrans; [exact Hs|]. etrans; [exact Hw|]. eapply rtc_l; [by apply (step_live _ _ _ _ 0%nat 1)|]. apply rtc_once, step_load. }
  destruct (sleeper_correct true example_pb example_sp (fun _ => 0) _ s example_pb_ok Hs1 eq_refl) as [_ Hwake].
  destruct Hwake as (W1 & n & c'' & cmd & rest & W2 & W3).
  - simpl. rewrite H1, Eq. constructor; [|constructor]. unfold finished. rewrite Ej, Ee.
    unfold set_sp. cbn [sps set_live]. by rewrite fn_lookup_insert.
  - pose proof (inv_account _ (reachable_cdma_inv _ _ _ _ _ example_pb_ok Hs1)) as Ha.
    unfold fits, current_slots in *. cbn [sub ch] in *. change (cdma c1) with (cdma c') in *.
    rewrite H6. rewrite H1, Eq, H5 in Ha. cbn [queue_slots foldr] in Ha. rewrite En in Ha. lia.
  - exists (mk_world c1 (Sleeping s) StopIdle), s. injection W2 as <-. split_and!; [done|done| |done|].
    + cbn [ch]. change (cdma c1) with (cdma c'). by rewrite H1, Eq.
    + by exists c'', cmd, rest.
Defined.
