(* ===== verification/Host1xProgram.v ===== *)
(** What is pushed for a host1x job, and what the hardware does with it
    (src/drivers/gpu/host1x/hw/channel_hw.c, with hw/opcodes.h and the class registers).

    [channel_program_cdma] turns a job into pushes.  [decode_op] gives the commands their
    meaning, with the fields as hw/debug_hw.c prints them; [program_decodes] shows that
    the pushes are well-formed and mean what [job_events] says.  [HOST1X_HW], the
    version of the hardware, is a variable. *)
From S2P Require Import Prelude Host1xJob Host1xSyncFacts Host1xPushbuf Host1xSyncpt Host1xCdma Host1xCdmaInv Host1xCdmaFacts.

(** * Opcodes *)
Definition host1x_opcode_setclass (class_id offset mask : Z) : Z :=
  u32 (Z.lor (Z.lor (Z.shiftl offset 16) (Z.shiftl class_id 6)) mask).
Definition host1x_opcode_incr (offset count : Z) : Z :=
  u32 (Z.lor (Z.lor (Z.shiftl 1 28) (Z.shiftl offset 16)) count).
Definition host1x_opcode_nonincr (offset count : Z) : Z :=
  u32 (Z.lor (Z.lor (Z.shiftl 2 28) (Z.shiftl offset 16)) count).
Definition host1x_opcode_gather (count : Z) : Z := Z.lor (Z.shiftl 6 28) count.
Definition host1x_opcode_setstreamid (streamid : Z) : Z := Z.lor (Z.shiftl 7 28) streamid.
Definition host1x_opcode_setpayload (payload : Z) : Z := Z.lor (Z.shiftl 9 28) payload.
Definition host1x_opcode_gather_wide (count : Z) : Z := Z.lor (Z.shiftl 12 28) count.
Definition host1x_opcode_acquire_mlock (mlock : Z) : Z := Z.lor (Z.shiftl 14 28) mlock.
Definition host1x_opcode_release_mlock (mlock : Z) : Z :=
  Z.lor (Z.lor (Z.shiftl 14 28) (Z.shiftl 1 24)) mlock.
Definition HOST1X_OPCODE_NOP : Z := host1x_opcode_nonincr 0 0.

(** The registers of the host1x class. *)
Definition HOST1X_CLASS_HOST1X := 1.
Definition HOST1X_UCLASS_INCR_SYNCPT := 0.
Definition host1x_uclass_wait_syncpt_r := 8.
Definition HOST1X_UCLASS_LOAD_SYNCPT_BASE := 0xb.
Definition HOST1X_UCLASS_LOAD_SYNCPT_PAYLOAD_32 := 0x4e.
Definition HOST1X_UCLASS_INCR_SYNCPT_COND_F (v : Z) : Z := Z.shiftl (Z.land v 0xff) 10.
Definition HOST1X_UCLASS_INCR_SYNCPT_INDX_F (v : Z) : Z := Z.shiftl (Z.land v 0x3ff) 0.
Definition HOST1X_UCLASS_LOAD_SYNCPT_BASE_BASE_INDX_F (v : Z) : Z := Z.shiftl (Z.land v 0xff) 24.
Definition HOST1X_UCLASS_LOAD_SYNCPT_BASE_VALUE_F (v : Z) : Z := Z.shiftl (Z.land v 0xffffff) 0.
Definition host1x_class_host_wait_syncpt (indx threshold : Z) : Z :=
  Z.lor (Z.shiftl (Z.land indx 0xff) 24) (Z.shiftl (Z.land threshold 0xffffff) 0).

(** * The program of a job *)

(** The members of struct host1x_job that are used here. *)
Record submit_job := mk_sjob {
  sj_cmds : list host1x_job_cmd; sj_class : Z; syncpt_incrs : Z;
  memory_context : option Z; engine_fallback_streamid : Z; engine_streamid_offset : Z;
  serialize : bool }.

Section program.
Variable HOST1X_HW : Z.

Definition submit_wait (id threshold : Z) : list push_cmd :=
  if 2 <=? HOST1X_HW then
    [PushWide (host1x_opcode_setclass HOST1X_CLASS_HOST1X HOST1X_UCLASS_LOAD_SYNCPT_PAYLOAD_32 (Z.lor 1 4))
       threshold id HOST1X_OPCODE_NOP]
  else
    [Push (host1x_opcode_setclass HOST1X_CLASS_HOST1X host1x_uclass_wait_syncpt_r 1)
       (host1x_class_host_wait_syncpt id threshold)].

Definition job_streamid (job : submit_job) : Z :=
  match memory_context job with Some stream_id => stream_id | None => engine_fallback_streamid job end.

Definition submit_setclass (job : submit_job) (next_class : Z) : list push_cmd :=
  if 6 <=? HOST1X_HW then
    [PushWide (host1x_opcode_setclass next_class 0 0) (host1x_opcode_setpayload (job_streamid job))
       (host1x_opcode_setstreamid (engine_streamid_offset job / 4)) HOST1X_OPCODE_NOP]
  else [Push (host1x_opcode_setclass next_class 0 0) HOST1X_OPCODE_NOP].

Definition submit_gather (job : submit_job) (job_syncpt_base : Z) (cmd : host1x_job_cmd) : list push_cmd :=
  match cmd with
  | HOST1X_JOB_CMD_WAIT id threshold next_class relative =>
      let threshold := if relative then u32 (job_syncpt_base + threshold) else threshold in
      submit_wait id threshold ++ submit_setclass job next_class
  | HOST1X_JOB_CMD_GATHER g =>
      let addr := u64 (base g + offset g) in
      let op2 := u32 addr in
      let op3 := u32 (Z.shiftr addr 32) in
      if negb (op3 =? 0) then
        if 6 <=? HOST1X_HW
        then [PushWide (host1x_opcode_gather_wide (words g)) op2 op3 HOST1X_OPCODE_NOP]
        else []
      else [Push (host1x_opcode_gather (words g)) op2]
  | HOST1X_JOB_CMD_REG_WRITE reg value => [Push (host1x_opcode_incr (Z.shiftr reg 2) 1) value]
  end.

Definition submit_gathers (job : submit_job) (cmds : list host1x_job_cmd) (job_syncpt_base : Z) : list push_cmd :=
  cmds ≫= submit_gather job job_syncpt_base.

Definition synchronize_syncpt_base (sp : host1x_syncpt) (base_id : nat) : list push_cmd :=
  [Push (host1x_opcode_setclass HOST1X_CLASS_HOST1X HOST1X_UCLASS_LOAD_SYNCPT_BASE 1)
     (Z.lor (HOST1X_UCLASS_LOAD_SYNCPT_BASE_BASE_INDX_F (Z.of_nat base_id))
            (HOST1X_UCLASS_LOAD_SYNCPT_BASE_VALUE_F (max_val sp)))].

(** The leading waits for absolute thresholds, and the other commands. *)
Fixpoint split_prefences (cmds : list host1x_job_cmd) : list (Z * Z) * list host1x_job_cmd :=
  match cmds with
  | HOST1X_JOB_CMD_WAIT id threshold _ false :: rest =>
      let '(pre, rest) := split_prefences rest in ((id, threshold) :: pre, rest)
  | _ => ([], cmds)
  end.

(** An increment of the syncpoint once the engine is idle, and the wait for it. *)
Definition wait_idle (sp : host1x_syncpt) (fence : Z) : list push_cmd :=
  Push (host1x_opcode_nonincr HOST1X_UCLASS_INCR_SYNCPT 1)
    (Z.lor (HOST1X_UCLASS_INCR_SYNCPT_INDX_F (id sp)) (HOST1X_UCLASS_INCR_SYNCPT_COND_F 4)) ::
  submit_wait (id sp) fence.

Definition prefences (pre : list (Z * Z)) : list push_cmd :=
  match pre with
  | [] => []
  | _ =>
      PushWide (host1x_opcode_acquire_mlock 1) (host1x_opcode_setclass 1 0 0)
        (host1x_opcode_setpayload 0) (host1x_opcode_setstreamid 0x1fffff) ::
      (pre ≫= fun w => submit_wait w.1 w.2) ++
      [Push HOST1X_OPCODE_NOP (host1x_opcode_release_mlock 1)]
  end.

(** The pushes, the syncpoint with its new maximum, and [job->syncpt_end]. *)
Definition channel_program_cdma (job : submit_job) (sp : host1x_syncpt) : list push_cmd * host1x_syncpt * Z :=
  if 6 <=? HOST1X_HW then
    let '(pre, rest) := split_prefences (sj_cmds job) in
    let '(fence1, sp) := host1x_syncpt_incr_max sp 1 in
    let '(syncpt_end, sp) := host1x_syncpt_incr_max sp (syncpt_incrs job) in
    let '(fence2, sp) := host1x_syncpt_incr_max sp 1 in
    (prefences pre ++
     PushWide (host1x_opcode_acquire_mlock (sj_class job)) (host1x_opcode_setclass (sj_class job) 0 0)
       (host1x_opcode_setpayload 0) (host1x_opcode_setstreamid (engine_streamid_offset job / 4)) ::
     wait_idle sp fence1 ++ submit_setclass job (sj_class job) ++
     submit_gathers job rest (u32 (syncpt_end - syncpt_incrs job)) ++
     wait_idle sp fence2 ++
     [Push HOST1X_OPCODE_NOP (host1x_opcode_release_mlock (sj_class job))],
     sp, syncpt_end)
  else
    let serial :=
      if serialize job
      then [Push (host1x_opcode_setclass HOST1X_CLASS_HOST1X host1x_uclass_wait_syncpt_r 1)
              (host1x_class_host_wait_syncpt (id sp) (max_val sp))]
      else [] in
    let sync_base := match sp_base sp with Some b => synchronize_syncpt_base sp b | None => [] end in
    let setclass :=
      if negb (sj_class job =? 0)
      then [Push (host1x_opcode_setclass (sj_class job) 0 0) HOST1X_OPCODE_NOP] else [] in
    let '(syncpt_end, sp) := host1x_syncpt_incr_max sp (syncpt_incrs job) in
    (serial ++ sync_base ++ setclass ++
     submit_gathers job (sj_cmds job) (u32 (syncpt_end - syncpt_incrs job)), sp, syncpt_end).
End program.

(** * What the hardware does with commands *)
Inductive hw_event :=
  | UseClass (class_id : Z)
  | RegWrite (offset value : Z)
  | Gather (count address : Z)
  | SetPayload (payload : Z)
  | SetStreamid (offset : Z)     (* of the register that gets the payload *)
  | AcquireMlock (index : Z)
  | ReleaseMlock (index : Z).

(** The fields are those that [show_channel_command] prints. *)
Definition decode_op (c : command) : list hw_event :=
  let '(val, args) := c in
  let opcode := Z.shiftr val 28 in
  let offset := Z.land (Z.shiftr val 16) 0xfff in
  if opcode =? 0 then
    UseClass (Z.land (Z.shiftr val 6) 0x3ff) ::
    zip_with (fun i v => RegWrite (offset + i) v)
      (filter (fun i => Z.testbit (Z.land val 0x3f) i = true) (seqZ 0 6)) args
  else if opcode =? 1 then imap (fun i v => RegWrite (offset + Z.of_nat i) v) args
  else if opcode =? 2 then (fun v => RegWrite offset v) <$> args
  else if opcode =? 6 then
    match args with [a] => [Gather (Z.land val 0x3fff) a] | _ => [] end
  else if opcode =? 7 then [SetStreamid (Z.land val 0x3fffff)]
  else if opcode =? 9 then [SetPayload (Z.land val 0xffff)]
  else if opcode =? 12 then
    match args with [a; b] => [Gather (Z.land val 0x3fff) (a + 2 ^ 32 * b)] | _ => [] end
  else if opcode =? 14 then
    if Z.land (Z.shiftr val 24) 0xf =? 0 then [AcquireMlock (Z.land val 0xff)]
    else if Z.land (Z.shiftr val 24) 0xf =? 1 then [ReleaseMlock (Z.land val 0xff)]
    else []
  else [].

Definition events (cs : list command) : list hw_event := cs ≫= decode_op.

(** ** The job, as the hardware is to see it *)
Section spec.
Variable HOST1X_HW : Z.
Variable job : submit_job.

Definition wait_events (id threshold : Z) : list hw_event :=
  UseClass HOST1X_CLASS_HOST1X ::
  if 2 <=? HOST1X_HW then [RegWrite 0x4e threshold; RegWrite 0x50 id]
  else [RegWrite 8 (threshold mod 2 ^ 24 + 2 ^ 24 * (id mod 2 ^ 8))].

Definition class_events (c : Z) : list hw_event :=
  UseClass c ::
  if 6 <=? HOST1X_HW then [SetPayload (job_streamid job); SetStreamid (engine_streamid_offset job / 4)] else [].

(** A gather above 4 GiB is dropped before version 6. *)
Definition cmd_events (syncpt_base : Z) (cmd : host1x_job_cmd) : list hw_event :=
  match cmd with
  | HOST1X_JOB_CMD_WAIT id threshold next_class relative =>
      wait_events id (if relative then u32 (syncpt_base + threshold) else threshold) ++ class_events next_class
  | HOST1X_JOB_CMD_GATHER g =>
      let addr := u64 (base g + offset g) in
      if (6 <=? HOST1X_HW) || (addr <? 2 ^ 32) then [Gather (words g) addr] else []
  | HOST1X_JOB_CMD_REG_WRITE reg value => [RegWrite (reg / 4) value]
  end.

(** The increment has the condition that the engine is idle (4). *)
Definition idle_events (sp fence : Z) : list hw_event := RegWrite 0 (sp + 2 ^ 10 * 4) :: wait_events sp fence.

Definition prefence_events (pre : list (Z * Z)) : list hw_event :=
  match pre with
  | [] => []
  | _ =>
      [AcquireMlock 1; UseClass 1; SetPayload 0; SetStreamid 0x1fffff] ++
      (pre ≫= fun w => wait_events w.1 w.2) ++ [ReleaseMlock 1]
  end.

Definition job_events (sp : host1x_syncpt) : list hw_event :=
  let max := max_val sp in
  if 6 <=? HOST1X_HW then
    let '(pre, rest) := split_prefences (sj_cmds job) in
    prefence_events pre ++
    [AcquireMlock (sj_class job); UseClass (sj_class job); SetPayload 0; SetStreamid (engine_streamid_offset job / 4)] ++
    idle_events (id sp) (u32 (max + 1)) ++
    class_events (sj_class job) ++
    (rest ≫= cmd_events (u32 (max + 1))) ++
    idle_events (id sp) (u32 (max + syncpt_incrs job + 2)) ++
    [ReleaseMlock (sj_class job)]
  else
    (if serialize job
     then [UseClass HOST1X_CLASS_HOST1X; RegWrite 8 (max mod 2 ^ 24 + 2 ^ 24 * (id sp mod 2 ^ 8))] else []) ++
    (match sp_base sp with
     | Some b => [UseClass HOST1X_CLASS_HOST1X; RegWrite 0xb (max mod 2 ^ 24 + 2 ^ 24 * (Z.of_nat b mod 2 ^ 8))]
     | None => [] end) ++
    (if sj_class job =? 0 then [] else [UseClass (sj_class job)]) ++
    (sj_cmds job ≫= cmd_events (u32 max)).

(** The widths of the fields. *)
Definition cmd_fits (cmd : host1x_job_cmd) : Prop :=
  match cmd with
  | HOST1X_JOB_CMD_WAIT id threshold next_class _ => is_u32 id /\ is_u32 threshold /\ 0 <= next_class < 2 ^ 10
  | HOST1X_JOB_CMD_GATHER g => 0 <= words g < 2 ^ 14
  | HOST1X_JOB_CMD_REG_WRITE reg _ => 0 <= reg < 2 ^ 14
  end.

Record job_fits (sp : host1x_syncpt) : Prop := {
  jf_class : 0 <= sj_class job < 2 ^ 8;
  jf_stream : 0 <= job_streamid job < 2 ^ 16;
  jf_offset : 0 <= engine_streamid_offset job < 2 ^ 24;
  jf_id : 0 <= id sp < 2 ^ 10;
  jf_cmds : Forall cmd_fits (sj_cmds job)
}.
End spec.

(** * Words *)
Lemma opcode_shift k x : 0 <= x < 2 ^ 28 -> Z.shiftr (k * 2 ^ 28 + x) 28 = k.
Proof. intros Hx. rewrite Z.shiftr_div_pow2 by done. rewrite Z.div_add_l by done. rewrite Z.div_small; lia. Qed.

Lemma field_shift a x n m : 0 <= m -> 0 <= n -> 0 <= x < 2 ^ n ->
  Z.land (Z.shiftr (a * 2 ^ n + x) n) (2 ^ m - 1) = a mod 2 ^ m.
Proof.
  intros Hm Hn Hx. rewrite Z.shiftr_div_pow2, Z.div_add_l, Z.div_small, Z.add_0_r by lia.
  by apply land_ones_mod.
Qed.

Lemma word_low k x n : 0 <= n <= 28 -> Z.land (k * 2 ^ 28 + x) (2 ^ n - 1) = x mod 2 ^ n.
Proof.
  intros Hn. rewrite land_ones_mod by lia.
  replace (k * 2 ^ 28 + x) with (x + k * 2 ^ (28 - n) * 2 ^ n); [by apply Z.mod_add; lia|].
  rewrite <- Z.mul_assoc, <- Z.pow_add_r by lia. replace (28 - n + n) with 28 by lia. lia.
Qed.

(** A word is an opcode that takes these operands and then has these effects. *)
Record decodes (w : Z) (args : list Z) (evs : list hw_event) : Prop := {
  de_plain : is_restart w || is_payload_op w = false;
  de_args : operands w = Z.of_nat (length args);
  de_events : decode_op (w, args) = evs
}.

#[local] Transparent operands.

Ltac by_opcode H := unfold is_restart, is_payload_op, HOST1X_OPCODE_RESTART, HOST1X_OPCODE_RESTART_W, operands,
     show_channel_command, decode_op; rewrite ?H; cbn [Z.eqb Pos.eqb orb fst].

Lemma mask_bits mask :
  mask = 0 \/ mask = 1 \/ mask = 5 ->
  hweight 6 mask = Z.of_nat (length (filter (fun i => Z.testbit mask i = true) (seqZ 0 6))).
Proof. done. Qed.

Lemma setclass_word c off mask :
  0 <= c < 2 ^ 10 -> 0 <= off < 2 ^ 12 -> 0 <= mask < 2 ^ 6 ->
  host1x_opcode_setclass c off mask = 0 * 2 ^ 28 + (off * 2 ^ 16 + (c * 2 ^ 6 + mask)).
Proof.
  intros Hc Ho Hm. unfold host1x_opcode_setclass. rewrite !Z.shiftl_mul_pow2 by done.
  rewrite (lor_low off (c * 2 ^ 6) 16) by lia.
  replace (off * 2 ^ 16 + c * 2 ^ 6) with ((off * 2 ^ 10 + c) * 2 ^ 6) by lia.
  rewrite lor_low by lia. rewrite u32_id by (unfold is_u32; lia). lia.
Qed.

Lemma setclass_decodes c off mask args :
  0 <= c < 2 ^ 10 -> 0 <= off < 2 ^ 12 -> (mask = 0 \/ mask = 1 \/ mask = 5) ->
  Z.of_nat (length args) = hweight 6 mask ->
  decodes (host1x_opcode_setclass c off mask) args
    (UseClass c :: zip_with (fun i v => RegWrite (off + i) v)
       (filter (fun i => Z.testbit mask i = true) (seqZ 0 6)) args).
Proof.
  intros Hc Ho Hm Hl. assert (Hm' : 0 <= mask < 2 ^ 6) by lia.
  rewrite setclass_word by done. set (w := 0 * 2 ^ 28 + _).
  assert (Hk : Z.shiftr w 28 = 0) by (apply opcode_shift; lia).
  assert (H6 : Z.land w 0x3f = mask).
  { unfold w. change 0x3f with (2 ^ 6 - 1). rewrite word_low by lia.
    replace (off * 2 ^ 16 + (c * 2 ^ 6 + mask)) with (mask + (off * 2 ^ 10 + c) * 2 ^ 6) by lia.
    rewrite Z.mod_add by done. apply Z.mod_small. lia. }
  assert (H10 : Z.land (Z.shiftr w 6) 0x3ff = c).
  { unfold w. change 0x3ff with (2 ^ 10 - 1).
    replace (0 * 2 ^ 28 + (off * 2 ^ 16 + (c * 2 ^ 6 + mask))) with ((off * 2 ^ 10 + c) * 2 ^ 6 + mask) by lia.
    rewrite field_shift by lia. rewrite Z.add_comm, Z.mod_add by done. apply Z.mod_small. lia. }
  assert (H12 : Z.land (Z.shiftr w 16) 0xfff = off).
  { unfold w. change 0xfff with (2 ^ 12 - 1).
    replace (0 * 2 ^ 28 + (off * 2 ^ 16 + (c * 2 ^ 6 + mask))) with (off * 2 ^ 16 + (c * 2 ^ 6 + mask)) by lia.
    rewrite field_shift by lia. apply Z.mod_small. lia. }
  clearbody w. split; by_opcode Hk; rewrite ?H6, ?H10, ?H12; done.
Qed.

Lemma incr_word k off count :
  0 <= k < 16 -> 0 <= off < 2 ^ 12 -> 0 <= count < 2 ^ 16 ->
  u32 (Z.lor (Z.lor (Z.shiftl k 28) (Z.shiftl off 16)) count) = k * 2 ^ 28 + (off * 2 ^ 16 + count).
Proof.
  intros Hk Ho Hc. rewrite !Z.shiftl_mul_pow2 by done. rewrite (lor_low k (off * 2 ^ 16) 28) by lia.
  replace (k * 2 ^ 28 + off * 2 ^ 16) with ((k * 2 ^ 12 + off) * 2 ^ 16) by lia.
  rewrite lor_low by lia. rewrite u32_id by (unfold is_u32; lia). lia.
Qed.

Lemma incr_fields k off count (w := k * 2 ^ 28 + (off * 2 ^ 16 + count)) :
  0 <= k < 16 -> 0 <= off < 2 ^ 12 -> 0 <= count < 2 ^ 16 ->
  Z.shiftr w 28 = k /\ Z.land w 0xffff = count /\ Z.land (Z.shiftr w 16) 0xfff = off.
Proof.
  intros Hk Ho Hc. unfold w. split_and!.
  - apply opcode_shift. lia.
  - change 0xffff with (2 ^ 16 - 1). rewrite word_low by lia. rewrite Z.add_comm, Z.mod_add by done.
    apply Z.mod_small. lia.
  - replace (k * 2 ^ 28 + (off * 2 ^ 16 + count)) with ((k * 2 ^ 12 + off) * 2 ^ 16 + count) by lia.
    change 0xfff with (2 ^ 12 - 1). rewrite field_shift by lia. rewrite Z.add_comm, Z.mod_add by done.
    apply Z.mod_small. lia.
Qed.

Lemma incr_decodes off v :
  0 <= off < 2 ^ 12 -> decodes (host1x_opcode_incr off 1) [v] [RegWrite off v].
Proof.
  intros Ho. unfold host1x_opcode_incr. rewrite incr_word by lia.
  destruct (incr_fields 1 off 1) as (Hk & Hc & H12); try lia. set (w := 1 * 2 ^ 28 + _) in *. clearbody w.
  split; by_opcode Hk; rewrite ?Hc, ?H12; [done|done|]. simpl. by rewrite Z.add_0_r.
Qed.

Lemma nonincr_decodes off v :
  0 <= off < 2 ^ 12 -> decodes (host1x_opcode_nonincr off 1) [v] [RegWrite off v].
Proof.
  intros Ho. unfold host1x_opcode_nonincr. rewrite incr_word by lia.
  destruct (incr_fields 2 off 1) as (Hk & Hc & H12); try lia. set (w := 2 * 2 ^ 28 + _) in *. clearbody w.
  split; by_opcode Hk; rewrite ?Hc, ?H12; done.
Qed.

Lemma nop_decodes : decodes HOST1X_OPCODE_NOP [] [].
Proof. by split; vm_compute. Qed.

(** Opcodes with one field. *)
Lemma field_word k x n :
  0 <= n <= 28 -> 0 <= x < 2 ^ n ->
  Z.shiftr (Z.lor (Z.shiftl k 28) x) 28 = k /\ Z.land (Z.lor (Z.shiftl k 28) x) (2 ^ n - 1) = x.
Proof.
  intros Hn [Hx1 Hx2]. assert (Hx : 0 <= x < 2 ^ 28).
  { split; [done|]. eapply Z.lt_le_trans; [exact Hx2|]. apply Z.pow_le_mono_r; [done|apply Hn]. }
  rewrite Z.shiftl_mul_pow2, lor_low by done. split; [by apply opcode_shift|].
  rewrite word_low by done. by apply Z.mod_small.
Qed.

Lemma gather_decodes n a : 0 <= n < 2 ^ 14 -> decodes (host1x_opcode_gather n) [a] [Gather n a].
Proof.
  intros Hn. unfold host1x_opcode_gather. destruct (field_word 6 n 14) as [Hk Hf]; [lia|done|].
  set (w := Z.lor _ _) in *. clearbody w. change (2 ^ 14 - 1) with 0x3fff in Hf.
  split; by_opcode Hk; rewrite ?Hf; done.
Qed.

Lemma gather_wide_decodes n a b :
  0 <= n < 2 ^ 14 -> decodes (host1x_opcode_gather_wide n) [a; b] [Gather n (a + 2 ^ 32 * b)].
Proof.
  intros Hn. unfold host1x_opcode_gather_wide. destruct (field_word 12 n 14) as [Hk Hf]; [lia|done|].
  set (w := Z.lor _ _) in *. clearbody w. change (2 ^ 14 - 1) with 0x3fff in Hf.
  split; by_opcode Hk; rewrite ?Hf; done.
Qed.

Lemma setstreamid_decodes o : 0 <= o < 2 ^ 22 -> decodes (host1x_opcode_setstreamid o) [] [SetStreamid o].
Proof.
  intros Hn. unfold host1x_opcode_setstreamid. destruct (field_word 7 o 22) as [Hk Hf]; [lia|done|].
  set (w := Z.lor _ _) in *. clearbody w. change (2 ^ 22 - 1) with 0x3fffff in Hf.
  split; by_opcode Hk; rewrite ?Hf; done.
Qed.

Lemma setpayload_decodes p : 0 <= p < 2 ^ 16 -> decodes (host1x_opcode_setpayload p) [] [SetPayload p].
Proof.
  intros Hn. unfold host1x_opcode_setpayload. destruct (field_word 9 p 16) as [Hk Hf]; [lia|done|].
  set (w := Z.lor _ _) in *. clearbody w. change (2 ^ 16 - 1) with 0xffff in Hf.
  split; by_opcode Hk; rewrite ?Hf; done.
Qed.

Lemma mlock_decodes m :
  0 <= m < 2 ^ 8 ->
  decodes (host1x_opcode_acquire_mlock m) [] [AcquireMlock m] /\
  decodes (host1x_opcode_release_mlock m) [] [ReleaseMlock m].
Proof.
  intros Hm.
  assert (H : forallb (fun m =>
    let a := host1x_opcode_acquire_mlock m in let r := host1x_opcode_release_mlock m in
    (Z.shiftr a 28 =? 14) && (Z.shiftr r 28 =? 14) && (Z.land (Z.shiftr a 24) 0xf =? 0) &&
    (Z.land (Z.shiftr r 24) 0xf =? 1) && (Z.land a 0xff =? m) && (Z.land r 0xff =? m))
    (seqZ 0 256) = true) by (vm_compute; reflexivity).
  rewrite forallb_forall in H. specialize (H m).
  rewrite <- list_elem_of_In, elem_of_seqZ, !andb_true_iff, !Z.eqb_eq in H.
  destruct H as [[[[[A B] C] D] E] F]; [clear - Hm; lia|].
  set (a := host1x_opcode_acquire_mlock m) in *. set (r := host1x_opcode_release_mlock m) in *.
  clearbody a r. split; split.
  1-3: by_opcode A; rewrite ?C, ?E; done.
  all: by_opcode B; rewrite ?D, ?F; done.
Qed.

#[local] Opaque operands.

(** * The program decodes *)

(** The pushes are complete commands with these effects. *)
Definition runs (ps : list push_cmd) (evs : list hw_event) : Prop :=
  exists dss, mapM decode_cmd ps = Some dss /\ events (concat dss) = evs.

Lemma parse_decodes n w args ws evs cs :
  decodes w args evs -> parse n ws = Some cs -> parse (S n) (w :: args ++ ws) = Some ((w, args) :: cs).
Proof.
  intros [Hp Ha _] Hc. cbn [parse]. rewrite Hp, Ha, Nat2Z.id, drop_app_length, take_app_length, Hc.
  rewrite (proj2 (Nat.ltb_ge _ _)) by (rewrite length_app; lia). done.
Qed.

Lemma runs_one p cs : decode_cmd p = Some cs -> runs [p] (events cs).
Proof. intros E. exists [cs]. cbn [mapM]. rewrite E. split; [done|]. cbn [concat]. by rewrite app_nil_r. Qed.

Lemma runs_app ps ps' evs evs' : runs ps evs -> runs ps' evs' -> runs (ps ++ ps') (evs ++ evs').
Proof.
  intros (d1 & E1 & <-) (d2 & E2 & <-). exists (d1 ++ d2). split.
  - revert d1 E1. induction ps as [|p ps IH]; intros d1 E1; [by injection E1 as <-|].
    cbn [mapM app] in *. destruct (decode_cmd p) as [cs|]; [|done]. cbn [mbind option_bind] in *.
    destruct (mapM decode_cmd ps) as [d|]; [|done]. injection E1 as <-. by rewrite (IH d eq_refl).
  - unfold events. by rewrite concat_app, bind_app.
Qed.

Lemma runs_nil : runs [] [].
Proof. by exists []. Qed.

Lemma runs_cons p ps evs evs' : runs [p] evs -> runs ps evs' -> runs (p :: ps) (evs ++ evs').
Proof. exact (runs_app [p] ps evs evs'). Qed.

Lemma runs_bind {A} (f : A -> list push_cmd) (g : A -> list hw_event) l :
  Forall (fun x => runs (f x) (g x)) l -> runs (l ≫= f) (l ≫= g).
Proof. induction 1 as [|x l Hx _ IH]; [apply runs_nil|]. by apply runs_app. Qed.

Lemma events_two w1 a1 e1 w2 a2 e2 :
  decodes w1 a1 e1 -> decodes w2 a2 e2 -> events [(w1, a1); (w2, a2)] = e1 ++ e2.
Proof. intros [_ _ E1] [_ _ E2]. unfold events. cbn [mbind list_bind]. by rewrite E1, E2, app_nil_r. Qed.

(** An opcode with its operand; two opcodes. *)
Lemma runs_arg w v evs : decodes w [v] evs -> runs [Push w v] evs.
Proof.
  intros H. pose proof (parse_decodes 3 w [v] [] evs [] H eq_refl) as Hp.
  pose proof (runs_one (Push w v) _ Hp) as Hr. destruct H as [_ _ E].
  unfold events in Hr. cbn [mbind list_bind] in Hr. by rewrite E, app_nil_r in Hr.
Qed.

Lemma runs_ops w1 w2 e1 e2 : decodes w1 [] e1 -> decodes w2 [] e2 -> runs [Push w1 w2] (e1 ++ e2).
Proof.
  intros H1 H2. rewrite <- (events_two _ _ _ _ _ _ H1 H2). apply runs_one.
  apply (parse_decodes 3 w1 [] [w2] _ _ H1). by apply (parse_decodes 2 w2 [] [] _ _ H2).
Qed.

(** An opcode with two operands and another one; four opcodes. *)
Lemma runs_wide_args w v1 v2 w' e e' :
  decodes w [v1; v2] e -> decodes w' [] e' -> runs [PushWide w v1 v2 w'] (e ++ e').
Proof.
  intros H1 H2. rewrite <- (events_two _ _ _ _ _ _ H1 H2). apply runs_one.
  apply (parse_decodes 3 w [v1; v2] [w'] _ _ H1). by apply (parse_decodes 2 w' [] [] _ _ H2).
Qed.

Lemma runs_wide_ops w1 w2 w3 w4 e1 e2 e3 e4 :
  decodes w1 [] e1 -> decodes w2 [] e2 -> decodes w3 [] e3 -> decodes w4 [] e4 ->
  runs [PushWide w1 w2 w3 w4] (e1 ++ e2 ++ e3 ++ e4).
Proof.
  intros H1 H2 H3 H4.
  assert (Ee : events [(w1, []); (w2, []); (w3, []); (w4, [])] = e1 ++ e2 ++ e3 ++ e4).
  { unfold events. cbn [mbind list_bind].
    by rewrite (de_events _ _ _ H1), (de_events _ _ _ H2), (de_events _ _ _ H3), (de_events _ _ _ H4), app_nil_r. }
  rewrite <- Ee. apply runs_one. apply (parse_decodes 3 w1 [] [w2; w3; w4] _ _ H1).
  apply (parse_decodes 2 w2 [] [w3; w4] _ _ H2). apply (parse_decodes 1 w3 [] [w4] _ _ H3).
  by apply (parse_decodes 0 w4 [] [] _ _ H4).
Qed.

Section decodes.
Variable HOST1X_HW : Z.
Variable job : submit_job.
Variable sp : host1x_syncpt.
Hypothesis fits : job_fits job sp.

Lemma field_pair i n v m : 0 <= n -> 0 <= m -> Z.lor (Z.shiftl (Z.land i (2 ^ n - 1)) m) (Z.shiftl (Z.land v (2 ^ m - 1)) 0) =
  v mod 2 ^ m + 2 ^ m * (i mod 2 ^ n).
Proof.
  intros Hn Hm. rewrite Z.shiftl_0_r, !land_ones_mod, Z.shiftl_mul_pow2 by done.
  rewrite lor_low; [lia|done|]. apply Z.mod_pos_bound. by apply Z.pow_pos_nonneg.
Qed.

Lemma setclass_arg c off v :
  0 <= c < 2 ^ 10 -> 0 <= off < 2 ^ 12 ->
  decodes (host1x_opcode_setclass c off 1) [v] [UseClass c; RegWrite off v].
Proof.
  intros Hc Ho. pose proof (setclass_decodes c off 1 [v] Hc Ho ltac:(auto) eq_refl) as H.
  change (filter _ _) with [0] in H. cbn [zip_with] in H. by rewrite Z.add_0_r in H.
Qed.

Lemma setclass_plain c : 0 <= c < 2 ^ 10 -> decodes (host1x_opcode_setclass c 0 0) [] [UseClass c].
Proof. intros Hc. exact (setclass_decodes c 0 0 [] Hc ltac:(lia) ltac:(auto) eq_refl). Qed.

Lemma submit_wait_runs i v : runs (submit_wait HOST1X_HW i v) (wait_events HOST1X_HW i v).
Proof.
  unfold submit_wait, wait_events. destruct (2 <=? HOST1X_HW).
  - apply (runs_wide_args _ v i _ [UseClass 1; RegWrite 0x4e v; RegWrite 0x50 i] []); [|apply nop_decodes].
    exact (setclass_decodes 1 0x4e 5 [v; i] ltac:(lia) ltac:(lia) ltac:(auto) eq_refl).
  - apply runs_arg. rewrite <- (field_pair i 8 v 24) by lia. apply setclass_arg; unfold HOST1X_CLASS_HOST1X, host1x_uclass_wait_syncpt_r; lia.
Qed.

Lemma streamid_decodes :
  decodes (host1x_opcode_setstreamid (engine_streamid_offset job / 4)) [] [SetStreamid (engine_streamid_offset job / 4)].
Proof. apply setstreamid_decodes. destruct fits as [_ _ Ho _ _]. Z.div_mod_to_equations. lia. Qed.

Lemma submit_setclass_runs c : 0 <= c < 2 ^ 10 -> runs (submit_setclass HOST1X_HW job c) (class_events HOST1X_HW job c).
Proof.
  intros Hc. unfold submit_setclass, class_events. destruct (6 <=? HOST1X_HW).
  - apply (runs_wide_ops _ _ _ _ [UseClass c] [SetPayload _] [SetStreamid _] []);
      [by apply setclass_plain|apply setpayload_decodes, (jf_stream _ _ fits)|apply streamid_decodes|apply nop_decodes].
  - apply (runs_ops _ _ [UseClass c] []); [by apply setclass_plain|apply nop_decodes].
Qed.

Lemma submit_gather_runs b cmd : cmd_fits cmd -> runs (submit_gather HOST1X_HW job b cmd) (cmd_events HOST1X_HW job b cmd).
Proof.
  destruct cmd as [g|i v c rel|reg v]; cbn [cmd_fits submit_gather cmd_events]; cbv zeta; intros Hf.
  - set (addr := u64 (base g + offset g)). assert (Ha : 0 <= addr < 2 ^ 64) by apply u64_range.
    assert (E3 : u32 (Z.shiftr addr 32) = addr / 2 ^ 32).
    { rewrite Z.shiftr_div_pow2 by done. apply u32_id. unfold is_u32. Z.div_mod_to_equations. lia. }
    rewrite E3. destruct (Z.eqb_spec (addr / 2 ^ 32) 0) as [E0|E0]; cbn [negb].
    + assert (Hlow : addr < 2 ^ 32) by (Z.div_mod_to_equations; lia).
      rewrite (proj2 (Z.ltb_lt _ _) Hlow), orb_true_r, (u32_id addr) by (unfold is_u32; lia).
      by apply runs_arg, gather_decodes.
    + assert (Hhigh : 2 ^ 32 <= addr) by (Z.div_mod_to_equations; lia).
      rewrite (proj2 (Z.ltb_ge _ _) Hhigh), orb_false_r. destruct (6 <=? HOST1X_HW); [|apply runs_nil].
      replace [Gather (words g) addr] with ([Gather (words g) (u32 addr + 2 ^ 32 * (addr / 2 ^ 32))] ++ []).
      * apply runs_wide_args; [by apply gather_wide_decodes|apply nop_decodes].
      * simpl. unfold u32. do 3 f_equal. Z.div_mod_to_equations. lia.
  - apply runs_app; [apply submit_wait_runs|apply submit_setclass_runs; tauto].
  - rewrite Z.shiftr_div_pow2 by done. apply runs_arg, incr_decodes. Z.div_mod_to_equations. lia.
Qed.

Lemma submit_gathers_runs b cmds :
  Forall cmd_fits cmds -> runs (submit_gathers HOST1X_HW job cmds b) (cmds ≫= cmd_events HOST1X_HW job b).
Proof. intros Hf. apply runs_bind. eapply Forall_impl; [exact Hf|]. intros cmd. apply submit_gather_runs. Qed.

Lemma wait_idle_runs i f : 0 <= id i < 2 ^ 10 -> runs (wait_idle HOST1X_HW i f) (idle_events HOST1X_HW (id i) f).
Proof.
  intros Hi. unfold wait_idle, idle_events. apply (runs_cons _ _ [RegWrite 0 _]); [|apply submit_wait_runs].
  apply runs_arg. replace (Z.lor _ _) with (id i + 2 ^ 10 * 4); [apply nonincr_decodes; done|].
  unfold HOST1X_UCLASS_INCR_SYNCPT_INDX_F, HOST1X_UCLASS_INCR_SYNCPT_COND_F.
  rewrite Z.shiftl_0_r, Z.lor_comm.
  replace (Z.land (id i) 0x3ff) with (id i) by (symmetry; change 0x3ff with (2 ^ 10 - 1);
    rewrite land_ones_mod by done; by apply Z.mod_small).
  replace (Z.shiftl (Z.land 4 0xff) 10) with (4 * 2 ^ 10) by done. rewrite lor_low by done. lia.
Qed.

Lemma prefences_runs pre : runs (prefences HOST1X_HW pre) (prefence_events HOST1X_HW pre).
Proof.
  destruct pre as [|w pre]; [apply runs_nil|]. unfold prefences, prefence_events.
  destruct (mlock_decodes 1) as [Ha Hr]; [lia|].
  apply (runs_cons _ _ [AcquireMlock 1; UseClass 1; SetPayload 0; SetStreamid 0x1fffff]).
  - apply (runs_wide_ops _ _ _ _ [AcquireMlock 1] [UseClass 1] [SetPayload 0] [SetStreamid 0x1fffff]);
      [done|by apply setclass_plain|by apply setpayload_decodes|by apply setstreamid_decodes].
  - apply runs_app; [|apply (runs_ops _ _ [] [ReleaseMlock 1]); [apply nop_decodes|done]].
    apply runs_bind, Forall_true. intros x. apply submit_wait_runs.
Qed.
End decodes.

Lemma split_prefences_app cmds pre rest :
  split_prefences cmds = (pre, rest) -> exists ws, cmds = ws ++ rest /\ length ws = length pre.
Proof.
  revert pre rest. induction cmds as [|cmd cmds IH]; intros pre rest; cbn [split_prefences].
  - intros [= <- <-]. by exists [].
  - destruct cmd as [g|i v c [|]|reg v]; try (intros [= <- <-]; by exists []).
    destruct (split_prefences cmds) as [p r]. intros [= <- <-].
    destruct (IH p r eq_refl) as (ws & -> & El). exists (HOST1X_JOB_CMD_WAIT i v c false :: ws). simpl. by rewrite El.
Qed.

Lemma program_runs HOST1X_HW job sp :
  job_fits job sp -> runs (channel_program_cdma HOST1X_HW job sp).1.1 (job_events HOST1X_HW job sp).
Proof.
  intros Hf. pose proof Hf as [Hc _ _ Hi Hcs]. unfold channel_program_cdma, job_events. destruct (6 <=? HOST1X_HW).
  - destruct (split_prefences (sj_cmds job)) as [pre rest] eqn:Es.
    apply split_prefences_app in Es as (ws & Ecs & _). rewrite Ecs in Hcs. apply Forall_app in Hcs as [_ Hcs].
    cbn [host1x_syncpt_incr_max set_max max_val fst snd].
    destruct (mlock_decodes (sj_class job)) as [Ha Hr]; [done|].
    assert (Hb : u32 (u32 (u32 (max_val sp + 1) + syncpt_incrs job) - syncpt_incrs job) = u32 (max_val sp + 1)) by width_lia.
    assert (He : u32 (u32 (u32 (max_val sp + 1) + syncpt_incrs job) + 1) = u32 (max_val sp + syncpt_incrs job + 2)) by width_lia.
    rewrite Hb, He. apply runs_app; [apply prefences_runs|].
    apply (runs_cons _ _ [AcquireMlock _; UseClass _; SetPayload 0; SetStreamid _]).
    { apply (runs_wide_ops _ _ _ _ [AcquireMlock _] [UseClass _] [SetPayload 0] [SetStreamid _]);
        [done|apply setclass_plain; lia|by apply setpayload_decodes|by eapply streamid_decodes]. }
    assert (Hw : forall i fence, id i = id sp -> runs (wait_idle HOST1X_HW i fence) (idle_events HOST1X_HW (id sp) fence)).
    { intros i fence E. rewrite <- E. apply wait_idle_runs. by rewrite E. }
    apply runs_app; [by apply Hw|]. apply runs_app; [eapply submit_setclass_runs; [exact Hf|lia]|].
    apply runs_app; [by eapply submit_gathers_runs|]. apply runs_app; [by apply Hw|].
    apply (runs_ops _ _ [] [ReleaseMlock _]); [apply nop_decodes|done].
  - cbn [host1x_syncpt_incr_max set_max max_val fst snd].
    assert (Hb : u32 (u32 (max_val sp + syncpt_incrs job) - syncpt_incrs job) = u32 (max_val sp)) by width_lia.
    rewrite Hb. apply runs_app; [|apply runs_app; [|apply runs_app; [|by eapply submit_gathers_runs]]].
    + destruct (serialize job); [|apply runs_nil]. apply runs_arg.
      rewrite <- (field_pair (id sp) 8 (max_val sp) 24) by done. by apply setclass_arg.
    + destruct (sp_base sp) as [b|]; [|apply runs_nil]. apply runs_arg.
      rewrite <- (field_pair (Z.of_nat b) 8 (max_val sp) 24) by done. by apply setclass_arg.
    + destruct (sj_class job =? 0); [apply runs_nil|]. apply (runs_ops _ _ [UseClass _] []);
        [apply setclass_plain; lia|apply nop_decodes].
Qed.

(** So that [step_begin] applies to them. *)
Lemma program_wellformed HOST1X_HW job sp :
  job_fits job sp -> Forall (fun p => is_Some (decode_cmd p)) (channel_program_cdma HOST1X_HW job sp).1.1.
Proof. intros Hf. destruct (program_runs HOST1X_HW job sp Hf) as (dss & E & _). apply mapM_is_Some. by eexists. Qed.

(** C14. From the job to the hardware.  In every state that the channel can reach, for
    every queued job that was not cancelled and whose pushes are those that
    [channel_program_cdma] makes for it: the words between the job's start and its end in
    the ring, as the hardware fetches them, are commands that do what the job asks for
    and nothing else: waits, class changes, gathers with their address and length,
    register writes, and around them the mutex of the engine, the stream ID and the idle
    fences, in order and with the thresholds that were computed for it. *)
Theorem job_program_executes HOST1X_HW wide pb sps lv w job sp pre j post :
  pb_repr pb 0 [] -> rtc (cstep wide) (init_world pb sps lv) w ->
  job_fits job sp -> sync_queue (cdma (ch w)) = pre ++ j :: post -> cancelled j = false ->
  program j = (channel_program_cdma HOST1X_HW job sp).1.1 ->
  exists cs,
    fetch fetch_fuel (mapped (push_buf (cdma (ch w)))) (first_get j)
      ((first_get j + 8 * num_slots j) mod pb_size (push_buf (cdma (ch w)))) = Some cs /\
    events cs = job_events HOST1X_HW job sp.
Proof.
  intros Hp Hs%(reachable_cdma_inv _ _ _ _ _ Hp) Hf Hq Hc Hprog.
  destruct (inv_intact _ _ _ _ _ Hs Hq Hc) as (dss & Ed & E). rewrite Hprog in Ed.
  destruct (program_runs HOST1X_HW job sp Hf) as (dss' & Ed' & <-). rewrite Ed in Ed'. injection Ed' as <-.
  by exists (concat dss).
Qed.

(** * The events, executed *)

(** What the events of one job depend on: the mutex that the channel holds, the class,
    the payload and the engine's stream ID register, the syncpoint's counter, and the
    threshold that was loaded for a wait. *)
Record engine := mk_engine {
  held : option Z; cls : Z; payload : Z; stream : option Z; counter : Z; loaded : Z }.

Section engine.
Variable job : submit_job.
Variable sp : host1x_syncpt.
(** How often the words of a gather increment the job's syncpoint. *)
Variable increments : Z -> Z -> Z.

(** [None]: a wait on the job's syncpoint that is not satisfied, a mutex that is acquired
    twice or released by somebody else, or a gather that runs without the engine's mutex
    or with another stream ID than the job's. *)
Definition step_event (ev : hw_event) (e : engine) : option engine :=
  match ev with
  | UseClass c => Some (mk_engine (held e) c (payload e) (stream e) (counter e) (loaded e))
  | SetPayload p => Some (mk_engine (held e) (cls e) p (stream e) (counter e) (loaded e))
  | SetStreamid o =>
      if o =? engine_streamid_offset job / 4
      then Some (mk_engine (held e) (cls e) (payload e) (Some (payload e)) (counter e) (loaded e))
      else Some e
  | AcquireMlock m =>
      if bool_decide (held e = None)
      then Some (mk_engine (Some m) (cls e) (payload e) (stream e) (counter e) (loaded e)) else None
  | ReleaseMlock m =>
      if bool_decide (held e = Some m)
      then Some (mk_engine None (cls e) (payload e) (stream e) (counter e) (loaded e)) else None
  | RegWrite o v =>
      if o =? 0 then
        if v mod 2 ^ 10 =? id sp
        then Some (mk_engine (held e) (cls e) (payload e) (stream e) (u32 (counter e + 1)) (loaded e))
        else Some e
      else if (cls e =? HOST1X_CLASS_HOST1X) && (o =? 0x4e)
      then Some (mk_engine (held e) (cls e) (payload e) (stream e) (counter e) v)
      else if (cls e =? HOST1X_CLASS_HOST1X) && (o =? 0x50)
      then if (v =? id sp) && negb (value_reached (counter e) (loaded e)) then None else Some e
      else Some e
  | Gather n a =>
      if bool_decide (held e = Some (sj_class job)) && bool_decide (stream e = Some (job_streamid job)) &&
         negb (cls e =? HOST1X_CLASS_HOST1X)
      then Some (mk_engine (held e) (cls e) (payload e) (stream e) (u32 (counter e + increments n a)) (loaded e))
      else None
  end.

Fixpoint run_events (evs : list hw_event) (e : engine) : option engine :=
  match evs with [] => Some e | ev :: evs => e ← step_event ev e; run_events evs e end.

(** The job's own commands are sound: their increments add up, after [done]; waits for
    thresholds relative to the job's start are for increments that come before; other
    waits are for other syncpoints; and no register write increments a syncpoint. *)
Fixpoint sound_cmds (done : Z) (cmds : list host1x_job_cmd) : Prop :=
  match cmds with
  | [] => done = syncpt_incrs job
  | HOST1X_JOB_CMD_GATHER g :: cmds =>
      0 <= increments (words g) (u64 (base g + offset g)) /\
      sound_cmds (done + increments (words g) (u64 (base g + offset g))) cmds
  | HOST1X_JOB_CMD_WAIT i threshold next_class relative :: cmds =>
      next_class <> HOST1X_CLASS_HOST1X /\
      (if relative then i = id sp /\ 0 <= threshold <= done else i <> id sp) /\ sound_cmds done cmds
  | HOST1X_JOB_CMD_REG_WRITE reg _ :: cmds => 4 <= reg /\ sound_cmds done cmds
  end.

Lemma run_events_app evs evs' e : run_events (evs ++ evs') e = run_events evs e ≫= run_events evs'.
Proof.
  revert e. induction evs as [|ev evs IH]; intros e; [done|]. cbn [app run_events].
  destruct (step_event ev e) as [e'|]; [apply IH|done].
Qed.

Lemma reached_later a b : 0 <= b <= a -> a < 2 ^ 31 -> forall m, value_reached (u32 (m + a)) (u32 (m + b)) = true.
Proof.
  intros Hb Ha m. unfold value_reached.
  replace (u32 (u32 (m + a) - u32 (m + b))) with (u32 (a - b)) by width_lia.
  rewrite land_top, (proj2 (Z.ltb_lt _ _)); [done|]. rewrite u32_id by (unfold is_u32; lia). lia.
Qed.

Lemma sound_le done cmds : sound_cmds done cmds -> done <= syncpt_incrs job.
Proof.
  revert done. induction cmds as [|cmd cmds IH]; intros done; cbn [sound_cmds]; [lia|].
  destruct cmd as [g|i v c rel|reg v]; [intros [H1 H2%IH]; lia|intros (_ & _ & H%IH); done|intros [_ H%IH]; done].
Qed.

Lemma sound_prefences cmds pre rest :
  split_prefences cmds = (pre, rest) -> sound_cmds 0 cmds ->
  Forall (fun w => w.1 <> id sp) pre /\ sound_cmds 0 rest.
Proof.
  revert pre rest. induction cmds as [|cmd cmds IH]; intros pre rest; cbn [split_prefences].
  - by intros [= <- <-].
  - destruct cmd as [g|i v c [|]|reg v]; try (intros [= <- <-] Hs; by split).
    destruct (split_prefences cmds) as [p r]. intros [= <- <-] (_ & Hi & Hs).
    destruct (IH p r eq_refl Hs) as [Hp Hr]. split; [by constructor|done].
Qed.

Section run.
Variable HOST1X_HW : Z.
Hypothesis new_hw : 6 <= HOST1X_HW.
Hypothesis fits : job_fits job sp.
Hypothesis engine_class : sj_class job <> HOST1X_CLASS_HOST1X.
Hypothesis few : 0 <= syncpt_incrs job < 2 ^ 31.

Lemma run_wait i v e :
  (i = id sp -> value_reached (counter e) v = true) ->
  run_events (wait_events HOST1X_HW i v) e =
    Some (mk_engine (held e) HOST1X_CLASS_HOST1X (payload e) (stream e) (counter e) v).
Proof.
  intros Hr. unfold wait_events. rewrite (proj2 (Z.leb_le 2 _)) by lia.
  cbn -[value_reached Z.pow]. destruct (Z.eqb_spec i (id sp)) as [->|]; [|done]. by rewrite Hr.
Qed.

Lemma run_waits pre e :
  Forall (fun w => w.1 <> id sp) pre ->
  exists c l, run_events (pre ≫= fun w => wait_events HOST1X_HW w.1 w.2) e =
    Some (mk_engine (held e) c (payload e) (stream e) (counter e) l).
Proof.
  intros Hp. revert e. induction Hp as [|w pre Hw _ IH]; intros e; cbn [mbind list_bind].
  - exists (cls e), (loaded e). by destruct e.
  - rewrite run_events_app, run_wait by done.
    destruct (IH (mk_engine (held e) HOST1X_CLASS_HOST1X (payload e) (stream e) (counter e) w.2)) as (c & l & E).
    by exists c, l.
Qed.

Lemma run_class c e :
  run_events (class_events HOST1X_HW job c) e =
    Some (mk_engine (held e) c (job_streamid job) (Some (job_streamid job)) (counter e) (loaded e)).
Proof.
  unfold class_events. rewrite (proj2 (Z.leb_le 6 _)) by lia.
  cbn -[Z.div]. by rewrite Z.eqb_refl.
Qed.

Lemma run_idle e fence :
  fence = u32 (counter e + 1) ->
  run_events (idle_events HOST1X_HW (id sp) fence) e =
    Some (mk_engine (held e) HOST1X_CLASS_HOST1X (payload e) (stream e) fence fence).
Proof.
  intros ->. unfold idle_events. cbn [run_events step_event]. rewrite Z.eqb_refl.
  assert (Hm : (id sp + 2 ^ 10 * 4) mod 2 ^ 10 = id sp).
  { rewrite Z.mul_comm, Z.mod_add by done. apply Z.mod_small, (jf_id _ _ fits). }
  rewrite Hm, Z.eqb_refl. cbn [mbind option_bind]. rewrite run_wait; [done|].
  intros _. cbn [counter]. pose proof (reached_later 0 0 ltac:(lia) ltac:(done) (counter e + 1)) as H.
  by rewrite Z.add_0_r in H.
Qed.

(** The engine while the job's own commands are executed. *)
Definition in_job (c done l : Z) : engine :=
  mk_engine (Some (sj_class job)) c (job_streamid job) (Some (job_streamid job)) (u32 (max_val sp + 1 + done)) l.

Lemma run_cmds cmds : forall done c l,
  sound_cmds done cmds -> 0 <= done -> c <> HOST1X_CLASS_HOST1X -> Forall cmd_fits cmds ->
  exists c' l', c' <> HOST1X_CLASS_HOST1X /\
    run_events (cmds ≫= cmd_events HOST1X_HW job (u32 (max_val sp + 1))) (in_job c done l) =
      Some (in_job c' (syncpt_incrs job) l').
Proof.
  induction cmds as [|cmd cmds IH]; intros done c l Hs Hd Hc Hf; cbn [sound_cmds mbind list_bind] in *.
  - exists c, l. split; [done|]. by rewrite Hs.
  - apply Forall_cons in Hf as [Hf0 Hf]. rewrite run_events_app.
    destruct cmd as [g|i v nc rel|reg v]; cbn [cmd_events]; cbv zeta.
    + destruct Hs as [Hi Hs]. rewrite (proj2 (Z.leb_le 6 _)) by lia. cbn [orb run_events step_event in_job held stream cls].
      rewrite !bool_decide_eq_true_2, (proj2 (Z.eqb_neq _ _) Hc) by done. cbn [andb negb mbind option_bind].
      destruct (IH _ c l Hs ltac:(lia) Hc Hf) as (c' & l' & Hc' & E). exists c', l'. split; [done|].
      rewrite <- E. unfold in_job. cbn [counter payload loaded]. do 2 f_equal. width_lia.
    + destruct Hs as (Hn & Hi & Hs). pose proof (sound_le _ _ Hs) as Hle.
      rewrite run_events_app, run_wait.
      * cbn [mbind option_bind]. rewrite run_class. cbn [mbind option_bind held counter loaded in_job].
        by apply IH.
      * intros E. destruct rel; [|done]. cbn [counter in_job].
        replace (u32 (u32 (max_val sp + 1) + v)) with (u32 (max_val sp + 1 + v)) by width_lia.
        apply reached_later; lia.
    + destruct Hs as [Hr Hs]. cbn [run_events step_event in_job cls].
      rewrite (proj2 (Z.eqb_neq (reg / 4) 0)) by (Z.div_mod_to_equations; lia).
      rewrite (proj2 (Z.eqb_neq _ _) Hc). cbn [andb mbind option_bind]. by apply IH.
Qed.
End run.
End engine.

Section isolation.
Variable HOST1X_HW : Z.
Hypothesis new_hw : 6 <= HOST1X_HW.
Variable job : submit_job.
Variable sp : host1x_syncpt.
Variable increments : Z -> Z -> Z.
Hypothesis fits : job_fits job sp.
Hypothesis sound : sound_cmds job sp increments 0 (sj_cmds job).

(** Before the engine: the waits for other syncpoints, without the engine's mutex. *)
Lemma run_prefences e pre rest :
  held e = None -> split_prefences (sj_cmds job) = (pre, rest) ->
  exists c p s l, run_events job sp increments (prefence_events HOST1X_HW pre) e =
    Some (mk_engine None c p s (counter e) l).
Proof.
  intros He Es. destruct (sound_prefences _ _ _ _ _ _ Es sound) as [Hp _].
  destruct pre as [|w pre]; [exists (cls e), (payload e), (stream e), (loaded e); destruct e; simpl in *; by subst|].
  unfold prefence_events. rewrite run_events_app. cbn [run_events step_event].
  rewrite He, bool_decide_eq_true_2 by done. cbn [mbind option_bind].
  cbn [held cls payload stream counter loaded].
  destruct (0x1fffff =? engine_streamid_offset job / 4); cbn [mbind option_bind held cls payload stream counter loaded];
    rewrite run_events_app.
  all: edestruct (run_waits job sp increments HOST1X_HW new_hw (w :: pre)) as (c & l & Ew); [exact Hp|].
  all: rewrite Ew; cbn [mbind option_bind run_events step_event held counter payload stream].
  all: rewrite bool_decide_eq_true_2 by done; cbn [mbind option_bind]; by eexists _, _, _, _.
Qed.

(** Taking the engine, up to the first idle fence. *)
Lemma run_entry e :
  held e = None ->
  exists s, run_events job sp increments
    [AcquireMlock (sj_class job); UseClass (sj_class job); SetPayload 0; SetStreamid (engine_streamid_offset job / 4)] e =
    Some (mk_engine (Some (sj_class job)) (sj_class job) 0 s (counter e) (loaded e)).
Proof.
  intros He. cbn [run_events step_event]. rewrite He, bool_decide_eq_true_2 by done.
  cbn [mbind option_bind held cls payload stream counter loaded]. rewrite Z.eqb_refl. by eexists.
Qed.
Hypothesis engine_class : sj_class job <> HOST1X_CLASS_HOST1X.
Hypothesis few : 0 <= syncpt_incrs job < 2 ^ 31.

(** What is executed up to the first idle fence, and what is left then. *)
Lemma run_start e pre rest :
  held e = None -> split_prefences (sj_cmds job) = (pre, rest) ->
  exists c p s l, run_events job sp increments (job_events HOST1X_HW job sp) e =
    run_events job sp increments
      (idle_events HOST1X_HW (id sp) (u32 (max_val sp + 1)) ++ class_events HOST1X_HW job (sj_class job) ++
       (rest ≫= cmd_events HOST1X_HW job (u32 (max_val sp + 1))) ++
       idle_events HOST1X_HW (id sp) (u32 (max_val sp + syncpt_incrs job + 2)) ++ [ReleaseMlock (sj_class job)])
      (mk_engine (Some (sj_class job)) c p s (counter e) l).
Proof.
  intros He Es. unfold job_events. rewrite (proj2 (Z.leb_le 6 _) new_hw), Es.
  destruct (run_prefences e pre rest He Es) as (c1 & p1 & s1 & l1 & E1).
  rewrite run_events_app, E1. cbn [mbind option_bind counter].
  edestruct (run_entry (mk_engine None c1 p1 s1 (counter e) l1) eq_refl) as (s2 & E2).
  rewrite run_events_app, E2. cbn [mbind option_bind counter loaded]. by eexists _, _, _, _.
Qed.

Lemma run_job_events e :
  held e = None -> counter e = u32 (max_val sp) ->
  exists e', run_events job sp increments (job_events HOST1X_HW job sp) e = Some e' /\
    held e' = None /\ counter e' = u32 (max_val sp + syncpt_incrs job + 2).
Proof.
  intros He Hm. destruct (split_prefences (sj_cmds job)) as [pre rest] eqn:Es.
  destruct (sound_prefences _ _ _ _ _ _ Es sound) as [_ Hrest].
  pose proof (jf_cmds _ _ fits) as Hfits. destruct (split_prefences_app _ _ _ Es) as (ws & Ecs & _).
  rewrite Ecs in Hfits. apply Forall_app in Hfits as [_ Hfits].
  destruct (run_start e pre rest He Es) as (c & p & s & l & ->). rewrite Hm.
  rewrite run_events_app, (run_idle job sp increments HOST1X_HW new_hw fits) by (cbn [counter]; width_lia).
  cbn [mbind option_bind held payload stream].
  rewrite run_events_app, (run_class job sp increments HOST1X_HW new_hw). cbn [mbind option_bind held counter loaded].
  destruct (run_cmds job sp increments HOST1X_HW new_hw few rest 0 (sj_class job) (u32 (max_val sp + 1)) Hrest
    ltac:(lia) engine_class Hfits) as (c' & l' & _ & E3).
  unfold in_job in E3. rewrite Z.add_0_r in E3. rewrite run_events_app, E3. cbn [mbind option_bind].
  rewrite run_events_app, (run_idle job sp increments HOST1X_HW new_hw fits) by (cbn [counter]; width_lia).
  cbn [mbind option_bind run_events step_event held payload stream].
  rewrite bool_decide_eq_true_2 by done. by eexists.
Qed.

Lemma run_idle_short h c p s k l :
  k = u32 (max_val sp - 1) ->
  run_events job sp increments (idle_events HOST1X_HW (id sp) (u32 (max_val sp + 1))) (mk_engine h c p s k l) = None.
Proof.
  intros ->. unfold idle_events, wait_events. rewrite (proj2 (Z.leb_le 2 _)) by lia.
  assert (Hid : (id sp + 2 ^ 10 * 4) mod 2 ^ 10 = id sp).
  { rewrite Z.mul_comm, Z.mod_add by done. apply Z.mod_small, (jf_id _ _ fits). }
  cbn [run_events step_event]. rewrite Hid, !Z.eqb_refl. cbn -[value_reached u32 Z.sub Z.add].
  unfold value_reached.
  replace (u32 (u32 (u32 (max_val sp - 1) + 1) - u32 (max_val sp + 1))) with (u32 (- 1)) by width_lia.
  by rewrite land_top.
Qed.

(** If the syncpoint is one short of its maximum, as after the recovery of a job, which
    goes up to that job's [syncpt_end], the next job waits at its first idle fence. *)
Lemma one_short_blocks e :
  held e = None -> counter e = u32 (max_val sp - 1) ->
  run_events job sp increments (job_events HOST1X_HW job sp) e = None.
Proof.
  intros He Hm. destruct (split_prefences (sj_cmds job)) as [pre rest] eqn:Es.
  destruct (run_start e pre rest He Es) as (c & p & s & l & ->).
  by rewrite run_events_app, run_idle_short by done.
Qed.
End isolation.

(** C23. The program of a job, on hardware from version 6 on, executed from the point
    where the syncpoint has reached what was submitted before: it never waits for
    something that does not happen, as long as the job's own commands make the
    increments that were announced and wait only for thresholds that come before; every
    gather of the job runs while the channel holds the mutex of the engine and with the
    stream ID of the job; the mutex is released at the end; and the syncpoint ends up at
    its new maximum, one beyond [syncpt_end]. *)
Theorem job_program_isolated HOST1X_HW job sp increments c p s l :
  6 <= HOST1X_HW -> job_fits job sp -> sj_class job <> HOST1X_CLASS_HOST1X ->
  0 <= syncpt_incrs job < 2 ^ 31 -> sound_cmds job sp increments 0 (sj_cmds job) ->
  let '(ps, sp', syncpt_end) := channel_program_cdma HOST1X_HW job sp in
  exists dss e', mapM decode_cmd ps = Some dss /\
    run_events job sp increments (events (concat dss)) (mk_engine None c p s (u32 (max_val sp)) l) = Some e' /\
    held e' = None /\ counter e' = max_val sp' /\ syncpt_end = u32 (counter e' - 1).
Proof.
  intros Hhw Hf Hc Hi Hs. destruct (channel_program_cdma HOST1X_HW job sp) as [[ps sp'] send] eqn:Ep.
  destruct (program_runs HOST1X_HW job sp Hf) as (dss & Ed & Ee). rewrite Ep in Ed.
  destruct (run_job_events HOST1X_HW Hhw job sp increments Hf Hs Hc Hi (mk_engine None c p s (u32 (max_val sp)) l)
    eq_refl eq_refl) as (e' & Er & Hh & Hcn).
  exists dss, e'. rewrite Ee. split; [done|]. split; [done|]. split; [done|]. rewrite Hcn.
  unfold channel_program_cdma in Ep. rewrite (proj2 (Z.leb_le 6 _) Hhw) in Ep.
  destruct (split_prefences (sj_cmds job)) as [pre rest]. unfold host1x_syncpt_incr_max, set_max in Ep.
  cbn [max_val] in Ep. injection Ep as _ <- <-. cbn [max_val]. split; width_lia.
Qed.

(** A job with a wait for another syncpoint, two gathers, one above 4 GiB, a wait for the
    first of them, and a register write. *)
Definition example_submit : submit_job :=
  mk_sjob [HOST1X_JOB_CMD_WAIT 5 10 0x5d false; HOST1X_JOB_CMD_GATHER (Host1xJob.Gather 16 0x80000000 1 0x40 false);
           HOST1X_JOB_CMD_WAIT 0 1 0x5d true; HOST1X_JOB_CMD_REG_WRITE 0x44 7;
           HOST1X_JOB_CMD_GATHER (Host1xJob.Gather 8 0x1f00000000 1 0 false)]
    0x5d 2 (Some 0x12) 0x7f 0x30 true.

Lemma example_submit_fits : job_fits example_submit (example_sp 0).
Proof. split; [done|done|done|done|]. repeat constructor; done. Qed.

Lemma job_program_isolated_witness :
  exists dss e', mapM decode_cmd (channel_program_cdma 8 example_submit (example_sp 0)).1.1 = Some dss /\
    length dss = 15%nat /\ run_events example_submit (example_sp 0) (fun _ _ => 1) (events (concat dss))
      (mk_engine None 0 0 None 3 0) = Some e' /\ held e' = None /\ counter e' = 7.
Proof.
  pose proof (job_program_isolated 8 example_submit (example_sp 0) (fun _ _ => 1) 0 0 None 0) as H.
  destruct H as (dss & e' & Ed & Er & Hh & Hc & _);
    [done|apply example_submit_fits|done|done|by split_and!|].
  exists dss, e'. split; [exact Ed|]. split; [|split; [exact Er|split; [exact Hh|exact Hc]]].
  by rewrite <- (length_mapM _ _ _ Ed).
Defined.

Lemma job_program_executes_witness :
  exists w j cs, rtc (cstep true) (init_world example_pb example_sp (fun _ => 0)) w /\
    sync_queue (cdma (ch w)) = [j] /\
    fetch fetch_fuel (mapped (push_buf (cdma (ch w)))) (first_get j)
      ((first_get j + 8 * num_slots j) mod pb_size (push_buf (cdma (ch w)))) = Some cs /\
    events cs = job_events 8 example_submit (example_sp 0).
Proof.
  set (ps := (channel_program_cdma 8 example_submit (example_sp 0)).1.1).
  assert (H : exists c j, submit (example_job 1 0 6) ps (ch (init_world example_pb example_sp (fun _ => 0))) = Some c /\
    sync_queue (cdma c) = [] ++ j :: [] /\ cancelled j = false /\ program j = ps).
  { eexists _, _. split; [vm_compute; reflexivity|]. split; [vm_compute; reflexivity|].
    split; [reflexivity|vm_compute; reflexivity]. }
  destruct H as (c & j & Ec & Eq & Hc & Hp).
  assert (Hs : rtc (cstep true) (init_world example_pb example_sp (fun _ => 0)) (mk_world c Idle StopIdle)).
  { eapply submit_steps; [exact Ec|done|done|]. apply program_wellformed, example_submit_fits. }
  destruct (job_program_executes 8 true example_pb example_sp (fun _ => 0) (mk_world c Idle StopIdle) example_submit
    (example_sp 0) [] j [] example_pb_ok Hs example_submit_fits Eq Hc Hp) as (cs & E1 & E2).
  exists (mk_world c Idle StopIdle), j, cs. split; [exact Hs|]. split; [exact Eq|]. split; [exact E1|exact E2].
Defined.
