(* ===== verification/DrmFirewall.v ===== *)
(** The command-stream firewall of the Tegra DRM driver
    (src/drivers/gpu/drm/tegra/firewall.c).

    Unlike the firewall of host1x it has no relocations to count: it checks the
    addresses themselves against the buffers that the job uses.  [None] is a read outside
    the gather data.  The reference semantics of a gather is the inductive relation
    [gather_run], by the encoding of the commands. *)
From S2P Require Import Prelude Host1xJob Host1xFirewall.

(** struct tegra_drm_mapping (uapi.h): the object at [mapping_id], with the fields that
    do not change after tegra_drm_ioctl_channel_map. *)
Record tegra_drm_mapping := DrmMapping {
  mapping_id : ptr;
  mapping_bo : ptr;
  iova : Z;
  iova_end : Z }.

(** struct tegra_drm_used_mapping and the part of struct tegra_drm_submit_data (submit.h)
    that the firewall reads. *)
Record tegra_drm_used_mapping := UsedMapping { um_mapping : tegra_drm_mapping; um_flags : Z }.

(** The callbacks of struct tegra_drm_client_ops (drm.h) that the firewall calls, NULL as
    [None], and [client->base.class]. *)
Record tegra_drm_client := DrmClient {
  client_class : Z;
  is_addr_reg : option (Z -> Z -> bool);
  is_valid_class : option (Z -> bool) }.

Record tegra_drm_firewall := DrmFw { fw_pos : Z; fw_end : Z; fw_cls : Z }.

Definition set_pos (fw : tegra_drm_firewall) (pos : Z) := DrmFw pos (fw_end fw) (fw_cls fw).
Definition set_fw_class (fw : tegra_drm_firewall) (class : Z) := DrmFw (fw_pos fw) (fw_end fw) class.

Section firewall.
Variables (client : tegra_drm_client) (data : list Z) (used : list tegra_drm_used_mapping).

(** The word, or the error. *)
Definition fw_next (fw : tegra_drm_firewall) : option (Z + Z * tegra_drm_firewall) :=
  if fw_pos fw =? fw_end fw then Some (inl (- EINVAL))
  else word ← array_get data (fw_pos fw); Some (inr (word, set_pos fw (u32 (fw_pos fw + 1)))).

Definition fw_check_addr_valid (offset : Z) : bool :=
  existsb (fun um => (iova (um_mapping um) <=? offset) && (offset <=? iova_end (um_mapping um))) used.

Definition fw_check_reg (fw : tegra_drm_firewall) (offset : Z) : option (Z * tegra_drm_firewall) :=
  r ← fw_next fw;
  match r with
  | inl err => Some (err, fw)
  | inr (word, fw) =>
      match is_addr_reg client with
      | None => Some (0, fw)
      | Some is_addr_reg =>
          if negb (is_addr_reg (fw_cls fw) offset) then Some (0, fw)
          else if negb (fw_check_addr_valid word) then Some (- EINVAL, fw)
          else Some (0, fw)
      end
  end.

(** The loop makes at most [count] rounds. *)
Fixpoint fw_check_regs_seq (fw : tegra_drm_firewall) (offset : Z) (count : nat) (incr : bool)
    : option (Z * tegra_drm_firewall) :=
  match count with
  | O => Some (0, fw)
  | S count =>
      '(err, fw) ← fw_check_reg fw offset;
      if negb (err =? 0) then Some (- EINVAL, fw)
      else fw_check_regs_seq fw (if incr then u32 (offset + 1) else offset) count incr
  end.

(** [for_each_set_bit(bit, &bmask, 16)]: [bits] are those from the current one on. *)
Fixpoint fw_check_bits (fw : tegra_drm_firewall) (offset mask : Z) (bits : list nat)
    : option (Z * tegra_drm_firewall) :=
  match bits with
  | [] => Some (0, fw)
  | bit :: bits =>
      if negb (Z.testbit mask (Z.of_nat bit)) then fw_check_bits fw offset mask bits
      else
        '(err, fw) ← fw_check_reg fw (u32 (offset + Z.of_nat bit));
        if negb (err =? 0) then Some (- EINVAL, fw) else fw_check_bits fw offset mask bits
  end.
Definition fw_check_regs_mask (fw : tegra_drm_firewall) (offset mask : Z) :=
  fw_check_bits fw offset (u16 mask) (seq 0 16).

Definition fw_check_regs_imm (fw : tegra_drm_firewall) (offset : Z) : Z :=
  match is_addr_reg client with
  | None => 0
  | Some is_addr_reg => if is_addr_reg (fw_cls fw) offset then - EINVAL else 0
  end.

Definition fw_check_class (class : Z) : Z :=
  match is_valid_class client with
  | None => if class =? client_class client then 0 else - EINVAL
  | Some is_valid_class => if negb (is_valid_class class) then - EINVAL else 0
  end.

(** One round of the loop of [tegra_drm_fw_validate], after the command word has been
    consumed; [payload] is [None] while [payload_valid] is false.  The class of the
    result is also what has been stored to [*job_class]. *)
Definition fw_validate_op (fw : tegra_drm_firewall) (payload : option Z) (word : Z)
    : option (Z * tegra_drm_firewall * option Z) :=
  let opcode := Z.shiftr (Z.land word 0xf0000000) 28 in
  let offset := Z.land (Z.shiftr word 16) 0xfff in
  match opcode with
  | 0 =>
      let mask := Z.land word 0x3f in
      let class := Z.land (Z.shiftr word 6) 0x3ff in
      let err := fw_check_class class in
      let fw := set_fw_class fw class in
      '(err, fw) ← (if err =? 0 then fw_check_regs_mask fw offset mask else Some (err, fw));
      Some (err, fw, payload)
  | 1 =>
      '(err, fw) ← fw_check_regs_seq fw offset (Z.to_nat (Z.land word 0xffff)) true;
      Some (err, fw, payload)
  | 2 =>
      '(err, fw) ← fw_check_regs_seq fw offset (Z.to_nat (Z.land word 0xffff)) false;
      Some (err, fw, payload)
  | 3 =>
      '(err, fw) ← fw_check_regs_mask fw offset (Z.land word 0xffff);
      Some (err, fw, payload)
  | 4 => Some (fw_check_regs_imm fw offset, fw, payload)
  | 9 => Some (0, fw, Some (Z.land word 0xffff))
  | 10 =>
      match payload with
      | None => Some (- EINVAL, fw, payload)
      | Some count =>
          '(err, fw) ← fw_check_regs_seq fw (Z.land word 0x3fffff) (Z.to_nat count) true;
          Some (err, fw, payload)
      end
  | 11 =>
      match payload with
      | None => Some (- EINVAL, fw, payload)
      | Some count =>
          '(err, fw) ← fw_check_regs_seq fw (Z.land word 0x3fffff) (Z.to_nat count) false;
          Some (err, fw, payload)
      end
  | _ => Some (- EINVAL, fw, payload)
  end.

(** Every round consumes a word. *)
Fixpoint fw_validate_loop (fuel : nat) (fw : tegra_drm_firewall) (payload : option Z)
    : option (Z * Z) :=
  if fw_pos fw =? fw_end fw then Some (0, fw_cls fw)
  else
    match fuel with
    | O => None
    | S fuel =>
        r ← fw_next fw;
        match r with
        | inl err => Some (err, fw_cls fw)
        | inr (word, fw) =>
            '(err, fw, payload) ← fw_validate_op fw payload word;
            if negb (err =? 0) then Some (err, fw_cls fw) else fw_validate_loop fuel fw payload
        end
    end.

(** The error and [*job_class]. *)
Definition tegra_drm_fw_validate (start words job_class : Z) : option (Z * Z) :=
  fw_validate_loop (Z.to_nat words) (DrmFw start (u32 (start + words)) job_class) None.
End firewall.

(** ** The two-dimensional engine of the older chips (gr2d.c) *)
Definition HOST1X_CLASS_GR2D := 0x51.
Definition HOST1X_CLASS_GR2D_SB := 0x52.
Definition GR2D_NUM_REGS := 0x4d.
Definition gr2d_addr_regs : list Z :=
  [0x1a; 0x1b; 0x26; 0x2b; 0x2c; 0x2d; 0x31; 0x32; 0x47; 0x48; 0x49; 0x4a; 0x4b; 0x4c].
Definition gr2d_is_addr_reg (class offset : Z) : bool :=
  if class =? 1 then offset =? 0x2b
  else if (class =? HOST1X_CLASS_GR2D) || (class =? HOST1X_CLASS_GR2D_SB) then
    if GR2D_NUM_REGS <=? offset then false else bool_decide (offset ∈ gr2d_addr_regs)
  else false.
Definition gr2d_is_valid_class (class : Z) : bool :=
  (class =? HOST1X_CLASS_GR2D) || (class =? HOST1X_CLASS_GR2D_SB).
Definition gr2d : tegra_drm_client :=
  DrmClient HOST1X_CLASS_GR2D (Some gr2d_is_addr_reg) (Some gr2d_is_valid_class).

(** * The reference semantics *)

(** What executing a gather does, as far as memory safety goes. *)
Inductive access :=
  | Class (class : Z)                 (* SETCLASS *)
  | WriteReg (class reg value : Z)
  | WriteImm (class reg : Z).        (* a small constant that is part of the command *)

(** One command: from class [c] and payload [p], the word [w] is followed by one operand for
    each of [regs], makes the access [acc] first, and leaves class and payload. *)
Inductive command_word (c : Z) (p : option Z) : Z -> list access -> list Z -> Z -> option Z -> Prop :=
  | cw_setclass off class mask :
      0 <= off < 2 ^ 12 -> 0 <= class < 2 ^ 10 -> 0 <= mask < 2 ^ 6 ->
      command_word c p (off * 2 ^ 16 + class * 2 ^ 6 + mask) [Class class] (mask_regs 6 mask off) class p
  | cw_incr off count : 0 <= off < 2 ^ 12 -> 0 <= count < 2 ^ 16 ->
      command_word c p (1 * 2 ^ 28 + off * 2 ^ 16 + count) [] (incr_regs count off) c p
  | cw_nonincr off count : 0 <= off < 2 ^ 12 -> 0 <= count < 2 ^ 16 ->
      command_word c p (2 * 2 ^ 28 + off * 2 ^ 16 + count) [] (nonincr_regs count off) c p
  | cw_mask off mask : 0 <= off < 2 ^ 12 -> 0 <= mask < 2 ^ 16 ->
      command_word c p (3 * 2 ^ 28 + off * 2 ^ 16 + mask) [] (mask_regs 16 mask off) c p
  | cw_imm off value : 0 <= off < 2 ^ 12 -> 0 <= value < 2 ^ 16 ->
      command_word c p (4 * 2 ^ 28 + off * 2 ^ 16 + value) [WriteImm c off] [] c p
  | cw_setpyld ignored n : 0 <= ignored < 2 ^ 12 -> 0 <= n < 2 ^ 16 ->
      command_word c p (9 * 2 ^ 28 + ignored * 2 ^ 16 + n) [] [] c (Some n)
  | cw_incr_w ignored off count : 0 <= ignored < 2 ^ 6 -> 0 <= off < 2 ^ 22 -> p = Some count ->
      command_word c p (10 * 2 ^ 28 + ignored * 2 ^ 22 + off) [] (incr_regs count off) c p
  | cw_nonincr_w ignored off count : 0 <= ignored < 2 ^ 6 -> 0 <= off < 2 ^ 22 -> p = Some count ->
      command_word c p (11 * 2 ^ 28 + ignored * 2 ^ 22 + off) [] (nonincr_regs count off) c p.

(** The gather [ws], executed from class [c] with payload [p], makes these accesses in this
    order and ends in class [c']. *)
Inductive gather_run : Z -> option Z -> list Z -> list access -> Z -> Prop :=
  | gr_end c p : gather_run c p [] [] c
  | gr_command c p w acc regs c1 p1 vs rest l c' :
      command_word c p w acc regs c1 p1 -> length vs = length regs ->
      gather_run c1 p1 rest l c' ->
      gather_run c p (w :: vs ++ rest) (acc ++ zip_with (WriteReg c1) regs vs ++ l) c'.

(** * Decoding *)
Lemma opcode_div w : is_u32 w -> Z.shiftr (Z.land w 0xf0000000) 28 = w / 2 ^ 28.
Proof.
  intros Hw. rewrite Z.shiftr_land. change (Z.shiftr 0xf0000000 28) with (2 ^ 4 - 1).
  rewrite land_ones_mod, Z.shiftr_div_pow2 by done. apply Z.mod_small. unfold is_u32 in Hw.
  split; [apply Z.div_pos; lia|apply Z.div_lt_upper_bound; lia].
Qed.
Lemma reg_div w : Z.land (Z.shiftr w 16) 0xfff = w / 2 ^ 16 mod 2 ^ 12.
Proof. change 0xfff with (2 ^ 12 - 1). by rewrite land_ones_mod, Z.shiftr_div_pow2. Qed.
Lemma class_div w : Z.land (Z.shiftr w 6) 0x3ff = w / 2 ^ 6 mod 2 ^ 10.
Proof. change 0x3ff with (2 ^ 10 - 1). by rewrite land_ones_mod, Z.shiftr_div_pow2. Qed.
Lemma low_mod w : Z.land w 0xffff = w mod 2 ^ 16.
Proof. by apply (land_ones_mod w 16). Qed.
Lemma mask_mod w : Z.land w 0x3f = w mod 2 ^ 6.
Proof. by apply (land_ones_mod w 6). Qed.
Lemma wide_mod w : Z.land w 0x3fffff = w mod 2 ^ 22.
Proof. by apply (land_ones_mod w 22). Qed.

Ltac field_lia := change (2 ^ 28) with 268435456 in *; change (2 ^ 22) with 4194304 in *;
  change (2 ^ 16) with 65536 in *; change (2 ^ 12) with 4096 in *; change (2 ^ 10) with 1024 in *;
  change (2 ^ 6) with 64 in *; change (2 ^ 32) with 4294967296 in *;
  Z.div_mod_to_equations; lia.

(** The parts of a word that is put together from fields. *)
Lemma word_parts w op a low : w = op * 2 ^ 28 + a * 2 ^ 16 + low -> 0 <= a < 2 ^ 12 -> 0 <= low < 2 ^ 16 ->
  w / 2 ^ 28 = op /\ w / 2 ^ 16 mod 2 ^ 12 = a /\ w mod 2 ^ 16 = low.
Proof. intros -> Ha Hl. split_and!; field_lia. Qed.
Lemma setclass_parts w a class mask :
  w = a * 2 ^ 16 + class * 2 ^ 6 + mask -> 0 <= a < 2 ^ 12 -> 0 <= class < 2 ^ 10 -> 0 <= mask < 2 ^ 6 ->
  w / 2 ^ 28 = 0 /\ w / 2 ^ 16 mod 2 ^ 12 = a /\ w / 2 ^ 6 mod 2 ^ 10 = class /\ w mod 2 ^ 6 = mask.
Proof. intros -> Ha Hc Hm. split_and!; field_lia. Qed.
Lemma wide_parts w op a off : w = op * 2 ^ 28 + a * 2 ^ 22 + off -> 0 <= a < 2 ^ 6 -> 0 <= off < 2 ^ 22 ->
  w / 2 ^ 28 = op /\ w mod 2 ^ 22 = off.
Proof. intros -> Ha Hl. split_and!; field_lia. Qed.

(** What a command word is, read off its fields. *)
Definition decode_word (c : Z) (p : option Z) (w : Z) : option (list access * list Z * Z * option Z) :=
  let reg := w / 2 ^ 16 mod 2 ^ 12 in
  match w / 2 ^ 28 with
  | 0 => Some ([Class (w / 2 ^ 6 mod 2 ^ 10)], mask_regs 6 (w mod 2 ^ 6) reg, w / 2 ^ 6 mod 2 ^ 10, p)
  | 1 => Some ([], incr_regs (w mod 2 ^ 16) reg, c, p)
  | 2 => Some ([], nonincr_regs (w mod 2 ^ 16) reg, c, p)
  | 3 => Some ([], mask_regs 16 (w mod 2 ^ 16) reg, c, p)
  | 4 => Some ([WriteImm c reg], [], c, p)
  | 9 => Some ([], [], c, Some (w mod 2 ^ 16))
  | 10 => count ← p; Some ([], incr_regs count (w mod 2 ^ 22), c, p)
  | 11 => count ← p; Some ([], nonincr_regs count (w mod 2 ^ 22), c, p)
  | _ => None
  end.

Lemma command_word_decode c p w acc regs c1 p1 :
  command_word c p w acc regs c1 p1 -> decode_word c p w = Some (acc, regs, c1, p1).
Proof.
  destruct 1 as [off class mask H1 H2 H3|off n H1 H2|off n H1 H2|off n H1 H2|off n H1 H2|i n H1 H2
    |i off n H1 H2 ->|i off n H1 H2 ->]; unfold decode_word.
  - destruct (setclass_parts _ off class mask eq_refl H1 H2 H3) as (-> & -> & -> & ->). done.
  - destruct (word_parts _ 1 off n eq_refl H1 H2) as (-> & -> & ->). done.
  - destruct (word_parts _ 2 off n eq_refl H1 H2) as (-> & -> & ->). done.
  - destruct (word_parts _ 3 off n eq_refl H1 H2) as (-> & -> & ->). done.
  - destruct (word_parts _ 4 off n eq_refl H1 H2) as (-> & -> & _). done.
  - destruct (word_parts _ 9 i n eq_refl H1 H2) as (-> & _ & ->). done.
  - destruct (wide_parts _ 10 i off eq_refl H1 H2) as (-> & ->). done.
  - destruct (wide_parts _ 11 i off eq_refl H1 H2) as (-> & ->). done.
Qed.

Lemma decode_command_word c p w acc regs c1 p1 : is_u32 w ->
  decode_word c p w = Some (acc, regs, c1, p1) -> command_word c p w acc regs c1 p1.
Proof.
  intros Hw. assert (Ep : w = w / 2 ^ 28 * 2 ^ 28 + w / 2 ^ 16 mod 2 ^ 12 * 2 ^ 16 + w mod 2 ^ 16) by (unfold is_u32 in Hw; field_lia).
  assert (Ec : w = w / 2 ^ 28 * 2 ^ 28 + w / 2 ^ 16 mod 2 ^ 12 * 2 ^ 16 + w / 2 ^ 6 mod 2 ^ 10 * 2 ^ 6 + w mod 2 ^ 6)
    by (unfold is_u32 in Hw; field_lia).
  assert (Ew : w = w / 2 ^ 28 * 2 ^ 28 + w / 2 ^ 22 mod 2 ^ 6 * 2 ^ 22 + w mod 2 ^ 22) by (unfold is_u32 in Hw; field_lia).
  unfold decode_word.
  pose proof (Z.mod_pos_bound (w / 2 ^ 16) (2 ^ 12) eq_refl) as Ba.
  pose proof (Z.mod_pos_bound (w / 2 ^ 6) (2 ^ 10) eq_refl) as Bc.
  pose proof (Z.mod_pos_bound w (2 ^ 6) eq_refl) as Bm.
  pose proof (Z.mod_pos_bound w (2 ^ 16) eq_refl) as Bl.
  pose proof (Z.mod_pos_bound (w / 2 ^ 22) (2 ^ 6) eq_refl) as Bi.
  pose proof (Z.mod_pos_bound w (2 ^ 22) eq_refl) as Bw.
  set (a := w / 2 ^ 16 mod 2 ^ 12) in *. set (k := w / 2 ^ 6 mod 2 ^ 10) in *. set (m := w mod 2 ^ 6) in *.
  set (l := w mod 2 ^ 16) in *. set (i := w / 2 ^ 22 mod 2 ^ 6) in *. set (f := w mod 2 ^ 22) in *.
  set (o := w / 2 ^ 28) in *. clearbody a k m l i f o.
  destruct o as [|o|o]; [|repeat (destruct o as [o|o|]; try done)|done];
    try (destruct p; [cbn [mbind option_bind]|done]); intros [= <- <- <- <-].
  all: first [ rewrite Ep; by constructor | rewrite Ew; by constructor
             | rewrite Ec, Z.mul_0_l, Z.add_0_l; by constructor ].
Qed.

Lemma command_word_det c p w acc regs c1 p1 acc' regs' c1' p1' :
  command_word c p w acc regs c1 p1 -> command_word c p w acc' regs' c1' p1' ->
  acc = acc' /\ regs = regs' /\ c1 = c1' /\ p1 = p1'.
Proof. intros H1%command_word_decode H2%command_word_decode. split_and!; congruence. Qed.

(** A gather has at most one run. *)
Lemma gather_run_det c p ws l c' l2 c2 :
  gather_run c p ws l c' -> gather_run c p ws l2 c2 -> l = l2 /\ c' = c2.
Proof.
  intros H. revert l2 c2. induction H as [c p|c p w acc regs c1 p1 vs rest l c' Hw Hl _ IH]; intros l2 c2 H2.
  - inversion H2. done.
  - inversion H2 as [|? ? ? acc' regs' c1' p1' vs' rest' l' ? Hw' Hl' Hr']; subst.
    destruct (command_word_det _ _ _ _ _ _ _ _ _ _ _ Hw Hw') as (<- & <- & <- & <-).
    assert (vs' = vs /\ rest' = rest) as [-> ->] by (apply app_inj_1; [congruence|done]).
    destruct (IH _ _ Hr') as [-> ->]. done.
Qed.

(** What the payload was before makes no difference to a gather that runs without it. *)
Lemma gather_run_payload c ws l c' : gather_run c None ws l c' -> forall p, gather_run c p ws l c'.
Proof.
  remember None as p0 eqn:E0. intros H. induction H as [c p|c p w acc regs c1 p1 vs rest l c' Hw Hl Hr IH]; intros q.
  - constructor.
  - subst p. destruct p1 as [n|].
    + assert (Hq : command_word c q w acc regs c1 (Some n)) by (inversion Hw; subst; constructor; done).
      by eapply gr_command.
    + assert (Hq : command_word c q w acc regs c1 q) by (inversion Hw; subst; try discriminate; constructor; done).
      eapply gr_command; [exact Hq|done|]. by apply IH.
Qed.

(** * The firewall against the reference semantics *)
Section permitted.
Variables (client : tegra_drm_client) (used : list tegra_drm_used_mapping).

Definition addr_reg (c r : Z) : bool :=
  match is_addr_reg client with None => false | Some f => f c r end.
Definition class_allowed (c : Z) : Prop :=
  match is_valid_class client with None => c = client_class client | Some f => f c = true end.

(** What a job may do: the addresses that it writes to address registers are in buffers
    that it uses, or just past the end of one. *)
Definition permitted (a : access) : Prop :=
  match a with
  | Class c => class_allowed c
  | WriteReg c r v =>
      addr_reg c r = true ->
      Exists (fun um => iova (um_mapping um) <= v <= iova_end (um_mapping um)) used
  | WriteImm c r => addr_reg c r = false
  end.
End permitted.

Section correct.
Variables (client : tegra_drm_client) (data : list Z) (used : list tegra_drm_used_mapping).
Hypothesis small : Z.of_nat (length data) < 2 ^ 32.

(** The words that are left of the gather. *)
Definition left_words (fw : tegra_drm_firewall) (ws : list Z) : Prop :=
  exists pre post, data = pre ++ ws ++ post /\ fw_pos fw = Z.of_nat (length pre) /\
    fw_end fw = Z.of_nat (length pre + length ws).

Lemma next_end fw : left_words fw [] -> fw_next data fw = Some (inl (- EINVAL)).
Proof.
  intros (pre & post & _ & Ep & Ee). unfold fw_next. rewrite (proj2 (Z.eqb_eq _ _)); [done|].
  simpl in Ee. lia.
Qed.

Lemma next_word fw w ws : left_words fw (w :: ws) ->
  exists fw', fw_next data fw = Some (inr (w, fw')) /\ fw_cls fw' = fw_cls fw /\ left_words fw' ws.
Proof.
  intros (pre & post & Ed & Ep & Ee). unfold fw_next. cbn [length] in Ee.
  rewrite (proj2 (Z.eqb_neq _ _)) by lia. unfold array_get.
  rewrite (proj2 (Z.ltb_ge _ _)), Ep, Nat2Z.id by lia.
  assert (El : data !! length pre = Some w) by (rewrite Ed; by apply list_lookup_middle).
  rewrite El. cbn [mbind option_bind]. eexists. split; [done|]. split; [done|].
  exists (pre ++ [w]), post. rewrite length_app. cbn [length].
  assert (Hb : Z.of_nat (length pre + 1) < 2 ^ 32).
  { rewrite Ed in small. rewrite length_app in small. cbn [length app] in small. lia. }
  split; [by rewrite Ed, <- app_assoc|]. split; [|cbn; lia].
  cbn [fw_pos set_pos]. rewrite u32_id by (unfold is_u32; lia). lia.
Qed.

Lemma addr_valid v :
  fw_check_addr_valid used v = true <->
  Exists (fun um => iova (um_mapping um) <= v <= iova_end (um_mapping um)) used.
Proof.
  unfold fw_check_addr_valid. induction used as [|um us IH]; simpl; [by rewrite Exists_nil|].
  rewrite Exists_cons, orb_true_iff, IH, andb_true_iff, !Z.leb_le. done.
Qed.

(** The loops of the firewall are one loop over a list of registers. *)
Fixpoint check_regs (fw : tegra_drm_firewall) (regs : list Z) : option (Z * tegra_drm_firewall) :=
  match regs with
  | [] => Some (0, fw)
  | r :: regs =>
      '(err, fw) ← fw_check_reg client data used fw r;
      if negb (err =? 0) then Some (- EINVAL, fw) else check_regs fw regs
  end.

Lemma check_seq_incr fw off n : 0 <= off -> off + Z.of_nat n < 2 ^ 32 ->
  fw_check_regs_seq client data used fw off n true =
    check_regs fw ((fun i => off + Z.of_nat i) <$> seq 0 n).
Proof.
  revert fw off. induction n as [|n IH]; intros fw off Ho Hb; [done|].
  cbn [fw_check_regs_seq seq fmap list_fmap check_regs]. rewrite Z.add_0_r.
  destruct (fw_check_reg client data used fw off) as [[err fw1]|]; [|done]. cbn [mbind option_bind].
  destruct (negb (err =? 0)); [done|]. rewrite u32_id by (unfold is_u32; lia). rewrite IH by lia.
  rewrite <- fmap_S_seq, <- list_fmap_compose. f_equal. apply list_fmap_ext. intros i x _. simpl. lia.
Qed.
Lemma check_seq_same fw off n :
  fw_check_regs_seq client data used fw off n false = check_regs fw (replicate n off).
Proof.
  revert fw. induction n as [|n IH]; intros fw; [done|].
  cbn [fw_check_regs_seq replicate check_regs].
  destruct (fw_check_reg client data used fw off) as [[err fw1]|]; [|done]. cbn [mbind option_bind].
  by rewrite IH.
Qed.
Lemma check_bits fw off mask bits : 0 <= off -> off + 16 < 2 ^ 32 -> Forall (fun b => (b < 16)%nat) bits ->
  fw_check_bits client data used fw off mask bits =
    check_regs fw ((fun i => off + Z.of_nat i) <$> filter (fun i => Z.testbit mask (Z.of_nat i) = true) bits).
Proof.
  intros Ho Hb Hl. revert fw. induction Hl as [|b bits Hlt _ IH]; intros fw; [done|].
  cbn [fw_check_bits]. rewrite filter_cons. destruct (Z.testbit mask (Z.of_nat b)) eqn:Et; cbn [negb].
  - rewrite decide_True by done. cbn [fmap list_fmap check_regs].
    rewrite u32_id by (unfold is_u32; lia).
    destruct (fw_check_reg client data used fw (off + Z.of_nat b)) as [[err fw1]|]; [|done].
    cbn [mbind option_bind]. by rewrite IH.
  - rewrite decide_False by done. apply IH.
Qed.
Lemma check_mask16 fw off mask : 0 <= off < 2 ^ 12 -> 0 <= mask < 2 ^ 16 ->
  fw_check_regs_mask client data used fw off mask = check_regs fw (mask_regs 16 mask off).
Proof.
  intros Ho Hm. unfold fw_check_regs_mask, mask_regs. rewrite u16_id by (unfold is_u16; lia).
  apply check_bits; [lia|lia|]. by repeat constructor; lia.
Qed.
Lemma mask6 mask off : 0 <= mask < 2 ^ 6 -> mask_regs 16 mask off = mask_regs 6 mask off.
Proof.
  intros Hm. unfold mask_regs. f_equal. change (seq 0 16) with (seq 0 6 ++ seq 6 10).
  rewrite filter_app. rewrite <- (app_nil_r (filter _ (seq 0 6))) at 2. f_equal.
  assert (Hl : Forall (fun i => (6 <= i)%nat) (seq 6 10)) by (by repeat constructor; lia).
  induction Hl as [|i l Hi _ IH]; [done|]. rewrite filter_cons_False; [done|].
  apply not_true_iff_false, Z.testbit_false; [lia|]. rewrite Z.div_small; [done|].
  assert (2 ^ 6 <= 2 ^ Z.of_nat i) by (apply Z.pow_le_mono_r; lia). lia.
Qed.

Lemma check_reg fw w ws r : left_words fw (w :: ws) ->
  exists fw', fw_cls fw' = fw_cls fw /\ left_words fw' ws /\
    ((fw_check_reg client data used fw r = Some (0, fw') /\ permitted client used (WriteReg (fw_cls fw) r w)) \/
     (fw_check_reg client data used fw r = Some (- EINVAL, fw') /\
      ~ permitted client used (WriteReg (fw_cls fw) r w))).
Proof.
  intros (fw' & En & Ec & Hl)%next_word. exists fw'. split; [done|]. split; [done|].
  unfold fw_check_reg. rewrite En. cbn [mbind option_bind permitted]. unfold addr_reg.
  destruct (is_addr_reg client) as [f|]; [|left; split; [done|discriminate]]. rewrite Ec.
  destruct (f (fw_cls fw) r); cbn [negb]; [|left; split; [done|discriminate]].
  destruct (fw_check_addr_valid used w) eqn:Ev; cbn [negb].
  - left. split; [done|]. intros _. by apply addr_valid.
  - right. split; [done|]. intros H. specialize (H eq_refl). apply addr_valid in H. congruence.
Qed.

(** The operands of a command: accepted, or there are too few or one is not permitted. *)
Lemma check_operands regs : forall fw ws, left_words fw ws ->
  (exists fw' vs rest, check_regs fw regs = Some (0, fw') /\ ws = vs ++ rest /\ length vs = length regs /\
     fw_cls fw' = fw_cls fw /\ left_words fw' rest /\
     Forall (permitted client used) (zip_with (WriteReg (fw_cls fw)) regs vs)) \/
  (exists fw', check_regs fw regs = Some (- EINVAL, fw') /\
     forall vs rest, ws = vs ++ rest -> length vs = length regs ->
       ~ Forall (permitted client used) (zip_with (WriteReg (fw_cls fw)) regs vs)).
Proof.
  induction regs as [|r regs IH]; intros fw ws Hl; cbn [check_regs].
  { left. exists fw, [], ws. by split_and!. }
  destruct ws as [|w ws].
  { right. unfold fw_check_reg. rewrite next_end by done. cbn. exists fw. split; [done|].
    intros [|??] rest E El; simpl in *; [lia|done]. }
  destruct (check_reg fw w ws r Hl) as (fw1 & Ec & Hl1 & [[-> Hp]|[-> Hp]]); cbn [mbind option_bind Z.eqb negb].
  - rewrite <- Ec in Hp. destruct (IH fw1 ws Hl1) as [(fw' & vs & rest & E & -> & Hn & Ec' & Hr & Hf)|(fw' & E & Hf)].
    + left. exists fw', (w :: vs), rest. rewrite Ec in Hf, Ec', Hp.
      split_and!; [done|done|simpl; lia|done|done|by constructor].
    + right. exists fw'. split; [done|]. intros [|v vs] rest E' Hn Hv; [done|]. injection E' as <- ->.
      apply Forall_cons in Hv as [_ Hv]. rewrite Ec in Hf. injection Hn as Hn. by apply (Hf vs rest).
  - right. exists fw1. split; [done|]. intros [|v vs] rest E' Hn Hv; [done|]. injection E' as <- ->.
    by apply Forall_cons in Hv as [Hv _].
Qed.

Lemma check_class c :
  (fw_check_class client c = 0 /\ class_allowed client c) \/
  (fw_check_class client c = - EINVAL /\ ~ class_allowed client c).
Proof.
  unfold fw_check_class, class_allowed. destruct (is_valid_class client) as [f|].
  - destruct (f c); simpl; [by left|right; by split].
  - destruct (Z.eqb_spec c (client_class client)); [by left|right; by split].
Qed.

Definition payload_ok (p : option Z) : Prop := match p with Some n => 0 <= n < 2 ^ 16 | None => True end.

Lemma set_same_class fw : set_fw_class fw (fw_cls fw) = fw.
Proof. by destruct fw. Qed.

(** One command, for the decoder [decode_word]. *)
Lemma validate_op fw p w : is_u32 w -> payload_ok p ->
  match decode_word (fw_cls fw) p w with
  | None => fw_validate_op client data used fw p w = Some (- EINVAL, fw, p)
  | Some (acc, regs, c1, p1) =>
      payload_ok p1 /\
      (Forall (permitted client used) acc /\ fw_validate_op client data used fw p w =
         ('(err, fw') ← check_regs (set_fw_class fw c1) regs; Some (err, fw', p1)) \/
       ~ Forall (permitted client used) acc /\
         fw_validate_op client data used fw p w = Some (- EINVAL, set_fw_class fw c1, p1))
  end.
Proof.
  intros Hw Hp. unfold decode_word, fw_validate_op.
  rewrite opcode_div, reg_div, class_div, low_mod, mask_mod, wide_mod by done.
  pose proof (Z.mod_pos_bound (w / 2 ^ 16) (2 ^ 12) eq_refl) as Ba.
  pose proof (Z.mod_pos_bound w (2 ^ 6) eq_refl) as Bm.
  pose proof (Z.mod_pos_bound w (2 ^ 16) eq_refl) as Bl.
  pose proof (Z.mod_pos_bound w (2 ^ 22) eq_refl) as Bw.
  set (a := w / 2 ^ 16 mod 2 ^ 12) in *. set (k := w / 2 ^ 6 mod 2 ^ 10) in *. set (m := w mod 2 ^ 6) in *.
  set (l := w mod 2 ^ 16) in *. set (f := w mod 2 ^ 22) in *. set (o := w / 2 ^ 28) in *.
  clearbody a k m l f o. cbv zeta.
  destruct o as [|o|o]; [|repeat (destruct o as [o|o|]; try done)|done];
    try (destruct p as [n|]; [cbn [mbind option_bind payload_ok] in *|done]);
    try (split; [done|]); rewrite ?set_same_class.
  all: try (left; split; [done|]; first [ done | by rewrite check_mask16 by lia
    | unfold nonincr_regs; by rewrite check_seq_same | unfold incr_regs; by rewrite check_seq_incr by lia ]).
  - destruct (check_class k) as [[-> Hk]|[-> Hk]]; cbn [Z.eqb EINVAL].
    + left. split; [by constructor|]. by rewrite check_mask16, mask6 by lia.
    + right. split; [|done]. intros H%Forall_inv. done.
  - unfold fw_check_regs_imm. destruct (addr_reg client (fw_cls fw) a) eqn:Er; unfold addr_reg in Er.
    + right. split; [|destruct (is_addr_reg client); [by rewrite Er|done]].
      intros H%Forall_inv. simpl in H. unfold addr_reg in H. congruence.
    + left. split; [by repeat constructor|]. destruct (is_addr_reg client); [by rewrite Er|done].
Qed.

(** A run of a nonempty gather starts with what its first word decodes to. *)
Lemma gather_run_inv c p w ws l c' :
  gather_run c p (w :: ws) l c' -> exists acc regs c1 p1 vs rest l1,
    decode_word c p w = Some (acc, regs, c1, p1) /\ ws = vs ++ rest /\ length vs = length regs /\
    l = acc ++ zip_with (WriteReg c1) regs vs ++ l1 /\ gather_run c1 p1 rest l1 c'.
Proof.
  inversion 1 as [|? ? ? acc regs c1 p1 vs rest l1 ? Hw Hl Hr]; subst.
  exists acc, regs, c1, p1, vs, rest, l1. split; [by apply command_word_decode|]. by split_and!.
Qed.

Abbreviation permits := (permitted client used).

Lemma validate_loop fuel : forall fw p ws,
  left_words fw ws -> Forall is_u32 ws -> payload_ok p -> (length ws <= fuel)%nat ->
  exists err c', fw_validate_loop client data used fuel fw p = Some (err, c') /\ (err = 0 \/ err = - EINVAL) /\
    (err = 0 -> exists l, gather_run (fw_cls fw) p ws l c' /\ Forall permits l) /\
    (forall l c2, gather_run (fw_cls fw) p ws l c2 -> Forall permits l -> err = 0).
Proof.
  induction fuel as [|fuel IH]; intros fw p ws Hl Hw Hp Hf.
  all: destruct ws as [|w ws].
  1, 3: exists 0, (fw_cls fw); cbn [fw_validate_loop]; destruct Hl as (pre & post & _ & Ep & Ee);
    simpl in Ee; rewrite (proj2 (Z.eqb_eq _ _)) by lia; split_and!; try done; [by left|];
    exists []; split; [constructor|done].
  { simpl in Hf. lia. }
  assert (Hne : (fw_pos fw =? fw_end fw) = false).
  { destruct Hl as (pre & post & _ & Ep & Ee). simpl in Ee. apply Z.eqb_neq. lia. }
  cbn [fw_validate_loop]. rewrite Hne. destruct (next_word fw w ws Hl) as (fw1 & -> & Ec & Hl1).
  cbn [mbind option_bind]. apply Forall_cons in Hw as [Hw Hws]. cbn [length] in Hf.
  pose proof (validate_op fw1 p w Hw Hp) as Hop. rewrite <- Ec.
  assert (Hfail : forall fw' p', fw_validate_op client data used fw1 p w = Some (- EINVAL, fw', p') ->
    (forall l c2, gather_run (fw_cls fw1) p (w :: ws) l c2 -> ~ Forall permits l) ->
    exists err c', ('(err, fw, payload) ← fw_validate_op client data used fw1 p w;
        if negb (err =? 0) then Some (err, fw_cls fw) else fw_validate_loop client data used fuel fw payload)
      = Some (err, c') /\ (err = 0 \/ err = - EINVAL) /\
    (err = 0 -> exists l, gather_run (fw_cls fw1) p (w :: ws) l c' /\ Forall permits l) /\
    (forall l c2, gather_run (fw_cls fw1) p (w :: ws) l c2 -> Forall permits l -> err = 0)).
  { intros fw' p' E Hn. rewrite E. cbn. exists (- EINVAL), (fw_cls fw'). split_and!; [done|by right|done|].
    intros l c2 H1 H2. by destruct (Hn l c2 H1). }
  destruct (decode_word (fw_cls fw1) p w) as [[[[acc regs] c1] p1]|] eqn:Ed.
  2: { eapply Hfail; [exact Hop|]. intros l c2 H. apply gather_run_inv in H as (?&?&?&?&?&?&?& E & _). congruence. }
  destruct Hop as [Hp1 [[Hacc Eo]|[Hacc Eo]]].
  2: { eapply Hfail; [exact Eo|]. intros l c2 H. apply gather_run_inv in H as (?&?&?&?&?&?&?& E & _ & _ & -> & _).
       rewrite Ed in E. injection E as <- <- <- <-. by intros [? _]%Forall_app. }
  assert (Hl1' : left_words (set_fw_class fw1 c1) ws) by done.
  destruct (check_operands regs _ ws Hl1') as [(fw2 & vs & rest & E & -> & Hn & Ec2 & Hr & Hv)|(fw2 & E & Hv)];
    rewrite E in Eo; cbn [mbind option_bind set_fw_class fw_cls] in Eo, Hv.
  2: { eapply Hfail; [exact Eo|]. intros l c2 H.
       apply gather_run_inv in H as (acc' & regs' & c1' & p1' & vs & rest & l1 & E' & -> & Hn & -> & _).
       rewrite Ed in E'. injection E' as <- <- <- <-. intros [_ [H _]%Forall_app]%Forall_app. by eapply Hv. }
  clear Hfail. rewrite Eo. cbn [mbind option_bind Z.eqb negb]. apply Forall_app in Hws as [_ Hws].
  cbn [set_fw_class fw_cls] in Ec2. rewrite length_app in Hf.
  destruct (IH fw2 p1 rest Hr Hws Hp1 ltac:(lia)) as (err & c' & -> & Herr & Hs & Hc). rewrite Ec2 in Hs, Hc.
  exists err, c'. split_and!; [done|done| |].
  - intros (l & Hrun & Hl2)%Hs. eexists. split; [eapply gr_command; [by apply decode_command_word|done|exact Hrun]|].
    rewrite !Forall_app. by split_and!.
  - intros l c2 H. apply gather_run_inv in H as (? & ? & ? & ? & vs' & rest' & l1 & E' & Ev & Hn' & -> & H).
    rewrite Ed in E'. injection E' as <- <- <- <-. apply app_inj_1 in Ev as [<- <-]; [|congruence].
    rewrite !Forall_app. intros (_ & _ & Hl2). by apply (Hc l1 c2).
Qed.

(** C7. The firewall accepts a gather exactly when the hardware can execute it to its end
    and everything it does is permitted: the classes it selects are those of the client,
    the addresses it writes to address registers lie in mappings the job uses, and no
    immediate is written to an address register.  It then reports the class that is
    selected at the end.  It never reads outside the gather and it always comes to an
    end. *)
Theorem fw_validate_correct start words c :
  0 <= start -> 0 <= words -> start + words <= Z.of_nat (length data) -> Forall is_u32 data ->
  exists err c', tegra_drm_fw_validate client data used start words c = Some (err, c') /\
    (err = 0 \/ err = - EINVAL) /\
    let ws := take (Z.to_nat words) (drop (Z.to_nat start) data) in
    (err = 0 -> exists l, gather_run c None ws l c' /\ Forall permits l) /\
    (forall l c2, gather_run c None ws l c2 -> Forall permits l -> err = 0 /\ c2 = c').
Proof.
  intros Hs Hw Hb Hu. set (ws := take (Z.to_nat words) (drop (Z.to_nat start) data)).
  assert (Hlw : length ws = Z.to_nat words) by (unfold ws; rewrite length_take, length_drop; lia).
  unfold tegra_drm_fw_validate. rewrite u32_id by (unfold is_u32; lia).
  destruct (validate_loop (Z.to_nat words) (DrmFw start (start + words) c) None ws) as (err & c' & E & He & H1 & H2).
  - exists (take (Z.to_nat start) data), (drop (Z.to_nat words) (drop (Z.to_nat start) data)).
    unfold ws. rewrite !take_drop. split; [done|]. cbn. rewrite length_take. fold ws. rewrite Hlw. lia.
  - unfold ws. by apply Forall_take, Forall_drop.
  - done.
  - lia.
  - exists err, c'. split_and!; [done|done|done|]. intros l c2 Hr Hf. assert (E0 : err = 0) by eauto.
    split; [done|]. destruct (H1 E0) as (l' & Hr' & _). by destruct (gather_run_det _ _ _ _ _ _ _ Hr Hr') as [_ ->].
Qed.
End correct.

(** A gather for gr2d that selects its second class, writes two registers, one of which
    takes an address, and then a third with a payload. *)
Definition gr2d_gather : list Z :=
  [0x1480; 0x102a0002; 5; 0x80000010; 0x90000001; 0xa0000031; 0x80001000].
Definition gr2d_buffer : tegra_drm_used_mapping := UsedMapping (DrmMapping 1 2 0x80000000 0x80001000) 0.

Lemma gr2d_run : exists l, gather_run 0x51 None gr2d_gather l 0x52 /\
  l = [Class 0x52; WriteReg 0x52 0x2a 5; WriteReg 0x52 0x2b 0x80000010; WriteReg 0x52 0x31 0x80001000].
Proof.
  eexists. split.
  - apply (gr_command _ _ _ [Class 0x52] [] 0x52 None []); [by apply decode_command_word|done|].
    apply (gr_command _ _ _ [] [0x2a; 0x2b] 0x52 None [5; 0x80000010]); [by apply decode_command_word|done|].
    apply (gr_command _ _ _ [] [] 0x52 (Some 1) []); [by apply decode_command_word|done|].
    apply (gr_command _ _ _ [] [0x31] 0x52 (Some 1) [0x80001000]); [by apply decode_command_word|done|].
    constructor.
  - reflexivity.
Qed.

(** The address that is one past the end of the mapping is accepted. *)
Lemma fw_validate_correct_witness :
  exists l, gather_run 0x51 None gr2d_gather l 0x52 /\
    Forall (permitted gr2d [gr2d_buffer]) l /\ WriteReg 0x52 0x31 0x80001000 ∈ l.
Proof.
  destruct (fw_validate_correct gr2d gr2d_gather [gr2d_buffer] eq_refl 0 7 0x51) as (err & c' & E & _ & H1 & _);
    [lia|lia|done|by repeat constructor|].
  vm_compute in E. injection E as <- <-. destruct (H1 eq_refl) as (l & Hr & Hf). exists l. split; [exact Hr|].
  split; [exact Hf|]. destruct gr2d_run as (l' & Hr' & El).
  destruct (gather_run_det _ _ _ _ _ _ _ Hr Hr') as [-> _]. rewrite El. set_solver.
Defined.
