(* ===== verification/DrmRefs.v ===== *)
(** What the Tegra DRM driver holds: memory it has allocated, references it has taken,
    locks and power references, as a multiset.  Releasing what is not held, which would be
    a use after free, has no result.  With it the reference-counted objects of uapi.c and
    host1x's memory contexts (src/drivers/gpu/drm/tegra/uapi.c, submit.c). *)
From stdpp Require Export gmultiset countable.
From S2P Require Export Prelude.
From S2P Require Import DrmFirewall.

#[global] Open Scope Z_scope.

Inductive resource :=
  (* the ioctl *)
  | FprivLock | FenceRef | SyncobjRef | BufsMem | CmdsMem
  (* the gather buffer object of a submission *)
  | BoRef | BoMem | GatherData | BoMapMem | BoSgt | BoDma | Iova (a : Z) | IommuMap (a : Z)
  (* the job and what belongs to it *)
  | JobRef | JobMem | JobData | Timestamps | UsedMappings | SyncptRef (id : Z) | MemctxRef (c : ptr)
  | PowerRef | JobFence | PostFence
  (* mappings of a channel *)
  | MappingRef (m : ptr) | MappingMem (m : ptr) | BoPin (m : ptr) | GemRef (bo : ptr)
  (* channel contexts *)
  | ContextMem (c : ptr) | ChannelRef (ch : ptr) | PidRef (pid : ptr).

#[export] Instance resource_eq_dec : EqDecision resource.
Proof. solve_decision. Defined.

#[export] Instance resource_countable : Countable resource.
Proof.
  refine (inj_countable'
    (fun r => match r with
     | FprivLock => (0%nat, 0) | FenceRef => (1%nat, 0) | SyncobjRef => (2%nat, 0) | BufsMem => (3%nat, 0)
     | CmdsMem => (4%nat, 0) | BoRef => (5%nat, 0) | BoMem => (6%nat, 0) | GatherData => (7%nat, 0)
     | BoMapMem => (8%nat, 0) | BoSgt => (9%nat, 0) | BoDma => (10%nat, 0) | Iova a => (11%nat, a)
     | IommuMap a => (12%nat, a) | JobRef => (13%nat, 0) | JobMem => (14%nat, 0) | JobData => (15%nat, 0)
     | Timestamps => (16%nat, 0) | UsedMappings => (17%nat, 0) | SyncptRef i => (18%nat, i)
     | MemctxRef c => (19%nat, Z.pos c) | PowerRef => (20%nat, 0) | JobFence => (21%nat, 0)
     | MappingRef m => (22%nat, Z.pos m) | MappingMem m => (23%nat, Z.pos m) | BoPin m => (24%nat, Z.pos m)
     | GemRef b => (25%nat, Z.pos b) | ContextMem c => (26%nat, Z.pos c) | ChannelRef c => (27%nat, Z.pos c)
     | PidRef p => (28%nat, Z.pos p) | PostFence => (29%nat, 0)
     end)
    (fun c => let p := Z.to_pos (snd c) in
     match fst c with
     | 0 => FprivLock | 1 => FenceRef | 2 => SyncobjRef | 3 => BufsMem | 4 => CmdsMem
     | 5 => BoRef | 6 => BoMem | 7 => GatherData | 8 => BoMapMem | 9 => BoSgt
     | 10 => BoDma | 11 => Iova (snd c) | 12 => IommuMap (snd c) | 13 => JobRef | 14 => JobMem
     | 15 => JobData | 16 => Timestamps | 17 => UsedMappings | 18 => SyncptRef (snd c) | 19 => MemctxRef p
     | 20 => PowerRef | 21 => JobFence | 22 => MappingRef p | 23 => MappingMem p | 24 => BoPin p
     | 25 => GemRef p | 26 => ContextMem p | 27 => ChannelRef p | 28 => PidRef p | _ => PostFence
     end%nat) _).
  by intros [].
Defined.

Abbreviation ledger := (gmultiset resource).

Definition acquire (r : resource) (s : ledger) : ledger := {[+ r +]} ⊎ s.
Definition release (r : resource) (s : ledger) : option ledger :=
  if decide (r ∈ s) then Some (s ∖ {[+ r +]}) else None.
Definition release_if (b : bool) (r : resource) (s : ledger) : option ledger :=
  if b then release r s else Some s.

#[global] Arguments acquire _ _ : simpl never.
#[global] Arguments release _ _ : simpl never.

Lemma release_hit r s : release r (acquire r s) = Some s.
Proof.
  unfold release, acquire. rewrite decide_True by multiset_solver. f_equal. multiset_solver.
Qed.
Lemma release_skip r r' s : r <> r' -> release r (acquire r' s) = acquire r' <$> release r s.
Proof.
  intros Hne. unfold release, acquire.
  destruct (decide (r ∈ s)) as [Hin|Hin].
  - rewrite decide_True by multiset_solver. simpl. f_equal.
    assert (Es : s = {[+ r +]} ⊎ (s ∖ {[+ r +]})) by (apply gmultiset_disj_union_difference'; done).
    revert Es. generalize (s ∖ {[+ r +]}). intros s' ->. multiset_solver.
  - rewrite decide_False; [done|]. multiset_solver.
Qed.
Lemma acquire_comm r r' s : acquire r (acquire r' s) = acquire r' (acquire r s).
Proof. unfold acquire. multiset_solver. Qed.
Lemma elem_acquire r r' s : r ∈ acquire r' s <-> r = r' \/ r ∈ s.
Proof. unfold acquire. multiset_solver. Qed.

(** A list of resources on top of a ledger. *)
Definition acquires (rs : list resource) (s : ledger) : ledger := foldr acquire s rs.

Lemma acquires_app rs rs' s : acquires (rs ++ rs') s = acquires rs (acquires rs' s).
Proof. unfold acquires. apply foldr_app. Qed.
Lemma acquires_acquire rs r s : acquires rs (acquire r s) = acquire r (acquires rs s).
Proof. induction rs as [|r' rs IH]; simpl; [done|]. by rewrite IH, acquire_comm. Qed.
#[export] Instance acquires_perm : Proper ((≡ₚ) ==> (=) ==> (=)) acquires.
Proof.
  intros l k H s ? <-. induction H as [|r l k _ IH|r r' l|l k m _ IH1 _ IH2]; simpl.
  - done.
  - by rewrite IH.
  - apply acquire_comm.
  - congruence.
Qed.
Lemma elem_acquires r rs s : r ∈ acquires rs s <-> r ∈ rs \/ r ∈ s.
Proof. induction rs as [|r' rs IH]; simpl; [set_solver|]. rewrite elem_acquire, IH. set_solver. Qed.

(** Releasing one of them, whatever the order. *)
Lemma release_acquires rs r rs' s : rs ≡ₚ r :: rs' -> release r (acquires rs s) = Some (acquires rs' s).
Proof. intros ->. apply release_hit. Qed.

Lemma release_skip_list r rs s : r ∉ rs -> release r (acquires rs s) = acquires rs <$> release r s.
Proof.
  induction rs as [|r' rs IH]; intros Hr; simpl; [by destruct (release r s)|].
  apply not_elem_of_cons in Hr as [Hne Hr]. rewrite release_skip, IH by done. by destruct (release r s).
Qed.

Definition acquire_if (b : bool) (r : resource) (s : ledger) : ledger := if b then acquire r s else s.
Lemma release_if_hit b r s : release_if b r (acquire_if b r s) = Some s.
Proof. destruct b; [apply release_hit|done]. Qed.
Lemma release_if_false r s : release_if false r s = Some s.
Proof. done. Qed.
Lemma release_if_true r s : release_if true r s = release r s.
Proof. done. Qed.
Lemma release_skip_if r b r' s : r <> r' -> release r (acquire_if b r' s) = acquire_if b r' <$> release r s.
Proof. intros. destruct b; [by apply release_skip|]. simpl. by destruct (release r s). Qed.
Lemma elem_acquire_if r b r' s : r ∈ acquire_if b r' s <-> (b = true /\ r = r') \/ r ∈ s.
Proof. destruct b; simpl; [rewrite elem_acquire; tauto|intuition discriminate]. Qed.
#[global] Arguments acquire_if _ _ _ : simpl never.
#[global] Arguments release_if _ _ _ : simpl never.

(** As multisets. *)
Lemma acquires_union rs s : acquires rs s = list_to_set_disj rs ⊎ s.
Proof.
  induction rs as [|r rs IH]; simpl; [multiset_solver|]. rewrite IH. unfold acquire. multiset_solver.
Qed.
Lemma acquire_if_union b r s : acquire_if b r s = (if b then {[+ r +]} else ∅) ⊎ s.
Proof. destruct b; [done|]. unfold acquire_if. multiset_solver. Qed.

(** What is not in a list of resources of one kind. *)
Create HintDb fresh_resource.

(** [ledger_step] releases what has been acquired before. *)
Ltac ledger_step :=
  cbn [mbind option_bind];
  repeat first
    [ rewrite release_hit; cbn [mbind option_bind fmap option_fmap option_map]
    | rewrite release_if_hit; cbn [mbind option_bind fmap option_fmap option_map]
    | rewrite release_skip by (discriminate || congruence)
    | rewrite release_skip_if by (discriminate || congruence)
    | rewrite release_skip_list by (auto with fresh_resource) ].
(** [ledger_in] and [ledger_out]: something is held, or not. *)
Ltac ledger_elem := repeat first [ rewrite elem_acquire | rewrite elem_acquire_if | rewrite elem_acquires ].
Ltac ledger_in := ledger_elem; auto 20.
Ltac ledger_out :=
  ledger_elem; let H := fresh in intros H;
  repeat match type of H with _ \/ _ => destruct H as [H|H] | _ /\ _ => destruct H as [_ H] end;
  try discriminate H;
  try match type of H with ?r ∈ ?l => exfalso; revert H; change (r ∉ l); solve [auto with fresh_resource] end.
(** [ledger_eq] proves that two ledgers hold the same. *)
Ltac ledger_eq := rewrite ?acquires_union, ?acquire_if_union; unfold acquire; multiset_solver.

(** * Mappings (uapi.c) *)

Definition tegra_drm_mapping_release (m : tegra_drm_mapping) (s : ledger) : option ledger :=
  s ← release (BoPin (mapping_id m)) s;
  s ← release (GemRef (mapping_bo m)) s;
  release (MappingMem (mapping_id m)) s.

Definition tegra_drm_mapping_put (m : tegra_drm_mapping) (s : ledger) : option ledger :=
  s ← release (MappingRef (mapping_id m)) s;
  if decide (MappingRef (mapping_id m) ∈ s) then Some s else tegra_drm_mapping_release m s.

(** xa_load and kref_get in one critical section of the xarray. *)
Definition tegra_drm_mapping_get (mappings : gmap Z tegra_drm_mapping) (id : Z) (s : ledger)
    : option (tegra_drm_mapping * ledger) :=
  m ← mappings !! id; Some (m, acquire (MappingRef (mapping_id m)) s).

(** The mapping stays as long as there is another reference. *)
Lemma mapping_put_shared m s :
  MappingRef (mapping_id m) ∈ s ->
  tegra_drm_mapping_put m (acquire (MappingRef (mapping_id m)) s) = Some s.
Proof.
  intros Hin. unfold tegra_drm_mapping_put. rewrite release_hit. cbn [mbind option_bind].
  by rewrite decide_True.
Qed.

Fixpoint put_mappings (ms : list tegra_drm_mapping) (s : ledger) : option ledger :=
  match ms with [] => Some s | m :: ms => s ← tegra_drm_mapping_put m s; put_mappings ms s end.

Definition mapping_refs (ms : list tegra_drm_mapping) : list resource :=
  (fun m => MappingRef (mapping_id m)) <$> ms.

Lemma not_in_mapping_refs r ms : (forall m, r <> MappingRef m) -> r ∉ mapping_refs ms.
Proof. intros Hr. unfold mapping_refs. rewrite list_elem_of_fmap. intros (m & -> & _). by apply (Hr (mapping_id m)). Qed.
#[export] Hint Extern 1 (_ ∉ mapping_refs _) => apply not_in_mapping_refs; discriminate : fresh_resource.

Lemma put_mappings_shared ms s :
  Forall (fun m => MappingRef (mapping_id m) ∈ s) ms ->
  put_mappings ms (acquires (mapping_refs ms) s) = Some s.
Proof.
  intros H. induction ms as [|m ms IH]; [done|]. apply Forall_cons in H as [Hm H].
  cbn [put_mappings mapping_refs fmap list_fmap acquires foldr].
  rewrite mapping_put_shared by (apply elem_acquires; by right). by apply IH.
Qed.
