(* ===== verification/DrmSubmit.v ===== *)
(** Job submission of the Tegra DRM driver
    (src/drivers/gpu/drm/tegra/submit.c: tegra_drm_ioctl_channel_submit and what it
    calls, release_job and the gather buffer object).

    What the caller holds is threaded through as a ledger ([DrmRefs]); [None] is an access
    outside an array, a release of something that is not held, or a shift by 64 or more.
    The answers of the kernel and of user space are the members of [submit_env]. *)
From S2P Require Import DrmRefs Prelude Host1xJob Host1xFirewall DrmFirewall.

(** * The interface to user space (drm/tegra_drm_next.h) *)
Definition DRM_TEGRA_SUBMIT_RELOC_SECTOR_LAYOUT := 1.
Definition DRM_TEGRA_SUBMIT_CMD_GATHER_UPTR := 0.
Definition DRM_TEGRA_SUBMIT_CMD_WAIT_SYNCPT := 1.
Definition DRM_TEGRA_SUBMIT_CMD_WAIT_SYNCPT_RELATIVE := 2.
Definition DRM_TEGRA_SUBMIT_SECONDARY_SYNCPT := 1.

(** struct drm_tegra_submit_buf. *)
Record drm_tegra_submit_buf := SubmitBuf {
  buf_mapping : Z;
  buf_flags : Z;
  target_offset : Z;
  gather_offset_words : Z;
  reloc_shift : Z }.

(** struct drm_tegra_submit_cmd: the union is four words, [gather_uptr] is [words] and
    three reserved words, [wait_syncpt] is [id], [value] and two reserved words. *)
Record drm_tegra_submit_cmd := SubmitCmd { cmd_type : Z; cmd_flags : Z; cmd_u : Z * Z * Z * Z }.
Definition cmd_word (i : nat) (cmd : drm_tegra_submit_cmd) : Z :=
  let '(a, b, c, d) := cmd_u cmd in
  match i with O => a | 1%nat => b | 2%nat => c | _ => d end.

(** struct drm_tegra_channel_submit, less the pointers: what they point to is in [submit_env]. *)
Record drm_tegra_channel_submit := ChannelSubmit {
  args_context : Z;
  num_bufs : Z;
  num_cmds : Z;
  gather_data_words : Z;
  syncobj_in : Z;
  syncobj_out : Z;
  syncpt_id : Z;
  syncpt_flags : Z;
  syncpt_increments : Z;
  args_flags : Z;
  secondary_syncpt_id : Z }.

(** struct tegra_drm_context (drm.h). *)
Record tegra_drm_context := DrmContext {
  ctx_client : tegra_drm_client;
  ctx_mappings : gmap Z tegra_drm_mapping;
  ctx_memory_context : option ptr;
  ctx_addr : ptr;                 (* the object itself *)
  ctx_channel : ptr }.

(** What the allocations and the two calls of the DMA API in gather_bo_pin answer: [true] is
    memory, and the calls answer 0 or a negative error. *)
Record pin_answer := PinAnswer { map_mem : bool; map_sgt : bool; get_sgtable : Z; map_sgtable : Z }.

(** The callbacks of the client that the submission calls, with the error and the result
    that they answer; the kernel configuration; and the answers of the kernel: [true] is
    success for an allocation, an address is that of the memory; [pin_answers i], [pin_mapping i],
    [host_alloc_iova i] and [host_iommu_map i] are for the gather at index [i] of the commands. *)
Record submit_env := SubmitEnv {
  CONFIG_TRACING : bool;
  has_job_timestamping : option (Z * bool);
  get_streamid_offset : option (Z * Z);
  can_use_memory_ctx : option (Z * bool);
  indeterminate : Z;                 (* a variable that has not been initialised *)
  find_fence : Z; fence_wait_timeout : Z; find_syncobj : bool;
  kzalloc_bo : bool; dma_alloc_gather : bool; user_gather : option (Z -> Z);
  kzalloc_job_data : bool; dma_alloc_timestamps : option Z;
  kvmalloc_bufs : bool; user_bufs : option (Z -> drm_tegra_submit_buf); kcalloc_mappings : bool;
  kvmalloc_cmds : bool; user_cmds : option (Z -> drm_tegra_submit_cmd);
  kzalloc_job : bool; sizeof_job : Z; sizeof_reloc : Z; sizeof_unpin : Z; sizeof_cmd : Z; CONFIG_FIREWALL : bool;
  pin_answers : nat -> pin_answer; pin_mapping : nat -> host1x_bo_mapping; host_domain : bool; sg_size : host1x_bo_mapping -> Z;
  host_alloc_iova : nat -> Z -> option Z; host_iommu_map : nat -> Z -> Z;
  iommu_fwspec : option Z;
  pm_enabled : bool; pm_resume : Z;
  submit_result : Z; submit_fence : bool; postfence : Z }.

(** * The gather buffer object *)

(** struct gather_bo, at the address [GATHER_BO]: there is one per submission. *)
Record gather_bo := GatherBo { gather_data : list Z; bo_words : Z }.
Definition GATHER_BO : ptr := 1%positive.

Definition gather_bo_get (s : ledger) : ledger := acquire BoRef s.
Definition gather_bo_release (s : ledger) : option ledger :=
  s ← release GatherData s; release BoMem s.
Definition gather_bo_put (s : ledger) : option ledger :=
  s ← release BoRef s;
  if decide (BoRef ∈ s) then Some s else gather_bo_release s.

(** [sg_free_table] on the error path frees nothing, or a table that was never made. *)
Definition gather_bo_pin (ans : pin_answer) (s : ledger) : option (Z * ledger) :=
  if negb (map_mem ans) then Some (- ENOMEM, s)
  else
    let s := acquire BoMapMem s in
    let s := gather_bo_get s in
    if negb (map_sgt ans) then s ← release BoMapMem s; Some (- ENOMEM, s)
    else
      let s := acquire BoSgt s in
      let free_sgt err s := s ← release BoSgt s; s ← release BoMapMem s; Some (err, s) in
      if negb (get_sgtable ans =? 0) then free_sgt (get_sgtable ans) s
      else if negb (map_sgtable ans =? 0) then free_sgt (map_sgtable ans) s
      else Some (0, acquire BoDma s).

Definition gather_bo_unpin (s : ledger) : option ledger :=
  s ← release BoDma s; s ← release BoSgt s; s ← gather_bo_put s; release BoMapMem s.

(** * Pieces of the submission *)

(** [check_mul_overflow] and [check_add_overflow]: the result, when it fits the type. *)
Definition mul_size_t (a b : Z) : option Z := if a * b <? 2 ^ 64 then Some (a * b) else None.
Definition add_u32 (a b : Z) : option Z := if a + b <? 2 ^ 32 then Some (a + b) else None.

(** The error, or the array, which the caller then holds. *)
Definition alloc_copy_user_array {A} (mem : resource) (kvmalloc : bool) (user : option (Z -> A))
    (count size : Z) (s : ledger) : option ((Z + list A) * ledger) :=
  match mul_size_t count size with
  | None => Some (inl (- EINVAL), s)
  | Some copy_len =>
      if 0x4000 <? copy_len then Some (inl (- E2BIG), s)
      else if negb kvmalloc then Some (inl (- ENOMEM), s)
      else
        let s := acquire mem s in
        match user with
        | None => s ← release mem s; Some (inl (- EFAULT), s)
        | Some f => Some (inr (f <$> seqZ 0 count), s)
        end
  end.

Section submit.
Variable env : submit_env.
Variable context : tegra_drm_context.
Variable args : drm_tegra_channel_submit.
(** The file's syncpoints (fpriv->syncpoints), by id. *)
Variable syncpoints : gset Z.

Definition submit_copy_gather_data (s : ledger) : option ((Z + gather_bo) * ledger) :=
  let n := gather_data_words args in
  if n =? 0 then Some (inl (- EINVAL), s)
  else
    match mul_size_t n 4 with
    | None => Some (inl (- EINVAL), s)
    | Some copy_len =>
        if negb (kzalloc_bo env) then Some (inl (- ENOMEM), s)
        else
          let s := acquire BoRef (acquire BoMem s) in
          let kfree s := s ← release BoRef s; release BoMem s in
          if negb (dma_alloc_gather env) then s ← kfree s; Some (inl (- ENOMEM), s)
          else
            let s := acquire GatherData s in
            match user_gather env with
            | None => s ← release GatherData s; s ← kfree s; Some (inl (- EFAULT), s)
            | Some f => Some (inr (GatherBo ((fun i => u32 (f i)) <$> seqZ 0 n) n), s)
            end
    end.

(** On 64-bit kernels, where CONFIG_ARCH_DMA_ADDR_T_64BIT is set. *)
Definition submit_write_reloc (bo : gather_bo) (buf : drm_tegra_submit_buf) (mapping : tegra_drm_mapping)
    : option (Z * gather_bo) :=
  let iova := u64 (iova mapping + target_offset buf) in
  let iova := if negb (Z.land (buf_flags buf) DRM_TEGRA_SUBMIT_RELOC_SECTOR_LAYOUT =? 0)
              then Z.lor iova (Z.shiftl 1 39) else iova in
  if 64 <=? reloc_shift buf then None
  else
    let written_ptr := u32 (Z.shiftr iova (reloc_shift buf)) in
    if bo_words bo <=? gather_offset_words buf then Some (- EINVAL, bo)
    else
      data ← array_set (gather_data bo) (gather_offset_words buf) written_ptr;
      Some (0, GatherBo data (bo_words bo)).

(** The loop of [submit_process_bufs]: [used] are the mappings before the current one, in
    the reverse order, in which the error path drops them. *)
Fixpoint process_bufs_loop (bufs : list drm_tegra_submit_buf) (used : list tegra_drm_used_mapping)
    (bo : gather_bo) (s : ledger) : option (Z * list tegra_drm_used_mapping * gather_bo * ledger) :=
  let drop_refs err bo s := s ← put_mappings (um_mapping <$> used) s; Some (err, [], bo, s) in
  match bufs with
  | [] => Some (0, reverse used, bo, s)
  | buf :: bufs =>
      if negb (Z.land (buf_flags buf) (2 ^ 32 - 1 - DRM_TEGRA_SUBMIT_RELOC_SECTOR_LAYOUT) =? 0)
      then drop_refs (- EINVAL) bo s
      else
        match tegra_drm_mapping_get (ctx_mappings context) (buf_mapping buf) s with
        | None => drop_refs (- EINVAL) bo s
        | Some (mapping, s) =>
            '(err, bo) ← submit_write_reloc bo buf mapping;
            if negb (err =? 0) then s ← tegra_drm_mapping_put mapping s; drop_refs err bo s
            else process_bufs_loop bufs (UsedMapping mapping (buf_flags buf) :: used) bo s
        end
  end.

(** The used mappings; the caller holds their array when there is no error. *)
Definition submit_process_bufs (bo : gather_bo) (s : ledger)
    : option (Z * list tegra_drm_used_mapping * gather_bo * ledger) :=
  '(r, s) ← alloc_copy_user_array BufsMem (kvmalloc_bufs env) (user_bufs env) (num_bufs args) 24 s;
  match r with
  | inl err => Some (err, [], bo, s)
  | inr bufs =>
      if negb (kcalloc_mappings env) then s ← release BufsMem s; Some (- ENOMEM, [], bo, s)
      else
        let s := acquire UsedMappings s in
        '(err, used, bo, s) ← process_bufs_loop bufs [] bo s;
        s ← (if err =? 0 then Some s else release UsedMappings s);
        s ← release BufsMem s;
        Some (err, used, bo, s)
  end.

(** * Jobs *)

(** struct tegra_drm_submit_data (submit.h): [data_used] is [None] when the pointer is NULL. *)
Record submit_data := SubmitData {
  data_used : option (list tegra_drm_used_mapping);
  timestamps_iova : option Z }.
Definition used_of (d : submit_data) : list tegra_drm_used_mapping := default [] (data_used d).

(** struct host1x_job, with the members that host1x/job.c does not use. [job_release] is
    [Some] when the callback and the user data are set. *)
Record drm_job := DrmJob {
  hjob : host1x_job;
  job_syncpt : option Z;
  job_secondary_syncpt : option Z;
  job_syncpt_incrs : Z;
  job_class : Z;
  job_serialize : bool;
  job_memory_context : option ptr;
  job_streamid_offset : Z;
  job_fallback_streamid : Z;
  job_release : option submit_data;
  job_fence : bool }.

Definition with_hjob (j : drm_job) (h : host1x_job) : drm_job :=
  DrmJob h (job_syncpt j) (job_secondary_syncpt j) (job_syncpt_incrs j) (job_class j) (job_serialize j)
    (job_memory_context j) (job_streamid_offset j) (job_fallback_streamid j) (job_release j) (job_fence j).
Definition with_syncpt (j : drm_job) (sp sec : option Z) (incrs : Z) : drm_job :=
  DrmJob (hjob j) sp sec incrs (job_class j) (job_serialize j)
    (job_memory_context j) (job_streamid_offset j) (job_fallback_streamid j) (job_release j) (job_fence j).
Definition with_class (j : drm_job) (class : Z) : drm_job :=
  DrmJob (hjob j) (job_syncpt j) (job_secondary_syncpt j) (job_syncpt_incrs j) class true
    (job_memory_context j) (job_streamid_offset j) (job_fallback_streamid j) (job_release j) (job_fence j).
Definition with_streamid (j : drm_job) (off : Z) : drm_job :=
  DrmJob (hjob j) (job_syncpt j) (job_secondary_syncpt j) (job_syncpt_incrs j) (job_class j) (job_serialize j)
    (job_memory_context j) off (job_fallback_streamid j) (job_release j) (job_fence j).
Definition with_memctx (j : drm_job) (c : option ptr) (fallback : Z) : drm_job :=
  DrmJob (hjob j) (job_syncpt j) (job_secondary_syncpt j) (job_syncpt_incrs j) (job_class j) (job_serialize j)
    c (job_streamid_offset j) fallback (job_release j) (job_fence j).
Definition with_release (j : drm_job) (d : submit_data) : drm_job :=
  DrmJob (hjob j) (job_syncpt j) (job_secondary_syncpt j) (job_syncpt_incrs j) (job_class j) (job_serialize j)
    (job_memory_context j) (job_streamid_offset j) (job_fallback_streamid j) (Some d) (job_fence j).
Definition with_fence (j : drm_job) (f : bool) : drm_job :=
  DrmJob (hjob j) (job_syncpt j) (job_secondary_syncpt j) (job_syncpt_incrs j) (job_class j) (job_serialize j)
    (job_memory_context j) (job_streamid_offset j) (job_fallback_streamid j) (job_release j) f.

Definition host1x_memory_context_get (c : ptr) (s : ledger) : ledger := acquire (MemctxRef c) s.
Definition host1x_memory_context_put (c : ptr) (s : ledger) : option ledger := release (MemctxRef c) s.
Definition put_opt_memctx (c : option ptr) (s : ledger) : option ledger :=
  match c with Some c => host1x_memory_context_put c s | None => Some s end.
Definition put_opt_syncpt (sp : option Z) (s : ledger) : option ledger :=
  match sp with Some i => release (SyncptRef i) s | None => Some s end.

Definition release_job (job : drm_job) (job_data : submit_data) (s : ledger) : option ledger :=
  s ← put_opt_memctx (job_memory_context job) s;
  s ← release_if (CONFIG_TRACING env && bool_decide (is_Some (timestamps_iova job_data))) Timestamps s;
  s ← put_mappings (um_mapping <$> used_of job_data) s;
  s ← release_if (bool_decide (is_Some (data_used job_data))) UsedMappings s;
  s ← release JobData s;
  release_if (pm_enabled env) PowerRef s.

(** job_free and host1x_job_put (host1x/job.c). *)
Definition job_free (job : drm_job) (s : ledger) : option ledger :=
  s ← (match job_release job with Some d => release_job job d s | None => Some s end);
  s ← release_if (job_fence job) JobFence s;
  s ← put_opt_syncpt (job_syncpt job) s;
  s ← put_opt_syncpt (job_secondary_syncpt job) s;
  release JobMem s.
Definition host1x_job_put (job : drm_job) (s : ledger) : option ledger :=
  s ← release JobRef s;
  if decide (JobRef ∈ s) then Some s else job_free job s.

Definition submit_get_syncpt (job : drm_job) (s : ledger) : Z * drm_job * ledger :=
  if negb (syncpt_flags args =? 0) then (- EINVAL, job, s)
  else if decide (syncpt_id args ∈ syncpoints) then
    let s := acquire (SyncptRef (syncpt_id args)) s in
    let job := with_syncpt job (Some (syncpt_id args)) None (syncpt_increments args) in
    if negb (Z.land (args_flags args) DRM_TEGRA_SUBMIT_SECONDARY_SYNCPT =? 0) then
      if decide (secondary_syncpt_id args ∈ syncpoints) then
        (0, with_syncpt job (Some (syncpt_id args)) (Some (secondary_syncpt_id args)) (syncpt_increments args),
         acquire (SyncptRef (secondary_syncpt_id args)) s)
      else (- EINVAL, job, s)
    else (0, job, s)
  else (- EINVAL, job, s).

(** The state of the loop over the commands. *)
Record build := Build { b_job : host1x_job; gather_offset : Z; b_class : Z; first_gather : bool }.

Definition submit_job_add_gather (bo : gather_bo) (job_data : submit_data) (cmd : drm_tegra_submit_cmd) (b : build)
    : option (Z * build) :=
  let words := cmd_word 0 cmd in
  if negb ((cmd_word 1 cmd =? 0) && (cmd_word 2 cmd =? 0) && (cmd_word 3 cmd =? 0)) then Some (- EINVAL, b)
  else if 16383 <? words then Some (- EINVAL, b)
  else
    match add_u32 (gather_offset b) words with
    | None => Some (- EINVAL, b)
    | Some next_offset =>
        if bo_words bo <? next_offset then Some (- EINVAL, b)
        else
          '(err, class) ← tegra_drm_fw_validate (ctx_client context) (gather_data bo) (used_of job_data)
                            (gather_offset b) words (b_class b);
          let b := Build (b_job b) (gather_offset b) class (first_gather b) in
          if negb (err =? 0) then Some (- EINVAL, b)
          else
            job ← host1x_job_add_gather (b_job b) GATHER_BO words (u32 (gather_offset b * 4));
            Some (0, Build job next_offset class (first_gather b))
    end.

(** falcon.h. *)
Definition FALCON_UCLASS_METHOD_OFFSET := 0x40.
Definition FALCON_UCLASS_METHOD_DATA := 0x44.
Definition FALCON_METHOD_TSP := Z.shiftr 0x320 2.

Definition add_timestamp_writes (iova : Z) (job : host1x_job) : option host1x_job :=
  job ← host1x_job_add_reg_write job FALCON_UCLASS_METHOD_OFFSET FALCON_METHOD_TSP;
  host1x_job_add_reg_write job FALCON_UCLASS_METHOD_DATA (u32 (Z.shiftr iova 8)).

(** One command. *)
Definition submit_cmd (bo : gather_bo) (job_data : submit_data) (cmd : drm_tegra_submit_cmd) (b : build)
    : option (Z * build) :=
  if negb (cmd_flags cmd =? 0) then Some (- EINVAL, b)
  else if cmd_type cmd =? DRM_TEGRA_SUBMIT_CMD_GATHER_UPTR then
    b ← (match timestamps_iova job_data with
         | Some iova =>
             if first_gather b
             then job ← add_timestamp_writes iova (b_job b);
                  Some (Build job (gather_offset b) (b_class b) false)
             else Some b
         | None => Some b
         end);
    submit_job_add_gather bo job_data cmd b
  else if cmd_type cmd =? DRM_TEGRA_SUBMIT_CMD_WAIT_SYNCPT then
    if negb ((cmd_word 2 cmd =? 0) && (cmd_word 3 cmd =? 0)) then Some (- EINVAL, b)
    else
      job ← host1x_job_add_wait (b_job b) (cmd_word 0 cmd) (cmd_word 1 cmd) false (b_class b);
      Some (0, Build job (gather_offset b) (b_class b) (first_gather b))
  else if cmd_type cmd =? DRM_TEGRA_SUBMIT_CMD_WAIT_SYNCPT_RELATIVE then
    if negb ((cmd_word 2 cmd =? 0) && (cmd_word 3 cmd =? 0)) then Some (- EINVAL, b)
    else if negb (cmd_word 0 cmd =? syncpt_id args) then Some (- EINVAL, b)
    else
      job ← host1x_job_add_wait (b_job b) (cmd_word 0 cmd) (cmd_word 1 cmd) true (b_class b);
      Some (0, Build job (gather_offset b) (b_class b) (first_gather b))
  else Some (- EINVAL, b).

Fixpoint submit_cmds (bo : gather_bo) (job_data : submit_data) (cmds : list drm_tegra_submit_cmd) (b : build)
    : option (Z * build) :=
  match cmds with
  | [] => Some (0, b)
  | cmd :: cmds =>
      '(err, b) ← submit_cmd bo job_data cmd b;
      if negb (err =? 0) then Some (err, b) else submit_cmds bo job_data cmds b
  end.

(** The error, or the job, of which the caller then holds a reference. *)
Definition submit_create_job (bo : gather_bo) (job_data : submit_data) (ucmds : list drm_tegra_submit_cmd)
    (s : ledger) : option ((Z + drm_job) * ledger) :=
  let class := client_class (ctx_client context) in
  match (match timestamps_iova job_data with Some _ => add_u32 (num_cmds args) 2 | None => Some (num_cmds args) end) with
  | None => Some (inl (- EINVAL), s)
  | Some needed_cmds =>
      match host1x_job_alloc (sizeof_job env) (sizeof_reloc env) (sizeof_unpin env) (sizeof_cmd env) (CONFIG_FIREWALL env)
              needed_cmds 0 true (kzalloc_job env) with
      | None => Some (inl (- ENOMEM), s)
      | Some h =>
          let s := acquire JobRef (acquire JobMem s) in
          let free_job job err s := s ← host1x_job_put job s; Some (inl err, s) in
          let job := DrmJob h None None 0 0 false None 0 0 None false in
          let '(err, job, s) := submit_get_syncpt job s in
          if err <? 0 then free_job job err s
          else
            let job := with_class job class in
            '(err, b) ← submit_cmds bo job_data ucmds (Build (hjob job) 0 class true);
            let job := with_hjob job (b_job b) in
            if negb (err =? 0) then free_job job err s
            else if gather_offset b =? 0 then free_job job (- EINVAL) s
            else Some (inr job, s)
      end
  end.

(** * Pinning the job *)

(** What the calls that host1x_job_pin makes on the gather buffer object do. *)
Definition pin_effect (e : pin_event) (s : ledger) : option ledger :=
  match e with
  | EvGet _ => Some (gather_bo_get s)
  | EvPut _ => gather_bo_put s
  | EvPin _ => '(_, s) ← gather_bo_pin (PinAnswer true true 0 0) s; Some s
  | EvPinFail i => '(_, s) ← gather_bo_pin (pin_answers env i) s; Some s
  | EvUnpin _ => gather_bo_unpin s
  | EvIovaAlloc a => Some (acquire (Iova a) s)
  | EvIovaFree a => release (Iova a) s
  | EvMap a => Some (acquire (IommuMap a) s)
  | EvUnmap a => release (IommuMap a) s
  | EvFreeCopy _ => Some s
  end.
Fixpoint pin_effects (log : list pin_event) (s : ledger) : option ledger :=
  match log with [] => Some s | e :: log => s ← pin_effect e s; pin_effects log s end.

(** What host1x_bo_pin returns for the gather at index [i]: the error does not depend on what
    is held. *)
Definition gather_bo_pin_result (i : nat) : Z + host1x_bo_mapping :=
  match gather_bo_pin (pin_answers env i) ∅ with
  | Some (err, _) => if err =? 0 then inr (pin_mapping env i) else inl err
  | None => inr (pin_mapping env i)
  end.

(** host1x_job_pin: there are no relocations and no copy of the gathers. *)
Definition drm_job_pin (job : drm_job) (s : ledger) : option (Z * drm_job * ledger) :=
  '(err, h, _, log) ← host1x_job_pin (fun _ => true) (fun _ _ _ => inl (- EINVAL))
    (fun i _ => gather_bo_pin_result i) (host_domain env) (sg_size env) (host_alloc_iova env) (host_iommu_map env)
    None None (fun _ => None) (fun _ => []) (fun _ => true) (hjob job) ∅;
  s ← pin_effects log s;
  Some (err, with_hjob job h, s).
Definition drm_job_unpin (job : drm_job) (s : ledger) : option (drm_job * ledger) :=
  '(h, log) ← host1x_job_unpin (host_domain env) (hjob job) [];
  s ← pin_effects log s;
  Some (with_hjob job h, s).

(** * The ioctl: the labels, from the last to the first *)

(** The error and the job, when the hardware has got it. *)
Record outcome := Outcome { out_err : Z; out_job : option drm_job }.

Definition unlock (syncobj : bool) (out : outcome) (s : ledger) : option (outcome * ledger) :=
  s ← release_if syncobj SyncobjRef s;
  s ← release FprivLock s;
  Some (out, s).
Definition put_bo (syncobj : bool) (out : outcome) (s : ledger) : option (outcome * ledger) :=
  s ← gather_bo_put s; unlock syncobj out s.
(** [job_data] is [None] when the pointer is NULL. *)
Definition free_job_data (job_data : option submit_data) (syncobj : bool) (out : outcome) (s : ledger)
    : option (outcome * ledger) :=
  s ← (match job_data with
       | None => Some s
       | Some d =>
           s ← release_if (bool_decide (is_Some (timestamps_iova d))) Timestamps s;
           s ← (match data_used d with
                | None => Some s
                | Some used => s ← put_mappings (um_mapping <$> used) s; release UsedMappings s
                end);
           release JobData s
       end);
  put_bo syncobj out s.
Definition free_cmds (job_data : option submit_data) (syncobj : bool) (out : outcome) (s : ledger) :=
  s ← release CmdsMem s; free_job_data job_data syncobj out s.
Definition put_job (job : drm_job) (job_data : option submit_data) (syncobj : bool) (out : outcome) (s : ledger) :=
  s ← host1x_job_put job s; free_cmds job_data syncobj out s.
Definition unpin_job (job : drm_job) (job_data : option submit_data) (syncobj : bool) (err : Z) (s : ledger) :=
  '(job, s) ← drm_job_unpin job s; put_job job job_data syncobj (Outcome err None) s.
Definition put_memory_context (job : drm_job) (job_data : option submit_data) (syncobj : bool) (err : Z) (s : ledger) :=
  s ← put_opt_memctx (job_memory_context job) s; unpin_job job job_data syncobj err s.

(** * The ioctl, from its end to its start *)

(** From "Submit job to hardware" on: the channel takes a reference of the job, and creates
    the job's fence.  [drm_syncobj_replace_fence] takes a reference of its own, and does
    not survive an error pointer. *)
Definition submit_to_hw (job : drm_job) (syncobj : bool) (s : ledger) : option (outcome * ledger) :=
  let err := submit_result env in
  if negb (err =? 0) then unpin_job job None syncobj err s
  else
    let job := with_fence job (submit_fence env) in
    let s := acquire JobRef (if submit_fence env then acquire JobFence s else s) in
    s ← (if syncobj then if postfence env <? 0 then None else Some (acquire PostFence s) else Some s);
    put_job job None syncobj (Outcome 0 (Some job)) s.

(** "Boot engine, if necessary" and what is attached to the job then. *)
Definition submit_power (job : drm_job) (job_data : submit_data) (syncobj : bool) (s : ledger)
    : option (outcome * ledger) :=
  if pm_enabled env then
    if pm_resume env <? 0 then put_memory_context job (Some job_data) syncobj (pm_resume env) s
    else submit_to_hw (with_release job job_data) syncobj (acquire PowerRef s)
  else submit_to_hw (with_release job job_data) syncobj s.

Definition fallback_streamid : Z :=
  match iommu_fwspec env with Some streamid => Z.land streamid 0xffff | None => 0x7f end.

Definition submit_memctx (job : drm_job) (job_data : submit_data) (syncobj : bool) (s : ledger)
    : option (outcome * ledger) :=
  match ctx_memory_context context, can_use_memory_ctx env with
  | Some c, Some (err, supported) =>
      if negb (err =? 0) then unpin_job job (Some job_data) syncobj err s
      else if supported
      then submit_power (with_memctx job (Some c) (job_fallback_streamid job)) job_data syncobj
             (host1x_memory_context_get c s)
      else submit_power job job_data syncobj s
  | _, _ =>
      match get_streamid_offset env with
      | Some _ => submit_power (with_memctx job (job_memory_context job) fallback_streamid) job_data syncobj s
      | None => submit_power job job_data syncobj s
      end
  end.

Definition submit_streamid (job : drm_job) (job_data : submit_data) (syncobj : bool) (s : ledger)
    : option (outcome * ledger) :=
  match get_streamid_offset env with
  | Some (err, off) =>
      let job := with_streamid job off in
      if negb (err =? 0) then unpin_job job (Some job_data) syncobj err s
      else submit_memctx job job_data syncobj s
  | None => submit_memctx job job_data syncobj s
  end.

(** From "Copy submit commands from userspace" on. *)
Definition submit_build (bo : gather_bo) (job_data : submit_data) (syncobj : bool) (s : ledger)
    : option (outcome * ledger) :=
  '(r, s) ← alloc_copy_user_array CmdsMem (kvmalloc_cmds env) (user_cmds env) (num_cmds args) 24 s;
  match r with
  | inl err => free_job_data (Some job_data) syncobj (Outcome err None) s
  | inr cmds =>
      '(r, s) ← submit_create_job bo job_data cmds s;
      match r with
      | inl err => free_cmds (Some job_data) syncobj (Outcome err None) s
      | inr job =>
          '(err, job, s) ← drm_job_pin job s;
          if negb (err =? 0) then put_job job (Some job_data) syncobj (Outcome err None) s
          else submit_streamid job job_data syncobj s
      end
  end.

(** The error and the address of the buffer for time stamps. *)
Definition submit_init_profiling (s : ledger) : Z * option Z * ledger :=
  match has_job_timestamping env with
  | None => (0, None, s)
  | Some (err, has_timestamping) =>
      if negb (err =? 0) then (err, None, s)
      else if negb has_timestamping then (0, None, s)
      else
        match dma_alloc_timestamps env with
        | None => (- ENOMEM, None, s)
        | Some iova => (0, Some iova, acquire Timestamps s)
        end
  end.

(** From the allocation of the job's data on. *)
Definition submit_with_bo (bo : gather_bo) (syncobj : bool) (s : ledger) : option (outcome * ledger) :=
  if negb (kzalloc_job_data env) then put_bo syncobj (Outcome (- ENOMEM) None) s
  else
    let s := acquire JobData s in
    let '(err, ts, s) := if CONFIG_TRACING env then submit_init_profiling s else (0, None, s) in
    if negb (err =? 0) then free_job_data (Some (SubmitData None ts)) syncobj (Outcome err None) s
    else
      '(err, used, bo, s) ← submit_process_bufs bo s;
      if negb (err =? 0) then free_job_data (Some (SubmitData None ts)) syncobj (Outcome err None) s
      else submit_build bo (SubmitData (Some used) ts) syncobj s.

(** From [args->syncobj_out] on. *)
Definition submit_with_syncobj (s : ledger) : option (outcome * ledger) :=
  let go syncobj s :=
    '(r, s) ← submit_copy_gather_data s;
    match r with
    | inl err => unlock syncobj (Outcome err None) s
    | inr bo => submit_with_bo bo syncobj s
    end in
  if negb (syncobj_out args =? 0) then
    if find_syncobj env then go true (acquire SyncobjRef s)
    else unlock false (Outcome (- ENOENT) None) s
  else go false s.

(** With the context found and the lock held. *)
Definition submit_locked (s : ledger) : option (outcome * ledger) :=
  if negb (Z.land (args_flags args) (2 ^ 32 - 1 - DRM_TEGRA_SUBMIT_SECONDARY_SYNCPT) =? 0)
  then unlock false (Outcome (indeterminate env) None) s
  else if negb (syncobj_in args =? 0) then
    if negb (find_fence env =? 0) then unlock false (Outcome (find_fence env) None) s
    else
      let s := acquire FenceRef s in
      let err := fence_wait_timeout env in
      s ← release FenceRef s;
      if negb (err =? 0) then unlock false (Outcome err None) s
      else submit_with_syncobj s
  else submit_with_syncobj s.
End submit.

Definition tegra_drm_ioctl_channel_submit (env : submit_env) (contexts : gmap Z tegra_drm_context)
    (syncpoints : gset Z) (args : drm_tegra_channel_submit) (s : ledger) : option (outcome * ledger) :=
  let s := acquire FprivLock s in
  match contexts !! args_context args with
  | None => s ← release FprivLock s; Some (Outcome (- EINVAL) None, s)
  | Some context => submit_locked env context args syncpoints s
  end.

(** The completion of a job by the channel (update_cdma_locked in host1x/cdma.c): it is
    unpinned and the channel's reference is put. *)
Definition job_complete (env : submit_env) (job : drm_job) (s : ledger) : option ledger :=
  '(job, s) ← drm_job_unpin env job s; host1x_job_put env job s.
