(* ===== verification/DrmBuild.v ===== *)
(** The job that submit_create_job builds: its shape, and that every gather in it has been
    checked with the class that is selected when the hardware gets there. *)
From S2P Require Import DrmRefs Prelude Host1xJob Host1xFirewall DrmFirewall DrmSubmit.

(** The jobs that submit_create_job makes. *)
Definition gather_of_bo (c : host1x_job_cmd) : Prop :=
  match c with HOST1X_JOB_CMD_GATHER g => bo g = GATHER_BO /\ handled g = false | _ => True end.
Definition is_gather (c : host1x_job_cmd) : bool :=
  match c with HOST1X_JOB_CMD_GATHER _ => true | _ => false end.
Record drm_shape (h : host1x_job) : Prop := {
  ds_relocs : relocs h = [];
  ds_firewall : enable_firewall h = false;
  ds_copy : gather_copy_size h = 0;
  ds_addrs : length (addr_phys h) = Z.to_nat (cmds_cap h);
  ds_cap : Z.of_nat (length (cmds h)) <= cmds_cap h;
  ds_cmds : Forall gather_of_bo (cmds h)
}.

(** ** Checked commands *)
Section checked.
Variables (client : tegra_drm_client) (used : list tegra_drm_used_mapping) (data : list Z).

Definition gather_words (g : host1x_job_gather) : list Z :=
  take (Z.to_nat (words g)) (drop (Z.to_nat (offset g / 4)) data).

(** The part of the gather data that a gather takes. *)
Definition gather_inside (g : host1x_job_gather) : Prop :=
  0 <= words g /\ 0 <= offset g /\ offset g mod 4 = 0 /\ offset g / 4 + words g <= Z.of_nat (length data).

(** [checked c cs c']: from class [c], the commands make only permitted accesses and leave
    class [c'].  A wait goes back to the class from before it, and the registers that the
    driver itself writes are those of the client. *)
Inductive checked : Z -> list host1x_job_cmd -> Z -> Prop :=
  | ck_nil c : checked c [] c
  | ck_gather c g l c1 cs c' : gather_inside g ->
      gather_run c None (gather_words g) l c1 -> Forall (permitted client used) l ->
      checked c1 cs c' -> checked c (HOST1X_JOB_CMD_GATHER g :: cs) c'
  | ck_wait c id t r cs c' : checked c cs c' -> checked c (HOST1X_JOB_CMD_WAIT id t c r :: cs) c'
  | ck_reg reg v cs c' : checked (client_class client) cs c' ->
      checked (client_class client) (HOST1X_JOB_CMD_REG_WRITE reg v :: cs) c'.

Lemma checked_app c cs c1 cs2 c2 : checked c cs c1 -> checked c1 cs2 c2 -> checked c (cs ++ cs2) c2.
Proof. intros H Hc2. induction H; [done|eapply ck_gather; eauto|constructor; eauto..]. Qed.
End checked.

(** The widths of the fields that the hardware has for a command; the registers that the
    driver writes are those for time stamps. *)
Definition cmd_typed (c : host1x_job_cmd) : Prop :=
  match c with
  | HOST1X_JOB_CMD_WAIT id threshold next_class _ => is_u32 id /\ is_u32 threshold /\ 0 <= next_class < 2 ^ 10
  | HOST1X_JOB_CMD_GATHER g => 0 <= words g < 2 ^ 14
  | HOST1X_JOB_CMD_REG_WRITE reg v =>
      (reg = FALCON_UCLASS_METHOD_OFFSET \/ reg = FALCON_UCLASS_METHOD_DATA) /\ is_u32 v
  end.
(** A command of user space: the members are of type __u32. *)
Definition ucmd_typed (cmd : drm_tegra_submit_cmd) : Prop := forall i, is_u32 (cmd_word i cmd).

Lemma gather_run_class c p ws l c' : gather_run c p ws l c' -> 0 <= c < 2 ^ 10 -> 0 <= c' < 2 ^ 10.
Proof.
  intros H Hc. induction H as [|c p w acc regs c1 p1 vs rest l c' Hw _ _ IH]; [done|].
  apply IH. by destruct Hw.
Qed.

(** ** The loop *)
Section building.
Variables (context : tegra_drm_context) (args : drm_tegra_channel_submit) (bo : gather_bo) (d : submit_data).
Hypothesis bo_data : Z.of_nat (length (gather_data bo)) = bo_words bo.
Hypothesis bo_small : bo_words bo < 2 ^ 32.
Hypothesis bo_typed : Forall is_u32 (gather_data bo).
Hypothesis class_typed : 0 <= client_class (ctx_client context) < 2 ^ 10.

Abbreviation client := (ctx_client context).
Abbreviation data := (gather_data bo).
Abbreviation job_checked := (checked client (used_of d) data).

(** With [left] commands to go. *)
Record building (left : nat) (b : build) : Prop := {
  bl_shape : drm_shape (b_job b);
  bl_cap : Z.of_nat (length (cmds (b_job b)) + left) +
           (if first_gather b && bool_decide (is_Some (timestamps_iova d)) then 2 else 0) <= cmds_cap (b_job b);
  bl_off : 0 <= gather_offset b /\ gather_offset b + 16383 * Z.of_nat left <= 16383 * 682;
  bl_checked : job_checked (client_class client) (cmds (b_job b)) (b_class b);
  bl_class : 0 <= b_class b < 2 ^ 10;
  bl_some : gather_offset b <> 0 -> Exists (fun c => is_gather c = true) (cmds (b_job b));
  bl_first : first_gather b = true -> timestamps_iova d <> None -> b_class b = client_class client;
  bl_typed : Forall cmd_typed (cmds (b_job b))
}.

Lemma add_cmd_ok h c : drm_shape h -> Z.of_nat (length (cmds h)) < cmds_cap h -> gather_of_bo c ->
  add_cmd h c = Some (set_cmds h (cmds h ++ [c])) /\ drm_shape (set_cmds h (cmds h ++ [c])).
Proof.
  intros [H1 H2 H3 H4 H5 H6] Hc Hg. unfold add_cmd. rewrite (proj2 (Z.ltb_lt _ _)) by done.
  split; [done|]. split; try done; cbn.
  - rewrite length_app. simpl. lia.
  - apply Forall_app_2; [done|by constructor].
Qed.

Lemma add_cmd_length h c h' : add_cmd h c = Some h' ->
  length (cmds h') = S (length (cmds h)) /\ cmds_cap h' = cmds_cap h.
Proof. unfold add_cmd. case_if; [|done]. intros [= <-]. cbn. rewrite length_app. simpl. split; [lia|done]. Qed.

(** One more command in the job, that is in force from class [b_class b]. *)
Lemma building_add left left' b c off' class' first' : building left' b ->
  gather_of_bo c -> cmd_typed c -> job_checked (b_class b) [c] class' -> 0 <= class' < 2 ^ 10 ->
  Z.of_nat (length (cmds (b_job b)) + left) +
    (if first' && bool_decide (is_Some (timestamps_iova d)) then 2 else 0) < cmds_cap (b_job b) ->
  0 <= off' /\ off' + 16383 * Z.of_nat left <= 16383 * 682 ->
  (off' <> 0 -> is_gather c = true \/ gather_offset b <> 0) ->
  (first' = true -> timestamps_iova d <> None -> class' = client_class client) ->
  exists h, add_cmd (b_job b) c = Some h /\ building left (Build h off' class' first').
Proof.
  intros [Hs Hc Ho Hck Hcl Hsm Hf Ht] Hg Hty Hck' Hcl' Hcap Hoff Hsome Hfirst.
  destruct (add_cmd_ok (b_job b) c Hs) as [-> Hs']; [|done|].
  { destruct (first' && _); lia. }
  eexists. split; [done|]. split; try done; cbn [b_job gather_offset b_class first_gather].
  - cbn. rewrite length_app. simpl. destruct (first' && _); lia.
  - eapply checked_app; [exact Hck|done].
  - intros Hne. cbn. apply Exists_app. destruct (Hsome Hne) as [H|H]; [right; by constructor|left; by apply Hsm].
  - cbn. apply Forall_app_2; [done|by constructor].
Qed.

(** An error, or the next state; all errors of the loop are -EINVAL. *)
Definition built (left : nat) (r : option (Z * build)) : Prop :=
  (exists b, r = Some (- EINVAL, b)) \/ (exists b, r = Some (0, b) /\ building left b).
Lemma built_err left b : built left (Some (- EINVAL, b)).
Proof. left. by eexists. Qed.

Lemma add_gather_ok left cmd b : building (S left) b -> ucmd_typed cmd ->
  (timestamps_iova d <> None -> first_gather b = false) ->
  built left (submit_job_add_gather context bo d cmd b).
Proof.
  intros Hb Hu Hfg. destruct (bl_off _ _ Hb) as [Ho Hsum]. unfold submit_job_add_gather.
  destruct (negb _) eqn:Er; [apply built_err|]. clear Er. set (n := cmd_word 0 cmd).
  assert (Hn : is_u32 n) by apply Hu. unfold is_u32 in Hn.
  destruct (16383 <? n) eqn:En; zb; [apply built_err|]. unfold add_u32.
  rewrite (proj2 (Z.ltb_lt _ _)) by lia. destruct (bo_words bo <? gather_offset b + n) eqn:Ebo; zb; [apply built_err|].
  destruct (fw_validate_correct client data (used_of d) ltac:(lia) (gather_offset b) n (b_class b))
    as (err & c' & E & [->| ->] & H1 & _); [lia|lia|lia|done| |].
  2: { rewrite E. apply built_err. }
  rewrite E. cbn [mbind option_bind Z.eqb negb b_job first_gather gather_offset].
  destruct (H1 eq_refl) as (l & Hrun & Hl).
  assert (E4 : u32 (gather_offset b * 4) / 4 = gather_offset b).
  { rewrite u32_id by (unfold is_u32; lia). by apply Z.div_mul. }
  destruct (building_add left (S left) b (HOST1X_JOB_CMD_GATHER (Gather n 0 GATHER_BO (u32 (gather_offset b * 4)) false))
    (gather_offset b + n) c' (first_gather b)) as (h & Eh & Hh); try done.
  - cbn. lia.
  - eapply ck_gather; [| |exact Hl|constructor].
    + unfold gather_inside. cbn. rewrite E4. rewrite u32_id by (unfold is_u32; lia).
      split; [lia|]. split; [lia|]. split; [by apply Z.mod_mul|lia].
    + unfold gather_words. cbn. by rewrite E4.
  - by apply (gather_run_class _ _ _ _ _ Hrun), (bl_class _ _ Hb).
  - pose proof (bl_cap _ _ Hb). destruct (first_gather b && _); lia.
  - lia.
  - intros _. by left.
  - intros Hf Ht. rewrite Hfg in Hf by done. done.
  - unfold host1x_job_add_gather. rewrite Eh. right. by eexists.
Qed.

Lemma add_wait_ok left cmd b rel : building (S left) b -> ucmd_typed cmd ->
  built left (job ← host1x_job_add_wait (b_job b) (cmd_word 0 cmd) (cmd_word 1 cmd) rel (b_class b);
              Some (0, Build job (gather_offset b) (b_class b) (first_gather b))).
Proof.
  intros Hb Hu. pose proof (bl_cap _ _ Hb) as Hcap.
  destruct (building_add left (S left) b (HOST1X_JOB_CMD_WAIT (cmd_word 0 cmd) (cmd_word 1 cmd) (b_class b) rel)
    (gather_offset b) (b_class b) (first_gather b)) as (h & Eh & Hh); try done.
  - split_and!; [apply Hu|apply Hu|apply Hb|apply Hb].
  - constructor. constructor.
  - apply Hb.
  - destruct (first_gather b && _); lia.
  - destruct (bl_off _ _ Hb). lia.
  - intros H. by right.
  - apply (bl_first _ _ Hb).
  - unfold host1x_job_add_wait. rewrite Eh. right. by eexists.
Qed.

Lemma timestamp_writes_ok left b iova : building left b -> timestamps_iova d = Some iova -> first_gather b = true ->
  exists h, add_timestamp_writes iova (b_job b) = Some h /\
    building left (Build h (gather_offset b) (b_class b) false).
Proof.
  intros Hb Ht Hf. pose proof (bl_cap _ _ Hb) as Hcap. rewrite Hf, Ht in Hcap. cbn [andb] in Hcap.
  rewrite bool_decide_eq_true_2 in Hcap by done.
  assert (Hcl : b_class b = client_class client) by (apply (bl_first _ _ Hb); [done|congruence]).
  destruct (building_add left left b (HOST1X_JOB_CMD_REG_WRITE FALCON_UCLASS_METHOD_OFFSET FALCON_METHOD_TSP)
    (gather_offset b) (b_class b) false) as (h1 & E1 & H1); try done.
  { split; [by left|done]. } { rewrite Hcl. constructor. constructor. } { apply Hb. } { cbn [andb]. lia. } { apply Hb. } { intros H. by right. }
  destruct (add_cmd_length _ _ _ E1) as [Hlen Hc1].
  destruct (building_add left left _ (HOST1X_JOB_CMD_REG_WRITE FALCON_UCLASS_METHOD_DATA (u32 (Z.shiftr iova 8)))
    (gather_offset b) (b_class b) false H1) as (h2 & E2 & H2); try done.
  { split; [by right|apply u32_range]. } { cbn [b_class]. rewrite Hcl. constructor. constructor. } { apply Hb. }
  { cbn [andb b_job]. rewrite Hlen, Hc1. lia. } { apply Hb. } { intros H. by right. }
  exists h2. split; [|done]. unfold add_timestamp_writes, host1x_job_add_reg_write. rewrite E1. exact E2.
Qed.

Lemma submit_cmd_ok left cmd b : building (S left) b -> ucmd_typed cmd ->
  built left (submit_cmd context args bo d cmd b).
Proof.
  intros Hb Hu. unfold submit_cmd. repeat (case_if; [apply built_err|]).
  destruct (cmd_type cmd =? DRM_TEGRA_SUBMIT_CMD_GATHER_UPTR).
  { destruct (timestamps_iova d) as [iova|] eqn:Et; [|by apply add_gather_ok; [..|congruence]].
    destruct (first_gather b) eqn:Ef; [|by apply add_gather_ok].
    destruct (timestamp_writes_ok (S left) b iova Hb Et Ef) as (h & -> & Hh).
    cbn [mbind option_bind]. by apply add_gather_ok. }
  destruct (cmd_type cmd =? DRM_TEGRA_SUBMIT_CMD_WAIT_SYNCPT);
    [|destruct (cmd_type cmd =? DRM_TEGRA_SUBMIT_CMD_WAIT_SYNCPT_RELATIVE)]; [| |apply built_err];
    repeat (case_if; [apply built_err|]); by apply add_wait_ok.
Qed.

Lemma submit_cmds_ok ucmds : forall b, building (length ucmds) b -> Forall ucmd_typed ucmds ->
  built 0 (submit_cmds context args bo d ucmds b).
Proof.
  induction ucmds as [|cmd ucmds IH]; intros b Hb Hu; cbn [submit_cmds length] in *; [right; by eexists|].
  apply Forall_cons in Hu as [Hc Hu].
  destruct (submit_cmd_ok _ cmd b Hb Hc) as [(b' & ->)|(b' & -> & Hb')]; [apply built_err|].
  cbn [mbind option_bind Z.eqb negb]. by apply IH.
Qed.
End building.

(** ** The job *)
Definition sps_of (job : drm_job) : list resource :=
  (match job_secondary_syncpt job with Some i => [SyncptRef i] | None => [] end) ++
  (match job_syncpt job with Some i => [SyncptRef i] | None => [] end).

Lemma put_syncpts job s :
  (s ← put_opt_syncpt (job_syncpt job) (acquires (sps_of job) s); put_opt_syncpt (job_secondary_syncpt job) s) = Some s.
Proof.
  unfold sps_of, put_opt_syncpt. destruct (job_syncpt job) as [i|], (job_secondary_syncpt job) as [k|]; cbn [app acquires foldr].
  - rewrite acquire_comm. rewrite release_hit. cbn [mbind option_bind]. by rewrite release_hit.
  - by rewrite release_hit.
  - cbn [mbind option_bind]. by rewrite release_hit.
  - done.
Qed.
Lemma not_in_sps r job : (forall i, r <> SyncptRef i) -> r ∉ sps_of job.
Proof.
  intros Hr. unfold sps_of. destruct (job_syncpt job) as [i|], (job_secondary_syncpt job) as [k|]; set_unfold;
    intuition (subst; eapply Hr; done).
Qed.
#[export] Hint Extern 1 (_ ∉ sps_of _) => apply not_in_sps; discriminate : fresh_resource.

(** A job without a release callback or a fence. *)
Lemma put_new_job env job s : JobRef ∉ s -> job_release job = None -> job_fence job = false ->
  host1x_job_put env job (acquires (sps_of job) (acquire JobRef (acquire JobMem s))) = Some s.
Proof.
  intros Hf Hr Hn. unfold host1x_job_put. ledger_step.
  rewrite decide_False by (rewrite elem_acquires, elem_acquire; intros [H|[H|H]];
    [by apply not_in_sps in H|discriminate|done]).
  unfold job_free. rewrite Hr, Hn. cbn [mbind option_bind]. rewrite release_if_false. cbn [mbind option_bind].
  pose proof (put_syncpts job (acquire JobMem s)) as H.
  destruct (put_opt_syncpt (job_syncpt job) _) as [s1|]; [|done]. cbn [mbind option_bind] in H |- *. rewrite H.
  cbn [mbind option_bind]. apply release_hit.
Qed.

Section create.
Variables (env : submit_env) (context : tegra_drm_context) (args : drm_tegra_channel_submit) (syncpoints : gset Z)
  (bo : gather_bo) (d : submit_data).
Hypothesis bo_data : Z.of_nat (length (gather_data bo)) = bo_words bo.
Hypothesis bo_small : bo_words bo < 2 ^ 32.
Hypothesis bo_typed : Forall is_u32 (gather_data bo).
Hypothesis class_typed : 0 <= client_class (ctx_client context) < 2 ^ 10.

(** What submit_create_job promises of a job. *)
Record created (job : drm_job) : Prop := {
  cr_shape : drm_shape (hjob job);
  cr_some : Exists (fun c => is_gather c = true) (cmds (hjob job));
  cr_checked : exists c', checked (ctx_client context) (used_of d) (gather_data bo)
                 (client_class (ctx_client context)) (cmds (hjob job)) c';
  cr_typed : Forall cmd_typed (cmds (hjob job));
  cr_class : job_class job = client_class (ctx_client context);
  cr_syncpt : exists sp, job_syncpt job = Some sp /\ sp ∈ syncpoints;
  cr_incrs : job_syncpt_incrs job = syncpt_increments args;
  cr_release : job_release job = None;
  cr_fence : job_fence job = false;
  cr_memctx : job_memory_context job = None
}.

Lemma get_syncpt_ok job s :
  job_syncpt job = None -> job_secondary_syncpt job = None ->
  let '(err, job', s') := submit_get_syncpt args syncpoints job s in
  s' = acquires (sps_of job') s /\ hjob job' = hjob job /\ job_release job' = job_release job /\
  job_fence job' = job_fence job /\ job_memory_context job' = job_memory_context job /\
  ((err <? 0) = true \/ err = 0 /\ job_syncpt job' = Some (syncpt_id args) /\ syncpt_id args ∈ syncpoints /\
     job_syncpt_incrs job' = syncpt_increments args).
Proof.
  intros H1 H2. unfold submit_get_syncpt, sps_of.
  case_if; [rewrite H1, H2; split_and!; try done; by left|].
  case_decide; [|rewrite H1, H2; split_and!; try done; by left].
  case_if; [case_decide|]; cbn; split_and!; try done; [by right|by left|by right].
Qed.

Lemma alloc_shape n ok h :
  host1x_job_alloc (sizeof_job env) (sizeof_reloc env) (sizeof_unpin env) (sizeof_cmd env) (CONFIG_FIREWALL env)
    n 0 true ok = Some h -> 0 <= n < 2 ^ 32 -> drm_shape h /\ cmds h = [] /\ cmds_cap h = n.
Proof.
  unfold host1x_job_alloc. case_if; [done|]. destruct ok; [|done]. intros [= <-] Hn. split; [|done].
  split; cbn; [done|by rewrite andb_false_r|done| |lia|constructor].
  rewrite andb_false_r. cbn [negb]. rewrite length_replicate, Z.add_0_l, u32_id by done. done.
Qed.

Lemma create_job_ok ucmds s :
  JobRef ∉ s -> num_cmds args = Z.of_nat (length ucmds) -> num_cmds args <= 682 -> Forall ucmd_typed ucmds ->
  exists r, submit_create_job env context args syncpoints bo d ucmds s = Some r /\
    match r with
    | (inl err, s') => (err <? 0) = true /\ s' = s
    | (inr job, s') => s' = acquires (sps_of job) (acquire JobRef (acquire JobMem s)) /\ created job
    end.
Proof.
  intros Hf Hn Hb Hu. unfold submit_create_job.
  set (extra := if bool_decide (is_Some (timestamps_iova d)) then 2 else 0).
  replace (match timestamps_iova d with Some _ => _ | None => _ end) with (Some (num_cmds args + extra)).
  2: { unfold extra, add_u32. destruct (timestamps_iova d).
       - rewrite bool_decide_eq_true_2, (proj2 (Z.ltb_lt _ _)) by (done || lia). done.
       - rewrite bool_decide_eq_false_2 by (intros [? ?]; done). by rewrite Z.add_0_r. }
  assert (He : 0 <= extra <= 2) by (unfold extra; case_match; lia).
  destruct (host1x_job_alloc _ _ _ _ _ _ _ _ _) as [h|] eqn:Eh; [|by eexists].
  destruct (alloc_shape _ _ _ Eh ltac:(lia)) as (Hs & Hc & Hcap). cbv zeta.
  match goal with |- context [submit_get_syncpt args syncpoints ?j ?s] =>
    pose proof (get_syncpt_ok j s eq_refl eq_refl) as Hg; destruct (submit_get_syncpt args syncpoints j s) as [[err job1] s1] end.
  destruct Hg as (-> & Eh1 & Er1 & Ef1 & Em1 & Herr). cbn [hjob job_release job_fence job_memory_context] in *.
  destruct Herr as [Herr|(-> & Hsp & Hin & Hinc)].
  { rewrite Herr, put_new_job by done. by eexists. }
  cbn [Z.ltb Z.compare]. set (job2 := with_class job1 _).
  destruct (submit_cmds_ok context args bo d bo_data bo_small bo_typed ucmds
    (Build (hjob job2) 0 (client_class (ctx_client context)) true)) as [(b & ->)|(b & -> & Hbl)].
  { unfold job2. cbn [hjob with_class]. rewrite Eh1. split; try done; cbn [b_job gather_offset b_class first_gather].
    - rewrite Hc, Hcap. fold extra. simpl. lia.
    - lia.
    - rewrite Hc. constructor.
    - by rewrite Hc. }
  { done. }
  { cbn [mbind option_bind Z.eqb negb EINVAL Z.opp].
    pose proof (put_new_job env (with_hjob job2 (b_job b)) s Hf Er1 Ef1) as Hp.
    change (sps_of (with_hjob job2 (b_job b))) with (sps_of job1) in Hp. rewrite Hp. by eexists. }
  cbn [mbind option_bind Z.eqb negb]. destruct (gather_offset b =? 0) eqn:E0.
  { pose proof (put_new_job env (with_hjob job2 (b_job b)) s Hf Er1 Ef1) as Hp.
    change (sps_of (with_hjob job2 (b_job b))) with (sps_of job1) in Hp. rewrite Hp. by eexists. }
  zb. eexists. split; [done|]. cbn. split; [done|]. split; try done.
  - apply Hbl.
  - apply Hbl. done.
  - exists (b_class b). apply Hbl.
  - apply Hbl.
  - by exists (syncpt_id args).
Qed.
End create.

(** ** A submission to gr2d: two buffers of one mapping, two gathers and a wait *)
Definition example_mapping : tegra_drm_mapping := DrmMapping 7 9 0x80000000 0x80001000.
Definition example_context : tegra_drm_context := DrmContext gr2d {[ 1 := example_mapping ]} None 10 11.
Definition example_args : drm_tegra_channel_submit := ChannelSubmit 4 2 3 7 0 5 3 0 2 0 0.
Definition example_words : list Z := [0x1480; 0x102a0002; 5; 0; 0x90000001; 0xa0000031; 0].
Definition example_cmds : list drm_tegra_submit_cmd :=
  [SubmitCmd 0 0 (4, 0, 0, 0); SubmitCmd 2 0 (3, 1, 0, 0); SubmitCmd 0 0 (3, 0, 0, 0)].
Definition example_bufs : list drm_tegra_submit_buf := [SubmitBuf 1 0 0x10 3 0; SubmitBuf 1 0 0x1000 6 0].
Definition example_env_with (answers : nat -> pin_answer) : submit_env :=
  SubmitEnv false None None None 0 0 0 true true true (Some (fun i => nth (Z.to_nat i) example_words 0)) true None
    true (Some (fun i => nth (Z.to_nat i) example_bufs (SubmitBuf 0 0 0 0 0))) true
    true (Some (fun i => nth (Z.to_nat i) example_cmds (SubmitCmd 0 0 (0, 0, 0, 0)))) true 0x200 0x20 0x20 0x28 true
    answers (fun _ => Mapping GATHER_BO 0x10000000 0 1) false (fun _ => 0) (fun _ _ => None) (fun _ _ => 0)
    None true 0 0 true 0.
Definition example_env : submit_env := example_env_with (fun _ => PinAnswer true true 0 0).
Definition example_ledger : ledger := acquires [MappingRef 7; MappingMem 7; BoPin 7; GemRef 9] ∅.
Definition example_syncpoints : gset Z := {[ 3 ]}.

Lemma nth_typed : forall i, ucmd_typed (nth i example_cmds (SubmitCmd 0 0 (0, 0, 0, 0))).
Proof. intros [|[|[|i]]] [|[|[|k]]]; try done; destruct i; done. Qed.


(** C32. submit_create_job returns an error after releasing the job, or a well-formed job.
    Every field of its commands is within the width that the hardware has for it, every
    gather lies inside the gather data and has been checked with the class that is selected
    when the hardware gets there, there is at least one gather, the arrays of the job are
    large enough, and its syncpoint belongs to the file. *)
Theorem create_job_typed (env : submit_env) (context : tegra_drm_context) (args : drm_tegra_channel_submit)
    (syncpoints : gset Z) (bo : gather_bo) (d : submit_data) (ucmds : list drm_tegra_submit_cmd) (s : ledger) :
  Z.of_nat (length (gather_data bo)) = bo_words bo -> bo_words bo < 2 ^ 32 -> Forall is_u32 (gather_data bo) ->
  0 <= client_class (ctx_client context) < 2 ^ 10 ->
  JobRef ∉ s -> num_cmds args = Z.of_nat (length ucmds) -> num_cmds args <= 682 -> Forall ucmd_typed ucmds ->
  exists r, submit_create_job env context args syncpoints bo d ucmds s = Some r /\
    match r with
    | (inl err, s') => err < 0 /\ s' = s
    | (inr job, s') =>
        s' = acquires (sps_of job) (acquire JobRef (acquire JobMem s)) /\ drm_shape (hjob job) /\
        Forall cmd_typed (cmds (hjob job)) /\ Exists (fun c => is_gather c = true) (cmds (hjob job)) /\
        (exists c', checked (ctx_client context) (used_of d) (gather_data bo) (client_class (ctx_client context))
                      (cmds (hjob job)) c') /\
        (exists sp, job_syncpt job = Some sp /\ sp ∈ syncpoints)
    end.
Proof.
  intros Hd Hs Ht Hc Hj Hn Hb Hu.
  destruct (create_job_ok env context args syncpoints bo d Hd Hs Ht Hc ucmds s Hj Hn Hb Hu) as ([[err|job] s'] & E & H);
    eexists; (split; [exact E|]).
  - destruct H as [H ->]. split; [by apply Z.ltb_lt|done].
  - by destruct H as [-> []].
Qed.

Definition example_bo : gather_bo :=
  GatherBo [0x1480; 0x102a0002; 5; 0x80000010; 0x90000001; 0xa0000031; 0x80001000] 7.
Definition example_data : submit_data := SubmitData (Some [UsedMapping example_mapping 0]) None.
Definition created_length (r : option ((Z + drm_job) * ledger)) : option nat :=
  match r with Some (inr job, _) => Some (length (cmds (hjob job))) | _ => None end.

Lemma create_job_typed_witness : exists job s',
  submit_create_job example_env example_context example_args example_syncpoints example_bo example_data example_cmds
    example_ledger = Some (inr job, s') /\
  length (cmds (hjob job)) = 3%nat /\ Forall cmd_typed (cmds (hjob job)).
Proof.
  assert (Hl : created_length (submit_create_job example_env example_context example_args example_syncpoints example_bo
    example_data example_cmds example_ledger) = Some 3%nat) by (vm_compute; reflexivity).
  assert (Ht : Forall is_u32 (gather_data example_bo)) by (repeat constructor; done).
  assert (Hc : 0 <= client_class (ctx_client example_context) < 2 ^ 10) by done.
  assert (Hj : JobRef ∉ example_ledger) by (intros H; vm_compute in H; by inversion H).
  assert (Hn : num_cmds example_args <= 682) by done.
  assert (Hu : Forall ucmd_typed example_cmds) by (repeat constructor; apply (nth_typed 0) || apply (nth_typed 1) || apply (nth_typed 2)).
  destruct (create_job_typed example_env example_context example_args example_syncpoints example_bo example_data
    example_cmds example_ledger eq_refl eq_refl Ht Hc Hj eq_refl Hn Hu) as ([[err|job] s'] & E & H); rewrite E in Hl; [discriminate Hl|].
  cbn [created_length] in Hl. exists job, s'. split; [exact E|]. split; [by injection Hl|]. by destruct H as (_ & _ & H & _).
Defined.
