(* ===== verification/DrmPin.v ===== *)
(** Pinning the gathers of a job (host1x/job.c with the gather buffer object of
    drm/tegra/submit.c): what it takes of the buffer object, that unpinning gives it back,
    and where the gathers are then. *)
From S2P Require Import DrmRefs Prelude Host1xJob Host1xFirewall DrmFirewall DrmSubmit DrmBuild.

(** * Gather buffer objects *)

(** What one pinned gather holds; [iova] is its address when host1x has a domain. *)
Definition pin_chunk (iova : option Z) : list resource :=
  (match iova with Some a => [IommuMap a; Iova a] | None => [] end) ++ [BoDma; BoSgt; BoMapMem; BoRef; BoRef].

Lemma put_shared s : BoRef ∈ s -> gather_bo_put (acquire BoRef s) = Some s.
Proof. intros H. unfold gather_bo_put. rewrite release_hit. cbn [mbind option_bind]. by rewrite decide_True. Qed.
Lemma put_last s : BoRef ∉ s ->
  gather_bo_put (acquire BoRef (acquire GatherData (acquire BoMem s))) = Some s.
Proof.
  intros H. unfold gather_bo_put, gather_bo_release. ledger_step.
  rewrite decide_False by (rewrite !elem_acquire; intros [|[|]]; done). by ledger_step.
Qed.

(** [gather_bo_unpin] and the put that follows it in host1x_job_unpin. *)
Lemma unpin_chunk s :
  (s ← gather_bo_unpin (acquires [BoDma; BoSgt; BoMapMem; BoRef; BoRef] s); gather_bo_put s) =
  if decide (BoRef ∈ s) then Some s else gather_bo_release s.
Proof.
  unfold gather_bo_unpin. cbn [acquires foldr]. ledger_step.
  rewrite (acquire_comm BoMapMem BoRef), put_shared by (rewrite !elem_acquire; auto).
  cbn [mbind option_bind]. ledger_step. unfold gather_bo_put. by ledger_step.
Qed.

(** The error of gather_bo_pin, whatever is held.  A failing gather_bo_pin keeps the
    reference that it has taken of the buffer. *)
Definition pin_error (ans : pin_answer) : Z :=
  if negb (map_mem ans) || negb (map_sgt ans) then - ENOMEM
  else if negb (get_sgtable ans =? 0) then get_sgtable ans else map_sgtable ans.
Lemma gather_bo_pin_leaks ans s : gather_bo_pin ans s =
    Some (pin_error ans, if negb (map_mem ans) then s
               else if pin_error ans =? 0 then acquires [BoDma; BoSgt; BoRef; BoMapMem] s
               else acquire BoRef s).
Proof.
  unfold gather_bo_pin, gather_bo_get, pin_error. destruct (map_mem ans); cbn [negb orb]; [|done].
  destruct (map_sgt ans); cbn [negb orb]; [|by ledger_step].
  destruct (get_sgtable ans =? 0) eqn:E1; cbn [negb]; [|rewrite E1; by ledger_step].
  destruct (map_sgtable ans =? 0) eqn:E2; cbn [negb]; [|by ledger_step]. by apply Z.eqb_eq in E2 as ->.
Qed.
Lemma pin_result env i : gather_bo_pin_result env i =
  if pin_error (pin_answers env i) =? 0 then inr (pin_mapping env i) else inl (pin_error (pin_answers env i)).
Proof. unfold gather_bo_pin_result. by rewrite gather_bo_pin_leaks. Qed.

(** What a gather that is not pinned leaves behind: of its buffer, the reference of the job or
    also that of the mapping; or a mapping that nothing points to. *)
Definition pin_leaks : list (list resource) := [[BoRef]; [BoRef; BoRef]; [BoDma; BoSgt; BoRef; BoMapMem]].
Lemma pin_leaks_ref l : l ∈ pin_leaks -> BoRef ∈ l.
Proof. unfold pin_leaks. rewrite !elem_of_cons. intros [->|[->|[->|H]]]; [set_solver..|]. by apply not_elem_of_nil in H. Qed.

Lemma pin_leaks_no_job l : l ∈ pin_leaks -> JobRef ∉ l.
Proof. unfold pin_leaks. rewrite !elem_of_cons. intros [->|[->|[->|H]]]; [set_solver..|]. by apply not_elem_of_nil in H. Qed.

Lemma pin_one_effect env m s : pin_effects env [EvGet GATHER_BO; EvPin m] s =
  Some (acquires [BoDma; BoSgt; BoMapMem; BoRef; BoRef] s).
Proof.
  cbn. unfold gather_bo_get. do 3 f_equal. apply acquire_comm.
Qed.

Lemma pin_effects_app env l1 l2 s : pin_effects env (l1 ++ l2) s = s ← pin_effects env l1 s; pin_effects env l2 s.
Proof.
  revert s. induction l1 as [|e l1 IH]; intros s; [done|]. cbn [app pin_effects].
  destruct (pin_effect env e s); [apply IH|done].
Qed.

(** * Pinning *)

(** A command as the hardware gets it, when the gathers are at [a]. *)
Inductive placed_cmd (a : Z) : host1x_job_cmd -> host1x_job_cmd -> Prop :=
  | placed_gather g g' : words g' = words g -> offset g' = offset g -> base g' = a ->
      placed_cmd a (HOST1X_JOB_CMD_GATHER g) (HOST1X_JOB_CMD_GATHER g')
  | placed_wait i t n r : placed_cmd a (HOST1X_JOB_CMD_WAIT i t n r) (HOST1X_JOB_CMD_WAIT i t n r)
  | placed_reg r v : placed_cmd a (HOST1X_JOB_CMD_REG_WRITE r v) (HOST1X_JOB_CMD_REG_WRITE r v).

Definition handled_cmd (c : host1x_job_cmd) : Prop :=
  match c with HOST1X_JOB_CMD_GATHER g => handled g = true | _ => True end.

Lemma patch_handled mem todo : forall before h, cmds h = before ++ todo -> Forall handled_cmd todo ->
  patch_gathers (fun _ => true) (length todo) (length before) h mem = Some (0, h, mem).
Proof.
  induction todo as [|c todo IH]; intros before h Hc Hf; [done|]. cbn [length patch_gathers].
  rewrite Hc, list_lookup_middle by done. cbn [mbind option_bind].
  apply Forall_cons in Hf as [Hh Hf].
  assert (E : patch_gathers (fun _ => true) (length todo) (S (length before)) h mem = Some (0, h, mem)).
  { replace (S (length before)) with (length (before ++ [c])) by (rewrite length_app; simpl; lia).
    apply IH; [|done]. by rewrite Hc, <- app_assoc. }
  destruct c as [g|id t nc r|reg v]; [rewrite Hh|..]; exact E.
Qed.

Lemma mark_placed a g cs : bo g = GATHER_BO -> base g = a -> Forall gather_of_bo cs ->
  Forall2 (placed_cmd a) cs (mark_handled g <$> cs) /\ Forall handled_cmd (mark_handled g <$> cs).
Proof.
  intros Hb Ha H. induction H as [|c cs Hc _ [IH1 IH2]]; [by split|].
  destruct c as [g'|id t nc r|reg v]; cbn [fmap list_fmap mark_handled];
    [|split; constructor; [constructor|done|done|done]..].
  destruct Hc as [Hc _]. rewrite bool_decide_eq_true_2 by congruence.
  split; constructor; [by constructor|done|done|done].
Qed.

(** The first gather's address becomes that of all. *)
Lemma patch_placed mem pre : forall before h a g post,
  cmds h = before ++ pre ++ HOST1X_JOB_CMD_GATHER g :: post -> relocs h = [] -> enable_firewall h = false ->
  Forall gather_of_bo (pre ++ HOST1X_JOB_CMD_GATHER g :: post) -> Forall (fun c => is_gather c = false) pre ->
  addr_phys h !! (length before + length pre)%nat = Some a ->
  exists todo', patch_gathers (fun _ => true) (length (pre ++ HOST1X_JOB_CMD_GATHER g :: post)) (length before) h mem =
      Some (0, set_cmds h (before ++ todo'), mem) /\
    Forall2 (placed_cmd a) (pre ++ HOST1X_JOB_CMD_GATHER g :: post) todo'.
Proof.
  induction pre as [|c pre IH]; intros before h a g post Hc Hr Hf Hg Hp Ha; cbn [app length patch_gathers] in *.
  - rewrite Hc, list_lookup_middle by done. cbn [mbind option_bind].
    apply Forall_cons in Hg as [[Hb Hh] Hg]. rewrite Hh, Hf, Hr. cbn [length Nat.add].
    rewrite Nat.add_0_r in Ha. rewrite Ha. cbn [mbind option_bind]. unfold do_relocs.
    set (g' := Gather (words g) a (bo g) (offset g) false).
    assert (Et : take (length before) (before ++ HOST1X_JOB_CMD_GATHER g :: post) = before) by apply take_app_length.
    assert (Ed : drop (S (length before)) (before ++ HOST1X_JOB_CMD_GATHER g :: post) = post).
    { replace (S (length before)) with (length before + 1)%nat by lia. by rewrite <- drop_drop, drop_app_length. }
    rewrite Et, Ed. cbn [relocs set_cmds]. rewrite Hr. cbn [patch_loop mbind option_bind Z.eqb negb].
    destruct (mark_placed a g' post Hb eq_refl Hg) as [Hm1 Hm2].
    exists (HOST1X_JOB_CMD_GATHER g' :: (mark_handled g' <$> post)). split; [|constructor; [by constructor|done]].
    replace (S (length before)) with (length (before ++ [HOST1X_JOB_CMD_GATHER g'])) by (rewrite length_app; simpl; lia).
    rewrite <- (length_fmap (mark_handled g') post). rewrite patch_handled; [done| |done].
    cbn [cmds set_cmds]. by rewrite <- app_assoc.
  - apply Forall_cons in Hp as [Hng Hp]. apply Forall_cons in Hg as [Hgc Hg].
    rewrite Hc, list_lookup_middle by done. cbn [mbind option_bind].
    replace (S (length before)) with (length (before ++ [c])) by (rewrite length_app; simpl; lia).
    destruct (IH (before ++ [c]) h a g post) as (todo' & E & Ef); [by rewrite Hc, <- app_assoc|done..| |].
    { rewrite <- Ha. f_equal. rewrite length_app. simpl. lia. }
    rewrite E. exists (c :: todo'). rewrite <- app_assoc.
    destruct c as [g0|id t nc r|reg v]; [done|..]; (split; [done|by repeat constructor]).
Qed.

Section pins.
Variable env : submit_env.
(** Pinning the gather at index [i] fails. *)
Definition pin_fails_at (i : nat) : Prop :=
  pin_error (pin_answers env i) <> 0 \/
  host_domain env = true /\
    (host_alloc_iova env i (sg_size env (pin_mapping env i)) = None \/
     exists a, host_alloc_iova env i (sg_size env (pin_mapping env i)) = Some a /\ host_iommu_map env i a = 0).
Definition pin_works_at (i : nat) : Prop :=
  pin_error (pin_answers env i) = 0 /\
  (host_domain env = true ->
   exists a, host_alloc_iova env i (sg_size env (pin_mapping env i)) = Some a /\ host_iommu_map env i a <> 0).
Lemma pin_cases i : pin_fails_at i \/ pin_works_at i.
Proof.
  unfold pin_fails_at, pin_works_at. destruct (decide (pin_error (pin_answers env i) = 0)) as [E|]; [|by left; left].
  destruct (host_domain env); [|right; by split].
  destruct (host_alloc_iova _ _ _) as [a|]; [|left; right; auto].
  destruct (decide (host_iommu_map env i a = 0)); [left; right; eauto|right; eauto].
Qed.
Lemma pin_not_both i : pin_fails_at i -> pin_works_at i -> False.
Proof.
  intros [H|(Hd & [Hn|(a & Ha & Hm)])] [E Hw]; [done|..]; destruct (Hw Hd) as (a' & Ha' & Hm'); congruence.
Qed.

(** The address that the hardware uses for the buffer as it was pinned for command [i]. *)
Definition pin_addr (i : nat) (a : Z) : Prop :=
  if host_domain env then host_alloc_iova env i (sg_size env (pin_mapping env i)) = Some a
  else phys (pin_mapping env i) = a.
Definition pinned_at (h : host1x_job) (k : nat) : Prop := exists j a, pin_addr j a /\ addr_phys h !! k = Some a.

Definition chunk_at (a : Z) : list resource := pin_chunk (if host_domain env then Some a else None).
Definition pin_res (h : host1x_job) : list resource :=
  concat (chunk_at <$> take (length (unpins h)) (addr_phys h)).
Definition unpin_ok (m : host1x_bo_mapping) : Prop := host_domain env = true -> map_size m <> 0.

Abbreviation pins := (pin_gathers (fun _ => true) (fun i _ => gather_bo_pin_result env i) (host_domain env)
  (sg_size env) (host_alloc_iova env) (host_iommu_map env)).

Lemma array_set_ok {A} (l : list A) i x : (i < length l)%nat -> array_set l (Z.of_nat i) x = Some (<[i := x]> l).
Proof.
  intros Hi. unfold array_set. rewrite (proj2 (Z.leb_le _ _)), (proj2 (Z.ltb_lt _ _)) by lia.
  cbn [andb]. by rewrite Nat2Z.id.
Qed.

(** One more mapping, at the end of the unpins and at the command's own place. *)
Definition pushed (h : host1x_job) (i : nat) (m : host1x_bo_mapping) : host1x_job :=
  set_unpins h (unpins h ++ [m]) (<[i := phys m]> (<[length (unpins h) := phys m]> (addr_phys h))).

Lemma pushed_res h i m : (length (unpins h) <= i)%nat -> (i < length (addr_phys h))%nat ->
  pin_res (pushed h i m) = pin_res h ++ chunk_at (phys m).
Proof.
  intros Hu Hi. unfold pin_res, pushed. cbn [unpins addr_phys set_unpins]. rewrite length_app. cbn [length].
  set (n := length (unpins h)) in *.
  set (l := <[i := phys m]> (<[n := phys m]> (addr_phys h))).
  assert (El : l !! n = Some (phys m)).
  { unfold l. destruct (decide (n = i)) as [->|].
    - apply list_lookup_insert_eq. rewrite length_insert. lia.
    - rewrite list_lookup_insert_ne by done. apply list_lookup_insert_eq. lia. }
  rewrite Nat.add_1_r, (take_S_r _ _ _ El), fmap_app, concat_app. cbn [fmap list_fmap concat]. rewrite app_nil_r.
  do 3 f_equal. unfold l. rewrite !take_insert_ge by lia. done.
Qed.

Lemma pushed_pinned h i m j : (length (unpins h) <= i)%nat -> (i < length (addr_phys h))%nat -> pin_addr j (phys m) ->
  pinned_at (pushed h i m) i /\ forall k, pinned_at h k -> pinned_at (pushed h i m) k.
Proof.
  intros Hu Hi Hp. unfold pinned_at, pushed. cbn [addr_phys set_unpins]. split.
  - exists j, (phys m). split; [done|]. apply list_lookup_insert_eq. rewrite length_insert. lia.
  - intros k (j' & a & Ha & Hk). destruct (decide (k = i)) as [->|].
    { exists j, (phys m). split; [done|]. apply list_lookup_insert_eq. rewrite length_insert. lia. }
    rewrite list_lookup_insert_ne by done. destruct (decide (k = length (unpins h))) as [->|].
    { exists j, (phys m). split; [done|]. apply list_lookup_insert_eq. lia. }
    rewrite list_lookup_insert_ne by done. by exists j', a.
Qed.

(** The scatter list of the gather buffer is not empty. *)
Hypothesis sg_nonempty : host_domain env = true -> forall i, sg_size env (pin_mapping env i) <> 0.

(** What pinning the gather at index [i] comes to. *)
Lemma pin_step g cs i h log : bo g = GATHER_BO -> relocs h = [] -> pin_works_at i ->
  (length (unpins h) <= i)%nat -> (i < length (addr_phys h))%nat ->
  exists m evs, pins i (HOST1X_JOB_CMD_GATHER g :: cs) h log = pins (S i) cs (pushed h i m) (log ++ evs) /\
    unpin_ok m /\ pin_addr i (phys m) /\
    forall s, pin_effects env evs s = Some (acquires (chunk_at (phys m)) s).
Proof.
  intros Hb Hr [Hp0 Hpd] Hu Hi. cbn [pin_gathers negb]. rewrite Hb, pin_result, Hp0. cbn [Z.eqb].
  assert (Hpush : forall m, (job ← push_unpin h m;
      addrs ← array_set (addr_phys job) (Z.of_nat (length (relocs job) + i)) (phys m);
      Some (set_unpins job (unpins job) addrs)) = Some (pushed h i m)).
  { intros m. unfold push_unpin. rewrite array_set_ok by lia. cbn [mbind option_bind set_unpins relocs addr_phys].
    rewrite Hr. cbn [length Nat.add]. rewrite array_set_ok by (rewrite length_insert; lia). done. }
  destruct (host_domain env) eqn:Ed.
  - destruct (Hpd eq_refl) as (a & Ea & Hm). pose proof (sg_nonempty eq_refl i) as Hs. rewrite Ea. rewrite (proj2 (Z.eqb_neq _ _)) by done.
    set (m := Mapping _ a _ _). exists m, [EvGet GATHER_BO; EvPin (pin_mapping env i); EvIovaAlloc a; EvMap a].
    split; [|split; [intros _; exact Hs|split]].
    + specialize (Hpush m). destruct (push_unpin h m) as [j|]; [|done]. cbn [mbind option_bind] in Hpush |- *.
      destruct (array_set _ _ _); [|done]. cbn [mbind option_bind] in Hpush |- *. apply (inj Some) in Hpush. rewrite Hpush.
      by rewrite <- !app_assoc.
    + unfold pin_addr. by rewrite Ed.
    + intros s. change [_; _; _; _] with ([EvGet GATHER_BO; EvPin (pin_mapping env i)] ++ [EvIovaAlloc a; EvMap a]).
      rewrite pin_effects_app, pin_one_effect. unfold chunk_at. by rewrite Ed.
  - exists (pin_mapping env i), [EvGet GATHER_BO; EvPin (pin_mapping env i)].
    split; [|split; [intros H; congruence|split]].
    + specialize (Hpush (pin_mapping env i)). destruct (push_unpin h _) as [j|]; [|done].
      cbn [mbind option_bind] in Hpush |- *.
      destruct (array_set _ _ _); [|done]. cbn [mbind option_bind] in Hpush |- *. apply (inj Some) in Hpush. rewrite Hpush.
      by rewrite <- !app_assoc.
    + unfold pin_addr. by rewrite Ed.
    + intros s. rewrite pin_one_effect. unfold chunk_at. by rewrite Ed.
Qed.

Lemma pin_fail g cs i h log : bo g = GATHER_BO -> pin_fails_at i ->
  exists err evs leak, pins i (HOST1X_JOB_CMD_GATHER g :: cs) h log = Some (err, h, log ++ evs) /\
    err <> 0 /\ leak ∈ pin_leaks /\ forall s, pin_effects env evs s = Some (acquires leak s).
Proof.
  intros Hb Hf. cbn [pin_gathers negb]. rewrite Hb, pin_result.
  destruct (Z.eqb_spec (pin_error (pin_answers env i)) 0) as [E|E].
  - destruct Hf as [?|(Hd & Hf)]; [done|]. rewrite Hd.
    set (leak := [BoDma; BoSgt; BoRef; BoMapMem]).
    assert (Hput : forall s, pin_effects env [EvPut GATHER_BO] (acquires [BoDma; BoSgt; BoMapMem; BoRef; BoRef] s) =
      Some (acquires leak s)).
    { intros s. cbn [pin_effects pin_effect].
      replace (acquires _ s) with (acquire BoRef (acquires leak s)) by (unfold leak; ledger_eq).
      rewrite put_shared; [done|]. apply elem_acquires. left. unfold leak. set_solver. }
    destruct Hf as [Ha|(a & Ha & Hm)]; rewrite Ha.
    + exists (- ENOMEM), ([EvGet GATHER_BO; EvPin (pin_mapping env i)] ++ [EvPut GATHER_BO]), leak.
      split; [by rewrite <- !app_assoc|]. split_and!; [done|unfold pin_leaks; set_solver|].
      intros s. rewrite pin_effects_app, pin_one_effect. apply Hput.
    + rewrite Hm. cbn [Z.eqb].
      exists (- EINVAL), ([EvGet GATHER_BO; EvPin (pin_mapping env i)] ++ [EvIovaAlloc a; EvIovaFree a] ++ [EvPut GATHER_BO]), leak.
      split; [by rewrite <- !app_assoc|]. split_and!; [done|unfold pin_leaks; set_solver|].
      intros s. rewrite pin_effects_app, pin_one_effect. cbn [mbind option_bind].
      rewrite pin_effects_app. cbn [pin_effects pin_effect]. ledger_step. apply Hput.
  - exists (pin_error (pin_answers env i)), [EvGet GATHER_BO; EvPinFail i],
      (if map_mem (pin_answers env i) then [BoRef; BoRef] else [BoRef]).
    split; [by rewrite <- !app_assoc|]. split_and!; [done|unfold pin_leaks; case_match; set_solver|].
    intros s. cbn [pin_effects pin_effect mbind option_bind]. rewrite gather_bo_pin_leaks.
    rewrite (proj2 (Z.eqb_neq _ _) E). by destruct (map_mem _).
Qed.

Definition all_work (cs : list host1x_job_cmd) (i : nat) : Prop :=
  forall k g, cs !! k = Some (HOST1X_JOB_CMD_GATHER g) -> pin_works_at (i + k).
Definition one_fails (cs : list host1x_job_cmd) (i : nat) : Prop :=
  exists k g, cs !! k = Some (HOST1X_JOB_CMD_GATHER g) /\ pin_fails_at (i + k).
Lemma work_or_fail cs : forall i, all_work cs i \/ one_fails cs i.
Proof.
  induction cs as [|c cs IH]; intros i; [by left|].
  destruct (IH (S i)) as [Hw|(k & g & Hk & Hf)].
  - assert (Hgo : (forall g, c = HOST1X_JOB_CMD_GATHER g -> pin_works_at i) -> all_work (c :: cs) i).
    { intros Hc [|k] g Hk; [rewrite Nat.add_0_r; injection Hk as ->; by apply (Hc g)|].
      replace (i + S k)%nat with (S i + k)%nat by lia. by apply (Hw k g). }
    destruct c as [g|?|?]; [|left; by apply Hgo..].
    destruct (pin_cases i) as [Hf|Hi]; [right; exists 0%nat, g; by rewrite Nat.add_0_r|left; by apply Hgo].
  - right. exists (S k), g. split; [done|]. by replace (i + S k)%nat with (S i + k)%nat by lia.
Qed.
Lemma all_work_cons c cs i : all_work (c :: cs) i ->
  (forall g, c = HOST1X_JOB_CMD_GATHER g -> pin_works_at i) /\ all_work cs (S i).
Proof.
  intros H. split.
  - intros g ->. rewrite <- (Nat.add_0_r i). by apply (H 0%nat g).
  - intros k g Hk. replace (S i + k)%nat with (i + S k)%nat by lia. by apply (H (S k) g).
Qed.

Lemma pin_gathers_ok cs : forall i h log, Forall gather_of_bo cs -> relocs h = [] -> all_work cs i ->
  (length (unpins h) <= i)%nat -> (i + length cs <= length (addr_phys h))%nat -> Forall unpin_ok (unpins h) ->
  exists us addrs evs, pins i cs h log = Some (0, set_unpins h us addrs, log ++ evs) /\
    length addrs = length (addr_phys h) /\ Forall unpin_ok us /\ (length us <= length addrs)%nat /\
    (us = [] -> unpins h = [] /\ Forall (fun c => is_gather c = false) cs) /\
    (forall s, pin_effects env evs (acquires (pin_res h) s) = Some (acquires (pin_res (set_unpins h us addrs)) s)) /\
    (forall k, pinned_at h k -> pinned_at (set_unpins h us addrs) k) /\
    (forall k g, cs !! k = Some (HOST1X_JOB_CMD_GATHER g) -> pinned_at (set_unpins h us addrs) (i + k)).
Proof.
  induction cs as [|c cs IH]; intros i h log Hg Hr Hw Hu Hl Ho.
  { exists (unpins h), (addr_phys h), []. simpl in Hl. rewrite app_nil_r.
    split; [by destruct h|]. split_and!; [done|done|lia|by split|done|done|done]. }
  apply Forall_cons in Hg as [Hgc Hg]. apply all_work_cons in Hw as [Hwi Hw]. cbn [length] in Hl.
  assert (Hother : is_gather c = false -> pins i (c :: cs) h log = pins (S i) cs h log) by (by destruct c).
  destruct (is_gather c) eqn:Ec.
  - destruct c as [g|?|?]; [clear Hother Ec|done..]. destruct Hgc as [Hb _].
    destruct (pin_step g cs i h log Hb Hr (Hwi g eq_refl) Hu ltac:(lia)) as (m & evs & -> & Hm & Hp & Hev).
    destruct (IH (S i) (pushed h i m) (log ++ evs)) as (us & addrs & evs2 & E & Hla & Hus & Hul & Hne & He & Hk & Hc).
    { done. } { done. } { done. } { unfold pushed. cbn. rewrite length_app. simpl. lia. }
    { unfold pushed. cbn. rewrite !length_insert. lia. } { unfold pushed. cbn. by apply Forall_app_2; [|constructor]. }
    destruct (pushed_pinned h i m i Hu ltac:(lia) Hp) as [Hpi Hpk].
    unfold pushed in Hla. cbn in Hla. rewrite !length_insert in Hla.
    exists us, addrs, (evs ++ evs2). rewrite E, app_assoc. split_and!; [done|done|done|done| | | |].
    + intros E'. destruct (Hne E') as [H _]. unfold pushed in H. cbn in H. by apply app_nil in H as [_ H].
    + intros s. rewrite pin_effects_app, Hev. cbn [mbind option_bind].
      rewrite <- acquires_app, (Permutation_app_comm (chunk_at _)), <- (pushed_res h i m) by lia.
      apply He.
    + intros k H. by apply Hk, Hpk.
    + intros [|k] g' H; [rewrite Nat.add_0_r; by apply Hk|].
      replace (i + S k)%nat with (S i + k)%nat by lia. by apply (Hc k g').
  - rewrite Hother by done.
    destruct (IH (S i) h log Hg Hr Hw ltac:(lia) ltac:(lia) Ho) as (us & addrs & evs2 & E & Hla & Hus & Hul & Hne & He & Hk & Hc).
    exists us, addrs, evs2. split_and!; try done.
    + intros E'. destruct (Hne E'). by split; [|constructor].
    + intros [|k] g' H; [simpl in H; by simplify_eq|].
      replace (i + S k)%nat with (S i + k)%nat by lia. by apply (Hc k g').
Qed.

Lemma pin_gathers_fail cs : forall i h log, Forall gather_of_bo cs -> relocs h = [] -> one_fails cs i ->
  (length (unpins h) <= i)%nat -> (i + length cs <= length (addr_phys h))%nat -> Forall unpin_ok (unpins h) ->
  exists err us addrs evs leak, pins i cs h log = Some (err, set_unpins h us addrs, log ++ evs) /\
    err <> 0 /\ leak ∈ pin_leaks /\ Forall unpin_ok us /\ (length us <= length addrs)%nat /\
    forall s, pin_effects env evs (acquires (pin_res h) s) =
      Some (acquires (pin_res (set_unpins h us addrs)) (acquires leak s)).
Proof.
  induction cs as [|c cs IH]; intros i h log Hg Hr (k & g & Hk & Hf) Hu Hl Ho; [done|].
  apply Forall_cons in Hg as [Hgc Hg]. cbn [length] in Hl.
  assert (Hnext : k <> 0%nat -> one_fails cs (S i)).
  { destruct k as [|k]; [done|]. intros _. exists k, g. by replace (S i + k)%nat with (i + S k)%nat by lia. }
  assert (Hother : is_gather c = false -> pins i (c :: cs) h log = pins (S i) cs h log) by (by destruct c).
  destruct c as [g'|id t nc r|reg v].
  2,3: rewrite Hother by done; apply IH; [done|done| |lia|lia|done]; apply Hnext; intros ->; done.
  destruct Hgc as [Hb _]. destruct (pin_cases i) as [Hi|Hi].
  - destruct (pin_fail g' cs i h log Hb Hi) as (err & evs & leak & E & He & Hleak & Hev).
    exists err, (unpins h), (addr_phys h), evs, leak. rewrite E. split; [by destruct h|].
    split_and!; [done|done|done|lia|]. intros s. rewrite Hev. f_equal.
    change (pin_res (set_unpins h (unpins h) (addr_phys h))) with (pin_res h). ledger_eq.
  - destruct (pin_step g' cs i h log Hb Hr Hi Hu ltac:(lia)) as (m & evs & -> & Hm & Hp & Hev).
    destruct (IH (S i) (pushed h i m) (log ++ evs)) as (err & us & addrs & evs2 & leak & E & He & Hleak & Hus & Hul & Hev2).
    { done. } { done. } { apply Hnext. intros ->. rewrite Nat.add_0_r in Hf. by eapply pin_not_both. }
    { unfold pushed. cbn. rewrite length_app. simpl. lia. }
    { unfold pushed. cbn. rewrite !length_insert. lia. } { unfold pushed. cbn. by apply Forall_app_2; [|constructor]. }
    exists err, us, addrs, (evs ++ evs2), leak. rewrite E, app_assoc. split_and!; [done..|].
    intros s. rewrite pin_effects_app, Hev. cbn [mbind option_bind].
    rewrite <- acquires_app, (Permutation_app_comm (chunk_at _)), <- (pushed_res h i m) by lia. apply Hev2.
Qed.

(** A job whose gathers are pinned. *)
Record pinned_shape (h : host1x_job) : Prop := {
  ps_unpins : unpins h <> [];
  ps_addrs : (length (unpins h) <= length (addr_phys h))%nat;
  ps_ok : Forall unpin_ok (unpins h);
  ps_firewall : enable_firewall h = false;
  ps_copy : gather_copy_size h = 0
}.

Lemma first_gather_split cs : Forall gather_of_bo cs -> Exists (fun c => is_gather c = true) cs ->
  exists pre g post, cs = pre ++ HOST1X_JOB_CMD_GATHER g :: post /\ Forall (fun c => is_gather c = false) pre.
Proof.
  intros Hf He. induction He as [c cs Hc|c cs _ IH]; [destruct c as [g|?|?]; [|done..]; by exists [], g, cs|].
  destruct (is_gather c) eqn:Ec; [destruct c as [g|?|?]; [|done..]; by exists [], g, cs|].
  apply Forall_cons in Hf as [_ Hf]. destruct (IH Hf) as (pre & g & post & -> & Hp).
  exists (c :: pre), g, post. split; [done|by constructor].
Qed.

Lemma drm_job_pin_ok job s : drm_shape (hjob job) -> Exists (fun c => is_gather c = true) (cmds (hjob job)) ->
  all_work (cmds (hjob job)) 0 ->
  exists h a j, drm_job_pin env job s = Some (0, with_hjob job h, acquires (pin_res h) s) /\
    pinned_shape h /\ pin_addr j a /\ Forall2 (placed_cmd a) (cmds (hjob job)) (cmds h).
Proof.
  intros [Hr Hf Hc Ha Hcap Hg] He Hw. set (h := hjob job) in *. unfold drm_job_pin, host1x_job_pin, pin_job.
  fold h. set (h0 := set_unpins h [] (addr_phys h)). change (relocs h0) with (relocs h).
  rewrite Hr. cbn [pin_relocs mbind option_bind Z.eqb negb]. change (enable_firewall h0) with (enable_firewall h).
  rewrite Hf. change (cmds h0) with (cmds h). destruct (pin_gathers_ok (cmds h) 0 h0 [] Hg Hr Hw) as (us & addrs & evs & E & Hl & Hus & Hul & Hne & Hev & Hk & Hpin).
  { simpl. lia. } { unfold h0. cbn. lia. } { constructor. }
  rewrite E. cbn [app mbind option_bind Z.eqb negb]. change (enable_firewall (set_unpins h0 us addrs)) with (enable_firewall h).
  rewrite Hf. cbn [mbind option_bind Z.eqb negb]. change (cmds (set_unpins h0 us addrs)) with (cmds h).
  destruct (first_gather_split _ Hg He) as (pre & g & post & Ecs & Hp).
  destruct (Hpin (length pre) g) as (j & a & Hj & Hla); [rewrite Ecs; by apply list_lookup_middle|].
  rewrite Ecs in Hg |- *.
  destruct (patch_placed ∅ pre [] (set_unpins h0 us addrs) a g post) as (todo & Ep & Hpl); [by rewrite <- Ecs|done..|].
  cbn [length] in Ep. rewrite Ep. cbn [app mbind option_bind Z.eqb negb]. specialize (Hev s).
  assert (E0 : pin_res h0 = []) by done. rewrite E0 in Hev. cbn [acquires foldr] in Hev. rewrite Hev.
  cbn [mbind option_bind].
  exists (set_cmds (set_unpins h0 us addrs) todo), a, j. split_and!; [done| |done|done].
  split; [|done..]. cbn. intros ->. destruct Hne as [_ Hng]; [done|]. rewrite Ecs in Hng.
  apply Forall_app in Hng as [_ Hng]. by apply Forall_cons in Hng as [? _].
Qed.

Lemma unpin_loop_effects us : forall addrs s, (length us <= length addrs)%nat -> Forall unpin_ok us ->
  exists log, unpin_loop (host_domain env) false us addrs = Some log /\
    pin_effects env log (acquires (concat (chunk_at <$> take (length us) addrs)) s) =
      match us with [] => Some s | _ => if decide (BoRef ∈ s) then Some s else gather_bo_release s end.
Proof.
  induction us as [|m us IH]; intros addrs s Hl Ho; [by exists []|].
  destruct addrs as [|a addrs]; [simpl in Hl; lia|]. apply Forall_cons in Ho as [Hm Ho].
  destruct (IH addrs s ltac:(simpl in Hl; lia) Ho) as (log & E & He). cbn [unpin_loop]. rewrite E.
  cbn [mbind option_bind negb andb length take fmap list_fmap concat]. rewrite acquires_app.
  set (rest := acquires (concat _) s) in *.
  assert (Hone : forall pre, (forall s, pin_effects env pre (acquires (chunk_at a) s) =
      Some (acquires [BoDma; BoSgt; BoMapMem; BoRef; BoRef] s)) ->
    pin_effects env (pre ++ [EvUnpin m; EvPut (map_bo m)] ++ log) (acquires (chunk_at a) rest) =
      if decide (BoRef ∈ s) then Some s else gather_bo_release s).
  { intros pre Hpre. rewrite pin_effects_app, Hpre. cbn [mbind option_bind app pin_effects pin_effect].
    transitivity (s1 ← (s0 ← gather_bo_unpin (acquires [BoDma; BoSgt; BoMapMem; BoRef; BoRef] rest); gather_bo_put s0);
                  pin_effects env log s1); [by destruct (gather_bo_unpin _)|]. rewrite unpin_chunk.
    destruct us as [|m' us].
    - cbn in E. injection E as <-. subst rest. change (acquires _ s) with s. cbn [pin_effects].
      case_decide; [done|]. by destruct (gather_bo_release s).
    - rewrite decide_True; [cbn [mbind option_bind]; exact He|].
      unfold rest. apply elem_acquires. left. destruct addrs as [|a' addrs]; [simpl in Hl; lia|].
      cbn [length take fmap list_fmap concat]. unfold chunk_at, pin_chunk. set_solver. }
  eexists. split; [done|]. apply Hone. intros s'. unfold chunk_at.
  destruct (host_domain env) eqn:Ed; cbn [negb andb].
  - rewrite (proj2 (Z.eqb_neq _ _)) by (by apply Hm). cbn [negb andb pin_chunk app acquires foldr pin_effects pin_effect].
    by ledger_step.
  - by rewrite andb_false_r.
Qed.

(** An error: the gathers that were pinned are unpinned, once. *)
Lemma drm_job_pin_fail job s : drm_shape (hjob job) -> one_fails (cmds (hjob job)) 0 ->
  exists err h leak, drm_job_pin env job s = Some (err, with_hjob job h, acquires leak s) /\
    err <> 0 /\ leak ∈ pin_leaks.
Proof.
  intros [Hr Hf Hc Ha Hcap Hg] Hw. set (h := hjob job) in *. unfold drm_job_pin, host1x_job_pin, pin_job.
  fold h. set (h0 := set_unpins h [] (addr_phys h)). change (relocs h0) with (relocs h).
  rewrite Hr. cbn [pin_relocs mbind option_bind Z.eqb negb]. change (enable_firewall h0) with (enable_firewall h).
  rewrite Hf. change (cmds h0) with (cmds h).
  destruct (pin_gathers_fail (cmds h) 0 h0 [] Hg Hr Hw) as (err & us & addrs & evs & leak & E & He & Hleak & Hus & Hul & Hev).
  { simpl. lia. } { unfold h0. cbn. lia. } { constructor. }
  assert (Ez : (err =? 0) = false) by (by apply Z.eqb_neq).
  rewrite E. cbn [app mbind option_bind].
  destruct (unpin_loop_effects us addrs (acquires leak s) Hul Hus) as (log & Elog & Hlog).
  unfold host1x_job_unpin. subst h0.
  repeat (rewrite ?Ez, ?Hf, ?Hc, ?Elog;
    cbn [mbind option_bind app Z.eqb negb unpin_loop unpins addr_phys enable_firewall gather_copy_size set_unpins]).
  rewrite !app_nil_r, pin_effects_app. specialize (Hev s). change (acquires (pin_res _) s) with s in Hev at 1. rewrite Hev.
  cbn [mbind option_bind]. unfold pin_res. cbn [unpins addr_phys set_unpins]. rewrite Hlog.
  assert (Hin : BoRef ∈ acquires leak s) by (apply elem_acquires; left; by apply pin_leaks_ref).
  rewrite decide_True by done. exists err. destruct us; (eexists _, leak; split; [done|by split]).
Qed.

Lemma not_in_pin_res r h : match r with BoRef | BoMapMem | BoSgt | BoDma | Iova _ | IommuMap _ => False | _ => True end ->
  r ∉ pin_res h.
Proof.
  intros Hr. unfold pin_res. generalize (take (length (unpins h)) (addr_phys h)). intros l.
  induction l as [|a l IH]; simpl; [apply not_elem_of_nil|]. rewrite elem_of_app. intros [H|H]; [|done].
  unfold chunk_at, pin_chunk in H. destruct (host_domain env); set_unfold in H; intuition subst; done.
Qed.
Lemma bo_ref_pinned h : pinned_shape h -> BoRef ∈ pin_res h.
Proof.
  intros [Hu Hl _ _ _]. unfold pin_res. destruct (unpins h) as [|m us]; [done|].
  destruct (addr_phys h) as [|a l]; [simpl in Hl; lia|]. cbn [length take fmap list_fmap concat].
  apply elem_of_app. left. unfold chunk_at, pin_chunk. set_solver.
Qed.

Lemma drm_job_unpin_ok job s : pinned_shape (hjob job) ->
  exists h, drm_job_unpin env job (acquires (pin_res (hjob job)) s) =
    s' ← (if decide (BoRef ∈ s) then Some s else gather_bo_release s); Some (with_hjob job h, s').
Proof.
  intros [Hu Hl Ho Hf Hc]. unfold drm_job_unpin, host1x_job_unpin. rewrite Hf, Hc.
  destruct (unpin_loop_effects (unpins (hjob job)) (addr_phys (hjob job)) s Hl Ho) as (log & E & He).
  rewrite E. cbn [mbind option_bind app Z.eqb negb]. rewrite app_nil_r. fold (pin_res (hjob job)) in He.
  eexists. rewrite He. by destruct (unpins (hjob job)).
Qed.
End pins.
#[export] Hint Extern 1 (_ ∉ pin_res _ _) => apply not_in_pin_res; exact I : fresh_resource.

