(* ===== verification/DrmSubmitFacts.v ===== *)
(** A submission gives back what it takes: on every error path before the ioctl returns,
    and otherwise when the job completes; what stays is what a pinning that fails leaves
    behind, and the fence made for syncobj_out. *)
From S2P Require Import DrmRefs Prelude Host1xJob Host1xFirewall DrmFirewall DrmSubmit DrmBuild DrmPin.

(** * Jobs with their data *)
Definition memctx_res (job : drm_job) : list resource :=
  match job_memory_context job with Some c => [MemctxRef c] | None => [] end.
Lemma not_in_memctx_res r job : (forall c, r <> MemctxRef c) -> r ∉ memctx_res job.
Proof.
  intros Hr. unfold memctx_res. destruct (job_memory_context job); set_unfold; intuition (subst; eapply Hr; done).
Qed.
#[export] Hint Extern 1 (_ ∉ memctx_res _) => apply not_in_memctx_res; discriminate : fresh_resource.

Definition has_ts (d : submit_data) : bool := bool_decide (is_Some (timestamps_iova d)).
Definition used_res (d : submit_data) : list resource := mapping_refs (um_mapping <$> used_of d).

Lemma not_in_used_res r d : (forall m, r <> MappingRef m) -> r ∉ used_res d.
Proof. apply not_in_mapping_refs. Qed.
#[export] Hint Extern 1 (_ ∉ used_res _) => apply not_in_used_res; discriminate : fresh_resource.

(** What a job owns from the moment its release callback is set, on top of [r]. *)
Definition job_owns (env : submit_env) (job : drm_job) (d : submit_data) (r : ledger) : ledger :=
  acquires (sps_of job) (acquire JobRef (acquire JobMem (acquire_if (job_fence job) JobFence
    (acquire_if (pm_enabled env) PowerRef (acquires (memctx_res job) (acquires (used_res d)
      (acquire UsedMappings (acquire_if (has_ts d) Timestamps (acquire JobData r))))))))).

Lemma put_memctx_hit job s : put_opt_memctx (job_memory_context job) (acquires (memctx_res job) s) = Some s.
Proof.
  unfold put_opt_memctx, memctx_res. destruct (job_memory_context job); [|done]. apply release_hit.
Qed.

Section released.
Variables (env : submit_env) (d : submit_data) (r : ledger).
Hypothesis used_live : Forall (fun um => MappingRef (mapping_id (um_mapping um)) ∈ r) (used_of d).
Hypothesis data_used_set : is_Some (data_used d).
Hypothesis traced : has_ts d = true -> CONFIG_TRACING env = true.

Lemma put_used s : (forall x, x ∈ r -> x ∈ s) ->
  put_mappings (um_mapping <$> used_of d) (acquires (used_res d) s) = Some s.
Proof.
  intros Hs. apply put_mappings_shared, Forall_fmap. eapply Forall_impl; [exact used_live|]. intros um H. by apply Hs.
Qed.

Lemma release_job_ok job s : (forall x, x ∈ r -> x ∈ s) ->
  release_job env job d
    (acquire_if (pm_enabled env) PowerRef (acquires (memctx_res job) (acquires (used_res d)
      (acquire UsedMappings (acquire_if (has_ts d) Timestamps (acquire JobData s)))))) = Some s.
Proof.
  intros Hs. unfold release_job.
  replace (put_opt_memctx _ _) with (Some (acquire_if (pm_enabled env) PowerRef (acquires (used_res d)
      (acquire UsedMappings (acquire_if (has_ts d) Timestamps (acquire JobData s)))))).
  2: { unfold put_opt_memctx, memctx_res, host1x_memory_context_put. destruct (job_memory_context job); [|done].
       cbn [acquires foldr]. by ledger_step. }
  cbn [mbind option_bind]. fold (has_ts d).
  replace (CONFIG_TRACING env && has_ts d) with (has_ts d) by (destruct (has_ts d); [by rewrite traced|by rewrite andb_false_r]).
  replace (release_if (has_ts d) Timestamps _) with (Some (acquires (used_res d) (acquire_if (pm_enabled env) PowerRef
      (acquire UsedMappings (acquire JobData s))))).
  2: { destruct (has_ts d); rewrite ?release_if_true, ?release_if_false; unfold used_res.
       - change (acquire_if true Timestamps ?x) with (acquire Timestamps x). ledger_step. f_equal. ledger_eq.
       - change (acquire_if false Timestamps ?x) with x. f_equal. ledger_eq. }
  cbn [mbind option_bind]. rewrite put_used by (intros x Hx; rewrite elem_acquire_if, !elem_acquire; auto).
  cbn [mbind option_bind]. rewrite bool_decide_eq_true_2, release_if_true by done. by ledger_step.
Qed.

Lemma put_released_job job : JobRef ∉ r -> job_release job = Some d ->
  host1x_job_put env job (job_owns env job d r) = Some r.
Proof.
  intros Hf Hr. unfold host1x_job_put, job_owns. ledger_step.
  rewrite decide_False.
  2: { by ledger_out. }
  unfold job_free. rewrite Hr.
  set (r' := acquires (sps_of job) (acquire JobMem (acquire_if (job_fence job) JobFence r))).
  match goal with |- context [release_job env job d ?x] =>
    replace x with (acquire_if (pm_enabled env) PowerRef (acquires (memctx_res job) (acquires (used_res d)
      (acquire UsedMappings (acquire_if (has_ts d) Timestamps (acquire JobData r')))))) by (subst r'; ledger_eq) end.
  rewrite release_job_ok.
  2: { intros x Hx. subst r'. rewrite elem_acquires, elem_acquire, elem_acquire_if. auto. }
  cbn [mbind option_bind]. subst r'.
  replace (acquires (sps_of job) _) with (acquire_if (job_fence job) JobFence (acquires (sps_of job) (acquire JobMem r))) by ledger_eq.
  rewrite release_if_hit. cbn [mbind option_bind]. pose proof (put_syncpts job (acquire JobMem r)) as H.
  destruct (put_opt_syncpt (job_syncpt job) _) as [s1|]; [|done]. cbn [mbind option_bind] in H |- *. rewrite H.
  cbn [mbind option_bind]. apply release_hit.
Qed.
End released.

(** * The copies from user space *)
Lemma alloc_copy_ok {A} mem ok (user : option (Z -> A)) count size s : 0 <= count -> 0 <= size ->
  exists r, alloc_copy_user_array mem ok user count size s = Some r /\
    match r with
    | (inl err, s') => (err <? 0) = true /\ s' = s
    | (inr l, s') => s' = acquire mem s /\ count * size <= 0x4000 /\ length l = Z.to_nat count /\
                     exists f, user = Some f /\ l = f <$> seqZ 0 count
    end.
Proof.
  intros Hc Hs. unfold alloc_copy_user_array, mul_size_t. case_if; [|by eexists].
  case_if; [by eexists|]. destruct ok; cbn [negb]; [|by eexists]. destruct user as [f|].
  - eexists. split; [done|]. split; [done|]. split; [done|]. split; [|by exists f].
    by rewrite length_fmap, length_seqZ.
  - rewrite release_hit. by eexists.
Qed.

(** * The words of the gathers *)

(** The word that stands for the address of a mapping, and the words with it. *)
Definition reloc_word (buf : drm_tegra_submit_buf) (m : tegra_drm_mapping) : Z :=
  let addr := u64 (iova m + target_offset buf) in
  u32 (Z.shiftr (if Z.testbit (buf_flags buf) 0 then Z.lor addr (2 ^ 39) else addr) (reloc_shift buf)).
Definition patch_reloc (words : list Z) (bu : drm_tegra_submit_buf * tegra_drm_used_mapping) : list Z :=
  <[Z.to_nat (gather_offset_words bu.1) := reloc_word bu.1 (um_mapping bu.2)]> words.

(** The words of user space, with the addresses of the used mappings. *)
Definition submitted_words (env : submit_env) (args : drm_tegra_channel_submit) (used : list tegra_drm_used_mapping)
    : list Z :=
  match user_gather env, user_bufs env with
  | Some f, Some g =>
      foldl patch_reloc ((fun i => u32 (f i)) <$> seqZ 0 (gather_data_words args)) (zip (g <$> seqZ 0 (num_bufs args)) used)
  | _, _ => []
  end.

(** * Giving back *)

(** The only thing that a failed submission keeps: when pinning a gather fails, a reference of
    the gather buffer, and with it the buffer, stays (see [gather_bo_pin_leaks]). *)
Definition pinning_leaks (env : submit_env) (s s' : ledger) : Prop :=
  exists leak, leak ∈ pin_leaks /\ (exists i, pin_fails_at env i) /\ s' = acquires (leak ++ [GatherData; BoMem]) s.

Section unwind.
Variables (env : submit_env) (context : tegra_drm_context) (s : ledger).
Hypothesis job_fresh : JobRef ∉ s.
Hypothesis mappings_live : forall i m, ctx_mappings context !! i = Some m -> MappingRef (mapping_id m) ∈ s.

Definition st_lock (so : bool) : ledger := acquire_if so SyncobjRef (acquire FprivLock s).
Definition st_bo (so : bool) : ledger := acquire GatherData (acquire BoRef (acquire BoMem (st_lock so))).
Definition st_data (ts : option Z) (so : bool) : ledger :=
  acquire_if (bool_decide (is_Some ts)) Timestamps (acquire JobData (st_bo so)).
Definition st_used (d : submit_data) (so : bool) : ledger :=
  acquires (used_res d) (acquire UsedMappings (st_data (timestamps_iova d) so)).
Definition st_cmds (d : submit_data) (so : bool) : ledger := acquire CmdsMem (st_used d so).

(** Everything below the gather buffer is the caller's. *)
Lemma below_lock r so : r ∈ st_lock so <-> (so = true /\ r = SyncobjRef) \/ r = FprivLock \/ r ∈ s.
Proof. unfold st_lock. by rewrite elem_acquire_if, elem_acquire. Qed.
Lemma below_bo r so : r ∈ st_bo so <-> r = GatherData \/ r = BoRef \/ r = BoMem \/ r ∈ st_lock so.
Proof. unfold st_bo. by rewrite !elem_acquire. Qed.
Lemma job_new d so : JobRef ∉ st_cmds d so.
Proof.
  unfold st_cmds, st_used, st_data.
  rewrite elem_acquire, elem_acquires, elem_acquire, elem_acquire_if, elem_acquire, below_bo, below_lock.
  intros [H|[H|H]]; [done|by apply not_in_mapping_refs in H|]. naive_solver.
Qed.

Lemma unlock_ok so out : unlock so out (st_lock so) = Some (out, s).
Proof. unfold unlock, st_lock. by ledger_step. Qed.

(** What is left of the gather buffer when the ioctl has put it: the buffer, when there are
    other references. *)
Definition bo_left : ledger := if decide (BoRef ∈ s) then acquires [GatherData; BoMem] s else s.
Lemma put_bo_left so out : put_bo so out (st_bo so) = Some (out, bo_left).
Proof.
  unfold put_bo, st_bo, gather_bo_put, gather_bo_release, bo_left. ledger_step.
  destruct (decide (BoRef ∈ s)) as [Hin|Hout].
  - rewrite decide_True by (rewrite !elem_acquire, below_lock; auto). cbn [mbind option_bind].
    unfold unlock, st_lock. destruct so; rewrite ?release_if_true, ?release_if_false.
    + change (acquire_if true ?r ?y) with (acquire r y). by ledger_step.
    + change (acquire_if false ?r ?y) with y. by ledger_step.
  - rewrite decide_False by (rewrite !elem_acquire, below_lock; naive_solver). ledger_step. apply unlock_ok.
Qed.
Lemma free_data_left ts so out : free_job_data (Some (SubmitData None ts)) so out (st_data ts so) = Some (out, bo_left).
Proof. unfold free_job_data, st_data. cbn [timestamps_iova data_used]. ledger_step. apply put_bo_left. Qed.

(** The mappings of a job are those of the channel. *)
Definition from_context (used : list tegra_drm_used_mapping) : Prop :=
  Forall (fun um => exists i, ctx_mappings context !! i = Some (um_mapping um)) used.
Lemma from_context_live used : from_context used ->
  Forall (fun um => MappingRef (mapping_id (um_mapping um)) ∈ s) used.
Proof. intros H. eapply Forall_impl; [exact H|]. intros um (i & Hi). by apply (mappings_live i). Qed.

Lemma free_used_left d used so out : data_used d = Some used -> from_context used ->
  free_job_data (Some d) so out (st_used d so) = Some (out, bo_left).
Proof.
  intros Hd Hu. unfold free_job_data, st_used, st_data. fold (has_ts d).
  replace (release_if (has_ts d) Timestamps _) with
    (Some (acquires (used_res d) (acquire UsedMappings (acquire JobData (st_bo so))))).
  2: { destruct (has_ts d); rewrite ?release_if_true, ?release_if_false; unfold used_res; [|done].
       change (acquire_if true Timestamps ?x) with (acquire Timestamps x). by ledger_step. }
  cbn [mbind option_bind]. rewrite Hd. unfold used_res, used_of. rewrite Hd. cbn [default].
  rewrite put_mappings_shared.
  - ledger_step. apply put_bo_left.
  - apply Forall_fmap. eapply Forall_impl; [by apply from_context_live|]. intros um H. cbn.
    rewrite !elem_acquire, below_bo, below_lock. tauto.
Qed.

(** What the submission needs to know of the data of its job. *)
Record data_ok (d : submit_data) : Prop := {
  do_set : is_Some (data_used d);
  do_context : from_context (used_of d);
  do_traced : has_ts d = true -> CONFIG_TRACING env = true
}.

Lemma put_plain_left job d so out : data_ok d -> job_release job = None -> job_fence job = false ->
  put_job env job (Some d) so out (acquires (sps_of job) (acquire JobRef (acquire JobMem (st_cmds d so)))) = Some (out, bo_left).
Proof.
  intros Hd Hr Hf. unfold put_job. rewrite put_new_job by (done || apply job_new). cbn [mbind option_bind].
  unfold free_cmds, st_cmds. rewrite release_hit. cbn [mbind option_bind].
  destruct (do_set _ Hd) as [used Hu]. apply (free_used_left d used); [done|].
  pose proof (do_context _ Hd) as H. unfold used_of in H. by rewrite Hu in H.
Qed.

End unwind.

Section balance.
Variables (env : submit_env) (context : tegra_drm_context) (args : drm_tegra_channel_submit) (syncpoints : gset Z)
  (s : ledger).

(** The answers of the kernel: the scatter list of the gather buffer is not empty, and creating
    the fence for the syncobj of the result does not fail. *)
Hypothesis sg_nonempty : host_domain env = true -> forall i, sg_size env (pin_mapping env i) <> 0.
Hypothesis postfence_ok : syncobj_out args <> 0 -> 0 <= postfence env.
(** The interface: the types of the members, and shifts that C defines. *)
Hypothesis args_typed : 0 <= num_bufs args /\ 0 <= num_cmds args /\ 0 <= gather_data_words args < 2 ^ 32.
Hypothesis cmds_typed : forall f i, user_cmds env = Some f -> ucmd_typed (f i).
Hypothesis shifts_ok : forall f i, user_bufs env = Some f -> reloc_shift (f i) < 64 /\ 0 <= gather_offset_words (f i).
Hypothesis class_typed : 0 <= client_class (ctx_client context) < 2 ^ 10.
(** The gather buffer and the job are new, and the channel's mappings are alive. *)
Hypothesis bo_fresh : BoRef ∉ s.
Hypothesis job_fresh : JobRef ∉ s.
Hypothesis mappings_live : forall i m, ctx_mappings context !! i = Some m -> MappingRef (mapping_id m) ∈ s.

Abbreviation st_lock := (st_lock s).
Abbreviation st_bo := (st_bo s).
Abbreviation st_data := (st_data s).
Abbreviation st_used := (st_used s).
Abbreviation st_cmds := (st_cmds s).
Abbreviation from_context := (from_context context).
Abbreviation data_ok := (data_ok env context).
#[local] Abbreviation below_lock := (below_lock s).
#[local] Abbreviation below_bo := (below_bo s).
Lemma left_fresh : bo_left s = s.
Proof. unfold bo_left. by rewrite decide_False. Qed.
Lemma put_bo_ok so out : put_bo so out (st_bo so) = Some (out, s).
Proof. by rewrite put_bo_left, left_fresh. Qed.
Lemma free_data_ok ts so out : free_job_data (Some (SubmitData None ts)) so out (st_data ts so) = Some (out, s).
Proof. by rewrite free_data_left, left_fresh. Qed.
Lemma free_used_ok d used so out : data_used d = Some used -> from_context used ->
  free_job_data (Some d) so out (st_used d so) = Some (out, s).
Proof. intros. by rewrite (free_used_left context s mappings_live d used), left_fresh. Qed.

Lemma copy_gather_ok so : exists r, submit_copy_gather_data env args (st_lock so) = Some r /\
  match r with
  | (inl err, s') => s' = st_lock so
  | (inr bo, s') => s' = st_bo so /\ bo_words bo = gather_data_words args /\
                    Z.of_nat (length (gather_data bo)) = bo_words bo /\ bo_words bo < 2 ^ 32 /\
                    Forall is_u32 (gather_data bo) /\ exists f, user_gather env = Some f /\
                    gather_data bo = (fun i => u32 (f i)) <$> seqZ 0 (gather_data_words args)
  end.
Proof.
  unfold submit_copy_gather_data, mul_size_t. destruct args_typed as (_ & _ & Hw).
  case_if; [by eexists|]. rewrite (proj2 (Z.ltb_lt _ _)) by lia.
  destruct (kzalloc_bo env); cbn [negb]; [|by eexists].
  destruct (dma_alloc_gather env); cbn [negb]; [|ledger_step; by eexists].
  destruct (user_gather env) as [f|]; [|ledger_step; by eexists].
  eexists. split; [done|]. split; [done|]. split; [done|]. cbn. rewrite length_fmap, length_seqZ.
  split; [lia|]. split; [lia|]. split; [|by exists f]. apply Forall_fmap, Forall_true. intros. apply u32_range.
Qed.

(** ** Relocations *)
Definition bo_like (bo bo' : gather_bo) : Prop :=
  length (gather_data bo') = length (gather_data bo) /\ bo_words bo' = bo_words bo /\
  (Forall is_u32 (gather_data bo) -> Forall is_u32 (gather_data bo')).

Lemma write_reloc_ok bo buf m : Z.of_nat (length (gather_data bo)) = bo_words bo -> reloc_shift buf < 64 ->
  0 <= gather_offset_words buf ->
  exists err bo', submit_write_reloc bo buf m = Some (err, bo') /\ bo_like bo bo' /\
    (err = 0 /\ (forall fl, gather_data bo' = patch_reloc (gather_data bo) (buf, UsedMapping m fl)) \/ err = - EINVAL).
Proof.
  intros Hl Hs Hg. unfold submit_write_reloc. rewrite (proj2 (Z.leb_gt _ _)) by lia. cbv zeta.
  case_if; [exists (- EINVAL), bo; split; [done|]; split; [done|by right]|].
  unfold array_set. rewrite (proj2 (Z.leb_le _ _)), (proj2 (Z.ltb_lt _ _)) by lia. cbn [andb mbind option_bind].
  eexists _, _. split; [done|]. split.
  - unfold bo_like. cbn. rewrite length_insert. split_and!; [done|done|].
    intros H. apply Forall_insert; [done|apply u32_range].
  - left. split; [done|]. intros fl. cbn [gather_data]. unfold patch_reloc, reloc_word. cbn [fst snd um_mapping].
    do 2 f_equal. f_equal. unfold DRM_TEGRA_SUBMIT_RELOC_SECTOR_LAYOUT. change 1 with (Z.ones 1) at 1.
    rewrite Z.land_ones by done. change (2 ^ 1) with 2. rewrite Zmod_odd, Z.bit0_odd.
    by destruct (Z.odd (buf_flags buf)).
Qed.

Lemma process_loop_ok base bufs : forall used bo,
  (forall x, x ∈ s -> x ∈ base) -> Forall (fun b => reloc_shift b < 64 /\ 0 <= gather_offset_words b) bufs ->
  from_context used -> Z.of_nat (length (gather_data bo)) = bo_words bo ->
  exists r, process_bufs_loop context bufs used bo (acquires (mapping_refs (um_mapping <$> used)) base) = Some r /\
    match r with
    | (err, used', bo', s') => bo_like bo bo' /\
        (err = 0 /\ s' = acquires (mapping_refs (um_mapping <$> used')) base /\ from_context used' /\
           (exists new, used' = reverse used ++ new /\
              gather_data bo' = foldl patch_reloc (gather_data bo) (zip bufs new)) \/
         err = - EINVAL /\ s' = base)
    end.
Proof.
  induction bufs as [|buf bufs IH]; intros used bo Hb Hok Hu Hl.
  { eexists. split; [done|]. cbn. split; [done|]. left. split; [done|]. split_and!.
    - apply acquires_perm; [|done]. unfold mapping_refs. by rewrite reverse_Permutation.
    - by apply Forall_reverse.
    - exists []. by rewrite app_nil_r. }
  apply Forall_cons in Hok as [[Hs Hg] Hok]. cbn [process_bufs_loop]. cbv zeta.
  assert (Hput : put_mappings (um_mapping <$> used) (acquires (mapping_refs (um_mapping <$> used)) base) = Some base).
  { apply put_mappings_shared, Forall_fmap. eapply Forall_impl; [by apply (from_context_live context s mappings_live)|].
    intros um H. by apply Hb. }
  case_if.
  { rewrite Hput. eexists. split; [done|]. split; [done|by right]. }
  unfold tegra_drm_mapping_get. destruct (ctx_mappings context !! buf_mapping buf) as [m|] eqn:Em; cbn [mbind option_bind].
  2: { rewrite Hput. eexists. split; [done|]. split; [done|by right]. }
  destruct (write_reloc_ok bo buf m Hl Hs Hg) as (err & bo' & E & Hlike & He). rewrite E. cbn [mbind option_bind].
  destruct He as [[-> Hpatch]| ->]; cbn [Z.eqb negb EINVAL Z.opp].
  - destruct Hlike as (L1 & L2 & L3).
    destruct (IH (UsedMapping m (buf_flags buf) :: used) bo' Hb Hok) as ([[[err2 used2] bo2] s2] & E2 & (M1 & M2 & M3) & H2).
    { constructor; [by exists (buf_mapping buf)|done]. } { congruence. }
    eexists. split; [exact E2|]. split; [split; [congruence|]; split; [congruence|]; intros H; by apply M3, L3|].
    destruct H2 as [(-> & -> & H3 & new & -> & Hn)|H2]; [left|by right]. split_and!; [done|done|done|].
    exists (UsedMapping m (buf_flags buf) :: new). split; [by rewrite reverse_cons, <- app_assoc|].
    cbn [zip zip_with foldl]. rewrite <- Hpatch. exact Hn.
  - rewrite mapping_put_shared.
    + cbn [mbind option_bind]. rewrite Hput. eexists. split; [done|]. split; [done|by right].
    + apply elem_acquires. right. by apply Hb, (mappings_live (buf_mapping buf)).
Qed.

Lemma process_bufs_ok ts so bo : Z.of_nat (length (gather_data bo)) = bo_words bo ->
  exists r, submit_process_bufs env context args bo (st_data ts so) = Some r /\
    match r with
    | (err, used, bo', s') => bo_like bo bo' /\
        (err = 0 /\ s' = st_used (SubmitData (Some used) ts) so /\ from_context used /\
           (exists g, user_bufs env = Some g /\
              gather_data bo' = foldl patch_reloc (gather_data bo) (zip (g <$> seqZ 0 (num_bufs args)) used)) \/
         (err <? 0) = true /\ s' = st_data ts so)
    end.
Proof.
  intros Hl. unfold submit_process_bufs. destruct args_typed as (Hn & _ & _).
  destruct (alloc_copy_ok BufsMem (kvmalloc_bufs env) (user_bufs env) (num_bufs args) 24 (st_data ts so) Hn ltac:(lia))
    as ([[err|bufs] s1] & -> & H); cbn [mbind option_bind].
  { destruct H as [He ->]. eexists. split; [done|]. split; [done|by right]. }
  destruct H as (-> & _ & _ & f & Ef & ->). destruct (kcalloc_mappings env); cbn [negb].
  2: { rewrite release_hit. eexists. split; [done|]. split; [done|by right]. }
  destruct (process_loop_ok (acquire UsedMappings (acquire BufsMem (st_data ts so))) (f <$> seqZ 0 (num_bufs args)) [] bo)
    as ([[[err used] bo'] s'] & E & Hlike & H); [| |constructor|done|].
  { intros x Hx. unfold st_data. rewrite !elem_acquire, elem_acquire_if, elem_acquire, below_bo, below_lock. tauto. }
  { apply Forall_fmap, Forall_true. intros i. by apply (shifts_ok f i). }
  cbn [fmap list_fmap mapping_refs acquires foldr] in E. rewrite E. cbn [mbind option_bind].
  destruct H as [(-> & -> & Hu & new & -> & Hnew)|[-> ->]]; cbn [Z.eqb EINVAL Z.opp mbind option_bind].
  - ledger_step. eexists. split; [done|]. split; [done|]. left. split_and!; [done|done|done|by exists f].
  - change (- EINVAL =? 0) with false. ledger_step. eexists. split; [done|]. split; [done|by right].
Qed.

(** ** From the pinned job to the end *)

(** The commands of a job that the hardware gets: the gathers of one buffer, checked in
    the order of the commands, at an address where the buffer is pinned. *)
Definition checked_job (d : submit_data) (job : drm_job) : Prop :=
  exists cs c' a j,
    checked (ctx_client context) (used_of d) (submitted_words env args (used_of d)) (client_class (ctx_client context)) cs c' /\
    Forall cmd_typed cs /\ pin_addr env j a /\ Forall2 (placed_cmd a) cs (cmds (hjob job)) /\
    job_class job = client_class (ctx_client context) /\
    exists sp, job_syncpt job = Some sp /\ sp ∈ syncpoints.

Definition gives_back (so : bool) (r : option (outcome * ledger)) : Prop :=
  exists out s', r = Some (out, s') /\
    match out_job out with
    | None => s' = s \/ pinning_leaks env s s'
    | Some job => out_err out = 0 /\ job_complete env job s' = Some (acquire_if so PostFence s) /\
        exists d, job_release job = Some d /\ from_context (used_of d) /\ checked_job d job /\
          exists r, s' = acquires (used_res d) r /\ s ⊆ r
    end.

Lemma gives_back_err so err : gives_back so (Some (Outcome err None, s)).
Proof. eexists _, _. split; [done|by left]. Qed.

Lemma live_above d (r : ledger) : data_ok d -> (forall x, x ∈ s -> x ∈ r) ->
  Forall (fun um => MappingRef (mapping_id (um_mapping um)) ∈ r) (used_of d).
Proof.
  intros Hd Hr. eapply Forall_impl; [apply (from_context_live context s mappings_live), Hd|]. intros um H. by apply Hr.
Qed.

Lemma in_st_bo so x : x ∈ s -> x ∈ acquire CmdsMem (st_bo so).
Proof. rewrite elem_acquire, below_bo, below_lock. tauto. Qed.
Lemma job_not_in_bo so : JobRef ∉ acquire CmdsMem (st_bo so).
Proof. rewrite elem_acquire, below_bo, below_lock. naive_solver. Qed.

Lemma unpin_shared job r : pinned_shape env (hjob job) -> BoRef ∈ r ->
  exists h, drm_job_unpin env job (acquires (pin_res env (hjob job)) r) = Some (with_hjob job h, r).
Proof.
  intros Hp Hr. destruct (drm_job_unpin_ok env sg_nonempty job r Hp) as (h & ->). exists h. by rewrite decide_True.
Qed.

Lemma free_cmds_none so out : free_cmds None so out (acquire CmdsMem (st_bo so)) = Some (out, s).
Proof. unfold free_cmds, free_job_data. ledger_step. apply put_bo_ok. Qed.

(** What a job in flight holds. *)
Definition flight (job : drm_job) (d : submit_data) (so : bool) : ledger :=
  acquires (pin_res env (hjob job))
    (job_owns env job d (acquire GatherData (acquire BoMem (acquire_if so PostFence s)))).

(** Among it, references of its own to the mappings. *)
Lemma flight_used job d so : exists r, flight job d so = acquires (used_res d) r /\ s ⊆ r.
Proof.
  exists (acquires (pin_res env (hjob job)) (acquires (sps_of job) (acquire JobRef (acquire JobMem
    (acquire_if (job_fence job) JobFence (acquire_if (pm_enabled env) PowerRef (acquires (memctx_res job)
      (acquire UsedMappings (acquire_if (has_ts d) Timestamps (acquire JobData
        (acquire GatherData (acquire BoMem (acquire_if so PostFence s))))))))))))). split.
  - unfold flight, job_owns. ledger_eq.
  - rewrite ?acquires_union, ?acquire_if_union. unfold acquire. rewrite ?acquires_union, ?acquire_if_union. multiset_solver.
Qed.

Lemma complete_ok job d so : data_ok d -> pinned_shape env (hjob job) -> job_release job = Some d ->
  job_complete env job (flight job d so) = Some (acquire_if so PostFence s).
Proof.
  intros Hd Hp Hr. unfold job_complete, flight.
  set (r := job_owns env job d _). destruct (drm_job_unpin_ok env sg_nonempty job r Hp) as (h & ->).
  assert (Hn : BoRef ∉ r).
  { unfold r, job_owns. by ledger_out. }
  rewrite decide_False by done. unfold gather_bo_release, r, job_owns. ledger_step.
  fold (job_owns env (with_hjob job h) d (acquire_if so PostFence s)).
  apply (put_released_job env d (acquire_if so PostFence s)).
  - apply live_above; [done|]. intros x Hx. rewrite elem_acquire_if. auto.
  - apply Hd.
  - apply Hd.
  - rewrite elem_acquire_if. naive_solver.
  - done.
Qed.

Lemma to_hw_ok job d so : (so = true -> syncobj_out args <> 0) -> data_ok d -> checked_job d job -> pinned_shape env (hjob job) -> job_release job = Some d -> job_fence job = false ->
  gives_back so (submit_to_hw env job so
    (acquires (pin_res env (hjob job)) (job_owns env job d (acquire CmdsMem (st_bo so))))).
Proof.
  intros Hso Hd Hck Hp Hr Hf. unfold submit_to_hw. case_if.
  { unfold unpin_job. destruct (unpin_shared job (job_owns env job d (acquire CmdsMem (st_bo so))) Hp) as (h & ->).
    { unfold job_owns. ledger_elem. rewrite below_bo. auto 20. }
    cbn [mbind option_bind]. unfold put_job.
    change (job_owns env job d) with (job_owns env (with_hjob job h) d).
    rewrite (put_released_job env d (acquire CmdsMem (st_bo so)));
      [|by apply live_above; [|apply in_st_bo]|apply Hd|apply Hd|apply job_not_in_bo|done].
    cbn [mbind option_bind]. rewrite free_cmds_none. apply gives_back_err. }
  set (job' := with_fence job (submit_fence env)).
  set (x := acquire JobRef _).
  assert (Ex : (if so then if postfence env <? 0 then None else Some (acquire PostFence x) else Some x) =
    Some (acquire JobRef (acquire CmdsMem (acquire BoRef (acquire_if so SyncobjRef (acquire FprivLock (flight job' d so))))))).
  { assert (Epf : forall y : ledger, (if so then if postfence env <? 0 then None else Some (acquire PostFence y) else Some y) =
      if so then Some (acquire PostFence y) else Some y).
    { intros y. destruct so; [|done]. by rewrite (proj2 (Z.ltb_ge _ _)) by auto. }
    rewrite Epf. clear Epf. subst x. unfold flight, job_owns, st_bo, st_lock. rewrite Hf.
    cbn [job' with_fence sps_of memctx_res hjob job_fence job_memory_context].
    change (sps_of job') with (sps_of job). change (memctx_res job') with (memctx_res job).
    change (acquire_if false JobFence ?y) with y. fold (acquire_if (submit_fence env) JobFence).
    change (if submit_fence env then acquire JobFence ?y else ?y) with (acquire_if (submit_fence env) JobFence y).
    destruct so; f_equal; [change (acquire_if true ?r ?y) with (acquire r y)|change (acquire_if false ?r ?y) with y]; ledger_eq. }
  rewrite Ex. cbn [mbind option_bind]. unfold put_job, host1x_job_put. rewrite release_hit. cbn [mbind option_bind].
  rewrite decide_True by (unfold flight, job_owns; ledger_in). cbn [mbind option_bind].
  unfold free_cmds, free_job_data. rewrite release_hit. cbn [mbind option_bind]. unfold put_bo.
  rewrite put_shared.
  - cbn [mbind option_bind]. unfold unlock. ledger_step. eexists _, _. split; [done|]. cbn. split; [done|].
    split; [by apply complete_ok|]. exists d. split; [done|]. split; [apply Hd|]. split; [done|].
    by apply flight_used.
  - unfold flight. ledger_elem. right. right. left. by apply bo_ref_pinned.
Qed.

(** ** Before the release callback is set *)

(** The job as submit_create_job made it, and pinned. *)
Record plain (d : submit_data) (job : drm_job) : Prop := {
  pl_checked : checked_job d job;
  pl_pinned : pinned_shape env (hjob job);
  pl_release : job_release job = None;
  pl_fence : job_fence job = false
}.
Definition st_job (job : drm_job) (d : submit_data) (so : bool) : ledger :=
  acquires (pin_res env (hjob job)) (acquires (sps_of job) (acquire JobRef (acquire JobMem (st_cmds d so)))).

Lemma put_plain_ok job d so out : data_ok d -> job_release job = None -> job_fence job = false ->
  put_job env job (Some d) so out (acquires (sps_of job) (acquire JobRef (acquire JobMem (st_cmds d so)))) = Some (out, s).
Proof. intros Hd Hr Hf. by rewrite (put_plain_left env context s job_fresh mappings_live), left_fresh. Qed.

Lemma unpin_plain_ok job d so err : data_ok d -> plain d job ->
  gives_back so (unpin_job env job (Some d) so err (st_job job d so)).
Proof.
  intros Hd [_ Hp Hr Hf]. unfold unpin_job, st_job.
  destruct (unpin_shared job (acquires (sps_of job) (acquire JobRef (acquire JobMem (st_cmds d so)))) Hp) as (h & ->).
  { unfold st_cmds, st_used, st_data. ledger_elem. rewrite below_bo. auto 20. }
  cbn [mbind option_bind]. change (sps_of job) with (sps_of (with_hjob job h)).
  rewrite put_plain_ok by done. apply gives_back_err.
Qed.

Lemma power_ok job d so : (so = true -> syncobj_out args <> 0) -> data_ok d -> plain d job ->
  gives_back so (submit_power env job d so (acquires (memctx_res job) (st_job job d so))).
Proof.
  intros Hso Hd Hj. pose proof Hj as [Hck Hp Hr Hf]. unfold submit_power.
  assert (E : forall b, b = pm_enabled env ->
    acquire_if b PowerRef (acquires (memctx_res job) (st_job job d so)) =
    acquires (pin_res env (hjob (with_release job d))) (job_owns env (with_release job d) d (acquire CmdsMem (st_bo so)))).
  { intros b ->. unfold st_job, job_owns, st_cmds, st_used, st_data. cbn [with_release hjob job_fence]. rewrite Hf.
    change (sps_of (with_release job d)) with (sps_of job). change (memctx_res (with_release job d)) with (memctx_res job).
    change (acquire_if false JobFence ?y) with y. fold (has_ts d). ledger_eq. }
  destruct (pm_enabled env) eqn:Epm; [case_if|].
  - unfold put_memory_context. rewrite put_memctx_hit. cbn [mbind option_bind]. by apply unpin_plain_ok.
  - specialize (E true eq_refl). change (acquire_if true PowerRef ?y) with (acquire PowerRef y) in E.
    rewrite E. by apply to_hw_ok.
  - specialize (E false eq_refl). change (acquire_if false PowerRef ?y) with y in E.
    rewrite E. by apply to_hw_ok.
Qed.

Lemma memctx_ok job d so : (so = true -> syncobj_out args <> 0) -> data_ok d -> plain d job -> job_memory_context job = None ->
  gives_back so (submit_memctx env context job d so (st_job job d so)).
Proof.
  intros Hso Hd Hj Hm. unfold submit_memctx.
  assert (Hplain : forall job', plain d job' -> job_memory_context job' = None -> st_job job' d so = st_job job d so ->
    gives_back so (submit_power env job' d so (st_job job d so))).
  { intros job' Hj' Hm' <-. pose proof (power_ok job' d so Hso Hd Hj') as H. unfold memctx_res in H. by rewrite Hm' in H. }
  assert (Hfall : gives_back so
    match get_streamid_offset env with
    | Some _ => submit_power env (with_memctx job (job_memory_context job) (fallback_streamid env)) d so (st_job job d so)
    | None => submit_power env job d so (st_job job d so)
    end).
  { destruct (get_streamid_offset env); [|by apply Hplain]. apply Hplain; [by destruct Hj|done|done]. }
  destruct (ctx_memory_context context) as [c|]; [|exact Hfall].
  destruct (can_use_memory_ctx env) as [[err supported]|]; [|exact Hfall].
  case_if; [by apply unpin_plain_ok|]. destruct supported; [|by apply Hplain].
  pose proof (power_ok (with_memctx job (Some c) (job_fallback_streamid job)) d so Hso Hd) as H. apply H. by destruct Hj.
Qed.

Lemma streamid_ok job d so : (so = true -> syncobj_out args <> 0) -> data_ok d -> plain d job -> job_memory_context job = None ->
  gives_back so (submit_streamid env context job d so (st_job job d so)).
Proof.
  intros Hso Hd Hj Hm. unfold submit_streamid. destruct (get_streamid_offset env) as [[err off]|]; [|by apply memctx_ok].
  cbv zeta. assert (Hj' : plain d (with_streamid job off)) by (by destruct Hj).
  case_if; [by apply (unpin_plain_ok (with_streamid job off))|by apply (memctx_ok (with_streamid job off))].
Qed.

(** Pinning failed: the gather buffer stays. *)
Lemma leaks_back job h d so err leak : data_ok d -> job_release job = None -> job_fence job = false ->
  leak ∈ pin_leaks -> (exists i, pin_fails_at env i) ->
  gives_back so (put_job env (with_hjob job h) (Some d) so (Outcome err None)
    (acquires leak (acquires (sps_of job) (acquire JobRef (acquire JobMem (st_cmds d so)))))).
Proof.
  intros Hd Hr Hf Hleak Hfail.
  assert (Href : BoRef ∈ acquires leak s) by (apply elem_acquires; left; by apply pin_leaks_ref).
  replace (acquires leak _) with (acquires (sps_of (with_hjob job h)) (acquire JobRef (acquire JobMem
    (DrmSubmitFacts.st_cmds (acquires leak s) d so)))).
  2: { change (sps_of (with_hjob job h)) with (sps_of job).
       unfold DrmSubmitFacts.st_cmds, DrmSubmitFacts.st_used, DrmSubmitFacts.st_data, DrmSubmitFacts.st_bo, DrmSubmitFacts.st_lock.
       ledger_eq. }
  rewrite (put_plain_left env context (acquires leak s)); [|..|done|done|done].
  - eexists _, _. split; [done|]. right. exists leak. split; [done|]. split; [done|].
    unfold bo_left. rewrite decide_True by done. rewrite <- acquires_app. by apply acquires_perm; [apply Permutation_app_comm|].
  - rewrite elem_acquires. intros [H|H]; [|done]. revert H. by apply pin_leaks_no_job.
  - intros i m Hm. apply elem_acquires. right. by apply (mappings_live i).
Qed.

Lemma build_ok bo d so : (so = true -> syncobj_out args <> 0) -> data_ok d -> gather_data bo = submitted_words env args (used_of d) -> Z.of_nat (length (gather_data bo)) = bo_words bo -> bo_words bo < 2 ^ 32 ->
  Forall is_u32 (gather_data bo) -> gives_back so (submit_build env context args syncpoints bo d so (st_used d so)).
Proof.
  intros Hso Hd Hbo Hl Hw Ht. unfold submit_build. destruct args_typed as (_ & Hn & _).
  destruct (do_set _ _ _ Hd) as [used Hu]. assert (Hc : from_context used).
  { pose proof (do_context _ _ _ Hd) as H. unfold used_of in H. by rewrite Hu in H. }
  destruct (alloc_copy_ok CmdsMem (kvmalloc_cmds env) (user_cmds env) (num_cmds args) 24 (st_used d so) Hn ltac:(lia))
    as ([[err|cmds] s1] & -> & H); cbn [mbind option_bind].
  { destruct H as [_ ->]. rewrite (free_used_ok d used) by done. apply gives_back_err. }
  destruct H as (-> & Hcount & Hlen & f & Ef & ->).
  destruct (create_job_ok env context args syncpoints bo d Hl Hw Ht class_typed (f <$> seqZ 0 (num_cmds args))
    (acquire CmdsMem (st_used d so))) as ([[err|job] s2] & -> & H).
  { apply (job_new s job_fresh d so). } { rewrite Hlen. lia. } { lia. }
  { apply Forall_fmap, Forall_true. intros i. by apply (cmds_typed f i). }
  - destruct H as [_ ->]. cbn [mbind option_bind]. unfold free_cmds. rewrite release_hit. cbn [mbind option_bind].
    rewrite (free_used_ok d used) by done. apply gives_back_err.
  - destruct H as [-> Hcr]. cbn [mbind option_bind]. fold (st_cmds d so).
    set (base := acquire JobRef (acquire JobMem (st_cmds d so))).
    destruct (work_or_fail env (cmds (hjob job)) 0) as [Hwork|Hfail].
    + destruct (drm_job_pin_ok env sg_nonempty job (acquires (sps_of job) base) (cr_shape _ _ _ _ _ _ Hcr)
        (cr_some _ _ _ _ _ _ Hcr) Hwork) as (h & a & j & -> & Hp & Ha & Hpl).
      cbn [mbind option_bind Z.eqb negb].
      apply (streamid_ok (with_hjob job h)); [done|done| |apply Hcr]. split; [|done|apply Hcr|apply Hcr].
      destruct (cr_checked _ _ _ _ _ _ Hcr) as (c' & Hck).
      rewrite Hbo in Hck. exists (cmds (hjob job)), c', a, j. split_and!; try done; apply Hcr.
    + destruct (drm_job_pin_fail env sg_nonempty job (acquires (sps_of job) base) (cr_shape _ _ _ _ _ _ Hcr) Hfail)
        as (err & h & leak & -> & He & Hleak).
      cbn [mbind option_bind]. rewrite (proj2 (Z.eqb_neq err 0) He). cbn [negb].
      apply leaks_back; [done|apply Hcr..|done|]. by destruct Hfail as (k & g & _ & Hk); exists k.
Qed.

Lemma with_bo_ok bo so : (so = true -> syncobj_out args <> 0) ->
  (exists f, user_gather env = Some f /\ gather_data bo = (fun i => u32 (f i)) <$> seqZ 0 (gather_data_words args)) -> Z.of_nat (length (gather_data bo)) = bo_words bo -> bo_words bo < 2 ^ 32 ->
  Forall is_u32 (gather_data bo) -> gives_back so (submit_with_bo env context args syncpoints bo so (st_bo so)).
Proof.
  intros Hso (f & Ef & Hbo) Hl Hw Ht. unfold submit_with_bo. case_if; [rewrite put_bo_ok; apply gives_back_err|].
  assert (Hdata : forall ts, (is_Some ts -> CONFIG_TRACING env = true) ->
    gives_back so ('(err, used, bo, s) ← submit_process_bufs env context args bo (st_data ts so);
      if negb (err =? 0) then free_job_data (Some (SubmitData None ts)) so (Outcome err None) s
      else submit_build env context args syncpoints bo (SubmitData (Some used) ts) so s)).
  { intros ts Hts. destruct (process_bufs_ok ts so bo Hl) as ([[[err used] bo'] s'] & -> & (L1 & L2 & L3) & H).
    cbn [mbind option_bind]. destruct H as [(-> & -> & Hu & g & Eg & Hg)|[He ->]].
    - cbn [Z.eqb negb]. apply build_ok; [done| | |congruence|congruence|auto].
      2: { unfold submitted_words. rewrite Ef, Eg. cbn [used_of data_used default]. by rewrite Hg, Hbo. } split; [done|done|].
      unfold has_ts. cbn. intros H%bool_decide_eq_true. auto.
    - destruct (Z.eqb_spec err 0); [subst; done|]. cbn [negb]. rewrite free_data_ok. apply gives_back_err. }
  change (acquire JobData (st_bo so)) with (st_data None so).
  destruct (CONFIG_TRACING env) eqn:Etr; [|cbn [Z.eqb negb]; apply Hdata; by intros [? ?]].
  unfold submit_init_profiling. destruct (has_job_timestamping env) as [[err has]|]; [|apply Hdata; by intros [? ?]].
  destruct (err =? 0) eqn:Ee; cbn [negb]; [|rewrite Ee; cbn [negb]; rewrite free_data_ok; apply gives_back_err].
  destruct has; cbn [negb]; [|apply Hdata; by intros [? ?]].
  destruct (dma_alloc_timestamps env) as [a|]; [|cbn [Z.eqb negb]; rewrite free_data_ok; apply gives_back_err].
  by apply (Hdata (Some a)).
Qed.

Lemma syncobj_ok : gives_back (negb (syncobj_out args =? 0))
    (submit_with_syncobj env context args syncpoints (acquire FprivLock s)).
Proof.
  assert (Hgo : forall so : bool, (so = true -> syncobj_out args <> 0) -> gives_back so ('(r, s) ← submit_copy_gather_data env args (st_lock so);
    match r with
    | inl err => unlock so (Outcome err None) s
    | inr bo => submit_with_bo env context args syncpoints bo so s
    end)).
  { intros so Hso. destruct (copy_gather_ok so) as ([[err|bo] s1] & -> & H); cbn [mbind option_bind].
    - subst s1. rewrite unlock_ok. apply gives_back_err.
    - destruct H as (-> & _ & Hl & Hw & Ht & Hf). by apply with_bo_ok. }
  unfold submit_with_syncobj. destruct (Z.eqb_spec (syncobj_out args) 0); cbn [negb]; [by apply (Hgo false)|].
  destruct (find_syncobj env); [by apply (Hgo true)|].
  change (acquire FprivLock s) with (st_lock false). rewrite unlock_ok. apply gives_back_err.
Qed.

Lemma locked_ok : gives_back (negb (syncobj_out args =? 0))
    (submit_locked env context args syncpoints (acquire FprivLock s)).
Proof.
  unfold submit_locked. change (acquire FprivLock s) with (st_lock false).
  case_if; [rewrite unlock_ok; apply gives_back_err|].
  case_if; [|apply syncobj_ok]. case_if; [rewrite unlock_ok; apply gives_back_err|].
  rewrite release_hit. cbn [mbind option_bind]. case_if; [rewrite unlock_ok; apply gives_back_err|].
  apply syncobj_ok.
Qed.
End balance.


(** What is assumed of the answers of the kernel and of the types of the arguments. *)
Record submit_ok (env : submit_env) (contexts : gmap Z tegra_drm_context) (args : drm_tegra_channel_submit)
    (s : ledger) : Prop := {
  (* the scatter list of the gather buffer is not empty, and creating the fence of the result
     does not fail *)
  so_nonempty : host_domain env = true -> forall i, sg_size env (pin_mapping env i) <> 0;
  so_postfence : syncobj_out args <> 0 -> 0 <= postfence env;
  (* members of unsigned type *)
  so_args : 0 <= num_bufs args /\ 0 <= num_cmds args /\ 0 <= gather_data_words args < 2 ^ 32;
  so_cmds : forall f i, user_cmds env = Some f -> ucmd_typed (f i);
  (* shifts that C defines *)
  so_bufs : forall f i, user_bufs env = Some f -> reloc_shift (f i) < 64 /\ 0 <= gather_offset_words (f i);
  (* the channel's mappings are alive; the gather buffer and the job are new objects *)
  so_context : forall c, contexts !! args_context args = Some c ->
    0 <= client_class (ctx_client c) < 2 ^ 10 /\
    forall i m, ctx_mappings c !! i = Some m -> MappingRef (mapping_id m) ∈ s;
  so_bo : BoRef ∉ s;
  so_job : JobRef ∉ s
}.

Lemma submit_outcome env contexts syncpoints args s : submit_ok env contexts args s ->
  exists out s', tegra_drm_ioctl_channel_submit env contexts syncpoints args s = Some (out, s') /\
    match out_job out with
    | None => s' = s \/ pinning_leaks env s s'
    | Some job => out_err out = 0 /\
        job_complete env job s' = Some (if syncobj_out args =? 0 then s else acquire PostFence s) /\
        exists c d, contexts !! args_context args = Some c /\ job_release job = Some d /\
          from_context c (used_of d) /\ checked_job env c args syncpoints d job /\
          exists r, s' = acquires (used_res d) r /\ s ⊆ r
    end.
Proof.
  intros [Hp Hf Ha Hc Hs Hctx Hb Hj]. unfold tegra_drm_ioctl_channel_submit.
  destruct (contexts !! args_context args) as [c|] eqn:E.
  - destruct (Hctx c eq_refl) as [Hcl Hm].
    destruct (locked_ok env c args syncpoints s Hp Hf Ha Hc Hs Hcl Hb Hj Hm) as (out & s' & -> & H).
    exists out, s'. split; [done|]. destruct (out_job out); [|done]. destruct H as (H1 & H2 & jd & H3).
    split; [done|]. split; [by destruct (syncobj_out args =? 0)|]. by exists c, jd.
  - rewrite release_hit. cbn. exists (Outcome (- EINVAL) None), s.
    split; [done|by left].
Qed.

(** C16. What a submission takes it gives back, apart from two leaks that are stated.
    Whatever the arguments and whatever the allocations, the copies from user space, the DMA
    API and the IOVA allocator answer, as long as the mappings of the channel are alive, the
    shifts of the relocations are below 64, and the fence for the syncobj of the result can be
    created, the ioctl never releases what it does not hold, never leaves the arrays of the
    job, and returns: with an error, and then nothing is held that was not held before, unless
    pinning a gather failed: then one or two references to the gather buffer, or its mapping,
    and the buffer itself stay ([pin_leaks]); or with the job in the hands of the hardware, and
    then its completion releases all that is left, except the reference of the fence that was
    made for the syncobj of the result. *)
Theorem submit_balanced env contexts syncpoints args s : submit_ok env contexts args s ->
  exists out s', tegra_drm_ioctl_channel_submit env contexts syncpoints args s = Some (out, s') /\
    match out_job out with
    | None => s' = s \/ pinning_leaks env s s'
    | Some job => out_err out = 0 /\
        job_complete env job s' = Some (if syncobj_out args =? 0 then s else acquire PostFence s)
    end.
Proof.
  intros H. destruct (submit_outcome env contexts syncpoints args s H) as (out & s' & E & Ho).
  exists out, s'. split; [done|]. destruct (out_job out); [|done]. by destruct Ho as (H1 & H2 & _).
Qed.

(** When the fence for the syncobj cannot be created, the error pointer is used as a fence. *)
Lemma postfence_error_faults env job s :
  postfence env < 0 -> submit_result env = 0 -> submit_to_hw env job true s = None.
Proof. intros H1 H2. unfold submit_to_hw. rewrite H2. cbn. by rewrite (proj2 (Z.ltb_lt _ _) H1). Qed.

(** ** A submission to gr2d: two buffers of one mapping, two gathers and a wait *)
Lemma example_ok : submit_ok example_env {[ 4 := example_context ]} example_args example_ledger.
Proof.
  split; try done.
  - by intros f i [= <-]; apply nth_typed.
  - intros f i [= <-]. destruct (Z.to_nat i) as [|[|[|n]]]; cbn; lia.
  - intros c Hc. change (args_context example_args) with 4 in Hc. rewrite lookup_singleton_eq in Hc. injection Hc as <-.
    split; [done|]. intros i m Hm. change (ctx_mappings example_context) with ({[ 1 := example_mapping ]} : gmap Z tegra_drm_mapping) in Hm.
    apply lookup_singleton_Some in Hm as [_ <-]. vm_compute. by left.
  - intros H. vm_compute in H. by inversion H.
  - intros H. vm_compute in H. by inversion H.
Qed.
Definition in_flight (n : nat) (r : option (outcome * ledger)) : Prop :=
  match r with Some (Outcome 0 (Some job), _) => length (cmds (hjob job)) = n | _ => False end.
Lemma in_flight_job n r out s : in_flight n r -> r = Some (out, s) ->
  exists job, out = Outcome 0 (Some job) /\ length (cmds (hjob job)) = n.
Proof.
  intros H ->. destruct out as [[|err|err] [job|]]; cbn in H; [|done..]. by exists job.
Qed.

Lemma example_submits : in_flight 3
  (tegra_drm_ioctl_channel_submit example_env {[ 4 := example_context ]} example_syncpoints example_args example_ledger).
Proof. vm_compute. reflexivity. Qed.

(** The second gather cannot be pinned: the ioctl fails and the gather buffer stays. *)
Lemma failed_pin_keeps_buffer :
  tegra_drm_ioctl_channel_submit (example_env_with (fun i => PinAnswer true (i =? 0)%nat 0 0))
    {[ 4 := example_context ]} example_syncpoints example_args example_ledger =
  Some (Outcome (- ENOMEM) None, acquires [BoRef; BoRef; GatherData; BoMem] example_ledger).
Proof. vm_compute. reflexivity. Qed.

Lemma submit_balanced_witness :
  exists job s', tegra_drm_ioctl_channel_submit example_env {[ 4 := example_context ]} example_syncpoints example_args example_ledger =
      Some (Outcome 0 (Some job), s') /\ length (cmds (hjob job)) = 3%nat /\
    job_complete example_env job s' = Some (acquire PostFence example_ledger).
Proof.
  destruct (submit_balanced example_env {[ 4 := example_context ]} example_syncpoints example_args example_ledger example_ok)
    as (out & s' & E & H).
  destruct (in_flight_job _ _ _ _ example_submits E) as (job & Eo & Hl). exists job, s'. rewrite Eo in E, H.
  split; [exact E|]. split; [exact Hl|exact (proj2 H)].
Defined.
