(* ===== verification/DrmSubmitSafe.v ===== *)
(** What the hardware does with a submitted job: every access that its gathers make is
    permitted, and the driver's own register writes are harmless. *)
From S2P Require Import DrmRefs Prelude Host1xJob Host1xFirewall DrmFirewall DrmSubmit DrmBuild DrmPin DrmSubmitFacts.
From S2P Require Import Host1xSyncFacts Host1xPushbuf Host1xSyncpt Host1xCdma Host1xCdmaInv Host1xCdmaFacts Host1xProgram.

(** * Execution of a command stream *)

(** A write to a register that the driver itself asks for. *)
Record driver_write := DriverWrite { dw_class : Z; dw_reg : Z; dw_value : Z }.

Section machine.
(** The words in memory, by address. *)
Variable mem : Z -> Z.
Definition mem_words (addr n : Z) : list Z := (fun i => mem (addr + 4 * i)) <$> seqZ 0 n.

(** [hw_run c evs l ws c']: from class [c] the events [evs], whose gathers make the accesses
    [l], while the driver writes [ws]; the class is [c'] then.  A gather starts with any
    payload. *)
Inductive hw_run : Z -> list hw_event -> list access -> list driver_write -> Z -> Prop :=
  | hr_end c : hw_run c [] [] [] c
  | hr_class c c1 evs l ws c' : hw_run c1 evs l ws c' -> hw_run c (UseClass c1 :: evs) l ws c'
  | hr_write c r v evs l ws c' : hw_run c evs l ws c' -> hw_run c (RegWrite r v :: evs) l (DriverWrite c r v :: ws) c'
  | hr_gather c n a p l1 c1 evs l ws c' : gather_run c p (mem_words a n) l1 c1 -> hw_run c1 evs l ws c' ->
      hw_run c (Gather n a :: evs) (l1 ++ l) ws c'
  | hr_payload c n evs l ws c' : hw_run c evs l ws c' -> hw_run c (SetPayload n :: evs) l ws c'
  | hr_stream c n evs l ws c' : hw_run c evs l ws c' -> hw_run c (SetStreamid n :: evs) l ws c'
  | hr_acquire c n evs l ws c' : hw_run c evs l ws c' -> hw_run c (AcquireMlock n :: evs) l ws c'
  | hr_release c n evs l ws c' : hw_run c evs l ws c' -> hw_run c (ReleaseMlock n :: evs) l ws c'.

Lemma hw_run_app c e1 l1 w1 c1 e2 l2 w2 c2 :
  hw_run c e1 l1 w1 c1 -> hw_run c1 e2 l2 w2 c2 -> hw_run c (e1 ++ e2) (l1 ++ l2) (w1 ++ w2) c2.
Proof.
  intros H H2. induction H; simpl; [done|try rewrite <- app_assoc; econstructor; eauto..].
Qed.
Lemma hw_run_app_inv c e1 e2 l w c2 : hw_run c (e1 ++ e2) l w c2 ->
  exists l1 w1 c1 l2 w2, hw_run c e1 l1 w1 c1 /\ hw_run c1 e2 l2 w2 c2 /\ l = l1 ++ l2 /\ w = w1 ++ w2.
Proof.
  revert c l w. induction e1 as [|e e1 IH]; intros c l w H; [exists [], [], c, l, w; by repeat constructor|].
  simpl in H. inversion H; subst;
    match goal with Hr : hw_run _ (e1 ++ e2) _ _ _ |- _ => apply IH in Hr as (l1' & w1' & c1' & l2' & w2' & H1 & H2 & -> & ->) end;
    eexists _, _, c1', l2', w2'; (split; [econstructor; eauto|]); (split; [done|]); by rewrite <- ?app_assoc.
Qed.
End machine.

(** * Safety *)
Section safe.
Variables (client : tegra_drm_client) (used : list tegra_drm_used_mapping) (data : list Z) (mem : Z -> Z).

(** What the driver writes on its own: registers of host1x (waits), the increment of a
    syncpoint, which is register 0 of every class, and the two registers of the engine that
    make it write time stamps. *)
Definition harmless (w : driver_write) : Prop :=
  dw_class w = HOST1X_CLASS_HOST1X \/ dw_reg w = HOST1X_UCLASS_INCR_SYNCPT \/
  dw_class w = client_class client /\ (dw_reg w = 0x10 \/ dw_reg w = 0x11).

(** From class [c] the events can be executed to their end; however that is done, every
    access is permitted, and the class is [c'] then. *)
Definition safe (c : Z) (evs : list hw_event) (c' : Z) : Prop :=
  (exists l ws, hw_run mem c evs l ws c') /\
  forall l ws c2, hw_run mem c evs l ws c2 ->
    c2 = c' /\ Forall (permitted client used) l /\ Forall harmless ws.

Lemma safe_nil c : safe c [] c.
Proof. split; [exists [], []; constructor|]. intros l ws c2 H. inversion H; subst. by split_and!. Qed.
Lemma safe_app c e1 c1 e2 c2 : safe c e1 c1 -> safe c1 e2 c2 -> safe c (e1 ++ e2) c2.
Proof.
  intros [(l1 & w1 & H1) S1] [(l2 & w2 & H2) S2]. split; [eexists _, _; by eapply hw_run_app|].
  intros l w c' (l1' & w1' & c1' & l2' & w2' & R1 & R2 & -> & ->)%hw_run_app_inv.
  destruct (S1 _ _ _ R1) as (-> & Hl1 & Hw1). destruct (S2 _ _ _ R2) as (-> & Hl2 & Hw2).
  split; [done|]. by rewrite !Forall_app.
Qed.

Ltac one_event :=
  split; [eexists _, _; econstructor; constructor|];
  let H := fresh in intros ? ? ? H; inversion H; subst;
  match goal with R : hw_run _ _ [] _ _ _ |- _ => inversion R; subst end; by split_and!; [| |repeat constructor].
Lemma safe_class c c1 : safe c [UseClass c1] c1.
Proof. one_event. Qed.
Lemma safe_write c r v : harmless (DriverWrite c r v) -> safe c [RegWrite r v] c.
Proof.
  intros Hh. split; [eexists _, _; econstructor; constructor|]. intros l ws c2 H. inversion H; subst.
  match goal with R : hw_run _ _ [] _ _ _ |- _ => inversion R; subst end.
  split; [done|]. split; [done|]. constructor; [exact Hh|constructor].
Qed.
Lemma safe_payload c n : safe c [SetPayload n] c.
Proof. one_event. Qed.
Lemma safe_stream c n : safe c [SetStreamid n] c.
Proof. one_event. Qed.
Lemma safe_acquire c n : safe c [AcquireMlock n] c.
Proof. one_event. Qed.
Lemma safe_release c n : safe c [ReleaseMlock n] c.
Proof. one_event. Qed.

(** A gather that the firewall has accepted, whatever the payload is when it starts. *)
Lemma safe_gather c n a l c1 : gather_run c None (mem_words mem a n) l c1 -> Forall (permitted client used) l ->
  safe c [Gather n a] c1.
Proof.
  intros Hr Hp. split.
  - exists (l ++ []), []. eapply (hr_gather mem c n a None); [exact Hr|constructor].
  - intros l' ws c2 H. inversion H as [| | |? ? ? p l1 c1' ? ? ? ? Hr' Hn| | | |]; subst. inversion Hn; subst.
    destruct (gather_run_det _ _ _ _ _ _ _ (gather_run_payload _ _ _ _ Hr p) Hr') as [-> ->].
    rewrite app_nil_r. by split_and!.
Qed.

(** ** The job *)
Variables (HOST1X_HW : Z) (job : submit_job) (a : Z).
Hypothesis is_job : sj_class job = client_class client.
Hypothesis engine_class : client_class client <> 0.

(** The gather data is in memory at [a], where the hardware can get it. *)
Definition in_memory : Prop :=
  0 <= a /\ a + 4 * Z.of_nat (length data) < (if 6 <=? HOST1X_HW then 2 ^ 64 else 2 ^ 32) /\
  mem_words mem a (Z.of_nat (length data)) = data.
Hypothesis mem_data : in_memory.

Lemma safe_wait c i t : safe c (wait_events HOST1X_HW i t) HOST1X_CLASS_HOST1X.
Proof.
  unfold wait_events. apply (safe_app _ [_] HOST1X_CLASS_HOST1X); [apply safe_class|].
  assert (H : forall r v, safe HOST1X_CLASS_HOST1X [RegWrite r v] HOST1X_CLASS_HOST1X) by (intros; apply safe_write; by left).
  destruct (2 <=? HOST1X_HW); [|apply H]. by apply (safe_app _ [_] HOST1X_CLASS_HOST1X).
Qed.
Lemma safe_classes c c1 : safe c (class_events HOST1X_HW job c1) c1.
Proof.
  unfold class_events. apply (safe_app _ [_] c1); [apply safe_class|].
  destruct (6 <=? HOST1X_HW); [|apply safe_nil].
  apply (safe_app _ [_] c1); [apply safe_payload|apply safe_stream].
Qed.
Lemma safe_idle c i fence : safe c (idle_events HOST1X_HW i fence) HOST1X_CLASS_HOST1X.
Proof.
  unfold idle_events. apply (safe_app _ [_] c); [|apply safe_wait]. apply safe_write. right. by left.
Qed.

Lemma mem_words_part off n : 0 <= off -> 0 <= n -> off + n <= Z.of_nat (length data) ->
  mem_words mem (a + 4 * off) n = take (Z.to_nat n) (drop (Z.to_nat off) data).
Proof.
  intros Ho Hn Hb. destruct mem_data as (_ & _ & Hm). rewrite <- Hm. unfold mem_words.
  rewrite <- fmap_drop, <- fmap_take. apply list_eq. intros i. rewrite !list_lookup_fmap.
  destruct (decide (i < Z.to_nat n)%nat) as [Hi|Hi].
  - rewrite lookup_take_lt, lookup_drop by done. rewrite !lookup_seqZ_lt by lia. cbn. do 2 f_equal. lia.
  - rewrite lookup_take_ge by lia. by rewrite lookup_seqZ_ge by lia.
Qed.

Lemma safe_cmds cs : forall c cs' c', checked client used data c cs c' -> Forall2 (placed_cmd a) cs cs' ->
  Forall cmd_typed cs -> forall base, safe c (cs' ≫= cmd_events HOST1X_HW job base) c'.
Proof.
  induction cs as [|cmd cs IH]; intros c cs' c' Hck Hpl Hty sb.
  { inversion Hck; subst. inversion Hpl; subst. apply safe_nil. }
  inversion Hpl as [|? cmd' ? cs1 Hp1 Hpl']; subst. apply Forall_cons in Hty as [Ht Hty].
  cbn [mbind list_bind]. destruct mem_data as (Ha & Hsz & _).
  inversion Hck as [|? g l c1 ? ? Hin Hrun Hper Hck'|? i t rel ? ? Hck'|reg v ? ? Hck']; subst; inversion Hp1; subst.
  - eapply safe_app; [|by apply IH]. cbn [cmd_events]. cbv zeta. destruct Hin as (Hw & Ho & Hm4 & Hb).
    match goal with H : words _ = words g, H' : offset _ = offset g |- _ => rewrite H, H' end.
    assert (Eo : base g' + offset g = base g' + 4 * (offset g / 4)) by (Z.div_mod_to_equations; lia).
    assert (Hlo : 4 * (offset g / 4) + 4 * words g <= 4 * Z.of_nat (length data)) by lia.
    assert (H64 : base g' + offset g < 2 ^ 64) by (destruct (6 <=? HOST1X_HW); lia).
    rewrite u64_id by (unfold is_u64; Z.div_mod_to_equations; lia).
    assert (Hsent : (6 <=? HOST1X_HW) || (base g' + offset g <? 2 ^ 32) = true).
    { destruct (6 <=? HOST1X_HW); [done|]. apply Z.ltb_lt. lia. }
    rewrite Hsent, Eo. apply (safe_gather _ _ _ l); [|done].
    match goal with H : base _ = a |- _ => rewrite H end.
    rewrite mem_words_part; [exact Hrun|Z.div_mod_to_equations; lia|done|done].
  - cbn [cmd_events]. eapply safe_app; [|by apply IH]. eapply safe_app; [apply safe_wait|apply safe_classes].
  - cbn [cmd_events]. eapply safe_app; [|by apply IH]. apply safe_write. right. right. split; [done|].
    destruct Ht as [[-> | ->] _]; cbn; auto.
Qed.

(** Waits at the front of a job do not change the class. *)
Lemma split_safe cs : forall c cs' c' pre rest, checked client used data c cs c' -> Forall2 (placed_cmd a) cs cs' ->
  split_prefences cs' = (pre, rest) ->
  exists cs0, checked client used data c cs0 c' /\ Forall2 (placed_cmd a) cs0 rest /\ (forall P : host1x_job_cmd -> Prop, Forall P cs -> Forall P cs0).
Proof.
  induction cs as [|cmd cs IH]; intros c cs' c' pre rest Hck Hpl.
  { inversion Hpl; subst. intros [= <- <-]. exists []. split_and!; [done|constructor|done]. }
  inversion Hpl as [|? cmd' ? cs1 Hp1 Hpl']; subst. cbn [split_prefences].
  assert (Hkeep : forall (p : list (Z * Z)) r, ([], cmd' :: cs1) = (p, r) ->
    exists cs0, checked client used data c cs0 c' /\ Forall2 (placed_cmd a) cs0 r /\ 
      (forall P : host1x_job_cmd -> Prop, Forall P (cmd :: cs) -> Forall P cs0)).
  { intros p r [= <- <-]. exists (cmd :: cs). by split_and!. }
  destruct Hp1 as [g g'|i t n r|r v]; try apply Hkeep. destruct r; [apply Hkeep|].
  destruct (split_prefences cs1) as [p1 r1] eqn:E1. intros [= <- <-].
  inversion Hck as [| |? ? ? ? ? ? Hck'|]; subst.
  destruct (IH _ cs1 c' p1 r1 Hck' Hpl' E1) as (cs0 & H1 & H2 & H3). exists cs0. split_and!; [done|done|].
  intros P [_ HP]%Forall_cons. by apply H3.
Qed.

Lemma safe_prefences c pre : exists c', safe c (prefence_events HOST1X_HW pre) c'.
Proof.
  destruct pre as [|w pre]; [exists c; apply safe_nil|]. unfold prefence_events.
  assert (Hw : forall ws c, exists c', safe c (ws ≫= fun w : Z * Z => wait_events HOST1X_HW w.1 w.2) c').
  { induction ws as [|x ws IH]; intros c0; [exists c0; apply safe_nil|].
    destruct (IH HOST1X_CLASS_HOST1X) as (c' & H). exists c'. cbn [mbind list_bind].
    eapply safe_app; [apply safe_wait|exact H]. }
  destruct (Hw (w :: pre) 1) as (c' & H). exists c'.
  eapply safe_app; [|eapply safe_app; [exact H|apply safe_release]].
  apply (safe_app _ [_] c); [apply safe_acquire|]. apply (safe_app _ [_] 1); [apply safe_class|].
  apply (safe_app _ [_] 1); [apply safe_payload|apply safe_stream].
Qed.

(** The whole job. *)
Lemma safe_job cs c' c0 sp : checked client used data (client_class client) cs c' ->
  Forall2 (placed_cmd a) cs (sj_cmds job) -> Forall cmd_typed cs ->
  exists c2, safe c0 (job_events HOST1X_HW job sp) c2.
Proof.
  intros Hck Hpl Hty. unfold job_events. rewrite is_job.
  destruct (6 <=? HOST1X_HW) eqn:Ehw.
  - destruct (split_prefences (sj_cmds job)) as [pre rest] eqn:Es.
    destruct (split_safe _ _ _ _ _ _ Hck Hpl Es) as (cs0 & Hck0 & Hpl0 & Hsub).
    destruct (safe_prefences c0 pre) as (c1 & Hpre). eexists.
    eapply safe_app; [exact Hpre|]. eapply safe_app.
    { apply (safe_app _ [_] c1); [apply safe_acquire|]. apply (safe_app _ [_] (client_class client)); [apply safe_class|].
      apply (safe_app _ [_] (client_class client)); [apply safe_payload|apply safe_stream]. }
    eapply safe_app; [apply safe_idle|]. eapply safe_app; [apply safe_classes|].
    eapply safe_app; [apply (safe_cmds cs0 _ _ _ Hck0 Hpl0); by apply Hsub|].
    eapply safe_app; [apply safe_idle|apply safe_release].
  - rewrite (proj2 (Z.eqb_neq _ _) engine_class).
    assert (Hhost : forall (b : bool) c r v, exists c2,
      safe c (if b then [UseClass HOST1X_CLASS_HOST1X; RegWrite r v] else []) c2).
    { intros [] c r v; [|exists c; apply safe_nil]. exists HOST1X_CLASS_HOST1X.
      apply (safe_app _ [_] HOST1X_CLASS_HOST1X); [apply safe_class|]. apply safe_write. by left. }
    destruct (Hhost (serialize job) c0 8 (max_val sp mod 2 ^ 24 + 2 ^ 24 * (id sp mod 2 ^ 8))) as (c1 & H1).
    assert (Hbase : exists c2, safe c1 (match sp_base sp with
      | Some b => [UseClass HOST1X_CLASS_HOST1X; RegWrite 0xb (max_val sp mod 2 ^ 24 + 2 ^ 24 * (Z.of_nat b mod 2 ^ 8))]
      | None => [] end) c2).
    { destruct (sp_base sp); [apply (Hhost true)|exists c1; apply safe_nil]. }
    destruct Hbase as (c2 & H2). eexists. eapply safe_app; [exact H1|]. eapply safe_app; [exact H2|].
    eapply safe_app; [apply safe_class|]. by apply (safe_cmds cs).
Qed.
End safe.

(** * From the ioctl to the hardware *)

(** The job as channel_submit gets it; [stream_of] gives the stream ID of a memory context. *)
Definition hw_job (stream_of : ptr -> Z) (job : drm_job) : submit_job :=
  mk_sjob (cmds (hjob job)) (job_class job) (job_syncpt_incrs job) (stream_of <$> job_memory_context job)
    (job_fallback_streamid job) (job_streamid_offset job) (job_serialize job).

Lemma typed_fits a cs cs' : Forall cmd_typed cs -> Forall2 (placed_cmd a) cs cs' -> Forall cmd_fits cs'.
Proof.
  intros Ht Hp. induction Hp as [|c c' cs cs' Hc _ IH]; [constructor|]. apply Forall_cons in Ht as [Hty Ht].
  constructor; [|by apply IH]. destruct Hc as [g g' Ew _ _|i t n r|r v]; cbn in *.
  - by rewrite Ew.
  - done.
  - destruct Hty as [[-> | ->] _]; unfold FALCON_UCLASS_METHOD_OFFSET, FALCON_UCLASS_METHOD_DATA; lia.
Qed.

(** C4. What the command-stream firewall of the DRM driver ensures, end to end.  When a
    submission has been accepted (under [submit_ok]: pinning may fail, but creating the fence for
    the syncobj of the result may not), and its job is in the queue of a channel and not
    cancelled, in any reachable state of the channel, then what the hardware fetches for it from
    the ring can be executed, and however it is executed: every value that the gathers write to a
    register that the client's is_addr_reg names is an address of a mapping of the channel that
    the job keeps alive, or the first address behind one ([permitted]; the comparison in
    firewall.c is inclusive); only classes that the client allows are selected; and the driver's
    own writes are harmless.  A client without is_addr_reg has no address registers, and its
    writes are not limited.  The words that the hardware executes are those of user space with
    the addresses of the mappings in them, wherever the gather buffer is in memory. *)
Theorem submission_confined HOST1X_HW env contexts syncpoints args s out s' job stream_of sp
    wide pb sps lv w pre j post :
  submit_ok env contexts args s ->
  tegra_drm_ioctl_channel_submit env contexts syncpoints args s = Some (out, s') -> out_job out = Some job ->
  (forall c, contexts !! args_context args = Some c -> 0 < client_class (ctx_client c) < 2 ^ 8) ->
  0 <= job_streamid (hw_job stream_of job) < 2 ^ 16 -> 0 <= job_streamid_offset job < 2 ^ 24 ->
  0 <= id sp < 2 ^ 10 ->
  pb_repr pb 0 [] -> rtc (cstep wide) (init_world pb sps lv) w ->
  sync_queue (cdma (ch w)) = pre ++ j :: post -> cancelled j = false ->
  program j = (channel_program_cdma HOST1X_HW (hw_job stream_of job) sp).1.1 ->
  exists c used cs,
    contexts !! args_context args = Some c /\
    Forall (fun um => exists i, ctx_mappings c !! i = Some (um_mapping um)) used /\
    (exists r, s' = acquires (mapping_refs (um_mapping <$> used)) r /\ s ⊆ r) /\
    fetch fetch_fuel (mapped (push_buf (cdma (ch w)))) (first_get j)
      ((first_get j + 8 * num_slots j) mod pb_size (push_buf (cdma (ch w)))) = Some cs /\
    forall mem c0,
      (forall i a, pin_addr env i a -> in_memory (submitted_words env args used) mem HOST1X_HW a) ->
      exists c', safe (ctx_client c) used mem c0 (events cs) c'.
Proof.
  intros Hok E Hjob Hcl Hst Hoff Hid Hpb Hw%(reachable_cdma_inv _ _ _ _ _ Hpb) Hq Hnc Hprog.
  destruct (submit_outcome env contexts syncpoints args s Hok) as (out' & s1 & E' & Ho).
  rewrite E in E'. injection E' as <- <-. rewrite Hjob in Ho.
  destruct Ho as (_ & _ & c & jd & Ec & Hr & Hfc & (cs & c' & a & i & Hck & Hty & Ha & Hpl & Hclass & Hsp) & Hown).
  destruct (Hcl c Ec) as [Hc0 Hc8].
  assert (Hfits : job_fits (hw_job stream_of job) sp).
  { split; cbn; [rewrite Hclass; lia|done|done|done|by eapply typed_fits]. }
  destruct (inv_intact _ _ _ _ _ Hw Hq Hnc) as (dss & Ed & Ef). rewrite Hprog in Ed.
  destruct (program_runs HOST1X_HW (hw_job stream_of job) sp Hfits) as (dss' & Ed' & Ee). rewrite Ed in Ed'.
  injection Ed' as <-. exists c, (used_of jd), (concat dss). split_and!; [done|done|done|done|].
  intros mem c0 Hmem. setoid_rewrite Ee.
  apply (safe_job (ctx_client c) (used_of jd) (submitted_words env args (used_of jd)) mem HOST1X_HW
    (hw_job stream_of job) a Hclass ltac:(lia) (Hmem i a Ha) cs c'); done.
Qed.

(** The example, at the address where it is pinned. *)
Definition example_mem (addr : Z) : Z :=
  nth (Z.to_nat ((addr - 0x10000000) / 4)) [0x1480; 0x102a0002; 5; 0x80000010; 0x90000001; 0xa0000031; 0x80001000] 0.

Definition example_result : option (outcome * ledger) :=
  tegra_drm_ioctl_channel_submit example_env {[ 4 := example_context ]} example_syncpoints example_args example_ledger.
Definition example_hw_job : submit_job := Eval vm_compute in
  match example_result with
  | Some (Outcome _ (Some job), _) => hw_job (fun _ => 0) job
  | _ => mk_sjob [] 0 0 None 0 0 false
  end.

Definition flight_of (sj : submit_job) (r : option (outcome * ledger)) : Prop :=
  match r with Some (Outcome 0 (Some job), _) => hw_job (fun _ => 0) job = sj | _ => False end.
Lemma flight_of_job sj r : flight_of sj r ->
  exists job s, r = Some (Outcome 0 (Some job), s) /\ hw_job (fun _ => 0) job = sj.
Proof. destruct r as [[[[|err|err] [job|]] s]|]; try done. intros H. by exists job, s. Qed.
Lemma example_flight : flight_of example_hw_job example_result.
Proof. vm_compute. reflexivity. Qed.

Lemma example_hw_fits : job_fits example_hw_job (example_sp 0).
Proof. split; [done|done|done|done|]. repeat constructor; done. Qed.

(** The gathers of the example run, and the class at the end is the engine's. *)
Lemma submission_confined_witness :
  exists job s' w j used cs, example_result = Some (Outcome 0 (Some job), s') /\
    rtc (cstep true) (init_world example_pb example_sp (fun _ => 0)) w /\ sync_queue (cdma (ch w)) = [j] /\
    fetch fetch_fuel (mapped (push_buf (cdma (ch w)))) (first_get j)
      ((first_get j + 8 * num_slots j) mod pb_size (push_buf (cdma (ch w)))) = Some cs /\
    (length cs > 0)%nat /\
    forall mem c0, (forall i a, pin_addr example_env i a -> in_memory (submitted_words example_env example_args used) mem 8 a) ->
      exists c', safe gr2d used mem c0 (events cs) c'.
Proof.
  destruct (flight_of_job _ _ example_flight) as (job & s' & E & Ej).
  unfold example_result in E. set (ps := (channel_program_cdma 8 example_hw_job (example_sp 0)).1.1).
  assert (H : exists c j, submit (example_job 1 0 6) ps (ch (init_world example_pb example_sp (fun _ => 0))) = Some c /\
    sync_queue (cdma c) = [] ++ j :: [] /\ cancelled j = false /\ program j = ps).
  { eexists _, _. split; [vm_compute; reflexivity|]. split; [vm_compute; reflexivity|].
    split; [reflexivity|vm_compute; reflexivity]. }
  destruct H as (c & j & Ec & Eq & Hc & Hp).
  assert (Hs : rtc (cstep true) (init_world example_pb example_sp (fun _ => 0)) (mk_world c Idle StopIdle)).
  { clear E. eapply submit_steps; [exact Ec|done|done|]. apply program_wellformed, example_hw_fits. }
  assert (Hcl : forall c, ({[ 4 := example_context ]} : gmap Z tegra_drm_context) !! args_context example_args = Some c ->
    0 < client_class (ctx_client c) < 2 ^ 8).
  { clear. intros ctx Hctx. change (args_context example_args) with 4 in Hctx. rewrite lookup_singleton_eq in Hctx.
    apply (inj Some) in Hctx. subst ctx. done. }
  assert (Hst : 0 <= job_streamid (hw_job (fun _ => 0) job) < 2 ^ 16) by (rewrite Ej; exact (jf_stream _ _ example_hw_fits)).
  assert (Hoff : 0 <= engine_streamid_offset (hw_job (fun _ => 0) job) < 2 ^ 24) by (rewrite Ej; exact (jf_offset _ _ example_hw_fits)).
  unfold ps in Hp. rewrite <- Ej in Hp.
  destruct (submission_confined 8 example_env {[ 4 := example_context ]} example_syncpoints example_args example_ledger
    (Outcome 0 (Some job)) s' job (fun _ => 0) (example_sp 0) true example_pb example_sp (fun _ => 0)
    (mk_world c Idle StopIdle) [] j [] example_ok E eq_refl Hcl Hst Hoff (conj (Z.le_refl 0) eq_refl) example_pb_ok Hs Eq Hc Hp)
    as (ctx & used & cs & Ectx & _ & _ & Ef & Hsafe).
  change (args_context example_args) with 4 in Ectx. rewrite lookup_singleton_eq in Ectx. injection Ectx as <-.
  exists job, s', (mk_world c Idle StopIdle), j, used, cs. split; [exact E|]. split; [exact Hs|]. split; [exact Eq|].
  split; [exact Ef|]. split; [|exact Hsafe].
  clear E. destruct cs; [|cbn; lia]. exfalso. vm_compute in Ec. injection Ec as <-. vm_compute in Eq. injection Eq as <-.
  vm_compute in Ef. discriminate.
Defined.
