(* ===== verification/DrmUapi.v ===== *)
(** Channels, mappings and syncpoints of a file of the Tegra DRM driver, and how long they live
    (src/drivers/gpu/drm/tegra/uapi.c).

    A mapping is referenced by the table of its channel, by the jobs that use it and by
    threads that have taken it out of the table and are about to put it.  The step
    relation interleaves the ioctls (those that hold the lock of the file are one step
    under it, the opening of a channel, which holds none, is three), the closing of the
    file and the completion of jobs, down to the single put. *)
From S2P Require Import DrmRefs Prelude Host1xJob DrmFirewall DrmSubmit.

Definition EOPNOTSUPP := 95.
Definition ENODEV := 19.

Definition DRM_TEGRA_CHANNEL_MAP_READ := 1.
Definition DRM_TEGRA_CHANNEL_MAP_WRITE := 2.
Definition DRM_TEGRA_CHANNEL_MAP_READ_WRITE := Z.lor DRM_TEGRA_CHANNEL_MAP_READ DRM_TEGRA_CHANNEL_MAP_WRITE.

(** What the allocators, the lookup of the GEM object, host1x_bo_pin and xa_alloc answer:
    an object and its size, an address, an identifier, or an error. *)
Record map_answers := MapAnswers {
  kzalloc_mapping : option ptr;
  gem_lookup : option (ptr * Z);
  bo_pin : dma_data_direction -> Z + Z;
  xa_alloc_mapping : Z + Z }.

Definition map_direction (flags : Z) : option dma_data_direction :=
  let flags := Z.land flags DRM_TEGRA_CHANNEL_MAP_READ_WRITE in
  if flags =? DRM_TEGRA_CHANNEL_MAP_READ_WRITE then Some DMA_BIDIRECTIONAL
  else if flags =? DRM_TEGRA_CHANNEL_MAP_WRITE then Some DMA_FROM_DEVICE
  else if flags =? DRM_TEGRA_CHANNEL_MAP_READ then Some DMA_TO_DEVICE
  else None.

Abbreviation channels := (gmap Z tegra_drm_context).

Definition with_mappings (c : tegra_drm_context) (ms : gmap Z tegra_drm_mapping) : tegra_drm_context :=
  DrmContext (ctx_client c) ms (ctx_memory_context c) (ctx_addr c) (ctx_channel c).

(** * Opening a channel *)

(** What drivers/gpu/drm/tegra registers for an engine. *)
Record drm_engine := DrmEngine {
  base_client : tegra_drm_client;
  shared_channel : option ptr;
  device_iommu_mapped : bool;
  can_use_memory_ctx_op : option (Z + bool);     (* the operation, and what it answers *)
  engine_version : Z;
  dma_coherent : bool }.

Definition tegra_drm_find_client (clients : list drm_engine) (class : Z) : option drm_engine :=
  find (fun e => client_class (base_client e) =? class) clients.

Record open_answers := OpenAnswers {
  kzalloc_context : option ptr;
  host1x_channel_request : option ptr;
  task_tgid : ptr;                               (* get_task_pid(current, PIDTYPE_TGID) *)
  host1x_memory_context_alloc : Z + ptr;
  xa_alloc_context : Z + Z }.

Definition DRM_TEGRA_CHANNEL_CAP_CACHE_COHERENT := 1.

(** The memory context of a new channel: an error, or the context if there is one. *)
Definition channel_memory_context (ans : open_answers) (e : drm_engine) (s : ledger) : (Z + option ptr) * ledger :=
  match device_iommu_mapped e, can_use_memory_ctx_op e with
  | true, Some (inl err) => (inl err, s)
  | true, Some (inr false) => (inr None, s)
  | true, Some (inr true) =>
      let s := acquire (PidRef (task_tgid ans)) s in
      match host1x_memory_context_alloc ans with
      | inl err => (if err =? - EOPNOTSUPP then inr None else inl err, s)
      | inr c => (inr (Some c), acquire (MemctxRef c) s)
      end
  | _, _ => (inr None, s)
  end.

(** tegra_drm_ioctl_channel_open up to xa_alloc: the error, or the context it has filled.
    The client is stored only after xa_alloc; until then no other ioctl may use the context
    ([settled] below), so that the record has it from the start. *)
Definition channel_open_prepare (ans : open_answers) (clients : list drm_engine) (flags class : Z) (s : ledger)
    : option ((Z + tegra_drm_context * drm_engine) * ledger) :=
  if negb (flags =? 0) then Some (inl (- EINVAL), s)
  else
    match kzalloc_context ans with
    | None => Some (inl (- ENOMEM), s)
    | Some p =>
        let s := acquire (ContextMem p) s in
        let free err s := s ← release (ContextMem p) s; Some (inl err, s) in
        match tegra_drm_find_client clients class with
        | None => free (- ENODEV) s
        | Some e =>
            match (match shared_channel e with Some ch => Some ch | None => host1x_channel_request ans end) with
            | None => free (- EBUSY) s
            | Some ch =>
                let s := acquire (ChannelRef ch) s in
                let put_channel err s := s ← release (ChannelRef ch) s; free err s in
                let '(r, s) := channel_memory_context ans e s in
                match r with
                | inl err => put_channel err s
                | inr mc => Some (inr (DrmContext (base_client e) ∅ mc p ch, e), s)
                end
            end
        end
    end.

(** What is written back once the context is published and initialised. *)
Definition channel_open_results (id : Z) (e : drm_engine) : Z * Z * Z :=
  (id, engine_version e, if dma_coherent e then DRM_TEGRA_CHANNEL_CAP_CACHE_COHERENT else 0).

(** * Mapping a buffer *)

(** The error, the channels and what is held. *)
Definition tegra_drm_ioctl_channel_map (ans : map_answers) (context flags : Z) (chs : channels) (s : ledger)
    : option (Z * channels * ledger) :=
  if negb (Z.land flags (2 ^ 32 - 1 - DRM_TEGRA_CHANNEL_MAP_READ_WRITE) =? 0) then Some (- EINVAL, chs, s)
  else
    let s := acquire FprivLock s in
    let unlock err chs s := s ← release FprivLock s; Some (err, chs, s) in
    match chs !! context with
    | None => unlock (- EINVAL) chs s
    | Some c =>
        match kzalloc_mapping ans with
        | None => unlock (- ENOMEM) chs s
        | Some m =>
            let s := acquire (MappingRef m) (acquire (MappingMem m) s) in
            let free err s := s ← release (MappingRef m) s; s ← release (MappingMem m) s; unlock err chs s in
            match gem_lookup ans with
            | None => free (- EINVAL) s
            | Some (bo, size) =>
                let s := acquire (GemRef bo) s in
                let put_gem err s := s ← release (GemRef bo) s; free err s in
                match map_direction flags with
                | None => put_gem (- EINVAL) s
                | Some direction =>
                    match bo_pin ans direction with
                    | inl err => put_gem err s
                    | inr phys =>
                        let s := acquire (BoPin m) s in
                        let mapping := DrmMapping m bo phys (u64 (phys + size)) in
                        match xa_alloc_mapping ans with
                        | inl err => s ← release (BoPin m) s; put_gem err s
                        | inr id =>
                            unlock 0 (<[context := with_mappings c (<[id := mapping]> (ctx_mappings c))]> chs) s
                        end
                    end
                end
            end
        end
    end.

(** tegra_drm_ioctl_channel_unmap, up to the unlock: the mapping that is to be put. *)
Definition channel_unmap_erase (context id : Z) (chs : channels) : option (channels * tegra_drm_mapping) :=
  c ← chs !! context;
  m ← ctx_mappings c !! id;
  Some (<[context := with_mappings c (delete id (ctx_mappings c))]> chs, m).

(** * What is put outside the lock *)
Inductive put_op := PutMemctx (c : ptr) | PutMapping (m : tegra_drm_mapping) | PutSyncpt (id : Z)
  | PutChannel (ch : ptr) | FreeContext (p : ptr).

Definition run_op (op : put_op) (s : ledger) : option ledger :=
  match op with
  | PutMemctx c => host1x_memory_context_put c s
  | PutMapping m => tegra_drm_mapping_put m s
  | PutSyncpt id => release (SyncptRef id) s
  | PutChannel ch => release (ChannelRef ch) s
  | FreeContext p => release (ContextMem p) s
  end.

Fixpoint run_ops (ops : list put_op) (s : ledger) : option ledger :=
  match ops with
  | [] => Some s
  | op :: ops => s ← run_op op s; run_ops ops s
  end.

(** The labels put_memctx, put_channel and free of tegra_drm_ioctl_channel_open. *)
Definition channel_open_unwind (c : tegra_drm_context) : list put_op :=
  (match ctx_memory_context c with Some mc => [PutMemctx mc] | None => [] end) ++
  [PutChannel (ctx_channel c); FreeContext (ctx_addr c)].

(** The whole ioctl: the error; the identifier, version and capabilities written back; the
    channels. *)
Definition tegra_drm_ioctl_channel_open (ans : open_answers) (clients : list drm_engine) (flags class : Z)
    (chs : channels) (s : ledger) : option (Z * option (Z * Z * Z) * channels * ledger) :=
  '(r, s) ← channel_open_prepare ans clients flags class s;
  match r with
  | inl err => Some (err, None, chs, s)
  | inr (c, e) =>
      match xa_alloc_context ans with
      | inl err => s ← run_ops (channel_open_unwind c) s; Some (err, None, chs, s)
      | inr id => Some (0, Some (channel_open_results id e), <[id := c]> chs, s)
      end
  end.

(** The puts of tegra_drm_channel_context_close, in its order. *)
Definition tegra_drm_channel_context_close (c : tegra_drm_context) : list put_op :=
  (match ctx_memory_context c with Some mc => [PutMemctx mc] | None => [] end) ++
  (PutMapping <$> (map_to_list (ctx_mappings c)).*2) ++ [PutChannel (ctx_channel c); FreeContext (ctx_addr c)].

(** tegra_drm_ioctl_channel_close, up to the unlock. *)
Definition channel_close_erase (context : Z) (chs : channels) : option (channels * tegra_drm_context) :=
  c ← chs !! context; Some (delete context chs, c).

Definition tegra_drm_uapi_close_file (chs : channels) (sps : gset Z) : list put_op :=
  ((map_to_list chs).*2 ≫= tegra_drm_channel_context_close) ++ (PutSyncpt <$> elements sps).

(** * Syncpoints of the file *)
Definition tegra_drm_ioctl_syncpoint_allocate (args_id : Z) (alloc : option Z) (xa_insert_err : Z) (sps : gset Z)
    (s : ledger) : option (Z * gset Z * ledger) :=
  if negb (args_id =? 0) then Some (- EINVAL, sps, s)
  else
    match alloc with
    | None => Some (- EBUSY, sps, s)
    | Some id =>
        let s := acquire (SyncptRef id) s in
        let err := if decide (id ∈ sps) then - EBUSY else xa_insert_err in
        if negb (err =? 0) then s ← release (SyncptRef id) s; Some (err, sps, s)
        else Some (0, {[id]} ∪ sps, s)
    end.

(** tegra_drm_ioctl_syncpoint_free, up to the unlock. *)
Definition syncpoint_free_erase (id : Z) (sps : gset Z) : option (gset Z) :=
  if decide (id ∈ sps) then Some (sps ∖ {[id]}) else None.

(** * The system *)

(** A running tegra_drm_ioctl_channel_open: the context it has filled, and its identifier
    once xa_alloc has published it.  It holds no lock. *)
Record opening := Opening { open_ctx : tegra_drm_context; open_id : option Z }.

Record drm_sys := DrmSys {
  sys_held : ledger;
  sys_chs : channels;
  sys_sps : gset Z;
  sys_jobs : list (list tegra_drm_mapping);      (* the used mappings of jobs *)
  sys_puts : list (list put_op);                 (* what threads are about to put *)
  sys_opening : list opening }.

(** The references that submit_process_bufs takes. *)
Fixpoint get_mappings (c : tegra_drm_context) (ids : list Z) (s : ledger) : option (list tegra_drm_mapping * ledger) :=
  match ids with
  | [] => Some ([], s)
  | id :: ids =>
      '(m, s) ← tegra_drm_mapping_get (ctx_mappings c) id s;
      '(ms, s) ← get_mappings c ids s;
      Some (m :: ms, s)
  end.

(** A context that the user may name: the channel_open that creates it has returned.  An
    ioctl that guesses the identifier earlier reaches a context without its client and
    table, and a close frees what tegra_drm_ioctl_channel_open is about to initialise
    ([early_close_frees]). *)
Definition settled (os : list opening) (context : Z) : Prop :=
  Forall (fun o => open_id o <> Some context) os.

Inductive drm_step : drm_sys -> drm_sys -> Prop :=
  | step_open_prepare s chs sps jobs puts os ans clients flags class r s' :
      channel_open_prepare ans clients flags class s = Some (r, s') ->
      drm_step (DrmSys s chs sps jobs puts os)
               (DrmSys s' chs sps jobs puts
                  (match r with inl _ => os | inr (c, _) => Opening c None :: os end))
  | step_open_publish s chs sps jobs puts os1 c os2 id :
      chs !! id = None ->
      drm_step (DrmSys s chs sps jobs puts (os1 ++ Opening c None :: os2))
               (DrmSys s (<[id := c]> chs) sps jobs puts (os1 ++ Opening c (Some id) :: os2))
  | step_open_fail s chs sps jobs puts os1 c os2 :
      drm_step (DrmSys s chs sps jobs puts (os1 ++ Opening c None :: os2))
               (DrmSys s chs sps jobs (channel_open_unwind c :: puts) (os1 ++ os2))
  | step_open_init s chs sps jobs puts os1 c id os2 :
      (* stores to the context *)
      ContextMem (ctx_addr c) ∈ s ->
      drm_step (DrmSys s chs sps jobs puts (os1 ++ Opening c (Some id) :: os2))
               (DrmSys s chs sps jobs puts (os1 ++ os2))
  | step_map s chs sps jobs puts os ans context flags err chs' s' :
      settled os context ->
      (* what is allocated is new *)
      (forall m, kzalloc_mapping ans = Some m -> MappingMem m ∉ s) ->
      (forall c id, chs !! context = Some c -> xa_alloc_mapping ans = inr id -> ctx_mappings c !! id = None) ->
      tegra_drm_ioctl_channel_map ans context flags chs s = Some (err, chs', s') ->
      drm_step (DrmSys s chs sps jobs puts os) (DrmSys s' chs' sps jobs puts os)
  | step_unmap s chs sps jobs puts os context id chs' m :
      settled os context ->
      channel_unmap_erase context id chs = Some (chs', m) ->
      drm_step (DrmSys s chs sps jobs puts os) (DrmSys s chs' sps jobs ([PutMapping m] :: puts) os)
  | step_close s chs sps jobs puts os context chs' c :
      settled os context ->
      channel_close_erase context chs = Some (chs', c) ->
      drm_step (DrmSys s chs sps jobs puts os) (DrmSys s chs' sps jobs (tegra_drm_channel_context_close c :: puts) os)
  | step_syncpt_allocate s chs sps jobs puts os args_id alloc e err sps' s' :
      tegra_drm_ioctl_syncpoint_allocate args_id alloc e sps s = Some (err, sps', s') ->
      drm_step (DrmSys s chs sps jobs puts os) (DrmSys s' chs sps' jobs puts os)
  | step_syncpt_free s chs sps jobs puts os id sps' :
      syncpoint_free_erase id sps = Some sps' ->
      drm_step (DrmSys s chs sps jobs puts os) (DrmSys s chs sps' jobs ([PutSyncpt id] :: puts) os)
  | step_submit s chs sps jobs puts os context c ids ms s' :
      settled os context ->
      chs !! context = Some c -> get_mappings c ids s = Some (ms, s') ->
      drm_step (DrmSys s chs sps jobs puts os) (DrmSys s' chs sps (ms :: jobs) puts os)
  | step_complete s chs sps jobs1 ms jobs2 puts os :
      (* release_job: the mappings are put one by one *)
      drm_step (DrmSys s chs sps (jobs1 ++ ms :: jobs2) puts os)
               (DrmSys s chs sps (jobs1 ++ jobs2) ((PutMapping <$> ms) :: puts) os)
  | step_close_file s chs sps jobs puts :
      (* no ioctl of the file is running *)
      drm_step (DrmSys s chs sps jobs puts []) (DrmSys s ∅ ∅ jobs (tegra_drm_uapi_close_file chs sps :: puts) [])
  | step_put s chs sps jobs puts1 op ops puts2 os s' :
      run_op op s = Some s' ->
      drm_step (DrmSys s chs sps jobs (puts1 ++ (op :: ops) :: puts2) os) (DrmSys s' chs sps jobs (puts1 ++ ops :: puts2) os).

(** * The invariant *)

(** Every put that is still to come: of what the tables hold when the file is closed, of
    the jobs when they complete, of the threads, and of the contexts not published yet
    should that fail. *)
Definition unpublished_puts (o : opening) : list put_op :=
  match open_id o with None => channel_open_unwind (open_ctx o) | Some _ => [] end.
Definition all_puts (y : drm_sys) : list put_op :=
  tegra_drm_uapi_close_file (sys_chs y) (sys_sps y) ++ (PutMapping <$> concat (sys_jobs y)) ++
  concat (sys_puts y) ++ (sys_opening y ≫= unpublished_puts).

Definition op_res (op : put_op) : resource :=
  match op with
  | PutMemctx c => MemctxRef c
  | PutMapping m => MappingRef (mapping_id m)
  | PutSyncpt id => SyncptRef id
  | PutChannel ch => ChannelRef ch
  | FreeContext p => ContextMem p
  end.
Definition object_res (m : tegra_drm_mapping) : list resource :=
  [BoPin (mapping_id m); GemRef (mapping_bo m); MappingMem (mapping_id m)].

Definition mapping_resource (r : resource) : Prop :=
  match r with MappingRef _ | MappingMem _ | BoPin _ => True | _ => False end.

(** What is held is, on top of what was held before, one reference for every put to come,
    the object and its pinned buffer for every mapping that one of them refers to, and the
    references to a pid that tegra_drm_ioctl_channel_open never puts. *)
Record sys_inv (rest : ledger) (y : drm_sys) (alive : list tegra_drm_mapping) (pids : list ptr) : Prop := {
  si_nodup : NoDup (mapping_id <$> alive);
  si_held : sys_held y = acquires (alive ≫= object_res) (acquires (op_res <$> all_puts y) (acquires (PidRef <$> pids) rest));
  si_alive : forall m, m ∈ alive <-> PutMapping m ∈ all_puts y
}.

Definition table_puts (chs : channels) : list put_op := (map_to_list chs).*2 ≫= tegra_drm_channel_context_close.

Lemma table_puts_insert chs i c : chs !! i = None ->
  table_puts (<[i := c]> chs) ≡ₚ tegra_drm_channel_context_close c ++ table_puts chs.
Proof. intros H. unfold table_puts. by rewrite map_to_list_insert. Qed.
Lemma table_puts_split chs i c : chs !! i = Some c ->
  table_puts chs ≡ₚ tegra_drm_channel_context_close c ++ table_puts (delete i chs).
Proof.
  intros H. rewrite <- (insert_delete_id chs i c H) at 1. rewrite table_puts_insert; [done|apply lookup_delete_eq].
Qed.
Lemma table_puts_update chs i c c' : chs !! i = Some c ->
  table_puts (<[i := c']> chs) ≡ₚ tegra_drm_channel_context_close c' ++ table_puts (delete i chs).
Proof.
  intros H. rewrite (table_puts_split _ i c') by apply lookup_insert_eq. by rewrite delete_insert_eq.
Qed.
Lemma close_with_mappings c ms m i : ms !! i = None ->
  tegra_drm_channel_context_close (with_mappings c (<[i := m]> ms))
  ≡ₚ PutMapping m :: tegra_drm_channel_context_close (with_mappings c ms).
Proof.
  intros H. unfold tegra_drm_channel_context_close. cbn [ctx_mappings with_mappings ctx_memory_context ctx_addr ctx_channel].
  rewrite map_to_list_insert by done. cbn [fmap list_fmap snd]. rewrite <- app_comm_cons. by rewrite <- Permutation_middle.
Qed.
Lemma with_mappings_id c : with_mappings c (ctx_mappings c) = c.
Proof. by destruct c. Qed.

Lemma all_puts_eq s chs sps jobs puts os : all_puts (DrmSys s chs sps jobs puts os) =
  (table_puts chs ++ (PutSyncpt <$> elements sps)) ++ (PutMapping <$> concat jobs) ++ concat puts ++
  (os ≫= unpublished_puts).
Proof. done. Qed.

Lemma in_table chs k c i m : chs !! k = Some c -> ctx_mappings c !! i = Some m -> PutMapping m ∈ table_puts chs.
Proof.
  intros Hk Hi. rewrite (table_puts_split chs k c Hk). unfold tegra_drm_channel_context_close.
  rewrite !elem_of_app. left. right. left. apply list_elem_of_fmap. exists m. split; [done|].
  apply list_elem_of_fmap. exists (i, m). split; [done|]. by apply elem_of_map_to_list.
Qed.

#[export] Instance tegra_drm_mapping_eq_dec : EqDecision tegra_drm_mapping.
Proof. solve_decision. Defined.

(** The context a prepared channel_open holds references for, or nothing. *)
Lemma channel_open_prepare_spec ans clients flags class s res s' :
  channel_open_prepare ans clients flags class s = Some (res, s') ->
  exists pids, match res with
  | inl _ => s' = acquires (PidRef <$> pids) s
  | inr (c, _) => ctx_mappings c = ∅ /\
      s' = acquires (op_res <$> channel_open_unwind c) (acquires (PidRef <$> pids) s)
  end.
Proof.
  unfold channel_open_prepare. case_if; [intros [= <- <-]; by exists []|].
  destruct (kzalloc_context ans) as [p|]; [|intros [= <- <-]; by exists []]. cbv zeta.
  destruct (tegra_drm_find_client clients class) as [e|]; [|ledger_step; intros [= <- <-]; by exists []].
  destruct (match shared_channel e with Some _ => _ | None => _ end) as [ch|];
    [|ledger_step; intros [= <- <-]; by exists []].
  set (s0 := acquire (ChannelRef ch) (acquire (ContextMem p) s)).
  assert (Hmc : exists pids r mc, channel_memory_context ans e s0
      = (r, acquires (match mc with Some c => [MemctxRef c] | None => [] end) (acquires (PidRef <$> pids) s0))
    /\ (r = inr mc \/ exists err, r = inl err /\ mc = None)).
  { unfold channel_memory_context.
    destruct (device_iommu_mapped e), (can_use_memory_ctx_op e) as [[err'|[]]|];
      try (exists [], (inr None), None; split; [done|by left]).
    - exists [], (inl err'), None. split; [done|]. right. by exists err'.
    - destruct (host1x_memory_context_alloc ans) as [err'|c].
      + exists [task_tgid ans]. destruct (err' =? - EOPNOTSUPP).
        * exists (inr None), None. split; [done|by left].
        * exists (inl err'), None. split; [done|]. right. by exists err'.
      + exists [task_tgid ans], (inr (Some c)), (Some c). split; [done|by left]. }
  destruct Hmc as (pids & r & mc & -> & Hr). unfold s0. clear s0. rewrite !acquires_acquire.
  destruct Hr as [->|(err' & -> & ->)].
  - intros [= <- <-]. exists pids. split; [done|].
    unfold channel_open_unwind. cbn [ctx_mappings ctx_memory_context ctx_addr ctx_channel].
    destruct mc; cbn [app fmap list_fmap op_res]; ledger_eq.
  - cbn [acquires foldr]. ledger_step. intros [= <- <-]. by exists pids.
Qed.

Lemma unwind_undoes c s :
  run_ops (channel_open_unwind c) (acquires (op_res <$> channel_open_unwind c) s) = Some s.
Proof.
  unfold channel_open_unwind. destruct (ctx_memory_context c);
    cbn [app fmap list_fmap op_res acquires foldr run_ops run_op]; unfold host1x_memory_context_put;
    by ledger_step.
Qed.

(** The whole ioctl adds a channel with no mapping, or nothing. *)
Lemma channel_open_spec ans clients flags class chs s err out chs' s' :
  tegra_drm_ioctl_channel_open ans clients flags class chs s = Some (err, out, chs', s') ->
  exists pids, s' = acquires (PidRef <$> pids) s /\ chs' = chs \/
  exists id c, xa_alloc_context ans = inr id /\ chs' = <[id := c]> chs /\ ctx_mappings c = ∅ /\
    s' = acquires (op_res <$> channel_open_unwind c) (acquires (PidRef <$> pids) s).
Proof.
  unfold tegra_drm_ioctl_channel_open.
  destruct (channel_open_prepare _ _ _ _ s) as [[[err'|[c e]] s1]|] eqn:E; [| |done];
    apply channel_open_prepare_spec in E as [pids E]; cbn [mbind option_bind]; intros Ho.
  - simplify_eq. exists pids. by left.
  - destruct E as [Em ->]. exists pids. destruct (xa_alloc_context ans) as [err'|id].
    + rewrite unwind_undoes in Ho. simplify_eq/=. by left.
    + simplify_eq. right. by exists id, c.
Qed.

(** tegra_drm_ioctl_channel_map leaves everything as it was, or adds one mapping. *)
Lemma channel_map_spec ans context flags chs s err chs' s' :
  tegra_drm_ioctl_channel_map ans context flags chs s = Some (err, chs', s') ->
  chs' = chs /\ s' = s \/
  exists c m bo phys size i, kzalloc_mapping ans = Some m /\ xa_alloc_mapping ans = inr i /\ chs !! context = Some c /\
    let mapping := DrmMapping m bo phys (u64 (phys + size)) in
    chs' = <[context := with_mappings c (<[i := mapping]> (ctx_mappings c))]> chs /\
    s' = acquires (object_res mapping) (acquire (MappingRef m) s).
Proof.
  unfold tegra_drm_ioctl_channel_map. case_if; [intros [= <- <- <-]; by left|]. cbv zeta.
  destruct (chs !! context) as [c|]; [|ledger_step; intros [= <- <- <-]; by left].
  destruct (kzalloc_mapping ans) as [m|]; [|ledger_step; intros [= <- <- <-]; by left].
  destruct (gem_lookup ans) as [[bo size]|]; [|ledger_step; intros [= <- <- <-]; by left].
  destruct (map_direction flags) as [dir|]; [|ledger_step; intros [= <- <- <-]; by left].
  destruct (bo_pin ans dir) as [e|phys]; [ledger_step; intros [= <- <- <-]; by left|].
  destruct (xa_alloc_mapping ans) as [e|i]; [ledger_step; intros [= <- <- <-]; by left|].
  ledger_step. intros [= <- <- <-]. right. exists c, m, bo, phys, size, i. split_and!; try done.
  cbn [object_res mapping_id mapping_bo]. ledger_eq.
Qed.

Lemma get_mappings_spec c ks s ms s' : get_mappings c ks s = Some (ms, s') ->
  s' = acquires (op_res <$> (PutMapping <$> ms)) s /\ Forall (fun m => exists i, ctx_mappings c !! i = Some m) ms.
Proof.
  revert s ms s'. induction ks as [|i ks IH]; intros s ms s'; cbn [get_mappings]; [by intros [= <- <-]|].
  unfold tegra_drm_mapping_get. destruct (ctx_mappings c !! i) as [m|] eqn:Em; [|done]. cbn [mbind option_bind].
  destruct (get_mappings c ks _) as [[ms1 s1]|] eqn:E; [|done]. cbn [mbind option_bind]. intros [= <- <-].
  apply IH in E as [-> Hf]. split; [apply acquires_acquire|]. constructor; [by exists i|done].
Qed.

Lemma syncpoint_allocate_spec args_id alloc e sps s err sps' s' :
  tegra_drm_ioctl_syncpoint_allocate args_id alloc e sps s = Some (err, sps', s') ->
  sps' = sps /\ s' = s \/ exists id, (id ∉ sps) /\ alloc = Some id /\ sps' = union {[id]} sps /\ s' = acquire (SyncptRef id) s.
Proof.
  unfold tegra_drm_ioctl_syncpoint_allocate. case_if; [intros [= <- <- <-]; by left|].
  destruct alloc as [id|]; [|intros [= <- <- <-]; by left]. cbv zeta. destruct (decide (id ∈ sps)) as [Hin|Hin].
  - change (negb (- EBUSY =? 0)) with true. cbv iota. ledger_step. intros [= <- <- <-]. by left.
  - case_if; [ledger_step; intros [= <- <- <-]; by left|]. intros [= <- <- <-]. right. by exists id.
Qed.

Section invariant.
Variable rest : ledger.
Hypothesis rest_clean : forall r, mapping_resource r -> r ∉ rest.

Lemma op_res_not_object op alive : op_res op ∉ alive ≫= object_res.
Proof.
  rewrite list_elem_of_bind. intros (m & H & _). unfold object_res in H. destruct op; set_solver.
Qed.

Lemma pids_out r (pids : list ptr) : (forall p, r <> PidRef p) -> r ∉ PidRef <$> pids.
Proof. intros Hr [p [-> _]]%list_elem_of_fmap. by apply (Hr p). Qed.

Lemma object_held y alive pids m : sys_inv rest y alive pids -> PutMapping m ∈ all_puts y ->
  BoPin (mapping_id m) ∈ sys_held y /\ GemRef (mapping_bo m) ∈ sys_held y /\ MappingMem (mapping_id m) ∈ sys_held y.
Proof.
  intros [_ -> Ha] Hm%Ha. rewrite !elem_acquires.
  assert (H : forall r, r ∈ object_res m -> r ∈ alive ≫= object_res) by (intros r Hr; apply list_elem_of_bind; by exists m).
  split_and!; left; apply H; unfold object_res; set_solver.
Qed.

Lemma alive_inj alive m m' : NoDup (mapping_id <$> alive) -> m ∈ alive -> m' ∈ alive ->
  mapping_id m = mapping_id m' -> m = m'.
Proof.
  intros Hn Hm Hm' E. apply list_elem_of_lookup in Hm as [i Hi]. apply list_elem_of_lookup in Hm' as [k Hk].
  assert (i = k) as ->; [|congruence].
  apply (NoDup_lookup (mapping_id <$> alive) _ _ (mapping_id m) Hn); rewrite list_lookup_fmap.
  - by rewrite Hi.
  - rewrite Hk. cbn. by rewrite E.
Qed.

Lemma mapping_ref_among m ops pids alive s :
  s = acquires (alive ≫= object_res) (acquires (op_res <$> ops) (acquires (PidRef <$> pids) rest)) ->
  NoDup (mapping_id <$> alive) -> m ∈ alive -> (forall m', PutMapping m' ∈ ops -> m' ∈ alive) ->
  MappingRef (mapping_id m) ∈ s <-> PutMapping m ∈ ops.
Proof.
  intros -> Hn Hm Ha. rewrite !elem_acquires. split.
  - intros [H|[H|[H|H]]].
    + by apply (op_res_not_object (PutMapping m)) in H.
    + apply list_elem_of_fmap in H as ([| m' | | |] & E & Hm'); try discriminate. injection E as E.
      by rewrite (alive_inj alive m m' Hn Hm (Ha m' Hm') E).
    + by apply pids_out in H.
    + by apply rest_clean in H.
  - intros H. right. left. apply list_elem_of_fmap. by exists (PutMapping m).
Qed.

(** One of the puts to come: it does not fail, and the object goes with the last. *)
Lemma put_step y alive pids op ops : sys_inv rest y alive pids -> all_puts y ≡ₚ op :: ops ->
  exists s', run_op op (sys_held y) = Some s' /\
    forall y', sys_held y' = s' -> all_puts y' ≡ₚ ops -> exists alive', sys_inv rest y' alive' pids.
Proof.
  intros [Hn Hh Ha] Hp.
  set (s1 := acquires (alive ≫= object_res) (acquires (op_res <$> ops) (acquires (PidRef <$> pids) rest))).
  assert (E1 : release (op_res op) (sys_held y) = Some s1).
  { rewrite Hh, release_skip_list by apply op_res_not_object.
    rewrite Hp. cbn [fmap list_fmap acquires foldr]. by rewrite release_hit. }
  assert (Hkeep : forall y', (forall m, PutMapping m ∈ ops <-> m ∈ alive) -> sys_held y' = s1 -> all_puts y' ≡ₚ ops ->
    exists alive', sys_inv rest y' alive' pids).
  { intros y' Hops Hy Hr. exists alive. split; [done| |].
    - rewrite Hy. unfold s1. by rewrite Hr.
    - intros m. by rewrite Hr, Hops. }
  assert (Hother : (forall m, op <> PutMapping m) -> forall m, PutMapping m ∈ ops <-> m ∈ alive).
  { intros Hop m. rewrite Ha, Hp, elem_of_cons. split; [by right|intros [H|]; [|done]]. by destruct (Hop m). }
  destruct op as [c|m|id|ch|p]; try (exists s1; split; [exact E1|]; intros y'; apply Hkeep, Hother; discriminate).
  cbn [run_op]. unfold tegra_drm_mapping_put. cbn [op_res] in E1. rewrite E1. cbn [mbind option_bind].
  assert (Hm : m ∈ alive) by (apply Ha; rewrite Hp; by left).
  assert (Hs1 : MappingRef (mapping_id m) ∈ s1 <-> PutMapping m ∈ ops).
  { apply (mapping_ref_among _ _ pids alive); try done. intros m' Hm'. apply Ha. rewrite Hp. by right. }
  case_decide as Hd.
  { exists s1. split; [done|]. intros y'. apply Hkeep. intros m'. rewrite Ha, Hp, elem_of_cons.
    split; [by right|intros [[= ->]|]; [by apply Hs1|done]]. }
  apply elem_of_Permutation in Hm as [alive' Hal].
  assert (Es : s1 = acquires (object_res m)
    (acquires (alive' ≫= object_res) (acquires (op_res <$> ops) (acquires (PidRef <$> pids) rest)))).
  { unfold s1. rewrite Hal, bind_cons. apply acquires_app. }
  assert (Hn' : (mapping_id m ∉ (mapping_id <$> alive')) /\ NoDup (mapping_id <$> alive')).
  { rewrite Hal in Hn. cbn [fmap list_fmap] in Hn. by apply NoDup_cons in Hn. }
  rewrite Es. unfold tegra_drm_mapping_release. cbn [object_res acquires foldr].
  rewrite release_hit. cbn [mbind option_bind]. rewrite release_hit. cbn [mbind option_bind]. rewrite release_hit.
  eexists. split; [done|]. intros y' Hy Hr. exists alive'. split.
  - by destruct Hn'.
  - rewrite Hy. by rewrite Hr.
  - intros m'. rewrite Hr. destruct (decide (m' = m)) as [->|Hne].
    + rewrite <- Hs1. split; [|done]. intros H. exfalso. destruct Hn' as [Hn' _]. apply Hn'.
      apply list_elem_of_fmap. by exists m.
    + specialize (Ha m'). rewrite Hal, Hp, !elem_of_cons in Ha.
      split; [intros H; destruct Ha as [Ha _]; destruct (Ha (or_intror H)) as [[= ?]|]; congruence|].
      intros H. destruct Ha as [_ Ha]. destruct (Ha (or_intror H)); congruence.
Qed.

(** ** The steps *)
Definition ledger_inv (y : drm_sys) : Prop := exists alive pids, sys_inv rest y alive pids.

(** More references to what is there already. *)
Lemma inv_more y y' news pids' : ledger_inv y ->
  sys_held y' = acquires (op_res <$> news) (acquires (PidRef <$> pids') (sys_held y)) ->
  all_puts y' ≡ₚ news ++ all_puts y ->
  (forall m, PutMapping m ∈ news -> PutMapping m ∈ all_puts y) -> ledger_inv y'.
Proof.
  intros (alive & pids & [Hn Hh Ha]) E Hp Hnew. exists alive, (pids' ++ pids). split; [done| |].
  - rewrite E, Hh, Hp, !fmap_app, !acquires_app. ledger_eq.
  - intros m. rewrite Ha, Hp, elem_of_app. split; [by right|intros [H|H]; [by apply Hnew|done]].
Qed.

Lemma inv_same y y' : ledger_inv y -> sys_held y' = sys_held y -> all_puts y' ≡ₚ all_puts y -> ledger_inv y'.
Proof.
  intros Hi E Hp. apply (inv_more y y' [] []); [done|done|done|]. intros m H. by apply not_elem_of_nil in H.
Qed.

Lemma inv_map s chs sps jobs puts os ctx c m bo phys e i : ledger_inv (DrmSys s chs sps jobs puts os) ->
  chs !! ctx = Some c -> ctx_mappings c !! i = None -> MappingMem m ∉ s ->
  let mapping := DrmMapping m bo phys e in
  ledger_inv (DrmSys (acquires (object_res mapping) (acquire (MappingRef m) s))
        (<[ctx := with_mappings c (<[i := mapping]> (ctx_mappings c))]> chs) sps jobs puts os).
Proof.
  intros (alive & pids & [Hn Hh Ha]) Ec Hid Hfresh mapping. cbn [sys_held] in Hh. exists (mapping :: alive), pids.
  assert (Hr : all_puts (DrmSys (acquires (object_res mapping) (acquire (MappingRef m) s))
      (<[ctx := with_mappings c (<[i := mapping]> (ctx_mappings c))]> chs) sps jobs puts os)
      ≡ₚ PutMapping mapping :: all_puts (DrmSys s chs sps jobs puts os)).
  { rewrite !all_puts_eq, (table_puts_update _ _ c) by done.
    rewrite (table_puts_split chs ctx c), close_with_mappings, with_mappings_id by done. by rewrite <- !app_comm_cons. }
  split.
  - cbn [fmap list_fmap]. apply NoDup_cons. split; [|done]. intros H. apply list_elem_of_fmap in H as (m' & E & Hm').
    apply Hfresh. rewrite Hh, elem_acquires. left. apply list_elem_of_bind. exists m'. split; [|done].
    unfold object_res. cbn [mapping_id mapping] in E. rewrite <- E. set_solver.
  - cbn [sys_held]. rewrite Hr. cbn [fmap list_fmap op_res]. rewrite bind_cons, acquires_app.
    f_equal. rewrite Hh. cbn [acquires foldr mapping_id mapping]. by rewrite acquires_acquire.
  - intros m'. rewrite Hr, !elem_of_cons, Ha. split; (intros [H|H]; [left|by right]); congruence.
Qed.

Lemma unwind_no_mapping c m : PutMapping m ∉ channel_open_unwind c.
Proof. unfold channel_open_unwind. destruct (ctx_memory_context c); set_solver. Qed.

Lemma unwind_close c : ctx_mappings c = ∅ -> tegra_drm_channel_context_close c = channel_open_unwind c.
Proof. unfold tegra_drm_channel_context_close. intros ->. by rewrite map_to_list_empty. Qed.

Lemma inv_prepare s chs sps jobs puts os ans clients fl class res s' :
  ledger_inv (DrmSys s chs sps jobs puts os) ->
  channel_open_prepare ans clients fl class s = Some (res, s') ->
  ledger_inv (DrmSys s' chs sps jobs puts (match res with inl _ => os | inr (c, _) => Opening c None :: os end)).
Proof.
  intros Hi [pids E]%channel_open_prepare_spec. destruct res as [err|[c e]].
  - subst s'. apply (inv_more _ _ [] pids Hi); [done|done|]. intros m H. by apply not_elem_of_nil in H.
  - destruct E as [_ ->]. apply (inv_more _ _ (channel_open_unwind c) pids Hi); [done| |].
    + rewrite !all_puts_eq. cbn [mbind list_bind]. unfold unpublished_puts at 1. cbn [open_id open_ctx].
      solve_Permutation.
    + intros m H. by apply unwind_no_mapping in H.
Qed.

Lemma inv_publish s chs sps jobs puts os1 c os2 id :
  ledger_inv (DrmSys s chs sps jobs puts (os1 ++ Opening c None :: os2)) ->
  chs !! id = None -> ctx_mappings c = ∅ ->
  ledger_inv (DrmSys s (<[id := c]> chs) sps jobs puts (os1 ++ Opening c (Some id) :: os2)).
Proof.
  intros Hi Hid Hc. eapply inv_same; [exact Hi|done|].
  rewrite !all_puts_eq, table_puts_insert, (unwind_close c), !bind_app, !bind_cons by done.
  unfold unpublished_puts at 2 5. cbn [open_id open_ctx]. solve_Permutation.
Qed.

Lemma inv_fail s chs sps jobs puts os1 c os2 :
  ledger_inv (DrmSys s chs sps jobs puts (os1 ++ Opening c None :: os2)) ->
  ledger_inv (DrmSys s chs sps jobs (channel_open_unwind c :: puts) (os1 ++ os2)).
Proof.
  intros Hi. eapply inv_same; [exact Hi|done|].
  rewrite !all_puts_eq, !bind_app, !bind_cons. cbn [concat].
  unfold unpublished_puts at 4. cbn [open_id open_ctx]. solve_Permutation.
Qed.

Lemma inv_init_done s chs sps jobs puts os1 c id os2 :
  ledger_inv (DrmSys s chs sps jobs puts (os1 ++ Opening c (Some id) :: os2)) ->
  ledger_inv (DrmSys s chs sps jobs puts (os1 ++ os2)).
Proof.
  intros Hi. eapply inv_same; [exact Hi|done|].
  by rewrite !all_puts_eq, !bind_app, !bind_cons.
Qed.

Lemma inv_unmap s chs sps jobs puts os ctx i chs' m : ledger_inv (DrmSys s chs sps jobs puts os) ->
  channel_unmap_erase ctx i chs = Some (chs', m) -> ledger_inv (DrmSys s chs' sps jobs ([PutMapping m] :: puts) os).
Proof.
  intros Hi E. unfold channel_unmap_erase in E. destruct (chs !! ctx) as [c|] eqn:Ec; [|done]. cbn [mbind option_bind] in E.
  destruct (ctx_mappings c !! i) as [m'|] eqn:Em; [|done]. injection E as <- <-.
  eapply inv_same; [exact Hi|done|]. rewrite !all_puts_eq. cbn [concat].
  rewrite (table_puts_update _ _ c), (table_puts_split chs ctx c) by done.
  rewrite <- (with_mappings_id c) at 3. rewrite <- (insert_delete_id (ctx_mappings c) i m') at 2 by done.
  rewrite close_with_mappings by apply lookup_delete_eq. cbn [app]. rewrite <- !Permutation_middle. done.
Qed.

Lemma inv_syncpoint_allocate s chs sps jobs puts os aid alloc e err sps' s' : ledger_inv (DrmSys s chs sps jobs puts os) ->
  tegra_drm_ioctl_syncpoint_allocate aid alloc e sps s = Some (err, sps', s') -> ledger_inv (DrmSys s' chs sps' jobs puts os).
Proof.
  intros Hi [[-> ->]|(id & Hin & _ & -> & ->)]%syncpoint_allocate_spec; [done|].
  apply (inv_more _ _ [PutSyncpt id] [] Hi); [done| |set_solver].
  rewrite !all_puts_eq, elements_union_singleton by done. cbn [fmap list_fmap]. solve_Permutation.
Qed.

Lemma inv_syncpoint_free s chs sps jobs puts os id sps' : ledger_inv (DrmSys s chs sps jobs puts os) ->
  syncpoint_free_erase id sps = Some sps' -> ledger_inv (DrmSys s chs sps' jobs ([PutSyncpt id] :: puts) os).
Proof.
  intros Hi E. unfold syncpoint_free_erase in E. case_decide as Hin; [|done]. injection E as <-.
  eapply inv_same; [exact Hi|done|]. rewrite !all_puts_eq. cbn [concat].
  assert (Es : elements sps ≡ₚ id :: elements (sps ∖ {[id]})).
  { rewrite <- elements_union_singleton by set_solver. by rewrite <- union_difference_singleton_L. }
  rewrite Es. cbn [fmap list_fmap]. solve_Permutation.
Qed.

(** ** Contexts that are being opened *)

(** They have no mapping; a published one is in the table. *)
Definition openings_ok (chs : channels) (os : list opening) : Prop :=
  Forall (fun o => ctx_mappings (open_ctx o) = ∅ /\ forall i, open_id o = Some i -> chs !! i = Some (open_ctx o)) os.

Lemma Forall_at {A} (P : A -> Prop) l1 x l2 :
  Forall P (l1 ++ x :: l2) <-> Forall P l1 /\ P x /\ Forall P l2.
Proof. by rewrite Forall_app, Forall_cons. Qed.

Lemma settled_update chs chs' os context :
  openings_ok chs os -> settled os context -> (forall i, i <> context -> chs' !! i = chs !! i) ->
  openings_ok chs' os.
Proof.
  unfold openings_ok, settled. rewrite !Forall_forall. intros Hok Hs Hc o Ho.
  destruct (Hok o Ho) as [Hm Hi]. split; [done|]. intros i Ei. rewrite Hc; [by apply Hi|].
  intros ->. by apply (Hs o Ho).
Qed.

Lemma openings_ok_publish chs os1 c os2 id :
  openings_ok chs (os1 ++ Opening c None :: os2) -> chs !! id = None ->
  openings_ok (<[id := c]> chs) (os1 ++ Opening c (Some id) :: os2).
Proof.
  intros (H1 & (Hc & _) & H2)%Forall_at Hid.
  assert (Hk : forall os, openings_ok chs os -> openings_ok (<[id := c]> chs) os).
  { intros os H. eapply Forall_impl; [exact H|]. intros o [Hm Hi]. split; [done|]. intros i Ei.
    rewrite lookup_insert_ne; [by apply Hi|]. intros ->. specialize (Hi _ Ei). congruence. }
  apply Forall_at. split; [by apply Hk|]. split; [|by apply Hk]. split; [done|].
  intros i [= <-]. apply lookup_insert_eq.
Qed.

Lemma openings_ok_drop chs os1 o os2 : openings_ok chs (os1 ++ o :: os2) -> openings_ok chs (os1 ++ os2).
Proof. intros (? & _ & ?)%Forall_at. by apply Forall_app. Qed.

Definition inv (y : drm_sys) : Prop := ledger_inv y /\ openings_ok (sys_chs y) (sys_opening y).

Lemma ledger_step_inv y y' : inv y -> drm_step y y' -> ledger_inv y'.
Proof.
  intros [Hi Hok] Hs. destruct Hs as [s chs sps jobs puts os ans clients fl class r s' E
    |s chs sps jobs puts os1 c os2 id Hid|s chs sps jobs puts os1 c os2|s chs sps jobs puts os1 c id os2 _
    |s chs sps jobs puts os ans ctx fl err chs' s' Hset Hfresh Hid E|s chs sps jobs puts os ctx i chs' m Hset E
    |s chs sps jobs puts os ctx chs' c Hset E|s chs sps jobs puts os aid alloc e err sps' s' E|s chs sps jobs puts os id sps' E
    |s chs sps jobs puts os ctx c ks ms s' Hset Hc E|s chs sps jobs1 ms jobs2 puts os|s chs sps jobs puts
    |s chs sps jobs puts1 op ops puts2 os s' E].
  - by eapply inv_prepare.
  - apply inv_publish; [done|done|]. by apply Forall_at in Hok as (_ & [Hc _] & _).
  - by apply inv_fail.
  - by eapply inv_init_done.
  - apply channel_map_spec in E as [[-> ->]|(c & m & bo & phys & size & i & Em & Ei & Ec & -> & ->)]; [done|].
    by apply inv_map; [| |apply (Hid c i)|apply Hfresh].
  - by eapply inv_unmap.
  - unfold channel_close_erase in E. destruct (chs !! ctx) as [c'|] eqn:Ec; [|done]. injection E as <- <-.
    eapply inv_same; [exact Hi|done|]. rewrite !all_puts_eq. cbn [concat]. rewrite (table_puts_split chs ctx c') by done. rewrite <- !app_assoc.
    solve_Permutation.
  - by eapply inv_syncpoint_allocate.
  - by eapply inv_syncpoint_free.
  - apply get_mappings_spec in E as [-> Hf]. eapply (inv_more _ _ (PutMapping <$> ms) [] Hi); [done| |].
    + rewrite !all_puts_eq. cbn [concat]. rewrite fmap_app. solve_Permutation.
    + intros m (m' & [= <-] & Hm)%list_elem_of_fmap. rewrite Forall_forall in Hf. destruct (Hf m Hm) as (i & Hi').
      rewrite all_puts_eq, !elem_of_app.
      left. left. by eapply in_table.
  - eapply inv_same; [exact Hi|done|]. rewrite !all_puts_eq.
    rewrite !concat_app. cbn [concat]. rewrite !fmap_app. solve_Permutation.
  - eapply inv_same; [exact Hi|done|]. rewrite !all_puts_eq. cbn [concat].
    change (table_puts ∅ ++ (PutSyncpt <$> elements ∅)) with (@nil put_op). solve_Permutation.
  - destruct Hi as (alive & pids & Hi).
    destruct (put_step _ alive pids op (all_puts (DrmSys s' chs sps jobs (puts1 ++ ops :: puts2) os)) Hi) as (s1 & E1 & Hinv).
    { rewrite !all_puts_eq. rewrite !concat_app. cbn [concat]. solve_Permutation. }
    cbn [sys_held] in E1. rewrite E in E1. injection E1 as <-.
    destruct (Hinv (DrmSys s' chs sps jobs (puts1 ++ ops :: puts2) os)) as (alive' & Hi'); [done|done|]. by exists alive', pids.
Qed.

Lemma openings_step_inv y y' : inv y -> drm_step y y' -> openings_ok (sys_chs y') (sys_opening y').
Proof.
  intros [_ Hok] Hs. destruct Hs as [s chs sps jobs puts os ans clients fl class r s' E
    |s chs sps jobs puts os1 c os2 id Hid| | |s chs sps jobs puts os ans ctx fl err chs' s' Hset _ _ E
    |s chs sps jobs puts os ctx i chs' m Hset E|s chs sps jobs puts os ctx chs' c Hset E| | | | | |];
    cbn [sys_chs sys_opening] in *; try done.
  - apply channel_open_prepare_spec in E as [pids E]. destruct r as [|[c e]]; [done|].
    constructor; [|done]. split; [apply E|done].
  - by apply openings_ok_publish.
  - by apply openings_ok_drop in Hok.
  - by apply openings_ok_drop in Hok.
  - apply channel_map_spec in E as [[-> ->]|(c & m & bo & phys & size & i & _ & _ & _ & -> & _)]; [done|].
    eapply settled_update; [done..|]. intros j Hj. by rewrite lookup_insert_ne.
  - unfold channel_unmap_erase in E. destruct (chs !! ctx) as [c|] eqn:Ec; [|done]. cbn [mbind option_bind] in E.
    destruct (ctx_mappings c !! i) as [m'|]; [|done]. injection E as <- <-.
    eapply settled_update; [done..|]. intros j Hj. by rewrite lookup_insert_ne.
  - unfold channel_close_erase in E. destruct (chs !! ctx) as [c'|]; [|done]. injection E as <- <-.
    eapply settled_update; [done..|]. intros j Hj. by rewrite lookup_delete_ne.
  - constructor.
Qed.

Lemma uapi_inv_step y y' : inv y -> drm_step y y' -> inv y'.
Proof. intros Hi Hs. split; [by eapply ledger_step_inv|by eapply openings_step_inv]. Qed.

Lemma inv_steps y y' : inv y -> rtc drm_step y y' -> inv y'.
Proof. intros Hi Hs. revert Hi. induction Hs; [done|]. intros Hi. by eauto using uapi_inv_step. Qed.

(** ** Every put succeeds, so the file can always be closed *)
Lemma inv_put y op : inv y -> op ∈ all_puts y -> is_Some (run_op op (sys_held y)).
Proof.
  intros [(alive & pids & Hi) _] [ops Hp]%elem_of_Permutation.
  destruct (put_step y alive pids op ops Hi Hp) as (s' & -> & _). by exists s'.
Qed.

(** The context a channel_open is about to initialise is still there. *)
Lemma opening_held y o : inv y -> o ∈ sys_opening y -> ContextMem (ctx_addr (open_ctx o)) ∈ sys_held y.
Proof.
  intros [(alive & pids & [_ Hh _]) Hok] Ho.
  assert (Hp : FreeContext (ctx_addr (open_ctx o)) ∈ all_puts y).
  { unfold all_puts, tegra_drm_uapi_close_file. rewrite !elem_of_app.
    pose proof (proj1 (Forall_forall _ _) Hok o Ho) as [Hm Hi]. destruct (open_id o) as [i|] eqn:Ei.
    - left. left. apply list_elem_of_bind. exists (open_ctx o). split.
      + unfold tegra_drm_channel_context_close. set_solver.
      + apply list_elem_of_fmap. exists (i, open_ctx o). split; [done|].
        apply elem_of_map_to_list. by apply Hi.
    - do 3 right. apply list_elem_of_bind. exists o. split; [|done].
      unfold unpublished_puts. rewrite Ei. unfold channel_open_unwind. set_solver. }
  rewrite Hh, !elem_acquires. right. left. apply list_elem_of_fmap. by exists (FreeContext (ctx_addr (open_ctx o))).
Qed.

(** Every channel_open can finish: one that is not published by failing. *)
Lemma finish_opening os : forall s chs sps jobs puts, inv (DrmSys s chs sps jobs puts os) ->
  exists puts', rtc drm_step (DrmSys s chs sps jobs puts os) (DrmSys s chs sps jobs puts' []).
Proof.
  induction os as [|[c [i|]] os IH]; intros s chs sps jobs puts Hi; [by exists puts| |].
  - assert (Hs : drm_step (DrmSys s chs sps jobs puts (Opening c (Some i) :: os)) (DrmSys s chs sps jobs puts os)).
    { apply (step_open_init s chs sps jobs puts [] c i os). apply (opening_held _ (Opening c (Some i)) Hi). by left. }
    destruct (IH s chs sps jobs puts) as [puts' H]; [by eapply uapi_inv_step|].
    exists puts'. by eapply rtc_l.
  - pose proof (step_open_fail s chs sps jobs puts [] c os) as Hs. cbn [app] in Hs.
    destruct (IH s chs sps jobs (channel_open_unwind c :: puts)) as [puts' H]; [by eapply uapi_inv_step|].
    exists puts'. by eapply rtc_l.
Qed.

Lemma complete_all s chs sps jobs puts os :
  exists puts', rtc drm_step (DrmSys s chs sps jobs puts os) (DrmSys s chs sps [] puts' os).
Proof.
  revert puts. induction jobs as [|ms jobs IH]; intros puts; [by exists puts|].
  destruct (IH ((PutMapping <$> ms) :: puts)) as [puts' H]. exists puts'.
  eapply rtc_l; [|exact H]. apply (step_complete s chs sps [] ms jobs puts os).
Qed.

Lemma first_put (puts : list (list put_op)) : concat puts = [] \/
  exists puts1 op ops puts2, puts = puts1 ++ (op :: ops) :: puts2.
Proof.
  induction puts as [|[|op ops] puts IH]; [by left| |by right; exists [], op, ops, puts].
  destruct IH as [H|(p1 & op & ops & p2 & ->)]; [by left|]. right. by exists ([] :: p1), op, ops, p2.
Qed.

Lemma run_puts n s puts : length (concat puts) = n -> inv (DrmSys s ∅ ∅ [] puts []) ->
  exists s' puts', rtc drm_step (DrmSys s ∅ ∅ [] puts []) (DrmSys s' ∅ ∅ [] puts' []) /\ concat puts' = [].
Proof.
  revert s puts. induction n as [|n IH]; intros s puts Hn Hi.
  - exists s, puts. split; [done|]. by apply length_zero_iff_nil.
  - destruct (first_put puts) as [H|(p1 & op & ops & p2 & ->)]; [by rewrite H in Hn|].
    destruct (inv_put _ op Hi) as [s' E].
    { rewrite all_puts_eq, concat_app. cbn [concat]. rewrite !elem_of_app, elem_of_cons. tauto. }
    assert (Hs : drm_step (DrmSys s ∅ ∅ [] (p1 ++ (op :: ops) :: p2) []) (DrmSys s' ∅ ∅ [] (p1 ++ ops :: p2) []))
      by (by apply step_put).
    destruct (IH s' (p1 ++ ops :: p2)) as (s2 & p' & Hr & Hp).
    + rewrite concat_app in *. cbn [concat] in *. rewrite !length_app in *. cbn [length] in Hn. lia.
    + by eapply uapi_inv_step.
    + exists s2, p'. split; [|done]. by eapply rtc_l.
Qed.

Lemma inv_quiet s puts : inv (DrmSys s ∅ ∅ [] puts []) -> concat puts = [] ->
  exists pids : list ptr, s = acquires (PidRef <$> pids) rest.
Proof.
  intros [(alive & pids & [_ Hh Ha]) _] Hp. exists pids.
  assert (Hall : all_puts (DrmSys s ∅ ∅ [] puts []) = []) by (by rewrite all_puts_eq, Hp).
  rewrite Hall in Hh, Ha. cbn [sys_held] in Hh. rewrite Hh.
  destruct alive as [|m alive]; [done|]. destruct (Ha m) as [H _]. by specialize (H ltac:(by left)) as ?%not_elem_of_nil.
Qed.

Lemma drains y : inv y -> exists s puts, rtc drm_step y (DrmSys s ∅ ∅ [] puts []) /\ concat puts = [].
Proof.
  intros Hi. destruct y as [s chs sps jobs puts os].
  destruct (finish_opening os s chs sps jobs puts Hi) as [puts0 H0].
  destruct (complete_all s ∅ ∅ jobs (tegra_drm_uapi_close_file chs sps :: puts0) []) as [puts1 Hc].
  assert (Hr : rtc drm_step (DrmSys s chs sps jobs puts os) (DrmSys s ∅ ∅ [] puts1 [])).
  { etransitivity; [exact H0|]. eapply rtc_l; [apply step_close_file|exact Hc]. }
  destruct (run_puts (length (concat puts1)) s puts1) as (s' & puts' & Hr' & Hp); [done|by eapply inv_steps|].
  exists s', puts'. split; [by etransitivity|done].
Qed.

Lemma inv_start : inv (DrmSys rest ∅ ∅ [] [] []).
Proof. split; [|constructor]. exists [], []. split; [constructor|done|]. intros m. set_solver. Qed.
End invariant.

(** ** The life of a mapping *)

(** C21. The life of a mapping, under any interleaving of what uses it: the ioctls of a file
    that open and close channels, map, unmap and submit, the completion of jobs, and the
    single puts that threads make outside the lock.  tegra_drm_ioctl_channel_open holds no
    lock and runs in its three steps: up to xa_alloc, the publication or the unwinding, the
    initialisation.  In every reachable state a mapping that a channel's table, a job or a
    thread refers to is pinned and its buffer is referenced; a put never hits an object that
    is gone; the context a channel_open is about to initialise is still allocated; and the
    running channel_opens can return and the file be closed, after which nothing is left but
    the references to pids that opening a channel takes.  Condition: an ioctl names a context
    only once the channel_open that makes it has returned ([settled]); for a user who
    guesses the identifier earlier the statement is false ([early_close_frees]). *)
Theorem mapping_lifetime (rest : ledger) (y : drm_sys) :
  (forall r, mapping_resource r -> r ∉ rest) ->
  rtc drm_step (DrmSys rest ∅ ∅ [] [] []) y ->
  (forall m, PutMapping m ∈ all_puts y ->
     BoPin (mapping_id m) ∈ sys_held y /\ GemRef (mapping_bo m) ∈ sys_held y /\ MappingMem (mapping_id m) ∈ sys_held y) /\
  (forall op, op ∈ all_puts y -> is_Some (run_op op (sys_held y))) /\
  (forall o, o ∈ sys_opening y -> ContextMem (ctx_addr (open_ctx o)) ∈ sys_held y) /\
  (forall s puts, y = DrmSys s ∅ ∅ [] puts [] -> concat puts = [] ->
     exists pids : list ptr, s = acquires (PidRef <$> pids) rest) /\
  exists s puts, rtc drm_step y (DrmSys s ∅ ∅ [] puts []) /\ concat puts = [].
Proof.
  intros Hrest Hs. pose proof (inv_steps rest Hrest _ _ (inv_start rest Hrest) Hs) as Hi. split_and!.
  - intros m Hm. destruct Hi as [(alive & pids & Hi) _]. by eapply object_held.
  - intros op Hop. by eapply inv_put.
  - intros o Ho. by eapply opening_held.
  - intros s puts -> Hp. by apply (inv_quiet rest s puts).
  - by apply (drains rest Hrest y Hi).
Qed.

(** Run alone, the ioctl is its steps. *)
Lemma channel_open_steps ans clients flags class chs s sps jobs puts os err out chs' s' :
  (forall id, xa_alloc_context ans = inr id -> chs !! id = None) ->
  tegra_drm_ioctl_channel_open ans clients flags class chs s = Some (err, out, chs', s') ->
  exists puts', concat puts' = concat puts /\
    rtc drm_step (DrmSys s chs sps jobs puts os) (DrmSys s' chs' sps jobs puts' os).
Proof.
  unfold tegra_drm_ioctl_channel_open. intros Hid.
  destruct (channel_open_prepare _ _ _ _ s) as [[[err'|[c e]] s1]|] eqn:E; [| |done]; cbn [mbind option_bind]; intros H.
  - simplify_eq. exists puts. split; [done|]. apply rtc_once.
    by apply (step_open_prepare s chs' sps jobs puts os ans clients flags class (inl err) s').
  - pose proof (step_open_prepare s chs sps jobs puts os ans clients flags class _ s1 E) as Hp. cbv iota in Hp.
    apply channel_open_prepare_spec in E as (pids & Em & ->).
    destruct (xa_alloc_context ans) as [err'|id].
    + rewrite unwind_undoes in H. simplify_eq/=. exists ([] :: puts). split; [done|].
      eapply rtc_l; [exact Hp|]. eapply rtc_l; [apply (step_open_fail _ _ _ _ _ [] c os)|]. cbn [app].
      unfold channel_open_unwind. destruct (ctx_memory_context c) as [mc|];
        cbn [app fmap list_fmap op_res acquires foldr];
        repeat (eapply rtc_l; [apply (step_put _ _ _ _ []); cbn [run_op]; unfold host1x_memory_context_put; apply release_hit|]);
        apply rtc_refl.
    + simplify_eq. exists puts. split; [done|]. eapply rtc_l; [exact Hp|].
      eapply rtc_l; [apply (step_open_publish _ _ _ _ _ [] c os id); by apply Hid|].
      apply rtc_once. apply (step_open_init _ _ _ _ _ [] c id os). rewrite elem_acquires. left.
      apply list_elem_of_fmap. exists (FreeContext (ctx_addr c)). split; [done|].
      unfold channel_open_unwind. set_solver.
Qed.

(** gr2d's channel with a memory context is opened, a buffer mapped, a job submitted, and
    the buffer unmapped while the job runs: the mapping is still pinned. *)
Definition example_engine : drm_engine := DrmEngine gr2d (Some 3%positive) true (Some (inr true)) 1 false.
Definition example_channel : tegra_drm_context := DrmContext gr2d ∅ (Some 6%positive) 5 3.
Definition example_buffer : tegra_drm_mapping := DrmMapping 7 9 4096 8192.
Definition example_opened : ledger := acquires [MemctxRef 6; PidRef 8; ChannelRef 3; ContextMem 5] ∅.
Definition example_held : ledger :=
  acquire (MappingRef 7) (acquires (object_res example_buffer) (acquire (MappingRef 7) example_opened)).

(** The channel published, not yet initialised. *)
Lemma uapi_example_publish : rtc drm_step (DrmSys ∅ ∅ ∅ [] [] [])
  (DrmSys example_opened (<[1 := example_channel]> ∅) ∅ [] [] [Opening example_channel (Some 1)]).
Proof.
  eapply rtc_l.
  { apply (step_open_prepare ∅ ∅ ∅ [] [] [] (OpenAnswers (Some 5%positive) None 8 (inr 6%positive) (inr 1))
      [example_engine] 0 HOST1X_CLASS_GR2D (inr (example_channel, example_engine)) example_opened).
    reflexivity. }
  eapply rtc_l; [apply (step_open_publish _ _ _ _ _ [] example_channel [] 1); done|]. apply rtc_refl.
Qed.

Lemma uapi_example_run : rtc drm_step (DrmSys ∅ ∅ ∅ [] [] [])
  (DrmSys example_held {[1 := example_channel]} ∅ [[example_buffer]] [[PutMapping example_buffer]] []).
Proof.
  etransitivity; [exact uapi_example_publish|].
  eapply rtc_l.
  { apply (step_open_init _ _ _ _ _ [] example_channel 1 []). unfold example_opened. rewrite elem_acquires. left.
    cbn [ctx_addr example_channel]. set_solver. }
  eapply rtc_l.
  { eapply (step_map _ _ ∅ [] [] _ (MapAnswers (Some 7%positive) (Some (9%positive, 4096)) (fun _ => inr 4096) (inr 2)) 1 3 0).
    - constructor.
    - intros m [= <-] H. unfold example_opened, acquires in H. cbn [foldr] in H. rewrite !elem_acquire in H.
      destruct H as [H|[H|[H|[H|H]]]]; try discriminate H. clear -H. multiset_solver.
    - intros c i [= <-] [= <-]. done.
    - unfold tegra_drm_ioctl_channel_map. cbv zeta. cbn [negb]. rewrite lookup_insert_eq. ledger_step. reflexivity. }
  eapply rtc_l.
  { eapply (step_submit _ _ _ _ _ _ 1 _ [2]); [constructor|apply lookup_insert_eq|]. cbn [get_mappings ctx_mappings with_mappings].
    unfold tegra_drm_mapping_get. rewrite lookup_insert_eq. reflexivity. }
  eapply rtc_l; [|apply rtc_refl].
  apply (step_unmap _ _ _ _ _ _ 1 2); [constructor|]. unfold channel_unmap_erase. rewrite lookup_insert_eq. cbn [mbind option_bind ctx_mappings with_mappings].
  rewrite lookup_insert_eq. cbn [mbind option_bind]. by rewrite insert_insert_eq.
Qed.

Lemma mapping_lifetime_witness : BoPin 7 ∈ example_held /\ is_Some (tegra_drm_mapping_put example_buffer example_held) /\
  exists s puts, rtc drm_step (DrmSys example_held {[1 := example_channel]} ∅ [[example_buffer]] [[PutMapping example_buffer]] [])
    (DrmSys s ∅ ∅ [] puts []) /\ concat puts = [].
Proof.
  assert (Hrest : forall r, mapping_resource r -> r ∉ (∅ : ledger)) by (intros r _; multiset_solver).
  pose proof (mapping_lifetime ∅ _ Hrest uapi_example_run) as (H1 & H2 & _ & _ & H3).
  assert (Hin : PutMapping example_buffer ∈ all_puts
    (DrmSys example_held {[1 := example_channel]} ∅ [[example_buffer]] [[PutMapping example_buffer]] [])).
  { rewrite all_puts_eq. cbn [concat]. rewrite !elem_of_app. right. left. by left. }
  split_and!; [by apply (H1 example_buffer)|by apply (H2 (PutMapping example_buffer))|exact H3].
Defined.

(** A close that names the published context while tegra_drm_ioctl_channel_open has not
    initialised it: its puts succeed and free the context, to which the open then stores. *)
Lemma early_close_frees :
  exists s, channel_close_erase 1 {[1 := example_channel]} = Some (∅, example_channel) /\
    run_ops (tegra_drm_channel_context_close example_channel) example_opened = Some s /\
    ContextMem (ctx_addr example_channel) ∉ s.
Proof.
  exists (acquire (PidRef 8) ∅). split_and!.
  - unfold channel_close_erase. rewrite lookup_singleton_eq. cbn [mbind option_bind]. by rewrite delete_singleton_eq.
  - unfold tegra_drm_channel_context_close, example_opened. cbn [ctx_memory_context example_channel ctx_mappings].
    rewrite map_to_list_empty. cbn [app fmap list_fmap run_ops run_op acquires foldr]. unfold host1x_memory_context_put.
    ledger_step. done.
  - rewrite elem_acquire. intros [H|H]; [discriminate H|multiset_solver].
Qed.
