(* ===== verification/Host1xContext.v ===== *)
(** Host1x's memory contexts (src/drivers/gpu/host1x/context.c): one IOMMU context,
    with a stream ID of its own, for every process that uses an engine.

    A process may allocate, duplicate and put its context from several threads.  The
    list's lock makes an allocation one step; a put is one step when another reference is
    left, and two when it takes the lock for the last one, with whatever other threads do
    in between. *)
From S2P Require Import Prelude.

#[local] Open Scope Z_scope.

Definition EOPNOTSUPP := 95.

(** [cd_iommu] is dev.iommu->iommu_dev. *)
Record host1x_memory_context := MemoryContext {
  cd_iommu : ptr;
  cd_ref : Z;
  cd_owner : option ptr;
  cd_stream_id : Z }.

Definition set_ref (cd : host1x_memory_context) (r : Z) :=
  MemoryContext (cd_iommu cd) r (cd_owner cd) (cd_stream_id cd).
Definition set_owner (cd : host1x_memory_context) (o : option ptr) :=
  MemoryContext (cd_iommu cd) (cd_ref cd) o (cd_stream_id cd).

(** linux/refcount.h: a count of 0 is not taken from, nor is one that has saturated. *)
Definition REFCOUNT_MAX := 2 ^ 31 - 1.
Definition refcount_inc (r : Z) : option Z := if (0 <? r) && (r <? REFCOUNT_MAX) then Some (r + 1) else None.

(** * Setting up the list *)

(** What device_add, of_dma_configure_id and the IOMMU answer for a context device. *)
Record device_answers := DeviceAnswers {
  device_add : Z;
  of_dma_configure_id : Z;
  iommu_fwspec : option (Z * ptr) }.        (* ids[0] and the IOMMU, if there is one *)

(** The error, the contexts, and the devices that stay registered.  The C returns [err] in
    the branch for a missing fwspec without setting it: it is then 0. *)
Fixpoint context_init_loop (answers : list device_answers) (i : nat) (registered : list nat)
    (devs : list host1x_memory_context) : Z * list host1x_memory_context * list nat :=
  match answers with
  | [] => (0, devs, registered)
  | a :: answers =>
      if negb (device_add a =? 0) then (device_add a, [], [])
      else if negb (of_dma_configure_id a =? 0) then (of_dma_configure_id a, [], [])
      else
        match iommu_fwspec a with
        | Some (id, iommu) =>
            context_init_loop answers (S i) (registered ++ [i])
              (devs ++ [MemoryContext iommu 0 None (Z.land id 0xffff)])
        | None => (of_dma_configure_id a, [], [])
        end
  end.

Definition host1x_memory_context_list_init (elems : Z) (alloc : bool) (answers : nat -> device_answers)
    : Z * list host1x_memory_context * list nat :=
  if elems <? 0 then (0, [], [])
  else
    let len := Z.to_nat (elems / 4) in
    if negb alloc then (- ENOMEM, [], [])
    else context_init_loop (answers <$> seq 0 len) 0 [] [].

(** * Taking and putting a context *)

(** The loop of host1x_memory_context_alloc: the context of this process, or the first
    free one. *)
Fixpoint context_scan (iommu pid : ptr) (devs : list host1x_memory_context) (i : nat) (free : option nat)
    : nat + option nat :=
  match devs with
  | [] => inr free
  | cd :: devs =>
      if decide (cd_iommu cd <> iommu) then context_scan iommu pid devs (S i) free
      else if decide (cd_owner cd = Some pid) then inl i
      else
        context_scan iommu pid devs (S i)
          (match cd_owner cd, free with None, None => Some i | _, _ => free end)
  end.

Definition host1x_memory_context_alloc (iommu pid : ptr) (devs : list host1x_memory_context)
    : option ((Z + nat) * list host1x_memory_context) :=
  if Nat.eqb (length devs) 0 then Some (inl (- EOPNOTSUPP), devs)
  else
    match context_scan iommu pid devs 0 None with
    | inl i => cd ← devs !! i; r ← refcount_inc (cd_ref cd); Some (inr i, <[i := set_ref cd r]> devs)
    | inr None => Some (inl (- EBUSY), devs)
    | inr (Some i) => cd ← devs !! i; Some (inr i, <[i := set_owner (set_ref cd 1) (Some pid)]> devs)
    end.

Definition host1x_memory_context_get (i : nat) (devs : list host1x_memory_context) : option (list host1x_memory_context) :=
  cd ← devs !! i; r ← refcount_inc (cd_ref cd); Some (<[i := set_ref cd r]> devs).

(** refcount_dec_not_one, the fast half of refcount_dec_and_mutex_lock: [None] when the
    count is 1. *)
Definition context_put_fast (i : nat) (devs : list host1x_memory_context) : option (list host1x_memory_context) :=
  cd ← devs !! i;
  if cd_ref cd =? 1 then None else Some (<[i := set_ref cd (cd_ref cd - 1)]> devs).

(** Under the lock: refcount_dec_and_test, and the end of host1x_memory_context_put. *)
Definition context_put_locked (i : nat) (devs : list host1x_memory_context) : option (list host1x_memory_context) :=
  cd ← devs !! i;
  if cd_ref cd <=? 0 then None
  else
    let cd := set_ref cd (cd_ref cd - 1) in
    Some (<[i := if cd_ref cd =? 0 then set_owner cd None else cd]> devs).

(** * The system: references held, and puts that wait for the lock *)
Record ctx_sys := CtxSys {
  cs_devs : list host1x_memory_context;
  cs_refs : list (nat * ptr);        (* the context, and the process that allocated it *)
  cs_waiting : list (nat * ptr) }.

Inductive ctx_step : ctx_sys -> ctx_sys -> Prop :=
  | ctx_alloc devs refs waiting iommu pid i devs' :
      host1x_memory_context_alloc iommu pid devs = Some (inr i, devs') ->
      ctx_step (CtxSys devs refs waiting) (CtxSys devs' ((i, pid) :: refs) waiting)
  | ctx_alloc_fails devs refs waiting iommu pid err devs' :
      host1x_memory_context_alloc iommu pid devs = Some (inl err, devs') ->
      ctx_step (CtxSys devs refs waiting) (CtxSys devs' refs waiting)
  | ctx_get devs refs waiting i pid devs' :
      (i, pid) ∈ refs -> host1x_memory_context_get i devs = Some devs' ->
      ctx_step (CtxSys devs refs waiting) (CtxSys devs' ((i, pid) :: refs) waiting)
  | ctx_put_fast devs refs1 i pid refs2 waiting devs' :
      context_put_fast i devs = Some devs' ->
      ctx_step (CtxSys devs (refs1 ++ (i, pid) :: refs2) waiting) (CtxSys devs' (refs1 ++ refs2) waiting)
  | ctx_put_wait devs refs1 i pid refs2 waiting :
      context_put_fast i devs = None ->
      ctx_step (CtxSys devs (refs1 ++ (i, pid) :: refs2) waiting) (CtxSys devs (refs1 ++ refs2) ((i, pid) :: waiting))
  | ctx_put_locked devs refs waiting1 i pid waiting2 devs' :
      context_put_locked i devs = Some devs' ->
      ctx_step (CtxSys devs refs (waiting1 ++ (i, pid) :: waiting2)) (CtxSys devs' refs (waiting1 ++ waiting2)).

(** * The invariant *)
Definition holders (y : ctx_sys) : list (nat * ptr) := cs_refs y ++ cs_waiting y.
Definition count (i : nat) (l : list (nat * ptr)) : nat := length (filter (fun h => h.1 = i) l).

Record ctx_inv (y : ctx_sys) : Prop := {
  ci_ref : forall i cd, cs_devs y !! i = Some cd -> cd_ref cd = Z.of_nat (count i (holders y));
  ci_free : forall i cd, cs_devs y !! i = Some cd -> (cd_owner cd = None <-> cd_ref cd = 0);
  ci_owner : forall i pid, (i, pid) ∈ holders y -> exists cd, cs_devs y !! i = Some cd /\ cd_owner cd = Some pid;
  ci_single : forall i k ci ck pid, cs_devs y !! i = Some ci -> cs_devs y !! k = Some ck ->
    cd_iommu ci = cd_iommu ck -> cd_owner ci = Some pid -> cd_owner ck = Some pid -> i = k
}.

(** A list whose contexts are all free. *)
Definition all_free (devs : list host1x_memory_context) : Prop :=
  Forall (fun cd => cd_ref cd = 0 /\ cd_owner cd = None) devs.

Lemma count_cons i j pid l : count i ((j, pid) :: l) = ((if decide (j = i) then 1 else 0) + count i l)%nat.
Proof. unfold count. rewrite filter_cons. cbn [fst]. by case_decide. Qed.
#[export] Instance count_perm i : Proper ((≡ₚ) ==> (=)) (count i).
Proof. intros l l' H. unfold count. by rewrite H. Qed.
Lemma count_pos i pid l : (i, pid) ∈ l -> (0 < count i l)%nat.
Proof. intros [l' ->]%elem_of_Permutation. rewrite count_cons, decide_True by done. lia. Qed.
Lemma count_zero i l : count i l = 0%nat -> forall pid, (i, pid) ∉ l.
Proof. intros H pid Hin%count_pos. lia. Qed.

(** ** The scan *)
Lemma context_scan_spec iommu pid devs i free :
  match context_scan iommu pid devs i free with
  | inl k => exists cd, (i <= k)%nat /\ devs !! (k - i)%nat = Some cd /\ cd_iommu cd = iommu /\ cd_owner cd = Some pid
  | inr r =>
      (forall k cd, devs !! k = Some cd -> cd_iommu cd = iommu -> cd_owner cd <> Some pid) /\
      match free with
      | Some f => r = Some f
      | None =>
          match r with
          | Some k => exists cd, (i <= k)%nat /\ devs !! (k - i)%nat = Some cd /\ cd_iommu cd = iommu /\ cd_owner cd = None
          | None => forall k cd, devs !! k = Some cd -> cd_iommu cd = iommu -> cd_owner cd <> None
          end
      end
  end.
Proof.
  revert i free. induction devs as [|cd devs IH]; intros i free; cbn [context_scan].
  { split; [done|]. by destruct free. }
  destruct (decide (cd_iommu cd <> iommu)) as [Hi|Hi%dec_stable].
  - specialize (IH (S i) free). destruct (context_scan _ _ _ _ _) as [k|r].
    + destruct IH as (c & Hk & Hc & ?). exists c. split; [lia|]. split; [|done]. by replace (k - i)%nat with (S (k - S i)) by lia.
    + destruct IH as [IH1 IH2]. split; [intros [|k] c; [cbn; intros [= <-]; congruence|apply IH1]|].
      destruct free; [done|]. destruct r as [k|].
      * destruct IH2 as (c & Hk & Hc & ?). exists c. split; [lia|]. split; [|done]. by replace (k - i)%nat with (S (k - S i)) by lia.
      * intros [|k] c; [cbn; intros [= <-]; congruence|apply IH2].
  - case_decide as Ho; [exists cd; split_and!; [lia|by rewrite Nat.sub_diag|done|done]|].
    specialize (IH (S i) (match cd_owner cd, free with None, None => Some i | _, _ => free end)).
    destruct (context_scan _ _ _ _ _) as [k|r].
    + destruct IH as (c & Hk & Hc & ?). exists c. split; [lia|]. split; [|done]. by replace (k - i)%nat with (S (k - S i)) by lia.
    + destruct IH as [IH1 IH2]. split; [intros [|k] c; [by cbn; intros [= <-]|apply IH1]|].
      destruct free as [f|]; [by destruct (cd_owner cd)|]. destruct (cd_owner cd) as [o|] eqn:Eo.
      * destruct r as [k|].
        -- destruct IH2 as (c & Hk & Hc & ?). exists c. split; [lia|]. split; [|done]. by replace (k - i)%nat with (S (k - S i)) by lia.
        -- intros [|k] c; [cbn; intros [= <-]; congruence|apply IH2].
      * subst r. exists cd. split_and!; [lia|by rewrite Nat.sub_diag|done|done].
Qed.

(** ** The steps *)

(** A step that writes the context [i], and leaves the others and their holders alone. *)
Lemma inv_update y y' i cd cd' : ctx_inv y ->
  cs_devs y !! i = Some cd -> cs_devs y' = <[i := cd']> (cs_devs y) -> cd_iommu cd' = cd_iommu cd ->
  (forall k, k <> i -> count k (holders y') = count k (holders y)) ->
  (forall k p, k <> i -> (k, p) ∈ holders y' -> (k, p) ∈ holders y) ->
  cd_ref cd' = Z.of_nat (count i (holders y')) ->
  (forall p, (i, p) ∈ holders y' -> cd_owner cd' = Some p) ->
  (cd_owner cd' = None <-> cd_ref cd' = 0) ->
  (forall pid, cd_owner cd' = Some pid -> cd_owner cd = Some pid \/
     forall k ck, cs_devs y !! k = Some ck -> cd_iommu ck = cd_iommu cd -> cd_owner ck <> Some pid) ->
  ctx_inv y'.
Proof.
  intros [Hr Hf Ho Hs] Hi Hd Hio Hc Hh Hr' Ho' Hf' Hs'.
  assert (Hlt : (i < length (cs_devs y))%nat) by (by eapply lookup_lt_Some).
  assert (Hget : forall k c, cs_devs y' !! k = Some c -> k = i /\ c = cd' \/ k <> i /\ cs_devs y !! k = Some c).
  { intros k c. rewrite Hd. destruct (decide (k = i)) as [->|Hne].
    - rewrite list_lookup_insert_eq by done. intros [= <-]. by left.
    - rewrite list_lookup_insert_ne by done. by right. }
  split.
  - intros k c [[-> ->]|[Hne E]]%Hget; [done|]. rewrite Hc by done. by apply Hr.
  - intros k c [[-> ->]|[Hne E]]%Hget; [done|]. by apply (Hf k).
  - intros k p Hin. rewrite Hd. destruct (decide (k = i)) as [->|Hne].
    + exists cd'. rewrite list_lookup_insert_eq by done. split; [done|]. by apply Ho'.
    + rewrite list_lookup_insert_ne by done. by apply Ho, Hh.
  - intros k1 k2 c1 c2 pid [[-> ->]|[Hne1 E1]]%Hget [[-> ->]|[Hne2 E2]]%Hget Eio O1 O2; [done| | |by eapply Hs].
    + exfalso. destruct (Hs' pid O1) as [O|O]; [|by apply (O k2 c2 E2); congruence].
      apply Hne2. symmetry. eapply (Hs i k2); eauto; congruence.
    + exfalso. destruct (Hs' pid O2) as [O|O]; [|by apply (O k1 c1 E1); congruence].
      apply Hne1. eapply (Hs k1 i); eauto; congruence.
Qed.

(** One more holder, of the process that has the context. *)
Lemma inv_inc y y' i cd r pid : ctx_inv y -> cs_devs y !! i = Some cd -> cd_owner cd = Some pid ->
  refcount_inc (cd_ref cd) = Some r -> cs_devs y' = <[i := set_ref cd r]> (cs_devs y) ->
  holders y' ≡ₚ (i, pid) :: holders y -> ctx_inv y'.
Proof.
  intros Hinv Hi Hpid Er Hd Hh. pose proof Hinv as [Hr Hf Ho Hs]. unfold refcount_inc in Er.
  destruct (_ && _) eqn:E; [|done]. injection Er as <-. specialize (Hr i cd Hi).
  eapply (inv_update y y' i cd); [done|done|exact Hd|done|..].
  - intros k Hne. by rewrite Hh, count_cons, decide_False by done.
  - intros k p Hne. rewrite Hh, elem_of_cons. intros [[= -> _]|]; [congruence|done].
  - rewrite Hh, count_cons, decide_True by done. cbn [cd_ref set_ref]. lia.
  - intros p. rewrite Hh, elem_of_cons. intros [[= ->]|Hin]; [done|].
    destruct (Ho i p Hin) as (c & Ec & Oc). cbn [cd_owner set_ref]. congruence.
  - cbn [cd_owner cd_ref set_ref]. rewrite Hpid. split; [done|]. apply andb_prop in E as [E _]. lia.
  - intros p. by left.
Qed.

(** One holder less: the context is free when it was the last. *)
Lemma inv_dec y y' i cd pid : ctx_inv y -> cs_devs y !! i = Some cd ->
  cs_devs y' = <[i := let cd := set_ref cd (cd_ref cd - 1) in if cd_ref cd =? 0 then set_owner cd None else cd]> (cs_devs y) ->
  holders y ≡ₚ (i, pid) :: holders y' -> ctx_inv y'.
Proof.
  intros Hinv Hi Hd Hh. pose proof Hinv as [Hr Hf Ho Hs]. specialize (Hr i cd Hi).
  rewrite Hh, count_cons, decide_True in Hr by done.
  assert (Hpid : cd_owner cd = Some pid).
  { destruct (Ho i pid) as (c & Ec & Oc); [rewrite Hh; by left|]. congruence. }
  cbv zeta in Hd. cbn [cd_ref set_ref] in Hd.
  eapply (inv_update y y' i cd); [done|done|exact Hd|by destruct (_ =? _)|..].
  - intros k Hne. by rewrite Hh, count_cons, decide_False by done.
  - intros k p Hne Hin. rewrite Hh. by right.
  - destruct (_ =? _); cbn [cd_ref set_ref set_owner]; lia.
  - intros p Hin. destruct (Z.eqb_spec (cd_ref cd - 1) 0); cbn [cd_owner set_ref set_owner].
    + apply count_pos in Hin. lia.
    + destruct (Ho i p) as (c & Ec & Oc); [rewrite Hh; by right|]. congruence.
  - destruct (Z.eqb_spec (cd_ref cd - 1) 0); cbn [cd_owner cd_ref set_ref set_owner]; [done|]. by rewrite Hpid.
  - intros p. destruct (_ =? _); cbn [cd_owner set_ref set_owner]; [done|]. by left.
Qed.

(** What host1x_memory_context_alloc returns: the process's own context of that IOMMU with
    one more reference, a free one, or an error when there is none. *)
Lemma alloc_spec iommu pid devs r devs' : host1x_memory_context_alloc iommu pid devs = Some (r, devs') ->
  match r with
  | inr i => exists cd, devs !! i = Some cd /\ cd_iommu cd = iommu /\
      (cd_owner cd = Some pid /\ (exists n, refcount_inc (cd_ref cd) = Some n /\ devs' = <[i := set_ref cd n]> devs) \/
       cd_owner cd = None /\ devs' = <[i := set_owner (set_ref cd 1) (Some pid)]> devs /\
       forall k ck, devs !! k = Some ck -> cd_iommu ck = iommu -> cd_owner ck <> Some pid)
  | inl err => devs' = devs /\ forall k ck, devs !! k = Some ck -> cd_iommu ck = iommu ->
      exists other, cd_owner ck = Some other /\ other <> pid
  end.
Proof.
  unfold host1x_memory_context_alloc. destruct (Nat.eqb_spec (length devs) 0) as [Hz|Hz].
  { intros [= <- <-]. split; [done|]. by destruct devs. }
  pose proof (context_scan_spec iommu pid devs 0 None) as H. destruct (context_scan _ _ _ _ _) as [i|[i|]].
  - destruct H as (cd & _ & Hi & Hio & Ho). rewrite Nat.sub_0_r in Hi. rewrite Hi. cbn [mbind option_bind].
    destruct (refcount_inc _) as [n|] eqn:En; [|done]. intros [= <- <-]. exists cd. split_and!; [done|done|]. left. eauto.
  - destruct H as (Hno & cd & _ & Hi & Hio & Ho). rewrite Nat.sub_0_r in Hi. rewrite Hi. cbn [mbind option_bind].
    intros [= <- <-]. exists cd. split_and!; [done|done|]. by right.
  - destruct H as (Hno & Hfree). intros [= <- <-]. split; [done|]. intros k ck Hk Hio.
    destruct (cd_owner ck) as [o|] eqn:Eo; [|by destruct (Hfree k ck Hk Hio)].
    exists o. split; [done|]. intros ->. by destruct (Hno k ck Hk Hio).
Qed.

Lemma ctx_inv_step y y' : ctx_inv y -> ctx_step y y' -> ctx_inv y'.
Proof.
  intros Hinv Hs. pose proof Hinv as [Hr Hf Ho Hsi].
  destruct Hs as [devs refs w iommu pid i devs' E|devs refs w iommu pid err devs' E|devs refs w i pid devs' Hin E
    |devs refs1 i pid refs2 w devs' E|devs refs1 i pid refs2 w E|devs refs w1 i pid w2 devs' E].
  - apply alloc_spec in E as (cd & Hi & Hio & [(Ow & n & En & ->)|(Ow & -> & Hno)]); [by eapply inv_inc|].
    assert (Hz : cd_ref cd = 0) by (by apply (Hf i)). specialize (Hr i cd Hi). rewrite Hz in Hr.
    eapply (inv_update _ _ i cd); [done|done|done|done|..]; cbn [cd_owner cd_ref set_ref set_owner].
    + intros k Hne. unfold holders. cbn [cs_refs cs_waiting app]. by rewrite count_cons, decide_False.
    + intros k p Hne. unfold holders. cbn [cs_refs cs_waiting app]. rewrite elem_of_cons. intros [[= -> _]|]; [congruence|done].
    + unfold holders in *. cbn [cs_refs cs_waiting app] in *. rewrite count_cons, decide_True by done. lia.
    + unfold holders in *. cbn [cs_refs cs_waiting app] in *. intros p. rewrite elem_of_cons. intros [[= ->]|Hin]; [done|].
      apply count_pos in Hin. lia.
    + done.
    + intros p [= <-]. right. subst iommu. exact Hno.
  - apply alloc_spec in E as [-> _]. by split.
  - unfold host1x_memory_context_get in E. destruct (Ho i pid) as (cd & Hi & Ow); [by unfold holders; apply elem_of_app; left|].
    cbn [cs_devs] in Hi. rewrite Hi in E. cbn [mbind option_bind] in E.
    destruct (refcount_inc _) as [n|] eqn:En; [|done]. injection E as <-. by eapply inv_inc.
  - unfold context_put_fast in E. destruct (devs !! i) as [cd|] eqn:Hi; [|done]. cbn [mbind option_bind] in E.
    destruct (Z.eqb_spec (cd_ref cd) 1) as [|Hne]; [done|]. injection E as <-.
    eapply (inv_dec _ _ i cd pid); [done|done| |].
    + cbv zeta. cbn [cd_ref set_ref cs_devs]. destruct (Z.eqb_spec (cd_ref cd - 1) 0); [lia|done].
    + unfold holders. cbn [cs_refs cs_waiting]. solve_Permutation.
  - assert (Hp : holders (CtxSys devs (refs1 ++ (i, pid) :: refs2) w) ≡ₚ holders (CtxSys devs (refs1 ++ refs2) ((i, pid) :: w))).
    { unfold holders. cbn [cs_refs cs_waiting]. solve_Permutation. }
    split; [intros k c; rewrite <- Hp; apply Hr|done|intros k p; rewrite <- Hp; apply Ho|done].
  - unfold context_put_locked in E. destruct (devs !! i) as [cd|] eqn:Hi; [|done]. cbn [mbind option_bind] in E.
    destruct (_ <=? 0); [done|]. injection E as <-. eapply (inv_dec _ _ i cd pid); [done|done|done|].
    unfold holders. cbn [cs_refs cs_waiting]. solve_Permutation.
Qed.

(** Setting up registers every device it made a context of, or none; the contexts are free. *)
Lemma context_init_loop_spec answers i registered devs err devs' registered' :
  context_init_loop answers i registered devs = (err, devs', registered') ->
  all_free devs -> length registered = length devs -> all_free devs' /\ length registered' = length devs'.
Proof.
  revert i registered devs. induction answers as [|a answers IH]; intros i registered devs; cbn [context_init_loop].
  { by intros [= <- <- <-]. }
  case_if; [intros [= <- <- <-]; by split; [constructor|]|].
  case_if; [intros [= <- <- <-]; by split; [constructor|]|].
  destruct (iommu_fwspec a) as [[id iommu]|]; [|intros [= <- <- <-]; by split; [constructor|]].
  intros E Hf Hl. eapply IH; [exact E| |].
  - apply Forall_app. split; [done|]. by repeat constructor.
  - rewrite !length_app. cbn [length]. lia.
Qed.

Lemma context_list_init_spec elems alloc answers err devs registered :
  host1x_memory_context_list_init elems alloc answers = (err, devs, registered) ->
  all_free devs /\ length registered = length devs.
Proof.
  unfold host1x_memory_context_list_init. case_if; [intros [= <- <- <-]; by split; [constructor|]|].
  case_if; [intros [= <- <- <-]; by split; [constructor|]|].
  intros E. eapply context_init_loop_spec; [exact E|constructor|done].
Qed.

Lemma ctx_inv_init devs : all_free devs -> ctx_inv (CtxSys devs [] []).
Proof.
  unfold all_free. rewrite Forall_lookup. intros Hf. split; cbn [cs_devs].
  - intros i cd Hi. by destruct (Hf i cd Hi).
  - intros i cd Hi. by destruct (Hf i cd Hi).
  - intros i pid Hin. by apply not_elem_of_nil in Hin.
  - intros i k ci ck pid Hi _ _ Ho _. destruct (Hf i ci Hi). congruence.
Qed.

Lemma owner_holds y i cd pid : ctx_inv y -> cs_devs y !! i = Some cd -> cd_owner cd = Some pid -> (i, pid) ∈ holders y.
Proof.
  intros [Hr Hf Ho _] Hi Ow. specialize (Hr i cd Hi). specialize (Hf i cd Hi).
  assert (Hc : count i (holders y) <> 0%nat) by (intros Hz; rewrite Hz in Hr; apply Hf in Hr; congruence).
  unfold count in Hc. destruct (filter _ _) as [|[k p] l] eqn:E; [done|].
  assert (Hin : (k, p) ∈ filter (fun h => h.1 = i) (holders y)) by (rewrite E; by left).
  apply list_elem_of_filter in Hin as [Hk Hin]. cbn [fst] in Hk. subst k.
  destruct (Ho i p Hin) as (c & Ec & Oc). by replace pid with p by congruence.
Qed.

Lemma ctx_inv_steps y y' : ctx_inv y -> rtc ctx_step y y' -> ctx_inv y'.
Proof. intros Hi Hs. revert Hi. induction Hs; [done|]. intros Hi. by eauto using ctx_inv_step. Qed.

(** C24. The list starts with every context free.  Whatever the processes do with their
    memory contexts, in whatever order their allocations, duplicated references and puts
    interleave: processes that hold a context never share it, a process has one context
    per IOMMU, the count is the number of references, every put finds the context taken,
    an allocation fails only when every context of that IOMMU belongs to another process,
    and a context without references is free. *)
Theorem memory_contexts_isolate (elems : Z) (alloc : bool) (answers : nat -> device_answers) (err : Z)
    (devs : list host1x_memory_context) (registered : list nat) (y : ctx_sys) :
  host1x_memory_context_list_init elems alloc answers = (err, devs, registered) ->
  rtc ctx_step (CtxSys devs [] []) y ->
  (forall i p q, (i, p) ∈ holders y -> (i, q) ∈ holders y -> p = q) /\
  (forall i k p ci ck, (i, p) ∈ holders y -> (k, p) ∈ holders y -> cs_devs y !! i = Some ci ->
     cs_devs y !! k = Some ck -> cd_iommu ci = cd_iommu ck -> i = k) /\
  (forall i p, (i, p) ∈ holders y -> is_Some (context_put_locked i (cs_devs y))) /\
  (forall iommu pid e devs', host1x_memory_context_alloc iommu pid (cs_devs y) = Some (inl e, devs') ->
     forall k ck, cs_devs y !! k = Some ck -> cd_iommu ck = iommu -> exists other, (k, other) ∈ holders y /\ other <> pid) /\
  (holders y = [] -> all_free (cs_devs y)).
Proof.
  intros [Hf _]%context_list_init_spec Hs. pose proof (ctx_inv_steps _ _ (ctx_inv_init devs Hf) Hs) as [Hr Hfr Ho Hsi].
  assert (Hput : forall i p, (i, p) ∈ holders y -> is_Some (context_put_locked i (cs_devs y))).
  { intros i p Hin. destruct (Ho i p Hin) as (cd & Hi & Ow). unfold context_put_locked. rewrite Hi. cbn [mbind option_bind].
    rewrite (Hr i cd Hi). apply count_pos in Hin. destruct (Z.leb_spec (Z.of_nat (count i (holders y))) 0); [lia|done]. }
  split_and!.
  - intros i p q (c & E & Op)%Ho (c' & E' & Oq)%Ho. congruence.
  - intros i k p ci ck (c & E & Op)%Ho (c' & E' & Oq)%Ho Hi Hk Eio.
    rewrite E in Hi. injection Hi as <-. rewrite E' in Hk. injection Hk as <-. by eapply Hsi.
  - intros i p Hin. destruct (Ho i p Hin) as (cd & Hi & Ow). unfold context_put_locked. rewrite Hi. cbn [mbind option_bind].
    rewrite (Hr i cd Hi). apply count_pos in Hin. destruct (Z.leb_spec (Z.of_nat (count i (holders y))) 0); [lia|done].
  - intros iommu pid e devs' [_ H]%alloc_spec k ck Hk Hio. destruct (H k ck Hk Hio) as (o & Eo & Hne).
    exists o. split; [|done]. by eapply owner_holds.
  - intros Hh. unfold all_free. apply Forall_lookup. intros i cd Hi. specialize (Hr i cd Hi). rewrite Hh in Hr.
    split; [exact Hr|]. by apply (Hfr i cd Hi).
Qed.

(** Two contexts of one IOMMU.  Process 7 takes one and begins to put it; before it has the
    lock it takes it again, and process 8 takes the other. *)
Definition example_devs : list host1x_memory_context := [MemoryContext 3 0 None 5; MemoryContext 3 0 None 6].
Definition example_ctx_sys : ctx_sys :=
  CtxSys [MemoryContext 3 2 (Some 7%positive) 5; MemoryContext 3 1 (Some 8%positive) 6]
    [(1%nat, 8%positive); (0%nat, 7%positive)] [(0%nat, 7%positive)].

Definition example_answers (i : nat) : device_answers := DeviceAnswers 0 0 (Some (0x30005 + Z.of_nat i, 3%positive)).

Lemma memory_contexts_isolate_witness :
  host1x_memory_context_list_init 8 true example_answers = (0, example_devs, [0%nat; 1%nat]) /\ rtc ctx_step (CtxSys example_devs [] []) example_ctx_sys /\
  is_Some (context_put_locked 0 (cs_devs example_ctx_sys)) /\
  host1x_memory_context_alloc 3 9 (cs_devs example_ctx_sys) = Some (inl (- EBUSY), cs_devs example_ctx_sys).
Proof.
  assert (Hf : host1x_memory_context_list_init 8 true example_answers = (0, example_devs, [0%nat; 1%nat])) by reflexivity.
  assert (Hs : rtc ctx_step (CtxSys example_devs [] []) example_ctx_sys).
  { eapply rtc_l; [by apply (ctx_alloc _ _ _ 3 7)|]. eapply rtc_l; [by apply (ctx_put_wait _ [] 0 7 [])|].
    eapply rtc_l; [by apply (ctx_alloc _ _ _ 3 7)|]. eapply rtc_l; [by apply (ctx_alloc _ _ _ 3 8)|]. apply rtc_refl. }
  split; [exact Hf|]. split; [exact Hs|].
  destruct (memory_contexts_isolate _ _ _ _ _ _ _ Hf Hs) as (_ & _ & H & _). split; [|reflexivity].
  apply (H 0%nat 7%positive). unfold holders. apply elem_of_app. right. by left.
Defined.
