(* ===== verification/PvaSha.v ===== *)
(** SHA-256 in the PVA's driver (src/drivers/video/tegra/host/pva/pva_sha256.c), against the
    definition of the standard (FIPS 180-4).

    The reference derives its constants from the roots of primes, gives the message
    schedule as a relation, and pads and splits the message as a whole; the code streams
    full blocks, finalizes with what is left in a buffer that starts with arbitrary
    contents, and works on little-endian words that it swaps. *)
From S2P Require Import Prelude Ring.

(** * The code *)
Definition ROTRIGHT (a b : Z) : Z := Z.lor (Z.shiftr a b) (u32 (Z.shiftl a (32 - b))).
Definition CH (x y z : Z) : Z := Z.lxor (Z.land x y) (Z.land (u32 (Z.lnot x)) z).
Definition MAJ (x y z : Z) : Z := Z.lxor (Z.lxor (Z.land x y) (Z.land x z)) (Z.land y z).
Definition SHA_EP0 (x : Z) : Z := Z.lxor (Z.lxor (ROTRIGHT x 2) (ROTRIGHT x 13)) (ROTRIGHT x 22).
Definition SHA_EP1 (x : Z) : Z := Z.lxor (Z.lxor (ROTRIGHT x 6) (ROTRIGHT x 11)) (ROTRIGHT x 25).
Definition SIG0 (x : Z) : Z := Z.lxor (Z.lxor (ROTRIGHT x 7) (ROTRIGHT x 18)) (Z.shiftr x 3).
Definition SIG1 (x : Z) : Z := Z.lxor (Z.lxor (ROTRIGHT x 17) (ROTRIGHT x 19)) (Z.shiftr x 10).
Definition SWAP32 (x : Z) : Z :=
  x mod 2 ^ 8 * 2 ^ 24 + x / 2 ^ 8 mod 2 ^ 8 * 2 ^ 16 + x / 2 ^ 16 mod 2 ^ 8 * 2 ^ 8 + x / 2 ^ 24 mod 2 ^ 8.

(** The cast of pva_sha256.h. *)
Definition U32 (x : Z) : Z := u32 x.

Definition k : list Z := [
  U32 0x428a2f98; U32 0x71374491; U32 0xb5c0fbcf; U32 0xe9b5dba5;
  U32 0x3956c25b; U32 0x59f111f1; U32 0x923f82a4; U32 0xab1c5ed5;
  U32 0xd807aa98; U32 0x12835b01; U32 0x243185be; U32 0x550c7dc3;
  U32 0x72be5d74; U32 0x80deb1fe; U32 0x9bdc06a7; U32 0xc19bf174;
  U32 0xe49b69c1; U32 0xefbe4786; U32 0x0fc19dc6; U32 0x240ca1cc;
  U32 0x2de92c6f; U32 0x4a7484aa; U32 0x5cb0a9dc; U32 0x76f988da;
  U32 0x983e5152; U32 0xa831c66d; U32 0xb00327c8; U32 0xbf597fc7;
  U32 0xc6e00bf3; U32 0xd5a79147; U32 0x06ca6351; U32 0x14292967;
  U32 0x27b70a85; U32 0x2e1b2138; U32 0x4d2c6dfc; U32 0x53380d13;
  U32 0x650a7354; U32 0x766a0abb; U32 0x81c2c92e; U32 0x92722c85;
  U32 0xa2bfe8a1; U32 0xa81a664b; U32 0xc24b8b70; U32 0xc76c51a3;
  U32 0xd192e819; U32 0xd6990624; U32 0xf40e3585; U32 0x106aa070;
  U32 0x19a4c116; U32 0x1e376c08; U32 0x2748774c; U32 0x34b0bcb5;
  U32 0x391c0cb3; U32 0x4ed8aa4a; U32 0x5b9cca4f; U32 0x682e6ff3;
  U32 0x748f82ee; U32 0x78a5636f; U32 0x84c87814; U32 0x8cc70208;
  U32 0x90befffa; U32 0xa4506ceb; U32 0xbef9a3f7; U32 0xc67178f2].

(** The eight words of the state, and the variables a to h. *)
Definition regs : Type := Z * Z * Z * Z * Z * Z * Z * Z.
Definition regs_list (r : regs) : list Z := let '(a, b, c, d, e, f, g, h) := r in [a; b; c; d; e; f; g; h].

Record sha256_ctx_s := Sha256Ctx { bitlen : Z; state : regs }.
Definition set_bitlen (n : Z) (ctx : sha256_ctx_s) : sha256_ctx_s := Sha256Ctx n (state ctx).
Definition set_state (r : regs) (ctx : sha256_ctx_s) : sha256_ctx_s := Sha256Ctx (bitlen ctx) r.

(** A 32-bit word in memory, and its bytes. *)
Definition le32 (bs : list Z) : Z := match bs with b0 :: b1 :: b2 :: b3 :: _ => b0 + 2 ^ 8 * b1 + 2 ^ 16 * b2 + 2 ^ 24 * b3 | _ => 0 end.
Definition le_bytes (w : Z) : list Z := [w mod 2 ^ 8; w / 2 ^ 8 mod 2 ^ 8; w / 2 ^ 16 mod 2 ^ 8; w / 2 ^ 24 mod 2 ^ 8].
Definition data_word (data : list Z) (i : nat) : Z := le32 (drop (4 * i) data).

(** [m] is the part of the array that has been written. *)
Definition m_next (m : list Z) (i : nat) : list Z :=
  m ++ [u32 (SIG1 (m !!! (14 + i)%nat) + m !!! (9 + i)%nat + SIG0 (m !!! (1 + i)%nat) + m !!! i)].
Definition m_of (data : list Z) : list Z :=
  foldl m_next ((fun i => SWAP32 (data_word data i)) <$> seq 0 16) (seq 0 48).

Definition transform_round (m : list Z) (r : regs) (i : nat) : regs :=
  let '(a, b, c, d, e, f, g, h) := r in
  let t1 := u32 (h + SHA_EP1 e + CH e f g + k !!! i + m !!! i) in
  let t2 := u32 (SHA_EP0 a + MAJ a b c) in
  let h := g in
  let g := f in
  let f := e in
  let e := u32 (d + t1) in
  let d := c in
  let c := b in
  let b := a in
  let a := u32 (t1 + t2) in
  (a, b, c, d, e, f, g, h).

Definition add_regs (r s : regs) : regs :=
  let '(a, b, c, d, e, f, g, h) := r in
  let '(a', b', c', d', e', f', g', h') := s in
  (u32 (a + a'), u32 (b + b'), u32 (c + c'), u32 (d + d'), u32 (e + e'), u32 (f + f'), u32 (g + g'), u32 (h + h')).

(** [data] are 64 bytes. *)
Definition sha256_transform (data : list Z) (ctx : sha256_ctx_s) : sha256_ctx_s :=
  let m := m_of data in
  set_state (add_regs (state ctx) (foldl (transform_round m) (state ctx) (seq 0 64))) ctx.

Definition sha256_init : sha256_ctx_s :=
  Sha256Ctx 0 (U32 0x6a09e667, U32 0xbb67ae85, U32 0x3c6ef372, U32 0xa54ff53a, U32 0x510e527f, U32 0x9b05688c, U32 0x1f83d9ab, U32 0x5be0cd19).

(** Bytes of an array; [None] when they are not all in it. *)
Definition load (l : list Z) (i n : Z) : option (list Z) :=
  if i + n <=? Z.of_nat (length l) then Some (take (Z.to_nat n) (drop (Z.to_nat i) l)) else None.
Definition store (i : Z) (ws l : list Z) : option (list Z) :=
  if i + Z.of_nat (length ws) <=? Z.of_nat (length l) then Some (splice (Z.to_nat i) ws l) else None.
Definition zeros (n : Z) : list Z := replicate (Z.to_nat n) 0.

(** The loop of [pva_sha256_update]; its index has 32 bits. *)
Fixpoint update_loop (fuel : nat) (i : Z) (data : list Z) (len : Z) (ctx : sha256_ctx_s) : option sha256_ctx_s :=
  if i <? len then
    match fuel with
    | O => None
    | S fuel =>
        block ← load data i 64;
        let ctx := sha256_transform block (set_bitlen (Z.land (bitlen ctx) 0xffffffff) ctx) in
        update_loop fuel (u32 (i + 64)) data len (set_bitlen (u64 (bitlen ctx + 512)) ctx)
    end
  else Some ctx.
Definition pva_sha256_update (data : list Z) (len : Z) (ctx : sha256_ctx_s) : option sha256_ctx_s :=
  update_loop (Z.to_nat (len / 64 + 1)) 0 data len ctx.

(** [garbage] is what the array on the stack contains at first.  The result are the words
    of [out]. *)
Definition sha256_finalize (garbage input : list Z) (input_size : Z) (ctx : sha256_ctx_s) : option (list Z) :=
  let input_size := Z.land input_size 0xffffffff in
  let ctx := set_bitlen (Z.land (bitlen ctx) 0xffffffff) ctx in
  let ctx := set_bitlen (u64 (bitlen ctx + input_size * 8)) ctx in
  bytes ← load input 0 input_size;
  data ← store 0 bytes garbage;
  data ← store input_size [0x80] data;
  '(ctx, data) ←
    (if input_size <? 56 then
       data ← store (input_size + 1) (zeros (56 - input_size - 1)) data; Some (ctx, data)
     else
       data ← (if input_size + 1 <? 64 then store (input_size + 1) (zeros (64 - input_size - 1)) data else Some data);
       let ctx := sha256_transform data ctx in
       data ← store 0 (zeros 56) data; Some (ctx, data));
  let t := u32 (bitlen ctx) in
  data ← store 56 (le_bytes 0) data;
  data ← store 60 (le_bytes (SWAP32 t)) data;
  Some (SWAP32 <$> regs_list (state (sha256_transform data ctx))).

(** The bytes of [calc_key] in is_key_match (pva_vpu_app_auth.c). *)
Definition calc_key (garbage data : list Z) (size : Z) : option (list Z) :=
  let off := size / 64 * 64 in
  ctx1 ← (if 0 <? off then pva_sha256_update data off sha256_init else Some sha256_init);
  out ← sha256_finalize garbage (drop (Z.to_nat off) data) (size mod 64) ctx1;
  Some (concat (le_bytes <$> out)).

(** * The standard *)
Definition rotr (n x : Z) : Z := x / 2 ^ n + x mod 2 ^ n * 2 ^ (32 - n).
Definition shr (n x : Z) : Z := x / 2 ^ n.
Definition complement (x : Z) : Z := 2 ^ 32 - 1 - x.
Definition Ch (x y z : Z) : Z := Z.lxor (Z.land x y) (Z.land (complement x) z).
Definition Maj (x y z : Z) : Z := Z.lxor (Z.lxor (Z.land x y) (Z.land x z)) (Z.land y z).
Definition Sigma0 (x : Z) : Z := Z.lxor (Z.lxor (rotr 2 x) (rotr 13 x)) (rotr 22 x).
Definition Sigma1 (x : Z) : Z := Z.lxor (Z.lxor (rotr 6 x) (rotr 11 x)) (rotr 25 x).
Definition sigma0 (x : Z) : Z := Z.lxor (Z.lxor (rotr 7 x) (rotr 18 x)) (shr 3 x).
Definition sigma1 (x : Z) : Z := Z.lxor (Z.lxor (rotr 17 x) (rotr 19 x)) (shr 10 x).

(** The first 64 primes, and the first 32 bits of the fractional parts of roots. *)
Definition is_prime (p : Z) : bool := forallb (fun d => negb (p mod d =? 0)) (seqZ 2 (p - 2)).
Definition primes : list Z := List.filter is_prime (seqZ 2 310).
Definition sqrt_bits (p : Z) : Z := Z.sqrt (p * 2 ^ 64) mod 2 ^ 32.

(** The largest number whose cube is at most [n], by its bits from [bits] down. *)
Fixpoint cbrt (bits : nat) (c n : Z) : Z :=
  match bits with
  | O => c
  | S bits => let c' := c + 2 ^ Z.of_nat bits in cbrt bits (if c' ^ 3 <=? n then c' else c) n
  end.
Definition cbrt_bits (p : Z) : Z := cbrt 36 0 (p * 2 ^ 96) mod 2 ^ 32.

Definition K : list Z := cbrt_bits <$> primes.
Definition H0 : list Z := sqrt_bits <$> take 8 primes.

(** The schedule of a block of 16 words. *)
Record is_schedule (block W : list Z) : Prop := {
  sch_length : length W = 64%nat;
  sch_block : take 16 W = block;
  sch_next : forall t, (16 <= t < 64)%nat ->
    W !!! t = (sigma1 (W !!! (t - 2)%nat) + W !!! (t - 7)%nat + sigma0 (W !!! (t - 15)%nat) + W !!! (t - 16)%nat) mod 2 ^ 32
}.

Definition step (r : regs) (kw : Z * Z) : regs :=
  let '(a, b, c, d, e, f, g, h) := r in
  let T1 := h + Sigma1 e + Ch e f g + kw.1 + kw.2 in
  let T2 := Sigma0 a + Maj a b c in
  ((T1 + T2) mod 2 ^ 32, a, b, c, (d + T1) mod 2 ^ 32, e, f, g).
Definition compress (H : regs) (W : list Z) : regs := foldl step H (zip K W).

(** [hashes H blocks H']: from the hash value [H], the blocks give [H']. *)
Inductive hashes : regs -> list (list Z) -> regs -> Prop :=
  | hs_done H : hashes H [] H
  | hs_block H block W blocks H' : is_schedule block W -> hashes (add_regs H (compress H W)) blocks H' ->
      hashes H (block :: blocks) H'.

Definition be32 (bs : list Z) : Z := match bs with b0 :: b1 :: b2 :: b3 :: _ => 2 ^ 24 * b0 + 2 ^ 16 * b1 + 2 ^ 8 * b2 + b3 | _ => 0 end.
Definition be_bytes (n : nat) (w : Z) : list Z := (fun i => w / 2 ^ (8 * i) mod 2 ^ 8) <$> reverse (seqZ 0 (Z.of_nat n)).

(** The bit 1, bits 0 up to the last eight bytes of a block, and the length in bits. *)
Definition pad (msg : list Z) : list Z :=
  let len := Z.of_nat (length msg) in
  msg ++ 0x80 :: replicate (Z.to_nat ((55 - len) mod 64)) 0 ++ be_bytes 8 (8 * len).

(** A message as blocks of 16 words. *)
Definition chunk (n : nat) (l : list Z) (i : nat) : list Z := take n (drop (n * i) l).
Definition chunks (n : nat) (l : list Z) : list (list Z) := chunk n l <$> seq 0 (length l / n)%nat.
Definition parse (l : list Z) : list (list Z) := fmap be32 <$> (chunks 4 <$> chunks 64 l).

Definition initial : regs -> Prop := fun r => regs_list r = H0.
Definition sha256 (msg digest : list Z) : Prop :=
  exists H H', initial H /\ hashes H (parse (pad msg)) H' /\ digest = concat (be_bytes 4 <$> regs_list H').

Example calc_key_abc : calc_key (replicate 64 0x55) [0x61; 0x62; 0x63] 3 = Some
  [0xba; 0x78; 0x16; 0xbf; 0x8f; 0x01; 0xcf; 0xea; 0x41; 0x41; 0x40; 0xde; 0x5d; 0xae; 0x22; 0x23;
   0xb0; 0x03; 0x61; 0xa3; 0x96; 0x17; 0x7a; 0x9c; 0xb4; 0x10; 0xff; 0x61; 0xf2; 0x00; 0x15; 0xad].
Proof. vm_compute. reflexivity. Qed.

(** ** The constants *)
Lemma K_table : K = k.
Proof. vm_compute. reflexivity. Qed.
Lemma H0_table : regs_list (state sha256_init) = H0.
Proof. vm_compute. reflexivity. Qed.

(** ** The functions on words *)
Lemma lor_high x y n : 0 <= n -> 0 <= x < 2 ^ n -> Z.lor x (y * 2 ^ n) = x + y * 2 ^ n.
Proof. intros Hn Hx. rewrite Z.lor_comm, lor_low by done. lia. Qed.

Lemma bit_bound (f : bool -> bool -> bool) (op : Z -> Z -> Z) x y n :
  (forall i, Z.testbit (op x y) i = f (Z.testbit x i) (Z.testbit y i)) -> f false false = false ->
  0 <= op x y -> 0 <= n -> 0 <= x < 2 ^ n -> 0 <= y < 2 ^ n -> 0 <= op x y < 2 ^ n.
Proof.
  intros Hf Hff Hp Hn Hx Hy. split; [done|].
  assert (E : op x y mod 2 ^ n = op x y).
  { apply Z.bits_inj'. intros i Hi. destruct (Z.ltb_spec i n).
    - by rewrite Z.mod_pow2_bits_low.
    - rewrite Z.mod_pow2_bits_high by lia. rewrite Hf.
      rewrite <- (Z.mod_small x (2 ^ n)), <- (Z.mod_small y (2 ^ n)) by done.
      rewrite !Z.mod_pow2_bits_high by lia. by rewrite Hff. }
  rewrite <- E. apply Z.mod_pos_bound. lia.
Qed.
Lemma lxor_u32 x y : is_u32 x -> is_u32 y -> is_u32 (Z.lxor x y).
Proof.
  intros Hx Hy. apply (bit_bound xorb); [apply Z.lxor_spec|done| |lia|done|done].
  apply Z.lxor_nonneg. unfold is_u32 in *. lia.
Qed.
Lemma land_u32' x y : is_u32 x -> is_u32 y -> is_u32 (Z.land x y).
Proof.
  intros Hx Hy. apply (bit_bound andb); [apply Z.land_spec|done| |lia|done|done].
  apply Z.land_nonneg. unfold is_u32 in *. lia.
Qed.

Lemma ROTRIGHT_rotr n x : is_u32 x -> 0 < n < 32 -> ROTRIGHT x n = rotr n x.
Proof.
  intros Hx Hn. unfold ROTRIGHT, rotr, u32. rewrite Z.shiftr_div_pow2, Z.shiftl_mul_pow2 by lia.
  assert (E : 2 ^ 32 = 2 ^ n * 2 ^ (32 - n)) by (rewrite <- Z.pow_add_r by lia; f_equal; lia).
  rewrite E, Z.mul_mod_distr_r by lia. apply lor_high; [lia|].
  split; [apply Z.div_pos; unfold is_u32 in Hx; lia|]. apply Z.div_lt_upper_bound; [lia|].
  unfold is_u32 in Hx. lia.
Qed.
Lemma rotr_u32 n x : is_u32 x -> 0 < n < 32 -> is_u32 (rotr n x).
Proof.
  intros Hx Hn. unfold rotr, is_u32 in *.
  assert (E : 2 ^ 32 = 2 ^ n * 2 ^ (32 - n)) by (rewrite <- Z.pow_add_r by lia; f_equal; lia).
  assert (0 <= x / 2 ^ n < 2 ^ (32 - n)).
  { split; [apply Z.div_pos; lia|]. apply Z.div_lt_upper_bound; lia. }
  pose proof (Z.mod_pos_bound x (2 ^ n) ltac:(lia)). nia.
Qed.
Lemma shr_u32 n x : is_u32 x -> 0 <= n -> is_u32 (shr n x).
Proof.
  intros Hx Hn. unfold shr, is_u32 in *. split; [apply Z.div_pos; lia|].
  apply Z.div_lt_upper_bound; [lia|]. assert (1 <= 2 ^ n) by (apply (Z.pow_le_mono_r 2 0); lia). nia.
Qed.

Create HintDb word32.
#[export] Hint Resolve lxor_u32 land_u32' rotr_u32 shr_u32 u32_range : word32.
#[export] Hint Extern 1 (_ < _ < _) => lia : word32.
#[export] Hint Extern 1 (_ <= _) => lia : word32.

Lemma EP0_eq x : is_u32 x -> SHA_EP0 x = Sigma0 x /\ is_u32 (Sigma0 x).
Proof. intros. unfold SHA_EP0, Sigma0. rewrite !ROTRIGHT_rotr by auto with word32. auto 7 with word32. Qed.
Lemma EP1_eq x : is_u32 x -> SHA_EP1 x = Sigma1 x /\ is_u32 (Sigma1 x).
Proof. intros. unfold SHA_EP1, Sigma1. rewrite !ROTRIGHT_rotr by auto with word32. auto 7 with word32. Qed.
Lemma SIG0_eq x : is_u32 x -> SIG0 x = sigma0 x.
Proof.
  intros. unfold SIG0, sigma0. rewrite !ROTRIGHT_rotr by auto with word32. by rewrite Z.shiftr_div_pow2 by lia.
Qed.
Lemma SIG1_eq x : is_u32 x -> SIG1 x = sigma1 x.
Proof.
  intros. unfold SIG1, sigma1. rewrite !ROTRIGHT_rotr by auto with word32. by rewrite Z.shiftr_div_pow2 by lia.
Qed.
Lemma CH_eq x y z : is_u32 x -> CH x y z = Ch x y z.
Proof.
  intros Hx. unfold CH, Ch. replace (u32 (Z.lnot x)) with (complement x); [done|].
  unfold complement, Z.lnot. revert Hx. width_lia.
Qed.

(** ** The rounds *)
Definition regs_u32 (r : regs) : Prop := Forall is_u32 (regs_list r).

Lemma round_step m r i : regs_u32 r ->
  transform_round m r i = step r (k !!! i, m !!! i) /\ regs_u32 (step r (k !!! i, m !!! i)).
Proof.
  destruct r as [[[[[[[a b] c] d] e] f] g] h]. unfold regs_u32. cbn [regs_list].
  rewrite !Forall_cons. intros (Ha & Hb & Hc & Hd & He & Hf & Hg & Hh & _).
  unfold transform_round, step. cbn [fst snd].
  destruct (EP0_eq a Ha) as [-> _], (EP1_eq e He) as [-> _]. rewrite CH_eq by done. change (MAJ a b c) with (Maj a b c).
  split.
  - repeat f_equal; unfold u32.
    + by rewrite <- Zplus_mod.
    + by rewrite Zplus_mod_idemp_r.
  - cbn [regs_list]. rewrite !Forall_cons. split_and!; try done; apply u32_range.
Qed.

Lemma rounds_compress m r : regs_u32 r -> length m = 64%nat ->
  foldl (transform_round m) r (seq 0 64) = compress r m /\ regs_u32 (compress r m).
Proof.
  intros Hr Hm. unfold compress. rewrite K_table.
  assert (Ez : zip k m = (fun i => (k !!! i, m !!! i)) <$> seq 0 64).
  { apply list_eq_same_length with (n := 64%nat); [by rewrite length_fmap, length_seq|by rewrite length_zip_with, Hm|].
    intros i x y Hi. rewrite list_lookup_fmap, lookup_seq_lt by done. cbn [fmap option_fmap option_map Nat.add].
    rewrite lookup_zip_with. destruct (k !! i) as [ki|] eqn:Ek; [|done]. destruct (m !! i) as [mi|] eqn:Em; [|done].
    cbn. intros [= <-] [= <-]. by rewrite (list_lookup_total_correct _ _ _ Ek), (list_lookup_total_correct _ _ _ Em). }
  rewrite Ez. generalize (seq 0 64). intros l. clear Ez. revert r Hr. induction l as [|i l IH]; intros r Hr; [done|].
  cbn [foldl fmap list_fmap]. destruct (round_step m r i Hr) as [-> Hs]. by apply IH.
Qed.

Lemma add_regs_u32 r s : regs_u32 (add_regs r s).
Proof.
  destruct r as [[[[[[[a b] c] d] e] f] g] h], s as [[[[[[[a' b'] c'] d'] e'] f'] g'] h'].
  unfold regs_u32, add_regs. cbn [regs_list]. repeat constructor; apply u32_range.
Qed.

(** ** The message schedule *)
Definition bytes (l : list Z) : Prop := Forall is_u8 l.

Lemma bytes_take n l : bytes l -> bytes (take n l).
Proof. apply Forall_take. Qed.
Lemma bytes_drop n l : bytes l -> bytes (drop n l).
Proof. apply Forall_drop. Qed.
#[export] Hint Resolve bytes_take bytes_drop : word32.

Lemma swap_le b0 b1 b2 b3 rest : is_u8 b0 -> is_u8 b1 -> is_u8 b2 -> is_u8 b3 ->
  SWAP32 (le32 (b0 :: b1 :: b2 :: b3 :: rest)) = be32 [b0; b1; b2; b3] /\ is_u32 (be32 [b0; b1; b2; b3]).
Proof.
  intros H0 H1 H2 H3. cbn [le32 be32]. set (w := b0 + 2 ^ 8 * b1 + 2 ^ 16 * b2 + 2 ^ 24 * b3). unfold SWAP32.
  assert (E0 : w mod 2 ^ 8 = b0 /\ w / 2 ^ 8 = b1 + 2 ^ 8 * b2 + 2 ^ 16 * b3 /\ w / 2 ^ 16 = b2 + 2 ^ 8 * b3 /\ w / 2 ^ 24 = b3).
  { unfold w. revert H0 H1 H2 H3. clear. unfold is_u8. intros. split_and!; Z.div_mod_to_equations; lia. }
  destruct E0 as (-> & -> & -> & ->).
  replace ((b1 + 2 ^ 8 * b2 + 2 ^ 16 * b3) mod 2 ^ 8) with b1 by (unfold is_u8 in *; Z.div_mod_to_equations; lia).
  replace ((b2 + 2 ^ 8 * b3) mod 2 ^ 8) with b2 by (unfold is_u8 in *; Z.div_mod_to_equations; lia).
  rewrite (Z.mod_small b3) by done. unfold is_u8, is_u32 in *. lia.
Qed.

Lemma drop_four {A} i (l : list A) : (4 * i + 4 <= length l)%nat ->
  exists a b c d rest, drop (4 * i) l = a :: b :: c :: d :: rest.
Proof.
  intros Hl. assert (H : (4 <= length (drop (4 * i) l))%nat) by (rewrite length_drop; lia).
  destruct (drop (4 * i) l) as [|a [|b [|c [|d rest]]]]; cbn [length] in H; try lia. by exists a, b, c, d, rest.
Qed.

Lemma data_word_be data i : bytes data -> (4 * i + 4 <= length data)%nat ->
  SWAP32 (data_word data i) = be32 (chunk 4 data i) /\ is_u32 (be32 (chunk 4 data i)).
Proof.
  intros Hb Hl. unfold data_word, chunk. destruct (drop_four i data Hl) as (a & b & c & d & rest & E).
  assert (Hd : bytes (drop (4 * i) data)) by auto with word32. rewrite E in Hd |- *. cbn [take].
  unfold bytes in Hd. rewrite !Forall_cons in Hd. destruct Hd as (? & ? & ? & ? & _). by apply swap_le.
Qed.

Definition block_words (data : list Z) : list Z := be32 <$> chunks 4 data.

Lemma first_words data : bytes data -> length data = 64%nat ->
  (fun i => SWAP32 (data_word data i)) <$> seq 0 16 = block_words data /\ Forall is_u32 (block_words data).
Proof.
  intros Hb Hl. unfold block_words, chunks. rewrite Hl. change (64 / 4)%nat with 16%nat. rewrite <- list_fmap_compose.
  assert (H : forall i, i ∈ seq 0 16 -> SWAP32 (data_word data i) = be32 (chunk 4 data i) /\ is_u32 (be32 (chunk 4 data i))).
  { intros i Hi%elem_of_seq. apply data_word_be; [done|]. rewrite Hl. lia. }
  split.
  - apply list_fmap_ext. intros n i Hi. apply H. by apply list_elem_of_lookup_2 in Hi.
  - apply Forall_fmap, Forall_forall. intros i Hi. by apply H.
Qed.

(** The words of the schedule so far. *)
Record schedule_upto (n : nat) (block m : list Z) : Prop := {
  su_length : length m = (16 + n)%nat;
  su_block : take 16 m = block;
  su_u32 : Forall is_u32 m;
  su_next : forall t, (16 <= t < 16 + n)%nat ->
    m !!! t = (sigma1 (m !!! (t - 2)%nat) + m !!! (t - 7)%nat + sigma0 (m !!! (t - 15)%nat) + m !!! (t - 16)%nat) mod 2 ^ 32
}.

Lemma lookup_total_u32 m i : Forall is_u32 m -> is_u32 (m !!! i).
Proof.
  intros H. rewrite list_lookup_total_alt. destruct (m !! i) as [x|] eqn:E; [|done].
  rewrite Forall_lookup in H. by eapply H.
Qed.

Lemma schedule_next n block m : schedule_upto n block m -> schedule_upto (S n) block (m_next m n).
Proof.
  intros [Hl Hb Hu Hn]. unfold m_next. rewrite SIG0_eq, SIG1_eq by (by apply lookup_total_u32).
  set (w := u32 _). split.
  - rewrite length_app. cbn [length]. lia.
  - rewrite take_app_le by lia. done.
  - apply Forall_app. split; [done|]. constructor; [apply u32_range|done].
  - intros t Ht. destruct (decide (t = 16 + n)%nat) as [->|Hne].
    + rewrite (lookup_total_app_r m [w]) by lia. replace (16 + n - length m)%nat with 0%nat by lia.
      rewrite !lookup_total_app_l by lia. cbn [lookup_total list_lookup_total]. unfold w, u32.
      replace (14 + n)%nat with (16 + n - 2)%nat by lia. replace (9 + n)%nat with (16 + n - 7)%nat by lia.
      replace (1 + n)%nat with (16 + n - 15)%nat by lia. by replace n with (16 + n - 16)%nat at 4 by lia.
    + rewrite !lookup_total_app_l by lia. apply Hn. lia.
Qed.

Lemma m_of_schedule data : bytes data -> length data = 64%nat -> is_schedule (block_words data) (m_of data).
Proof.
  intros Hb Hl. destruct (first_words data Hb Hl) as [E Hu]. unfold m_of. rewrite E.
  assert (H : forall n, schedule_upto n (block_words data) (foldl m_next (block_words data) (seq 0 n))).
  { induction n as [|n IH].
    - assert (Hlen : length (block_words data) = 16%nat) by (by rewrite <- E).
      split; cbn [seq foldl]; [done|by rewrite take_ge by lia|done|lia].
    - rewrite seq_S, foldl_app. cbn [foldl Nat.add]. by apply schedule_next. }
  destruct (H 48%nat) as [H1 H2 _ H3]. by split.
Qed.

Lemma is_schedule_unique block W W' : is_schedule block W -> is_schedule block W' -> W = W'.
Proof.
  intros [Hl Hb Hn] [Hl' Hb' Hn'].
  assert (H : forall n t, (t < n)%nat -> (t < 64)%nat -> W !!! t = W' !!! t).
  { induction n as [|n IH]; intros t Ht Ht'; [lia|]. destruct (decide (t < 16)%nat) as [Hs|Hs].
    - assert (E : take 16 W !! t = take 16 W' !! t) by congruence.
      rewrite !lookup_take_lt in E by done. by rewrite !list_lookup_total_alt, E.
    - rewrite Hn, Hn' by lia. rewrite !(IH (t - _)%nat) by lia. done. }
  apply list_eq_same_length with (n := 64%nat); [done|done|]. intros i x y Hi Hx Hy.
  specialize (H 64%nat i Hi Hi).
  by rewrite (list_lookup_total_correct _ _ _ Hx), (list_lookup_total_correct _ _ _ Hy) in H.
Qed.

Lemma hashes_det H blocks H1 H2 : hashes H blocks H1 -> hashes H blocks H2 -> H1 = H2.
Proof.
  intros Ha. revert H2. induction Ha as [H|H block W blocks H1 HW Ha IH]; intros H2 Hb; inversion Hb; subst; [done|].
  match goal with HW' : is_schedule block ?W' |- _ => pose proof (is_schedule_unique _ _ _ HW HW') as -> end. by apply IH.
Qed.

Lemma sha256_det msg d1 d2 : sha256 msg d1 -> sha256 msg d2 -> d1 = d2.
Proof.
  intros (H1 & H1' & Hi1 & Hh1 & ->) (H2 & H2' & Hi2 & Hh2 & ->).
  assert (H1 = H2) as <-.
  { unfold initial in *. rewrite <- Hi2 in Hi1. destruct H1 as [[[[[[[]]]]]]], H2 as [[[[[[[]]]]]]].
    cbn [regs_list] in Hi1. congruence. }
  by rewrite (hashes_det _ _ _ _ Hh1 Hh2).
Qed.

Lemma hashes_app H l1 H1 l2 H2 : hashes H l1 H1 -> hashes H1 l2 H2 -> hashes H (l1 ++ l2) H2.
Proof. intros Ha Hb. induction Ha; [done|]. cbn [app]. econstructor; eauto. Qed.

Lemma transform_hashes data ctx : bytes data -> length data = 64%nat -> regs_u32 (state ctx) ->
  hashes (state ctx) [block_words data] (state (sha256_transform data ctx)) /\
  regs_u32 (state (sha256_transform data ctx)) /\ bitlen (sha256_transform data ctx) = bitlen ctx.
Proof.
  intros Hb Hl Hr. pose proof (m_of_schedule data Hb Hl) as HW. unfold sha256_transform.
  destruct (rounds_compress (m_of data) (state ctx) Hr (sch_length _ _ HW)) as [-> _].
  cbn [state bitlen set_state]. split_and!; [|apply add_regs_u32|done].
  eapply hs_block; [exact HW|constructor].
Qed.

(** ** Blocks and bytes *)
Lemma chunk_S n l i : chunk n l (S i) = chunk n (drop n l) i.
Proof. unfold chunk. rewrite drop_drop. do 2 f_equal. lia. Qed.
Lemma chunks_app n l1 l2 : (0 < n)%nat -> length l1 = n -> chunks n (l1 ++ l2) = l1 :: chunks n l2.
Proof.
  intros Hn Hl. unfold chunks. rewrite length_app, Hl.
  replace (n + length l2)%nat with (1 * n + length l2)%nat by lia. rewrite Nat.div_add_l by lia.
  cbn [seq fmap list_fmap Nat.add]. f_equal.
  - unfold chunk. rewrite Nat.mul_0_r, drop_0. by rewrite take_app_length' by done.
  - rewrite <- fmap_S_seq, <- list_fmap_compose. apply list_fmap_ext. intros _ i _. cbn [compose].
    rewrite chunk_S. by rewrite drop_app_length' by done.
Qed.

Lemma parse_app l1 l2 : length l1 = 64%nat -> parse (l1 ++ l2) = block_words l1 :: parse l2.
Proof. intros Hl. unfold parse. by rewrite chunks_app by (done || lia). Qed.

Lemma le_bytes_swap w : is_u32 w -> le_bytes (SWAP32 w) = be_bytes 4 w.
Proof.
  intros Hw. unfold be_bytes. change (reverse (seqZ 0 (Z.of_nat 4))) with [3; 2; 1; 0].
  cbn [fmap list_fmap]. change (8 * 3) with 24. change (8 * 2) with 16. change (8 * 1) with 8.
  change (w / 2 ^ (8 * 0)) with (w / 1). rewrite Z.div_1_r. unfold le_bytes, SWAP32. unfold is_u32 in Hw.
  set (b0 := w mod 2 ^ 8). set (b1 := w / 2 ^ 8 mod 2 ^ 8). set (b2 := w / 2 ^ 16 mod 2 ^ 8). set (b3 := w / 2 ^ 24 mod 2 ^ 8).
  assert (H : 0 <= b0 < 2 ^ 8 /\ 0 <= b1 < 2 ^ 8 /\ 0 <= b2 < 2 ^ 8 /\ 0 <= b3 < 2 ^ 8)
    by (unfold b0, b1, b2, b3; split_and!; apply Z.mod_pos_bound; lia).
  clearbody b0 b1 b2 b3. clear Hw. repeat f_equal; Z.div_mod_to_equations; lia.
Qed.

Lemma be_bytes_long w : is_u32 w -> be_bytes 8 w = [0; 0; 0; 0] ++ be_bytes 4 w.
Proof.
  intros Hw. unfold be_bytes. change (reverse (seqZ 0 (Z.of_nat 8))) with [7; 6; 5; 4; 3; 2; 1; 0].
  change (reverse (seqZ 0 (Z.of_nat 4))) with [3; 2; 1; 0]. cbn [fmap list_fmap app].
  assert (H : forall i, 4 <= i -> w / 2 ^ (8 * i) mod 2 ^ 8 = 0).
  { intros i Hi. rewrite (Z.div_small w); [done|]. unfold is_u32 in Hw.
    assert (2 ^ 32 <= 2 ^ (8 * i)) by (apply Z.pow_le_mono_r; lia). lia. }
  by rewrite !(H 7), !(H 6), !(H 5), !(H 4) by lia.
Qed.

Lemma store_mid pre ws rest i : i = Z.of_nat (length pre) -> (length ws <= length rest)%nat ->
  store i ws (pre ++ rest) = Some (pre ++ ws ++ drop (length ws) rest).
Proof.
  intros -> Hl. unfold store. rewrite length_app. rewrite (proj2 (Z.leb_le _ _)) by lia. f_equal.
  unfold splice. rewrite Nat2Z.id, take_app_length. do 2 f_equal. rewrite <- drop_drop, drop_app_length. done.
Qed.

Lemma bytes_be n w : bytes (be_bytes n w).
Proof. unfold bytes, be_bytes. apply Forall_fmap, Forall_true. intros i. apply Z.mod_pos_bound. lia. Qed.
Lemma bytes_zeros n : bytes (replicate n 0).
Proof. unfold bytes. by apply Forall_replicate. Qed.
Lemma length_be n w : length (be_bytes n w) = n.
Proof. unfold be_bytes. rewrite length_fmap, length_reverse, length_seqZ. lia. Qed.

(** ** Streaming *)
Lemma update_loop_ok data len : bytes data -> len <= Z.of_nat (length data) -> len < 2 ^ 32 ->
  forall j fuel i ctx, (j <= fuel)%nat -> i + 64 * Z.of_nat j = len -> 0 <= i -> 0 <= bitlen ctx ->
  bitlen ctx + 512 * Z.of_nat j < 2 ^ 32 -> regs_u32 (state ctx) ->
  exists ctx', update_loop fuel i data len ctx = Some ctx' /\ regs_u32 (state ctx') /\
    bitlen ctx' = bitlen ctx + 512 * Z.of_nat j /\
    hashes (state ctx) (parse (take (64 * j) (drop (Z.to_nat i) data))) (state ctx').
Proof.
  intros Hb Hlen H32. induction j as [|j IH]; intros fuel i ctx Hf Hi Hi0 Hb0 Hbl Hr.
  - destruct fuel; cbn [update_loop]; rewrite (proj2 (Z.ltb_ge _ _)) by lia; exists ctx; split_and!; try done; try lia; constructor.
  - destruct fuel as [|fuel]; [lia|]. cbn [update_loop]. rewrite (proj2 (Z.ltb_lt _ _)) by lia.
    unfold load. rewrite (proj2 (Z.leb_le _ _)) by lia. cbn [mbind option_bind]. change (Z.to_nat 64) with 64%nat.
    set (block := take 64 (drop (Z.to_nat i) data)).
    assert (Hblen : length block = 64%nat) by (unfold block; rewrite length_take, length_drop; lia).
    change 0xffffffff with (2 ^ 32 - 1). rewrite land_ones_mod, Z.mod_small by lia.
    set (ctx1 := set_bitlen _ ctx).
    destruct (transform_hashes block ctx1) as (Hh & Hr1 & Hbl1); [unfold block; auto with word32|done|done|].
    rewrite u32_id by (unfold is_u32; lia).
    destruct (IH fuel (i + 64) (set_bitlen (u64 (bitlen (sha256_transform block ctx1) + 512)) (sha256_transform block ctx1)))
      as (ctx' & E & Hr' & Hbl' & Hh'); cbn [bitlen state set_bitlen]; rewrite ?Hbl1; cbn [bitlen set_bitlen ctx1];
      try done; try lia; try (rewrite u64_id by (unfold is_u64; lia); lia).
    exists ctx'. split_and!; [done|done| |].
    + cbn [bitlen set_bitlen] in Hbl'. rewrite Hbl', Hbl1. cbn [bitlen set_bitlen ctx1]. rewrite u64_id by (unfold is_u64; lia). lia.
    + replace (take (64 * S j) (drop (Z.to_nat i) data)) with (block ++ take (64 * j) (drop (Z.to_nat (i + 64)) data)).
      2: { unfold block. rewrite Z2Nat.inj_add by lia. change (Z.to_nat 64) with 64%nat. rewrite <- drop_drop.
           replace (64 * S j)%nat with (64 + 64 * j)%nat by lia. by rewrite take_take_drop. }
      rewrite parse_app by done. apply (hashes_app _ [block_words block] (state (sha256_transform block ctx1))); [exact Hh|exact Hh'].
Qed.

(** The last block or the last two: what is left of the message, the padding and the
    length, whatever the array contained before. *)
Definition last_bytes (rest : list Z) (bits : Z) : list Z :=
  rest ++ 0x80 :: replicate (Z.to_nat ((55 - Z.of_nat (length rest)) mod 64)) 0 ++ be_bytes 8 bits.

Lemma write_length pre rest bits ctx : length pre = 56%nat -> length rest = 8%nat -> is_u32 bits -> bytes pre ->
  regs_u32 (state ctx) -> u32 (bitlen ctx) = bits ->
  exists H', (data ← store 56 (le_bytes 0) (pre ++ rest);
              data ← store 60 (le_bytes (SWAP32 (u32 (bitlen ctx)))) data;
              Some (SWAP32 <$> regs_list (state (sha256_transform data ctx)))) = Some (SWAP32 <$> regs_list H') /\
    regs_u32 H' /\ hashes (state ctx) (parse (pre ++ be_bytes 8 bits)) H'.
Proof.
  intros Hp Hr Hb Hpre Hs Hbl.
  rewrite (store_mid pre (le_bytes 0) rest) by (rewrite ?Hp, ?Hr; cbn; lia). cbn [mbind option_bind].
  rewrite Hbl, le_bytes_swap by done. change (le_bytes 0) with [0; 0; 0; 0]. rewrite app_assoc.
  rewrite store_mid by (rewrite ?length_app, ?length_drop, ?Hp, ?length_be, ?Hr; cbn; lia). cbn [mbind option_bind].
  rewrite (drop_ge (drop _ rest)) by (rewrite length_drop, length_be, Hr; cbn; lia). rewrite app_nil_r.
  rewrite <- app_assoc, <- be_bytes_long by done. set (data := pre ++ be_bytes 8 bits).
  assert (Hd : length data = 64%nat) by (unfold data; rewrite length_app, Hp, length_be; done).
  destruct (transform_hashes data ctx) as (Hh & Hr' & _); [|done|done|].
  { unfold data, bytes. apply Forall_app. split; [done|apply bytes_be]. }
  exists (state (sha256_transform data ctx)). split_and!; [done|done|].
  pose proof (parse_app data [] Hd) as Ep. rewrite app_nil_r in Ep. rewrite Ep. exact Hh.
Qed.

Lemma finalize_short garbage rest bits ctx : length garbage = 64%nat -> bytes rest -> (length rest < 56)%nat ->
  is_u32 bits -> regs_u32 (state ctx) -> u32 (bitlen ctx) = bits ->
  let r := Z.of_nat (length rest) in
  exists H', (data ← store (r + 1) (zeros (56 - r - 1)) (rest ++ [0x80] ++ drop (length rest + 1) garbage);
              data ← store 56 (le_bytes 0) data;
              data ← store 60 (le_bytes (SWAP32 (u32 (bitlen ctx)))) data;
              Some (SWAP32 <$> regs_list (state (sha256_transform data ctx)))) = Some (SWAP32 <$> regs_list H') /\
    regs_u32 H' /\ hashes (state ctx) (parse (last_bytes rest bits)) H'.
Proof.
  intros Hg Hb Hl Hbits Hs Hbl r.
  assert (Hz : length (zeros (56 - r - 1)) = (55 - length rest)%nat) by (unfold zeros, r; rewrite length_replicate; lia).
  rewrite app_assoc, store_mid by (rewrite ?Hz, ?length_app, ?length_drop, ?Hg; cbn; lia). cbn [mbind option_bind].
  rewrite drop_drop, Hz. replace (length rest + 1 + (55 - length rest))%nat with 56%nat by lia. rewrite app_assoc.
  destruct (write_length ((rest ++ [0x80]) ++ zeros (56 - r - 1)) (drop 56 garbage) bits ctx) as (H' & E & HH); try done.
  - rewrite !length_app, Hz. cbn. lia.
  - by rewrite length_drop, Hg.
  - unfold bytes. rewrite !Forall_app. split_and!; [done|by constructor|apply bytes_zeros].
  - exists H'. split; [exact E|]. unfold last_bytes. replace (Z.to_nat ((55 - Z.of_nat (length rest)) mod 64)) with (Z.to_nat (56 - r - 1)).
    + rewrite <- !app_assoc in HH. exact HH.
    + unfold r. rewrite Z.mod_small by lia. lia.
Qed.

Lemma finalize_long garbage rest bits ctx : length garbage = 64%nat -> bytes rest -> (56 <= length rest < 64)%nat ->
  is_u32 bits -> regs_u32 (state ctx) -> u32 (bitlen ctx) = bits ->
  let r := Z.of_nat (length rest) in
  exists H', (data ← (if r + 1 <? 64 then store (r + 1) (zeros (64 - r - 1)) (rest ++ [0x80] ++ drop (length rest + 1) garbage)
                      else Some (rest ++ [0x80] ++ drop (length rest + 1) garbage));
              '(ctx, data) ← (data' ← store 0 (zeros 56) data; Some (sha256_transform data ctx, data'));
              data ← store 56 (le_bytes 0) data;
              data ← store 60 (le_bytes (SWAP32 (u32 (bitlen ctx)))) data;
              Some (SWAP32 <$> regs_list (state (sha256_transform data ctx)))) = Some (SWAP32 <$> regs_list H') /\
    regs_u32 H' /\ hashes (state ctx) (parse (last_bytes rest bits)) H'.
Proof.
  intros Hg Hb Hl Hbits Hs Hbl r. set (block := rest ++ 0x80 :: zeros (64 - r - 1)).
  assert (Hz : length (zeros (64 - r - 1)) = (63 - length rest)%nat) by (unfold zeros, r; rewrite length_replicate; lia).
  assert (Hblock : length block = 64%nat) by (unfold block; rewrite length_app; cbn [length]; lia).
  assert (Hbb : bytes block).
  { unfold block, bytes. rewrite Forall_app, Forall_cons. split_and!; [done|done|apply bytes_zeros]. }
  assert (E1 : (if r + 1 <? 64 then store (r + 1) (zeros (64 - r - 1)) (rest ++ [0x80] ++ drop (length rest + 1) garbage)
                else Some (rest ++ [0x80] ++ drop (length rest + 1) garbage)) = Some block).
  { destruct (Z.ltb_spec (r + 1) 64).
    - rewrite app_assoc, store_mid by (rewrite ?Hz, ?length_app, ?length_drop, ?Hg; cbn; lia).
      rewrite drop_drop, Hz, drop_ge by lia. unfold block. by rewrite app_nil_r, <- app_assoc.
    - unfold block. rewrite drop_ge by lia. f_equal. f_equal. unfold zeros. by replace (Z.to_nat (64 - r - 1)) with 0%nat by lia. }
  rewrite E1. cbn [mbind option_bind].
  assert (Hz56 : length (zeros 56) = 56%nat) by reflexivity.
  rewrite (store_mid [] (zeros 56) block) by (rewrite ?Hblock, ?Hz56; done || lia). cbn [mbind option_bind app].
  rewrite Hz56.
  destruct (transform_hashes block ctx) as (Hh & Hr & Hbl'); [done|done|done|].
  destruct (write_length (zeros 56) (drop 56 block) bits (sha256_transform block ctx)) as (H' & E & Hu & HH); try done.
  - by rewrite length_drop, Hblock.
  - apply bytes_zeros.
  - exists H'. split_and!; [exact E|exact Hu|].
    assert (El : last_bytes rest bits = block ++ zeros 56 ++ be_bytes 8 bits).
    { unfold last_bytes, block. rewrite <- app_assoc. f_equal. rewrite <- app_comm_cons. f_equal. rewrite app_assoc. f_equal.
      unfold zeros. rewrite <- replicate_add. f_equal. unfold r.
      replace ((55 - Z.of_nat (length rest)) mod 64) with (119 - Z.of_nat (length rest)); [lia|].
      symmetry. rewrite <- (Z.mod_small (119 - Z.of_nat (length rest)) 64) by lia.
      replace (119 - Z.of_nat (length rest)) with (55 - Z.of_nat (length rest) + 1 * 64) by lia. by rewrite Z.mod_add by lia. }
    rewrite El, parse_app by done. apply (hashes_app _ [block_words block] _ _ _ Hh HH).
Qed.

Lemma finalize_ok garbage input rest ctx : length garbage = 64%nat -> bytes rest -> (length rest < 64)%nat ->
  take (length rest) input = rest -> 0 <= bitlen ctx -> regs_u32 (state ctx) ->
  bitlen ctx + 8 * Z.of_nat (length rest) < 2 ^ 32 ->
  exists H', sha256_finalize garbage input (Z.of_nat (length rest)) ctx = Some (SWAP32 <$> regs_list H') /\
    regs_u32 H' /\ hashes (state ctx) (parse (last_bytes rest (bitlen ctx + 8 * Z.of_nat (length rest)))) H'.
Proof.
  intros Hg Hb Hl Ht Hb0 Hs Hlen. unfold sha256_finalize. change 0xffffffff with (2 ^ 32 - 1).
  rewrite !land_ones_mod, (Z.mod_small (Z.of_nat _)), (Z.mod_small (bitlen ctx)) by lia. cbn [bitlen state set_bitlen].
  assert (Hi : (length rest <= length input)%nat) by (rewrite <- Ht at 1; rewrite length_take; lia).
  unfold load at 1. rewrite (proj2 (Z.leb_le _ _)) by lia. cbn [mbind option_bind]. rewrite drop_0, Nat2Z.id, Ht.
  rewrite (store_mid [] rest garbage) by (rewrite ?Hg; cbn; lia). cbn [mbind option_bind app].
  rewrite (store_mid rest [0x80]) by (rewrite ?length_drop, ?Hg; cbn; lia). cbn [mbind option_bind]. rewrite drop_drop.
  change (length [0x80]) with 1%nat. rewrite u64_id by (unfold is_u64; lia).
  set (bits := bitlen ctx + 8 * Z.of_nat (length rest)). rewrite (Z.mul_comm (Z.of_nat (length rest)) 8). fold bits.
  set (ctx1 := set_bitlen _ _). assert (Hu : is_u32 bits) by (unfold is_u32, bits; lia).
  destruct (Z.ltb_spec (Z.of_nat (length rest)) 56).
  - destruct (finalize_short garbage rest bits ctx1) as (H' & E & HH); try done; [lia|by apply u32_id|].
    exists H'. split; [|exact HH]. destruct (store _ (zeros _) _) as [data|]; [|done]. exact E.
  - destruct (finalize_long garbage rest bits ctx1) as (H' & E & HH); try done; [lia|by apply u32_id|].
    exists H'. split; [|exact HH]. rewrite <- E. by destruct (if _ <? 64 then _ else _) as [data|]; [|done].
Qed.

Lemma parse_app_blocks j l1 l2 : length l1 = (64 * j)%nat -> parse (l1 ++ l2) = parse l1 ++ parse l2.
Proof.
  revert l1. induction j as [|j IH]; intros l1 Hl.
  - by destruct l1; [|cbn in Hl].
  - rewrite <- (take_drop 64 l1) at 1 2.
    rewrite <- app_assoc, !parse_app by (rewrite length_take; lia). cbn [app].
    rewrite (parse_app (take 64 l1) (drop 64 l1)) by (rewrite length_take; lia). cbn [app].
    by rewrite IH by (rewrite length_drop; lia).
Qed.

Lemma pad_split data j : (64 * j <= length data)%nat ->
  pad data = take (64 * j) data ++ last_bytes (drop (64 * j) data) (8 * Z.of_nat (length data)).
Proof.
  intros Hj. unfold pad, last_bytes. rewrite app_assoc, take_drop. do 3 f_equal. f_equal. f_equal.
  rewrite length_drop. replace (55 - Z.of_nat (length data - 64 * j)) with (55 - Z.of_nat (length data) + Z.of_nat j * 64) by lia.
  by rewrite Z.mod_add by lia.
Qed.

Lemma calc_key_ok garbage data : length garbage = 64%nat -> bytes data -> Z.of_nat (length data) < 2 ^ 29 ->
  exists d, calc_key garbage data (Z.of_nat (length data)) = Some d /\ sha256 data d.
Proof.
  intros Hg Hb Hl. set (size := Z.of_nat (length data)). set (q := Z.to_nat (size / 64)).
  assert (Hq : Z.of_nat q = size / 64) by (unfold q; rewrite Z2Nat.id; [done|apply Z.div_pos; lia]).
  assert (Hqr : size = 64 * (size / 64) + size mod 64 /\ 0 <= size mod 64 < 64)
    by (split; [apply Z.div_mod; lia|apply Z.mod_pos_bound; lia]).
  assert (Hoff : Z.to_nat (size / 64 * 64) = (64 * q)%nat) by lia.
  assert (Hctx : exists ctx, (if 0 <? size / 64 * 64 then pva_sha256_update data (size / 64 * 64) sha256_init else Some sha256_init) = Some ctx /\
    regs_u32 (state ctx) /\ bitlen ctx = 512 * Z.of_nat q /\ hashes (state sha256_init) (parse (take (64 * q) data)) (state ctx)).
  { assert (Hi : regs_u32 (state sha256_init)) by (repeat constructor; done).
    destruct (Z.ltb_spec 0 (size / 64 * 64)).
    - unfold pva_sha256_update. destruct (update_loop_ok data (size / 64 * 64) Hb ltac:(lia) ltac:(lia) q
        (Z.to_nat (size / 64 * 64 / 64 + 1)) 0 sha256_init) as (ctx & E & Hr & Hbl & Hh); cbn [bitlen sha256_init]; try done; try lia.
      { rewrite Z.div_mul by lia. lia. }
      exists ctx. by split_and!.
    - exists sha256_init. assert (q = 0%nat) as -> by lia. split_and!; try done. constructor. }
  destruct Hctx as (ctx & Ectx & Hr & Hbl & Hh). unfold calc_key. fold size. rewrite Ectx. cbn [mbind option_bind]. rewrite Hoff.
  set (rest := drop (64 * q) data). assert (Hrest : Z.of_nat (length rest) = size mod 64) by (unfold rest; rewrite length_drop; lia).
  destruct (finalize_ok garbage rest rest ctx) as (H' & E & Hu & HH); try done; try lia.
  { unfold rest. auto with word32. }
  { by rewrite firstn_all. }
  rewrite <- Hrest. rewrite E. cbn [mbind option_bind]. eexists. split; [done|].
  exists (state sha256_init), H'. split; [apply H0_table|]. split.
  - rewrite (pad_split data q) by lia. rewrite (parse_app_blocks q) by (rewrite length_take; lia).
    eapply hashes_app; [exact Hh|]. rewrite Hbl in HH.
    replace (512 * Z.of_nat q + 8 * Z.of_nat (length rest)) with (8 * size) in HH by lia. exact HH.
  - f_equal. rewrite <- list_fmap_compose. apply list_fmap_ext. intros i w Hw. cbn [compose]. apply le_bytes_swap.
    unfold regs_u32 in Hu. rewrite Forall_lookup in Hu. by eapply Hu.
Qed.

(** C9. SHA-256 of a message of less than 2^29 bytes, as the driver computes it: the full
    blocks are streamed, the rest is finalized in a buffer with arbitrary contents, and
    the digest is the one of the standard, with the constants derived from the roots of
    primes.  The standard's relation determines the digest. *)
Theorem sha256_correct (garbage msg digest : list Z) :
  length garbage = 64%nat -> bytes msg -> Z.of_nat (length msg) < 2 ^ 29 ->
  calc_key garbage msg (Z.of_nat (length msg)) = Some digest <-> sha256 msg digest.
Proof.
  intros Hg Hb Hl. destruct (calc_key_ok garbage msg Hg Hb Hl) as (d & E & Hd). split.
  - rewrite E. by intros [= <-].
  - intros H. rewrite E. f_equal. by eapply sha256_det.
Qed.

(** The digest of "abc" of the standard. *)
Lemma sha256_correct_witness : sha256 [0x61; 0x62; 0x63]
  [0xba; 0x78; 0x16; 0xbf; 0x8f; 0x01; 0xcf; 0xea; 0x41; 0x41; 0x40; 0xde; 0x5d; 0xae; 0x22; 0x23;
   0xb0; 0x03; 0x61; 0xa3; 0x96; 0x17; 0x7a; 0x9c; 0xb4; 0x10; 0xff; 0x61; 0xf2; 0x00; 0x15; 0xad].
Proof.
  apply (sha256_correct (replicate 64 0x55)); [done|repeat constructor; done|done|]. exact calc_key_abc.
Defined.

(** The upper half of the length is always written as 0: for messages from 2^29 bytes on
    the padding ends in a length that is too small. *)
Lemma length_truncated garbage input size ctx :
  0 <= size < 64 -> sha256_finalize garbage input size (set_bitlen (u32 (bitlen ctx)) ctx) = sha256_finalize garbage input size ctx.
Proof.
  intros Hs. unfold sha256_finalize. cbn [bitlen set_bitlen state]. change 0xffffffff with (2 ^ 32 - 1).
  rewrite !land_ones_mod by lia. by replace (u32 (bitlen ctx) mod 2 ^ 32) with (bitlen ctx mod 2 ^ 32) by width_lia.
Qed.
