(* ===== verification/PvaAuth.v ===== *)
(** Authentication of VPU programs by the PVA's driver
    (src/drivers/video/tegra/host/pva/pva_vpu_app_auth.c, pva_system_allow_list.c, and the
    part of pva_ioctl.c that calls it): the parser of allow lists, the search in one, and
    the comparison of digests ([PvaSha]).

    Objects of the allow list are values; [None] is an access outside an array or through
    a null pointer.  The lock of a list makes parsing one step. *)
From S2P Require Import Prelude Ring PvaSha.

Definition EACCES := 13.
Definition UINT_MAX := 2 ^ 32 - 1.

(** * Allow lists *)
Record vpu_hash_vector_s := HashVector { hv_count : Z; hv_index : Z; crc32_hash : Z }.

(** A key is its 32 bytes. *)
Record vpu_hash_key_pair_s := HashKeyPair {
  num_keys : Z;
  psha_key : list (list Z);
  num_hashes : Z;
  pvpu_hash_vector : list vpu_hash_vector_s }.

Record pva_vpu_auth_s := VpuAuth {
  vpu_hash_keys : option vpu_hash_key_pair_s;
  pva_auth_enable : bool;
  pva_auth_allow_list_parsed : bool }.

Definition pva_auth_allow_list_destroy (auth : pva_vpu_auth_s) : pva_vpu_auth_s :=
  VpuAuth None (pva_auth_enable auth) (pva_auth_allow_list_parsed auth).

(** ** Parsing *)
Record pva_buff_s := PvaBuff { buff : list Z; buf_pos : Z; buf_size : Z }.

(** The result, and the bytes that were copied. *)
Definition read_buff (src_buf : pva_buff_s) (size : Z) : option (Z * list Z * pva_buff_s) :=
  let pos := u32 (buf_pos src_buf + size) in
  if buf_size src_buf <? pos then Some (- 1, [], src_buf)
  else bs ← load (buff src_buf) (buf_pos src_buf) size; Some (s32 size, bs, PvaBuff (buff src_buf) pos (buf_size src_buf)).

Definition hash_vector_of (bs : list Z) : vpu_hash_vector_s :=
  HashVector (le32 bs) (le32 (drop 4 bs)) (le32 (drop 8 bs)).

Section parse.
(** Whether kzalloc gives a block of this size. *)
Variable kzalloc : Z -> bool.

Definition pva_auth_allow_list_parse_pva_buff (auth_list_buf : pva_buff_s) (auth : pva_vpu_auth_s)
    : option (Z * pva_vpu_auth_s) :=
  let auth := pva_auth_allow_list_destroy auth in
  if negb (kzalloc 32) then Some (- ENOMEM, auth)
  else
    '(read_bytes, bs, b) ← read_buff auth_list_buf 4;
    if negb (read_bytes =? 4) then Some (- EINVAL, auth)
    else
      let num_keys := le32 bs in
      let vkey_size := 32 * num_keys in
      if negb (kzalloc vkey_size) then Some (- ENOMEM, auth)
      else
        '(read_bytes, keys, b) ← read_buff b (u32 vkey_size);
        if negb (read_bytes =? vkey_size) then Some (- EINVAL, auth)
        else
          '(read_bytes, bs, b) ← read_buff b 4;
          if negb (read_bytes =? 4) then Some (- EINVAL, auth)
          else
            let num_hashes := le32 bs in
            let vhash_size := 12 * num_hashes in
            if negb (kzalloc vhash_size) then Some (- ENOMEM, auth)
            else
              '(read_bytes, hashes, b) ← read_buff b (u32 vhash_size);
              if negb (read_bytes =? vhash_size) then Some (- EINVAL, auth)
              else
                Some (0, VpuAuth (Some (HashKeyPair num_keys (chunks 32 keys) num_hashes (hash_vector_of <$> chunks 12 hashes)))
                           true true).

Definition pva_auth_allow_list_parse_buf (buffer : list Z) (length : Z) (auth : pva_vpu_auth_s) :=
  pva_auth_allow_list_parse_pva_buff (PvaBuff buffer 0 length) auth.

(** [firmware] is what nvpva_request_firmware finds. *)
Definition pva_auth_allow_list_parse (firmware : option (list Z)) (auth : pva_vpu_auth_s) :=
  match firmware with
  | None => Some (- ENOENT, auth)
  | Some data => pva_auth_allow_list_parse_pva_buff (PvaBuff data 0 (u32 (Z.of_nat (length data)))) auth
  end.
End parse.

(** ** CRC and search *)
Definition crc_bit (crc : Z) (_ : nat) : Z :=
  if Z.land crc 1 =? 1 then Z.lxor (Z.shiftr crc 1) 0xedb88320 else Z.shiftr crc 1.
Definition crc_byte (crc byte : Z) : Z := foldl crc_bit (Z.lxor crc byte) (seq 0 8).
Definition pva_crc32 (crc : Z) (buf : list Z) : Z := u32 (Z.lnot (foldl crc_byte (u32 (Z.lnot crc)) buf)).

Definition compare_hash_value (pkey pbase : vpu_hash_vector_s) : Z :=
  if crc32_hash pkey <? crc32_hash pbase then - 1 else if crc32_hash pbase <? crc32_hash pkey then 1 else 0.

(** The index of the element, or [None] for NULL. *)
Section search.
Context {A : Type} (key : A) (base : list A) (size : Z) (compare : A -> A -> Z).

Fixpoint search_loop (fuel : nat) (low high : Z) : option (option Z) :=
  match fuel with
  | O => None
  | S fuel =>
      let mid := u64 (low + u64 (high - low) / 2) in
      if UINT_MAX / size <? mid then Some None
      else
        mid_elem ← base !! Z.to_nat mid;
        let r := compare key mid_elem in
        if r <? 0 then
          if mid =? 0 then Some None else search_loop fuel low (mid - 1)
        else if 0 <? r then
          let low := u64 (mid + 1) in
          if (low <? mid) || (high <? low) then Some None else search_loop fuel low high
        else Some (Some mid)
  end.
Definition binary_search (num_elems : Z) : option (option Z) :=
  if (num_elems =? 0) || (size =? 0) then Some None
  else search_loop (S (Z.to_nat num_elems)) 0 (num_elems - 1).
End search.

(** ** Keys *)
Section check.
(** What the array of sha256_finalize contains at first. *)
Variable garbage : list Z.

Definition is_key_match (data : list Z) (size : Z) (key : list Z) : option Z :=
  calc ← calc_key garbage data size;
  Some (if decide (key = calc) then 0 else - EACCES).

(** The loop of check_all_keys_for_match; the error of the round before. *)
Fixpoint check_keys (pallkeys : list (list Z)) (data : list Z) (size : Z) (idx : Z) (count : nat) (err : Z) : option Z :=
  match count with
  | O => Some err
  | S count =>
      key ← pallkeys !! Z.to_nat idx;
      err ← is_key_match data size key;
      if err =? 0 then Some err else check_keys pallkeys data size (idx + 1) count err
  end.
Definition check_all_keys_for_match (pallkeys : list (list Z)) (data : list Z) (size : Z) (match_hash : vpu_hash_vector_s)
    : option Z :=
  let idx := hv_index match_hash in
  let count := hv_count match_hash in
  if UINT_MAX - count <? idx then Some (- ERANGE)
  else check_keys pallkeys data size idx (Z.to_nat count) 0.

Definition pva_vpu_check_sha256_key (vpu_hash_keys : vpu_hash_key_pair_s) (data : list Z) (size : Z) : option Z :=
  bs ← load data 0 size;
  let cal_Hash := HashVector 0 0 (pva_crc32 0 bs) in
  r ← binary_search cal_Hash (pvpu_hash_vector vpu_hash_keys) 12 compare_hash_value (num_hashes vpu_hash_keys);
  match r with
  | None => Some (- EACCES)
  | Some i =>
      match_Hash ← pvpu_hash_vector vpu_hash_keys !! Z.to_nat i;
      check_all_keys_for_match (psha_key vpu_hash_keys) data size match_Hash
  end.

(** ** Registering a program *)
Definition pva_auth_allow_list_sys : list Z := [
  0x08; 0x00; 0x00; 0x00; 0xcd; 0xdb; 0x32; 0x3b; 0xf3; 0x07; 0x1c; 0x33; 0x53; 0x86; 0xfa; 0x41;
  0x5e; 0x9b; 0xab; 0x9a; 0x54; 0x0b; 0x8f; 0x24; 0xa3; 0x79; 0xb2; 0x5d; 0xdf; 0xbf; 0x4a; 0x10;
  0xfa; 0x08; 0xd3; 0x7c; 0xca; 0xe7; 0x78; 0xb8; 0x19; 0xb1; 0x60; 0xdc; 0xd1; 0xd3; 0xd9; 0x83;
  0x10; 0xaa; 0x49; 0xb1; 0x0b; 0x95; 0x28; 0xff; 0x00; 0x0d; 0x9a; 0x50; 0x4d; 0x9b; 0x26; 0x56;
  0x85; 0x05; 0x73; 0xac; 0x4f; 0x06; 0xde; 0x93; 0x27; 0xb5; 0xec; 0x16; 0x4e; 0x6d; 0xb4; 0x86;
  0x46; 0xac; 0x48; 0xb2; 0x69; 0xdd; 0x45; 0xdd; 0x9b; 0x7c; 0xbe; 0x9d; 0x86; 0xea; 0x29; 0xda;
  0x58; 0x7e; 0x62; 0x66; 0x8d; 0x6e; 0xef; 0x80; 0x25; 0xef; 0xbc; 0x46; 0xa5; 0x86; 0x12; 0x2f;
  0x97; 0x0b; 0xcc; 0xe5; 0xfa; 0xb8; 0xa4; 0x1d; 0x4d; 0x0f; 0x89; 0xd8; 0xc1; 0xa0; 0xe1; 0x5f;
  0xae; 0x41; 0xce; 0x58; 0xe3; 0x70; 0x04; 0xf2; 0x35; 0x9c; 0x06; 0xc5; 0x9d; 0x8b; 0x51; 0x14;
  0x8c; 0x4a; 0x18; 0x72; 0xc9; 0xdb; 0xa4; 0x84; 0xd4; 0xeb; 0xed; 0xa8; 0x74; 0xa1; 0x3f; 0x9d;
  0x80; 0xae; 0xb3; 0xc6; 0xac; 0x96; 0xb6; 0xb6; 0x8e; 0x39; 0xd4; 0x86; 0xf6; 0x5f; 0xfa; 0x15;
  0x16; 0x90; 0x45; 0x5f; 0xfd; 0x2d; 0x70; 0xf5; 0x5a; 0xa7; 0xe9; 0x10; 0x85; 0x10; 0x6a; 0xa1;
  0x3f; 0x3f; 0x0e; 0x85; 0x47; 0x76; 0xd5; 0xf4; 0xcf; 0xa1; 0xa3; 0xe2; 0x29; 0xad; 0x07; 0x0f;
  0xda; 0x60; 0xdd; 0x6c; 0x42; 0x95; 0xf3; 0xd3; 0x5a; 0xbf; 0xc4; 0x2b; 0x5b; 0x30; 0x73; 0x1f;
  0x0b; 0x58; 0xab; 0x9d; 0x88; 0xf5; 0x8f; 0x90; 0x43; 0xb2; 0xe6; 0x99; 0xe3; 0x27; 0xaf; 0xf3;
  0x29; 0x60; 0xda; 0xc3; 0x35; 0xe2; 0x33; 0x5e; 0x5a; 0xe3; 0xf5; 0x9c; 0xe5; 0x21; 0xb0; 0xd7;
  0x71; 0xd7; 0x5d; 0x89; 0x08; 0x00; 0x00; 0x00; 0x01; 0x00; 0x00; 0x00; 0x00; 0x00; 0x00; 0x00;
  0x9a; 0xc6; 0x68; 0x10; 0x01; 0x00; 0x00; 0x00; 0x01; 0x00; 0x00; 0x00; 0xaa; 0x81; 0xa0; 0x39;
  0x01; 0x00; 0x00; 0x00; 0x02; 0x00; 0x00; 0x00; 0xe2; 0xae; 0x3b; 0x6f; 0x01; 0x00; 0x00; 0x00;
  0x03; 0x00; 0x00; 0x00; 0x03; 0xfc; 0xc3; 0x9b; 0x01; 0x00; 0x00; 0x00; 0x04; 0x00; 0x00; 0x00;
  0x61; 0x00; 0x27; 0xa1; 0x01; 0x00; 0x00; 0x00; 0x05; 0x00; 0x00; 0x00; 0xde; 0xdb; 0xd2; 0xc1;
  0x01; 0x00; 0x00; 0x00; 0x06; 0x00; 0x00; 0x00; 0xfd; 0x45; 0x08; 0xc5; 0x01; 0x00; 0x00; 0x00;
  0x07; 0x00; 0x00; 0x00; 0x05; 0xc0; 0xf1; 0xd7].
Definition pva_auth_allow_list_sys_len := 360.

Definition pva_authenticate_vpu_app (kzalloc : Z -> bool) (firmware : option (list Z)) (auth : pva_vpu_auth_s)
    (data : list Z) (size : Z) (is_sys : bool) : option (Z * pva_vpu_auth_s) :=
  if negb (pva_auth_enable auth) then Some (0, auth)
  else
    '(err, auth) ←
      (if negb (pva_auth_allow_list_parsed auth) then
         if is_sys then pva_auth_allow_list_parse_buf kzalloc pva_auth_allow_list_sys pva_auth_allow_list_sys_len auth
         else pva_auth_allow_list_parse kzalloc firmware auth
       else Some (0, auth));
    if negb (err =? 0) then Some (err, auth)
    else
      keys ← vpu_hash_keys auth;
      err ← pva_vpu_check_sha256_key keys data size;
      Some (err, auth).

(** [kvmalloc]: whether it gives a block of this size; [user_data]: the bytes that the copy from
    user space gives, [None] when it fails; [load_app]: the result of pva_load_vpu_app for the
    bytes, their number and [is_system].  The error; when the program has been registered,
    [is_system]; and the lists.  The size of the program has 64 bits here, and 32 in the
    authentication. *)
Definition pva_register_vpu_exec (kzalloc : Z -> bool) (firmware : option (list Z)) (kvmalloc : Z -> bool)
    (user_data : option (list Z)) (load_app : list Z -> Z -> bool -> Z)
    (auth auth_sys : pva_vpu_auth_s) (data_size : Z) : option (Z * option bool * pva_vpu_auth_s * pva_vpu_auth_s) :=
  let load data is_system auth auth_sys :=
    let err := load_app data data_size is_system in
    if negb (err =? 0) then Some (err, None, auth, auth_sys) else Some (0, Some is_system, auth, auth_sys) in
  if negb (kvmalloc data_size) then Some (- ENOMEM, None, auth, auth_sys)
  else
    match user_data with
    | None => Some (- EFAULT, None, auth, auth_sys)
    | Some data =>
        '(err, auth) ← pva_authenticate_vpu_app kzalloc firmware auth data (u32 data_size) false;
        if negb (err =? 0) then
          '(err, auth_sys) ← pva_authenticate_vpu_app kzalloc firmware auth_sys data (u32 data_size) true;
          if negb (err =? 0) then Some (err, None, auth, auth_sys) else load data true auth auth_sys
        else load data false auth auth_sys
    end.
End check.

(** pva_debug.c. *)
Definition set_authentication (val : Z) (auth : pva_vpu_auth_s) : pva_vpu_auth_s :=
  let enable := val =? 1 in
  VpuAuth (vpu_hash_keys auth) enable (if enable then false else pva_auth_allow_list_parsed auth).

(** The lists after probing (pva.c). *)
Definition initial_auth (version hw_gen2 : Z) : pva_vpu_auth_s := VpuAuth None (version <=? hw_gen2) false.

Example system_list_parses : exists auth,
  pva_auth_allow_list_parse_buf (fun _ => true) pva_auth_allow_list_sys pva_auth_allow_list_sys_len (initial_auth 2 2) = Some (0, auth).
Proof. eexists. vm_compute. reflexivity. Qed.

(** ** Binary search *)
Section search_facts.
Context {A : Type} (key : A) (base : list A) (size : Z) (compare : A -> A -> Z).

(** Sorted, as far as the key can tell. *)
Definition monotone : Prop := forall i j ei ej, (i < j)%nat -> base !! i = Some ei -> base !! j = Some ej ->
  (compare key ei < 0 -> compare key ej < 0) /\ (0 < compare key ej -> 0 < compare key ei).

(** Where an equal element can still be. *)
Record search_inv (low high : Z) : Prop := {
  sv_range : 0 <= low < Z.of_nat (length base);
  sv_high : 0 <= high < Z.of_nat (length base);
  sv_cross : low - 1 <= high;
  sv_below : monotone -> forall i e, Z.of_nat i < low -> base !! i = Some e -> 0 < compare key e;
  sv_above : monotone -> forall i e, high < Z.of_nat i -> base !! i = Some e -> compare key e < 0
}.

Definition search_result (r : option Z) : Prop :=
  match r with
  | Some i => exists e, 0 <= i /\ base !! Z.to_nat i = Some e /\ compare key e = 0
  | None => monotone -> Z.of_nat (length base) <= UINT_MAX / size + 1 -> forall i e, base !! i = Some e -> compare key e <> 0
  end.

Hypothesis size_pos : 0 < size.
Hypothesis base_small : Z.of_nat (length base) <= 2 ^ 32.

Lemma limit_range : 0 <= UINT_MAX / size < 2 ^ 32.
Proof. unfold UINT_MAX. split; [apply Z.div_pos; lia|]. apply Z.div_lt_upper_bound; nia. Qed.

Lemma search_left low high mid e : search_inv low high -> low <= mid <= high -> base !! Z.to_nat mid = Some e ->
  compare key e < 0 -> mid <> 0 -> search_inv low (mid - 1).
Proof.
  intros [H1 H2 H3 H4 H5] Hm He Hr Hz. split; [done|lia|lia|done|].
  intros Hmono i x Hi Hx. destruct (decide (i = Z.to_nat mid)) as [->|Hne]; [congruence|].
  destruct (Hmono (Z.to_nat mid) i e x) as [H _]; [lia|done|done|by apply H].
Qed.
Lemma search_right low high mid e : search_inv low high -> low <= mid <= high -> base !! Z.to_nat mid = Some e ->
  0 < compare key e -> mid + 1 <= high -> search_inv (mid + 1) high.
Proof.
  intros [H1 H2 H3 H4 H5] Hm He Hr Hz. split; [lia|done|lia| |done].
  intros Hmono i x Hi Hx. destruct (decide (i = Z.to_nat mid)) as [->|Hne]; [congruence|].
  destruct (Hmono i (Z.to_nat mid) x e) as [_ H]; [lia|done|done|by apply H].
Qed.

Lemma search_loop_ok fuel low high : search_inv low high -> high - low + 1 < Z.of_nat fuel ->
  exists r, search_loop key base size compare fuel low high = Some r /\ search_result r.
Proof.
  pose proof limit_range as Hlim.
  revert low high. induction fuel as [|fuel IH]; intros low high Hi Hf; [destruct Hi; lia|].
  pose proof Hi as [H1 H2 H3 H4 H5]. cbn [search_loop]. destruct (Z.leb_spec low high) as [Hle|Hgt].
  2: { (* crossed: the middle is far outside *)
    assert (high = low - 1) as -> by lia.
    replace (u64 (low - 1 - low)) with (2 ^ 64 - 1) by width_lia.
    assert (Em : u64 (low + (2 ^ 64 - 1) / 2) = low + (2 ^ 63 - 1)) by (change ((2 ^ 64 - 1) / 2) with (2 ^ 63 - 1); apply u64_id; unfold is_u64; lia).
    rewrite Em. rewrite (proj2 (Z.ltb_lt _ _)) by lia. exists None. split; [done|]. intros Hm _ i e He.
    destruct (Z.ltb_spec (Z.of_nat i) low); [specialize (H4 Hm i e ltac:(lia) He); lia|specialize (H5 Hm i e ltac:(lia) He); lia]. }
  rewrite (u64_id (high - low)) by (unfold is_u64; lia).
  set (mid := low + (high - low) / 2). assert (Hm : low <= mid <= high).
  { unfold mid. clear -Hle. Z.div_mod_to_equations. lia. }
  rewrite u64_id by (unfold is_u64; lia). destruct (Z.ltb_spec (UINT_MAX / size) mid).
  { exists None. split; [done|]. intros _ Hn. lia. }
  assert (Hlk : is_Some (base !! Z.to_nat mid)) by (apply lookup_lt_is_Some; lia). destruct Hlk as [e He].
  rewrite He. cbn [mbind option_bind]. destruct (Z.ltb_spec (compare key e) 0).
  - destruct (Z.eqb_spec mid 0).
    + exists None. split; [done|]. intros Hmono _ i x Hx Hc. destruct (decide (i = Z.to_nat mid)) as [->|Hne]; [congruence || (rewrite He in Hx; injection Hx as <-; lia)|].
      destruct (Hmono (Z.to_nat mid) i e x) as [Hs _]; [lia|done|done|]. specialize (Hs ltac:(lia)). lia.
    + apply IH; [by eapply search_left|lia].
  - destruct (Z.ltb_spec 0 (compare key e)).
    + rewrite u64_id by (unfold is_u64; lia). rewrite (proj2 (Z.ltb_ge _ _)) by lia. cbn [orb]. destruct (Z.ltb_spec high (mid + 1)).
      * exists None. split; [done|]. intros Hmono _ i x Hx Hc. destruct (Z.ltb_spec high (Z.of_nat i)).
        { specialize (H5 Hmono i x ltac:(lia) Hx). lia. }
        destruct (decide (i = Z.to_nat mid)) as [->|Hne]; [rewrite He in Hx; injection Hx as <-; lia|].
        destruct (Hmono i (Z.to_nat mid) x e) as [_ Hs]; [lia|done|done|]. specialize (Hs ltac:(lia)). lia.
      * apply IH; [by eapply search_right|lia].
    + exists (Some mid). split; [done|]. exists e. split_and!; [lia|done|lia].
Qed.

(** It returns, in memory, whatever the array contains. *)
Lemma binary_search_ok : exists r, binary_search key base size compare (Z.of_nat (length base)) = Some r /\ search_result r.
Proof.
  unfold binary_search. rewrite (proj2 (Z.eqb_neq size 0)) by lia. rewrite orb_false_r.
  destruct (Z.eqb_spec (Z.of_nat (length base)) 0) as [Hz|Hz].
  - exists None. split; [done|]. intros _ _ i e He. apply lookup_lt_Some in He. lia.
  - apply search_loop_ok; [|lia]. split; [lia|lia|lia| |].
    + intros _ i e Hi. lia.
    + intros _ i e Hi He. apply lookup_lt_Some in He. lia.
Qed.
End search_facts.

(** ** The format of a list *)
Definition encode_hash (h : vpu_hash_vector_s) : list Z :=
  le_bytes (hv_count h) ++ le_bytes (hv_index h) ++ le_bytes (crc32_hash h).
Definition encode (p : vpu_hash_key_pair_s) : list Z :=
  le_bytes (num_keys p) ++ concat (psha_key p) ++ le_bytes (num_hashes p) ++ concat (encode_hash <$> pvpu_hash_vector p).

Record list_typed (p : vpu_hash_key_pair_s) : Prop := {
  lt_num_keys : num_keys p = Z.of_nat (length (psha_key p));
  lt_num_hashes : num_hashes p = Z.of_nat (length (pvpu_hash_vector p));
  lt_keys : Forall (fun key => length key = 32%nat /\ bytes key) (psha_key p);
  lt_hashes : Forall (fun h => is_u32 (hv_count h) /\ is_u32 (hv_index h) /\ is_u32 (crc32_hash h)) (pvpu_hash_vector p);
  lt_u32 : is_u32 (num_keys p) /\ is_u32 (num_hashes p)
}.

Lemma le32_bytes w rest : is_u32 w -> le32 (le_bytes w ++ rest) = w.
Proof. intros Hw. unfold le32, le_bytes. cbn [app]. unfold is_u32 in Hw. Z.div_mod_to_equations. lia. Qed.
Lemma le_bytes_le32 l : bytes l -> (4 <= length l)%nat -> le_bytes (le32 l) = take 4 l /\ is_u32 (le32 l).
Proof.
  intros Hb Hl. destruct l as [|a [|b [|c [|d rest]]]]; cbn [length] in Hl; try lia.
  unfold bytes in Hb. rewrite !Forall_cons in Hb. destruct Hb as (Ha & Hb & Hc & Hd & _). unfold is_u8 in *.
  cbn [le32 take]. unfold le_bytes, is_u32. rewrite firstn_O.
  split; [repeat f_equal; Z.div_mod_to_equations; lia|lia].
Qed.

Lemma chunks_nil n : (0 < n)%nat -> chunks n [] = [].
Proof. intros Hn. unfold chunks. cbn [length]. by rewrite Nat.Div0.div_0_l. Qed.
Lemma chunks_concat n ls : (0 < n)%nat -> Forall (fun l => length l = n) ls -> chunks n (concat ls) = ls.
Proof.
  intros Hn. induction ls as [|l ls IH]; intros Hf; [by apply chunks_nil|].
  apply Forall_cons in Hf as [Hl Hf]. cbn [concat]. by rewrite chunks_app, IH.
Qed.
Lemma concat_chunks n j l : (0 < n)%nat -> length l = (n * j)%nat ->
  concat (chunks n l) = l /\ Forall (fun c => length c = n) (chunks n l) /\ length (chunks n l) = j.
Proof.
  intros Hn. revert l. induction j as [|j IH]; intros l Hl.
  - destruct l; [|cbn in Hl; lia]. by rewrite chunks_nil.
  - rewrite <- (take_drop n l). assert (Ht : length (take n l) = n) by (rewrite length_take; lia).
    rewrite chunks_app by done. destruct (IH (drop n l)) as (E & Hf & Hj); [rewrite length_drop; lia|].
    cbn [concat length]. rewrite E, Hj. split_and!; [done|by constructor|done].
Qed.
Lemma Forall_chunks n l (P : Z -> Prop) : Forall P l -> Forall (Forall P) (chunks n l).
Proof. intros H. unfold chunks. apply Forall_fmap, Forall_true. intros i. by apply Forall_take, Forall_drop. Qed.

Lemma hash_vector_encode bs : bytes bs -> length bs = 12%nat ->
  encode_hash (hash_vector_of bs) = bs /\
  is_u32 (hv_count (hash_vector_of bs)) /\ is_u32 (hv_index (hash_vector_of bs)) /\ is_u32 (crc32_hash (hash_vector_of bs)).
Proof.
  intros Hb Hl. unfold encode_hash, hash_vector_of. cbn [hv_count hv_index crc32_hash].
  destruct (le_bytes_le32 bs Hb ltac:(lia)) as [-> ?].
  destruct (le_bytes_le32 (drop 4 bs)) as [-> ?]; [auto with word32|rewrite length_drop; lia|].
  destruct (le_bytes_le32 (drop 8 bs)) as [-> ?]; [auto with word32|rewrite length_drop; lia|].
  split; [|done]. rewrite (take_ge (drop 8 bs)) by (rewrite length_drop; lia).
  rewrite <- (take_drop 4 bs) at 4. f_equal. rewrite <- (take_drop 4 (drop 4 bs)) at 2. by rewrite drop_drop.
Qed.
Lemma encode_hash_vector h : is_u32 (hv_count h) -> is_u32 (hv_index h) -> is_u32 (crc32_hash h) ->
  hash_vector_of (encode_hash h) = h.
Proof.
  intros H1 H2 H3. unfold hash_vector_of, encode_hash. rewrite le32_bytes by done.
  change (drop 4 (le_bytes (hv_count h) ++ ?r)) with r. change (drop 8 (le_bytes (hv_count h) ++ le_bytes (hv_index h) ++ ?r)) with r.
  rewrite le32_bytes by done. rewrite <- (app_nil_r (le_bytes (crc32_hash h))), le32_bytes by done. by destruct h.
Qed.

Lemma read_buff_ok b size : 0 <= buf_pos b <= buf_size b -> buf_size b = Z.of_nat (length (buff b)) -> buf_size b < 2 ^ 31 ->
  0 <= size < 2 ^ 31 ->
  read_buff b size =
    if buf_size b <? buf_pos b + size then Some (- 1, [], b)
    else Some (size, take (Z.to_nat size) (drop (Z.to_nat (buf_pos b)) (buff b)), PvaBuff (buff b) (buf_pos b + size) (buf_size b)).
Proof.
  intros Hp Hl Hs Hn. unfold read_buff. rewrite u32_id by (unfold is_u32; lia). destruct (Z.ltb_spec (buf_size b) (buf_pos b + size)); [done|].
  unfold load. rewrite (proj2 (Z.leb_le _ _)) by lia. cbn [mbind option_bind]. by rewrite s32_id by (unfold is_s32; lia).
Qed.

(** What is left to read. *)
Definition cursor (b : pva_buff_s) (l : list Z) : Prop :=
  0 <= buf_pos b <= buf_size b /\ buf_size b = Z.of_nat (length (buff b)) /\ buf_size b < 2 ^ 31 /\
  drop (Z.to_nat (buf_pos b)) (buff b) = l.

Lemma cursor_read b l size : cursor b l -> 0 <= size < 2 ^ 31 ->
  (Z.of_nat (length l) < size /\ read_buff b size = Some (- 1, [], b)) \/
  (size <= Z.of_nat (length l) /\ exists b', read_buff b size = Some (size, take (Z.to_nat size) l, b') /\ cursor b' (drop (Z.to_nat size) l)).
Proof.
  intros (Hp & Hs & Hb & Hl) Hn. rewrite read_buff_ok by done.
  assert (Hll : Z.of_nat (length l) = buf_size b - buf_pos b) by (rewrite <- Hl, length_drop; lia).
  destruct (Z.ltb_spec (buf_size b) (buf_pos b + size)); [left; split; [lia|done]|right]. split; [lia|].
  eexists. rewrite <- Hl. split; [done|]. unfold cursor. cbn [buff buf_pos buf_size]. split_and!; try lia.
  rewrite drop_drop. f_equal. lia.
Qed.

Lemma cursor_take b x rest size : cursor b (x ++ rest) -> size = Z.of_nat (length x) -> size < 2 ^ 31 ->
  exists b', read_buff b size = Some (size, x, b') /\ cursor b' rest.
Proof.
  intros Hc -> Hs. destruct (cursor_read b _ (Z.of_nat (length x)) Hc ltac:(lia)) as [(H & _)|(_ & b' & E & Hc')].
  - rewrite length_app in H. lia.
  - rewrite Nat2Z.id, take_app_length in E. rewrite Nat2Z.id, drop_app_length in Hc'. by exists b'.
Qed.

Lemma cursor_word b l : cursor b l -> bytes l ->
  read_buff b 4 = Some (- 1, [], b) \/
  exists w rest b', read_buff b 4 = Some (4, le_bytes w, b') /\ l = le_bytes w ++ rest /\ is_u32 w /\ cursor b' rest /\ bytes rest.
Proof.
  intros Hc Hb. destruct (cursor_read b l 4 Hc ltac:(lia)) as [(_ & E)|(H4 & b' & E & Hc')]; [by left|right].
  destruct (le_bytes_le32 l Hb ltac:(lia)) as [Ew Hw]. change (Z.to_nat 4) with 4%nat in *.
  exists (le32 l), (drop 4 l), b'. rewrite Ew. split; [exact E|]. split; [by rewrite take_drop|].
  split; [exact Hw|]. split; [exact Hc'|auto with word32].
Qed.

Lemma cursor_array n j b l : (0 < n)%nat -> cursor b l -> bytes l -> 0 <= j -> Z.of_nat n * j < 2 ^ 31 ->
  read_buff b (Z.of_nat n * j) = Some (- 1, [], b) \/
  exists cs rest b', read_buff b (Z.of_nat n * j) = Some (Z.of_nat n * j, concat cs, b') /\ l = concat cs ++ rest /\
    j = Z.of_nat (length cs) /\ Forall (fun c => length c = n /\ bytes c) cs /\ chunks n (concat cs) = cs /\
    cursor b' rest /\ bytes rest.
Proof.
  intros Hn Hc Hb Hj Hs. destruct (cursor_read b l (Z.of_nat n * j) Hc ltac:(nia)) as [(_ & E)|(Hl & b' & E & Hc')]; [by left|right].
  set (x := take (Z.to_nat (Z.of_nat n * j)) l) in *.
  destruct (concat_chunks n (Z.to_nat j) x Hn) as (Ex & Hf & Hlen); [unfold x; rewrite length_take; nia|].
  exists (chunks n x), (drop (Z.to_nat (Z.of_nat n * j)) l), b'. rewrite Ex. split; [exact E|]. split; [unfold x; by rewrite take_drop|].
  split; [lia|]. split; [|split; [done|]; split; [exact Hc'|]].
  - rewrite Forall_forall in Hf. apply Forall_forall. intros c Hcc. split; [by apply Hf|].
    assert (Hbx : bytes x) by (unfold x; auto with word32).
    pose proof (Forall_chunks n x _ Hbx) as Hfc. rewrite Forall_forall in Hfc. by apply Hfc.
  - auto with word32.
Qed.

Lemma hashes_encode cs : Forall (fun c => length c = 12%nat /\ bytes c) cs ->
  encode_hash <$> (hash_vector_of <$> cs) = cs /\
  Forall (fun h => is_u32 (hv_count h) /\ is_u32 (hv_index h) /\ is_u32 (crc32_hash h)) (hash_vector_of <$> cs).
Proof.
  induction cs as [|c cs IH]; intros Hf; [done|]. apply Forall_cons in Hf as [[Hl Hb] Hf].
  destruct (IH Hf) as [E HF], (hash_vector_encode c Hb Hl) as [Ec Hc]. cbn [fmap list_fmap]. rewrite Ec. split; [by f_equal|by constructor].
Qed.

Lemma hashes_decode hs : Forall (fun h => is_u32 (hv_count h) /\ is_u32 (hv_index h) /\ is_u32 (crc32_hash h)) hs ->
  hash_vector_of <$> (encode_hash <$> hs) = hs.
Proof.
  induction hs as [|h hs IH]; intros Hf; [done|]. apply Forall_cons in Hf as [(H1 & H2 & H3) Hf].
  cbn [fmap list_fmap]. rewrite encode_hash_vector by done. f_equal. by apply IH.
Qed.

Lemma concat_length n (ls : list (list Z)) : Forall (fun l => length l = n) ls -> length (concat ls) = (n * length ls)%nat.
Proof.
  induction ls as [|l ls IH]; intros Hf; [cbn; lia|]. apply Forall_cons in Hf as [Hl Hf].
  cbn [concat length]. rewrite length_app, IH by done. lia.
Qed.

Section parsing.
Variable kzalloc : Z -> bool.
(** kmalloc does not give out blocks of 2 GB. *)
Hypothesis kzalloc_limit : forall n, kzalloc n = true -> n < 2 ^ 31.

Definition parsed (p : vpu_hash_key_pair_s) : pva_vpu_auth_s := VpuAuth (Some p) true true.

(** What parsing gives: a list that the buffer begins with, or an error and no list. *)
Definition parse_result (buffer : list Z) (auth : pva_vpu_auth_s) (r : option (Z * pva_vpu_auth_s)) : Prop :=
  exists err auth', r = Some (err, auth') /\
    ((err = 0 /\ exists p tail, list_typed p /\ buffer = encode p ++ tail /\ auth' = parsed p) \/
     (err < 0 /\ auth' = pva_auth_allow_list_destroy auth)).

Lemma parse_fails buffer auth err : err < 0 -> parse_result buffer auth (Some (err, pva_auth_allow_list_destroy auth)).
Proof. intros He. exists err, (pva_auth_allow_list_destroy auth). split; [done|by right]. Qed.

Lemma cursor_start buffer : Z.of_nat (length buffer) < 2 ^ 31 -> cursor (PvaBuff buffer 0 (Z.of_nat (length buffer))) buffer.
Proof. intros Hl. unfold cursor. cbn. split_and!; done || lia. Qed.

Lemma parse_spec buffer auth : bytes buffer -> Z.of_nat (length buffer) < 2 ^ 31 ->
  parse_result buffer auth (pva_auth_allow_list_parse_buf kzalloc buffer (Z.of_nat (length buffer)) auth).
Proof.
  intros Hb Hl. unfold pva_auth_allow_list_parse_buf, pva_auth_allow_list_parse_pva_buff.
  destruct (kzalloc 32); [|by apply parse_fails]. cbn [negb].
  destruct (cursor_word _ _ (cursor_start buffer Hl) Hb) as [->|(nk & l1 & b1 & -> & El & Hnk & Hc1 & Hb1)]; [by apply parse_fails|].
  cbn [mbind option_bind Z.eqb Pos.eqb negb]. rewrite <- (app_nil_r (le_bytes nk)), le32_bytes by done.
  destruct (kzalloc (32 * nk)) eqn:Ek; [|by apply parse_fails]. apply kzalloc_limit in Ek. cbn [negb]. unfold is_u32 in Hnk.
  rewrite u32_id by (unfold is_u32; lia).
  destruct (cursor_array 32 nk b1 l1) as [E|(ks & l2 & b2 & E & El1 & Hkn & Hkf & Hkc & Hc2 & Hb2)]; try done; try lia;
    change (Z.of_nat 32) with 32 in E; rewrite E; cbn [mbind option_bind].
  { rewrite (proj2 (Z.eqb_neq _ _)) by lia. by apply parse_fails. }
  rewrite Z.eqb_refl. cbn [negb]. clear E.
  destruct (cursor_word b2 l2 Hc2 Hb2) as [->|(nh & l3 & b3 & -> & El2 & Hnh & Hc3 & Hb3)]; [by apply parse_fails|].
  cbn [mbind option_bind Z.eqb Pos.eqb negb]. rewrite <- (app_nil_r (le_bytes nh)), le32_bytes by done.
  destruct (kzalloc (12 * nh)) eqn:Eh; [|by apply parse_fails]. apply kzalloc_limit in Eh. cbn [negb]. unfold is_u32 in Hnh.
  rewrite u32_id by (unfold is_u32; lia).
  destruct (cursor_array 12 nh b3 l3) as [E|(hs & l4 & b4 & E & El3 & Hhn & Hhf & Hhc & Hc4 & Hb4)]; try done; try lia;
    change (Z.of_nat 12) with 12 in E; rewrite E; cbn [mbind option_bind].
  { rewrite (proj2 (Z.eqb_neq _ _)) by lia. by apply parse_fails. }
  rewrite Z.eqb_refl. cbn [negb]. destruct (hashes_encode hs Hhf) as [Ehs Hhu].
  eexists _, _. split; [done|]. left. split; [done|]. rewrite Hkc, Hhc.
  exists (HashKeyPair nk ks nh (hash_vector_of <$> hs)), l4. split; [|split; [|done]].
  - split; cbn [num_keys psha_key num_hashes pvpu_hash_vector]; [done|by rewrite length_fmap|done|done|unfold is_u32; lia].
  - unfold encode. cbn [num_keys psha_key num_hashes pvpu_hash_vector]. rewrite Ehs, El, El1, El2, El3. by rewrite <- !app_assoc.
Qed.

(** A list that the buffer begins with is found. *)
Lemma parse_encode p tail auth : list_typed p -> Z.of_nat (length (encode p ++ tail)) < 2 ^ 31 ->
  kzalloc 32 = true -> kzalloc (32 * num_keys p) = true -> kzalloc (12 * num_hashes p) = true ->
  pva_auth_allow_list_parse_buf kzalloc (encode p ++ tail) (Z.of_nat (length (encode p ++ tail))) auth = Some (0, parsed p).
Proof.
  intros [Hnk Hnh Hks Hhs [Hu1 Hu2]] Hl H32 Hk Hh. pose proof (kzalloc_limit _ Hk). pose proof (kzalloc_limit _ Hh).
  pose proof (cursor_start _ Hl) as Hc. unfold pva_auth_allow_list_parse_buf, pva_auth_allow_list_parse_pva_buff.
  rewrite H32. cbn [negb]. set (b0 := PvaBuff _ 0 _) in *. unfold encode in Hc. rewrite <- !app_assoc in Hc.
  destruct (cursor_take _ _ _ 4 Hc) as (b1 & -> & Hc1); [done|lia|]. cbn [mbind option_bind Z.eqb Pos.eqb negb].
  rewrite <- (app_nil_r (le_bytes (num_keys p))), le32_bytes by done. rewrite Hk. cbn [negb]. unfold is_u32 in Hu1, Hu2.
  rewrite u32_id by (unfold is_u32; lia).
  assert (Hkl : length (concat (psha_key p)) = (32 * length (psha_key p))%nat).
  { apply concat_length. eapply Forall_impl; [exact Hks|]. by intros x [? _]. }
  destruct (cursor_take _ _ _ (32 * num_keys p) Hc1) as (b2 & -> & Hc2); [lia|lia|]. cbn [mbind option_bind].
  rewrite Z.eqb_refl. cbn [negb].
  destruct (cursor_take _ _ _ 4 Hc2) as (b3 & -> & Hc3); [done|lia|]. cbn [mbind option_bind Z.eqb Pos.eqb negb].
  rewrite <- (app_nil_r (le_bytes (num_hashes p))), le32_bytes by done. rewrite Hh. cbn [negb].
  rewrite u32_id by (unfold is_u32; lia).
  assert (Hf12 : Forall (fun l => length l = 12%nat) (encode_hash <$> pvpu_hash_vector p)).
  { by apply Forall_fmap, Forall_true. }
  assert (Hhl : length (concat (encode_hash <$> pvpu_hash_vector p)) = (12 * length (pvpu_hash_vector p))%nat).
  { rewrite (concat_length 12) by done. by rewrite length_fmap. }
  destruct (cursor_take _ _ _ (12 * num_hashes p) Hc3) as (b4 & -> & _); [lia|lia|]. cbn [mbind option_bind].
  rewrite Z.eqb_refl. cbn [negb]. rewrite !chunks_concat; [|lia|done|lia|].
  2: { eapply Forall_impl; [exact Hks|]. by intros x [? _]. }
  rewrite hashes_decode by done. by destruct p.
Qed.
End parsing.

(** ** The check *)

(** What makes a list usable: sorted by the CRC, and the keys of every hash inside the array. *)
Record list_usable (p : vpu_hash_key_pair_s) : Prop := {
  lu_typed : list_typed p;
  lu_few : num_hashes p <= UINT_MAX / 12 + 1;
  lu_sorted : forall i j hi hj, (i < j)%nat -> pvpu_hash_vector p !! i = Some hi -> pvpu_hash_vector p !! j = Some hj ->
    crc32_hash hi < crc32_hash hj;
  lu_range : Forall (fun h => 0 < hv_count h -> hv_index h + hv_count h <= num_keys p) (pvpu_hash_vector p)
}.

(** A program is authentic when the list has its SHA-256 digest under its CRC, or an entry
    for its CRC that has no keys (see [empty_entry_accepts]). *)
Definition authentic (p : vpu_hash_key_pair_s) (data : list Z) : Prop :=
  exists h, h ∈ pvpu_hash_vector p /\ crc32_hash h = pva_crc32 0 data /\
    (hv_count h = 0 \/
     exists i d, hv_index h <= Z.of_nat i < hv_index h + hv_count h /\ psha_key p !! i = Some d /\ sha256 data d).

Lemma compare_hash_value_spec x y :
  (compare_hash_value x y < 0 <-> crc32_hash x < crc32_hash y) /\
  (0 < compare_hash_value x y <-> crc32_hash y < crc32_hash x) /\
  (compare_hash_value x y = 0 <-> crc32_hash x = crc32_hash y).
Proof.
  unfold compare_hash_value. destruct (Z.ltb_spec (crc32_hash x) (crc32_hash y)), (Z.ltb_spec (crc32_hash y) (crc32_hash x)); lia.
Qed.

Lemma sorted_monotone p key : list_usable p -> monotone key (pvpu_hash_vector p) compare_hash_value.
Proof.
  intros [_ _ Hs _] i j ei ej Hij Hi Hj. specialize (Hs i j ei ej Hij Hi Hj).
  destruct (compare_hash_value_spec key ei) as (H1 & H2 & _), (compare_hash_value_spec key ej) as (H3 & H4 & _). lia.
Qed.

Section checking.
Variables (garbage data : list Z).
Hypothesis garbage_64 : length garbage = 64%nat.
Hypothesis data_bytes : bytes data.
Hypothesis data_small : Z.of_nat (length data) < 2 ^ 29.
Abbreviation size := (Z.of_nat (length data)).

Lemma key_match key : exists err, is_key_match garbage data size key = Some err /\
  (err = 0 \/ err = - EACCES) /\ (err = 0 <-> sha256 data key).
Proof.
  destruct (calc_key_ok garbage data garbage_64 data_bytes data_small) as (d & E & Hd).
  unfold is_key_match. rewrite E. cbn [mbind option_bind]. case_decide as Hk.
  - exists 0. split_and!; [done|by left|]. by subst.
  - exists (- EACCES). split; [done|]. split; [by right|]. split; [done|]. intros H. by destruct (Hk (sha256_det _ _ _ H Hd)).
Qed.

Lemma check_keys_ok keys idx count err0 : 0 <= idx -> idx + Z.of_nat count <= Z.of_nat (length keys) ->
  exists err, check_keys garbage keys data size idx count err0 = Some err /\
    (count = 0%nat -> err = err0) /\
    (count <> 0%nat -> (err = 0 \/ err = - EACCES) /\
       (err = 0 <-> exists i d, idx <= Z.of_nat i < idx + Z.of_nat count /\ keys !! i = Some d /\ sha256 data d)).
Proof.
  revert idx err0. induction count as [|count IH]; intros idx err0 Hi Hl; [by exists err0|].
  cbn [check_keys]. assert (Hk : is_Some (keys !! Z.to_nat idx)) by (apply lookup_lt_is_Some; lia). destruct Hk as [key Ek].
  rewrite Ek. cbn [mbind option_bind]. destruct (key_match key) as (err & -> & Herr & Hm). cbn [mbind option_bind].
  destruct (Z.eqb_spec err 0) as [->|Hne].
  - exists 0. split; [done|]. split; [done|]. intros _. split; [by left|]. split; [|done]. intros _.
    exists (Z.to_nat idx), key. split; [lia|]. split; [done|by apply Hm].
  - destruct (IH (idx + 1) err) as (err' & -> & H0 & HS); [lia|lia|]. exists err'. split; [done|]. split; [done|]. intros _.
    assert (Hfirst : forall i d, idx <= Z.of_nat i < idx + Z.of_nat (S count) -> keys !! i = Some d -> sha256 data d ->
      idx + 1 <= Z.of_nat i < idx + 1 + Z.of_nat count).
    { intros i d Hir Hid Hsd. destruct (decide (i = Z.to_nat idx)) as [->|]; [|lia].
      rewrite Ek in Hid. injection Hid as ->. by destruct (Hne (proj2 Hm Hsd)). }
    destruct count as [|count].
    + rewrite (H0 eq_refl). split; [by destruct Herr; [|right]|]. split; [done|]. intros (i & d & Hir & Hid & Hsd).
      specialize (Hfirst i d Hir Hid Hsd). lia.
    + destruct (HS ltac:(done)) as [Hv Hx]. split; [done|]. rewrite Hx. split; intros (i & d & Hir & Hid & Hsd).
      * exists i, d. split; [lia|done].
      * exists i, d. split; [by eapply Hfirst|done].
Qed.

Lemma check_sha256_ok p : list_usable p ->
  exists err, pva_vpu_check_sha256_key garbage p data size = Some err /\ (err = 0 \/ err = - EACCES) /\ (err = 0 <-> authentic p data).
Proof.
  intros Hu. pose proof Hu as [[Hnk Hnh Hks Hhs [Hu1 Hu2]] Hf Hs Hr]. unfold pva_vpu_check_sha256_key, load.
  rewrite (proj2 (Z.leb_le _ _)) by lia. cbn [mbind option_bind]. rewrite drop_0, Nat2Z.id, firstn_all.
  set (cal := HashVector 0 0 (pva_crc32 0 data)). rewrite Hnh. unfold is_u32 in *.
  destruct (binary_search_ok cal (pvpu_hash_vector p) 12 compare_hash_value) as (r & -> & Hres); [lia|lia|]. cbn [mbind option_bind].
  destruct r as [i|].
  - destruct Hres as (h & Hi & Eh & Hc). apply compare_hash_value_spec in Hc. cbn [crc32_hash cal] in Hc.
    rewrite Eh. cbn [mbind option_bind]. unfold check_all_keys_for_match.
    rewrite Forall_lookup in Hr. specialize (Hr _ _ Eh). cbn beta in Hr.
    rewrite Forall_lookup in Hhs. destruct (Hhs _ _ Eh) as (Hc1 & Hc2 & _).
    assert (Hsame : forall h', h' ∈ pvpu_hash_vector p -> crc32_hash h' = pva_crc32 0 data -> h' = h).
    { intros h' [i' Ei']%list_elem_of_lookup Hcrc. destruct (Nat.lt_trichotomy i' (Z.to_nat i)) as [Hlt|[->|Hlt]]; [|congruence|].
      - specialize (Hs _ _ _ _ Hlt Ei' Eh). lia.
      - specialize (Hs _ _ _ _ Hlt Eh Ei'). lia. }
    destruct (decide (hv_count h = 0)) as [Hz|Hz].
    { rewrite (proj2 (Z.ltb_ge _ _)) by (unfold UINT_MAX; lia). rewrite Hz. cbn [Z.to_nat check_keys].
      exists 0. split; [done|]. split; [by left|]. split; [|done]. intros _. exists h.
      split; [by apply list_elem_of_lookup_2 in Eh|]. split; [done|by left]. }
    rewrite (proj2 (Z.ltb_ge _ _)) by (unfold UINT_MAX; lia).
    destruct (check_keys_ok (psha_key p) (hv_index h) (Z.to_nat (hv_count h)) 0) as (err & -> & _ & H); [lia|lia|].
    destruct H as [Hv Hx]; [lia|]. rewrite Z2Nat.id in Hx by lia. exists err. split; [done|]. split; [done|].
    rewrite Hx. split.
    + intros Hj. exists h. split; [by apply list_elem_of_lookup_2 in Eh|]. split; [done|by right].
    + intros (h' & Hh' & Hcrc & Hj). rewrite (Hsame h' Hh' Hcrc) in Hj. by destruct Hj.
  - exists (- EACCES). split; [done|]. split; [by right|]. split; [done|]. intros (h & Hh & Hcrc & _).
    apply list_elem_of_lookup in Hh as [i Ei]. exfalso.
    apply (Hres (sorted_monotone p cal Hu) ltac:(lia) i h Ei). apply compare_hash_value_spec. by rewrite Hcrc.
Qed.
End checking.

(** An entry without keys accepts everything that has its CRC, and the index of an entry is
    not compared with the number of keys. *)
Lemma empty_entry_accepts garbage keys data size h : hv_count h = 0 -> is_u32 (hv_index h) ->
  check_all_keys_for_match garbage keys data size h = Some 0.
Proof.
  intros Hc Hi. unfold check_all_keys_for_match. rewrite Hc. rewrite (proj2 (Z.ltb_ge _ _)); [done|].
  unfold UINT_MAX, is_u32 in *. lia.
Qed.
Lemma index_out_of_keys garbage keys data size h : 0 < hv_count h -> Z.of_nat (length keys) <= hv_index h ->
  hv_index h + hv_count h <= UINT_MAX -> check_all_keys_for_match garbage keys data size h = None.
Proof.
  intros Hc Hi Hm. unfold check_all_keys_for_match. rewrite (proj2 (Z.ltb_ge _ _)) by lia.
  destruct (Z.to_nat (hv_count h)) eqn:E; [lia|]. cbn [check_keys]. by rewrite lookup_ge_None_2 by lia.
Qed.

(** ** The built-in list *)
Definition system_list : vpu_hash_key_pair_s := Eval vm_compute in
  match pva_auth_allow_list_parse_buf (fun _ => true) pva_auth_allow_list_sys pva_auth_allow_list_sys_len (initial_auth 2 2) with
  | Some (_, VpuAuth (Some p) _ _) => p
  | _ => HashKeyPair 0 [] 0 []
  end.

Lemma system_list_encoded : pva_auth_allow_list_sys = encode system_list ++ [].
Proof. vm_compute. reflexivity. Qed.

Lemma system_bytes : bytes pva_auth_allow_list_sys.
Proof.
  apply Forall_forall. intros x Hx. assert (H : forallb (fun x => (0 <=? x) && (x <? 2 ^ 8)) pva_auth_allow_list_sys = true) by reflexivity.
  rewrite forallb_forall in H. apply list_elem_of_In in Hx. specialize (H x Hx). rewrite andb_true_iff in H. unfold is_u8. lia.
Qed.

Definition typed_check (p : vpu_hash_key_pair_s) : bool :=
  (num_keys p =? Z.of_nat (length (psha_key p))) && (num_hashes p =? Z.of_nat (length (pvpu_hash_vector p))) &&
  forallb (fun key => Nat.eqb (length key) 32 && forallb (fun x => (0 <=? x) && (x <? 2 ^ 8)) key) (psha_key p) &&
  forallb (fun h => (0 <=? hv_count h) && (hv_count h <? 2 ^ 32) && (0 <=? hv_index h) && (hv_index h <? 2 ^ 32) &&
                    (0 <=? crc32_hash h) && (crc32_hash h <? 2 ^ 32)) (pvpu_hash_vector p) &&
  (num_keys p <? 2 ^ 32) && (num_hashes p <? 2 ^ 32).

Lemma typed_check_ok p : typed_check p = true -> list_typed p.
Proof.
  unfold typed_check. rewrite !andb_true_iff. intros (((((H1 & H2) & H3) & H4) & H5) & H6).
  rewrite forallb_forall in H3, H4. zb. split; [done|done| | |unfold is_u32; lia].
  - apply Forall_forall. intros key Hk. apply list_elem_of_In in Hk. specialize (H3 key Hk).
    apply andb_prop in H3 as [Hl Hb]. apply Nat.eqb_eq in Hl. split; [done|]. rewrite forallb_forall in Hb.
    apply Forall_forall. intros x Hx. apply list_elem_of_In in Hx. specialize (Hb x Hx). rewrite andb_true_iff in Hb. unfold is_u8. lia.
  - apply Forall_forall. intros h Hh. apply list_elem_of_In in Hh. specialize (H4 h Hh). rewrite !andb_true_iff in H4. unfold is_u32. lia.
Qed.

Lemma system_list_usable : list_usable system_list.
Proof.
  split; [apply typed_check_ok; vm_compute; reflexivity|vm_compute; discriminate| |repeat constructor; vm_compute; discriminate].
  intros i j hi hj Hij Hi Hj.
  do 8 (destruct i as [|i]; [do 8 (destruct j as [|j]; [first [lia | injection Hi as <-; injection Hj as <-; reflexivity]|]); discriminate Hj|]).
  discriminate Hi.
Qed.

(** ** Authentication *)

(** A list in a file, if there is one, can be used. *)
Definition source_ok (source : option (list Z)) : Prop := forall l, source = Some l ->
  bytes l /\ Z.of_nat (length l) < 2 ^ 31 /\ forall p tail, list_typed p -> l = encode p ++ tail -> list_usable p.

Lemma app_prefix_inj {A} (x x' y y' : list A) : length x = length x' -> x ++ y = x' ++ y' -> x = x' /\ y = y'.
Proof. apply app_inj_1. Qed.

Lemma encode_inj p p' tail tail' : list_typed p -> list_typed p' -> encode p ++ tail = encode p' ++ tail' -> p = p'.
Proof.
  intros Hp Hp' E.
  assert (Hgo : forall q t, list_typed q -> exists ks hs rest, encode q ++ t = le_bytes (num_keys q) ++ ks ++ le_bytes (num_hashes q) ++ hs ++ rest /\
    Z.of_nat (length ks) = 32 * num_keys q /\ Z.of_nat (length hs) = 12 * num_hashes q /\
    chunks 32 ks = psha_key q /\ hash_vector_of <$> chunks 12 hs = pvpu_hash_vector q).
  { intros q t [Hnk Hnh Hks Hhs _]. exists (concat (psha_key q)), (concat (encode_hash <$> pvpu_hash_vector q)), t.
    assert (H32 : Forall (fun l => length l = 32%nat) (psha_key q)) by (eapply Forall_impl; [exact Hks|]; by intros x [? _]).
    assert (H12 : Forall (fun l => length l = 12%nat) (encode_hash <$> pvpu_hash_vector q)) by (by apply Forall_fmap, Forall_true).
    split; [unfold encode; by rewrite <- !app_assoc|]. rewrite (concat_length 32), (concat_length 12), length_fmap by done.
    rewrite !chunks_concat by (done || lia). rewrite hashes_decode by done. split_and!; done || lia. }
  destruct (Hgo p tail Hp) as (ks & hs & rest & E1 & Hk & Hh & Ek & Eh), (Hgo p' tail' Hp') as (ks' & hs' & rest' & E2 & Hk' & Hh' & Ek' & Eh').
  rewrite E1, E2 in E. clear E1 E2. destruct Hp as [_ _ _ _ [Hu1 Hu2]], Hp' as [_ _ _ _ [Hu1' Hu2']].
  apply app_prefix_inj in E as [En E]; [|done].
  assert (Hn : num_keys p = num_keys p') by (rewrite <- (le32_bytes _ [] Hu1), <- (le32_bytes _ [] Hu1'); by rewrite En).
  apply app_prefix_inj in E as [-> E]; [|lia]. apply app_prefix_inj in E as [Em E]; [|done].
  assert (Hm : num_hashes p = num_hashes p') by (rewrite <- (le32_bytes _ [] Hu2), <- (le32_bytes _ [] Hu2'); by rewrite Em).
  apply app_prefix_inj in E as [-> E]; [|lia]. destruct p, p'. cbn in *. congruence.
Qed.

Lemma system_source : source_ok (Some pva_auth_allow_list_sys).
Proof.
  intros l [= <-]. split; [apply system_bytes|]. split; [vm_compute; reflexivity|]. intros p tail Hp E.
  assert (p = system_list) as ->; [|apply system_list_usable].
  eapply (encode_inj _ _ tail []); [done|apply system_list_usable|]. rewrite <- E. apply system_list_encoded.
Qed.

Section authentication.
Variables (kzalloc : Z -> bool) (garbage data : list Z) (firmware : option (list Z)).
Hypothesis kzalloc_limit : forall n, kzalloc n = true -> n < 2 ^ 31.
Hypothesis garbage_64 : length garbage = 64%nat.
Hypothesis data_bytes : bytes data.
Hypothesis data_small : Z.of_nat (length data) < 2 ^ 29.
Abbreviation size := (Z.of_nat (length data)).

(** The list of the firmware file is well formed, if there is one. *)
Hypothesis firmware_ok : source_ok firmware.

(** A list that is marked as parsed is there, and comes from its file. *)
Definition auth_from (source : option (list Z)) (auth : pva_vpu_auth_s) : Prop :=
  pva_auth_allow_list_parsed auth = true ->
  exists p tail, vpu_hash_keys auth = Some p /\ list_usable p /\ source = Some (encode p ++ tail).

(** The state trusts a program. *)
Definition trusted (auth : pva_vpu_auth_s) : Prop :=
  pva_auth_enable auth = false \/
  pva_auth_allow_list_parsed auth = true /\ exists p, vpu_hash_keys auth = Some p /\ authentic p data.

Definition source_of (is_sys : bool) : option (list Z) := if is_sys then Some pva_auth_allow_list_sys else firmware.

(** Parsing, from whichever file. *)
Lemma source_parsed (is_sys : bool) auth : pva_auth_allow_list_parsed auth = false ->
  exists err auth', (if is_sys then pva_auth_allow_list_parse_buf kzalloc pva_auth_allow_list_sys pva_auth_allow_list_sys_len auth
                     else pva_auth_allow_list_parse kzalloc firmware auth) = Some (err, auth') /\
    auth_from (source_of is_sys) auth' /\
    (err = 0 /\ pva_auth_enable auth' = true /\ pva_auth_allow_list_parsed auth' = true \/
     err < 0 /\ pva_auth_enable auth' = pva_auth_enable auth /\ pva_auth_allow_list_parsed auth' = false).
Proof.
  intros Hnp.
  assert (Hgo : forall l, source_ok (Some l) -> exists err auth',
    pva_auth_allow_list_parse_buf kzalloc l (Z.of_nat (length l)) auth = Some (err, auth') /\ auth_from (Some l) auth' /\
    (err = 0 /\ pva_auth_enable auth' = true /\ pva_auth_allow_list_parsed auth' = true \/
     err < 0 /\ pva_auth_enable auth' = pva_auth_enable auth /\ pva_auth_allow_list_parsed auth' = false)).
  { intros l Hs. unfold source_ok in Hs. destruct (Hs l (eq_refl _)) as (Hb & Hl & Hu).
    destruct (parse_spec kzalloc kzalloc_limit l auth Hb Hl) as (err & auth' & -> & [(-> & p & tail & Hp & E & ->)|(Herr & ->)]).
    - exists 0, (parsed p). split; [done|]. split; [|by left]. intros _. exists p, tail. split; [done|].
      split; [by eapply Hu|by rewrite E].
    - eexists _, _. split; [done|]. split; [|right; by split_and!]. intros H. cbn in H. congruence. }
  destruct is_sys; [apply (Hgo _ system_source)|]. cbn [source_of]. unfold pva_auth_allow_list_parse.
  destruct firmware as [l|] eqn:Ef.
  - rewrite u32_id; [by apply Hgo|]. destruct (firmware_ok l (eq_refl _)) as (_ & Hl & _). unfold is_u32. lia.
  - exists (- ENOENT), auth. split; [done|]. split; [intros H; congruence|]. right. by split_and!.
Qed.

Lemma authenticate_ok auth (is_sys : bool) : auth_from (source_of is_sys) auth ->
  exists err auth', pva_authenticate_vpu_app garbage kzalloc firmware auth data size is_sys = Some (err, auth') /\
    auth_from (source_of is_sys) auth' /\ err <= 0 /\ pva_auth_enable auth' = pva_auth_enable auth /\ (err = 0 <-> trusted auth').
Proof.
  intros Hfrom. unfold pva_authenticate_vpu_app. destruct (pva_auth_enable auth) eqn:Een.
  2: { exists 0, auth. cbn [negb]. split_and!; try done. split; [by left|done]. }
  cbn [negb].
  assert (Hcheck : forall auth', auth_from (source_of is_sys) auth' -> pva_auth_enable auth' = true -> pva_auth_allow_list_parsed auth' = true ->
    exists err auth'', (keys ← vpu_hash_keys auth'; err ← pva_vpu_check_sha256_key garbage keys data size; Some (err, auth')) = Some (err, auth'') /\
    auth_from (source_of is_sys) auth'' /\ err <= 0 /\ pva_auth_enable auth'' = true /\ (err = 0 <-> trusted auth'')).
  { intros auth' Hf' Hen Hpa. destruct (Hf' Hpa) as (p & tail & Ep & Hu & _).
    destruct (check_sha256_ok garbage data garbage_64 data_bytes data_small p Hu) as (err & E & Hv & Hx).
    rewrite Ep. cbn [mbind option_bind]. rewrite E. cbn [mbind option_bind]. exists err, auth'. split_and!; try done.
    - destruct Hv as [->| ->]; done.
    - rewrite Hx. unfold trusted. rewrite Hen, Ep, Hpa. split; [|intros [?|(_ & q & [= <-] & H)]; done].
      intros H. right. split; [done|]. by exists p. }
  destruct (pva_auth_allow_list_parsed auth) eqn:Epa; cbn [negb].
  { cbn [mbind option_bind Z.eqb negb]. by apply Hcheck. }
  destruct (source_parsed is_sys auth Epa) as (err & auth' & -> & Hf' & [(-> & Hen & Hpa)|(Herr & Hen & Hpa)]); cbn [mbind option_bind].
  - cbn [Z.eqb negb]. by apply Hcheck.
  - rewrite (proj2 (Z.eqb_neq err 0)) by lia. cbn [negb]. exists err, auth'. split_and!; try done; [lia|congruence|].
    split; [lia|]. unfold trusted. rewrite Hen, Hpa, Een. intros [?|[? _]]; done.
Qed.
End authentication.

(** * The properties *)



(** The search returns for every array, sorted or not, and looks only inside it.  What it
    finds compares equal, and when the array is sorted and no larger than the code's
    overflow check allows, it finds an equal element if there is one.  When the upper end
    runs below the lower one the next middle is far outside, which the same check catches. *)
Theorem binary_search_correct {A} (key : A) (base : list A) (size : Z) (compare : A -> A -> Z) :
  0 < size -> Z.of_nat (length base) <= 2 ^ 32 ->
  exists r, binary_search key base size compare (Z.of_nat (length base)) = Some r /\
    match r with
    | Some i => exists e, 0 <= i /\ base !! Z.to_nat i = Some e /\ compare key e = 0
    | None => monotone key base compare -> Z.of_nat (length base) <= UINT_MAX / size + 1 ->
        forall i e, base !! i = Some e -> compare key e <> 0
    end.
Proof. intros Hs Hl. by apply binary_search_ok. Qed.

Lemma binary_search_correct_witness :
  binary_search (HashVector 0 0 0x9bc3fc03) (pvpu_hash_vector system_list) 12 compare_hash_value 8 = Some (Some 3) /\
  binary_search (HashVector 0 0 0x9bc3fc04) (pvpu_hash_vector system_list) 12 compare_hash_value 8 = Some None /\
  forall i h, pvpu_hash_vector system_list !! i = Some h -> compare_hash_value (HashVector 0 0 0x9bc3fc04) h <> 0.
Proof.
  assert (E : binary_search (HashVector 0 0 0x9bc3fc04) (pvpu_hash_vector system_list) 12 compare_hash_value 8 = Some None)
    by reflexivity.
  split; [reflexivity|]. split; [exact E|].
  destruct (binary_search_correct (HashVector 0 0 0x9bc3fc04) (pvpu_hash_vector system_list) 12 compare_hash_value)
    as (r & E' & H); [done|vm_compute; discriminate|].
  change (Z.of_nat (length (pvpu_hash_vector system_list))) with 8 in E', H. rewrite E in E'. injection E' as <-.
  apply H; [apply sorted_monotone, system_list_usable|vm_compute; discriminate].
Defined.

(** C12. What is registered as a VPU program.  Assumed: the program has less than 2^29 bytes
    (see [length_truncated]); the list of the firmware file, if there is one, is sorted by CRC and
    the keys of its entries lie inside it; the lists are not parsed again while one is searched.
    A program is registered exactly when there was memory for it and it could be copied, one of
    the lists trusts it and loading it succeeds.  A list trusts a program when checking
    is disabled for the list, or the list contains the SHA-256 digest of the program (of the
    standard) under its CRC, or an entry for its CRC that has no keys.  A list that is in use is the
    one that its file encodes; the built-in one is well formed.  A program is registered as a system
    program exactly when only the built-in list trusts it. *)
Theorem registration_authenticated (kzalloc : Z -> bool) (garbage : list Z) (firmware : option (list Z)) (kvmalloc : Z -> bool)
    (user_data : option (list Z)) (load_app : list Z -> Z -> bool -> Z) (data_size : Z) (auth auth_sys : pva_vpu_auth_s) :
  (forall n, kzalloc n = true -> n < 2 ^ 31) -> length garbage = 64%nat ->
  (forall data, user_data = Some data -> bytes data /\ Z.of_nat (length data) = data_size) -> 0 <= data_size < 2 ^ 29 ->
  source_ok firmware -> auth_from firmware auth -> auth_from (Some pva_auth_allow_list_sys) auth_sys ->
  exists err registered a a_sys,
    pva_register_vpu_exec garbage kzalloc firmware kvmalloc user_data load_app auth auth_sys data_size =
      Some (err, registered, a, a_sys) /\
    auth_from firmware a /\ auth_from (Some pva_auth_allow_list_sys) a_sys /\
    pva_auth_enable a = pva_auth_enable auth /\ pva_auth_enable a_sys = pva_auth_enable auth_sys /\
    (err = 0 <-> is_Some registered) /\
    (registered = Some false <-> kvmalloc data_size = true /\ exists data, user_data = Some data /\
       trusted data a /\ load_app data data_size false = 0) /\
    (registered = Some true <-> kvmalloc data_size = true /\ exists data, user_data = Some data /\
       ~ trusted data a /\ trusted data a_sys /\ load_app data data_size true = 0).
Proof.
  intros Hk Hg Hd Hl Hfw Ha Has. unfold pva_register_vpu_exec.
  assert (Hno : forall err, err <> 0 -> err = 0 <-> is_Some (@None bool)) by (intros err He; split; [done|by intros [? ?]]).
  destruct (kvmalloc data_size); cbn [negb].
  2: { eexists _, None, _, _. do 5 (split; [done|]). split; [by apply Hno|]. by split; (split; [done|by intros [? _]]). }
  destruct user_data as [data|].
  2: { eexists _, None, _, _. do 5 (split; [done|]). split; [by apply Hno|].
       by split; (split; [done|by intros (_ & ? & ? & _)]). }
  destruct (Hd data eq_refl) as [Hb Hlen]. rewrite u32_id by (unfold is_u32; lia).
  destruct (authenticate_ok kzalloc garbage data firmware Hk Hg Hb ltac:(lia) Hfw auth false Ha) as (err & a & E & Ha' & _ & Hen & Ht).
  rewrite Hlen in E. rewrite E. cbn [mbind option_bind source_of] in *. destruct (Z.eqb_spec err 0) as [->|Hne]; cbn [negb].
  - assert (Hta : trusted data a) by (by apply Ht). destruct (Z.eqb_spec (load_app data data_size false) 0) as [Hz|Hz]; cbn [negb].
    + eexists _, (Some false), a, auth_sys. do 5 (split; [done|]). split; [by split; [eauto|]|]. split; [|by split; [|naive_solver]].
      split; [|done]. intros _. split; [done|]. by exists data.
    + eexists _, None, a, auth_sys. do 5 (split; [done|]). split; [by apply Hno|].
      split; (split; [done|]); [by intros (_ & ? & [= <-] & _ & ?)|by intros (_ & ? & [= <-] & ? & _)].
  - destruct (authenticate_ok kzalloc garbage data firmware Hk Hg Hb ltac:(lia) Hfw auth_sys true Has)
      as (err' & a' & E' & Has' & _ & Hen' & Ht'). rewrite Hlen in E'. rewrite E'. cbn [mbind option_bind source_of] in *.
    assert (Hna : ~ trusted data a) by (intros H; by apply Ht in H).
    destruct (Z.eqb_spec err' 0) as [->|Hne']; cbn [negb].
    + assert (Hta : trusted data a') by (by apply Ht'). destruct (Z.eqb_spec (load_app data data_size true) 0) as [Hz|Hz]; cbn [negb].
      * eexists _, (Some true), a, a'. do 5 (split; [done|]). split; [by split; [eauto|]|]. split; [by split; [|naive_solver]|].
        split; [|done]. intros _. split; [done|]. by exists data.
      * eexists _, None, a, a'. do 5 (split; [done|]). split; [by apply Hno|].
        split; (split; [done|]); [by intros (_ & ? & [= <-] & ? & _)|by intros (_ & ? & [= <-] & _ & _ & ?)].
    + eexists err', None, a, a'. do 5 (split; [done|]). split; [by apply Hno|].
      split; (split; [done|]); [by intros (_ & ? & [= <-] & ? & _)|by intros (_ & ? & [= <-] & _ & H%Ht' & _)].
Qed.

(** A list in the firmware with the digest and the CRC of "abc"; the program "abc" is
    registered, "abd" is not. *)
Definition abc_digest : list Z :=
  [0xba; 0x78; 0x16; 0xbf; 0x8f; 0x01; 0xcf; 0xea; 0x41; 0x41; 0x40; 0xde; 0x5d; 0xae; 0x22; 0x23;
   0xb0; 0x03; 0x61; 0xa3; 0x96; 0x17; 0x7a; 0x9c; 0xb4; 0x10; 0xff; 0x61; 0xf2; 0x00; 0x15; 0xad].
Definition abc_list : vpu_hash_key_pair_s := HashKeyPair 1 [abc_digest] 1 [HashVector 1 0 0x352441c2].

Lemma abc_usable : list_usable abc_list.
Proof.
  split; [apply typed_check_ok; reflexivity|vm_compute; discriminate| |repeat constructor; vm_compute; discriminate].
  intros [|i] [|j] hi hj Hij Hi Hj; [lia|discriminate Hj|discriminate Hi..].
Qed.
Lemma abc_source : source_ok (Some (encode abc_list)).
Proof.
  intros l [= <-]. split; [|split; [vm_compute; reflexivity|]].
  - apply Forall_forall. intros x Hx. assert (H : forallb (fun x => (0 <=? x) && (x <? 2 ^ 8)) (encode abc_list) = true) by reflexivity.
    rewrite forallb_forall in H. apply list_elem_of_In in Hx. specialize (H x Hx). rewrite andb_true_iff in H. unfold is_u8. lia.
  - intros p tail Hp E. assert (p = abc_list) as ->; [|apply abc_usable].
    eapply (encode_inj _ _ tail []); [done|apply abc_usable|]. by rewrite <- E, app_nil_r.
Qed.

Lemma registration_authenticated_witness : exists a a_sys,
  pva_register_vpu_exec (replicate 64 0) (fun n => n <? 2 ^ 31) (Some (encode abc_list)) (fun _ => true) (Some [0x61; 0x62; 0x63])
    (fun _ _ _ => 0) (initial_auth 2 2) (initial_auth 2 2) 3 = Some (0, Some false, a, a_sys) /\
  trusted [0x61; 0x62; 0x63] a /\
  exists err b b_sys, pva_register_vpu_exec (replicate 64 0) (fun n => n <? 2 ^ 31) (Some (encode abc_list)) (fun _ => true)
    (Some [0x61; 0x62; 0x64]) (fun _ _ _ => 0) (initial_auth 2 2) (initial_auth 2 2) 3 = Some (err, None, b, b_sys) /\ err < 0.
Proof.
  assert (Hk : forall n, (n <? 2 ^ 31) = true -> n < 2 ^ 31) by (intros n H; by apply Z.ltb_lt).
  assert (Hd : forall data, Some [0x61; 0x62; 0x63] = Some data -> bytes data /\ Z.of_nat (length data) = 3)
    by (intros data [= <-]; split; [repeat constructor; done|done]).
  destruct (registration_authenticated (fun n => n <? 2 ^ 31) (replicate 64 0) (Some (encode abc_list)) (fun _ => true)
    (Some [0x61; 0x62; 0x63]) (fun _ _ _ => 0) 3 (initial_auth 2 2) (initial_auth 2 2) Hk eq_refl Hd ltac:(lia) abc_source)
    as (err & r & a & a_sys & E & _ & _ & _ & _ & _ & Ht & _); [by intros ?|by intros ?|].
  exists a, a_sys.
  assert (H0 : err = 0 /\ r = Some false) by (revert E; vm_compute; intros [= <- <- _ _]; done). destruct H0 as [-> ->].
  split; [exact E|]. split.
  - destruct (proj1 Ht eq_refl) as (_ & data & [= <-] & H & _). exact H.
  - eexists _, _, _. split; [vm_compute; reflexivity|done].
Defined.
