(* ===== verification/Sums.v ===== *)
(** What the entries of a list or of a finite map add up to: numbers, and lists of things. *)
From S2P Require Import Prelude.

Definition ind (b : bool) : Z := if b then 1 else 0.

Section lsum.
Context {A : Type}.
Implicit Types (f g : A -> Z) (l : list A).

Fixpoint lsum f l : Z := match l with [] => 0 | x :: l => f x + lsum f l end.

Lemma lsum_app f l k : lsum f (l ++ k) = lsum f l + lsum f k.
Proof. induction l as [|x l IH]; simpl; lia. Qed.
Lemma lsum_perm f l k : l ≡ₚ k -> lsum f l = lsum f k.
Proof. induction 1; simpl; lia. Qed.
Lemma lsum_ext f g l : (forall x, x ∈ l -> f x = g x) -> lsum f l = lsum g l.
Proof.
  induction l as [|x l IH]; intros H; simpl; [done|]. rewrite (H x) by left.
  f_equal. apply IH. intros y Hy. apply H. by right.
Qed.
Lemma lsum_nonneg f l : (forall x, x ∈ l -> 0 <= f x) -> 0 <= lsum f l.
Proof.
  induction l as [|x l IH]; intros H; simpl; [lia|]. specialize (IH ltac:(intros; apply H; by right)).
  specialize (H x ltac:(left)). lia.
Qed.
Lemma lsum_elem f l x n : x ∈ l -> n = f x -> (forall y, y ∈ l -> 0 <= f y) -> n <= lsum f l.
Proof.
  intros Hx -> H. apply list_elem_of_split in Hx as (l1 & l2 & ->). rewrite lsum_app. simpl.
  assert (0 <= lsum f l1) by (apply lsum_nonneg; set_solver).
  assert (0 <= lsum f l2) by (apply lsum_nonneg; set_solver). lia.
Qed.
Lemma lsum_pos f l : 0 < lsum f l -> exists x, x ∈ l /\ 0 < f x.
Proof.
  induction l as [|x l IH]; simpl; intros H; [lia|]. destruct (decide (0 < f x)); [exists x; split; [left|done]|].
  destruct IH as (y & ? & ?); [lia|]. exists y. split; [by right|done].
Qed.
Lemma lsum_zero f l : (forall x, x ∈ l -> f x = 0) -> lsum f l = 0.
Proof. intros H. rewrite (lsum_ext f (fun _ => 0)) by done. clear H. induction l; simpl; lia. Qed.
Lemma lsum_insert f l i x y : l !! i = Some x -> lsum f (<[i := y]> l) = lsum f l + f y - f x.
Proof.
  intros H. rewrite insert_take_drop by (by eapply lookup_lt_Some). rewrite <- (take_drop_middle l i x H) at 3.
  rewrite !lsum_app. simpl. lia.
Qed.
Lemma lsum_take_drop f l i x : l !! i = Some x -> lsum f (take i l ++ drop (S i) l) = lsum f l - f x.
Proof. intros H. rewrite <- (take_drop_middle l i x H) at 3. rewrite !lsum_app. simpl. lia. Qed.
End lsum.

Section msum.
Context {A : Type}.
Implicit Types (f : A -> Z) (m : gmap Z A).

Definition msum f m : Z := lsum (fun x => f x.2) (map_to_list m).

Lemma msum_del f m i x : m !! i = Some x -> msum f (delete i m) = msum f m - f x.
Proof. intros H. unfold msum. rewrite <- (lsum_perm _ _ _ (map_to_list_delete m i x H)). simpl. lia. Qed.
Lemma msum_new f m i y : m !! i = None -> msum f (<[i := y]> m) = msum f m + f y.
Proof. intros H. unfold msum. rewrite (lsum_perm _ _ _ (map_to_list_insert m i y H)). simpl. lia. Qed.
Lemma msum_upd f m i x y : m !! i = Some x -> msum f (<[i := y]> m) = msum f m + f y - f x.
Proof.
  intros H. rewrite <- insert_delete_eq, msum_new by apply lookup_delete_eq. rewrite (msum_del f m i x H). lia.
Qed.
Lemma msum_empty f : msum f ∅ = 0.
Proof. unfold msum. by rewrite map_to_list_empty. Qed.
Lemma msum_nonneg f m : (forall i x, m !! i = Some x -> 0 <= f x) -> 0 <= msum f m.
Proof. intros H. apply lsum_nonneg. intros [i x] Hx%elem_of_map_to_list. eauto. Qed.
Lemma msum_elem f m i x n : m !! i = Some x -> n = f x -> (forall i x, m !! i = Some x -> 0 <= f x) -> n <= msum f m.
Proof.
  intros Hx -> H. apply elem_of_map_to_list in Hx. apply (lsum_elem (fun x => f x.2) _ (i, x)); [done|done|].
  intros [j y] Hy%elem_of_map_to_list. eauto.
Qed.
Lemma msum_pos f m : 0 < msum f m -> exists i x, m !! i = Some x /\ 0 < f x.
Proof. intros H. apply lsum_pos in H as ([i x] & Hx%elem_of_map_to_list & H). eauto. Qed.
Lemma msum_zero f m : (forall i x, m !! i = Some x -> f x = 0) -> msum f m = 0.
Proof. intros H. apply lsum_zero. intros [i x] Hx%elem_of_map_to_list. eauto. Qed.
End msum.

(** * The lists that the values of a map contain *)
Section gather.
Context {A : Type} (f : A -> list Z).
Definition gather (m : gmap Z A) : list Z := concat (f ∘ snd <$> map_to_list m).

Lemma gather_delete m i x : m !! i = Some x -> gather m ≡ₚ f x ++ gather (delete i m).
Proof.
  intros H. unfold gather. rewrite <- (map_to_list_delete m i x H). done.
Qed.
Lemma gather_insert m i x : gather (<[i := x]> m) ≡ₚ f x ++ gather (delete i m).
Proof.
  rewrite (gather_delete (<[i := x]> m) i x) by apply lookup_insert_eq. by rewrite delete_insert_eq.
Qed.
Lemma gather_elem m i x p : m !! i = Some x -> p ∈ f x -> p ∈ gather m.
Proof. intros H Hp. rewrite (gather_delete m i x H). set_solver. Qed.
Lemma elem_gather m p : p ∈ gather m -> exists i x, m !! i = Some x /\ p ∈ f x.
Proof.
  unfold gather. rewrite list_elem_of_In, in_concat. intros (l & Hl & Hp). apply list_elem_of_In in Hl, Hp.
  apply list_elem_of_fmap in Hl as ([i x] & -> & Hin%elem_of_map_to_list). eauto.
Qed.
End gather.
