(* ===== verification/NvmapColor.v ===== *)
(** The colouring of a buffer's pages in nvmap
    (src/drivers/video/tegra/nvmap/nvmap_alloc.c).

    On chips whose memory is interleaved over channels, a buffer is put together from
    pages of all colours: [alloc_colored] takes more pages than it needs, sorts them by
    colour, and hands them out in tiles in which colours repeat as little as possible.
    The code works on three arrays, the linked lists of pages of a colour, and pops from
    a list only as often as counts allow: a pop from an empty list is a BUG(), and so is an
    access outside an array, which have no result here. *)
From stdpp Require Import functions.
From S2P Require Import Prelude.

(** * Arrays and loops *)
Definition rd (l : list Z) (i : Z) : option Z := if 0 <=? i then l !! Z.to_nat i else None.
Definition wr (i v : Z) (l : list Z) : option (list Z) :=
  if (0 <=? i) && (i <? Z.of_nat (length l)) then Some (<[Z.to_nat i := v]> l) else None.

Fixpoint for_list {A St : Type} (body : A -> St -> option St) (l : list A) (s : St) : option St :=
  match l with
  | [] => Some s
  | x :: l => s' ← body x s; for_list body l s'
  end.

(** [for (j = 0; j < n; j++) if (value(j) > max && allowed(j)) { color = j; max = value(j); }] *)
Definition find_max (n : Z) (value : Z -> option (Z * bool)) : option (Z * Z) :=
  for_list (fun j '(color, max) =>
              '(v, allowed) ← value j;
              Some (if (max <? v) && allowed then (j, v) else (color, max)))
    (seqZ 0 n) (0, 0).

(** * Colours *)
Definition PAGE_SIZE : Z := 4096.
Definition PAGE_SHIFT : Z := 12.
Definition NVMAP_MAX_COLORS : Z := 16.

Definition BIT_N (a n : Z) : Z := Z.land (Z.shiftr a n) 1.
Definition BITS_XOR_9_TO_31 (a : Z) : Z := foldr (fun n x => Z.lxor (BIT_N a n) x) 0 (seqZ 9 23).
Definition BITS_XOR_10_TO_31 (a : Z) : Z := foldr (fun n x => Z.lxor (BIT_N a n) x) 0 (seqZ 10 22).

Definition CHANNEL_MASK_0 : Z := 0x27af5200.
Definition CHANNEL_MASK_1 : Z := 0x563ca400.
Definition CHANNEL_MASK_2 : Z := 0x3f264800.
Definition CHANNEL_MASK_3 : Z := 0xe2443000.
Definition BANK_MASK_0 : Z := 0x5ca78400.
Definition BANK_MASK_1 : Z := 0xe5724800.
Definition BANK_MASK_2 : Z := 0x973bb000.

(** The colour, and the bank, which only a warning looks at. *)
Definition chan_and_bank (phys : Z) : Z * Z :=
  let addr := u32 phys in
  let xaddr := u32 (Z.shiftr phys 4) in
  let chan := BITS_XOR_9_TO_31 (Z.land addr CHANNEL_MASK_0) in
  let chan := Z.lor chan (Z.shiftl (BITS_XOR_9_TO_31 (Z.land addr CHANNEL_MASK_1)) 1) in
  let chan := Z.lor chan (Z.shiftl (BITS_XOR_9_TO_31 (Z.land addr CHANNEL_MASK_2)) 2) in
  let chan := Z.lor chan (Z.shiftl (BITS_XOR_9_TO_31 (Z.land addr CHANNEL_MASK_3)) 3) in
  let bank := BITS_XOR_10_TO_31 (Z.land xaddr BANK_MASK_0) in
  let bank := Z.lor bank (Z.shiftl (BITS_XOR_10_TO_31 (Z.land xaddr BANK_MASK_1)) 1) in
  let bank := Z.lor bank (Z.shiftl (BITS_XOR_10_TO_31 (Z.land xaddr BANK_MASK_2)) 2) in
  (chan, bank).
Definition addr_to_color_t19x (phys : Z) : Z := (chan_and_bank phys).1.

(** A page is its frame number. *)
Definition page_to_phys (page : Z) : Z := Z.shiftl page PAGE_SHIFT.

(** * Lists of pages by colour *)
Record color_list := ColorList { counts : list Z; heads : list Z; clist : list Z; cpages : list Z }.

(** [garbage] is what the array of links contains when it is allocated. *)
Definition alloc_color_list (garbage pages : list Z) (nr_colors : Z) : color_list :=
  ColorList (replicate (Z.to_nat nr_colors) 0) (replicate (Z.to_nat nr_colors) 0) garbage pages.

Definition list_pop_page (l : color_list) (color : Z) : option (Z * color_list) :=
  c ← rd (counts l) color;
  if (c =? 0) || (2 ^ 31 <? c) then None
  else
    i ← rd (heads l) color;
    next ← rd (clist l) i;
    heads' ← wr color next (heads l);
    counts' ← wr color (u32 (c - 1)) (counts l);
    page ← rd (cpages l) i;
    Some (page, ColorList counts' heads' (clist l) (cpages l)).

(** The last loop of [init_color_list]; how the pages are obtained is in [NvmapPages]. *)
Definition sort_pages (addr_to_color : Z -> Z) (garbage pages : list Z) (nr_colors : Z) : option color_list :=
  for_list (fun i l =>
              page ← rd (cpages l) i;
              let color := addr_to_color (page_to_phys page) in
              h ← rd (heads l) color;
              clist' ← wr i h (clist l);
              heads' ← wr color i (heads l);
              c ← rd (counts l) color;
              counts' ← wr color (u32 (c + 1)) (counts l);
              Some (ColorList counts' heads' clist' (cpages l)))
    (seqZ 0 (Z.of_nat (length pages))) (alloc_color_list garbage pages nr_colors).

(** * Smoothing *)

(** Which colours are freed; the array of the code has 16 entries. *)
Definition smooth_counts (l : color_list) (nr_extra nr_colors : Z) : option (list Z) :=
  for_list (fun _ cs =>
              '(color, _) ← find_max nr_colors (fun j =>
                 a ← rd (counts l) j; b ← rd cs j; Some (u32 (a - b), true));
              c ← rd cs color; wr color (u32 (c + 1)) cs)
    (seqZ 0 nr_extra) (replicate (Z.to_nat NVMAP_MAX_COLORS) 0).

(** [while (counts[color]) __free_page(list_pop_page(list, color, ..))]: [n] is the count. *)
Fixpoint free_color (n : nat) (color : Z) (s : color_list * list Z) : option (color_list * list Z) :=
  match n with
  | O => Some s
  | S n =>
      '(page, l) ← list_pop_page s.1 color;
      free_color n color (l, s.2 ++ [page])
  end.

(** A round of the outer loop; the result has the list, the freed pages, [counts] and
    [nr_extra]. *)
Definition smooth_round (nr_colors : Z) (s : color_list * list Z * list Z * Z)
  : option (color_list * list Z * list Z * Z) :=
  for_list (fun color '(l, freed, cs, extra) =>
              c ← rd cs color;
              '(l, freed) ← free_color (Z.to_nat c) color (l, freed);
              cs ← wr color 0 cs;
              Some (l, freed, cs, u32 (extra - c)))
    (seqZ 0 nr_colors) s.

Fixpoint smooth_loop (fuel : nat) (nr_colors : Z) (s : color_list * list Z * list Z * Z)
  : option (color_list * list Z) :=
  match fuel with
  | O => None
  | S fuel =>
      '(l, freed, cs, extra) ← smooth_round nr_colors s;
      if 0 <? extra then smooth_loop fuel nr_colors (l, freed, cs, extra) else Some (l, freed)
  end.

(** The list, and the pages that are freed. *)
Definition smooth_pages (l : color_list) (nr_extra nr_colors : Z) : option (color_list * list Z) :=
  if nr_extra =? 0 then Some (l, [])
  else
    cs ← smooth_counts l nr_extra nr_colors;
    smooth_loop (Z.to_nat nr_extra) nr_colors (l, [], cs, nr_extra).

(** * Tiles *)

(** What changes while tiles are put out: the lists, and the pages put out so far. *)
Definition tile_state : Type := color_list * list Z.

(** [out_pages[state->output_count++] = list_pop_page(state->list, color, ..)] *)
Definition put_page (color : Z) (s : tile_state) : option tile_state :=
  '(page, l) ← list_pop_page s.1 color;
  Some (l, s.2 ++ [page]).

Definition add_perfect (nr_colors : Z) (addr_to_color : Z -> Z) (tile nr_pages : Z) (s : tile_state) : option tile_state :=
  for_list (fun i s =>
              if Z.of_nat (length s.2) <? nr_pages then
                let virt_addr := u32 (i + u32 (tile * nr_colors)) * PAGE_SIZE in
                put_page (addr_to_color virt_addr) s
              else Some s)
    (seqZ 0 nr_colors) s.

(** The colours that go into an imperfect tile. *)
Definition imperfect_counts (nr_colors max_color_per_tile : Z) (l : color_list) : option (list Z) :=
  for_list (fun _ cs =>
              '(color, _) ← find_max nr_colors (fun j =>
                 a ← rd (counts l) j; b ← rd cs j;
                 Some (u32 (a - b), b <? max_color_per_tile));
              c ← rd cs color; wr color (u32 (c + 1)) cs)
    (seqZ 0 nr_colors) (replicate (Z.to_nat NVMAP_MAX_COLORS) 0).

Definition add_imperfect (nr_colors : Z) (addr_to_color : Z -> Z) (max_color_per_tile nr_pages : Z) (s : tile_state)
  : option tile_state :=
  cs ← imperfect_counts nr_colors max_color_per_tile s.1;
  fst <$> for_list (fun i '(s, cs) =>
              if Z.of_nat (length s.2) <? nr_pages then
                let virt_addr := u32 (i + u32 (i * nr_colors)) * PAGE_SIZE in
                let color := addr_to_color virt_addr in
                c ← rd cs color;
                color ← (if c =? 0 then
                           fst <$> find_max nr_colors (fun j => b ← rd cs j; Some (b, true))
                         else Some color);
                s ← put_page color s;
                c ← rd cs color;
                cs ← wr color (u32 (c - 1)) cs;
                Some (s, cs)
              else Some (s, cs))
    (seqZ 0 nr_colors) (s, cs).

(** * [alloc_colored] *)
Definition colored_tiles (nr_colors nr_pages : Z) : Z := u32 (u32 (nr_pages + nr_colors) - 1) / nr_colors.
(** The number of pages it takes. *)
Definition colored_nr_alloc (nr_colors nr_pages : Z) : Z :=
  let nr_alloc := u32 (nr_colors * colored_tiles nr_colors nr_pages) in
  u32 (nr_alloc + Z.shiftr nr_alloc 4).

Definition min_max_count (l : color_list) (nr_colors : Z) : option (Z * Z) :=
  c0 ← rd (counts l) 0;
  for_list (fun i '(min, max) =>
              c ← rd (counts l) i;
              Some (if c <? min then c else min, if max <? c then c else max))
    (seqZ 0 nr_colors) (c0, 0).

(** [nr_perfect] and [max_color_per_tile]. *)
Definition tile_plan (nr_tiles min_count max_count : Z) : Z * Z :=
  let div_up a b := if a mod b =? 0 then a / b else a / b + 1 in
  if min_count =? 0 then (0, div_up max_count nr_tiles)
  else if min_count =? nr_tiles then (nr_tiles, 1)
  else (min_count, div_up (max_count - min_count) (nr_tiles - min_count)).

Definition output_tiles (nr_colors : Z) (addr_to_color : Z -> Z) (nr_tiles nr_perfect max_color_per_tile nr_pages : Z)
    (l : color_list) : option tile_state :=
  let nr_imperfect := u32 (nr_tiles - nr_perfect) in
  fst <$> for_list (fun tile '(s, dither_state) =>
              if 0 <? dither_state then
                s ← add_perfect nr_colors addr_to_color tile nr_pages s;
                Some (s, s32 (dither_state - nr_imperfect))
              else
                s ← add_imperfect nr_colors addr_to_color max_color_per_tile nr_pages s;
                Some (s, s32 (dither_state + nr_perfect)))
    (seqZ 0 nr_tiles) ((l, []), s32 (nr_perfect - nr_imperfect)).

(** The last loop: pages of a tile that the buffer did not fill. *)
Definition free_rest (nr_colors : Z) (l : color_list) : option (color_list * list Z) :=
  for_list (fun i s => c ← rd (counts s.1) i; free_color (Z.to_nat c) i s) (seqZ 0 nr_colors) (l, []).

(** Everything after the pages have been obtained: the pages of the buffer in their
    order, and the pages that are freed. *)
Definition alloc_colored_pages (nr_colors : Z) (addr_to_color : Z -> Z) (garbage pages : list Z) (nr_pages : Z)
  : option (list Z * list Z) :=
  let nr_tiles := colored_tiles nr_colors nr_pages in
  let nr_alloc := colored_nr_alloc nr_colors nr_pages in
  l ← sort_pages addr_to_color garbage pages nr_colors;
  '(l, smoothed) ← smooth_pages l (u32 (nr_alloc - u32 (nr_colors * nr_tiles))) nr_colors;
  '(min_count, max_count) ← min_max_count l nr_colors;
  let '(nr_perfect, max_color_per_tile) := tile_plan nr_tiles min_count max_count in
  '(l, out) ← output_tiles nr_colors addr_to_color nr_tiles nr_perfect max_color_per_tile nr_pages l;
  '(l, rest) ← free_rest nr_colors l;
  Some (out, smoothed ++ rest).

(** * Arrays *)
Lemma rd_lookup l i v : rd l i = Some v <-> 0 <= i /\ l !! Z.to_nat i = Some v.
Proof. unfold rd. case_if; split; try done; try lia; tauto. Qed.

Lemma rd_total l i : 0 <= i < Z.of_nat (length l) -> rd l i = Some (l !!! Z.to_nat i).
Proof. intros H. apply rd_lookup. split; [lia|]. apply list_lookup_lookup_total_lt. lia. Qed.

Lemma wr_ok i v l : 0 <= i < Z.of_nat (length l) -> wr i v l = Some (<[Z.to_nat i := v]> l).
Proof. intros H. unfold wr. case_if; [done|]. destruct Heqb; zb; lia. Qed.

Lemma for_list_app {A St} (body : A -> St -> option St) l k s :
  for_list body (l ++ k) s = for_list body l s ≫= for_list body k.
Proof.
  revert s. induction l as [|x l IH]; intros s; simpl; [done|].
  destruct (body x s) as [s'|]; simpl; [apply IH|done].
Qed.

(** Loops keep an invariant indexed by what they have done. *)
Lemma for_list_inv {St} (body : Z -> St -> option St) (I : Z -> St -> Prop) n s :
  0 <= n -> I 0 s ->
  (forall i s, 0 <= i < n -> I i s -> exists s', body i s = Some s' /\ I (i + 1) s') ->
  exists s', for_list body (seqZ 0 n) s = Some s' /\ I n s'.
Proof.
  intros Hn H0 Hstep.
  cut (forall (k : nat) i s, i + Z.of_nat k = n -> 0 <= i -> I i s ->
         exists s', for_list body (seqZ i (Z.of_nat k)) s = Some s' /\ I n s').
  { intros H. destruct (H (Z.to_nat n) 0 s) as (s' & E & Hs'); [lia|lia|done|].
    exists s'. by rewrite Z2Nat.id in E by lia. }
  clear s H0. induction k as [|k IH]; intros i s Hi Hi0 Hs.
  - exists s. split; [done|]. by replace n with i by lia.
  - rewrite seqZ_cons by lia. replace (Z.pred (Z.of_nat (S k))) with (Z.of_nat k) by lia.
    destruct (Hstep i s) as (s1 & E & H1); [lia|done|].
    destruct (IH (Z.succ i) s1) as (s' & E' & H'); [lia|lia|by replace (Z.succ i) with (i + 1) by lia|].
    exists s'. simpl. by rewrite E.
Qed.

(** The same with what is shown of the result. *)
Lemma for_list_elim {St} (body : Z -> St -> option St) (I : Z -> St -> Prop) n s (P : option St -> Prop) :
  0 <= n -> I 0 s ->
  (forall i s, 0 <= i < n -> I i s -> exists s', body i s = Some s' /\ I (i + 1) s') ->
  (forall s', I n s' -> P (Some s')) -> P (for_list body (seqZ 0 n) s).
Proof. intros Hn H0 Hs HP. destruct (for_list_inv body I n s Hn H0 Hs) as (s' & -> & H). auto. Qed.

Tactic Notation "for_inv" uconstr(I) :=
  match goal with
  | |- context [for_list ?b (seqZ 0 ?n) ?s] =>
      pattern (for_list b (seqZ 0 n) s); apply (for_list_elim b I n s); cbv beta; [lia| | |]
  end.

(** A function over colours, summed. *)
Fixpoint total (n : nat) (g : Z -> Z) : Z :=
  match n with O => 0 | S n => total n g + g (Z.of_nat n) end.

Lemma total_le n g h : (forall i, 0 <= i < Z.of_nat n -> g i <= h i) -> total n g <= total n h.
Proof.
  induction n as [|n IH]; intros H; simpl; [lia|].
  specialize (IH ltac:(intros; apply H; lia)). specialize (H (Z.of_nat n) ltac:(lia)). lia.
Qed.
Lemma total_ext n g h : (forall i, 0 <= i < Z.of_nat n -> g i = h i) -> total n g = total n h.
Proof. intros H. apply Z.le_antisymm; apply total_le; intros i Hi; rewrite H; lia. Qed.
Lemma total_lt n g h c :
  (forall i, 0 <= i < Z.of_nat n -> g i <= h i) -> 0 <= c < Z.of_nat n -> g c < h c -> total n g < total n h.
Proof.
  induction n as [|n IH]; intros H Hc Hlt; simpl; [lia|].
  destruct (decide (c = Z.of_nat n)) as [->|].
  - assert (total n g <= total n h) by (apply total_le; intros; apply H; lia). lia.
  - specialize (IH ltac:(intros; apply H; lia) ltac:(lia) Hlt). specialize (H (Z.of_nat n) ltac:(lia)). lia.
Qed.
Lemma total_lin n a b g : total n (fun i => a + b * g i) = Z.of_nat n * a + b * total n g.
Proof. induction n as [|n IH]; simpl total; [lia|]. rewrite IH. lia. Qed.
Lemma total_mono k n g : (k <= n)%nat -> (forall i, 0 <= i < Z.of_nat n -> 0 <= g i) -> total k g <= total n g.
Proof.
  induction 1 as [|n Hk IH]; intros H; [done|]. simpl.
  specialize (IH ltac:(intros; apply H; lia)). specialize (H (Z.of_nat n) ltac:(lia)). lia.
Qed.
Lemma total_zero n g : (forall i, 0 <= i < Z.of_nat n -> g i = 0) -> total n g = 0.
Proof.
  induction n as [|n IH]; intros H; simpl; [done|]. rewrite IH by (intros; apply H; lia). rewrite H; lia.
Qed.
Lemma total_upd n c v g : 0 <= c < Z.of_nat n -> total n (<[c := v]> g) = total n g + (v - g c).
Proof.
  induction n as [|n IH]; intros Hc; simpl; [lia|].
  destruct (decide (c = Z.of_nat n)) as [->|].
  - rewrite fn_lookup_insert.
    rewrite (total_ext n (<[Z.of_nat n := v]> g) g) by (intros; rewrite fn_lookup_insert_ne by lia; done). lia.
  - rewrite fn_lookup_insert_ne by done. rewrite IH by lia. lia.
Qed.
(** Some value is above its share. *)
Lemma total_exists n g h :
  total n h < total n g -> exists i, 0 <= i < Z.of_nat n /\ h i < g i.
Proof.
  induction n as [|n IH]; simpl; intros H; [lia|].
  destruct (decide (h (Z.of_nat n) < g (Z.of_nat n))) as [Hd|]; [exists (Z.of_nat n); lia|].
  destruct IH as (i & ? & ?); [lia|]. exists i. lia.
Qed.

(** The values of an array, as a function. *)
Definition val (l : list Z) (i : Z) : Z := l !!! Z.to_nat i.
Lemma rd_val l i : 0 <= i < Z.of_nat (length l) -> rd l i = Some (val l i).
Proof. apply rd_total. Qed.
Lemma val_insert l i v j :
  0 <= i < Z.of_nat (length l) -> 0 <= j -> val (<[Z.to_nat i := v]> l) j = (<[i := v]> (val l) : Z -> Z) j.
Proof.
  intros Hi Hj. unfold val. destruct (decide (i = j)) as [->|].
  - rewrite fn_lookup_insert. apply list_lookup_total_insert_eq. lia.
  - rewrite fn_lookup_insert_ne by done. apply list_lookup_total_insert_ne. lia.
Qed.
Lemma total_insert (n : nat) l i v :
  0 <= i < Z.of_nat n -> (n <= length l)%nat ->
  total n (val (<[Z.to_nat i := v]> l)) = total n (val l) + (v - val l i).
Proof.
  intros Hi Hn. rewrite <- total_upd by done. apply total_ext. intros j Hj. apply val_insert; lia.
Qed.

(** The loop finds an allowed colour with the largest value, or there is no allowed colour
    with a value above 0. *)
Lemma find_max_spec n value (g : Z -> Z) (e : Z -> bool) :
  0 <= n -> (forall j, 0 <= j < n -> value j = Some (g j, e j)) ->
  exists color max, find_max n value = Some (color, max) /\
    ((color = 0 /\ max = 0) \/ 0 <= color < n /\ e color = true /\ g color = max /\ 0 < max) /\
    (forall j, 0 <= j < n -> e j = true -> g j <= max).
Proof.
  intros Hn Hv. unfold find_max.
  for_inv (fun i '(color, max) =>
       (color = 0 /\ max = 0 \/ 0 <= color < n /\ e color = true /\ g color = max /\ 0 < max) /\ 0 <= max /\
       (forall j, 0 <= j < i -> e j = true -> g j <= max)).
  - split_and!; [by left|lia|lia].
  - intros j [color max] Hj (H1 & H2 & H3). rewrite Hv by done. simpl.
    case_if; (eexists; split; [done|]); simpl.
    + zb. split_and!; [right; split_and!; try done; lia|lia|].
      intros j' Hj' He. destruct (decide (j' = j)) as [->|]; [lia|].
      specialize (H3 j' ltac:(lia) He). lia.
    + split_and!; [done|done|]. intros j' Hj' He. destruct (decide (j' = j)) as [->|]; [|apply H3; [lia|done]].
      destruct Heqb; zb; [lia|congruence].
  - intros [color max] (H1 & H2 & H3). eauto.
Qed.

(** * Lists of pages by colour, abstractly

    [av] has the pages of each colour, in the order in which they will be popped. *)
Abbreviation buckets := (Z -> list Z) (only parsing).
Definition cnt (av : buckets) (c : Z) : Z := Z.of_nat (length (av c)).
Fixpoint bag (n : nat) (av : buckets) : list Z :=
  match n with O => [] | S n => bag n av ++ av (Z.of_nat n) end.

(** The indices of the pages that follow [h]. *)
Fixpoint chain (links : list Z) (h : Z) (ixs : list Z) : Prop :=
  match ixs with
  | [] => True
  | i :: ixs => h = i /\ exists next, rd links i = Some next /\ chain links next ixs
  end.

Definition bucket_repr (l : color_list) (c : Z) (b : list Z) : Prop :=
  rd (counts l) c = Some (Z.of_nat (length b)) /\
  exists h ixs, rd (heads l) c = Some h /\ chain (clist l) h ixs /\ mapM (rd (cpages l)) ixs = Some b.

Record color_repr (n : nat) (l : color_list) (av : buckets) : Prop := {
  cr_counts : length (counts l) = n;
  cr_heads : length (heads l) = n;
  cr_small : Z.of_nat (length (cpages l)) <= 2 ^ 31;
  cr_bucket c : 0 <= c < Z.of_nat n -> bucket_repr l c (av c) /\ cnt av c <= Z.of_nat (length (cpages l))
}.

Lemma bag_ext n av av' : (forall c, 0 <= c < Z.of_nat n -> av c = av' c) -> bag n av = bag n av'.
Proof.
  induction n as [|n IH]; intros H; simpl; [done|]. rewrite (H (Z.of_nat n)) by lia.
  f_equal. apply IH. intros c Hc. apply H. lia.
Qed.
Lemma bag_pop n av c ps b :
  0 <= c < Z.of_nat n -> av c = ps ++ b -> bag n av ≡ₚ ps ++ bag n (<[c := b]> av).
Proof.
  induction n as [|n IH]; intros Hc E; simpl; [lia|].
  destruct (decide (c = Z.of_nat n)) as [->|].
  - rewrite fn_lookup_insert, E.
    rewrite (bag_ext n (<[Z.of_nat n := b]> av) av) by (intros; rewrite fn_lookup_insert_ne by lia; done).
    by rewrite Permutation_app_swap_app.
  - rewrite fn_lookup_insert_ne by done. rewrite IH by (done || lia). by rewrite (assoc (++)).
Qed.
Lemma bag_length n av : Z.of_nat (length (bag n av)) = total n (cnt av).
Proof. induction n as [|n IH]; simpl; [done|]. rewrite length_app. unfold cnt at 2. lia. Qed.

Lemma insert_other {A} (av : Z -> A) c v c' : c' <> c -> (<[c := v]> av : Z -> A) c' = av c'.
Proof. intros. by rewrite fn_lookup_insert_ne. Qed.
Lemma cnt_insert av c b c' :
  cnt (<[c := b]> av) c' = if decide (c' = c) then Z.of_nat (length b) else cnt av c'.
Proof.
  unfold cnt. case_decide as H; [by rewrite H, fn_lookup_insert|by rewrite insert_other].
Qed.

(** Other entries of an array keep their values. *)
Lemma rd_insert_ne l i v j : 0 <= i -> j <> i -> rd (<[Z.to_nat i := v]> l) j = rd l j.
Proof. intros. unfold rd. case_if; [|done]. apply list_lookup_insert_ne. lia. Qed.
Lemma rd_insert_eq l i v : 0 <= i < Z.of_nat (length l) -> rd (<[Z.to_nat i := v]> l) i = Some v.
Proof. intros. apply rd_lookup. split; [lia|]. apply list_lookup_insert_eq. lia. Qed.
Lemma rd_range l i v : rd l i = Some v -> 0 <= i < Z.of_nat (length l).
Proof. intros [? ?%lookup_lt_Some]%rd_lookup. lia. Qed.

Lemma list_pop_page_ok n l av c p b :
  color_repr n l av -> 0 <= c < Z.of_nat n -> av c = p :: b ->
  exists l', list_pop_page l c = Some (p, l') /\ color_repr n l' (<[c := b]> av) /\ cpages l' = cpages l.
Proof.
  intros [Hc Hh Hs Hb] Hr E. destruct (Hb c Hr) as [[Ec (h & ixs & Eh & Hch & Hm)] Hle].
  unfold cnt in Hle. rewrite E in Ec, Hm, Hle. simpl in Hle, Ec.
  destruct ixs as [|i ixs]; [done|]. destruct Hch as [-> (next & En & Hch)].
  simpl in Hm. destruct (rd (cpages l) i) as [q|] eqn:Ep; simpl in Hm; [|done].
  destruct (mapM (rd (cpages l)) ixs) as [b'|] eqn:Em; simpl in Hm; [|done]. injection Hm as -> ->. subst n.
  unfold list_pop_page. rewrite Ec. simpl. rewrite Eh. simpl. rewrite En. simpl.
  case_if; [lia|]. simpl.
  rewrite !wr_ok by lia. simpl. rewrite Ep. simpl. eexists. split_and!; [done| |done].
  constructor; simpl; rewrite ?length_insert; try done.
  intros c' Hc'. rewrite cnt_insert. destruct (decide (c' = c)) as [->|Hne].
  - rewrite fn_lookup_insert. split; [|lia]. split; simpl.
    + rewrite rd_insert_eq by lia. f_equal. rewrite u32_id by width_lia. lia.
    + exists next, ixs. rewrite rd_insert_eq by lia. done.
  - rewrite insert_other by done. destruct (Hb c' Hc') as [[Ec' (h' & ixs' & Eh' & Hch')] Hle']. split; [|done].
    split; simpl; [by rewrite rd_insert_ne by lia|]. exists h', ixs'. by rewrite rd_insert_ne by lia.
Qed.

Lemma color_repr_ext n l av av' :
  (forall c, 0 <= c < Z.of_nat n -> av c = av' c) -> color_repr n l av -> color_repr n l av'.
Proof.
  intros H [Hc Hh Hs Hb]. constructor; try done. intros c Hr. unfold cnt. rewrite <- (H c Hr). by apply Hb.
Qed.

Lemma free_color_ok n l av c k fr :
  color_repr n l av -> 0 <= c < Z.of_nat n -> (k <= length (av c))%nat ->
  exists l', free_color k c (l, fr) = Some (l', fr ++ take k (av c)) /\
    color_repr n l' (<[c := drop k (av c)]> av) /\ cpages l' = cpages l.
Proof.
  revert l av fr. induction k as [|k IH]; intros l av fr Hl Hr Hk; simpl.
  - exists l. rewrite app_nil_r. split_and!; [done| |done]. eapply color_repr_ext; [|exact Hl].
    intros c' _. destruct (decide (c' = c)) as [->|]; [by rewrite fn_lookup_insert|by rewrite insert_other].
  - destruct (av c) as [|p b] eqn:E; simpl in Hk; [lia|].
    destruct (list_pop_page_ok n l av c p b Hl Hr E) as (l1 & -> & Hl1 & Hp1). simpl.
    destruct (IH l1 (<[c := b]> av) (fr ++ [p]) Hl1 Hr) as (l2 & -> & Hl2 & Hp2); [rewrite fn_lookup_insert; lia|].
    rewrite fn_lookup_insert in *. exists l2. rewrite <- (assoc (++)). split_and!; [done| |congruence].
    eapply color_repr_ext; [|exact Hl2]. intros c' _.
    destruct (decide (c' = c)) as [->|]; [by rewrite !fn_lookup_insert|by rewrite !insert_other].
Qed.

Lemma chain_insert links i v h ixs :
  0 <= i -> Forall (fun j => j <> i) ixs -> chain links h ixs -> chain (<[Z.to_nat i := v]> links) h ixs.
Proof.
  revert h. induction ixs as [|j ixs IH]; intros h Hi Hf; [done|]. simpl.
  apply Forall_cons in Hf as [Hj Hf]. intros [-> (next & E & Hc)]. split; [done|].
  exists next. rewrite rd_insert_ne by done. auto.
Qed.

Section colouring.
Context (n : nat) (f : Z -> Z) (Hn : (0 < n)%nat).
Abbreviation C := (Z.of_nat n).
Definition page_color (p : Z) : Z := f (page_to_phys p).
Hypothesis f_range : forall phys, 0 <= f phys < C.

(** The buckets contain what their colour says. *)
Definition coloured (av : buckets) : Prop := forall c, 0 <= c < C -> Forall (fun p => page_color p = c) (av c).

Lemma coloured_insert av c b :
  coloured av -> (0 <= c < C -> Forall (fun p => page_color p = c) b) -> coloured (<[c := b]> av).
Proof.
  intros Ha Hb c' Hc'. destruct (decide (c' = c)) as [->|].
  - rewrite fn_lookup_insert. auto.
  - rewrite insert_other by done. auto.
Qed.

Lemma sort_pages_ok garbage pages :
  length garbage = length pages -> Z.of_nat (length pages) <= 2 ^ 31 ->
  exists l av, sort_pages f garbage pages C = Some l /\ color_repr n l av /\ coloured av /\
    cpages l = pages /\ bag n av ≡ₚ pages.
Proof.
  intros Hg Hs. unfold sort_pages.
  for_inv (fun i l => exists av, length (counts l) = n /\ length (heads l) = n /\ cpages l = pages /\
       length (clist l) = length pages /\ coloured av /\ bag n av ≡ₚ take (Z.to_nat i) pages /\
       forall c, 0 <= c < C -> rd (counts l) c = Some (cnt av c) /\ cnt av c <= i /\
         exists h ixs, rd (heads l) c = Some h /\ chain (clist l) h ixs /\
           mapM (rd pages) ixs = Some (av c) /\ Forall (fun j => j < i) ixs).
  - exists (fun _ => []). simpl. rewrite !length_replicate. split_and!; try done; try lia.
    + intros c _. constructor.
    + clear. induction n as [|m IH]; simpl; [done|by rewrite app_nil_r].
    + intros c Hc. rewrite (proj2 (rd_lookup _ _ 0)) by (split; [lia|]; apply lookup_replicate; lia).
      split_and!; [done|done|]. exists 0, []. done.
  - intros i l Hi (av & H1 & H2 & H3 & H4 & H5 & H6 & H7). rewrite H3.
    rewrite rd_total by lia. set (p := pages !!! Z.to_nat i). simpl. fold (page_color p).
    pose proof (f_range (page_to_phys p)) as Hr. fold (page_color p) in Hr. set (c := page_color p) in *.
    destruct (H7 c Hr) as (Ec & Hle & h & ixs & Eh & Hch & Hm & Hf). rewrite Eh. simpl.
    rewrite !wr_ok by lia. simpl. rewrite Ec. simpl. rewrite wr_ok by lia. simpl.
    eexists. split; [done|]. exists (<[c := p :: av c]> av). simpl.
    rewrite !length_insert. split_and!; try done.
    + apply coloured_insert; [done|]. intros _. constructor; [done|by apply H5].
    + replace (Z.to_nat (i + 1)) with (S (Z.to_nat i)) by lia.
      rewrite (take_S_r _ _ p) by (apply list_lookup_lookup_total_lt; lia). rewrite <- H6, (comm (++)).
      assert (E : bag n (<[c := p :: av c]> av) ≡ₚ [p] ++ bag n (<[c := av c]> (<[c := p :: av c]> av : Z -> list Z))).
      { apply bag_pop; [done|]. by rewrite fn_lookup_insert. }
      rewrite E. apply (Permutation_app_head [p]). apply reflexive_eq, bag_ext. intros c' Hc'.
      destruct (decide (c' = c)) as [->|]; [by rewrite fn_lookup_insert|by rewrite !insert_other].
    + intros c' Hc'. rewrite cnt_insert. destruct (decide (c' = c)) as [->|Hne].
      * rewrite !rd_insert_eq by lia. simpl length. split_and!; [f_equal; unfold cnt in *; width_lia|unfold cnt in *; lia|].
        exists i, (i :: ixs). split_and!; [done| | |].
        -- split; [done|]. exists h. rewrite rd_insert_eq by lia. split; [done|].
           apply chain_insert; [lia| |done]. eapply Forall_impl; [exact Hf|]. simpl. lia.
        -- simpl. rewrite rd_total by lia. simpl. rewrite Hm. simpl. by rewrite fn_lookup_insert.
        -- constructor; [lia|]. eapply Forall_impl; [exact Hf|]. simpl. lia.
      * destruct (H7 c' Hc') as (Ec' & Hle' & h' & ixs' & Eh' & Hch' & Hm' & Hf').
        rewrite !rd_insert_ne by (lia || done). split_and!; [done|lia|]. exists h', ixs'.
        rewrite insert_other by done. split_and!; [done| |done|].
        -- apply chain_insert; [lia| |done]. eapply Forall_impl; [exact Hf'|]. simpl. lia.
        -- eapply Forall_impl; [exact Hf'|]. simpl. lia.
  - intros l (av & H1 & H2 & H3 & H4 & H5 & H6 & H7). exists l, av. split_and!; try done.
    + constructor; try done; [by rewrite H3|]. intros c Hc.
      destruct (H7 c Hc) as (Ec & Hle & h & ixs & Eh & Hch & Hm & Hf). rewrite H3. split; [|done].
      split; [done|]. exists h, ixs. by rewrite H3.
    + rewrite H6, Nat2Z.id. by rewrite firstn_all.
Qed.

(** How many pages of a colour there are. *)
Definition occ (c : Z) (ps : list Z) : Z := Z.of_nat (length (filter (fun p => page_color p = c) ps)).

(** [ps] are pages taken out of [av]. *)
Record taken (av : buckets) (ps : list Z) (av' : buckets) : Prop := {
  tk_bag : bag n av ≡ₚ ps ++ bag n av';
  tk_coloured : coloured av';
  tk_cnt c : 0 <= c < C -> cnt av' c = cnt av c - occ c ps
}.

Lemma occ_color_app c ps qs : occ c (ps ++ qs) = occ c ps + occ c qs.
Proof. unfold occ. rewrite filter_app, length_app. lia. Qed.
Lemma occ_color_nonneg c ps : 0 <= occ c ps.
Proof. unfold occ. lia. Qed.
Lemma occ_all c ps : Forall (fun p => page_color p = c) ps -> occ c ps = Z.of_nat (length ps).
Proof.
  unfold occ. induction 1 as [|p ps Hp _ IH]; [done|]. rewrite filter_cons_True by done. simpl. lia.
Qed.
Lemma occ_none c c' ps : c <> c' -> Forall (fun p => page_color p = c) ps -> occ c' ps = 0.
Proof.
  unfold occ. induction 2 as [|p ps Hp _ IH]; [done|]. rewrite filter_cons_False by congruence. done.
Qed.
Lemma occ_total ps : total n (fun c => occ c ps) = Z.of_nat (length ps).
Proof.
  induction ps as [|p ps IH]; [by rewrite total_zero|].
  set (c := page_color p). assert (Hc : 0 <= c < C) by apply f_range.
  transitivity (total n (<[c := occ c ps + 1]> (fun c => occ c ps))).
  - apply total_ext. intros i Hi. destruct (decide (i = c)) as [->|Hne].
    + rewrite fn_lookup_insert. unfold occ. rewrite filter_cons_True by done. simpl. lia.
    + rewrite insert_other by done. unfold occ. by rewrite filter_cons_False by (fold c; congruence).
  - rewrite total_upd, IH by done. simpl. lia.
Qed.

Lemma taken_nil av : coloured av -> taken av [] av.
Proof. intros H. constructor; [done|done|]. intros c _. unfold occ. simpl. lia. Qed.

Lemma taken_pop av ps av' c qs b :
  taken av ps av' -> 0 <= c < C -> av' c = qs ++ b -> taken av (ps ++ qs) (<[c := b]> av').
Proof.
  intros [Hb Hc Ht] Hr E. pose proof (Hc c Hr) as Hall. rewrite E in Hall. apply Forall_app in Hall as [Hq Hbb].
  constructor.
  - rewrite <- (assoc (++)), <- (bag_pop n av' c qs b Hr E). done.
  - by apply coloured_insert.
  - intros c' Hc'. rewrite cnt_insert, occ_color_app. specialize (Ht c' Hc'). case_decide as Hd.
    + subst c'. rewrite (occ_all c qs) by done. unfold cnt in *. rewrite E, length_app in Ht. lia.
    + rewrite (occ_none c c' qs) by done. lia.
Qed.

Lemma taken_trans av ps av1 qs av2 : taken av ps av1 -> taken av1 qs av2 -> taken av (ps ++ qs) av2.
Proof.
  intros [B1 C1 T1] [B2 C2 T2]. constructor; [by rewrite B1, B2, (assoc (++))|done|].
  intros c Hc. rewrite occ_color_app, T2, T1 by done. lia.
Qed.

Hypothesis n_small : C <= NVMAP_MAX_COLORS.
Ltac ncol := unfold NVMAP_MAX_COLORS in *; change (Z.to_nat 16) with 16%nat in *.

(** ** Smoothing *)
Lemma repr_rd l av c : color_repr n l av -> 0 <= c < C -> rd (counts l) c = Some (cnt av c).
Proof. intros H Hc. by destruct (cr_bucket _ _ _ H c Hc) as [[? _] _]. Qed.
Lemma repr_cnt l av c : color_repr n l av -> 0 <= c < C -> 0 <= cnt av c <= 2 ^ 31.
Proof. intros H Hc. destruct (cr_bucket _ _ _ H c Hc) as [_ ?]. pose proof (cr_small _ _ _ H). unfold cnt in *. lia. Qed.

(** The search that both greedy loops make, over what is left of each colour. *)
Lemma find_left_spec l av cs (e : Z -> Z -> bool) :
  color_repr n l av -> length cs = Z.to_nat NVMAP_MAX_COLORS ->
  (forall j, 0 <= j < C -> 0 <= val cs j <= cnt av j) ->
  (exists j, 0 <= j < C /\ e j (val cs j) = true /\ val cs j < cnt av j) ->
  exists color max, find_max C (fun j => a ← rd (counts l) j; b ← rd cs j; Some (u32 (a - b), e j b)) = Some (color, max) /\
    0 <= color < C /\ e color (val cs color) = true /\ val cs color < cnt av color /\
    forall j, 0 <= j < C -> e j (val cs j) = true -> cnt av j - val cs j <= cnt av color - val cs color.
Proof.
  intros Hl Hlen Hv (j0 & Hj0 & He0 & Hlt). ncol.
  destruct (find_max_spec C (fun j => a ← rd (counts l) j; b ← rd cs j; Some (u32 (a - b), e j b))
    (fun j => cnt av j - val cs j) (fun j => e j (val cs j))) as (color & max & -> & H & Hmax); [lia| |].
  - intros j Hj. rewrite (repr_rd l av) by done. simpl. rewrite rd_val by lia. simpl.
    rewrite u32_id; [done|]. specialize (Hv j Hj). pose proof (repr_cnt l av j Hl Hj). width_lia.
  - exists color, max. split; [done|]. pose proof (Hmax j0 Hj0 He0).
    destruct H as [[-> ->]|(H1 & H2 & <- & H3)]; [lia|]. split_and!; try done; lia.
Qed.

Lemma smooth_counts_ok l av extra :
  color_repr n l av -> 0 <= extra <= total n (cnt av) ->
  exists cs, smooth_counts l extra C = Some cs /\ length cs = Z.to_nat NVMAP_MAX_COLORS /\
    (forall j, 0 <= j < C -> 0 <= val cs j <= cnt av j) /\ total n (val cs) = extra.
Proof.
  intros Hl He. unfold smooth_counts.
  for_inv (fun i cs => length cs = Z.to_nat NVMAP_MAX_COLORS /\
    (forall j, 0 <= j < C -> 0 <= val cs j <= cnt av j) /\ total n (val cs) = i).
  - ncol. rewrite length_replicate. split_and!; [done| |].
    + intros j Hj. unfold val. rewrite lookup_total_replicate_2 by lia. pose proof (repr_cnt l av j Hl Hj). lia.
    + apply total_zero. intros j Hj. unfold val. by rewrite lookup_total_replicate_2 by lia.
  - intros i cs Hi (H1 & H2 & H3).
    destruct (total_exists n (cnt av) (val cs)) as (j & Hj & Hlt); [lia|].
    destruct (find_left_spec l av cs (fun _ _ => true) Hl H1 H2) as (c & max & -> & Hc & _ & Hcl & _); [by eauto|].
    ncol. simpl. rewrite rd_val by lia. simpl. rewrite wr_ok by lia. eexists. split; [done|].
    rewrite length_insert. split_and!; [done| |].
    + intros j' Hj'. rewrite val_insert by lia. specialize (H2 j' Hj').
      pose proof (repr_cnt l av j' Hl Hj').
      destruct (decide (j' = c)) as [->|]; [rewrite fn_lookup_insert; width_lia|by rewrite insert_other].
    + rewrite total_insert by lia. specialize (H2 c Hc). pose proof (repr_cnt l av c Hl Hc). width_lia.
  - intros cs H. eauto.
Qed.

Lemma free_color_taken l av av0 ps c k fr :
  color_repr n l av -> taken av0 ps av -> 0 <= c < C -> (k <= length (av c))%nat ->
  exists l' av' qs, free_color k c (l, fr) = Some (l', fr ++ qs) /\ color_repr n l' av' /\ cpages l' = cpages l /\
    taken av0 (ps ++ qs) av' /\ length qs = k /\ av' c = drop k (av c) /\ forall j, j <> c -> av' j = av j.
Proof.
  intros Hl Ht Hc Hk. destruct (free_color_ok n l av c k fr Hl Hc Hk) as (l' & E & Hl' & Hp).
  exists l', (<[c := drop k (av c)]> av), (take k (av c)). split_and!; try done.
  - apply taken_pop; [done|done|]. by rewrite take_drop.
  - rewrite length_take. lia.
  - by rewrite fn_lookup_insert.
  - intros j Hj. by rewrite insert_other.
Qed.

Lemma smooth_round_ok l av cs extra :
  color_repr n l av -> coloured av -> length cs = Z.to_nat NVMAP_MAX_COLORS ->
  (forall j, 0 <= j < C -> 0 <= val cs j <= cnt av j) -> total n (val cs) = extra -> 0 <= extra < 2 ^ 32 ->
  exists l' av' freed cs', smooth_round C (l, [], cs, extra) = Some (l', freed, cs', 0) /\
    color_repr n l' av' /\ cpages l' = cpages l /\ taken av freed av' /\ Z.of_nat (length freed) = extra.
Proof.
  intros Hl Hco Hlen Hv Htot He. unfold smooth_round. ncol.
  for_inv (fun i '(l', freed, cs', extra') => length cs' = 16%nat /\ exists av',
    color_repr n l' av' /\ cpages l' = cpages l /\ taken av freed av' /\
    Z.of_nat (length freed) = total (Z.to_nat i) (val cs) /\ extra' = extra - total (Z.to_nat i) (val cs) /\
    0 <= extra' /\
    forall j, i <= j < C -> rd cs' j = rd cs j /\ av' j = av j).
  - split; [done|]. exists av. simpl. split_and!; try done; try lia. by apply taken_nil.
  - intros i [[[l' freed] cs'] extra'] Hi (H0 & av' & H1 & H2 & H3 & H4 & H5 & H6 & H7).
    destruct (H7 i) as [Er Ea]; [lia|]. rewrite Er, rd_val by lia. simpl.
    specialize (Hv i Hi) as Hvi.
    destruct (free_color_taken l' av' av freed i (Z.to_nat (val cs i)) freed) as (l2 & av2 & qs & -> & G1 & G2 & G3 & G4 & _ & G5);
      [done|done|done|unfold cnt in Hvi; rewrite Ea; lia|].
    simpl. rewrite wr_ok by lia. simpl. eexists. split; [done|]. cbn beta iota. rewrite length_insert. split; [done|]. exists av2.
    replace (Z.to_nat (i + 1)) with (S (Z.to_nat i)) by lia. simpl. rewrite Z2Nat.id by lia. rewrite length_app, G4.
    assert (Hle : total (S (Z.to_nat i)) (val cs) <= extra).
    { rewrite <- Htot. apply total_mono; [lia|]. intros j Hj. apply Hv, Hj. }
    simpl in Hle. rewrite Z2Nat.id in Hle by lia.
    split_and!; try done; try lia; try congruence; try width_lia.
    intros j Hj. rewrite rd_insert_ne by lia. rewrite G5 by lia. apply H7. lia.
  - intros [[[l' freed] cs'] extra'] (H0 & av' & H1 & H2 & H3 & H4 & H5 & _).
    rewrite Nat2Z.id in *. rewrite Htot in *. exists l', av', freed, cs'. replace extra' with 0 by lia. done.
Qed.

Lemma smooth_pages_ok l av extra :
  color_repr n l av -> coloured av -> 0 <= extra <= total n (cnt av) -> extra < 2 ^ 32 ->
  exists l' av' freed, smooth_pages l extra C = Some (l', freed) /\ color_repr n l' av' /\
    taken av freed av' /\ Z.of_nat (length freed) = extra.
Proof.
  intros Hl Hco He Hs. unfold smooth_pages. case_if; [exists l, av, []; subst; split_and!; try done; by apply taken_nil|].
  destruct (smooth_counts_ok l av extra Hl He) as (cs & -> & H1 & H2 & H3). simpl.
  destruct (Z.to_nat extra) as [|k] eqn:E; [lia|]. simpl.
  destruct (smooth_round_ok l av cs extra) as (l' & av' & freed & cs' & -> & ? & ? & ? & ?); try done; [lia|].
  simpl. eauto 10.
Qed.

(** ** Tiles *)
Lemma occ_notin c ps : c ∉ page_color <$> ps -> occ c ps = 0.
Proof.
  unfold occ. induction ps as [|p ps IH]; [done|]. rewrite fmap_cons, not_elem_of_cons. intros [Hne Hin].
  rewrite filter_cons_False by congruence. auto.
Qed.
Lemma occ_NoDup c ps : NoDup (page_color <$> ps) -> occ c ps <= 1.
Proof.
  induction ps as [|p ps IH]; [unfold occ; simpl; lia|]. rewrite fmap_cons, NoDup_cons. intros [Hin Hd].
  change (p :: ps) with ([p] ++ ps). rewrite occ_color_app. destruct (decide (page_color p = c)) as [<-|Hne].
  - rewrite (occ_notin _ ps Hin). rewrite occ_all by (by repeat constructor). simpl. lia.
  - rewrite (occ_none (page_color p) c [p]) by (by repeat constructor). specialize (IH Hd). lia.
Qed.

Lemma put_page_taken l av0 ps av c out :
  color_repr n l av -> taken av0 ps av -> 0 <= c < C -> occ c ps < cnt av0 c ->
  exists l' av' p, put_page c (l, out) = Some (l', out ++ [p]) /\ color_repr n l' av' /\
    taken av0 (ps ++ [p]) av' /\ page_color p = c.
Proof.
  intros Hl Ht Hc Hlt. pose proof (tk_cnt _ _ _ Ht c Hc) as Hcnt. unfold cnt at 1 in Hcnt.
  destruct (av c) as [|p b] eqn:E; simpl in Hcnt; [lia|].
  destruct (list_pop_page_ok n l av c p b Hl Hc E) as (l' & E' & Hl' & _).
  exists l', (<[c := b]> av), p. unfold put_page. simpl. rewrite E'. split_and!; try done.
  - by apply taken_pop.
  - pose proof (tk_coloured _ _ _ Ht c Hc) as Hall. rewrite E in Hall. by inversion Hall.
Qed.

(** The colours of a tile's addresses are all different. *)
Definition tile_color (t i : Z) : Z := f (u32 (i + u32 (t * C)) * PAGE_SIZE).
Definition rainbow_tiles : Prop := forall t, NoDup (tile_color t <$> seqZ 0 C).

Definition room (nr_pages : Z) (out : list Z) : Z := Z.max 0 (nr_pages - Z.of_nat (length out)).

Lemma fmap_seqZ_snoc (g : Z -> Z) k : 0 <= k -> g <$> seqZ 0 (k + 1) = (g <$> seqZ 0 k) ++ [g k].
Proof. intros. rewrite seqZ_app, fmap_app by lia. done. Qed.

Lemma add_perfect_ok l av out t nr_pages :
  rainbow_tiles -> color_repr n l av -> coloured av -> (forall c, 0 <= c < C -> 1 <= cnt av c) ->
  exists l' av' tl, add_perfect C f t nr_pages (l, out) = Some (l', out ++ tl) /\ color_repr n l' av' /\
    taken av tl av' /\ Z.of_nat (length tl) = Z.min C (room nr_pages out) /\ NoDup (page_color <$> tl).
Proof.
  intros Hrb Hl Hco H1. unfold add_perfect.
  for_inv (fun i '(l', out') => exists av' tl, out' = out ++ tl /\ color_repr n l' av' /\ taken av tl av' /\
    Z.of_nat (length tl) = Z.min i (room nr_pages out) /\
    page_color <$> tl = tile_color t <$> seqZ 0 (Z.of_nat (length tl))).
  - exists av, []. rewrite app_nil_r. split_and!; try done; [by apply taken_nil|unfold room; simpl; lia].
  - intros i [l' out'] Hi (av' & tl & -> & Hl' & Ht & Hlen & Hcol). simpl. rewrite length_app.
    case_if; [|eexists; split; [done|]; exists av', tl; split_and!; try done; unfold room in *; lia].
    assert (Hk : Z.of_nat (length tl) = i) by (unfold room in *; lia). fold (tile_color t i).
    destruct (put_page_taken l' av tl av' (tile_color t i) (out ++ tl) Hl' Ht) as (l2 & av2 & p & -> & Hl2 & Ht2 & Hp).
    { apply f_range. }
    { rewrite occ_notin; [specialize (H1 (tile_color t i) ltac:(apply f_range)); lia|].
      rewrite Hcol, Hk. specialize (Hrb t). replace C with ((i + 1) + (C - (i + 1))) in Hrb by lia.
      rewrite seqZ_app, fmap_app, fmap_seqZ_snoc in Hrb by lia. apply NoDup_app in Hrb as [Hrb _].
      apply NoDup_app in Hrb as (_ & Hd & _). intros Hin. apply (Hd _ Hin). by left. }
    eexists. split; [done|]. exists av2, (tl ++ [p]). rewrite (assoc (++)), length_app. simpl.
    split_and!; try done; [unfold room in *; lia|].
    rewrite fmap_app, Hcol. replace (Z.of_nat (length tl + 1)) with (Z.of_nat (length tl) + 1) by lia.
    rewrite fmap_seqZ_snoc by lia. simpl. by rewrite Hp, Hk.
  - intros [l' out'] (av' & tl & -> & Hl' & Ht & Hlen & Hcol). exists l', av', tl. split_and!; try done.
    rewrite Hcol. specialize (Hrb t).
    replace C with (Z.of_nat (length tl) + (C - Z.of_nat (length tl))) in Hrb by lia.
    rewrite seqZ_app, fmap_app in Hrb by (unfold room in *; lia). by apply NoDup_app in Hrb as [? _].
Qed.

(** What keeps the greedy choice feasible: [rp] perfect and [rq] imperfect tiles remain, and
    [m] is the number of times a colour may appear in a tile. *)
Record feasible (av : buckets) (rp rq m : Z) : Prop := {
  fe_rp : 0 <= rp;
  fe_rq : 0 <= rq;
  fe_m : 1 <= m;
  fe_total : total n (cnt av) = C * (rp + rq);
  fe_range c : 0 <= c < C -> rp <= cnt av c <= rp + rq * m
}.

(** The greedy choice: [cs] after [i] rounds. *)
Record greedy (av : buckets) (rp m i : Z) (cs : list Z) : Prop := {
  gr_len : length cs = Z.to_nat NVMAP_MAX_COLORS;
  gr_range j : 0 <= j < C -> 0 <= val cs j <= m /\ val cs j <= cnt av j - rp;
  gr_total : total n (val cs) = i;
  gr_best d e : 0 <= d < C -> 0 <= e < C -> 0 < val cs d -> val cs e < m ->
    cnt av e - val cs e <= cnt av d - val cs d + 1
}.

(** There is a colour to choose as long as the tile is not full. *)
Lemma greedy_candidate av rp rq m i cs :
  feasible av rp rq m -> 1 <= rq -> greedy av rp m i cs -> i < C ->
  exists j, 0 <= j < C /\ val cs j < m /\ rp < cnt av j - val cs j.
Proof.
  intros [F1 F2 F3 F4 F5] Hq [G1 G2 G3 G4] Hi.
  destruct (total_exists n (cnt av) (fun j => rp + rq * val cs j)) as (j & Hj & Hlt).
  { rewrite total_lin, F4, G3. nia. }
  exists j. split; [done|]. destruct (G2 j Hj) as [? ?]. specialize (F5 j Hj). nia.
Qed.

Lemma imperfect_counts_ok l av rp rq m :
  color_repr n l av -> feasible av rp rq m -> 1 <= rq ->
  exists cs, imperfect_counts C m l = Some cs /\ greedy av rp m C cs.
Proof.
  intros Hl HF Hq. unfold imperfect_counts. for_inv (fun i cs => greedy av rp m i cs).
  - assert (H0 : forall j, 0 <= j < C -> val (replicate (Z.to_nat NVMAP_MAX_COLORS) 0) j = 0).
    { intros j Hj. ncol. unfold val. by rewrite lookup_total_replicate_2 by lia. }
    constructor; [by rewrite length_replicate| | |].
    + intros j Hj. rewrite H0 by done. pose proof (fe_m _ _ _ _ HF). pose proof (fe_range _ _ _ _ HF j Hj). lia.
    + by apply total_zero.
    + intros d e Hd He Hpos. rewrite H0 in Hpos by done. lia.
  - intros i cs Hi HG. destruct (greedy_candidate av rp rq m i cs HF Hq HG) as (j & Hj & Hjm & Hjl); [lia|].
    destruct HG as [G1 G2 G3 G4]. pose proof (fe_rp _ _ _ _ HF).
    destruct (find_left_spec l av cs (fun _ v => v <? m) Hl G1) as (c & max & -> & Hc & He & Hcl & Hbest).
    { intros k Hk. specialize (G2 k Hk). lia. }
    { exists j. split_and!; lia. }
    zb. specialize (Hbest j Hj ltac:(by apply Z.ltb_lt)) as Hj2. ncol. simpl. rewrite rd_val by lia. simpl. rewrite wr_ok by lia.
    pose proof (repr_cnt l av c Hl Hc) as Hcc. destruct (G2 c Hc) as [Gc1 Gc2].
    rewrite u32_id by width_lia. eexists. split; [done|].
    assert (Hv : forall k, 0 <= k -> val (<[Z.to_nat c := val cs c + 1]> cs) k = if decide (k = c) then val cs c + 1 else val cs k).
    { intros k Hk. rewrite val_insert by lia. case_decide as E; [by rewrite E, fn_lookup_insert|by rewrite insert_other]. }
    constructor.
    + by rewrite length_insert.
    + intros k Hk. rewrite Hv by lia. specialize (G2 k Hk). case_decide; subst; lia.
    + rewrite total_insert by lia. lia.
    + intros d e Hd He' Hpos Hlt. rewrite !Hv in * by lia.
      specialize (Hbest e He'). case_decide as Dd; case_decide as De; subst; try lia.
      * specialize (G4 d c Hd Hc Hpos ltac:(lia)). lia.
      * by apply G4.
  - intros cs H. eauto.
Qed.

(** A full tile leaves no colour above what the remaining tiles can take. *)
Lemma greedy_upper av rp rq m cs :
  feasible av rp rq m -> 1 <= rq -> greedy av rp m C cs ->
  forall c, 0 <= c < C -> cnt av c - val cs c <= rp + (rq - 1) * m.
Proof.
  intros [F1 F2 F3 F4 F5] Hq [G1 G2 G3 G4] c Hc.
  destruct (decide (cnt av c - val cs c <= rp + (rq - 1) * m)) as [|Hbad]; [done|]. exfalso.
  pose proof (F5 c Hc) as Fc. pose proof (G2 c Hc) as Gc.
  assert (Hlt : val cs c < m) by nia.
  assert (Htot : total n (fun j => rp + rq * val cs j) < total n (cnt av)).
  { apply (total_lt n _ _ c); [|done|].
    - intros d Hd. destruct (decide (0 < val cs d)) as [Hpos|].
      + specialize (G4 d c Hd Hc Hpos Hlt). specialize (G2 d Hd). nia.
      + specialize (G2 d Hd). specialize (F5 d Hd). replace (val cs d) with 0 by lia. lia.
    - nia. }
  rewrite total_lin, G3, F4 in Htot. nia.
Qed.

(** The colour the code takes when the tile's own is used up. *)
Lemma substitute_color cs color :
  length cs = Z.to_nat NVMAP_MAX_COLORS -> 0 <= color < C -> (forall j, 0 <= j < C -> 0 <= val cs j) -> 0 < total n (val cs) ->
  exists c, (if val cs color =? 0 then fst <$> find_max C (fun j => b ← rd cs j; Some (b, true)) else Some color) = Some c /\
    0 <= c < C /\ 0 < val cs c.
Proof.
  intros Hlen Hc Hv Ht. ncol. case_if.
  - destruct (find_max_spec C (fun j => b ← rd cs j; Some (b, true)) (val cs) (fun _ => true)) as (c & max & -> & H & Hmax); [lia| |].
    { intros j Hj. by rewrite rd_val by lia. }
    destruct (total_exists n (val cs) (fun _ => 0)) as (j & Hj & Hlt); [by rewrite total_zero|].
    specialize (Hmax j Hj eq_refl). exists c. simpl. split; [done|].
    destruct H as [[-> ->]|(H1 & _ & <- & H2)]; lia.
  - exists color. specialize (Hv color Hc). split_and!; [done|lia|lia|lia].
Qed.

Lemma add_imperfect_ok l av out rp rq m nr_pages :
  color_repr n l av -> coloured av -> feasible av rp rq m -> 1 <= rq ->
  exists l' av' tl cs, add_imperfect C f m nr_pages (l, out) = Some (l', out ++ tl) /\ color_repr n l' av' /\
    taken av tl av' /\ Z.of_nat (length tl) = Z.min C (room nr_pages out) /\
    greedy av rp m C cs /\ forall c, 0 <= c < C -> occ c tl <= val cs c.
Proof.
  intros Hl Hco HF Hq. unfold add_imperfect. simpl.
  destruct (imperfect_counts_ok l av rp rq m Hl HF Hq) as (cs & -> & HG). simpl.
  pose proof HG as [G1 G2 G3 _]. ncol. pose proof (fe_rp _ _ _ _ HF).
  for_inv (fun i '((l', out'), cs') => exists av' tl, out' = out ++ tl /\ color_repr n l' av' /\ taken av tl av' /\
    Z.of_nat (length tl) = Z.min i (room nr_pages out) /\ length cs' = 16%nat /\
    forall j, 0 <= j < C -> 0 <= val cs' j /\ val cs' j + occ j tl = val cs j).
  - exists av, []. rewrite app_nil_r. split_and!; try done; [by apply taken_nil|unfold room; simpl; lia|].
    intros j Hj. specialize (G2 j Hj). unfold occ. simpl. lia.
  - intros i [[l' out'] cs'] Hi (av' & tl & -> & Hl' & Ht & Hlen & Hcl & Hcs). simpl. rewrite length_app.
    case_if; [|eexists; split; [done|]; exists av', tl; split_and!; try done; unfold room in *; lia].
    assert (Hk : Z.of_nat (length tl) = i) by (unfold room in *; lia).
    set (color := f _). assert (Hcr : 0 <= color < C) by apply f_range.
    assert (Hpos : 0 < total n (val cs')).
    { assert (E : total n (val cs) = total n (val cs') + 1 * total n (fun j => occ j tl)).
      { rewrite occ_total. transitivity (total n (fun j => val cs' j + occ j tl)).
        - apply total_ext. intros j Hj. symmetry. by apply Hcs.
        - rewrite <- occ_total. clear. induction n as [|k IH]; simpl; lia. }
      rewrite occ_total in E. lia. }
    rewrite rd_val by lia. simpl.
    destruct (substitute_color cs' color) as (c & -> & Hc & Hcp); [done|done|intros j Hj; by apply Hcs|done|]. simpl.
    destruct (Hcs c Hc) as [Hc1 Hc2]. destruct (G2 c Hc) as [Gc1 Gc2].
    destruct (put_page_taken l' av tl av' c (out ++ tl) Hl' Ht Hc) as (l2 & av2 & p & -> & Hl2 & Ht2 & Hp); [lia|].
    simpl. rewrite rd_val by lia. simpl. rewrite wr_ok by lia. simpl.
    pose proof (repr_cnt l av c Hl Hc). pose proof (occ_color_nonneg c tl). rewrite u32_id by width_lia.
    eexists. split; [done|]. cbn beta iota. exists av2, (tl ++ [p]). rewrite (assoc (++)), length_app, length_insert. simpl.
    split_and!; try done; [unfold room in *; lia|].
    intros j Hj. rewrite val_insert, occ_color_app by lia. specialize (Hcs j Hj). destruct (decide (j = c)) as [->|Hne].
    + rewrite fn_lookup_insert, (occ_all c [p]) by (by repeat constructor). simpl. lia.
    + rewrite insert_other, (occ_none c j [p]) by (done || by repeat constructor). lia.
  - intros [[l' out'] cs'] (av' & tl & -> & Hl' & Ht & Hlen & Hcl & Hcs). exists l', av', tl, cs. split_and!; try done.
    intros c Hc. specialize (Hcs c Hc). lia.
Qed.

(** A full tile takes exactly the shares that add up to its size. *)
Lemma full_tile_exact tl (share : Z -> Z) :
  Z.of_nat (length tl) = C -> total n share = C -> (forall c, 0 <= c < C -> occ c tl <= share c) ->
  forall c, 0 <= c < C -> occ c tl = share c.
Proof.
  intros Hlen Htot Hle c Hc. specialize (Hle c Hc) as Hlec.
  destruct (decide (occ c tl = share c)) as [|Hne]; [done|]. exfalso.
  assert (total n (fun c => occ c tl) < total n share) by (apply (total_lt n _ _ c); [done|done|lia]).
  rewrite occ_total in *. lia.
Qed.

Lemma feasible_perfect av rp rq m tl av' :
  feasible av rp rq m -> 1 <= rp -> taken av tl av' -> Z.of_nat (length tl) = C -> NoDup (page_color <$> tl) ->
  feasible av' (rp - 1) rq m.
Proof.
  intros [F1 F2 F3 F4 F5] Hrp [B1 B2 B3] Hlen Hnd.
  assert (Hex : forall c, 0 <= c < C -> occ c tl = 1).
  { apply (full_tile_exact tl (fun _ => 1)); [done| |intros; by apply occ_NoDup].
    transitivity (total n (fun _ => 1 + 0 * 0)); [by apply total_ext|]. rewrite (total_lin n 1 0 (fun _ => 0)). lia. }
  constructor; [lia|done|done| |].
  - rewrite <- bag_length. apply Permutation_length in B1. rewrite length_app in B1. pose proof (bag_length n av). lia.
  - intros c Hc. rewrite B3, Hex by done. specialize (F5 c Hc). lia.
Qed.

Lemma feasible_imperfect av rp rq m cs tl av' :
  feasible av rp rq m -> 1 <= rq -> greedy av rp m C cs -> taken av tl av' -> Z.of_nat (length tl) = C ->
  (forall c, 0 <= c < C -> occ c tl <= val cs c) -> feasible av' rp (rq - 1) m.
Proof.
  intros HF Hrq HG [B1 B2 B3] Hlen Hle. pose proof (greedy_upper av rp rq m cs HF Hrq HG) as Hup.
  pose proof HG as [G1 G2 G3 _]. destruct HF as [F1 F2 F3 F4 F5].
  pose proof (full_tile_exact tl (val cs) Hlen G3 Hle) as Hex.
  constructor; [done|lia|done| |].
  - rewrite <- bag_length. apply Permutation_length in B1. rewrite length_app in B1. pose proof (bag_length n av). lia.
  - intros c Hc. rewrite B3, Hex by done. specialize (Hup c Hc). specialize (G2 c Hc). lia.
Qed.

(** ** All tiles *)
Lemma min_max_count_ok l av :
  color_repr n l av ->
  exists mn mx, min_max_count l C = Some (mn, mx) /\ (forall c, 0 <= c < C -> mn <= cnt av c <= mx) /\
    (exists c, 0 <= c < C /\ cnt av c = mn) /\ (mx = 0 \/ exists c, 0 <= c < C /\ cnt av c = mx).
Proof.
  intros Hl. unfold min_max_count. rewrite (repr_rd l av 0) by (done || lia). simpl.
  for_inv (fun i '(mn, mx) => mn <= cnt av 0 /\ (forall c, 0 <= c < i -> mn <= cnt av c <= mx) /\
    (exists c, 0 <= c < C /\ cnt av c = mn) /\ (mx = 0 \/ exists c, 0 <= c < C /\ cnt av c = mx)).
  - split_and!; [done|lia| |by left]. exists 0. split; [lia|done].
  - intros i [mn mx] Hi (H1 & H2 & H3 & H4). rewrite (repr_rd l av i) by done. simpl. eexists. split; [done|].
    cbn beta iota. split_and!.
    + case_if; lia.
    + intros c Hc. destruct (decide (c = i)) as [->|]; [repeat case_if; lia|].
      specialize (H2 c ltac:(lia)). repeat case_if; lia.
    + case_if; eauto.
    + case_if; eauto.
  - intros [mn mx] (H1 & H2 & H3 & H4). eauto 10.
Qed.

Lemma div_up_spec a b : 0 <= a -> 0 < b ->
  let m := if a mod b =? 0 then a / b else a / b + 1 in a <= b * m /\ forall m', a <= b * m' -> m <= m'.
Proof. intros Ha Hb m. subst m. case_if; (split; [|intros m' Hm']); Z.div_mod_to_equations; nia. Qed.

Lemma tile_plan_ok l av mn mx T p m :
  color_repr n l av -> 1 <= T -> total n (cnt av) = C * T ->
  (forall c, 0 <= c < C -> mn <= cnt av c <= mx) -> (exists c, 0 <= c < C /\ cnt av c = mn) ->
  (mx = 0 \/ exists c, 0 <= c < C /\ cnt av c = mx) -> tile_plan T mn mx = (p, m) ->
  p = mn /\ p <= T /\ feasible av p (T - p) m /\
  forall m', 1 <= m' -> (forall c, 0 <= c < C -> cnt av c <= p + (T - p) * m') -> m <= m'.
Proof.
  intros Hl HT Htot Hr (c0 & Hc0 & Hmn) Hmx E.
  assert (Hmn0 : 0 <= mn) by (pose proof (repr_cnt l av c0 Hl Hc0); lia).
  assert (HmT : mn <= T).
  { destruct (total_exists n (fun _ => T + 1 + 0 * 0) (cnt av)) as (c & Hc & Hlt).
    - rewrite (total_lin n (T + 1) 0 (fun _ => 0)), Htot. nia.
    - specialize (Hr c Hc). lia. }
  assert (HTm : T <= mx).
  { destruct (total_exists n (cnt av) (fun _ => T - 1 + 0 * 0)) as (c & Hc & Hlt).
    - rewrite (total_lin n (T - 1) 0 (fun _ => 0)), Htot. nia.
    - specialize (Hr c Hc). lia. }
  destruct Hmx as [->|(c1 & Hc1 & Hmx)]; [lia|].
  unfold tile_plan in E. destruct (mn =? 0) eqn:E0; [|destruct (mn =? T) eqn:ET]; injection E as <- <-; zb.
  - subst mn. rewrite E0 in *. destruct (div_up_spec mx T) as [H1 H2]; [lia|lia|]. cbv zeta in H1, H2.
    set (m := if mx mod T =? 0 then mx / T else mx / T + 1) in *.
    split_and!; [lia|lia| |].
    + constructor; [lia|lia|nia|lia|]. intros c Hc. specialize (Hr c Hc). lia.
    + intros m' Hm' Hall. specialize (Hall c1 Hc1). apply H2. lia.
  - rewrite ET in *. split_and!; [done|lia| |].
    + constructor; [lia|lia|lia|lia|]. intros c Hc.
      destruct (decide (cnt av c <= T + (T - T) * 1)) as [|Hbad]; [specialize (Hr c Hc); lia|]. exfalso.
      assert (total n (fun _ => T + 0 * 0) < total n (cnt av)); [|rewrite (total_lin n T 0 (fun _ => 0)) in *; lia].
      apply (total_lt n _ _ c); [|done|lia]. intros i Hi. specialize (Hr i Hi). lia.
    + intros m' Hm' _. done.
  - destruct (div_up_spec (mx - mn) (T - mn)) as [H1 H2]; [lia|lia|]. cbv zeta in H1, H2.
    set (m := if (mx - mn) mod (T - mn) =? 0 then (mx - mn) / (T - mn) else (mx - mn) / (T - mn) + 1) in *.
    assert (Hlt : mn < mx).
    { destruct (decide (mn < mx)); [done|]. exfalso. lia. }
    split_and!; [done|lia| |].
    + constructor; [lia|lia|nia|lia|]. intros c Hc. specialize (Hr c Hc). lia.
    + intros m' Hm' Hall. specialize (Hall c1 Hc1). apply H2. lia.
Qed.

Definition rainbow (tl : list Z) : Prop := NoDup (page_color <$> tl).
#[export] Instance rainbow_dec tl : Decision (rainbow tl).
Proof. unfold rainbow. apply _. Defined.

(** [out] is laid out in tiles of [C] pages, the last one possibly shorter; in a tile no
    colour appears more than [m] times, and in [p] tiles or more no colour repeats. *)
Record spread (T : nat) (m : Z) (ts : list (list Z)) : Prop := {
  sp_full : Forall (fun tl => length tl = n) (take (pred T) ts);
  sp_short : Forall (fun tl => length tl <= n)%nat ts;
  sp_colour : Forall (fun tl => forall c, 0 <= c < C -> occ c tl <= m) ts
}.

Definition rainbows (ts : list (list Z)) : Z := Z.of_nat (length (filter rainbow ts)).

Lemma spread_snoc T m ts tl :
  spread T m ts -> (forall c, 0 <= c < C -> occ c tl <= m) -> (length tl <= n)%nat ->
  ((S (length ts) < T)%nat -> length tl = n) -> spread T m (ts ++ [tl]).
Proof.
  intros [H1 H2 H3] Hm Hlen Hf. constructor.
  - rewrite take_app. apply Forall_app. split; [done|].
    destruct (decide (S (length ts) < T)%nat) as [Hlt|].
    + rewrite take_ge by (simpl; lia). constructor; [by apply Hf|done].
    + replace (pred T - length ts)%nat with 0%nat by lia. constructor.
  - apply Forall_app. split; [done|]. by repeat constructor.
  - apply Forall_app. split; [done|]. by repeat constructor.
Qed.
Lemma rainbows_snoc ts tl : rainbows ts <= rainbows (ts ++ [tl]) /\ (rainbow tl -> rainbows (ts ++ [tl]) = rainbows ts + 1).
Proof.
  unfold rainbows. rewrite filter_app, length_app. split; [lia|]. intros H. rewrite filter_cons_True by done. simpl. lia.
Qed.

(** The tiles put out after [t] rounds, [a] of them perfect. *)
Record tiles_inv (av0 : buckets) (T p q m nr_pages t : Z) (l : color_list) (out : list Z) (d : Z) : Prop := {
  ti_tiles : exists ts, out = concat ts /\ Z.of_nat (length ts) = t /\ spread (Z.to_nat T) m ts /\
    exists a, 0 <= a <= p /\ 0 <= t - a <= q /\ a <= rainbows ts /\ d = p - q - a * q + (t - a) * p /\
      exists av, color_repr n l av /\ taken av0 out av /\ (t < T -> feasible av (p - a) (q - (t - a)) m);
  ti_out : Z.of_nat (length out) = Z.min (C * t) nr_pages;
  ti_d : - q <= d <= p
}.

Lemma occ_cnt av ps av' c : taken av ps av' -> 0 <= c < C -> occ c ps <= cnt av c.
Proof. intros H Hc. pose proof (tk_cnt _ _ _ H c Hc). unfold cnt in *. lia. Qed.

Lemma output_tiles_ok l av T p m nr_pages :
  rainbow_tiles -> color_repr n l av -> coloured av -> 0 <= p <= T -> 0 < T < 2 ^ 31 -> feasible av p (T - p) m ->
  C * (T - 1) < nr_pages <= C * T ->
  exists l' out ts av', output_tiles C f T p m nr_pages l = Some (l', out) /\ color_repr n l' av' /\
    taken av out av' /\ Z.of_nat (length out) = nr_pages /\ out = concat ts /\ Z.of_nat (length ts) = T /\
    spread (Z.to_nat T) m ts /\ p <= rainbows ts.
Proof.
  intros Hrb Hl Hco Hp HT HF Hnr. unfold output_tiles. rewrite (u32_id (T - p)) by width_lia.
  assert (0 < nr_pages) by nia. remember (T - p) as q eqn:Eq.
  for_inv (fun t '((l', out), d) => tiles_inv av T p q m nr_pages t l' out d).
  - rewrite s32_id by width_lia. constructor; [|simpl; lia|lia]. exists []. split_and!; try done.
    + constructor; [by rewrite take_nil|constructor|constructor].
    + exists 0. split_and!; try lia; [done|]. exists av. split_and!; [done|by apply taken_nil|]. intros _.
      by rewrite !Z.sub_0_r.
  - intros t [[l' out] d] Ht [(ts & -> & Hts & Hsp & a & Ha & Hb & Hrn & Hd & av' & Hl' & Htk & Hfe) Hlen Hdr].
    specialize (Hfe ltac:(lia)). pose proof (tk_coloured _ _ _ Htk) as Hco'.
    assert (Hroom : room nr_pages (concat ts) = nr_pages - C * t) by (unfold room; nia).
    assert (Hfull : t + 1 < T -> Z.min C (nr_pages - C * t) = C) by nia.
    case_if.
    + assert (Hap : a < p) by nia.
      destruct (add_perfect_ok l' av' (concat ts) t nr_pages Hrb Hl' Hco') as (l2 & av2 & tl & -> & Hl2 & Ht2 & Hlt & Hnd).
      { intros c Hc. pose proof (fe_range _ _ _ _ Hfe c Hc). lia. }
      simpl. rewrite Hroom in Hlt. rewrite s32_id by width_lia. eexists. split; [done|].
      constructor; [|rewrite length_app; nia|lia].
      destruct (rainbows_snoc ts tl) as [_ Hr2]. specialize (Hr2 Hnd).
      exists (ts ++ [tl]). rewrite concat_app, length_app. simpl. rewrite app_nil_r.
      split_and!; [done|lia| |].
      * apply spread_snoc; [done| |lia|lia].
        intros c Hc. pose proof (occ_NoDup c tl Hnd). pose proof (fe_m _ _ _ _ Hfe). lia.
      * exists (a + 1). split_and!; try lia. exists av2. split_and!; [done|by eapply taken_trans|].
        intros Hlt2. replace (p - (a + 1)) with (p - a - 1) by lia. replace (q - (t + 1 - (a + 1))) with (q - (t - a)) by lia.
        eapply feasible_perfect; [exact Hfe|lia|exact Ht2|lia|exact Hnd].
    + assert (Hbq : t - a < q) by nia.
      destruct (add_imperfect_ok l' av' (concat ts) (p - a) (q - (t - a)) m nr_pages Hl' Hco' Hfe ltac:(lia))
        as (l2 & av2 & tl & cs & -> & Hl2 & Ht2 & Hlt & HG & Hocc).
      simpl. rewrite Hroom in Hlt. rewrite s32_id by width_lia. eexists. split; [done|].
      constructor; [|rewrite length_app; nia|lia].
      destruct (rainbows_snoc ts tl) as [Hr1 _].
      exists (ts ++ [tl]). rewrite concat_app, length_app. simpl. rewrite app_nil_r.
      split_and!; [done|lia| |].
      * apply spread_snoc; [done| |lia|lia].
        intros c Hc. pose proof (gr_range _ _ _ _ _ HG c Hc). specialize (Hocc c Hc). lia.
      * exists a. split_and!; try lia. exists av2. split_and!; [done|by eapply taken_trans|].
        intros Hlt2. replace (q - (t + 1 - a)) with (q - (t - a) - 1) by lia.
        eapply feasible_imperfect; [exact Hfe|lia|exact HG|exact Ht2|lia|exact Hocc].
  - intros [[l' out] d] [(ts & -> & Hts & Hsp & a & Ha & Hb & Hrn & Hd & av' & Hl' & Htk & _) Hlen Hdr].
    exists l', (concat ts), ts, av'. simpl. split_and!; try done; try lia.
Qed.

Lemma free_rest_ok l av :
  color_repr n l av -> coloured av ->
  exists l' freed, free_rest C l = Some (l', freed) /\ freed ≡ₚ bag n av.
Proof.
  intros Hl Hco. unfold free_rest.
  for_inv (fun i '(l', freed) => exists av', color_repr n l' av' /\ taken av freed av' /\
    (forall j, 0 <= j < i -> av' j = [])).
  - exists av. split_and!; [done|by apply taken_nil|lia].
  - intros i [l' freed] Hi (av' & Hl' & Ht & Hz). simpl. rewrite (repr_rd l' av') by done. simpl.
    unfold cnt. rewrite Nat2Z.id.
    destruct (free_color_taken l' av' av freed i (length (av' i)) freed Hl' Ht Hi) as (l2 & av2 & qs & -> & G1 & G2 & G3 & G4 & G6 & G5); [lia|].
    eexists. split; [done|]. exists av2. split_and!; [done|done|]. intros j Hj.
    destruct (decide (j = i)) as [->|]; [by rewrite G6, drop_ge by lia|rewrite G5 by done; apply Hz; lia].
  - intros [l' freed] (av' & Hl' & Ht & Hz). exists l', freed. split; [done|].
    rewrite (tk_bag _ _ _ Ht). rewrite (bag_ext n av' (fun _ => [])) by (intros; by apply Hz).
    assert (E : forall k, bag k (fun _ => []) = []) by (induction k as [|k IH]; simpl; [done|by rewrite IH]).
    by rewrite E, app_nil_r.
Qed.

(** ** All together *)

(** [out] is made of [T] tiles of pages from [kept], with as many tiles without a repeated
    colour as the rarest colour allows, and no colour more often in a tile than the most
    frequent one makes necessary in the others. *)
Definition well_spread (T : Z) (kept out : list Z) : Prop :=
  exists ts p m, out = concat ts /\ Z.of_nat (length ts) = T /\ spread (Z.to_nat T) m ts /\
    (forall c, 0 <= c < C -> p <= occ c kept) /\ (exists c, 0 <= c < C /\ occ c kept = p) /\ p <= rainbows ts /\
    (forall m', 1 <= m' -> (forall c, 0 <= c < C -> occ c kept <= p + (T - p) * m') -> m <= m').

(** Buckets hold the pages of their colour. *)
Lemma occ_bag av c ps : coloured av -> bag n av ≡ₚ ps -> 0 <= c < C -> occ c ps = cnt av c.
Proof.
  intros Hco Hb Hc. unfold occ. rewrite <- Hb. clear Hb ps.
  cut (forall k : nat, (k <= n)%nat ->
    Z.of_nat (length (filter (fun p => page_color p = c) (bag k av))) = if decide (c < Z.of_nat k) then cnt av c else 0).
  { intros H. rewrite H by done. by rewrite decide_True by lia. }
  induction k as [|k IH]; intros Hk; simpl; [by rewrite decide_False by lia|].
  rewrite filter_app, length_app, Nat2Z.inj_add, IH by lia. specialize (Hco (Z.of_nat k) ltac:(lia)).
  change (Z.of_nat (length (filter (fun p => page_color p = c) (av (Z.of_nat k))))) with (occ c (av (Z.of_nat k))).
  destruct (decide (c = Z.of_nat k)) as [->|Hne].
  - rewrite (decide_False (P := Z.of_nat k < Z.of_nat k)) by lia. rewrite decide_True by lia.
    rewrite occ_all by done. unfold cnt. lia.
  - rewrite (occ_none (Z.of_nat k) c) by (done || lia). do 2 case_decide; lia.
Qed.

Lemma colored_sizes nr_pages : 1 <= nr_pages <= 2 ^ 26 ->
  let T := colored_tiles C nr_pages in
  1 <= T <= 2 ^ 26 /\ C * (T - 1) < nr_pages <= C * T /\
  u32 (C * T) = C * T /\ C * T <= colored_nr_alloc C nr_pages < 2 ^ 31.
Proof.
  intros Hnr T. ncol.
  assert (E : T = (nr_pages + C - 1) / C).
  { unfold T, colored_tiles. rewrite (u32_id (nr_pages + C)), u32_id by width_lia. done. }
  assert (HT : 1 <= T <= 2 ^ 26 /\ C * (T - 1) < nr_pages <= C * T).
  { pose proof (Z.div_mod (nr_pages + C - 1) C ltac:(lia)). pose proof (Z.mod_pos_bound (nr_pages + C - 1) C ltac:(lia)).
    rewrite <- E in *. nia. }
  destruct HT as [HT1 HT2]. assert (C * T < 2 ^ 27) by nia.
  split_and!; try lia; [by rewrite u32_id by width_lia| |]; unfold colored_nr_alloc; fold T;
    rewrite (u32_id (C * T)), Z.shiftr_div_pow2, u32_id by width_lia; width_lia.
Qed.

Lemma alloc_colored_pages_ok garbage pages nr_pages :
  rainbow_tiles -> 1 <= nr_pages <= 2 ^ 26 -> Z.of_nat (length pages) = colored_nr_alloc C nr_pages ->
  length garbage = length pages ->
  exists out freed, alloc_colored_pages C f garbage pages nr_pages = Some (out, freed) /\
    out ++ freed ≡ₚ pages /\ Z.of_nat (length out) = nr_pages /\
    exists smoothed kept, pages ≡ₚ smoothed ++ kept /\ well_spread (colored_tiles C nr_pages) kept out.
Proof.
  intros Hrb Hnr Hlen Hg. unfold alloc_colored_pages. destruct (colored_sizes nr_pages Hnr) as (HT & HTn & Eu & HA).
  set (T := colored_tiles C nr_pages) in *.
  destruct (sort_pages_ok garbage pages Hg) as (l & av & -> & Hl & Hco & _ & Hb); [lia|]. simpl. rewrite Eu.
  rewrite (u32_id (colored_nr_alloc C nr_pages - C * T)) by width_lia.
  assert (Htot : total n (cnt av) = colored_nr_alloc C nr_pages) by (by rewrite <- bag_length, Hb).
  destruct (smooth_pages_ok l av (colored_nr_alloc C nr_pages - C * T) Hl Hco) as (l1 & av1 & sm & -> & Hl1 & Ht1 & Hs1);
    [lia|lia|]. simpl.
  assert (Htot1 : total n (cnt av1) = C * T).
  { rewrite <- bag_length. pose proof (Permutation_length (tk_bag _ _ _ Ht1)) as E. rewrite length_app in E.
    pose proof (bag_length n av). lia. }
  destruct (min_max_count_ok l1 av1 Hl1) as (mn & mx & -> & Hr & Hmn & Hmx). simpl.
  destruct (tile_plan T mn mx) as [p m] eqn:Ep.
  destruct (tile_plan_ok l1 av1 mn mx T p m Hl1 ltac:(lia) Htot1 Hr Hmn Hmx Ep) as (-> & HpT & HF & Hopt).
  pose proof (tk_coloured _ _ _ Ht1) as Hco1. pose proof (fe_rp _ _ _ _ HF) as Hp0.
  destruct (output_tiles_ok l1 av1 T mn m nr_pages Hrb Hl1 Hco1) as (l2 & out & ts & av2 & -> & Hl2 & Ht2 & Ho & Hc & HlT & Hsp & Hrn);
    [lia|lia|done|done|]. simpl.
  destruct (free_rest_ok l2 av2 Hl2 (tk_coloured _ _ _ Ht2)) as (l3 & rest & -> & Hrest). simpl.
  eexists _, _. split; [done|]. split_and!.
  - rewrite Hrest, <- Hb, (tk_bag _ _ _ Ht1), (tk_bag _ _ _ Ht2). apply Permutation_app_swap_app.
  - done.
  - exists sm, (bag n av1). split; [by rewrite <- Hb, (tk_bag _ _ _ Ht1)|]. exists ts, mn, m.
    assert (Hocc : forall c, 0 <= c < C -> occ c (bag n av1) = cnt av1 c) by (intros; by apply (occ_bag av1)).
    destruct Hmn as (c0 & Hc0 & Ec0). split_and!; try done.
    + intros c Hcc. rewrite Hocc by done. by apply Hr.
    + exists c0. by rewrite Hocc.
    + intros m' Hm' Hall. apply Hopt; [done|]. intros c Hcc. rewrite <- Hocc by done. by apply Hall.
Qed.
End colouring.

(** * The chip's colours *)

(** The parity of the bits of an address under a mask. *)
Definition parity (mask phys : Z) : Z := BITS_XOR_9_TO_31 (Z.land (u32 phys) mask).

Lemma land_lxor_l a b m : Z.land (Z.lxor a b) m = Z.lxor (Z.land a m) (Z.land b m).
Proof.
  apply Z.bits_inj'. intros k Hk. rewrite !Z.land_spec, !Z.lxor_spec, !Z.land_spec.
  by destruct (Z.testbit a k), (Z.testbit b k), (Z.testbit m k).
Qed.
Lemma BIT_N_lxor a b k : BIT_N (Z.lxor a b) k = Z.lxor (BIT_N a k) (BIT_N b k).
Proof. unfold BIT_N. by rewrite Z.shiftr_lxor, land_lxor_l. Qed.
Lemma BIT_N_range a k : BIT_N a k = 0 \/ BIT_N a k = 1.
Proof. unfold BIT_N. rewrite (land_ones_mod _ 1) by lia. pose proof (Z.mod_pos_bound (Z.shiftr a k) (2 ^ 1)). lia. Qed.

Lemma xor_bits_range l a : let x := foldr (fun k x => Z.lxor (BIT_N a k) x) 0 l in x = 0 \/ x = 1.
Proof.
  induction l as [|k l IH]; simpl; [by left|].
  destruct (BIT_N_range a k) as [->| ->], IH as [->| ->]; auto.
Qed.
Lemma parity_range mask phys : parity mask phys = 0 \/ parity mask phys = 1.
Proof. apply xor_bits_range. Qed.
Lemma parity_lxor mask x y : parity mask (Z.lxor x y) = Z.lxor (parity mask x) (parity mask y).
Proof.
  unfold parity, BITS_XOR_9_TO_31, u32. rewrite <- !land_ones_mod, !land_lxor_l by lia.
  induction (seqZ 9 23) as [|k l IH]; simpl; [done|]. rewrite IH, BIT_N_lxor.
  rewrite <- !Z.lxor_assoc. f_equal. rewrite !Z.lxor_assoc. f_equal. apply Z.lxor_comm.
Qed.

Definition four_bits (b0 b1 b2 b3 : Z) : Z := Z.lor (Z.lor (Z.lor b0 (Z.shiftl b1 1)) (Z.shiftl b2 2)) (Z.shiftl b3 3).

Lemma addr_to_color_eq phys : addr_to_color_t19x phys =
  four_bits (parity CHANNEL_MASK_0 phys) (parity CHANNEL_MASK_1 phys) (parity CHANNEL_MASK_2 phys) (parity CHANNEL_MASK_3 phys).
Proof. done. Qed.

Lemma addr_to_color_range phys : 0 <= addr_to_color_t19x phys < 16.
Proof.
  rewrite addr_to_color_eq.
  destruct (parity_range CHANNEL_MASK_0 phys) as [->| ->], (parity_range CHANNEL_MASK_1 phys) as [->| ->],
    (parity_range CHANNEL_MASK_2 phys) as [->| ->], (parity_range CHANNEL_MASK_3 phys) as [->| ->];
    split; (reflexivity || discriminate).
Qed.

Lemma addr_to_color_lxor x y : addr_to_color_t19x (Z.lxor x y) = Z.lxor (addr_to_color_t19x x) (addr_to_color_t19x y).
Proof.
  rewrite !addr_to_color_eq, !parity_lxor.
  destruct (parity_range CHANNEL_MASK_0 x) as [->| ->], (parity_range CHANNEL_MASK_1 x) as [->| ->],
    (parity_range CHANNEL_MASK_2 x) as [->| ->], (parity_range CHANNEL_MASK_3 x) as [->| ->],
    (parity_range CHANNEL_MASK_0 y) as [->| ->], (parity_range CHANNEL_MASK_1 y) as [->| ->],
    (parity_range CHANNEL_MASK_2 y) as [->| ->], (parity_range CHANNEL_MASK_3 y) as [->| ->]; reflexivity.
Qed.

(** The addresses of a tile differ in four bits only. *)
Lemma land_high_low x y k : 0 <= k -> 0 <= y < 2 ^ k -> Z.land (x * 2 ^ k) y = 0.
Proof.
  intros Hk Hy. rewrite <- (Z.mod_small y (2 ^ k)), <- land_ones_mod, (Z.land_comm y), Z.land_assoc, land_ones_mod by lia.
  by rewrite Z.mod_mul, Z.land_0_l by lia.
Qed.

Lemma tile_addr t i : 0 <= i < 16 ->
  u32 (i + u32 (t * 16)) * PAGE_SIZE = Z.lxor (t mod 2 ^ 28 * 2 ^ 16) (i * PAGE_SIZE).
Proof.
  intros Hi. unfold PAGE_SIZE.
  assert (E : u32 (i + u32 (t * 16)) = t mod 2 ^ 28 * 16 + i).
  { unfold u32. change (2 ^ 32) with (2 ^ 28 * 16). rewrite Z.mul_mod_distr_r by lia.
    pose proof (Z.mod_pos_bound t (2 ^ 28)). rewrite Z.mod_small by lia. lia. }
  rewrite E, <- Z.add_nocarry_lxor by (apply land_high_low; lia). lia.
Qed.

Lemma t19x_rainbow : rainbow_tiles 16 addr_to_color_t19x.
Proof.
  intros t. set (K := addr_to_color_t19x (t mod 2 ^ 28 * 2 ^ 16)).
  assert (E : tile_color 16 addr_to_color_t19x t <$> seqZ 0 (Z.of_nat 16) =
              Z.lxor K <$> ((fun i => addr_to_color_t19x (i * PAGE_SIZE)) <$> seqZ 0 16)).
  { rewrite <- list_fmap_compose. apply list_fmap_ext. intros k i Hk%list_elem_of_lookup_2%elem_of_seqZ.
    unfold tile_color, compose. change (Z.of_nat 16) with 16. by rewrite tile_addr, addr_to_color_lxor by lia. }
  rewrite E. apply NoDup_fmap_2.
  - intros x y Hxy. apply (f_equal (Z.lxor K)) in Hxy. by rewrite <- !Z.lxor_assoc, !Z.lxor_nilpotent, !Z.lxor_0_l in Hxy.
  - apply (bool_decide_unpack _). vm_compute. exact I.
Qed.

(** C19. Page colouring works for every buffer and every set of pages it is given: the code
    never pops an empty list, never leaves an array and always comes to an end; the buffer
    gets as many pages as it has, all different ones of those obtained, and the others are
    freed.  The pages are laid out in tiles of 16 with the property the code aims at: as many
    tiles as the rarest colour permits have no colour twice, and in no tile does a colour
    repeat more often than it has to. *)
Theorem alloc_colored_correct garbage pages nr_pages :
  1 <= nr_pages <= 2 ^ 26 -> Z.of_nat (length pages) = colored_nr_alloc NVMAP_MAX_COLORS nr_pages ->
  length garbage = length pages ->
  exists out freed,
    alloc_colored_pages NVMAP_MAX_COLORS addr_to_color_t19x garbage pages nr_pages = Some (out, freed) /\
    out ++ freed ≡ₚ pages /\ Z.of_nat (length out) = nr_pages /\
    exists smoothed kept, pages ≡ₚ smoothed ++ kept /\
      well_spread 16 addr_to_color_t19x (colored_tiles NVMAP_MAX_COLORS nr_pages) kept out.
Proof.
  intros Hnr Hlen Hg. apply (alloc_colored_pages_ok 16 addr_to_color_t19x); try done.
  - lia.
  - exact addr_to_color_range.
  - exact t19x_rainbow.
Qed.

Lemma alloc_colored_correct_witness :
  exists out freed,
    alloc_colored_pages NVMAP_MAX_COLORS addr_to_color_t19x (replicate 34 7) (seqZ 1000 34) 27 = Some (out, freed) /\
    out ++ freed ≡ₚ seqZ 1000 34 /\ length out = 27%nat.
Proof.
  destruct (alloc_colored_correct (replicate 34 7) (seqZ 1000 34) 27) as (out & freed & E & Hp & Hlen & _);
    [lia|reflexivity|reflexivity|].
  exists out, freed. split; [exact E|]. split; [exact Hp|lia].
Defined.

(** The number of colours can be set while the module is loaded.  With a number that is not
    the chip's, the histogram is accessed outside its array. *)
Lemma other_nr_colors_fault :
  alloc_colored_pages 8 addr_to_color_t19x (replicate 17 0) (seqZ 1000 17) 16 = None.
Proof. reflexivity. Qed.
