(* ===== verification/NvmapPool.v ===== *)
(** The page pool of nvmap (src/drivers/video/tegra/nvmap/nvmap_pp.c).

    Pages of freed buffers are kept for the next ones.  The pool has three lists: pages that
    have been zeroed, blocks of such pages, and pages that still contain what the last owner
    left in them.  This file has the functions that work on the pool, each the text between
    taking and dropping its lock; [NvmapPages] puts them together with the threads that
    call them.  A page is its frame number, [nth_page(page, i)] is [page + i].  BUG_ON() has
    no result. *)
From S2P Require Import Prelude NvmapColor.

Definition NVMAP_PP_BIG_PAGE_SIZE : Z := 0x10000.
Definition PENDING_PAGES_SIZE : Z := 0x100000 / PAGE_SIZE.
Definition NVMAP_PP_POOL_SIZE : Z := 128.
Definition NUMA_NO_NODE : Z := -1.

(** What the code asks the kernel about nodes. *)
Record numa_env := NumaEnv { page_to_nid : Z -> Z; numa_mem_id : Z }.

Record nvmap_page_pool := PagePool {
  page_list : list Z;
  zero_list : list Z;
  page_list_bp : list Z;
  count : Z;
  to_zero : Z;
  under_zero : Z;
  big_page_count : Z;
  pool_max : Z;
  big_pg_sz : Z;
  pages_per_big_pg : Z
}.

Definition set_page_list l c (p : nvmap_page_pool) : nvmap_page_pool :=
  PagePool l (zero_list p) (page_list_bp p) c (to_zero p) (under_zero p) (big_page_count p) (pool_max p) (big_pg_sz p) (pages_per_big_pg p).
Definition set_zero_list l z (p : nvmap_page_pool) : nvmap_page_pool :=
  PagePool (page_list p) l (page_list_bp p) (count p) z (under_zero p) (big_page_count p) (pool_max p) (big_pg_sz p) (pages_per_big_pg p).
Definition set_page_list_bp l c b (p : nvmap_page_pool) : nvmap_page_pool :=
  PagePool (page_list p) (zero_list p) l c (to_zero p) (under_zero p) b (pool_max p) (big_pg_sz p) (pages_per_big_pg p).
Definition set_under_zero u (p : nvmap_page_pool) : nvmap_page_pool :=
  PagePool (page_list p) (zero_list p) (page_list_bp p) (count p) (to_zero p) u (big_page_count p) (pool_max p) (big_pg_sz p) (pages_per_big_pg p).
Definition set_pool_max m (p : nvmap_page_pool) : nvmap_page_pool :=
  PagePool (page_list p) (zero_list p) (page_list_bp p) (count p) (to_zero p) (under_zero p) (big_page_count p) m (big_pg_sz p) (pages_per_big_pg p).

Section pool.
Context (env : numa_env).

(** * Taking pages off a list *)

(** The first page for which [P] holds, and the list without it. *)
Fixpoint unlink_first (P : Z -> bool) (l : list Z) : option (Z * list Z) :=
  match l with
  | [] => None
  | x :: l => if P x then Some (x, l) else '(y, l) ← unlink_first P l; Some (y, x :: l)
  end.

Definition on_node (use_numa : bool) (numa_id page : Z) : bool :=
  let nid := if numa_id =? NUMA_NO_NODE then numa_mem_id env else numa_id in
  if use_numa then page_to_nid env page =? nid else true.

Definition get_zero_list_page (use_numa : bool) (numa_id : Z) (p : nvmap_page_pool) : option (Z * nvmap_page_pool) :=
  '(page, l) ← unlink_first (on_node use_numa numa_id) (zero_list p);
  Some (page, set_zero_list l (u32 (to_zero p - 1)) p).

Definition get_page_list_page (use_numa : bool) (numa_id : Z) (p : nvmap_page_pool) : option (Z * nvmap_page_pool) :=
  '(page, l) ← unlink_first (on_node use_numa numa_id) (page_list p);
  Some (page, set_page_list l (u32 (count p - 1)) p).

Definition get_page_list_page_bp (use_numa : bool) (numa_id : Z) (p : nvmap_page_pool) : option (Z * nvmap_page_pool) :=
  '(page, l) ← unlink_first (on_node use_numa numa_id) (page_list_bp p);
  Some (page, set_page_list_bp l (u32 (count p - pages_per_big_pg p)) (u32 (big_page_count p - pages_per_big_pg p)) p).

(** * Giving pages back to the system *)

(** The pages that remain to be released, the pool, and the released pages. *)
Fixpoint free_pages_loop (fuel : nat) (nr_pages : Z) (use_page_list use_page_list_bp : bool) (p : nvmap_page_pool) (freed : list Z)
  : option (Z * nvmap_page_pool * list Z) :=
  if nr_pages =? 0 then Some (nr_pages, p, freed)
  else
    match fuel with
    | O => None
    | S fuel =>
        let page :=
          if use_page_list_bp then get_page_list_page_bp false 0 p
          else if use_page_list then get_page_list_page false 0 p
          else get_zero_list_page false 0 p in
        match page with
        | None =>
            if negb use_page_list then free_pages_loop fuel nr_pages true use_page_list_bp p freed
            else if negb use_page_list_bp then free_pages_loop fuel nr_pages use_page_list true p freed
            else Some (nr_pages, p, freed)
        | Some (page, p) =>
            if use_page_list_bp then
              let nr_pages := if pages_per_big_pg p <? nr_pages then nr_pages - pages_per_big_pg p else 0 in
              free_pages_loop fuel nr_pages use_page_list use_page_list_bp p (freed ++ seqZ page (pages_per_big_pg p))
            else free_pages_loop fuel (nr_pages - 1) use_page_list use_page_list_bp p (freed ++ [page])
        end
    end.

Definition nvmap_page_pool_free_pages_locked (p : nvmap_page_pool) (nr_pages : Z) : option (Z * nvmap_page_pool * list Z) :=
  free_pages_loop (length (zero_list p) + length (page_list p) + length (page_list_bp p) + 3) nr_pages false false p [].

(** * Allocation *)

(** The loop of [nvmap_page_pool_alloc_lots]; the result has the pages, and the index and
    number of those that are not zeroed yet. *)
Fixpoint alloc_lots_loop (room : nat) (use_numa : bool) (numa_id : Z) (p : nvmap_page_pool) (pages : list Z) (non_zero_idx non_zero_cnt : Z)
  : nvmap_page_pool * list Z * Z * Z :=
  match room with
  | O => (p, pages, non_zero_idx, non_zero_cnt)
  | S room =>
      match (if non_zero_cnt =? 0 then get_page_list_page use_numa numa_id p else None) with
      | Some (page, p) => alloc_lots_loop room use_numa numa_id p (pages ++ [page]) non_zero_idx non_zero_cnt
      | None =>
          match get_zero_list_page use_numa numa_id p with
          | None => (p, pages, non_zero_idx, non_zero_cnt)
          | Some (page, p) =>
              let non_zero_idx := if non_zero_cnt =? 0 then Z.of_nat (length pages) else non_zero_idx in
              alloc_lots_loop room use_numa numa_id p (pages ++ [page]) non_zero_idx (u32 (non_zero_cnt + 1))
          end
      end
  end.

(** Up to the unlock; zeroing comes after it. *)
Definition nvmap_page_pool_alloc_lots (enable_pp : bool) (p : nvmap_page_pool) (nr : Z) (use_numa : bool) (numa_id : Z)
  : nvmap_page_pool * list Z * Z * Z :=
  if negb enable_pp || (nr =? 0) then (p, [], 0, 0)
  else alloc_lots_loop (Z.to_nat nr) use_numa numa_id p [] 0 0.

Fixpoint alloc_lots_bp_loop (fuel : nat) (use_numa : bool) (numa_id nr_pages : Z) (p : nvmap_page_pool) (pages : list Z)
  : nvmap_page_pool * list Z :=
  match fuel with
  | O => (p, pages)
  | S fuel =>
      if pages_per_big_pg p <=? nr_pages - Z.of_nat (length pages) then
        match get_page_list_page_bp use_numa numa_id p with
        | None => (p, pages)
        | Some (page, p) => alloc_lots_bp_loop fuel use_numa numa_id nr_pages p (pages ++ seqZ page (pages_per_big_pg p))
        end
      else (p, pages)
  end.

(** Each round takes a page of the list, so one round more than it has pages is enough. *)
Definition nvmap_page_pool_alloc_lots_bp (enable_pp : bool) (p : nvmap_page_pool) (nr : Z) (use_numa : bool) (numa_id : Z)
  : nvmap_page_pool * list Z :=
  if negb enable_pp || (pages_per_big_pg p <=? 1) || (nr <? pages_per_big_pg p) then (p, [])
  else alloc_lots_bp_loop (S (length (page_list_bp p))) use_numa numa_id nr p [].

(** * Filling *)

(** The page at [idx] starts a block. *)
Definition nvmap_is_big_page (p : nvmap_page_pool) (pages : list Z) (idx nr : Z) : bool :=
  match pages !! Z.to_nat idx with
  | None => false
  | Some page =>
      if pages_per_big_pg p <=? 1 then false
      else if nr - idx <? pages_per_big_pg p then false
      else if negb (Z.land (page_to_phys page) (big_pg_sz p - 1) =? 0) then false
      else forallb (fun i => bool_decide (pages !! Z.to_nat (idx + i) = Some (page + i))) (seqZ 1 (pages_per_big_pg p - 1))
  end.

Fixpoint fill_loop (fuel : nat) (pages_to_fill : Z) (pages : list Z) (real_nr ind : Z) (p : nvmap_page_pool)
  : option (Z * nvmap_page_pool) :=
  if real_nr <=? 0 then Some (ind, p)
  else
    match fuel with
    | O => None
    | S fuel =>
        page ← pages !! Z.to_nat ind;
        if nvmap_is_big_page p pages ind pages_to_fill then
          fill_loop fuel pages_to_fill pages (real_nr - pages_per_big_pg p) (ind + pages_per_big_pg p)
            (set_page_list_bp (page_list_bp p ++ [page]) (count p) (u32 (big_page_count p + pages_per_big_pg p)) p)
        else
          fill_loop fuel pages_to_fill pages (real_nr - 1) (ind + 1) (set_page_list (page_list p ++ [page]) (count p) p)
    end.

Definition __nvmap_page_pool_fill_lots_locked (enable_pp : bool) (p : nvmap_page_pool) (pages : list Z) (nr : Z)
  : option (Z * nvmap_page_pool) :=
  if negb enable_pp then Some (0, p)
  else if pool_max p <? count p then None
  else
    let real_nr := Z.min (u32 (pool_max p - count p)) nr in
    if real_nr =? 0 then Some (0, p)
    else
      '(ind, p) ← fill_loop (Z.to_nat real_nr) real_nr pages real_nr 0 p;
      let p := set_page_list (page_list p) (u32 (count p + ind)) p in
      if pool_max p <? count p then None else Some (ind, p).

(** [shared] says of a page that its reference count is above 1.  The result has the number
    of pages that were taken from the array, and of these the ones that were not kept. *)
Definition fill_lots_loop (shared : Z -> bool) (pages : list Z) (p : nvmap_page_pool) : nvmap_page_pool * list Z :=
  foldl (fun '(p, dropped) page =>
           if shared page then (p, dropped ++ [page])
           else (set_zero_list (zero_list p ++ [page]) (u32 (to_zero p + 1)) p, dropped)) (p, []) pages.

Definition nvmap_page_pool_fill_lots (shared : Z -> bool) (p : nvmap_page_pool) (pages : list Z) (nr : Z)
  : Z * nvmap_page_pool * list Z :=
  let ret := Z.min nr (u32 (u32 (u32 (pool_max p - count p) - to_zero p) - under_zero p)) in
  let '(p, dropped) := fill_lots_loop shared (take (Z.to_nat ret) pages) p in
  (ret, p, dropped).

(** * The thread that zeroes pages *)
Definition nvmap_bg_should_run (p : nvmap_page_pool) : bool := bool_decide (zero_list p <> []).

Fixpoint bg_take_loop (n : nat) (p : nvmap_page_pool) (pending : list Z) : nvmap_page_pool * list Z :=
  match n with
  | O => (p, pending)
  | S n =>
      match get_zero_list_page false 0 p with
      | None => (p, pending)
      | Some (page, p) => bg_take_loop n (set_under_zero (u32 (under_zero p + 1)) p) (pending ++ [page])
      end
  end.

(** [nvmap_pp_do_background_zero_pages] up to the first unlock, and from the second lock on:
    the pages that did not fit are freed. *)
Definition bg_take (p : nvmap_page_pool) : nvmap_page_pool * list Z := bg_take_loop (Z.to_nat PENDING_PAGES_SIZE) p [].
Definition bg_fill (enable_pp : bool) (p : nvmap_page_pool) (pending : list Z) : option (nvmap_page_pool * list Z) :=
  '(ret, p) ← __nvmap_page_pool_fill_lots_locked enable_pp p pending (Z.of_nat (length pending));
  Some (set_under_zero (u32 (under_zero p - Z.of_nat (length pending))) p, drop (Z.to_nat ret) pending).

(** * Size *)
Definition nvmap_page_pool_get_unused_pages (p : nvmap_page_pool) : Z := u32 (count p + to_zero p).

(** The return value, the pool and the released pages. *)
Definition nvmap_page_pool_clear (p : nvmap_page_pool) : option (Z * nvmap_page_pool * list Z) :=
  '(_, p, freed) ← nvmap_page_pool_free_pages_locked p (u32 (count p + to_zero p));
  Some (if bool_decide (page_list p <> []) || bool_decide (zero_list p <> []) then - ENOMEM else 0, p, freed).

Definition nvmap_page_pool_resize (p : nvmap_page_pool) (size : Z) : option (nvmap_page_pool * list Z) :=
  let curr := nvmap_page_pool_get_unused_pages p in
  '(p, freed) ← (if size <? curr then
                   '(_, p, freed) ← nvmap_page_pool_free_pages_locked p (curr - size); Some (p, freed)
                 else Some (p, []));
  Some (set_pool_max size p, freed).

Definition pool_size_set (p : nvmap_page_pool) (size : Z) : option (nvmap_page_pool * list Z) :=
  if size =? pool_max p then Some (p, []) else nvmap_page_pool_resize p size.

Definition SHRINK_STOP : Z := 2 ^ 64 - 1.
Definition nvmap_page_pool_scan_objects (p : nvmap_page_pool) (nr_to_scan : Z) : option (Z * nvmap_page_pool * list Z) :=
  '(remaining, p, freed) ← nvmap_page_pool_free_pages_locked p nr_to_scan;
  Some (if remaining =? nr_to_scan then SHRINK_STOP else nr_to_scan - remaining, p, freed).

(** [totalram] pages, no size configured. *)
Definition nvmap_page_pool_init (totalram : Z) : Z + nvmap_page_pool :=
  let max := u32 (Z.shiftr (totalram * NVMAP_PP_POOL_SIZE) 10) in
  if totalram <=? max then inl (- ENOMEM)
  else inr (PagePool [] [] [] 0 0 0 0 max NVMAP_PP_BIG_PAGE_SIZE (Z.shiftr NVMAP_PP_BIG_PAGE_SIZE PAGE_SHIFT)).
End pool.

(** * What the pool holds *)
Definition big_pages (p : nvmap_page_pool) : list Z := concat ((fun x => seqZ x (pages_per_big_pg p)) <$> page_list_bp p).
(** Pages that have been zeroed. *)
Definition clean_pages (p : nvmap_page_pool) : list Z := page_list p ++ big_pages p.
Definition pool_pages (p : nvmap_page_pool) : list Z := clean_pages p ++ zero_list p.

(** The counters are exact, [u] pages being zeroed outside the lists, and the zeroed pages
    are within the limit. *)
Record pool_ok (u : Z) (p : nvmap_page_pool) : Prop := {
  po_count : count p = Z.of_nat (length (page_list p)) + pages_per_big_pg p * Z.of_nat (length (page_list_bp p));
  po_to_zero : to_zero p = Z.of_nat (length (zero_list p));
  po_under : under_zero p = u;
  po_big : big_page_count p = pages_per_big_pg p * Z.of_nat (length (page_list_bp p));
  po_max : count p <= pool_max p < 2 ^ 32;
  po_ppb : 1 <= pages_per_big_pg p < 2 ^ 32;
  po_zero_small : to_zero p < 2 ^ 32;
  po_under_small : 0 <= u < 2 ^ 32
}.

Lemma length_big_pages p : 1 <= pages_per_big_pg p ->
  Z.of_nat (length (big_pages p)) = pages_per_big_pg p * Z.of_nat (length (page_list_bp p)).
Proof.
  intros H. unfold big_pages. induction (page_list_bp p) as [|x l IH]; [simpl; lia|].
  rewrite fmap_cons. cbn [concat length]. rewrite length_app, length_seqZ, Nat2Z.inj_add, IH. lia.
Qed.

Lemma clean_count u p : pool_ok u p -> Z.of_nat (length (clean_pages p)) = count p.
Proof.
  intros H. unfold clean_pages. rewrite length_app, Nat2Z.inj_add, length_big_pages by apply H. symmetry. apply H.
Qed.

Section pool_facts.
Context (env : numa_env).

Lemma unlink_first_spec P l x l' : unlink_first P l = Some (x, l') -> l ≡ₚ x :: l' /\ P x = true.
Proof.
  revert l'. induction l as [|y l IH]; intros l' H; simpl in H; [done|]. destruct (P y) eqn:E; [by simplify_eq|].
  destruct (unlink_first P l) as [[z l2]|] eqn:E2; simplify_eq/=. destruct (IH l2 eq_refl) as [-> ?].
  split; [constructor|done].
Qed.
Lemma unlink_first_total P l : (forall x, P x = true) -> l <> [] -> exists x l', unlink_first P l = Some (x, l').
Proof. intros HP Hl. destruct l as [|x l]; [done|]. simpl. rewrite HP. eauto. Qed.

Lemma get_zero_list_page_spec use nid u p x p' :
  pool_ok u p -> get_zero_list_page env use nid p = Some (x, p') ->
  pool_ok u p' /\ clean_pages p' = clean_pages p /\ zero_list p ≡ₚ x :: zero_list p' /\
  pages_per_big_pg p' = pages_per_big_pg p /\ page_list_bp p' = page_list_bp p /\ page_list p' = page_list p.
Proof.
  intros [H1 H2 H3 H4 H5 H6 H7 H8] E. unfold get_zero_list_page in E.
  destruct (unlink_first _ _) as [[y l]|] eqn:Eu; simplify_eq/=. apply unlink_first_spec in Eu as [Eu _].
  split_and!; try done. constructor; simpl; try done; apply Permutation_length in Eu; simpl in Eu; width_lia.
Qed.

Lemma get_page_list_page_spec use nid u p x p' :
  pool_ok u p -> get_page_list_page env use nid p = Some (x, p') ->
  pool_ok u p' /\ clean_pages p ≡ₚ x :: clean_pages p' /\ zero_list p' = zero_list p /\
  pages_per_big_pg p' = pages_per_big_pg p /\ page_list_bp p' = page_list_bp p /\ page_list p ≡ₚ x :: page_list p'.
Proof.
  intros [H1 H2 H3 H4 H5 H6 H7 H8] E. unfold get_page_list_page in E.
  destruct (unlink_first _ _) as [[y l]|] eqn:Eu; simplify_eq/=. apply unlink_first_spec in Eu as [Eu _].
  pose proof (Permutation_length Eu) as El. simpl in El.
  split_and!; try done; [|unfold clean_pages, big_pages; simpl; by rewrite Eu].
  assert (0 <= pages_per_big_pg p * Z.of_nat (length (page_list_bp p))) by nia.
  constructor; simpl; try done; width_lia.
Qed.

Lemma get_page_list_page_bp_spec use nid u p x p' :
  pool_ok u p -> get_page_list_page_bp env use nid p = Some (x, p') ->
  pool_ok u p' /\ clean_pages p ≡ₚ seqZ x (pages_per_big_pg p) ++ clean_pages p' /\ zero_list p' = zero_list p /\
  pages_per_big_pg p' = pages_per_big_pg p /\ page_list p' = page_list p /\ page_list_bp p ≡ₚ x :: page_list_bp p'.
Proof.
  intros [H1 H2 H3 H4 H5 H6 H7 H8] E. unfold get_page_list_page_bp in E.
  destruct (unlink_first _ _) as [[y l]|] eqn:Eu; simplify_eq/=. apply unlink_first_spec in Eu as [Eu _].
  pose proof (Permutation_length Eu) as El. simpl in El.
  split_and!; try done; [|unfold clean_pages, big_pages; simpl; rewrite Eu; simpl; apply Permutation_app_swap_app].
  assert (Hn : pages_per_big_pg p * Z.of_nat (length (page_list_bp p)) =
               pages_per_big_pg p + pages_per_big_pg p * Z.of_nat (length l)) by (rewrite El; lia).
  assert (0 <= pages_per_big_pg p * Z.of_nat (length l)) by nia.
  constructor; simpl; try done; try lia; unfold u32; rewrite ?Z.mod_small by lia; lia.
Qed.

(** ** Allocation *)
Lemma alloc_lots_loop_spec use nid u room p pages idx cnt :
  pool_ok u p -> 0 <= cnt -> cnt + Z.of_nat room < 2 ^ 32 ->
  let '(p', pages', idx', cnt') := alloc_lots_loop env room use nid p pages idx cnt in
  exists cl nz, pages' = pages ++ cl ++ nz /\ pool_ok u p' /\ pages_per_big_pg p' = pages_per_big_pg p /\
    clean_pages p ≡ₚ cl ++ clean_pages p' /\ zero_list p ≡ₚ nz ++ zero_list p' /\
    (length (cl ++ nz) <= room)%nat /\ (cnt <> 0 -> cl = []) /\ cnt' = cnt + Z.of_nat (length nz) /\
    idx' = (if cnt =? 0 then if bool_decide (nz = []) then idx else Z.of_nat (length (pages ++ cl)) else idx).
Proof.
  revert p pages idx cnt. induction room as [|room IH]; intros p pages idx cnt Hp Hc Hr; simpl.
  { exists [], []. simpl. rewrite app_nil_r. split_and!; try done; [lia|]. by destruct (cnt =? 0). }
  destruct (if cnt =? 0 then get_page_list_page env use nid p else None) as [[x p1]|] eqn:E1.
  - destruct (Z.eqb_spec cnt 0) as [->|]; [|done].
    destruct (get_page_list_page_spec use nid u p x p1 Hp E1) as (G1 & G2 & G3 & G4 & _).
    specialize (IH p1 (pages ++ [x]) idx 0 G1 ltac:(lia) ltac:(lia)).
    destruct (alloc_lots_loop env room use nid p1 (pages ++ [x]) idx 0) as [[[p' pages'] idx'] cnt'].
    destruct IH as (cl & nz & -> & I1 & I2 & I3 & I4 & I5 & _ & I7 & I8). exists (x :: cl), nz.
    rewrite <- (assoc (++)). split_and!; try done; [congruence|by rewrite G2, I3|by rewrite <- G3|simpl; lia|].
    rewrite I8. simpl. case_bool_decide; [done|]. rewrite !length_app. simpl. lia.
  - destruct (get_zero_list_page env use nid p) as [[x p1]|] eqn:E2.
    + destruct (get_zero_list_page_spec use nid u p x p1 Hp E2) as (G1 & G2 & G3 & G4 & _).
      rewrite (u32_id (cnt + 1)) by width_lia.
      specialize (IH p1 (pages ++ [x]) (if cnt =? 0 then Z.of_nat (length pages) else idx) (cnt + 1) G1 ltac:(lia) ltac:(lia)).
      destruct (alloc_lots_loop env room use nid p1 (pages ++ [x]) _ (cnt + 1)) as [[[p' pages'] idx'] cnt'].
      destruct IH as (cl & nz & -> & I1 & I2 & I3 & I4 & I5 & I6 & I7 & I8).
      rewrite I6 in * by lia. exists [], (x :: nz). simpl in *. rewrite <- (assoc (++)). simpl.
      destruct (Z.eqb_spec (cnt + 1) 0); [lia|].
      split_and!; try done; [congruence|by rewrite <- G2|by rewrite G3, I4|lia|lia|].
      rewrite app_nil_r. rewrite I8. by case_if.
    + exists [], []. simpl. rewrite app_nil_r. split_and!; try done; [lia|lia|]. by destruct (cnt =? 0).
Qed.

Lemma alloc_lots_spec en u p nr use nid p' pages idx cnt :
  pool_ok u p -> 0 <= nr < 2 ^ 32 -> nvmap_page_pool_alloc_lots env en p nr use nid = (p', pages, idx, cnt) ->
  exists cl nz, pages = cl ++ nz /\ pool_ok u p' /\ pages_per_big_pg p' = pages_per_big_pg p /\
    clean_pages p ≡ₚ cl ++ clean_pages p' /\ zero_list p ≡ₚ nz ++ zero_list p' /\
    Z.of_nat (length pages) <= nr /\ cnt = Z.of_nat (length nz) /\ 0 <= idx /\ (nz <> [] -> idx = Z.of_nat (length cl)).
Proof.
  intros Hp Hnr. unfold nvmap_page_pool_alloc_lots.
  destruct (negb en || (nr =? 0)).
  { intros [= <- <- <- <-]. exists [], []. simpl. split_and!; try done. lia. }
  pose proof (alloc_lots_loop_spec use nid u (Z.to_nat nr) p [] 0 0 Hp ltac:(lia) ltac:(lia)) as HL. intros E. rewrite E in HL.
  destruct HL as (cl & nz & -> & H1 & H2 & H3 & H4 & H5 & _ & H7 & H8). exists cl, nz. simpl in *.
  split_and!; try done; [lia|case_bool_decide; lia|]. intros Hnz. by rewrite bool_decide_false in H8.
Qed.

Lemma alloc_lots_bp_loop_spec use nid u nr fuel p pages :
  pool_ok u p ->
  let '(p', pages') := alloc_lots_bp_loop env fuel use nid nr p pages in
  exists cl, pages' = pages ++ cl /\ pool_ok u p' /\ pages_per_big_pg p' = pages_per_big_pg p /\
    clean_pages p ≡ₚ cl ++ clean_pages p' /\ zero_list p' = zero_list p /\
    (Z.of_nat (length pages) <= nr -> Z.of_nat (length pages') <= nr).
Proof.
  revert p pages. induction fuel as [|fuel IH]; intros p pages Hp; simpl.
  { exists []. rewrite app_nil_r. by split_and!. }
  case_if; [|exists []; rewrite app_nil_r; by split_and!].
  destruct (get_page_list_page_bp env use nid p) as [[x p1]|] eqn:E; [|exists []; rewrite app_nil_r; by split_and!].
  destruct (get_page_list_page_bp_spec use nid u p x p1 Hp E) as (G1 & G2 & G3 & G4 & _). rewrite G4.
  specialize (IH p1 (pages ++ seqZ x (pages_per_big_pg p)) G1).
  destruct (alloc_lots_bp_loop env fuel use nid nr p1 _) as [p' pages'].
  destruct IH as (cl & -> & I1 & I2 & I3 & I4 & I5). exists (seqZ x (pages_per_big_pg p) ++ cl).
  rewrite (assoc (++)). split_and!; try done; [congruence|by rewrite G2, I3, (assoc (++))|congruence|].
  intros _. apply I5. rewrite length_app, length_seqZ. pose proof (po_ppb _ _ Hp). lia.
Qed.

Lemma alloc_lots_bp_spec en u p nr use nid p' pages :
  pool_ok u p -> nvmap_page_pool_alloc_lots_bp env en p nr use nid = (p', pages) -> 0 <= nr ->
  pool_ok u p' /\ pages_per_big_pg p' = pages_per_big_pg p /\ clean_pages p ≡ₚ pages ++ clean_pages p' /\
  zero_list p' = zero_list p /\ Z.of_nat (length pages) <= nr.
Proof.
  intros Hp E Hnr. unfold nvmap_page_pool_alloc_lots_bp in E.
  destruct (negb en || _ || _); [by simplify_eq/=|].
  pose proof (alloc_lots_bp_loop_spec use nid u nr (S (length (page_list_bp p))) p [] Hp) as H. rewrite E in H.
  destruct H as (cl & -> & H1 & H2 & H3 & H4 & H5). split_and!; try done. apply H5. simpl. lia.
Qed.

(** ** Releasing pages *)
Lemma on_node_any nid x : on_node env false nid x = true.
Proof. done. Qed.
Lemma get_page_empty P l : (forall x, P x = true) -> unlink_first P l = None -> l = [].
Proof. intros HP. destruct l as [|x l]; [done|]. simpl. by rewrite HP. Qed.

Lemma free_pages_loop_spec u fuel nr upl ubp p freed :
  pool_ok u p -> 0 <= nr -> (ubp = true -> upl = true) ->
  (upl = true -> zero_list p = []) -> (ubp = true -> page_list p = []) ->
  (length (zero_list p) + length (page_list p) + length (page_list_bp p) + (if upl then 0 else 1) + (if ubp then 0 else 1) < fuel)%nat ->
  exists rem p' fr, free_pages_loop env fuel nr upl ubp p freed = Some (rem, p', freed ++ fr) /\
    pool_ok u p' /\ pages_per_big_pg p' = pages_per_big_pg p /\ pool_pages p ≡ₚ fr ++ pool_pages p' /\
    0 <= rem /\ nr - rem <= Z.of_nat (length fr) /\ (rem <> 0 -> pool_pages p' = []) /\ clean_pages p' ⊆ clean_pages p.
Proof.
  revert nr upl ubp p freed. induction fuel as [|fuel IH]; intros nr upl ubp p freed Hp Hnr Hf Hz Hl Hfu; [lia|].
  assert (Hstop : exists rem p' fr, Some (nr, p, freed) = Some (rem, p', freed ++ fr) /\
    pool_ok u p' /\ pages_per_big_pg p' = pages_per_big_pg p /\ pool_pages p ≡ₚ fr ++ pool_pages p' /\
    0 <= rem /\ nr - rem <= Z.of_nat (length fr) /\ (nr = 0 \/ pool_pages p = [] -> rem <> 0 -> pool_pages p' = []) /\ clean_pages p' ⊆ clean_pages p).
  { exists nr, p, []. rewrite app_nil_r. split_and!; try done; [simpl; lia|]. intros [->|]; done. }
  simpl. case_if.
  { destruct Hstop as (rem & p' & fr & ? & ? & ? & ? & ? & ? & ? & ?). exists rem, p', fr. split_and!; auto. }
  destruct ubp.
  { assert (upl = true) as -> by auto. clear Hf. specialize (Hz eq_refl). specialize (Hl eq_refl). simpl.
    destruct (get_page_list_page_bp env false 0 p) as [[x p1]|] eqn:E.
    - destruct (get_page_list_page_bp_spec false 0 u p x p1 Hp E) as (G1 & G2 & G3 & G4 & G5 & G6).
      pose proof (Permutation_length G6) as GL. simpl in GL. pose proof (po_ppb _ _ Hp) as Hppb. rewrite G4.
      destruct (IH (if pages_per_big_pg p <? nr then nr - pages_per_big_pg p else 0) true true p1
        (freed ++ seqZ x (pages_per_big_pg p)) G1) as (rem & p' & fr & -> & I1 & I2 & I3 & I4 & I5 & I6 & I7);
        [case_if; lia|done|congruence|congruence|rewrite G3, G5, Hz, Hl in *; simpl in *; lia|].
      exists rem, p', (seqZ x (pages_per_big_pg p) ++ fr). rewrite (assoc (++)). split_and!; try done; [congruence| | |].
      + unfold pool_pages in *. rewrite G2, <- G3, <- !(assoc (++)). by rewrite I3.
      + rewrite length_app, length_seqZ. case_if; lia.
      + intros y Hy%I7. rewrite G2. apply elem_of_app. by right.
    - destruct Hstop as (rem & p' & fr & ? & ? & ? & ? & ? & ? & Hs & ?). exists rem, p', fr. split_and!; auto. apply Hs. right.
      unfold get_page_list_page_bp in E. destruct (unlink_first _ _) as [[??]|] eqn:Eu; [done|].
      apply get_page_empty in Eu; [|done]. unfold pool_pages, clean_pages, big_pages. by rewrite Hz, Hl, Eu. }
  destruct upl; simpl.
  { specialize (Hz eq_refl). destruct (get_page_list_page env false 0 p) as [[x p1]|] eqn:E.
    - destruct (get_page_list_page_spec false 0 u p x p1 Hp E) as (G1 & G2 & G3 & G4 & G5 & G6).
      pose proof (Permutation_length G6) as GL. simpl in GL.
      destruct (IH (nr - 1) true false p1 (freed ++ [x]) G1) as (rem & p' & fr & -> & I1 & I2 & I3 & I4 & I5 & I6 & I7);
        [lia|done|congruence|done|rewrite G3, G5, Hz in *; simpl in *; lia|].
      exists rem, p', (x :: fr). rewrite <- (assoc (++)).
      split_and!; try done; [congruence| |simpl; lia|intros y Hy%I7; rewrite G2; by right].
      unfold pool_pages in *. rewrite G2, <- G3. simpl. by rewrite I3.
    - unfold get_page_list_page in E. destruct (unlink_first _ _) as [[??]|] eqn:Eu; [done|].
      apply get_page_empty in Eu; [|done]. apply IH; try done; simpl in *; lia. }
  destruct (get_zero_list_page env false 0 p) as [[x p1]|] eqn:E.
  - destruct (get_zero_list_page_spec false 0 u p x p1 Hp E) as (G1 & G2 & G3 & G4 & G5 & G6).
    pose proof (Permutation_length G3) as GL. simpl in GL.
    destruct (IH (nr - 1) false false p1 (freed ++ [x]) G1) as (rem & p' & fr & -> & I1 & I2 & I3 & I4 & I5 & I6 & I7);
      [lia|done|done|done|rewrite G5, G6 in *; simpl in *; lia|].
    exists rem, p', (x :: fr). rewrite <- (assoc (++)). split_and!; try done; [congruence| |simpl; lia|by rewrite <- G2].
    unfold pool_pages in *. rewrite <- G2, G3. simpl. rewrite <- I3. symmetry. apply Permutation_middle.
  - unfold get_zero_list_page in E. destruct (unlink_first _ _) as [[??]|] eqn:Eu; [done|].
    apply get_page_empty in Eu; [|done]. apply IH; try done; simpl in *; lia.
Qed.

Lemma free_pages_spec u p nr :
  pool_ok u p -> 0 <= nr ->
  exists rem p' fr, nvmap_page_pool_free_pages_locked env p nr = Some (rem, p', fr) /\
    pool_ok u p' /\ pages_per_big_pg p' = pages_per_big_pg p /\ pool_pages p ≡ₚ fr ++ pool_pages p' /\
    0 <= rem /\ nr - rem <= Z.of_nat (length fr) /\ (rem <> 0 -> pool_pages p' = []) /\ clean_pages p' ⊆ clean_pages p.
Proof. intros Hp Hnr. apply (free_pages_loop_spec u _ nr false false p []); try done; lia. Qed.

Lemma pool_length u p : pool_ok u p -> Z.of_nat (length (pool_pages p)) = count p + to_zero p.
Proof.
  intros H. unfold pool_pages. rewrite length_app, Nat2Z.inj_add, (clean_count u) by done. f_equal. symmetry. apply H.
Qed.

(** After a resize the lists are within the new limit. *)
Lemma resize_spec u p size :
  pool_ok u p -> count p + to_zero p < 2 ^ 32 -> 0 <= size < 2 ^ 32 ->
  exists p' fr, nvmap_page_pool_resize env p size = Some (p', fr) /\ pool_ok u p' /\
    pages_per_big_pg p' = pages_per_big_pg p /\ pool_pages p ≡ₚ fr ++ pool_pages p' /\ pool_max p' = size /\
    count p' + to_zero p' <= size /\ clean_pages p' ⊆ clean_pages p.
Proof.
  intros Hp Hs Hsz. unfold nvmap_page_pool_resize, nvmap_page_pool_get_unused_pages.
  pose proof (pool_length u p Hp) as HL.
  rewrite u32_id by width_lia. case_if.
  - destruct (free_pages_spec u p (count p + to_zero p - size) Hp ltac:(lia)) as (rem & p' & fr & -> & H1 & H2 & H3 & H4 & H5 & H6 & H7).
    simpl. exists (set_pool_max size p'), fr.
    assert (count p' + to_zero p' <= size).
    { rewrite <- (pool_length u) by done. apply Permutation_length in H3. rewrite length_app in H3.
      destruct (decide (rem = 0)); [lia|]. rewrite H6 by done. simpl. lia. }
    split_and!; try done. destruct H1. constructor; simpl; try done; lia.
  - simpl. exists (set_pool_max size p), []. split_and!; try done. destruct Hp. constructor; simpl; try done; lia.
Qed.

(** ** Filling *)
Lemma is_big_page_spec p pages idx nr :
  nvmap_is_big_page p pages idx nr = true -> 0 <= idx ->
  exists page, pages !! Z.to_nat idx = Some page /\ idx + pages_per_big_pg p <= nr /\
    take (Z.to_nat (pages_per_big_pg p)) (drop (Z.to_nat idx) pages) = seqZ page (pages_per_big_pg p).
Proof.
  unfold nvmap_is_big_page. destruct (pages !! Z.to_nat idx) as [page|] eqn:E; [|done].
  destruct (Z.leb_spec (pages_per_big_pg p) 1); [done|]. destruct (Z.ltb_spec (nr - idx) (pages_per_big_pg p)); [done|].
  case_if; [done|]. rewrite forallb_forall. intros Hf Hi. exists page. split_and!; [done|lia|].
  apply list_eq. intros i. destruct (decide (Z.of_nat i < pages_per_big_pg p)) as [Hlt|].
  - rewrite lookup_seqZ_lt, lookup_take_lt, lookup_drop by lia. destruct (decide (i = 0%nat)) as [->|Hne].
    + rewrite Nat.add_0_r, E. f_equal. lia.
    + specialize (Hf (Z.of_nat i)). rewrite bool_decide_eq_true in Hf. rewrite <- Hf.
      * f_equal. lia.
      * apply list_elem_of_In, elem_of_seqZ. lia.
  - rewrite lookup_seqZ_ge by lia. apply lookup_take_ge. lia.
Qed.


Lemma fill_loop_spec fuel ptf pages real ind p :
  1 <= pages_per_big_pg p -> 0 <= ind -> 0 <= real -> ind + real = ptf -> ptf <= Z.of_nat (length pages) ->
  (Z.to_nat real <= fuel)%nat ->
  big_page_count p = pages_per_big_pg p * Z.of_nat (length (page_list_bp p)) ->
  Z.of_nat (length (clean_pages p)) + real < 2 ^ 32 ->
  exists p', fill_loop fuel ptf pages real ind p = Some (ptf, p') /\
    clean_pages p' ≡ₚ take (Z.to_nat real) (drop (Z.to_nat ind) pages) ++ clean_pages p /\
    zero_list p' = zero_list p /\ count p' = count p /\ to_zero p' = to_zero p /\ under_zero p' = under_zero p /\
    pool_max p' = pool_max p /\ pages_per_big_pg p' = pages_per_big_pg p /\
    big_page_count p' = pages_per_big_pg p * Z.of_nat (length (page_list_bp p')).
Proof.
  revert real ind p. induction fuel as [|fuel IH]; intros real ind p Hppb Hi Hr Hsum Hlen Hfu Hb Hs; simpl.
  { assert (real = 0) as -> by lia. simpl. exists p. split_and!; try done. repeat f_equal. lia. }
  case_if; [exists p; assert (real = 0) as -> by lia; split_and!; try done; repeat f_equal; lia|].
  destruct (lookup_lt_is_Some_2 pages (Z.to_nat ind)) as [page Ep]; [lia|]. rewrite Ep. simpl.
  destruct (nvmap_is_big_page p pages ind ptf) eqn:Eb.
  - destruct (is_big_page_spec p pages ind ptf Eb Hi) as (page' & Ep' & Hle & Htk). rewrite Ep in Ep'. simplify_eq.
    set (p1 := set_page_list_bp _ _ _ p).
    assert (Hc1 : clean_pages p1 = clean_pages p ++ seqZ page' (pages_per_big_pg p)).
    { unfold clean_pages, big_pages, p1. simpl. rewrite fmap_app, concat_app. simpl. by rewrite app_nil_r, (assoc (++)). }
    pose proof (length_big_pages p Hppb) as HL.
    destruct (IH (real - pages_per_big_pg p) (ind + pages_per_big_pg p) p1) as (p' & -> & I1 & I2 & I3 & I4 & I5 & I6 & I7 & I8);
      try done; try lia.
    + unfold p1. simpl. rewrite length_app, Nat2Z.inj_add. simpl. rewrite Hb.
      rewrite u32_id; [lia|]. unfold clean_pages in Hs. rewrite length_app in Hs. width_lia.
    + rewrite Hc1, length_app, length_seqZ. lia.
    + exists p'. split_and!; try done. rewrite I1, Hc1.
      replace (Z.to_nat real) with (Z.to_nat (pages_per_big_pg p) + Z.to_nat (real - pages_per_big_pg p))%nat by lia.
      rewrite <- take_take_drop, drop_drop, Htk. replace (Z.to_nat (ind + pages_per_big_pg p)) with
        (Z.to_nat ind + Z.to_nat (pages_per_big_pg p))%nat by lia.
      rewrite (Permutation_app_comm (clean_pages p)), !(assoc (++)). f_equiv. apply Permutation_app_comm.
  - set (p1 := set_page_list _ _ p).
    assert (Hc1 : clean_pages p1 ≡ₚ page :: clean_pages p).
    { unfold clean_pages, p1. simpl. rewrite <- (assoc (++)). simpl. symmetry. apply Permutation_middle. }
    destruct (IH (real - 1) (ind + 1) p1) as (p' & -> & I1 & I2 & I3 & I4 & I5 & I6 & I7 & I8); try done; try lia.
    + rewrite (Permutation_length Hc1). simpl. lia.
    + exists p'. split_and!; try done. rewrite I1, Hc1. replace (Z.to_nat real) with (S (Z.to_nat (real - 1))) by lia.
      rewrite (drop_S pages page (Z.to_nat ind)) by done. replace (Z.to_nat (ind + 1)) with (S (Z.to_nat ind)) by lia. simpl.
      symmetry. apply Permutation_middle.
Qed.

Lemma fill_lots_locked_spec en u p pages :
  pool_ok u p -> Z.of_nat (length pages) < 2 ^ 32 ->
  exists ind p', __nvmap_page_pool_fill_lots_locked en p pages (Z.of_nat (length pages)) = Some (ind, p') /\
    0 <= ind <= Z.of_nat (length pages) /\ pool_ok u p' /\ pages_per_big_pg p' = pages_per_big_pg p /\
    clean_pages p' ≡ₚ take (Z.to_nat ind) pages ++ clean_pages p /\ zero_list p' = zero_list p.
Proof.
  intros Hp Hlen. unfold __nvmap_page_pool_fill_lots_locked. destruct en; simpl; [|exists 0, p; split_and!; done || lia].
  pose proof (po_max _ _ Hp) as Hm. pose proof (po_ppb _ _ Hp) as Hppb. case_if; [lia|].
  assert (0 <= count p).
  { rewrite <- (clean_count u) by done. lia. }
  rewrite u32_id by width_lia. case_if; [exists 0, p; split_and!; done || lia|].
  set (real := Z.min _ _). pose proof (clean_count u p Hp) as Hcc.
  destruct (fill_loop_spec (Z.to_nat real) real pages real 0 p) as (p' & -> & H1 & H2 & H3 & H4 & H5 & H6 & H7 & H8);
    try done; try lia; [apply Hp|].
  simpl. set (p2 := set_page_list _ _ p'). change (drop (Z.to_nat 0) pages) with pages in H1.
  assert (Hc2 : clean_pages p2 = clean_pages p') by done.
  rewrite (u32_id (count p' + real)) by (rewrite H3; width_lia).
  case_if; [rewrite H6, H3 in *; lia|].
  exists real, p2. split_and!; try done; try lia.
  pose proof (Permutation_length H1) as HL. rewrite length_app, length_take in HL.
  assert (Hl2 : Z.of_nat (length (clean_pages p')) = Z.of_nat (length (page_list p')) + pages_per_big_pg p' * Z.of_nat (length (page_list_bp p'))).
  { unfold clean_pages. rewrite length_app, Nat2Z.inj_add, length_big_pages by lia. done. }
  destruct Hp. unfold p2. constructor; simpl; try done; try congruence; try lia.
  - rewrite (u32_id (count p' + real)) by (rewrite H3; width_lia). lia.
  - rewrite (u32_id (count p' + real)) by (rewrite H3; width_lia). lia.
Qed.

Lemma fill_lots_loop_spec shared u pages p :
  pool_ok u p -> to_zero p + Z.of_nat (length pages) < 2 ^ 32 ->
  let '(p', dropped) := fill_lots_loop shared pages p in
  pool_ok u p' /\ pages_per_big_pg p' = pages_per_big_pg p /\ clean_pages p' = clean_pages p /\
  zero_list p' ++ dropped ≡ₚ pages ++ zero_list p.
Proof.
  intros Hp Hs. unfold fill_lots_loop.
  cut (forall dropped, let '(p', dropped') := foldl (fun '(p, dropped) page =>
           if shared page then (p, dropped ++ [page])
           else (set_zero_list (zero_list p ++ [page]) (u32 (to_zero p + 1)) p, dropped)) (p, dropped) pages in
    pool_ok u p' /\ pages_per_big_pg p' = pages_per_big_pg p /\ clean_pages p' = clean_pages p /\
    zero_list p' ++ dropped' ≡ₚ pages ++ zero_list p ++ dropped).
  { intros H. specialize (H []). destruct (foldl _ _ _). by rewrite !app_nil_r in H. }
  revert p Hp Hs. induction pages as [|x pages IH]; intros p Hp Hs dropped; simpl; [by split_and!|].
  simpl in Hs. destruct (shared x).
  - specialize (IH p Hp ltac:(lia) (dropped ++ [x])). destruct (foldl _ _ _) as [p' d'].
    destruct IH as (I1 & I2 & I3 & I4). split_and!; try done. rewrite I4, !(assoc (++)). symmetry. apply Permutation_cons_append.
  - pose proof (po_to_zero _ _ Hp) as Htz. rewrite u32_id by width_lia.
    set (p1 := set_zero_list _ _ p). assert (Hp1 : pool_ok u p1).
    { destruct Hp. constructor; simpl; try done; [rewrite length_app; simpl; lia|lia]. }
    specialize (IH p1 Hp1 ltac:(unfold p1; simpl; lia) dropped). destruct (foldl _ _ _) as [p' d'].
    destruct IH as (I1 & I2 & I3 & I4). split_and!; try done. rewrite I4. unfold p1. simpl.
    rewrite <- (assoc (++) (zero_list p)). simpl. by rewrite <- !Permutation_middle.
Qed.

Lemma fill_lots_spec shared u p pages :
  pool_ok u p -> to_zero p + Z.of_nat (length pages) < 2 ^ 32 ->
  let '(ret, p', dropped) := nvmap_page_pool_fill_lots shared p pages (Z.of_nat (length pages)) in
  0 <= ret <= Z.of_nat (length pages) /\ pool_ok u p' /\ pages_per_big_pg p' = pages_per_big_pg p /\
  clean_pages p' = clean_pages p /\ zero_list p' ++ dropped ≡ₚ take (Z.to_nat ret) pages ++ zero_list p.
Proof.
  intros Hp Hs. unfold nvmap_page_pool_fill_lots. set (ret := Z.min _ _).
  pose proof (u32_range (u32 (u32 (pool_max p - count p) - to_zero p) - under_zero p)) as Hr. unfold is_u32 in Hr.
  assert (Hle : (length (take (Z.to_nat ret) pages) <= length pages)%nat) by (rewrite length_take; lia).
  pose proof (fill_lots_loop_spec shared u (take (Z.to_nat ret) pages) p Hp ltac:(lia)) as H.
  destruct (fill_lots_loop _ _ _) as [p' d]. destruct H as (H1 & H2 & H3 & H4). split_and!; try done; lia.
Qed.

(** ** Zeroing in the background *)
Lemma bg_take_loop_spec k u p pending :
  pool_ok u p -> u + to_zero p < 2 ^ 32 ->
  let '(p', pending') := bg_take_loop env k p pending in
  exists ps, pending' = pending ++ ps /\ pool_ok (u + Z.of_nat (length ps)) p' /\
    pages_per_big_pg p' = pages_per_big_pg p /\ clean_pages p' = clean_pages p /\ zero_list p ≡ₚ ps ++ zero_list p' /\
    (length ps <= k)%nat.
Proof.
  revert u p pending. induction k as [|k IH]; intros u p pending Hp Hu; simpl.
  { exists []. rewrite app_nil_r, Z.add_0_r. by split_and!. }
  destruct (get_zero_list_page env false 0 p) as [[x p1]|] eqn:E.
  - destruct (get_zero_list_page_spec false 0 u p x p1 Hp E) as (G1 & G2 & G3 & G4 & _).
    pose proof (Permutation_length G3) as GL. simpl in GL. pose proof (po_to_zero _ _ Hp). pose proof (po_to_zero _ _ G1).
    pose proof (po_under_small _ _ Hp). rewrite (po_under _ _ G1), u32_id by width_lia.
    set (p2 := set_under_zero (u + 1) p1). assert (Hp2 : pool_ok (u + 1) p2).
    { destruct G1. constructor; simpl; try done. lia. }
    specialize (IH (u + 1) p2 (pending ++ [x]) Hp2 ltac:(unfold p2; simpl; lia)).
    destruct (bg_take_loop env k p2 (pending ++ [x])) as [p' pending'].
    destruct IH as (ps & -> & I1 & I2 & I3 & I4 & I5). exists (x :: ps). rewrite <- (assoc (++)).
    replace (u + Z.of_nat (length (x :: ps))) with (u + 1 + Z.of_nat (length ps)) by (simpl; lia).
    split_and!; try done; [unfold p2 in *; simpl in *; congruence|rewrite I3, <- G2; done|rewrite G3; simpl; by rewrite <- I4|simpl; lia].
  - exists []. rewrite app_nil_r, Z.add_0_r. split_and!; try done. simpl. lia.
Qed.

Lemma bg_take_spec p :
  pool_ok 0 p ->
  let '(p', pending) := bg_take env p in
  pool_ok (Z.of_nat (length pending)) p' /\ pages_per_big_pg p' = pages_per_big_pg p /\
  clean_pages p' = clean_pages p /\ zero_list p ≡ₚ pending ++ zero_list p'.
Proof.
  intros Hp. pose proof (bg_take_loop_spec (Z.to_nat PENDING_PAGES_SIZE) 0 p [] Hp) as H.
  pose proof (po_zero_small _ _ Hp). unfold bg_take. destruct (bg_take_loop _ _ _ _) as [p' pending].
  destruct H as (ps & -> & H1 & H2 & H3 & H4 & _); [lia|]. by rewrite Z.add_0_l in H1.
Qed.

Lemma bg_fill_spec en p pending :
  pool_ok (Z.of_nat (length pending)) p ->
  exists p' freed, bg_fill en p pending = Some (p', freed) /\ pool_ok 0 p' /\ pages_per_big_pg p' = pages_per_big_pg p /\
    clean_pages p' ++ freed ≡ₚ pending ++ clean_pages p /\ zero_list p' = zero_list p.
Proof.
  intros Hp. pose proof (po_under_small _ _ Hp) as Hs. unfold bg_fill.
  destruct (fill_lots_locked_spec en _ p pending Hp ltac:(lia)) as (ind & p1 & -> & H1 & H2 & H3 & H4 & H5). simpl.
  eexists _, _. split; [done|]. split_and!; try done.
  - pose proof (po_under _ _ H2) as Hu. destruct H2. constructor; simpl; try done. rewrite Hu, Z.sub_diag. done.
  - change (clean_pages (set_under_zero _ p1)) with (clean_pages p1).
    rewrite H4, <- (assoc (++)), (Permutation_app_comm (clean_pages p)), (assoc (++)), take_drop. done.
Qed.

(** A pool that has been initialised. *)
Lemma pool_init_ok totalram p :
  0 <= totalram -> nvmap_page_pool_init totalram = inr p -> pool_ok 0 p /\ pool_pages p = [] /\ pages_per_big_pg p = 16.
Proof.
  intros Ht. unfold nvmap_page_pool_init. case_if; [done|]. intros [= <-].
  split; [|done]. pose proof (u32_range (Z.shiftr (totalram * NVMAP_PP_POOL_SIZE) 10)) as Hr. unfold is_u32 in Hr.
  constructor; simpl; try done; try lia.
Qed.
End pool_facts.
