(* ===== verification/NvmapPages.v ===== *)
(** Pages of nvmap's buffers, from the system through the pool and back
    (src/drivers/video/tegra/nvmap/nvmap_alloc.c, nvmap_pp.c).

    Threads that allocate ([handle_page_alloc]), free ([_nvmap_handle_free]), zero pages in
    the background, shrink and resize the pool run concurrently; a step is the text between
    two points where another thread can get in, so the pool changes only under its lock.
    The state says where every page is and whose data it contains.  The page allocator of
    the kernel answers what an event says; it gives out pages it has, zeroed, since the code
    asks for [__GFP_ZERO]. *)
From S2P Require Import Prelude Sums NvmapColor NvmapPool.

(** * State *)

(** Where a thread in [handle_page_alloc] is. *)
Inductive alloc_phase :=
| A_start                    (** at the beginning *)
| A_big                      (** in the loop over big pages *)
| A_small                    (** after it *)
| A_zero (idx cnt : Z)       (** about to zero pages from the pool *)
| A_bulk
| A_single                   (** in the loop over single pages *)
| A_color                    (** at the beginning of [alloc_colored] *)
| A_czero (idx cnt : Z)
| A_csys                     (** in the loop of [init_color_list] over single pages *)
| A_done
| A_fail.

(** [at_pages] are the entries of [pages] that are set, [at_list] those of the colour list. *)
Record alloc_thread := AllocThread {
  at_nr : Z;
  at_contig : bool;
  at_numa : Z;
  at_pages : list Z;
  at_list : list Z;
  at_phase : alloc_phase
}.
Definition at_goto (ph : alloc_phase) (t : alloc_thread) : alloc_thread :=
  AllocThread (at_nr t) (at_contig t) (at_numa t) (at_pages t) (at_list t) ph.
Definition at_add (ps : list Z) (t : alloc_thread) : alloc_thread :=
  AllocThread (at_nr t) (at_contig t) (at_numa t) (at_pages t ++ ps) (at_list t) (at_phase t).
Definition at_set_list (l : list Z) (t : alloc_thread) : alloc_thread :=
  AllocThread (at_nr t) (at_contig t) (at_numa t) (at_pages t) l (at_phase t).

Inductive bg_thread :=
| BgIdle
| BgTaken (pending : list Z)
| BgZeroed (pending : list Z).
Definition bg_pages (b : bg_thread) : list Z :=
  match b with BgIdle => [] | BgTaken ps | BgZeroed ps => ps end.

(** [w_mem] has the buffer whose data a page contains, and nothing for a page of zeros;
    [w_other] are pages to which others held a reference when nvmap dropped its own. *)
Record world := World {
  w_pool : nvmap_page_pool;
  w_enable_pp : bool;
  w_mem : gmap Z Z;
  w_sys : list Z;
  w_other : list Z;
  w_bg : bg_thread;
  w_allocs : gmap Z alloc_thread;
  w_handles : gmap Z (list Z);
  w_next : Z
}.
Definition set_pool p w := World p (w_enable_pp w) (w_mem w) (w_sys w) (w_other w) (w_bg w) (w_allocs w) (w_handles w) (w_next w).
Definition set_mem m w := World (w_pool w) (w_enable_pp w) m (w_sys w) (w_other w) (w_bg w) (w_allocs w) (w_handles w) (w_next w).
Definition set_sys s w := World (w_pool w) (w_enable_pp w) (w_mem w) s (w_other w) (w_bg w) (w_allocs w) (w_handles w) (w_next w).
Definition set_other o w := World (w_pool w) (w_enable_pp w) (w_mem w) (w_sys w) o (w_bg w) (w_allocs w) (w_handles w) (w_next w).
Definition set_bg b w := World (w_pool w) (w_enable_pp w) (w_mem w) (w_sys w) (w_other w) b (w_allocs w) (w_handles w) (w_next w).
Definition set_allocs a w := World (w_pool w) (w_enable_pp w) (w_mem w) (w_sys w) (w_other w) (w_bg w) a (w_handles w) (w_next w).
Definition set_handles h w := World (w_pool w) (w_enable_pp w) (w_mem w) (w_sys w) (w_other w) (w_bg w) (w_allocs w) h (w_next w).
Definition set_enable b w := World (w_pool w) b (w_mem w) (w_sys w) (w_other w) (w_bg w) (w_allocs w) (w_handles w) (w_next w).
Definition set_next n w := World (w_pool w) (w_enable_pp w) (w_mem w) (w_sys w) (w_other w) (w_bg w) (w_allocs w) (w_handles w) n.

(** * Operations *)

(** The chip's number of colours, and what newly allocated arrays contain. *)
Record pages_env := PagesEnv { pe_numa : numa_env; s_nr_colors : Z; vmalloc_contents : nat -> list Z }.

Section pages.
Context (env : pages_env).

Definition nvmap_pp_zero_pages (ps : list Z) (m : gmap Z Z) : gmap Z Z := foldr delete m ps.
Definition remove_pages (ps l : list Z) : list Z := filter (fun x => x ∉ ps) l.

(** [alloc_pages]/[alloc_pages_node] give a block of [2 ^ order] pages, split; what is
    beyond [nr] pages is freed again. *)
Definition get_order (nr : Z) : Z := Z.log2_up nr.
Definition exact_block (p nr : Z) : list Z := seqZ p (2 ^ get_order nr).
Definition nvmap_alloc_pages_exact (answer : option Z) (nr : Z) (w : world) : option (list Z) * world :=
  match answer with
  | None => (None, w)
  | Some p =>
      let block := exact_block p nr in
      (Some (seqZ p nr),
       set_mem (nvmap_pp_zero_pages block (w_mem w))
         (set_sys (seqZ (p + nr) (2 ^ get_order nr - nr) ++ remove_pages block (w_sys w)) w))
  end.
Definition alloc_pages_bulk (ps : list Z) (w : world) : world :=
  set_mem (nvmap_pp_zero_pages ps (w_mem w)) (set_sys (remove_pages ps (w_sys w)) w).
Definition free_pages (ps : list Z) (w : world) : world := set_sys (ps ++ w_sys w) w.

(** The pages of the list that [alloc_lots] left to be zeroed. *)
Definition pending_zero (idx cnt : Z) (ps : list Z) : list Z := take (Z.to_nat cnt) (drop (Z.to_nat idx) ps).

Definition len (l : list Z) : Z := Z.of_nat (length l).
Definition put_thread (h : Z) (t : alloc_thread) (w : world) : world := set_allocs (<[h := t]> (w_allocs w)) w.

(** [handle_page_alloc], a piece of it; [alloc_colored] and [init_color_list] are inlined.
    [answer] and [bulk] are what the page allocator gives. *)
Definition handle_page_alloc (h : Z) (t : alloc_thread) (answer : option Z) (bulk : list Z) (w : world) : option world :=
  let pool := w_pool w in
  let ppb := pages_per_big_pg pool in
  let room := at_nr t - len (at_pages t) in
  match at_phase t with
  | A_start =>
      if at_contig t then
        match nvmap_alloc_pages_exact answer (at_nr t) w with
        | (None, w) => Some (put_thread h (at_goto A_fail t) w)
        | (Some ps, w) => Some (put_thread h (at_goto A_done (at_add ps t)) w)
        end
      else
        let '(pool, ps) := nvmap_page_pool_alloc_lots_bp (pe_numa env) (w_enable_pp w) pool (at_nr t) true (at_numa t) in
        Some (put_thread h (at_goto A_big (at_add ps t)) (set_pool pool w))
  | A_big =>
      if (0 <? room) && (1 <? ppb) && (ppb <=? room) then
        match nvmap_alloc_pages_exact answer ppb w with
        | (None, w) => Some (put_thread h (at_goto A_small t) w)
        | (Some ps, w) => Some (put_thread h (at_add ps t) w)
        end
      else Some (put_thread h (at_goto A_small t) w)
  | A_small =>
      if s_nr_colors env <=? 1 then
        let '(pool, ps, idx, cnt) :=
          nvmap_page_pool_alloc_lots (pe_numa env) (w_enable_pp w) pool room true (at_numa t) in
        Some (put_thread h (at_goto (A_zero (len (at_pages t) + idx) cnt) (at_add ps t)) (set_pool pool w))
      else Some (put_thread h (at_goto (if 0 <? room then A_color else A_done) t) w)
  | A_zero idx cnt =>
      Some (put_thread h (at_goto A_bulk t)
        (if cnt =? 0 then w else set_mem (nvmap_pp_zero_pages (pending_zero idx cnt (at_pages t)) (w_mem w)) w))
  | A_bulk =>
      Some (if 0 <? room then put_thread h (at_goto A_single (at_add bulk t)) (alloc_pages_bulk bulk w)
            else put_thread h (at_goto A_single t) w)
  | A_single =>
      if 0 <? room then
        match nvmap_alloc_pages_exact answer 1 w with
        | (None, w) => Some (put_thread h (at_goto A_fail t) w)
        | (Some ps, w) => Some (put_thread h (at_add ps t) w)
        end
      else Some (put_thread h (at_goto A_done t) w)
  | A_color =>
      let '(pool, ps, idx, cnt) :=
        nvmap_page_pool_alloc_lots (pe_numa env) (w_enable_pp w) pool (colored_nr_alloc (s_nr_colors env) room) false 0 in
      Some (put_thread h (at_goto (A_czero idx cnt) (at_set_list ps t)) (set_pool pool w))
  | A_czero idx cnt =>
      Some (put_thread h (at_goto A_csys t)
        (if cnt =? 0 then w else set_mem (nvmap_pp_zero_pages (pending_zero idx cnt (at_list t)) (w_mem w)) w))
  | A_csys =>
      if len (at_list t) <? colored_nr_alloc (s_nr_colors env) room then
        match nvmap_alloc_pages_exact answer 1 w with
        | (None, w) => Some (put_thread h (at_goto A_fail (at_set_list [] t)) (free_pages (at_list t) w))
        | (Some ps, w) => Some (put_thread h (at_set_list (at_list t ++ ps) t) w)
        end
      else
        '(out, freed) ← alloc_colored_pages (s_nr_colors env) addr_to_color_t19x
                          (vmalloc_contents env (length (at_list t))) (at_list t) room;
        Some (put_thread h (at_goto A_done (at_add out (at_set_list [] t))) (free_pages freed w))
  | A_done => Some (set_handles (<[h := at_pages t]> (w_handles w)) (set_allocs (delete h (w_allocs w)) w))
  | A_fail => Some (free_pages (at_pages t) (set_allocs (delete h (w_allocs w)) w))
  end.

(** [_nvmap_handle_free] for pages of the system; [shared] says which of them others hold a
    reference to. *)
Definition nvmap_handle_free (h : Z) (ps : list Z) (shared : Z -> bool) (w : world) : world :=
  let '(ret, pool, dropped) := nvmap_page_pool_fill_lots shared (w_pool w) ps (len ps) in
  let rest := drop (Z.to_nat ret) ps in
  let still := filter (fun x => shared x = true) rest in
  let free := filter (fun x => shared x <> true) rest in
  set_other (still ++ dropped ++ w_other w)
    (free_pages free (set_pool pool (set_handles (delete h (w_handles w)) w))).

Definition bg_step (w : world) : option world :=
  match w_bg w with
  | BgIdle =>
      Some (if nvmap_bg_should_run (w_pool w) then
              let '(pool, ps) := bg_take (pe_numa env) (w_pool w) in set_bg (BgTaken ps) (set_pool pool w)
            else w)
  | BgTaken ps => Some (set_bg (BgZeroed ps) (set_mem (nvmap_pp_zero_pages ps (w_mem w)) w))
  | BgZeroed ps =>
      '(pool, freed) ← bg_fill (w_enable_pp w) (w_pool w) ps;
      Some (set_bg BgIdle (free_pages freed (set_pool pool w)))
  end.

(** * Steps *)
Inductive event :=
| E_create (nr : Z) (contig : bool) (numa : Z)       (** a buffer of [nr] pages is allocated *)
| E_alloc (h : Z) (answer : option Z) (bulk : list Z) (** its thread goes on *)
| E_write (h page : Z)                               (** its owner writes to a page *)
| E_free (h : Z) (shared : Z -> bool)
| E_release (page : Z)                               (** the last foreign reference goes *)
| E_bg
| E_shrink (nr : Z)
| E_resize (size : Z)
| E_enable (enable : bool).

Definition exec (e : event) (w : world) : option world :=
  match e with
  | E_create nr contig numa =>
      Some (set_next (w_next w + 1) (put_thread (w_next w) (AllocThread nr contig numa [] [] A_start) w))
  | E_alloc h answer bulk => t ← w_allocs w !! h; handle_page_alloc h t answer bulk w
  | E_write h page => Some (set_mem (<[page := h]> (w_mem w)) w)
  | E_free h shared => ps ← w_handles w !! h; Some (nvmap_handle_free h ps shared w)
  | E_release page => Some (free_pages [page] (set_other (remove_pages [page] (w_other w)) w))
  | E_bg => bg_step w
  | E_shrink nr =>
      '(_, pool, freed) ← nvmap_page_pool_scan_objects (pe_numa env) (w_pool w) nr;
      Some (free_pages freed (set_pool pool w))
  | E_resize size =>
      '(pool, freed) ← pool_size_set (pe_numa env) (w_pool w) size;
      Some (free_pages freed (set_pool pool w))
  | E_enable true => Some (set_enable true w)
  | E_enable false =>
      '(_, pool, freed) ← nvmap_page_pool_clear (pe_numa env) (w_pool w);
      Some (free_pages freed (set_pool pool (set_enable false w)))
  end.

(** The page allocator gives what it has, as much as it is asked for. *)
Definition answer_ok (w : world) (t : alloc_thread) (answer : option Z) (bulk : list Z) : Prop :=
  (forall p, answer = Some p ->
     exact_block p (match at_phase t with A_start => at_nr t | A_big => pages_per_big_pg (w_pool w) | _ => 1 end) ⊆ w_sys w) /\
  NoDup bulk /\ bulk ⊆ w_sys w /\ len bulk <= at_nr t - len (at_pages t).

Definition event_ok (w : world) (e : event) : Prop :=
  match e with
  | E_create nr _ _ => 1 <= nr <= 2 ^ 26
  | E_alloc h answer bulk => exists t, w_allocs w !! h = Some t /\ answer_ok w t answer bulk
  | E_write h page => exists ps, w_handles w !! h = Some ps /\ page ∈ ps
  | E_free h _ => is_Some (w_handles w !! h)
  | E_release page => page ∈ w_other w
  | E_bg => True
  | E_shrink nr => 0 <= nr
  | E_resize size => is_u32 size
  | E_enable _ => True
  end.

Definition wstep (w w' : world) : Prop := exists e, event_ok w e /\ exec e w = Some w'.

(** After [nvmap_page_pool_init]; the pages are the system's. *)
Definition start (totalram : Z) (pages : list Z) (contents : gmap Z Z) : option world :=
  match nvmap_page_pool_init totalram with
  | inl _ => None
  | inr pool => Some (World pool true contents pages [] BgIdle ∅ ∅ 0)
  end.
End pages.

(** * Where the pages are *)
Definition thread_pages (t : alloc_thread) : list Z := at_pages t ++ at_list t.
Definition places (w : world) : list Z :=
  pool_pages (w_pool w) ++ bg_pages (w_bg w) ++ gather thread_pages (w_allocs w) ++ gather id (w_handles w) ++
  w_sys w ++ w_other w.

(** The pages that must contain zeros: those that are not on the way to be zeroed. *)
Definition not_pending (idx cnt : Z) (ps : list Z) : list Z := take (Z.to_nat idx) ps ++ drop (Z.to_nat (idx + cnt)) ps.
Definition thread_clean (t : alloc_thread) : list Z :=
  match at_phase t with
  | A_zero idx cnt => not_pending idx cnt (at_pages t)
  | A_czero idx cnt => at_pages t ++ not_pending idx cnt (at_list t)
  | _ => thread_pages t
  end.
Definition bg_clean (b : bg_thread) : list Z := match b with BgZeroed ps => ps | _ => [] end.

Definition clean (m : gmap Z Z) (ps : list Z) : Prop := Forall (fun p => m !! p = None) ps.

(** What holds of a thread at each of its points. *)
Definition thread_ok (env : pages_env) (t : alloc_thread) : Prop :=
  1 <= at_nr t <= 2 ^ 26 /\ len (at_pages t) <= at_nr t /\
  match at_phase t with
  | A_start => at_pages t = [] /\ at_list t = []
  | A_done => len (at_pages t) = at_nr t /\ at_list t = []
  | A_zero idx cnt => 0 <= idx /\ 0 <= cnt /\ at_list t = []
  | A_color => at_list t = [] /\ len (at_pages t) < at_nr t /\ s_nr_colors env = NVMAP_MAX_COLORS
  | A_czero idx cnt =>
      0 <= idx /\ 0 <= cnt /\ len (at_pages t) < at_nr t /\ s_nr_colors env = NVMAP_MAX_COLORS /\
      len (at_list t) <= colored_nr_alloc NVMAP_MAX_COLORS (at_nr t - len (at_pages t))
  | A_csys =>
      len (at_pages t) < at_nr t /\ s_nr_colors env = NVMAP_MAX_COLORS /\
      len (at_list t) <= colored_nr_alloc NVMAP_MAX_COLORS (at_nr t - len (at_pages t))
  | _ => at_list t = []
  end.

Record world_ok (env : pages_env) (all : list Z) (w : world) : Prop := {
  wo_places : places w ≡ₚ all;
  wo_pool : pool_ok (len (bg_pages (w_bg w))) (w_pool w);
  wo_ppb : pages_per_big_pg (w_pool w) = 16;
  wo_clean_pool : clean (w_mem w) (clean_pages (w_pool w));
  wo_clean_bg : clean (w_mem w) (bg_clean (w_bg w));
  wo_clean_threads h t : w_allocs w !! h = Some t -> clean (w_mem w) (thread_clean t);
  wo_threads h t : w_allocs w !! h = Some t -> thread_ok env t;
  wo_handles h ps p : w_handles w !! h = Some ps -> p ∈ ps -> w_mem w !! p = None \/ w_mem w !! p = Some h
}.

(** * Counting pages *)
Definition occs (x : Z) (l : list Z) : nat := length (filter (fun y => y = x) l).
Lemma occs_app x l k : occs x (l ++ k) = (occs x l + occs x k)%nat.
Proof. unfold occs. by rewrite filter_app, length_app. Qed.
Lemma occs_cons x y l : occs x (y :: l) = (occs x [y] + occs x l)%nat.
Proof. apply (occs_app x [y] l). Qed.
#[export] Instance occs_proper x : Proper ((≡ₚ) ==> eq) (occs x).
Proof. intros l k E. unfold occs. by rewrite E. Qed.
Lemma perm_occs l k : (forall x, occs x l = occs x k) -> l ≡ₚ k.
Proof.
  revert k. induction l as [|x l IH]; intros k H.
  - destruct k as [|y k]; [done|]. specialize (H y). unfold occs in H.
    rewrite filter_nil, filter_cons_True in H by done. simpl in H. lia.
  - destruct (list_elem_of_split k x) as (k1 & k2 & ->).
    { specialize (H x). unfold occs in H. rewrite filter_cons_True in H by done. simpl in H.
      destruct (filter (fun y => y = x) k) as [|z f] eqn:E; [done|].
      assert (Hz : z ∈ filter (fun y => y = x) k) by (rewrite E; left). by apply list_elem_of_filter in Hz as [-> ?]. }
    rewrite <- Permutation_middle. constructor. apply IH. intros y. specialize (H y).
    rewrite (occs_cons y x l), occs_app, (occs_cons y x k2) in H. rewrite occs_app. lia.
Qed.
(** Permutations of concatenations, by counting. *)
Ltac perm_lia :=
  apply perm_occs; let x := fresh in intros x;
  repeat match goal with H : _ ≡ₚ _ |- _ => apply (occs_proper x) in H; cbn beta in H end;
  rewrite ?occs_app in *;
  repeat match goal with
  | |- context [occs x (?y :: ?l)] => lazymatch l with [] => fail | _ => rewrite (occs_cons x y l) end
  | H : context [occs x (?y :: ?l)] |- _ => lazymatch l with [] => fail | _ => rewrite (occs_cons x y l) in H end
  end;
  rewrite ?occs_app in *;
  try change (occs x []) with 0%nat in *; lia.

(** * Zeroed pages *)
Lemma lookup_zero_pages ps m p : nvmap_pp_zero_pages ps m !! p = if decide (p ∈ ps) then None else m !! p.
Proof.
  induction ps as [|q ps IH]; [done|]. simpl. destruct (decide (p = q)) as [->|Hne].
  - rewrite lookup_delete_eq. by rewrite decide_True by left.
  - rewrite lookup_delete_ne by done. rewrite IH. apply decide_ext. set_solver.
Qed.
Lemma clean_app m l k : clean m (l ++ k) <-> clean m l /\ clean m k.
Proof. apply Forall_app. Qed.
Lemma clean_perm m l k : l ≡ₚ k -> clean m l -> clean m k.
Proof. unfold clean. by intros ->. Qed.
Lemma clean_subset m l k : clean m l -> k ⊆ l -> clean m k.
Proof. unfold clean. rewrite !Forall_forall. auto. Qed.
(** A memory with less in it. *)
Definition cleaner (m m' : gmap Z Z) : Prop := forall p, m' !! p = None \/ m' !! p = m !! p.
Lemma cleaner_refl m : cleaner m m.
Proof. intros p. by right. Qed.
Lemma cleaner_zero ps m : cleaner m (nvmap_pp_zero_pages ps m).
Proof. intros p. rewrite lookup_zero_pages. case_decide; auto. Qed.
Lemma clean_cleaner m m' l : cleaner m m' -> clean m l -> clean m' l.
Proof. unfold clean. rewrite !Forall_forall. intros Hm H p Hp. destruct (Hm p) as [?| ->]; auto. Qed.
Lemma clean_zeroed ps m : clean (nvmap_pp_zero_pages ps m) ps.
Proof. apply Forall_forall. intros p Hp. by rewrite lookup_zero_pages, decide_True. Qed.
Lemma clean_nil m : clean m [].
Proof. constructor. Qed.
Create HintDb pages.
#[export] Hint Resolve cleaner_refl cleaner_zero clean_zeroed clean_nil : pages.

(** Zeroing what is pending leaves nothing pending. *)
Lemma pending_split idx cnt l : 0 <= idx -> 0 <= cnt -> l ≡ₚ pending_zero idx cnt l ++ not_pending idx cnt l.
Proof.
  intros Hi Hc. unfold pending_zero, not_pending. replace (Z.to_nat (idx + cnt)) with (Z.to_nat idx + Z.to_nat cnt)%nat by lia.
  rewrite <- drop_drop. rewrite <- (take_drop (Z.to_nat idx) l) at 1.
  rewrite <- (take_drop (Z.to_nat cnt) (drop (Z.to_nat idx) l)) at 1. perm_lia.
Qed.
Lemma clean_pending idx cnt l m : 0 <= idx -> 0 <= cnt -> clean m (not_pending idx cnt l) ->
  clean (nvmap_pp_zero_pages (pending_zero idx cnt l) m) l.
Proof.
  intros Hi Hc H. eapply clean_perm; [symmetry; by apply (pending_split idx cnt)|]. apply clean_app. split; [auto with pages|].
  eapply clean_cleaner; [apply cleaner_zero|done].
Qed.
Lemma clean_pending_0 idx l m : 0 <= idx -> clean m (not_pending idx 0 l) -> clean m l.
Proof. intros Hi. unfold not_pending. by rewrite Z.add_0_r, take_drop. Qed.

(** What [alloc_lots] gives: the pages that are not zeroed are the pending ones. *)
Lemma not_pending_lots m pre cl nz idx :
  0 <= idx -> (nz <> [] -> idx = len cl) -> clean m (pre ++ cl) ->
  clean m (not_pending (len pre + idx) (len nz) (pre ++ cl ++ nz)).
Proof.
  intros Hi Hidx Hc. destruct nz as [|x nz].
  - unfold not_pending, len. simpl. by rewrite Z.add_0_r, take_drop, app_nil_r.
  - rewrite Hidx by done. unfold not_pending, len. rewrite drop_ge by (rewrite !length_app; lia).
    rewrite app_nil_r, (assoc (++)), take_app_length'; [done|]. rewrite length_app. lia.
Qed.

(** The blocks of the page allocator. *)
Lemma remove_pages_perm ps l : NoDup l -> NoDup ps -> ps ⊆ l -> l ≡ₚ ps ++ remove_pages ps l.
Proof.
  intros Hl Hp Hs. apply NoDup_Permutation; [done| |].
  - apply NoDup_app. split_and!; [done| |by apply NoDup_filter].
    intros x Hx. unfold remove_pages. rewrite list_elem_of_filter. tauto.
  - intros x. rewrite elem_of_app. unfold remove_pages. rewrite list_elem_of_filter.
    destruct (decide (x ∈ ps)); [|tauto]. split; auto.
Qed.
Lemma exact_block_split p nr : 1 <= nr -> exact_block p nr = seqZ p nr ++ seqZ (p + nr) (2 ^ get_order nr - nr).
Proof.
  intros H. unfold exact_block, get_order. pose proof (Z.log2_log2_up_spec nr ltac:(lia)).
  rewrite <- seqZ_app by lia. f_equal. lia.
Qed.

(** * Every step keeps the invariant *)
Section steps.
Context (env : pages_env) (all : list Z).
Hypothesis all_NoDup : NoDup all.
Hypothesis all_small : len all < 2 ^ 31.
Hypothesis colours_ok : s_nr_colors env <= 1 \/ s_nr_colors env = NVMAP_MAX_COLORS.
Hypothesis contents_ok : forall k, length (vmalloc_contents env k) = k.

Abbreviation ok := (world_ok env all).

Lemma places_NoDup w : ok w -> NoDup (places w).
Proof. intros H. by rewrite (wo_places _ _ _ H). Qed.
Lemma sys_NoDup w : ok w -> NoDup (w_sys w).
Proof.
  intros H%places_NoDup. unfold places in H. rewrite !(assoc (++)) in H. apply NoDup_app in H as [H _].
  by apply NoDup_app in H as (_ & _ & ?).
Qed.
(** No place holds more than the memory has. *)
Lemma places_small w l k : ok w -> places w ≡ₚ l ++ k -> len l < 2 ^ 31.
Proof.
  intros H E. rewrite (wo_places _ _ _ H) in E. apply Permutation_length in E. rewrite length_app in E.
  unfold len in *. lia.
Qed.

Lemma thread_perm w h t : w_allocs w !! h = Some t ->
  places w ≡ₚ thread_pages t ++ pool_pages (w_pool w) ++ w_sys w ++
    bg_pages (w_bg w) ++ gather thread_pages (delete h (w_allocs w)) ++ gather id (w_handles w) ++ w_other w.
Proof. intros E. unfold places. pose proof (gather_delete thread_pages _ _ _ E) as G. perm_lia. Qed.

(** A thread moves pages between itself, the pool and the system. *)
Lemma thread_step_ok w h t w' t' :
  ok w -> w_allocs w !! h = Some t ->
  w_bg w' = w_bg w -> w_other w' = w_other w -> w_handles w' = w_handles w -> w_allocs w' = <[h := t']> (w_allocs w) ->
  thread_pages t' ++ pool_pages (w_pool w') ++ w_sys w' ≡ₚ thread_pages t ++ pool_pages (w_pool w) ++ w_sys w ->
  pool_ok (len (bg_pages (w_bg w))) (w_pool w') -> pages_per_big_pg (w_pool w') = 16 ->
  cleaner (w_mem w) (w_mem w') -> clean (w_mem w') (clean_pages (w_pool w')) -> clean (w_mem w') (thread_clean t') ->
  thread_ok env t' -> ok w'.
Proof.
  intros [P1 P2 P3 P4 P5 P6 P7 P8] Et Eb Eo Eh Ea Hperm Hpool Hppb Hcl Hc1 Hc2 Ht. constructor.
  - rewrite <- P1. unfold places. rewrite Eb, Eo, Eh, Ea.
    pose proof (gather_delete thread_pages _ _ _ Et) as G1. pose proof (gather_insert thread_pages (w_allocs w) h t') as G2. perm_lia.
  - by rewrite Eb.
  - done.
  - done.
  - rewrite Eb. by eapply clean_cleaner.
  - intros h2 t2. rewrite Ea, lookup_insert_Some. intros [[<- <-]|[Hne E2]]; [done|]. eapply clean_cleaner; [done|eauto].
  - intros h2 t2. rewrite Ea, lookup_insert_Some. intros [[<- <-]|[Hne E2]]; eauto.
  - intros h2 ps p. rewrite Eh. intros E Hp. destruct (Hcl p) as [?| ->]; eauto.
Qed.

(** The system's answer. *)
Lemma exact_ok w answer nr r w' :
  ok w -> 1 <= nr -> (forall p, answer = Some p -> exact_block p nr ⊆ w_sys w) ->
  nvmap_alloc_pages_exact answer nr w = (r, w') ->
  w_bg w' = w_bg w /\ w_other w' = w_other w /\ w_handles w' = w_handles w /\ w_allocs w' = w_allocs w /\ w_pool w' = w_pool w /\
  cleaner (w_mem w) (w_mem w') /\
  match r with
  | None => w_sys w' = w_sys w
  | Some ps => w_sys w ≡ₚ ps ++ w_sys w' /\ clean (w_mem w') ps /\ len ps = nr
  end.
Proof.
  intros Hw Hnr Ha. destruct answer as [p|]; simpl; intros [= <- <-]; [|split_and!; auto with pages].
  specialize (Ha p eq_refl). pose proof (exact_block_split p nr Hnr) as E.
  split_and!; try done; simpl; [auto with pages| | |].
  - pose proof (remove_pages_perm (exact_block p nr) (w_sys w) (sys_NoDup w Hw) (NoDup_seqZ _ _) Ha) as Hp.
    rewrite E in Hp at 1. perm_lia.
  - eapply clean_subset; [apply clean_zeroed|]. rewrite E. set_solver.
  - unfold len. rewrite length_seqZ. lia.
Qed.

Lemma pool_of_ok w : ok w -> pool_ok (len (bg_pages (w_bg w))) (w_pool w) /\ pages_per_big_pg (w_pool w) = 16 /\
  clean (w_mem w) (clean_pages (w_pool w)).
Proof. intros H. split_and!; apply H. Qed.

Ltac unchanged Hw := destruct (pool_of_ok _ Hw) as (? & ? & ?); split_and!; try done; auto with pages.

Lemma thread_clean_pages m t : (forall idx cnt, at_phase t <> A_zero idx cnt) -> (forall idx cnt, at_phase t <> A_czero idx cnt) ->
  clean m (thread_pages t) -> clean m (thread_clean t).
Proof. unfold thread_clean. destruct (at_phase t); naive_solver. Qed.

(** The thread only goes to another point. *)
Lemma goto_ok w h t ph :
  ok w -> w_allocs w !! h = Some t -> thread_ok env (at_goto ph t) -> clean (w_mem w) (thread_clean (at_goto ph t)) ->
  ok (put_thread h (at_goto ph t) w).
Proof. intros Hw Et Hok Hc. destruct (pool_of_ok _ Hw) as (? & ? & ?). by eapply (thread_step_ok w h t); auto with pages. Qed.

(** The thread adds what the page allocator gave. *)
Lemma exact_thread_ok w answer nr h t ph_ok ph_fail (to_list : bool) :
  ok w -> w_allocs w !! h = Some t -> 1 <= nr -> (forall p, answer = Some p -> exact_block p nr ⊆ w_sys w) ->
  (match at_phase t with A_start | A_big | A_single | A_csys => True | _ => False end) ->
  (match ph_ok with A_big | A_done | A_single | A_csys => True | _ => False end) ->
  let add ps t := if to_list then at_set_list (at_list t ++ ps) t else at_add ps t in
  (forall ps, len ps = nr -> thread_ok env (at_goto ph_ok (add ps t))) ->
  (forall w', ok w' -> w_allocs w' !! h = Some t -> ok (ph_fail w')) ->
  ok (match nvmap_alloc_pages_exact answer nr w with
      | (None, w) => ph_fail w
      | (Some ps, w) => put_thread h (at_goto ph_ok (add ps t)) w
      end).
Proof.
  intros Hw Et Hnr Ha Hph Hph2 add Hadd Hfail. destruct (nvmap_alloc_pages_exact answer nr w) as [r w'] eqn:E.
  destruct (exact_ok w answer nr r w' Hw Hnr Ha E) as (E1 & E2 & E3 & E4 & E5 & Hcl & Hr).
  destruct (pool_of_ok _ Hw) as (Hp1 & Hp2 & Hp3).
  assert (Hct : clean (w_mem w) (thread_pages t)).
  { pose proof (wo_clean_threads _ _ _ Hw h t Et) as Hc. unfold thread_clean in Hc. by destruct (at_phase t). }
  destruct r as [ps|].
  - destruct Hr as (Hperm & Hcp & Hlen). eapply (thread_step_ok w h t); simpl; rewrite ?E1, ?E2, ?E3, ?E4, ?E5; try done.
    + unfold add, thread_pages. destruct to_list; simpl; perm_lia.
    + by eapply clean_cleaner.
    + apply thread_clean_pages; [by destruct ph_ok|by destruct ph_ok|].
      eapply (clean_subset _ (ps ++ thread_pages t)); [apply clean_app; split; [done|by eapply clean_cleaner]|].
      unfold add, thread_pages. destruct to_list; simpl; set_solver.
    + by apply Hadd.
  - apply Hfail; [|by rewrite E4]. destruct answer; simpl in E; [done|]. by injection E as <-.
Qed.

Lemma fail_ok w h t : ok w -> w_allocs w !! h = Some t ->
  (forall idx cnt, at_phase t <> A_zero idx cnt) -> (forall idx cnt, at_phase t <> A_czero idx cnt) -> at_list t = [] ->
  ok (put_thread h (at_goto A_fail t) w).
Proof.
  intros Hw Et H1 H2 Hl. pose proof (wo_threads _ _ _ Hw h t Et) as (Ht1 & Ht2 & _). apply goto_ok; try done.
  pose proof (wo_clean_threads _ _ _ Hw h t Et) as Hc. unfold thread_clean in *. simpl.
  destruct (at_phase t); naive_solver.
Qed.

(** Pages from the pool. *)
Lemma start_ok w h t answer bulk :
  ok w -> w_allocs w !! h = Some t -> at_phase t = A_start -> answer_ok w t answer bulk ->
  exists w', handle_page_alloc env h t answer bulk w = Some w' /\ ok w'.
Proof.
  intros Hw Et Eph [Ha _]. rewrite Eph in Ha. pose proof (wo_threads _ _ _ Hw h t Et) as (Ht1 & Ht2 & Ht3). rewrite Eph in Ht3.
  destruct Ht3 as [Hpg Hls]. unfold handle_page_alloc. rewrite Eph. destruct (at_contig t).
  - pose proof (exact_thread_ok w answer (at_nr t) h t A_done (put_thread h (at_goto A_fail t)) false Hw Et ltac:(lia) Ha) as H.
    rewrite Eph in H. simpl in H. destruct (nvmap_alloc_pages_exact answer (at_nr t) w) as [[ps|] w'];
      (eexists; split; [done|]; apply H); try done.
    + intros ps' Hps. unfold thread_ok. simpl. rewrite Hpg, Hls. simpl. split_and!; lia || done.
    + intros w2 Hw2 Et2. apply fail_ok; congruence.
    + intros ps' Hps. unfold thread_ok. simpl. rewrite Hpg, Hls. simpl. split_and!; lia || done.
    + intros w2 Hw2 Et2. apply fail_ok; congruence.
  - destruct (nvmap_page_pool_alloc_lots_bp _ _ _ _ _ _) as [pool ps] eqn:E. eexists. split; [done|].
    destruct (pool_of_ok _ Hw) as (Hp1 & Hp2 & Hp3).
    destruct (alloc_lots_bp_spec _ _ _ _ _ _ _ _ _ Hp1 E ltac:(lia)) as (G1 & G2 & G3 & G4 & G5).
    assert (Hcps : clean (w_mem w) ps /\ clean (w_mem w) (clean_pages pool)).
    { apply clean_app. by eapply clean_perm. }
    eapply (thread_step_ok w h t); simpl; try done; auto with pages.
    + unfold thread_pages, pool_pages. simpl. rewrite G4. perm_lia.
    + congruence.
    + apply Hcps.
    + apply thread_clean_pages; try done. unfold thread_pages. simpl. rewrite Hpg, Hls. simpl. rewrite app_nil_r. apply Hcps.
    + unfold thread_ok. simpl. rewrite Hpg, Hls. simpl. split_and!; unfold len in *; lia || done.
Qed.

(** A goal about one piece of [handle_page_alloc]. *)
Definition piece_ok (w : world) (h : Z) (t : alloc_thread) (answer : option Z) (bulk : list Z) : Prop :=
  exists w', handle_page_alloc env h t answer bulk w = Some w' /\ ok w'.

Lemma big_ok w h t answer bulk :
  ok w -> w_allocs w !! h = Some t -> at_phase t = A_big -> answer_ok w t answer bulk -> piece_ok w h t answer bulk.
Proof.
  intros Hw Et Eph [Ha _]. rewrite Eph in Ha. pose proof (wo_threads _ _ _ Hw h t Et) as (Ht1 & Ht2 & Hls). rewrite Eph in Hls.
  destruct (pool_of_ok _ Hw) as (_ & Hppb & _). rewrite Hppb in Ha.
  assert (Hsmall : forall w', ok w' -> w_allocs w' !! h = Some t -> ok (put_thread h (at_goto A_small t) w')).
  { intros w' Hw' Et'. apply goto_ok; try done. pose proof (wo_clean_threads _ _ _ Hw' h t Et') as Hc.
    unfold thread_clean in *. by rewrite Eph in Hc. }
  unfold piece_ok, handle_page_alloc. rewrite Eph, Hppb.
  destruct ((0 <? at_nr t - len (at_pages t)) && (1 <? 16) && (16 <=? at_nr t - len (at_pages t))) eqn:Eroom; [|eauto].
  zb. pose proof (exact_thread_ok w answer 16 h t A_big (put_thread h (at_goto A_small t)) false Hw Et ltac:(lia) Ha) as HX.
  rewrite Eph in HX. simpl in HX.
  assert (Ea : forall ps, at_add ps t = at_goto A_big (at_add ps t)) by (intros; unfold at_goto, at_add; simpl; by rewrite Eph).
  revert HX. destruct (nvmap_alloc_pages_exact answer 16 w) as [[ps|] w'];
    (intros HX; eexists; split; [done|]; try rewrite Ea; apply HX); try done;
    intros ps' Hps; unfold thread_ok; simpl; unfold len in *; rewrite length_app; split_and!; lia || done.
Qed.

Lemma lots_ok w nr use nid pool ps idx cnt :
  ok w -> 0 <= nr < 2 ^ 32 ->
  nvmap_page_pool_alloc_lots (pe_numa env) (w_enable_pp w) (w_pool w) nr use nid = (pool, ps, idx, cnt) ->
  pool_ok (len (bg_pages (w_bg w))) pool /\ pages_per_big_pg pool = 16 /\ pool_pages (w_pool w) ≡ₚ ps ++ pool_pages pool /\
  clean (w_mem w) (clean_pages pool) /\ len ps <= nr /\ 0 <= idx /\ 0 <= cnt /\
  forall pre, clean (w_mem w) pre -> clean (w_mem w) (not_pending (len pre + idx) cnt (pre ++ ps)).
Proof.
  intros Hw Hnr E. destruct (pool_of_ok _ Hw) as (Hp1 & Hp2 & Hp3).
  destruct (alloc_lots_spec _ _ _ _ _ _ _ _ _ _ _ Hp1 Hnr E) as (cl & nz & -> & G1 & G2 & G3 & G4 & G5 & -> & G7 & G8).
  assert (Hc : clean (w_mem w) cl /\ clean (w_mem w) (clean_pages pool)) by (apply clean_app; by eapply clean_perm).
  split_and!; try done; try lia; try apply Hc; [unfold pool_pages; rewrite G3, G4; perm_lia|].
  intros pre Hpre. apply not_pending_lots; [done|done|]. apply clean_app. by destruct Hc.
Qed.

Lemma small_ok w h t answer bulk :
  ok w -> w_allocs w !! h = Some t -> at_phase t = A_small -> piece_ok w h t answer bulk.
Proof.
  intros Hw Et Eph. pose proof (wo_threads _ _ _ Hw h t Et) as (Ht1 & Ht2 & Hls). rewrite Eph in Hls.
  pose proof (wo_clean_threads _ _ _ Hw h t Et) as Hc. unfold thread_clean, thread_pages in Hc. rewrite Eph, Hls, app_nil_r in Hc.
  unfold piece_ok, handle_page_alloc. rewrite Eph. destruct (Z.leb_spec (s_nr_colors env) 1) as [Hn|Hn].
  - destruct (nvmap_page_pool_alloc_lots _ _ _ _ _ _) as [[[pool ps] idx] cnt] eqn:E. eexists. split; [done|].
    destruct (lots_ok w (at_nr t - len (at_pages t)) _ _ _ _ _ _ Hw ltac:(unfold len in *; lia) E) as (G1 & G2 & G3 & G4 & G5 & G6 & G7 & G8).
    eapply (thread_step_ok w h t); simpl; try done; auto with pages.
    + unfold thread_pages. simpl. perm_lia.
    + unfold thread_clean. simpl. by apply G8.
    + unfold thread_ok. simpl. unfold len in *. rewrite length_app. split_and!; lia || done.
  - assert (Hn2 : s_nr_colors env = NVMAP_MAX_COLORS) by (destruct colours_ok; [lia|done]).
    eexists. split; [done|]. apply goto_ok; try done.
    + unfold thread_ok. simpl. case_if; simpl; split_and!; lia || done.
    + unfold thread_clean, thread_pages. simpl. rewrite Hls, app_nil_r. by case_if.
Qed.

(** The thread zeroes pages of its own. *)
Lemma zero_step_ok w h t ph cnt ps :
  ok w -> w_allocs w !! h = Some t -> thread_ok env (at_goto ph t) ->
  (cnt = 0 -> clean (w_mem w) (thread_clean (at_goto ph t))) ->
  clean (nvmap_pp_zero_pages ps (w_mem w)) (thread_clean (at_goto ph t)) ->
  ok (put_thread h (at_goto ph t) (if cnt =? 0 then w else set_mem (nvmap_pp_zero_pages ps (w_mem w)) w)).
Proof.
  intros Hw Et Hok H0 Hc. destruct (pool_of_ok _ Hw) as (Hp1 & Hp2 & Hp3). case_if; [apply goto_ok; auto|].
  eapply (thread_step_ok w h t); simpl; try done; auto with pages. eapply clean_cleaner; [apply cleaner_zero|done].
Qed.

Lemma zero_ok w h t answer bulk idx cnt :
  ok w -> w_allocs w !! h = Some t -> at_phase t = A_zero idx cnt -> piece_ok w h t answer bulk.
Proof.
  intros Hw Et Eph. pose proof (wo_threads _ _ _ Hw h t Et) as (Ht1 & Ht2 & Ht3). rewrite Eph in Ht3. destruct Ht3 as (Hi & Hc & Hls).
  pose proof (wo_clean_threads _ _ _ Hw h t Et) as Hcl. unfold thread_clean in Hcl. rewrite Eph in Hcl.
  unfold piece_ok, handle_page_alloc. rewrite Eph. eexists. split; [done|]. apply zero_step_ok; try done.
  - intros ->. unfold thread_clean, thread_pages. simpl. rewrite Hls, app_nil_r. by apply (clean_pending_0 idx).
  - unfold thread_clean, thread_pages. simpl. rewrite Hls, app_nil_r. by apply clean_pending.
Qed.

Lemma czero_ok w h t answer bulk idx cnt :
  ok w -> w_allocs w !! h = Some t -> at_phase t = A_czero idx cnt -> piece_ok w h t answer bulk.
Proof.
  intros Hw Et Eph. pose proof (wo_threads _ _ _ Hw h t Et) as (Ht1 & Ht2 & Ht3). rewrite Eph in Ht3. destruct Ht3 as (Hi & Hc & Hrest).
  pose proof (wo_clean_threads _ _ _ Hw h t Et) as Hcl. unfold thread_clean in Hcl. rewrite Eph in Hcl.
  apply clean_app in Hcl as [Hcl1 Hcl2].
  unfold piece_ok, handle_page_alloc. rewrite Eph. eexists. split; [done|]. apply zero_step_ok; try done.
  - intros ->. unfold thread_clean, thread_pages. simpl. apply clean_app. split; [done|]. by apply (clean_pending_0 idx).
  - unfold thread_clean, thread_pages. simpl. apply clean_app. split; [|by apply clean_pending].
    eapply clean_cleaner; [apply cleaner_zero|done].
Qed.

Lemma bulk_ok w h t answer bulk :
  ok w -> w_allocs w !! h = Some t -> at_phase t = A_bulk -> answer_ok w t answer bulk -> piece_ok w h t answer bulk.
Proof.
  intros Hw Et Eph (_ & Hnd & Hsub & Hlen). pose proof (wo_threads _ _ _ Hw h t Et) as (Ht1 & Ht2 & Hls). rewrite Eph in Hls.
  pose proof (wo_clean_threads _ _ _ Hw h t Et) as Hc. unfold thread_clean, thread_pages in Hc. rewrite Eph, Hls, app_nil_r in Hc.
  destruct (pool_of_ok _ Hw) as (Hp1 & Hp2 & Hp3). unfold piece_ok, handle_page_alloc. rewrite Eph. eexists. split; [done|].
  case_if; [|apply goto_ok; try done; unfold thread_clean, thread_pages; simpl; by rewrite Hls, app_nil_r].
  pose proof (remove_pages_perm bulk (w_sys w) (sys_NoDup w Hw) Hnd Hsub) as Hp.
  eapply (thread_step_ok w h t); simpl; try done; auto with pages.
  - unfold thread_pages. simpl. perm_lia.
  - eapply clean_cleaner; [apply cleaner_zero|done].
  - unfold thread_clean, thread_pages. simpl. rewrite Hls, app_nil_r. apply clean_app. split; [|auto with pages].
    eapply clean_cleaner; [apply cleaner_zero|done].
  - unfold thread_ok. simpl. unfold len in *. rewrite length_app. split_and!; lia || done.
Qed.

Lemma single_ok w h t answer bulk :
  ok w -> w_allocs w !! h = Some t -> at_phase t = A_single -> answer_ok w t answer bulk -> piece_ok w h t answer bulk.
Proof.
  intros Hw Et Eph [Ha _]. rewrite Eph in Ha. pose proof (wo_threads _ _ _ Hw h t Et) as (Ht1 & Ht2 & Hls). rewrite Eph in Hls.
  unfold piece_ok, handle_page_alloc. rewrite Eph. destruct (Z.ltb_spec 0 (at_nr t - len (at_pages t))) as [Hr|Hr].
  - pose proof (exact_thread_ok w answer 1 h t A_single (put_thread h (at_goto A_fail t)) false Hw Et ltac:(lia) Ha) as H.
    rewrite Eph in H. simpl in H.
    assert (Ea : forall ps, at_add ps t = at_goto A_single (at_add ps t)) by (intros; unfold at_goto, at_add; simpl; by rewrite Eph).
    revert H. destruct (nvmap_alloc_pages_exact answer 1 w) as [[ps|] w'];
      (intros H; eexists; split; [done|]; try rewrite Ea; apply H); try done;
      try (intros w2 Hw2 Et2; apply fail_ok; congruence);
      intros ps' Hps; unfold thread_ok; simpl; unfold len in *; rewrite length_app; split_and!; lia || done.
  - eexists. split; [done|]. apply goto_ok; try done.
    + unfold thread_ok. simpl. split_and!; lia || done.
    + pose proof (wo_clean_threads _ _ _ Hw h t Et) as Hc. unfold thread_clean in *. by rewrite Eph in Hc.
Qed.

Lemma colored_nr_alloc_range room : 1 <= room <= 2 ^ 26 -> 1 <= colored_nr_alloc NVMAP_MAX_COLORS room < 2 ^ 31.
Proof.
  intros H. destruct (colored_sizes 16 ltac:(lia) ltac:(done) room H) as (H1 & H2 & H3 & H4).
  change (Z.of_nat 16) with NVMAP_MAX_COLORS in *. unfold NVMAP_MAX_COLORS in *. lia.
Qed.

Lemma color_ok w h t answer bulk :
  ok w -> w_allocs w !! h = Some t -> at_phase t = A_color -> piece_ok w h t answer bulk.
Proof.
  intros Hw Et Eph. pose proof (wo_threads _ _ _ Hw h t Et) as (Ht1 & Ht2 & Ht3). rewrite Eph in Ht3. destruct Ht3 as (Hls & Hr & Hn).
  pose proof (wo_clean_threads _ _ _ Hw h t Et) as Hc. unfold thread_clean, thread_pages in Hc. rewrite Eph, Hls, app_nil_r in Hc.
  unfold piece_ok, handle_page_alloc. rewrite Eph, Hn.
  pose proof (colored_nr_alloc_range (at_nr t - len (at_pages t)) ltac:(unfold len in *; lia)) as Hnr.
  destruct (nvmap_page_pool_alloc_lots _ _ _ _ _ _) as [[[pool ps] idx] cnt] eqn:E. eexists. split; [done|].
  destruct (lots_ok w (colored_nr_alloc NVMAP_MAX_COLORS (at_nr t - len (at_pages t))) _ _ _ _ _ _ Hw ltac:(lia) E) as (G1 & G2 & G3 & G4 & G5 & G6 & G7 & G8).
  eapply (thread_step_ok w h t); simpl; try done; auto with pages.
  - unfold thread_pages. simpl. rewrite Hls. perm_lia.
  - unfold thread_clean. simpl. apply clean_app. split; [done|]. apply (G8 [] (clean_nil _)).
Qed.

Lemma csys_ok w h t answer bulk :
  ok w -> w_allocs w !! h = Some t -> at_phase t = A_csys -> answer_ok w t answer bulk -> piece_ok w h t answer bulk.
Proof.
  intros Hw Et Eph [Ha _]. rewrite Eph in Ha. pose proof (wo_threads _ _ _ Hw h t Et) as (Ht1 & Ht2 & Ht3). rewrite Eph in Ht3.
  destruct Ht3 as (Hr & Hn & Hl). destruct (pool_of_ok _ Hw) as (Hp1 & Hp2 & Hp3).
  pose proof (wo_clean_threads _ _ _ Hw h t Et) as Hc. unfold thread_clean, thread_pages in Hc. rewrite Eph in Hc.
  apply clean_app in Hc as [Hc1 Hc2].
  unfold piece_ok, handle_page_alloc. rewrite Eph, Hn. set (room := at_nr t - len (at_pages t)) in *.
  destruct (Z.ltb_spec (len (at_list t)) (colored_nr_alloc NVMAP_MAX_COLORS room)) as [Hlt|Hge].
  - pose proof (exact_thread_ok w answer 1 h t A_csys
      (fun w => put_thread h (at_goto A_fail (at_set_list [] t)) (free_pages (at_list t) w)) true Hw Et ltac:(lia) Ha) as H.
    rewrite Eph in H. simpl in H.
    assert (Ea : forall ps, at_set_list ps t = at_goto A_csys (at_set_list ps t)) by (intros; unfold at_goto, at_set_list; simpl; by rewrite Eph).
    assert (Hfail : forall w', ok w' -> w_allocs w' !! h = Some t ->
      ok (put_thread h (at_goto A_fail (at_set_list [] t)) (free_pages (at_list t) w'))).
    { intros w' Hw' Et'. destruct (pool_of_ok _ Hw') as (? & ? & ?). pose proof (wo_clean_threads _ _ _ Hw' h t Et') as Hc'.
      unfold thread_clean, thread_pages in Hc'. rewrite Eph in Hc'. apply clean_app in Hc' as [Hc' _].
      eapply (thread_step_ok w' h t); simpl; try done; auto with pages.
      - unfold thread_pages. simpl. perm_lia.
      - unfold thread_clean, thread_pages. simpl. by rewrite app_nil_r. }
    revert H. destruct (nvmap_alloc_pages_exact answer 1 w) as [[ps|] w'];
      (intros H; eexists; split; [done|]; try rewrite (Ea (at_list t ++ _)); apply H); try done;
      intros ps' Hps; unfold thread_ok; simpl; fold room; unfold len in *; rewrite length_app; split_and!; lia || done.
  - destruct (alloc_colored_pages_ok 16 addr_to_color_t19x ltac:(lia) addr_to_color_range ltac:(done)
      (vmalloc_contents env (length (at_list t))) (at_list t) room t19x_rainbow) as (out & freed & E & Hperm & Hlen & _);
      [unfold room, len in *; lia|change (Z.of_nat 16) with NVMAP_MAX_COLORS; unfold len in *; lia|apply contents_ok|].
    change (Z.of_nat 16) with NVMAP_MAX_COLORS in E. rewrite E. simpl. eexists. split; [done|].
    eapply (thread_step_ok w h t); simpl; try done; auto with pages.
    + unfold thread_pages. simpl. perm_lia.
    + unfold thread_clean, thread_pages. simpl. rewrite app_nil_r. apply clean_app. split; [done|].
      eapply clean_subset; [exact Hc2|]. intros x Hx. rewrite <- Hperm. set_solver.
    + unfold thread_ok. simpl. unfold room, len in *. rewrite length_app. split_and!; lia || done.
Qed.

Lemma clean_of_thread w h t : ok w -> w_allocs w !! h = Some t ->
  (match at_phase t with A_zero _ _ | A_czero _ _ => False | _ => True end) -> clean (w_mem w) (thread_pages t).
Proof.
  intros Hw Et Hph. pose proof (wo_clean_threads _ _ _ Hw h t Et) as Hc. unfold thread_clean in Hc. by destruct (at_phase t).
Qed.

(** The buffer gets its pages. *)
Lemma done_ok w h t answer bulk :
  ok w -> w_allocs w !! h = Some t -> w_handles w !! h = None -> at_phase t = A_done -> piece_ok w h t answer bulk.
Proof.
  intros Hw Et Eh Eph. pose proof (wo_threads _ _ _ Hw h t Et) as (Ht1 & Ht2 & Ht3). rewrite Eph in Ht3. destruct Ht3 as [_ Hls].
  pose proof (clean_of_thread w h t Hw Et ltac:(by rewrite Eph)) as Hc. unfold thread_pages in Hc. rewrite Hls, app_nil_r in Hc.
  unfold piece_ok, handle_page_alloc. rewrite Eph. eexists. split; [done|].
  pose proof (thread_perm w h t Et) as Hp. unfold thread_pages in Hp at 1. rewrite Hls, app_nil_r in Hp.
  destruct Hw as [P1 P2 P3 P4 P5 P6 P7 P8]. constructor; simpl; try done.
  - rewrite <- P1. unfold places. simpl. pose proof (gather_insert id (w_handles w) h (at_pages t)) as G.
    rewrite delete_id in G by done. simpl in G. unfold places in Hp. perm_lia.
  - intros h2 t2 [Hne E2]%lookup_delete_Some. eauto.
  - intros h2 t2 [Hne E2]%lookup_delete_Some. eauto.
  - intros h2 ps p [[<- <-]|[Hne E2]]%lookup_insert_Some Hin; [|eauto]. left. by eapply Forall_forall in Hc.
Qed.

Lemma failed_ok w h t answer bulk :
  ok w -> w_allocs w !! h = Some t -> at_phase t = A_fail -> piece_ok w h t answer bulk.
Proof.
  intros Hw Et Eph. pose proof (wo_threads _ _ _ Hw h t Et) as (Ht1 & Ht2 & Hls). rewrite Eph in Hls.
  unfold piece_ok, handle_page_alloc. rewrite Eph. eexists. split; [done|].
  pose proof (thread_perm w h t Et) as Hp. unfold thread_pages in Hp at 1. rewrite Hls, app_nil_r in Hp.
  destruct Hw as [P1 P2 P3 P4 P5 P6 P7 P8]. constructor; simpl; try done.
  - rewrite <- P1. unfold places in *. simpl. perm_lia.
  - intros h2 t2 [Hne E2]%lookup_delete_Some. eauto.
  - intros h2 t2 [Hne E2]%lookup_delete_Some. eauto.
Qed.

(** A step of the pool, the thread that zeroes pages and the system. *)
Lemma pool_step_ok w w' :
  ok w -> w_allocs w' = w_allocs w -> w_handles w' = w_handles w -> w_other w' = w_other w ->
  cleaner (w_mem w) (w_mem w') ->
  pool_pages (w_pool w') ++ bg_pages (w_bg w') ++ w_sys w' ≡ₚ pool_pages (w_pool w) ++ bg_pages (w_bg w) ++ w_sys w ->
  pool_ok (len (bg_pages (w_bg w'))) (w_pool w') -> pages_per_big_pg (w_pool w') = 16 ->
  clean (w_mem w') (clean_pages (w_pool w')) -> clean (w_mem w') (bg_clean (w_bg w')) -> ok w'.
Proof.
  intros [P1 P2 P3 P4 P5 P6 P7 P8] Ea Eh Eo Hm Hperm Hp Hppb Hc1 Hc2. constructor; try done.
  - rewrite <- P1. unfold places. rewrite Ea, Eh, Eo. perm_lia.
  - intros h t. rewrite Ea. intros E. eapply clean_cleaner; [done|eauto].
  - intros h t. rewrite Ea. eauto.
  - intros h ps p. rewrite Eh. intros E Hin. destruct (Hm p) as [?| ->]; eauto.
Qed.

(** Pages leave the pool for the system. *)
Lemma pool_free_ok w pool freed :
  ok w -> pool_ok (len (bg_pages (w_bg w))) pool -> pages_per_big_pg pool = pages_per_big_pg (w_pool w) ->
  pool_pages (w_pool w) ≡ₚ freed ++ pool_pages pool -> clean_pages pool ⊆ clean_pages (w_pool w) ->
  ok (free_pages freed (set_pool pool w)).
Proof.
  intros Hw Hp Hppb Hperm Hc. destruct (pool_of_ok _ Hw) as (? & ? & ?).
  apply (pool_step_ok w); simpl; try done; auto with pages; [perm_lia|congruence|by eapply clean_subset|apply Hw].
Qed.

Lemma pool_small w : ok w -> count (w_pool w) + to_zero (w_pool w) < 2 ^ 31.
Proof.
  intros Hw. destruct (pool_of_ok _ Hw) as (Hp & _). rewrite <- (pool_length _ _ Hp).
  by apply (places_small w _ (bg_pages (w_bg w) ++ gather thread_pages (w_allocs w) ++ gather id (w_handles w) ++ w_sys w ++ w_other w)).
Qed.

Lemma shrink_ok w nr : ok w -> 0 <= nr ->
  exists r pool freed, nvmap_page_pool_free_pages_locked (pe_numa env) (w_pool w) nr = Some (r, pool, freed) /\
    ok (free_pages freed (set_pool pool w)).
Proof.
  intros Hw Hnr. destruct (pool_of_ok _ Hw) as (Hp & _).
  destruct (free_pages_spec (pe_numa env) _ _ nr Hp Hnr) as (r & pool & fr & -> & H1 & H2 & H3 & _ & _ & _ & H4).
  eexists _, _, _. split; [done|]. by apply pool_free_ok.
Qed.

Lemma resize_ok w size : ok w -> is_u32 size ->
  exists pool freed, pool_size_set (pe_numa env) (w_pool w) size = Some (pool, freed) /\ ok (free_pages freed (set_pool pool w)).
Proof.
  intros Hw Hs. destruct (pool_of_ok _ Hw) as (Hp & _). pose proof (pool_small w Hw). unfold pool_size_set. case_if.
  - eexists _, _. split; [done|]. by apply pool_free_ok.
  - destruct (resize_spec (pe_numa env) _ _ size Hp ltac:(lia) ltac:(by unfold is_u32 in Hs)) as (pool & fr & -> & H1 & H2 & H3 & _ & _ & H4).
    eexists _, _. split; [done|]. by apply pool_free_ok.
Qed.

Lemma bg_ok w : ok w -> exists w', bg_step env w = Some w' /\ ok w'.
Proof.
  intros Hw. destruct (pool_of_ok _ Hw) as (Hp1 & Hp2 & Hp3). pose proof (wo_clean_bg _ _ _ Hw) as Hcb.
  unfold bg_step. destruct (w_bg w) as [|ps|ps] eqn:Eb; simpl in *.
  - eexists. split; [done|]. destruct (nvmap_bg_should_run (w_pool w)); [|done].
    pose proof (bg_take_spec (pe_numa env) (w_pool w) Hp1) as H. destruct (bg_take _ _) as [pool ps].
    destruct H as (H1 & H2 & H3 & H4).
    apply (pool_step_ok w); simpl; rewrite ?Eb; try done; auto with pages.
    + unfold pool_pages. simpl. rewrite H3. perm_lia.
    + congruence.
    + by rewrite H3.
  - eexists. split; [done|]. apply (pool_step_ok w); simpl; rewrite ?Eb; try done; auto with pages.
    eapply clean_cleaner; [apply cleaner_zero|done].
  - destruct (bg_fill_spec (w_enable_pp w) (w_pool w) ps Hp1) as (pool & fr & -> & H1 & H2 & H3 & H4). simpl.
    eexists. split; [done|]. apply (pool_step_ok w); simpl; rewrite ?Eb; try done; auto with pages.
    + unfold pool_pages. simpl. rewrite H4. perm_lia.
    + congruence.
    + assert (H : clean (w_mem w) (clean_pages pool ++ fr)); [|by apply clean_app in H as [? _]].
      eapply clean_perm; [symmetry; exact H3|]. by apply clean_app.
Qed.

Lemma enable_ok w b : ok w -> exists w', exec env (E_enable b) w = Some w' /\ ok w'.
Proof.
  intros Hw. destruct (pool_of_ok _ Hw) as (Hp1 & Hp2 & Hp3). simpl.
  assert (Hen : ok (set_enable b w)) by (destruct Hw; by constructor). destruct b; [eauto|].
  unfold nvmap_page_pool_clear.
  destruct (shrink_ok (set_enable false w) (u32 (count (w_pool w) + to_zero (w_pool w))) Hen) as (r & pool & fr & E & Hok).
  { pose proof (u32_range (count (w_pool w) + to_zero (w_pool w))). unfold is_u32 in *. lia. }
  simpl in E. rewrite E. simpl. eauto.
Qed.

Lemma filter_split (P : Z -> Prop) `{forall x, Decision (P x)} (l : list Z) :
  filter P l ++ filter (fun x => ~ P x) l ≡ₚ l.
Proof.
  induction l as [|x l IH]; [done|]. destruct (decide (P x)).
  - rewrite filter_cons_True, filter_cons_False by tauto. simpl. by rewrite IH.
  - rewrite filter_cons_False, filter_cons_True by tauto. rewrite <- Permutation_middle. by rewrite IH.
Qed.

Lemma free_ok w h ps shared : ok w -> w_handles w !! h = Some ps -> ok (nvmap_handle_free h ps shared w).
Proof.
  intros Hw Eh. destruct (pool_of_ok _ Hw) as (Hp1 & Hp2 & Hp3). unfold nvmap_handle_free.
  pose proof (gather_delete id _ _ _ Eh) as G. simpl in G.
  pose proof (pool_length _ _ Hp1) as HL.
  assert (Hs : len (pool_pages (w_pool w) ++ ps) < 2 ^ 31).
  { apply (places_small w _ (bg_pages (w_bg w) ++ gather thread_pages (w_allocs w) ++ gather id (delete h (w_handles w)) ++ w_sys w ++ w_other w)); [done|].
    unfold places. perm_lia. }
  unfold len in *. rewrite length_app in Hs.
  assert (0 <= count (w_pool w)) by (rewrite <- (clean_count _ _ Hp1); lia).
  pose proof (fill_lots_spec shared _ (w_pool w) ps Hp1 ltac:(lia)) as HF.
  destruct (nvmap_page_pool_fill_lots _ _ _ _) as [[ret pool] dropped]. destruct HF as (H1 & H2 & H3 & H4 & H5).
  pose proof (filter_split (fun x => shared x = true) (drop (Z.to_nat ret) ps)) as F.
  pose proof (reflexive_eq (R := Permutation) _ _ (take_drop (Z.to_nat ret) ps)) as D.
  destruct Hw as [P1 P2 P3 P4 P5 P6 P7 P8]. constructor; simpl; try done.
  - rewrite <- P1. unfold places, pool_pages. simpl. rewrite H4. perm_lia.
  - congruence.
  - by rewrite H4.
  - intros h2 ps2 p [Hne E2]%lookup_delete_Some. eauto.
Qed.

Lemma release_ok w page : ok w -> page ∈ w_other w -> ok (free_pages [page] (set_other (remove_pages [page] (w_other w)) w)).
Proof.
  intros Hw Hin. assert (Hnd : NoDup (w_other w)).
  { pose proof (places_NoDup w Hw) as H. unfold places in H. rewrite !(assoc (++)) in H. by apply NoDup_app in H as (_ & _ & ?). }
  pose proof (remove_pages_perm [page] (w_other w) Hnd ltac:(apply NoDup_singleton) ltac:(set_solver)) as Hp.
  destruct Hw as [P1 P2 P3 P4 P5 P6 P7 P8]. constructor; simpl; try done. rewrite <- P1. unfold places. simpl. perm_lia.
Qed.

(** An owner's write changes nothing that has to be zero. *)
Lemma write_ok w h ps page : ok w -> w_handles w !! h = Some ps -> page ∈ ps -> ok (set_mem (<[page := h]> (w_mem w)) w).
Proof.
  intros Hw Eh Hin. pose proof (places_NoDup w Hw) as Hnd.
  assert (Hout : forall l k, places w ≡ₚ l ++ ps ++ k -> clean (w_mem w) l -> clean (<[page := h]> (w_mem w)) l).
  { intros l k E Hc. rewrite E in Hnd. apply NoDup_app in Hnd as (_ & Hd & _). apply Forall_forall. intros x Hx.
    rewrite lookup_insert_ne; [by eapply Forall_forall in Hc|]. intros <-. apply (Hd page Hx). set_solver. }
  pose proof (gather_delete id _ _ _ Eh) as G. simpl in G. pose proof Hw as [P1 P2 P3 P4 P5 P6 P7 P8]. constructor; simpl; try done.
  - eapply Hout; [|done]. unfold places, pool_pages.
    instantiate (1 := zero_list (w_pool w) ++ bg_pages (w_bg w) ++ gather thread_pages (w_allocs w) ++
      gather id (delete h (w_handles w)) ++ w_sys w ++ w_other w). perm_lia.
  - assert (Eb : exists b, bg_pages (w_bg w) ≡ₚ bg_clean (w_bg w) ++ b).
    { destruct (w_bg w) as [|b|b]; simpl; [by exists []|by exists b|exists []; by rewrite app_nil_r]. }
    destruct Eb as [b Eb]. eapply Hout; [|done]. unfold places.
    instantiate (1 := b ++ pool_pages (w_pool w) ++ gather thread_pages (w_allocs w) ++
      gather id (delete h (w_handles w)) ++ w_sys w ++ w_other w). perm_lia.
  - intros h2 t E2. pose proof (gather_delete thread_pages _ _ _ E2) as G2.
    assert (Et : exists b, thread_pages t ≡ₚ thread_clean t ++ b).
    { pose proof (P7 h2 t E2) as (_ & _ & Ht). unfold thread_clean, thread_pages. destruct (at_phase t) as [| | |idx cnt| | | |idx cnt| | |];
        try (exists []; by rewrite app_nil_r).
      - destruct Ht as (? & ? & ->). exists (pending_zero idx cnt (at_pages t)). rewrite app_nil_r.
        pose proof (pending_split idx cnt (at_pages t)) as S. specialize (S ltac:(lia) ltac:(lia)). perm_lia.
      - destruct Ht as (? & ? & _). exists (pending_zero idx cnt (at_list t)).
        pose proof (pending_split idx cnt (at_list t)) as S. specialize (S ltac:(lia) ltac:(lia)). perm_lia. }
    destruct Et as [b Et]. eapply Hout; [|eauto]. unfold places.
    instantiate (1 := b ++ pool_pages (w_pool w) ++ bg_pages (w_bg w) ++ gather thread_pages (delete h2 (w_allocs w)) ++
      gather id (delete h (w_handles w)) ++ w_sys w ++ w_other w). perm_lia.
  - intros h2 ps2 p E2 Hp2. destruct (decide (p = page)) as [->|Hne]; [|rewrite lookup_insert_ne by done; eauto].
    rewrite lookup_insert_eq. right. f_equal. destruct (decide (h2 = h)) as [->|Hne]; [done|]. exfalso.
    assert (E3 : delete h (w_handles w) !! h2 = Some ps2) by (by rewrite lookup_delete_ne).
    pose proof (gather_elem id _ _ _ _ E3 Hp2) as Hg.
    assert (E : places w ≡ₚ ps ++ gather id (delete h (w_handles w)) ++ pool_pages (w_pool w) ++ bg_pages (w_bg w) ++
      gather thread_pages (w_allocs w) ++ w_sys w ++ w_other w) by (unfold places; perm_lia).
    rewrite E in Hnd. apply NoDup_app in Hnd as (_ & Hd & _). apply (Hd page Hin). apply elem_of_app. by left.
Qed.

Lemma create_ok w nr contig numa : ok w -> w_allocs w !! w_next w = None -> 1 <= nr <= 2 ^ 26 ->
  ok (set_next (w_next w + 1) (put_thread (w_next w) (AllocThread nr contig numa [] [] A_start) w)).
Proof.
  intros [P1 P2 P3 P4 P5 P6 P7 P8] Ef Hnr. constructor; simpl; try done.
  - rewrite <- P1. unfold places. simpl.
    pose proof (gather_insert thread_pages (w_allocs w) (w_next w) (AllocThread nr contig numa [] [] A_start)) as G.
    rewrite delete_id in G by done. simpl in G. perm_lia.
  - intros h t [[<- <-]|[Hne E]]%lookup_insert_Some; [|eauto]. constructor.
  - intros h t [[<- <-]|[Hne E]]%lookup_insert_Some; [|eauto]. unfold thread_ok, len. simpl. split_and!; lia || done.
Qed.

(** ** Identities *)
Record ids_ok (w : world) : Prop := {
  id_allocs h t : w_allocs w !! h = Some t -> h < w_next w /\ w_handles w !! h = None;
  id_handles h ps : w_handles w !! h = Some ps -> h < w_next w
}.

Lemma thread_shape w h t answer bulk w' :
  handle_page_alloc env h t answer bulk w = Some w' ->
  w_next w' = w_next w /\
  ((exists t', w_allocs w' = <[h := t']> (w_allocs w)) /\ w_handles w' = w_handles w \/
   w_allocs w' = delete h (w_allocs w) /\ (w_handles w' = w_handles w \/ exists ps, w_handles w' = <[h := ps]> (w_handles w))).
Proof.
  unfold handle_page_alloc. intros E.
  destruct (at_phase t); repeat case_match; try (destruct answer; simpl in *; simplify_eq); simplify_option_eq;
    repeat case_match; simplify_eq/=; eauto 10.
Qed.

Lemma ids_alloc w h t answer bulk w' :
  ids_ok w -> w_allocs w !! h = Some t -> handle_page_alloc env h t answer bulk w = Some w' -> ids_ok w'.
Proof.
  intros [I1 I2] Et E. destruct (thread_shape _ _ _ _ _ _ E) as (En & [((t' & Ea) & Eh)|(Ea & Eh)]).
  - constructor; rewrite En, Eh; [rewrite Ea|done]. intros h2 t2 [[<- <-]|[Hne E2]]%lookup_insert_Some; eauto.
  - assert (Eh2 : forall h2, h2 <> h -> w_handles w' !! h2 = w_handles w !! h2).
    { intros h2 Hne. destruct Eh as [->|(ps & ->)]; [done|by rewrite lookup_insert_ne]. }
    constructor; rewrite En.
    + rewrite Ea. intros h2 t2 [Hne E2]%lookup_delete_Some. rewrite Eh2 by done. eauto.
    + intros h2 ps2 E2. destruct (decide (h2 = h)) as [->|Hne]; [by eapply I1|]. rewrite Eh2 in E2 by done. eauto.
Qed.

(** ** Every event *)
Definition inv (w : world) : Prop := ok w /\ ids_ok w.

Lemma ids_same w w' : ids_ok w -> w_allocs w' = w_allocs w -> w_handles w' = w_handles w -> w_next w' = w_next w -> ids_ok w'.
Proof. intros [I1 I2] Ea Eh En. constructor; rewrite ?Ea, ?Eh, En; done. Qed.

Lemma alloc_event_ok w h t answer bulk :
  inv w -> w_allocs w !! h = Some t -> answer_ok w t answer bulk -> piece_ok w h t answer bulk.
Proof.
  intros [Hw Hi] Et Ha. destruct (at_phase t) as [| | |idx cnt| | | |idx cnt| | |] eqn:Eph;
    eauto using start_ok, big_ok, small_ok, zero_ok, bulk_ok, single_ok, color_ok, czero_ok, csys_ok, failed_ok.
  - by apply start_ok.
  - apply done_ok; try done. by eapply id_allocs.
Qed.

Lemma exec_ok w e : inv w -> event_ok w e -> exists w', exec env e w = Some w' /\ inv w'.
Proof.
  intros [Hw Hi] He. destruct e as [nr contig numa|h answer bulk|h page|h shared|page| |nr|size|b]; simpl in He.
  - eexists. split; [done|]. destruct Hi as [I1 I2].
    assert (Ef : w_allocs w !! w_next w = None).
    { destruct (w_allocs w !! w_next w) as [t|] eqn:E; [|done]. destruct (I1 _ _ E). lia. }
    split; [by apply create_ok|]. constructor; simpl.
    + intros h t [[<- <-]|[Hne E]]%lookup_insert_Some; [split; [lia|]|destruct (I1 _ _ E); split; [lia|done]].
      destruct (w_handles w !! w_next w) as [ps|] eqn:E; [|done]. specialize (I2 _ _ E). lia.
    + intros h ps E. specialize (I2 _ _ E). lia.
  - destruct He as (t & Et & Ha). simpl. rewrite Et. simpl.
    destruct (alloc_event_ok w h t answer bulk) as (w' & E & Hw'); try done. exists w'. split; [done|].
    split; [done|by eapply ids_alloc].
  - destruct He as (ps & Eh & Hin). eexists. split; [done|]. split; [by eapply write_ok|by eapply ids_same].
  - destruct He as [ps Eh]. simpl. rewrite Eh. eexists. split; [done|]. split; [by apply free_ok|].
    unfold nvmap_handle_free. repeat case_match. destruct Hi as [I1 I2]. constructor; simpl.
    + intros h2 t E. destruct (I1 _ _ E). split; [done|]. by rewrite lookup_delete_None; right.
    + intros h2 ps2 [Hne E]%lookup_delete_Some. eauto.
  - eexists. split; [done|]. split; [by apply release_ok|by eapply ids_same].
  - destruct (bg_ok w Hw) as (w' & E & Hw'). exists w'. split; [done|]. split; [done|]. unfold bg_step in E.
    repeat case_match; simplify_option_eq; repeat case_match; simplify_eq/=; by eapply ids_same.
  - simpl. unfold nvmap_page_pool_scan_objects. destruct (shrink_ok w nr Hw He) as (r & pool & fr & -> & Hok). simpl.
    eexists. split; [done|]. split; [done|by eapply ids_same].
  - simpl. destruct (resize_ok w size Hw He) as (pool & fr & -> & Hok). simpl. eexists. split; [done|]. split; [done|by eapply ids_same].
  - destruct (enable_ok w b Hw) as (w' & E & Hw'). exists w'. split; [done|]. split; [done|]. simpl in E.
    destruct b; [by simplify_eq; eapply ids_same|]. simplify_option_eq. repeat case_match. simplify_eq/=. by eapply ids_same.
Qed.

Lemma start_inv totalram contents w :
  0 <= totalram -> start totalram all contents = Some w -> inv w.
Proof.
  intros Ht. unfold start. destruct (nvmap_page_pool_init totalram) as [|pool] eqn:E; [done|]. intros [= <-].
  destruct (pool_init_ok totalram pool Ht E) as (H1 & H2 & H3).
  assert (Hc : clean_pages pool = []) by (unfold pool_pages in H2; by apply app_nil in H2 as [? _]).
  split; [|by constructor; simpl; intros ??; rewrite lookup_empty].
  constructor; simpl; try done; try (intros ??; by rewrite lookup_empty).
  - unfold places. simpl. rewrite H2. unfold gather. rewrite !map_to_list_empty. simpl. by rewrite app_nil_r.
  - rewrite Hc. apply clean_nil.
  - auto with pages.
Qed.
End steps.

(** * Executions *)
#[export] Instance answer_ok_dec w t answer bulk : Decision (answer_ok w t answer bulk).
Proof.
  unfold answer_ok. apply and_dec; [|apply _]. destruct answer as [p|].
  - destruct (decide (Forall (fun x => x ∈ w_sys w)
      (exact_block p (match at_phase t with A_start => at_nr t | A_big => pages_per_big_pg (w_pool w) | _ => 1 end)))) as [H|H].
    + left. intros q [= <-] x Hx. by eapply Forall_forall in H.
    + right. intros Hq. apply H, Forall_forall. intros x Hx. by apply (Hq p eq_refl).
  - left. done.
Defined.
#[export] Instance event_ok_dec w e : Decision (event_ok w e).
Proof.
  destruct e as [nr contig numa|h answer bulk|h page|h shared|page| |nr|size|b]; simpl; try apply _.
  - destruct (w_allocs w !! h) as [t|]; [|right; naive_solver].
    destruct (decide (answer_ok w t answer bulk)); [left; eauto|right; naive_solver].
  - destruct (w_handles w !! h) as [ps|]; [|right; naive_solver].
    destruct (decide (page ∈ ps)); [left; eauto|right; naive_solver].
Defined.

Fixpoint run (env : pages_env) (es : list event) (w : world) : option world :=
  match es with
  | [] => Some w
  | e :: es => if decide (event_ok w e) then exec env e w ≫= run env es else None
  end.
Lemma run_reachable env es w w' : run env es w = Some w' -> rtc (wstep env) w w'.
Proof.
  revert w. induction es as [|e es IH]; simpl; intros w E; [by simplify_eq|].
  case_decide as He; [|done]. destruct (exec env e w) as [w1|] eqn:E1; simpl in E; [|done].
  eapply rtc_l; [by exists e|auto].
Qed.

(** C11. Pages of buffers, whatever the interleaving of allocations, frees, the zeroing thread, the
    shrinker and changes of the pool's size: every page of the machine is in exactly one
    place, so no two buffers share a page and none is lost; a page of a buffer contains
    zeros or what that buffer's owner wrote, never another's data; the counters of the
    pool are exact and its zeroed pages within the limit; and no thread runs into a BUG(). *)
Theorem buffer_pages_isolated env totalram all contents w0 w :
  NoDup all -> len all < 2 ^ 31 -> s_nr_colors env <= 1 \/ s_nr_colors env = NVMAP_MAX_COLORS ->
  (forall k, length (vmalloc_contents env k) = k) -> 0 <= totalram ->
  start totalram all contents = Some w0 -> rtc (wstep env) w0 w ->
  places w ≡ₚ all /\
  (forall h ps, w_handles w !! h = Some ps -> NoDup ps /\
     (forall h' ps', w_handles w !! h' = Some ps' -> h <> h' -> ps ## ps') /\
     forall p, p ∈ ps -> w_mem w !! p = None \/ w_mem w !! p = Some h) /\
  (let pool := w_pool w in
   count pool = len (page_list pool) + pages_per_big_pg pool * len (page_list_bp pool) /\
   to_zero pool = len (zero_list pool) /\ under_zero pool = len (bg_pages (w_bg w)) /\ count pool <= pool_max pool) /\
  forall e, event_ok w e -> exists w', exec env e w = Some w'.
Proof.
  intros Hall Hsm Hcol Hcon Htr Hst Hreach.
  assert (Hinv : inv env all w).
  { eapply (rtc_preserves _ (inv env all)); [exact Hreach|by eapply start_inv|].
    intros a b Ha (e & He & E). destruct (exec_ok env all Hall Hsm Hcol Hcon a e Ha He) as (b' & E' & Hb). congruence. }
  pose proof Hinv as [Hw _]. split_and!.
  - apply Hw.
  - intros h ps Eh. pose proof (places_NoDup env all Hall w Hw) as Hnd.
    pose proof (gather_delete id _ _ _ Eh) as G. simpl in G.
    assert (E : places w ≡ₚ ps ++ gather id (delete h (w_handles w)) ++ pool_pages (w_pool w) ++ bg_pages (w_bg w) ++
      gather thread_pages (w_allocs w) ++ w_sys w ++ w_other w) by (unfold places; perm_lia).
    rewrite E in Hnd. apply NoDup_app in Hnd as (Hps & Hd & _). split_and!; [done| |by intros p Hp; eapply wo_handles].
    intros h' ps' Eh' Hne x Hx Hx'. apply (Hd x Hx), elem_of_app. left.
    apply (gather_elem id (delete h (w_handles w)) h' ps'); [by rewrite lookup_delete_ne|done].
  - cbv zeta. destruct (wo_pool _ _ _ Hw) as [C1 C2 C3 _ C5 _ _ _]. split_and!; try done. apply C5.
  - intros e He. destruct (exec_ok env all Hall Hsm Hcol Hcon w e Hinv He) as (w' & E & _). eauto.
Qed.

(** A buffer of 35 pages is allocated, written to and freed, the zeroing thread gets its
    pages, and the next buffer is made of them. *)
Definition demo_env : pages_env := PagesEnv (NumaEnv (fun _ => 0) 0) 1 (fun k => replicate k 0).
Definition demo_sys : list Z := seqZ 0 64.
Definition demo_events : list event :=
  [E_create 35 false 0; E_alloc 0 None []; E_alloc 0 (Some 16) []; E_alloc 0 None []; E_alloc 0 None [];
   E_alloc 0 None []; E_alloc 0 None [40; 41; 42; 43]; E_alloc 0 (Some 3) []] ++
  ((fun k => E_alloc 0 (Some k) []) <$> seqZ 48 14) ++
  [E_alloc 0 None []; E_alloc 0 None []; E_write 0 17; E_write 0 41; E_free 0 (fun p => p =? 41); E_bg; E_bg; E_bg;
   E_create 20 false 0; E_alloc 1 None []; E_alloc 1 None []; E_alloc 1 None []; E_alloc 1 None []; E_alloc 1 None [];
   E_alloc 1 None []; E_alloc 1 None []].
Definition demo_start : world := default (World (PagePool [] [] [] 0 0 0 0 0 0 0) true ∅ [] [] BgIdle ∅ ∅ 0) (start 1024 demo_sys ∅).
Definition demo_end : option world := run demo_env demo_events demo_start.

Lemma demo_reachable : exists w, demo_end = Some w /\ rtc (wstep demo_env) demo_start w /\
  w_handles w !! 1 = Some (seqZ 16 16 ++ [40; 42; 43; 3]) /\ w_mem w !! 41 = Some 0.
Proof.
  destruct demo_end as [w|] eqn:E; [|exfalso; vm_compute in E; discriminate].
  exists w. split; [done|]. split; [by eapply run_reachable|].
  assert (Hv : (fun w => (w_handles w !! 1, w_mem w !! 41)) <$> demo_end = Some (Some (seqZ 16 16 ++ [40; 42; 43; 3]), Some 0))
    by (vm_compute; reflexivity).
  rewrite E in Hv. unfold fmap, option_fmap, option_map in Hv. injection Hv as H1 H2. exact (conj H1 H2).
Qed.

Lemma buffer_pages_isolated_witness : exists w,
  rtc (wstep demo_env) demo_start w /\ w_handles w !! 1 = Some (seqZ 16 16 ++ [40; 42; 43; 3]) /\
  places w ≡ₚ demo_sys /\ (forall p, p ∈ seqZ 16 16 ++ [40; 42; 43; 3] -> w_mem w !! p = None \/ w_mem w !! p = Some 1).
Proof.
  destruct demo_reachable as (w & _ & Hr & Hh & _). exists w. split; [exact Hr|]. split; [exact Hh|].
  assert (Hnd : NoDup demo_sys) by apply NoDup_seqZ.
  destruct (buffer_pages_isolated demo_env 1024 demo_sys ∅ demo_start w Hnd) as (H1 & H2 & _).
  - reflexivity.
  - left. reflexivity.
  - intros k. apply length_replicate.
  - discriminate.
  - reflexivity.
  - exact Hr.
  - split; [exact H1|]. apply (H2 1 _ Hh).
Defined.

(** While pages are being zeroed, the limit can be lowered below their number.  The room
    that is then computed for freed pages wraps around, and the pool takes pages far beyond
    its limit. *)
Definition over_limit_events : list event :=
  [E_create 40 true 0; E_alloc 0 (Some 0) []; E_alloc 0 None []; E_free 0 (fun _ => false); E_bg;
   E_create 4 true 0; E_alloc 1 (Some 40) []; E_alloc 1 None []; E_resize 2; E_free 1 (fun _ => false)].
Lemma pool_over_limit : exists w, rtc (wstep demo_env) demo_start w /\
  to_zero (w_pool w) = 4 /\ pool_max (w_pool w) = 2.
Proof.
  destruct (run demo_env over_limit_events demo_start) as [w|] eqn:E; [|exfalso; vm_compute in E; discriminate].
  exists w. split; [by eapply run_reachable|].
  assert (Hv : (fun w => (to_zero (w_pool w), pool_max (w_pool w))) <$> run demo_env over_limit_events demo_start = Some (4, 2))
    by (vm_compute; reflexivity).
  rewrite E in Hv. unfold fmap, option_fmap, option_map in Hv. injection Hv as H1 H2. exact (conj H1 H2).
Qed.
