(* ===== verification/NvmapHandle.v ===== *)
(** Handles of nvmap, the references that processes hold to them, and their dma-bufs
    (src/drivers/video/tegra/nvmap: nvmap_handle.c, nvmap_sci_ipc.c, nvmap_id_array.c, parts
    of nvmap_core.c, nvmap_alloc.c, nvmap_dev.c, nvmap_dmabuf.c and nvmap_ioctl.c).

    A handle is a buffer.  A client (a process) holds references to handles in a tree, has
    numbers for them ([ida]), and may turn them into file descriptors.  A handle has up to
    two dma-bufs, one for access and one for read access only; a reference counts for the
    dma-buf of its kind.  A handle can be put under a number for a peer (sci-ipc), which
    imports it.  This file has the functions of the code, in a monad over the state where
    [None] is an access to something freed, or a BUG().  [NvmapShare] shows what they keep.

    An ioctl runs to its end before the next one; what the kernel defers, the release of a
    dma-buf whose last reference is gone, is an event of its own.  The configuration is that
    of Makefile.memory.configs: handles are numbers ([NVMAP_CONFIG_HANDLE_AS_ID]). *)
From S2P Require Import Prelude.

(** * State *)

(** A client's tree of references (struct rb_root); nodes are the addresses of
    references, compared by the address of their handle. *)
Inductive tree := Leaf | Node (l : tree) (ref : Z) (r : tree).
Fixpoint inorder (t : tree) : list Z :=
  match t with Leaf => [] | Node l x r => inorder l ++ x :: inorder r end.

(** A pointer to a dma-buf: NULL, an error (ERR_PTR), or the address. *)
Inductive dma_ptr := DNull | DErr | DBuf (d : Z).

Record nvmap_handle := Handle {
  h_ref : Z;
  share_count : Z;
  h_alloc : bool;
  h_dmabuf : dma_ptr;
  h_dmabuf_ro : dma_ptr
}.
(** A dma-buf with its file's count and its [struct nvmap_handle_info]. *)
Record dma_buf := DmaBuf { f_count : Z; info_handle : Z; info_is_ro : bool }.
Record nvmap_handle_ref := HandleRef { ref_handle : Z; dupes : Z; ref_is_ro : bool }.
Record nvmap_client := Client { handle_refs : tree; ida : gmap Z Z }.
Record nvmap_sci_ipc_entry := SciEntry {
  entry_handle : Z; sci_ipc_id : Z; peer_vuid : Z; entry_flags : Z; entry_refcount : Z }.

(** Addresses are keys; what is freed is taken out.  [st_entries] is the order of the tree
    of entries; [st_fds] are the dma-bufs behind file descriptors. *)
Record state := State {
  st_handles : gmap Z nvmap_handle;
  st_bufs : gmap Z dma_buf;
  st_refs : gmap Z nvmap_handle_ref;
  st_clients : gmap Z nvmap_client;
  st_entries : list nvmap_sci_ipc_entry;
  st_fds : list Z;
  free_sid_list : list Z;
  unq_id : Z;
  xa_start : Z
}.
Definition set_handles x s := State x (st_bufs s) (st_refs s) (st_clients s) (st_entries s) (st_fds s) (free_sid_list s) (unq_id s) (xa_start s).
Definition set_bufs x s := State (st_handles s) x (st_refs s) (st_clients s) (st_entries s) (st_fds s) (free_sid_list s) (unq_id s) (xa_start s).
Definition set_refs x s := State (st_handles s) (st_bufs s) x (st_clients s) (st_entries s) (st_fds s) (free_sid_list s) (unq_id s) (xa_start s).
Definition set_clients x s := State (st_handles s) (st_bufs s) (st_refs s) x (st_entries s) (st_fds s) (free_sid_list s) (unq_id s) (xa_start s).
Definition set_entries x s := State (st_handles s) (st_bufs s) (st_refs s) (st_clients s) x (st_fds s) (free_sid_list s) (unq_id s) (xa_start s).
Definition set_fds x s := State (st_handles s) (st_bufs s) (st_refs s) (st_clients s) (st_entries s) x (free_sid_list s) (unq_id s) (xa_start s).
Definition set_sids x s := State (st_handles s) (st_bufs s) (st_refs s) (st_clients s) (st_entries s) (st_fds s) x (unq_id s) (xa_start s).
Definition set_unq x s := State (st_handles s) (st_bufs s) (st_refs s) (st_clients s) (st_entries s) (st_fds s) (free_sid_list s) x (xa_start s).
Definition set_xa_start x s := State (st_handles s) (st_bufs s) (st_refs s) (st_clients s) (st_entries s) (st_fds s) (free_sid_list s) (unq_id s) x.

Definition set_ref n h := Handle n (share_count h) (h_alloc h) (h_dmabuf h) (h_dmabuf_ro h).
Definition set_share n h := Handle (h_ref h) n (h_alloc h) (h_dmabuf h) (h_dmabuf_ro h).
Definition set_alloc b h := Handle (h_ref h) (share_count h) b (h_dmabuf h) (h_dmabuf_ro h).
(** [is_ro ? h->dmabuf_ro : h->dmabuf] *)
Definition dmabuf_of (is_ro : bool) (h : nvmap_handle) : dma_ptr := if is_ro then h_dmabuf_ro h else h_dmabuf h.
Definition set_dmabuf (is_ro : bool) p h :=
  if is_ro then Handle (h_ref h) (share_count h) (h_alloc h) (h_dmabuf h) p
  else Handle (h_ref h) (share_count h) (h_alloc h) p (h_dmabuf_ro h).
Definition set_f_count n b := DmaBuf n (info_handle b) (info_is_ro b).
Definition set_dupes n r := HandleRef (ref_handle r) n (ref_is_ro r).
Definition set_is_ro b r := HandleRef (ref_handle r) (dupes r) b.
Definition set_tree t c := Client t (ida c).
Definition set_ida i c := Client (handle_refs c) i.
Definition set_refcount n e := SciEntry (entry_handle e) (sci_ipc_id e) (peer_vuid e) (entry_flags e) n.

(** * Functions over the state *)
Definition M (A : Type) : Type := state -> option (A * state).
#[export] Instance M_ret : MRet M := fun A a s => Some (a, s).
#[export] Instance M_bind : MBind M := fun A B k m s => match m s with None => None | Some (a, s) => k a s end.
Definition crash {A} : M A := fun _ => None.
Definition get {A} (f : state -> A) : M A := fun s => Some (f s, s).
Definition modify (f : state -> state) : M unit := fun s => Some (tt, f s).
(** What must be there. *)
Definition need {A} (x : option A) : M A := match x with Some a => mret a | None => crash end.

Definition get_handle (h : Z) : M nvmap_handle := hs ← get st_handles; need (hs !! h).
Definition upd_handle (h : Z) (f : nvmap_handle -> nvmap_handle) : M unit :=
  x ← get_handle h; modify (fun s => set_handles (<[h := f x]> (st_handles s)) s).
Definition get_buf (d : Z) : M dma_buf := bs ← get st_bufs; need (bs !! d).
Definition upd_buf (d : Z) (f : dma_buf -> dma_buf) : M unit :=
  x ← get_buf d; modify (fun s => set_bufs (<[d := f x]> (st_bufs s)) s).
Definition get_ref (r : Z) : M nvmap_handle_ref := rs ← get st_refs; need (rs !! r).
Definition upd_ref (r : Z) (f : nvmap_handle_ref -> nvmap_handle_ref) : M unit :=
  x ← get_ref r; modify (fun s => set_refs (<[r := f x]> (st_refs s)) s).
Definition get_client (c : Z) : M nvmap_client := cs ← get st_clients; need (cs !! c).
Definition upd_client (c : Z) (f : nvmap_client -> nvmap_client) : M unit :=
  x ← get_client c; modify (fun s => set_clients (<[c := f x]> (st_clients s)) s).

(** The kernel's parts: rebalancing a tree into which a node was linked, taking a node out
    of a tree, and the choice of a number in the range from a start to U32_MAX, or an error. *)
Record kernel := Kernel {
  rb_insert_color : Z -> tree -> tree;
  rb_erase : Z -> tree -> tree;
  xa_alloc : gmap Z Z -> Z -> Z + Z
}.
(** What allocations give during an ioctl: addresses, or nothing; whether the release of a
    dma-buf for which the ioctl waits happens in time; whether data can be copied to the
    user, and a descriptor be had. *)
Record answers := Answers {
  a_handle : option Z; a_ref : option Z; a_buf : option Z; a_entry : bool; a_sid : bool;
  a_waited : bool; a_copied : bool; a_fd : bool }.

Definition U32_MAX : Z := 2 ^ 32 - 1.
Definition EBADF : Z := 9.
Definition EEXIST : Z := 17.
Definition ENODEV : Z := 19.
Definition PROT_READ : Z := 1.

Section handles.
Context (k : kernel).

(** * Reference counts *)
Definition nvmap_handle_get (h : Z) : M bool :=
  upd_handle h (fun x => set_ref (h_ref x + 1) x);;
  x ← get_handle h;
  if h_ref x <=? 1 then upd_handle h (fun x => set_ref (h_ref x - 1) x);; mret false
  else mret true.

(** The part of [_nvmap_handle_free] that concerns the handle: [nvmap_handle_remove] takes
    it out of the device's tree, then it is freed. *)
Definition nvmap_handle_free (h : Z) : M unit :=
  x ← get_handle h;
  if 0 <? h_ref x then mret tt
  else if h_ref x <? 0 then crash
  else modify (fun s => set_handles (delete h (st_handles s)) s).

Definition nvmap_handle_put (h : Z) : M unit :=
  upd_handle h (fun x => set_ref (h_ref x - 1) x);;
  x ← get_handle h;
  if h_ref x <? 0 then mret tt
  else if h_ref x =? 0 then nvmap_handle_free h else mret tt.

(** [get_dma_buf], [dma_buf_put] and [get_file_rcu] of the kernel, on a file that counts. *)
Definition get_dma_buf (p : dma_ptr) : M unit :=
  match p with
  | DBuf d => b ← get_buf d; if f_count b <=? 0 then crash else upd_buf d (fun b => set_f_count (f_count b + 1) b)
  | _ => crash
  end.
Definition dma_buf_put (p : dma_ptr) : M unit :=
  match p with
  | DNull => mret tt
  | DErr => crash
  | DBuf d => b ← get_buf d; if f_count b <=? 0 then crash else upd_buf d (fun b => set_f_count (f_count b - 1) b)
  end.
Definition get_file_rcu (d : Z) : M bool :=
  b ← get_buf d;
  if f_count b =? 0 then mret false else upd_buf d (fun b => set_f_count (f_count b + 1) b);; mret true.

(** [nvmap_dmabuf_release]: the kernel calls it when the count of the file is 0. *)
Definition nvmap_dmabuf_release (d : Z) : M unit :=
  b ← get_buf d;
  x ← get_handle (info_handle b);
  match dmabuf_of (info_is_ro b) x with
  | DBuf d' =>
      if d' =? d then
        upd_handle (info_handle b) (set_dmabuf (info_is_ro b) DNull);;
        modify (fun s => set_bufs (delete d (st_bufs s)) s);;
        nvmap_handle_put (info_handle b)
      else crash
  | _ => crash
  end.

(** The last case frees what the new dma-buf refers to. *)
Definition __nvmap_make_dmabuf (buf : option Z) (h : Z) (ro_buf : bool) : M (Z + Z) :=
  match buf with
  | None => mret (inl (- ENOMEM))
  | Some d =>
      modify (fun s => set_bufs (<[d := DmaBuf 1 h ro_buf]> (st_bufs s)) s);;
      ok ← nvmap_handle_get h;
      if ok : bool then mret (inr d) else crash
  end.

Definition nvmap_validate_get (h : Z) : M bool :=
  hs ← get st_handles;
  if decide (is_Some (hs !! h)) then nvmap_handle_get h else mret false.

(** * A client's references *)
Fixpoint validate_in (refs : gmap Z nvmap_handle_ref) (t : tree) (h : Z) (is_ro : bool) : option (option Z) :=
  match t with
  | Leaf => Some None
  | Node l x r =>
      ref ← refs !! x;
      if (ref_handle ref =? h) && Bool.eqb (ref_is_ro ref) is_ro then Some (Some x)
      else if ref_handle ref <? h then validate_in refs r h is_ro
      else validate_in refs l h is_ro
  end.
Definition __nvmap_validate_locked (c h : Z) (is_ro : bool) : M (option Z) :=
  cl ← get_client c; refs ← get st_refs; need (validate_in refs (handle_refs cl) h is_ro).

Fixpoint rb_link_node (refs : gmap Z nvmap_handle_ref) (h x : Z) (t : tree) : option tree :=
  match t with
  | Leaf => Some (Node Leaf x Leaf)
  | Node l y r =>
      ref ← refs !! y;
      if ref_handle ref <? h then r ← rb_link_node refs h x r; Some (Node l y r)
      else l ← rb_link_node refs h x l; Some (Node l y r)
  end.
Definition add_handle_ref (c r : Z) : M unit :=
  ref ← get_ref r; cl ← get_client c; refs ← get st_refs;
  t ← need (rb_link_node refs (ref_handle ref) r (handle_refs cl));
  upd_client c (set_tree (rb_insert_color k r t));;
  upd_handle (ref_handle ref) (fun x => set_share (share_count x + 1) x).

(** [kzalloc], with [dupes] and [handle] set. *)
Definition new_ref (r h : Z) : M unit := modify (fun s => set_refs (<[r := HandleRef h 1 false]> (st_refs s)) s).
Definition free_ref (r : Z) : M unit := modify (fun s => set_refs (delete r (st_refs s)) s).

(** [skip_val] is false: the callers modelled here let it validate. *)
Definition nvmap_duplicate_handle (a : answers) (c h : Z) (is_ro : bool) : M (Z + Z) :=
  valid ← nvmap_validate_get h;
  if negb valid then mret (inl (- EPERM))
  else
    x ← get_handle h;
    if negb (h_alloc x) then nvmap_handle_put h;; mret (inl (- EINVAL))
    else
      found ← __nvmap_validate_locked c h is_ro;
      match found with
      | Some r => upd_ref r (fun x => set_dupes (dupes x + 1) x);; mret (inr r)
      | None =>
          match a_ref a with
          | None => nvmap_handle_put h;; mret (inl (- ENOMEM))
          | Some r =>
              new_ref r h;; add_handle_ref c r;; upd_ref r (set_is_ro is_ro);;
              x ← get_handle h;
              match dmabuf_of is_ro x with
              | DNull => free_ref r;; mret (inl (- EINVAL))
              | p => get_dma_buf p;; mret (inr r)
              end
          end
      end.

Definition nvmap_create_handle (a : answers) (c size : Z) (ro_buf : bool) : M (Z + Z) :=
  if size =? 0 then mret (inl (- EINVAL))
  else
    match a_handle a, a_ref a with
    | Some h, Some r =>
        modify (fun s => set_handles (<[h := Handle 1 0 false DNull DNull]> (st_handles s)) s);;
        made ← __nvmap_make_dmabuf (a_buf a) h ro_buf;
        match made with
        | inl err => modify (fun s => set_handles (delete h (st_handles s)) s);; mret (inl err)
        | inr d =>
            upd_handle h (set_dmabuf ro_buf (DBuf d));;
            new_ref r h;; add_handle_ref c r;; upd_ref r (set_is_ro ro_buf);; mret (inr r)
        end
    | _, _ => mret (inl (- ENOMEM))
    end.

Definition nvmap_free_handle (c h : Z) (is_ro : bool) : M unit :=
  found ← __nvmap_validate_locked c h is_ro;
  match found with
  | None => mret tt
  | Some r =>
      upd_ref r (fun x => set_dupes (dupes x - 1) x);;
      ref ← get_ref r;
      (if negb (dupes ref =? 0) then mret tt
       else
         upd_client c (fun cl => set_tree (rb_erase k r (handle_refs cl)) cl);;
         upd_handle (ref_handle ref) (fun x => set_share (share_count x - 1) x);;
         x ← get_handle (ref_handle ref);
         dma_buf_put (dmabuf_of is_ro x);; free_ref r);;
      x ← get_handle (ref_handle ref);
      if h_ref x =? 0 then crash else nvmap_handle_put (ref_handle ref)
  end.

(** * Numbers of handles *)

(** The loop goes around at most once. *)
Definition nvmap_id_array_id_alloc (c : Z) (p : dma_ptr) : M (option Z) :=
  match p with
  | DNull => mret None
  | DErr => crash
  | DBuf d =>
      cl ← get_client c; start ← get xa_start;
      let attempt (start : Z) : M (option Z) :=
        match xa_alloc k (ida cl) start with
        | inr id =>
            upd_client c (set_ida (<[id := d]> (ida cl)));;
            modify (set_xa_start (if id =? U32_MAX then U32_MAX / 2 else id + 1));; mret (Some id)
        | inl _ => mret None
        end in
      match xa_alloc k (ida cl) start with
      | inl e =>
          if (e =? - EBUSY) && negb (start =? U32_MAX / 2) then modify (set_xa_start (U32_MAX / 2));; attempt (U32_MAX / 2)
          else mret None
      | inr _ => attempt start
      end
  end.
Definition nvmap_id_array_id_release (c id : Z) : M unit := upd_client c (fun cl => set_ida (delete id (ida cl)) cl).
Definition nvmap_id_array_get_dmabuf_from_id (c id : Z) : M (option Z) :=
  cl ← get_client c;
  match ida cl !! id with
  | None => mret None
  | Some d => get_dma_buf (DBuf d);; mret (Some d)
  end.

(** Numbers are at least U32_MAX / 2, which no file descriptor is. *)
Definition nvmap_handle_get_from_id (c id : Z) : M (option Z) :=
  d ← nvmap_id_array_get_dmabuf_from_id c id;
  match d with
  | None => mret None
  | Some d =>
      b ← get_buf d;
      ok ← nvmap_handle_get (info_handle b);
      dma_buf_put (DBuf d);;
      mret (if ok : bool then Some (info_handle b) else None)
  end.
Definition is_nvmap_id_ro (c id : Z) : M (option bool) :=
  d ← nvmap_id_array_get_dmabuf_from_id c id;
  match d with
  | None => mret None
  | Some d => b ← get_buf d; dma_buf_put (DBuf d);; mret (Some (info_is_ro b))
  end.
(** [fd] is the dma-buf behind the descriptor. *)
Definition nvmap_handle_get_from_dmabuf_fd (fd : Z) : M (option Z) :=
  get_dma_buf (DBuf fd);;
  b ← get_buf fd;
  ok ← nvmap_handle_get (info_handle b);
  dma_buf_put (DBuf fd);;
  mret (if ok : bool then Some (info_handle b) else None).
Definition is_nvmap_dmabuf_fd_ro (fd : Z) : M bool :=
  get_dma_buf (DBuf fd);; b ← get_buf fd; dma_buf_put (DBuf fd);; mret (info_is_ro b).

(** * Duplication *)

(** A reference to the read-only dma-buf of a handle, which is made if there is none.  The
    code has this text twice, here and in [nvmap_get_handle_from_sci_ipc_id]. *)
Definition get_dmabuf_ro (a : answers) (h : Z) : M (option Z) :=
  let make : M (option Z) :=
    made ← __nvmap_make_dmabuf (a_buf a) h true;
    match made with
    | inl err => upd_handle h (set_dmabuf true DErr);; mret (Some err)
    | inr d => upd_handle h (set_dmabuf true (DBuf d));; mret None
    end in
  x ← get_handle h;
  match h_dmabuf_ro x with
  | DNull => make
  | DErr => crash
  | DBuf d =>
      ok ← get_file_rcu d;
      if ok : bool then mret None
      else
        (if a_waited a then nvmap_dmabuf_release d else mret tt);;
        x ← get_handle h;
        match a_waited a, h_dmabuf_ro x with
        | true, DNull => make
        | _, _ => mret (Some (- EINVAL))
        end
  end.

Definition nvmap_dup_handle_ro (a : answers) (c id : Z) : M (Z + Z) :=
  h ← nvmap_handle_get_from_id c id;
  match h with
  | None => mret (inl (- EBADF))
  | Some h =>
      err ← get_dmabuf_ro a h;
      match err with
      | Some err => nvmap_handle_put h;; mret (inl err)
      | None =>
          ref ← nvmap_duplicate_handle a c h true;
          x ← get_handle h;
          dma_buf_put (h_dmabuf_ro x);;
          nvmap_handle_put h;;
          mret ref
      end
  end.

Definition nvmap_create_handle_from_id (a : answers) (c id : Z) : M (Z + Z) :=
  ro ← is_nvmap_id_ro c id;
  match ro with
  | None => mret (inl (- EINVAL))
  | Some true => nvmap_dup_handle_ro a c id
  | Some false =>
      h ← nvmap_handle_get_from_id c id;
      match h with
      | None => mret (inl (- EBADF))
      | Some h => ref ← nvmap_duplicate_handle a c h false; nvmap_handle_put h;; mret ref
      end
  end.

Definition nvmap_create_handle_from_fd (a : answers) (c fd : Z) : M (Z + Z) :=
  h ← nvmap_handle_get_from_dmabuf_fd fd;
  match h with
  | None => mret (inl (- EINVAL))
  | Some h =>
      is_ro ← is_nvmap_dmabuf_fd_ro fd;
      ref ← nvmap_duplicate_handle a c h is_ro;
      nvmap_handle_put h;;
      mret ref
  end.

(** * ioctls *)

(** What creation and duplication do with the reference they got: it is given a number, which
    is copied to the user. *)
Definition give_id (a : answers) (c r : Z) (is_ro : bool) : M (Z + Z) :=
  upd_ref r (fun x => set_dupes (dupes x + 1) x);;
  ref ← get_ref r;
  x ← get_handle (ref_handle ref);
  let dmabuf := dmabuf_of is_ro x in
  id ← nvmap_id_array_id_alloc c dmabuf;
  match id with
  | None =>
      upd_ref r (fun x => set_dupes (dupes x - 1) x);;
      dma_buf_put dmabuf;; nvmap_free_handle c (ref_handle ref) is_ro;; mret (inl (- ENOMEM))
  | Some id =>
      if a_copied a then upd_ref r (fun x => set_dupes (dupes x - 1) x);; mret (inr id)
      else
        upd_ref r (fun x => set_dupes (dupes x - 1) x);;
        dma_buf_put dmabuf;; nvmap_free_handle c (ref_handle ref) is_ro;;
        nvmap_id_array_id_release c id;; mret (inl (- EFAULT))
  end.

Definition nvmap_ioctl_create (a : answers) (c size : Z) : M (Z + Z) :=
  ref ← nvmap_create_handle a c size false;
  match ref with
  | inl err => mret (inl err)
  | inr r => ref ← get_ref r; give_id a c r (ref_is_ro ref)
  end.

(** [NVMAP_IOC_FROM_FD], for a dma-buf of nvmap. *)
Definition nvmap_ioctl_from_fd (a : answers) (c fd : Z) : M (Z + Z) :=
  ref ← nvmap_create_handle_from_fd a c fd;
  match ref with
  | inl _ => get_dma_buf (DBuf fd);; dma_buf_put (DBuf fd);; mret (inl (- EINVAL))
  | inr r => ref ← get_ref r; give_id a c r (ref_is_ro ref)
  end.

(** [va] says whether [nvmap_alloc_handle_from_va] gets the pages. *)
Definition nvmap_ioctl_create_from_va (a : answers) (c size : Z) (is_ro va : bool) : M (Z + Z) :=
  ref ← nvmap_create_handle a c size is_ro;
  match ref with
  | inl err => mret (inl err)
  | inr r =>
      ref ← get_ref r;
      if va then
        upd_handle (ref_handle ref) (set_alloc true);;
        give_id a c r is_ro
      else nvmap_free_handle c (ref_handle ref) is_ro;; mret (inl (- EINVAL))
  end.

(** [memory] says whether [is_nvmap_memory_available] and [nvmap_alloc_handle] find memory. *)
Definition nvmap_ioctl_alloc (c id : Z) (memory : bool) : M Z :=
  h ← nvmap_handle_get_from_id c id;
  match h with
  | None => mret (- EINVAL)
  | Some h =>
      x ← get_handle h;
      if negb memory then nvmap_handle_put h;; mret (- ENOMEM)
      else if h_alloc x then nvmap_handle_put h;; mret (- EEXIST)
      else upd_handle h (set_alloc true);; nvmap_handle_put h;; mret 0
  end.

Definition nvmap_ioctl_dup_handle (a : answers) (c id : Z) (access_ro : bool) : M (Z + Z) :=
  ro ← is_nvmap_id_ro c id;
  match ro with
  | None => mret (inl (- EINVAL))
  | Some ro =>
      if ro && negb access_ro then mret (inl (- EPERM))
      else
        ref ← (if access_ro then nvmap_dup_handle_ro a c id else nvmap_create_handle_from_id a c id);
        match ref with
        | inl _ => mret (inl (- EBADF))
        | inr r => give_id a c r access_ro
        end
  end.

(** [nvmap_free_handle_from_fd] *)
Definition nvmap_ioctl_free (c id : Z) : M unit :=
  h ← nvmap_handle_get_from_id c id;
  match h with
  | None => mret tt
  | Some h =>
      ro ← is_nvmap_id_ro c id;
      match ro with
      | None => nvmap_handle_put h
      | Some is_ro =>
          nvmap_id_array_id_release c id;;
          nvmap_free_handle c h is_ro;;
          nvmap_handle_put h
      end
  end.

Definition __nvmap_dmabuf_export (h : Z) (is_ro : bool) : M (option dma_ptr) :=
  ok ← nvmap_handle_get h;
  if negb ok then mret None
  else
    x ← get_handle h;
    match dmabuf_of is_ro x with
    | DNull => nvmap_handle_put h;; mret (Some DNull)
    | p => get_dma_buf p;; nvmap_handle_put h;; mret (Some p)
    end.

(** With [nvmap_get_dmabuf_fd] and [nvmap_install_fd]. *)
Definition nvmap_ioctl_getfd (a : answers) (c id : Z) : M Z :=
  h ← nvmap_handle_get_from_id c id;
  match h with
  | None => mret (- EBADF)
  | Some h =>
      ro ← is_nvmap_id_ro c id;
      match ro with
      | None => nvmap_handle_put h;; mret (- EINVAL)
      | Some is_ro =>
          p ← __nvmap_dmabuf_export h is_ro;
          ret ← match p with
                | None | Some DErr => mret (- EFAULT)
                | Some DNull => mret (- EFAULT)
                | Some (DBuf d) =>
                    if negb (a_fd a) then dma_buf_put (DBuf d);; mret (- EFAULT)
                    else if a_copied a then modify (fun s => set_fds (d :: st_fds s) s);; mret 0
                    else dma_buf_put (DBuf d);; mret (- EFAULT)
                end;
          nvmap_handle_put h;;
          mret ret
      end
  end.

(** The other branch of [nvmap_ioctl_getfd], taken when the user gives a descriptor of a
    dma-buf of nvmap where a number is expected: [nvmap_handle_get_from_id] finds that it is
    one, [nvmap_dmabuf_duplicate_gen_fd] puts the dma-buf, and so does [nvmap_install_fd]:
    one put more than there were gets ([getfd_of_fd_puts_twice]). *)
Definition getfd_of_fd (fd : Z) : M Z :=
  get_dma_buf (DBuf fd);; dma_buf_put (DBuf fd);;
  get_dma_buf (DBuf fd);;
  dma_buf_put (DBuf fd);;
  info ← get_buf fd;
  dma_buf_put (DBuf fd);;
  mret (- EINVAL).

(** * Numbers for a peer *)
Definition nvmap_unique_sci_ipc_id : M Z :=
  sids ← get free_sid_list;
  match sids with
  | id :: sids => modify (set_sids sids);; mret id
  | [] => id ← get unq_id; modify (set_unq (s32 (id + 2)));; mret (u64 (s32 (id + 2)))
  end.

(** The index of the first entry for which [P] holds. *)
Fixpoint find_entry (P : nvmap_sci_ipc_entry -> bool) (i : nat) (l : list nvmap_sci_ipc_entry)
  : option (nat * nvmap_sci_ipc_entry) :=
  match l with
  | [] => None
  | e :: l => if P e then Some (i, e) else find_entry P (S i) l
  end.
Definition nvmap_search_sci_ipc_entry (h flags vuid : Z) (l : list nvmap_sci_ipc_entry) : option (nat * nvmap_sci_ipc_entry) :=
  find_entry (fun e => (entry_handle e =? h) && (entry_flags e =? flags) && (peer_vuid e =? vuid)) 0 l.
Fixpoint nvmap_insert_sci_ipc_entry (new : nvmap_sci_ipc_entry) (l : list nvmap_sci_ipc_entry) : list nvmap_sci_ipc_entry :=
  match l with
  | [] => [new]
  | e :: l' => if sci_ipc_id new <? sci_ipc_id e then new :: l else e :: nvmap_insert_sci_ipc_entry new l'
  end.
(** The loop leaves the last entry in [e] when it does not find one. *)
Definition nvmap_find_entry_for_id (id : Z) (l : list nvmap_sci_ipc_entry) : option (nat * nvmap_sci_ipc_entry) :=
  match find_entry (fun e => sci_ipc_id e =? id) 0 l with
  | Some found => Some found
  | None => e ← last l; Some (pred (length l), e)
  end.

Definition nvmap_create_sci_ipc_id (a : answers) (h flags vuid : Z) : M (Z + Z) :=
  es ← get st_entries;
  ret ← match nvmap_search_sci_ipc_entry h flags vuid es with
        | Some (i, e) =>
            modify (set_entries (<[i := set_refcount (entry_refcount e + 1) e]> es));; mret (inr (sci_ipc_id e))
        | None =>
            if a_entry a then
              id ← nvmap_unique_sci_ipc_id;
              modify (set_entries (nvmap_insert_sci_ipc_entry (SciEntry h id vuid flags 1) es));; mret (inr id)
            else mret (inl (- ENOMEM))
        end;
  match ret with
  | inl err => mret (inl err)
  | inr id => ok ← nvmap_handle_get h; mret (if ok : bool then inr id else inl (- EINVAL))
  end.

(** [auth] is the peer's identity, if the token is valid. *)
Definition nvmap_ioctl_get_sci_ipc_id (a : answers) (c id flags : Z) (auth : option Z) : M (Z + Z) :=
  h ← nvmap_handle_get_from_id c id;
  match h with
  | None => mret (inl (- ENODEV))
  | Some h =>
      ro ← is_nvmap_id_ro c id;
      ret ← match ro, auth with
            | None, _ => mret (inl (- EINVAL))
            | Some is_ro, _ =>
                if is_ro && negb (flags =? PROT_READ) then mret (inl (- EPERM))
                else
                  match auth with
                  | None => mret (inl (- EINVAL))
                  | Some vuid =>
                      sid ← nvmap_create_sci_ipc_id a h flags vuid;
                      mret (match sid with
                            | inl err => inl err
                            | inr sid => if a_copied a then inr sid else inl (- EINVAL)
                            end)
                  end
            end;
      nvmap_handle_put h;;
      mret ret
  end.

Definition remove_entry (i : nat) (l : list nvmap_sci_ipc_entry) : list nvmap_sci_ipc_entry := take i l ++ drop (S i) l.

(** The end of [nvmap_get_handle_from_sci_ipc_id], with the reference [r] that was got.  The
    result has the number; the reference's [dupes] is lowered again only without an error. *)
Definition import_ref (a : answers) (c : Z) (is_ro : bool) (es : list nvmap_sci_ipc_entry) (i : nat)
    (entry : nvmap_sci_ipc_entry) (r : Z) : M (Z + Z) :=
  let h := entry_handle entry in
  nvmap_handle_put h;;
  upd_ref r (fun x => set_dupes (dupes x + 1) x);;
  x ← get_handle h;
  let dmabuf := dmabuf_of is_ro x in
  id ← nvmap_id_array_id_alloc c dmabuf;
  match id with
  | None =>
      upd_ref r (fun x => set_dupes (dupes x - 1) x);;
      dma_buf_put dmabuf;; nvmap_free_handle c h is_ro;; mret (inl (- ENOMEM))
  | Some id =>
      if entry_refcount entry - 1 =? 0 then
        modify (set_entries (remove_entry i es));;
        if a_sid a then
          modify (fun s => set_sids (free_sid_list s ++ [sci_ipc_id entry]) s);;
          upd_ref r (fun x => set_dupes (dupes x - 1) x);; mret (inr id)
        else mret (inl (- ENOMEM))
      else
        modify (set_entries (<[i := set_refcount (entry_refcount entry - 1) entry]> es));;
        upd_ref r (fun x => set_dupes (dupes x - 1) x);; mret (inr id)
  end.
Definition nvmap_get_handle_from_sci_ipc_id (a : answers) (c flags sid vuid : Z) : M (Z + Z) :=
  let is_ro := flags =? PROT_READ in
  es ← get st_entries;
  match nvmap_find_entry_for_id sid es with
  | None => mret (inl (- EINVAL))
  | Some (i, entry) =>
      if negb (peer_vuid entry =? vuid) || negb (entry_flags entry =? flags) then mret (inl (- EINVAL))
      else
        let h := entry_handle entry in
        err ← (if is_ro then get_dmabuf_ro a h else mret None);
        match err with
        | Some err => mret (inl err)
        | None =>
            ref ← nvmap_duplicate_handle a c h is_ro;
            (if is_ro then x ← get_handle h; dma_buf_put (h_dmabuf_ro x) else mret tt);;
            match ref with
            | inl _ => mret (inl (- EINVAL))
            | inr r => import_ref a c is_ro es i entry r
            end
        end
  end.
Definition nvmap_ioctl_handle_from_sci_ipc_id (a : answers) (c flags sid : Z) (auth : option Z) : M (Z + Z) :=
  match auth with
  | None => mret (inl (- EINVAL))
  | Some vuid =>
      id ← nvmap_get_handle_from_sci_ipc_id a c flags sid vuid;
      mret (match id with inl err => inl err | inr id => if a_copied a then inr id else inl (- EINVAL) end)
  end.

(** * The end of a client *)
Fixpoint put_times (n : nat) (h : Z) : M unit :=
  match n with O => mret tt | S n => nvmap_handle_put h;; put_times n h end.
(** [rb_first] until the tree is empty. *)
Fixpoint destroy_refs (fuel : nat) (c : Z) : M unit :=
  cl ← get_client c;
  match inorder (handle_refs cl), fuel with
  | [], _ => mret tt
  | _, O => crash
  | r :: _, S fuel =>
      ref ← get_ref r;
      x ← get_handle (ref_handle ref);
      dma_buf_put (dmabuf_of (ref_is_ro ref) x);;
      upd_client c (fun cl => set_tree (rb_erase k r (handle_refs cl)) cl);;
      upd_handle (ref_handle ref) (fun x => set_share (share_count x - 1) x);;
      put_times (Z.to_nat (dupes ref)) (ref_handle ref);;
      free_ref r;;
      destroy_refs fuel c
  end.
Definition destroy_client (c : Z) : M unit :=
  upd_client c (set_ida ∅);;
  cl ← get_client c;
  destroy_refs (length (inorder (handle_refs cl))) c;;
  modify (fun s => set_clients (delete c (st_clients s)) s).

(** * Events *)
Inductive event :=
| E_open (c : Z)
| E_create (a : answers) (c size : Z)
| E_create_from_va (a : answers) (c size : Z) (is_ro va : bool)
| E_alloc (c id : Z) (memory : bool)
| E_dup (a : answers) (c id : Z) (access_ro : bool)
| E_free (c id : Z)
| E_getfd (a : answers) (c id : Z)
| E_from_fd (a : answers) (c fd : Z)
| E_close_fd (fd : Z)
| E_export (a : answers) (c id flags : Z) (auth : option Z)
| E_import (a : answers) (c flags sid : Z) (auth : option Z)
| E_close (c : Z)
| E_release (d : Z)
| E_getfd_fd (fd : Z).

Fixpoint list_remove_first (d : Z) (l : list Z) : list Z :=
  match l with [] => [] | x :: l => if x =? d then l else x :: list_remove_first d l end.

Definition discard {A} (m : M A) : M unit := m;; mret tt.
Definition exec (e : event) : M unit :=
  match e with
  | E_open c => modify (fun s => set_clients (<[c := Client Leaf ∅]> (st_clients s)) s)
  | E_create a c size => discard (nvmap_ioctl_create a c size)
  | E_create_from_va a c size is_ro va => discard (nvmap_ioctl_create_from_va a c size is_ro va)
  | E_alloc c id memory => discard (nvmap_ioctl_alloc c id memory)
  | E_dup a c id access_ro => discard (nvmap_ioctl_dup_handle a c id access_ro)
  | E_free c id => nvmap_ioctl_free c id
  | E_getfd a c id => discard (nvmap_ioctl_getfd a c id)
  | E_from_fd a c fd => discard (nvmap_ioctl_from_fd a c fd)
  | E_close_fd fd => modify (fun s => set_fds (list_remove_first fd (st_fds s)) s);; dma_buf_put (DBuf fd)
  | E_export a c id flags auth => discard (nvmap_ioctl_get_sci_ipc_id a c id flags auth)
  | E_import a c flags sid auth => discard (nvmap_ioctl_handle_from_sci_ipc_id a c flags sid auth)
  | E_close c => destroy_client c
  | E_release d => nvmap_dmabuf_release d
  | E_getfd_fd fd => discard (getfd_of_fd fd)
  end.
End handles.
