(* ===== verification/NvmapHandleInv.v ===== *)
(** What holds of nvmap's reference counts, and how single stores change it.

    [keeps eh eb s] says that the counts of [s] are exact up to [eh] and [eb], the references
    that the function that runs holds itself (or owes, if negative). *)
From S2P Require Import Prelude Sums NvmapHandle.

(** * Who refers to what *)
Definition named (h : Z) (is_ro : bool) (r : nvmap_handle_ref) : bool := (ref_handle r =? h) && Bool.eqb (ref_is_ro r) is_ro.
Definition dupes_of (s : state) (h : Z) : Z := msum (fun r => if ref_handle r =? h then dupes r else 0) (st_refs s).
Definition refs_of (s : state) (h : Z) : Z := msum (fun r => ind (ref_handle r =? h)) (st_refs s).
Definition kind_of (s : state) (h : Z) (is_ro : bool) : Z := msum (fun r => ind (named h is_ro r)) (st_refs s).
Definition bufs_of (s : state) (h : Z) : Z := msum (fun b => ind (info_handle b =? h)) (st_bufs s).
Definition entries_of (s : state) (h : Z) : Z := lsum (fun e => if entry_handle e =? h then entry_refcount e else 0) (st_entries s).
Definition fds_of (s : state) (d : Z) : Z := lsum (fun x => ind (x =? d)) (st_fds s).
Definition ids_of (cl : nvmap_client) (d : Z) : Z := msum (fun x => ind (x =? d)) (ida cl).
Definition dupes_at (refs : gmap Z nvmap_handle_ref) (h : Z) (is_ro : bool) (r : Z) : Z :=
  match refs !! r with Some x => if named h is_ro x then dupes x else 0 | None => 0 end.
(** The duplications that a client has of one kind. *)
Definition dupes_in (refs : gmap Z nvmap_handle_ref) (t : tree) (h : Z) (is_ro : bool) : Z := lsum (dupes_at refs h is_ro) (inorder t).
Definition tree_refs (cl : nvmap_client) : list Z := inorder (handle_refs cl).

Definition bump (x n : Z) (f : Z -> Z) : Z -> Z := fun y => f y + (if decide (y = x) then n else 0).

Record keeps (eh eb : Z -> Z) (s : state) : Prop := {
  k_ref h x : st_handles s !! h = Some x ->
    h_ref x = dupes_of s h + bufs_of s h + entries_of s h + eh h /\ 0 < h_ref x /\ share_count x = refs_of s h;
  k_buf d b : st_bufs s !! d = Some b ->
    f_count b = kind_of s (info_handle b) (info_is_ro b) + fds_of s d + eb d /\ 0 <= f_count b /\
    exists x, st_handles s !! info_handle b = Some x /\ dmabuf_of (info_is_ro b) x = DBuf d;
  k_ptr h x is_ro : st_handles s !! h = Some x ->
    match dmabuf_of is_ro x with
    | DNull => True | DErr => False
    | DBuf d => exists n, st_bufs s !! d = Some (DmaBuf n h is_ro)
    end;
  k_reference r x : st_refs s !! r = Some x ->
    1 <= dupes x /\ exists hx d, st_handles s !! ref_handle x = Some hx /\ dmabuf_of (ref_is_ro x) hx = DBuf d;
  k_entry e : e ∈ st_entries s -> 1 <= entry_refcount e /\ is_Some (st_handles s !! entry_handle e);
  k_fd d : d ∈ st_fds s -> is_Some (st_bufs s !! d);
  k_tree : gather tree_refs (st_clients s) ≡ₚ (map_to_list (st_refs s)).*1;
  k_ids c cl d : st_clients s !! c = Some cl -> 0 < ids_of cl d ->
    exists b, st_bufs s !! d = Some b /\ ids_of cl d <= dupes_in (st_refs s) (handle_refs cl) (info_handle b) (info_is_ro b);
  k_tok h : eh h <> 0 -> is_Some (st_handles s !! h);
  k_tokb d : eb d <> 0 -> is_Some (st_bufs s !! d)
}.

Ltac bump_lia := unfold bump in *; repeat case_decide; simplify_eq; try lia.

Lemma keeps_ext eh eb eh' eb' s : keeps eh eb s -> (forall x, eh x = eh' x) -> (forall x, eb x = eb' x) -> keeps eh' eb' s.
Proof.
  intros [K1 K2 K3 K4 K5 K6 K7 K8 K9 K10] Eh Eb. constructor; try done.
  - intros h x E. rewrite <- Eh. eauto.
  - intros d b E. rewrite <- Eb. eauto.
  - intros h. rewrite <- Eh. eauto.
  - intros d. rewrite <- Eb. eauto.
Qed.

(** ** Facts *)
Section facts.
Context {eh eb : Z -> Z} {s : state} (K : keeps eh eb s).

Lemma dupes_nonneg h : 0 <= dupes_of s h.
Proof. apply msum_nonneg. intros r x E. destruct (k_reference _ _ _ K r x E). case_match; lia. Qed.
Lemma dupes_pos r x : st_refs s !! r = Some x -> dupes x <= dupes_of s (ref_handle x).
Proof.
  intros E. apply (msum_elem _ _ r x); [done|by rewrite Z.eqb_refl|].
  intros r' x' E'. destruct (k_reference _ _ _ K r' x' E'). case_match; lia.
Qed.
Lemma entries_nonneg h : 0 <= entries_of s h.
Proof. apply lsum_nonneg. intros e He. destruct (k_entry _ _ _ K e He). case_match; lia. Qed.
Lemma entries_pos e : e ∈ st_entries s -> entry_refcount e <= entries_of s (entry_handle e).
Proof.
  intros He. apply (lsum_elem _ _ e); [done|by rewrite Z.eqb_refl|].
  intros e' He'. destruct (k_entry _ _ _ K e' He'). case_match; lia.
Qed.
End facts.

Lemma ind_nonneg b : 0 <= ind b.
Proof. by destruct b. Qed.
Lemma bufs_nonneg s h : 0 <= bufs_of s h.
Proof. apply msum_nonneg. intros. apply ind_nonneg. Qed.
Lemma bufs_pos s d b : st_bufs s !! d = Some b -> 1 <= bufs_of s (info_handle b).
Proof.
  intros E. apply (msum_elem _ _ d b); [done|by rewrite Z.eqb_refl|]. intros. apply ind_nonneg.
Qed.
Lemma kind_nonneg s h is_ro : 0 <= kind_of s h is_ro.
Proof. apply msum_nonneg. intros. apply ind_nonneg. Qed.
Lemma named_self r : named (ref_handle r) (ref_is_ro r) r = true.
Proof. unfold named. by rewrite Z.eqb_refl, eqb_reflx. Qed.
Lemma named_true h is_ro r : named h is_ro r = true <-> ref_handle r = h /\ ref_is_ro r = is_ro.
Proof. unfold named. rewrite andb_true_iff, Z.eqb_eq, eqb_true_iff. done. Qed.
Lemma kind_pos s r x : st_refs s !! r = Some x -> 1 <= kind_of s (ref_handle x) (ref_is_ro x).
Proof.
  intros E. apply (msum_elem _ _ r x); [done|by rewrite named_self|]. intros. apply ind_nonneg.
Qed.
Lemma fds_nonneg s d : 0 <= fds_of s d.
Proof. apply lsum_nonneg. intros. apply ind_nonneg. Qed.
Lemma fds_pos s d : d ∈ st_fds s -> 1 <= fds_of s d.
Proof.
  intros H. apply (lsum_elem _ _ d); [done|by rewrite Z.eqb_refl|]. intros. apply ind_nonneg.
Qed.
Lemma ids_pos cl id d : ida cl !! id = Some d -> 1 <= ids_of cl d.
Proof.
  intros E. apply (msum_elem _ _ id d); [done|by rewrite Z.eqb_refl|]. intros. apply ind_nonneg.
Qed.

Section facts2.
Context {eh eb : Z -> Z} {s : state} (K : keeps eh eb s).

Lemma tree_ref r c cl : st_clients s !! c = Some cl -> r ∈ tree_refs cl -> exists x, st_refs s !! r = Some x.
Proof.
  intros E Hr. pose proof (gather_elem tree_refs _ _ _ _ E Hr) as H. rewrite (k_tree _ _ _ K) in H.
  apply list_elem_of_fmap in H as ([r' x] & -> & H%elem_of_map_to_list). eauto.
Qed.
Lemma tree_NoDup : NoDup (gather tree_refs (st_clients s)).
Proof. rewrite (k_tree _ _ _ K). apply NoDup_fst_map_to_list. Qed.
(** A reference is in one tree only. *)
Lemma tree_unique r c cl c' cl' : st_clients s !! c = Some cl -> st_clients s !! c' = Some cl' ->
  r ∈ tree_refs cl -> r ∈ tree_refs cl' -> c = c'.
Proof.
  intros E E' Hr Hr'. destruct (decide (c = c')) as [|Hne]; [done|]. exfalso.
  pose proof tree_NoDup as Hnd. rewrite (gather_delete tree_refs _ _ _ E) in Hnd. apply NoDup_app in Hnd as (_ & Hd & _).
  apply (Hd r Hr), (gather_elem tree_refs _ c' cl'); [by rewrite lookup_delete_ne|done].
Qed.
Lemma tree_NoDup1 c cl : st_clients s !! c = Some cl -> NoDup (tree_refs cl).
Proof. intros E. pose proof tree_NoDup as Hnd. rewrite (gather_delete tree_refs _ _ _ E) in Hnd. by apply NoDup_app in Hnd as [? _]. Qed.

(** A number of a client names a dma-buf that is held by a reference of the client. *)
Lemma id_held c cl id d : st_clients s !! c = Some cl -> ida cl !! id = Some d ->
  exists b r x, st_bufs s !! d = Some b /\ r ∈ tree_refs cl /\ st_refs s !! r = Some x /\ named (info_handle b) (info_is_ro b) x = true /\
    1 <= ids_of cl d <= dupes_in (st_refs s) (handle_refs cl) (info_handle b) (info_is_ro b).
Proof.
  intros Ec Ei. pose proof (ids_pos cl id d Ei) as Hp. destruct (k_ids _ _ _ K c cl d Ec ltac:(lia)) as (b & Eb & Hle).
  destruct (lsum_pos (dupes_at (st_refs s) (info_handle b) (info_is_ro b)) (inorder (handle_refs cl))) as (r & Hr & H).
  { unfold dupes_in in Hle. lia. }
  unfold dupes_at in H. destruct (st_refs s !! r) as [x|] eqn:Ex; [|lia]. case_match; [|lia]. eauto 10.
Qed.
Lemma buf_handle d b : st_bufs s !! d = Some b -> exists x, st_handles s !! info_handle b = Some x /\ dmabuf_of (info_is_ro b) x = DBuf d.
Proof. intros E. apply (k_buf _ _ _ K d b E). Qed.
(** The dma-buf of a reference. *)
Lemma ref_buf r x : st_refs s !! r = Some x -> exists hx d n,
  st_handles s !! ref_handle x = Some hx /\ dmabuf_of (ref_is_ro x) hx = DBuf d /\
  st_bufs s !! d = Some (DmaBuf n (ref_handle x) (ref_is_ro x)).
Proof.
  intros E. destruct (k_reference _ _ _ K r x E) as (_ & hx & d & Eh & Ed). pose proof (k_ptr _ _ _ K _ _ (ref_is_ro x) Eh) as Hp.
  rewrite Ed in Hp. destruct Hp as [n En]. eauto 10.
Qed.
End facts2.

(** ** Stores *)

Ltac keeps_split K := destruct K as [K1 K2 K3 K4 K5 K6 K7 K8 K9 K10].

(** The counts or the memory of a handle. *)
Lemma keeps_handle eh eb s h x x' :
  keeps eh eb s -> st_handles s !! h = Some x ->
  (forall is_ro, dmabuf_of is_ro x' = dmabuf_of is_ro x) -> share_count x' = share_count x -> 0 < h_ref x' ->
  keeps (bump h (h_ref x' - h_ref x) eh) eb (set_handles (<[h := x']> (st_handles s)) s).
Proof.
  intros K E Ed Es Hp. keeps_split K.
  assert (Hsome : forall h2, is_Some (st_handles s !! h2) -> is_Some (<[h := x']> (st_handles s) !! h2)).
  { intros h2 H. apply lookup_insert_is_Some. destruct (decide (h = h2)); auto. }
  assert (Hfield : forall h2 is_ro d, (exists y, st_handles s !! h2 = Some y /\ dmabuf_of is_ro y = DBuf d) ->
    exists y, <[h := x']> (st_handles s) !! h2 = Some y /\ dmabuf_of is_ro y = DBuf d).
  { intros h2 is_ro d (y & Ey & Hy). destruct (decide (h2 = h)) as [->|].
    - exists x'. rewrite lookup_insert_eq, Ed. split; [done|]. congruence.
    - exists y. by rewrite lookup_insert_ne. }
  constructor; simpl; try done.
  - intros h2 y [[<- <-]|[Hne Ey]]%lookup_insert_Some.
    + destruct (K1 h x E) as (? & ? & ?). unfold dupes_of, bufs_of, entries_of, refs_of in *. simpl in *. bump_lia.
    + destruct (K1 h2 y Ey) as (? & ? & ?). unfold dupes_of, bufs_of, entries_of, refs_of in *. simpl in *. bump_lia.
  - intros d b Eb. destruct (K2 d b Eb) as (? & ? & H). split; [done|]. split; [done|]. by apply Hfield.
  - intros h2 y is_ro [[<- <-]|[Hne Ey]]%lookup_insert_Some; [|by eapply K3]. rewrite Ed. by apply K3.
  - intros r y Er. destruct (K4 r y Er) as (? & hx & d & H1 & H2). split; [done|].
    destruct (Hfield (ref_handle y) (ref_is_ro y) d) as (hx' & ? & ?); eauto.
  - intros e He. destruct (K5 e He). auto.
  - intros h2. unfold bump. case_decide as Dh; [subst; intros _; rewrite lookup_insert_eq; eauto|]. rewrite Z.add_0_r. auto.
Qed.

(** The last reference to a handle goes. *)
Lemma keeps_free eh eb s h x :
  keeps eh eb s -> st_handles s !! h = Some x -> h_ref x = 1 -> 1 <= eh h ->
  keeps (bump h (-1) eh) eb (set_handles (delete h (st_handles s)) s).
Proof.
  intros K E Hr He. destruct (k_ref _ _ _ K h x E) as (Hsum & _ & _).
  pose proof (dupes_nonneg K h). pose proof (bufs_nonneg s h). pose proof (entries_nonneg K h).
  assert (Hbuf : forall d b, st_bufs s !! d = Some b -> info_handle b <> h).
  { intros d b Eb <-. pose proof (bufs_pos s d b Eb). lia. }
  assert (Href : forall r y, st_refs s !! r = Some y -> ref_handle y <> h).
  { intros r y Er <-. pose proof (dupes_pos K r y Er). destruct (k_reference _ _ _ K r y Er). lia. }
  assert (Hent : forall e, e ∈ st_entries s -> entry_handle e <> h).
  { intros e Hin <-. pose proof (entries_pos K e Hin). destruct (k_entry _ _ _ K e Hin). lia. }
  keeps_split K. constructor; simpl; try done.
  - intros h2 y [Hne Ey]%lookup_delete_Some. destruct (K1 h2 y Ey) as (? & ? & ?).
    unfold dupes_of, bufs_of, entries_of, refs_of in *. simpl in *. bump_lia.
  - intros d b Eb. destruct (K2 d b Eb) as (? & ? & y & Ey & ?). split; [done|]. split; [done|]. exists y.
    by rewrite lookup_delete_ne by (apply not_eq_sym; eauto).
  - intros h2 y is_ro [Hne Ey]%lookup_delete_Some. by apply K3.
  - intros r y Er. destruct (K4 r y Er) as (? & hx & d & Eh & ?). split; [done|]. exists hx, d.
    by rewrite lookup_delete_ne by (apply not_eq_sym; eauto).
  - intros e Hin. destruct (K5 e Hin) as [? Hs]. split; [done|]. by rewrite lookup_delete_ne by (apply not_eq_sym; eauto).
  - intros h2 Hne. destruct (decide (h2 = h)) as [->|]; [bump_lia|]. rewrite lookup_delete_ne by done. apply K9. bump_lia.
Qed.

(** The count of a dma-buf's file. *)
Lemma keeps_fcount eh eb s d b n :
  keeps eh eb s -> st_bufs s !! d = Some b -> 0 <= f_count b + n ->
  keeps eh (bump d n eb) (set_bufs (<[d := set_f_count (f_count b + n) b]> (st_bufs s)) s).
Proof.
  intros K E Hp. keeps_split K.
  assert (Hb : forall h, bufs_of (set_bufs (<[d := set_f_count (f_count b + n) b]> (st_bufs s)) s) h = bufs_of s h).
  { intros h. unfold bufs_of. simpl. rewrite (msum_upd _ _ d b) by done. simpl. lia. }
  constructor; try done.
  - intros h x Eh. destruct (K1 h x Eh) as (? & ? & ?). rewrite Hb. done.
  - simpl. intros d2 b2 [[<- <-]|[Hne Eb]]%lookup_insert_Some.
    + destruct (K2 d b E) as (? & ? & ?). unfold kind_of, fds_of in *. simpl in *. split_and!; [bump_lia|done|done].
    + destruct (K2 d2 b2 Eb) as (? & ? & ?). unfold kind_of, fds_of in *. simpl in *. split_and!; [bump_lia|done|done].
  - simpl. intros h x is_ro Eh. specialize (K3 h x is_ro Eh). destruct (dmabuf_of is_ro x) as [| |d2]; try done.
    destruct K3 as [m Em]. destruct (decide (d2 = d)) as [->|].
    + rewrite lookup_insert_eq. exists (f_count b + n). simplify_eq. done.
    + exists m. by rewrite lookup_insert_ne.
  - simpl. intros d2 Hd. apply lookup_insert_is_Some. destruct (decide (d = d2)); auto.
  - simpl. intros c cl d2 Ec Hp2. destruct (K8 c cl d2 Ec Hp2) as (b2 & Eb & Hle). destruct (decide (d2 = d)) as [->|].
    + rewrite lookup_insert_eq. eexists. split; [done|]. simpl. simplify_eq. done.
    + exists b2. by rewrite lookup_insert_ne.
  - simpl. intros d2 Hd. apply lookup_insert_is_Some. destruct (decide (d = d2)); [by left|right]. split; [done|]. apply K10. bump_lia.
Qed.

(** ** A client's duplications *)
Lemma dupes_in_ext refs refs' t h is_ro :
  (forall r, r ∈ inorder t -> refs' !! r = refs !! r) -> dupes_in refs' t h is_ro = dupes_in refs t h is_ro.
Proof. intros H. apply lsum_ext. intros r Hr. unfold dupes_at. by rewrite H. Qed.

Lemma dupes_in_upd refs t h is_ro r x y :
  NoDup (inorder t) -> r ∈ inorder t -> refs !! r = Some x -> ref_handle y = ref_handle x -> ref_is_ro y = ref_is_ro x ->
  dupes_in (<[r := y]> refs) t h is_ro = dupes_in refs t h is_ro + (if named h is_ro x then dupes y - dupes x else 0).
Proof.
  intros Hnd Hr E Eh Er. unfold dupes_in. apply list_elem_of_split in Hr as (l1 & l2 & Ht). rewrite Ht in *.
  apply NoDup_app in Hnd as (_ & Hd & [Hr2 _]%NoDup_cons). rewrite !lsum_app. simpl.
  rewrite (lsum_ext (dupes_at (<[r := y]> refs) h is_ro) (dupes_at refs h is_ro) l1), (lsum_ext (dupes_at (<[r := y]> refs) h is_ro) (dupes_at refs h is_ro) l2).
  - unfold dupes_at at 2 5. rewrite lookup_insert_eq, E. assert (En : named h is_ro y = named h is_ro x) by (unfold named; congruence).
    rewrite En. case_match; lia.
  - intros r' Hr'. unfold dupes_at. rewrite lookup_insert_ne; [done|]. intros <-. done.
  - intros r' Hr'. unfold dupes_at. rewrite lookup_insert_ne; [done|]. intros <-. apply (Hd r Hr'). by left.
Qed.

(** Room for numbers of a dma-buf when [n] duplications of [x] go. *)
Definition slack (s : state) (r : Z) (x : nvmap_handle_ref) (n : Z) : Prop :=
  forall c cl d b, st_clients s !! c = Some cl -> r ∈ tree_refs cl -> st_bufs s !! d = Some b ->
    named (info_handle b) (info_is_ro b) x = true -> 0 < ids_of cl d ->
    ids_of cl d + n <= dupes_in (st_refs s) (handle_refs cl) (info_handle b) (info_is_ro b).

Lemma keeps_dupes eh eb s r x n :
  keeps eh eb s -> st_refs s !! r = Some x -> 1 <= dupes x + n -> slack s r x (- n) ->
  keeps (bump (ref_handle x) (- n) eh) eb (set_refs (<[r := set_dupes (dupes x + n) x]> (st_refs s)) s).
Proof.
  intros K E Hp Hs. pose proof (fun c cl => tree_NoDup1 K c cl) as Hnd. keeps_split K.
  constructor; simpl; try done.
  - intros h hx Eh. destruct (K1 h hx Eh) as (? & ? & ?).
    unfold dupes_of, bufs_of, entries_of, refs_of in *. simpl in *. rewrite !(msum_upd _ _ r x) by done. simpl.
    bump_lia; case_if; lia.
  - intros d b Eb. destruct (K2 d b Eb) as (H & ? & ?). split_and!; try done. rewrite H. unfold kind_of, fds_of. simpl.
    rewrite (msum_upd _ _ r x) by done. unfold named. simpl. lia.
  - intros r2 y [[<- <-]|[Hne Er]]%lookup_insert_Some; [|eauto]. simpl. destruct (K4 r x E) as (? & ?). done.
  - rewrite K7. rewrite <- (insert_delete_eq (st_refs s) r (set_dupes _ _)).
    rewrite map_to_list_insert by apply lookup_delete_eq. simpl. rewrite <- (map_to_list_delete (st_refs s) r x E) at 1. done.
  - intros c cl d Ec Hd. destruct (K8 c cl d Ec Hd) as (b & Eb & Hle). exists b. split; [done|].
    destruct (decide (r ∈ inorder (handle_refs cl))) as [Hr|Hr].
    + rewrite (dupes_in_upd _ _ _ _ r x) by (done || by eapply Hnd). simpl. case_match eqn:En; [|lia].
      specialize (Hs c cl d b Ec Hr Eb En Hd). lia.
    + rewrite (dupes_in_ext (st_refs s)); [done|]. intros r2 Hr2. apply lookup_insert_ne. by intros <-.
  - intros h. unfold bump. case_decide as D; [subst h; intros _|rewrite Z.add_0_r; auto].
    destruct (K4 r x E) as (_ & hx & d & Eh & _). eauto.
Qed.

(** A new reference, linked into a client's tree. *)
Definition link (r c h : Z) (is_ro : bool) (t : tree) (cl : nvmap_client) (x : nvmap_handle) (s : state) : state :=
  set_handles (<[h := set_share (share_count x + 1) x]> (st_handles s))
    (set_clients (<[c := set_tree t cl]> (st_clients s))
      (set_refs (<[r := HandleRef h 1 is_ro]> (st_refs s)) s)).

Lemma dupes_in_other K_refs t h is_ro r (y : nvmap_handle_ref) :
  r ∉ inorder t -> dupes_in (<[r := y]> K_refs) t h is_ro = dupes_in K_refs t h is_ro.
Proof. intros Hr. apply dupes_in_ext. intros r2 Hr2. apply lookup_insert_ne. by intros <-. Qed.

Lemma field_insert (m : gmap Z nvmap_handle) h x x' h2 is_ro d :
  m !! h = Some x -> dmabuf_of is_ro x' = dmabuf_of is_ro x ->
  (exists y, m !! h2 = Some y /\ dmabuf_of is_ro y = DBuf d) ->
  exists y, <[h := x']> m !! h2 = Some y /\ dmabuf_of is_ro y = DBuf d.
Proof.
  intros E Ed (y & Ey & Hy). destruct (decide (h2 = h)) as [->|].
  - exists x'. rewrite lookup_insert_eq, Ed. split; [done|]. congruence.
  - exists y. by rewrite lookup_insert_ne.
Qed.
Lemma some_insert {A} (m : gmap Z A) h x h2 : is_Some (m !! h2) -> is_Some (<[h := x]> m !! h2).
Proof. intros H. apply lookup_insert_is_Some. destruct (decide (h = h2)); auto. Qed.

Lemma named_buf (bs : gmap Z dma_buf) (hs : gmap Z nvmap_handle) d2 d b n ref x y :
  bs !! d2 = Some b -> bs !! d = Some (DmaBuf n (ref_handle ref) (ref_is_ro ref)) ->
  hs !! ref_handle ref = Some x -> dmabuf_of (ref_is_ro ref) x = DBuf d ->
  hs !! info_handle b = Some y -> dmabuf_of (info_is_ro b) y = DBuf d2 ->
  named (info_handle b) (info_is_ro b) ref = bool_decide (d2 = d).
Proof.
  intros E2 E Ex Ed Ey Ed2. case_bool_decide as D.
  - subst. rewrite E in E2. simplify_eq/=. by apply named_true.
  - apply not_true_is_false. intros [H1 H2]%named_true. apply D. rewrite H1, H2 in *. congruence.
Qed.

Lemma keeps_link eh eb s r c h is_ro t cl x d :
  keeps eh eb s -> st_refs s !! r = None -> st_clients s !! c = Some cl -> st_handles s !! h = Some x ->
  dmabuf_of is_ro x = DBuf d -> inorder t ≡ₚ r :: tree_refs cl ->
  keeps (bump h (-1) eh) (bump d (-1) eb) (link r c h is_ro t cl x s).
Proof.
  intros K Er Ec Ex Ed Ht. unfold link.
  assert (Hout : forall c2 cl2, st_clients s !! c2 = Some cl2 -> r ∉ tree_refs cl2).
  { intros c2 cl2 E2 Hin. destruct (tree_ref K r c2 cl2 E2 Hin) as [y Ey]. congruence. }
  pose proof (k_ptr _ _ _ K h x is_ro Ex) as Hd. rewrite Ed in Hd. destruct Hd as [nd Hd].
  keeps_split K. constructor; simpl; try done.
  - intros h2 y E2.
    assert (Hy : exists y0, st_handles s !! h2 = Some y0 /\ h_ref y = h_ref y0 /\
      share_count y = share_count y0 + (if decide (h2 = h) then 1 else 0)).
    { apply lookup_insert_Some in E2 as [[<- <-]|[Hne E2]]; [exists x|exists y]; case_decide; simpl; split_and!; done || lia. }
    destruct Hy as (y0 & Ey0 & -> & ->). destruct (K1 h2 y0 Ey0) as (? & ? & ?).
    unfold dupes_of, bufs_of, entries_of, refs_of in *. simpl. rewrite !msum_new by done. simpl.
    destruct (h =? h2) eqn:Eq; zb; bump_lia; simpl; lia.
  - intros d2 b E2. destruct (K2 d2 b E2) as (H & ? & y & Ey & Hy). split_and!; try done.
    + rewrite H. unfold kind_of, fds_of. simpl. rewrite msum_new by done.
      assert (En : named (info_handle b) (info_is_ro b) (HandleRef h 1 is_ro) = bool_decide (d2 = d)).
      { apply (named_buf (st_bufs s) (st_handles s) d2 d b nd _ x y); done. }
      rewrite En. unfold bump. case_bool_decide; case_decide; simpl; done || lia.
    + eapply field_insert; [done|by destruct (info_is_ro b)|eauto].
  - intros h2 y is_ro2 [[<- <-]|[Hne Ey]]%lookup_insert_Some; [|by eapply K3].
    specialize (K3 h x is_ro2 Ex). by destruct is_ro2.
  - intros r2 y [[<- <-]|[Hne E2]]%lookup_insert_Some.
    + split; [simpl; lia|]. simpl. eexists _, d. split; [by rewrite lookup_insert_eq|]. by destruct is_ro.
    + destruct (K4 r2 y E2) as (? & hx & d2 & H1 & H2). split; [done|].
      destruct (field_insert (st_handles s) h x (set_share (share_count x + 1) x) (ref_handle y) (ref_is_ro y) d2 Ex) as (hx' & ? & ?);
        [by destruct (ref_is_ro y)|eauto|eauto].
  - intros e He. destruct (K5 e He). split; [done|]. by apply some_insert.
  - rewrite gather_insert. unfold tree_refs at 1. simpl. rewrite Ht. simpl.
    rewrite map_to_list_insert by done. simpl. constructor. rewrite <- K7. by rewrite <- (gather_delete tree_refs _ _ _ Ec).
  - intros c2 cl2 d2 E2 Hp.
    assert (Hc : exists cl0, st_clients s !! c2 = Some cl0 /\ ida cl2 = ida cl0 /\
      (handle_refs cl2 = handle_refs cl0 \/ inorder (handle_refs cl2) ≡ₚ r :: tree_refs cl0)).
    { apply lookup_insert_Some in E2 as [[<- <-]|[Hne E2]]; [exists cl|exists cl2]; simpl; auto. }
    destruct Hc as (cl0 & Ec0 & Ei & Hc). unfold ids_of in *. rewrite Ei in *. destruct (K8 c2 cl0 d2 Ec0 Hp) as (b & Eb & Hle).
    exists b. split; [done|]. etransitivity; [exact Hle|]. specialize (Hout c2 cl0 Ec0). destruct Hc as [->|Hc].
    + rewrite dupes_in_other by done. lia.
    + unfold dupes_in. rewrite (lsum_perm _ _ _ Hc). simpl. unfold dupes_at at 2. rewrite lookup_insert_eq.
      rewrite (lsum_ext (dupes_at (<[r := _]> _) _ _) (dupes_at (st_refs s) (info_handle b) (info_is_ro b))).
      * change (tree_refs cl0) with (inorder (handle_refs cl0)). case_match; simpl; lia.
      * intros r2 Hr2. unfold dupes_at. rewrite lookup_insert_ne; [done|]. by intros <-.
  - intros h2 H2. apply lookup_insert_is_Some. destruct (decide (h = h2)); [by left|right]. split; [done|]. apply K9. bump_lia.
  - intros d2 H2. destruct (decide (d2 = d)) as [->|]; [eauto|]. apply K10. bump_lia.
Qed.

(** A reference goes: what it counted for is free. *)
Definition unlink (r c : Z) (t : tree) (ref : nvmap_handle_ref) (cl : nvmap_client) (x : nvmap_handle) (s : state) : state :=
  set_handles (<[ref_handle ref := set_share (share_count x - 1) x]> (st_handles s))
    (set_clients (<[c := set_tree t cl]> (st_clients s)) (set_refs (delete r (st_refs s)) s)).

Lemma filter_ne_perm r (l : list Z) : NoDup l -> r ∈ l -> l ≡ₚ r :: filter (fun x => x <> r) l.
Proof.
  intros Hnd Hr. apply list_elem_of_split in Hr as (l1 & l2 & ->).
  apply NoDup_app in Hnd as (_ & Hd & [Hr2 _]%NoDup_cons).
  assert (Hid : forall l : list Z, r ∉ l -> filter (fun x => x <> r) l = l).
  { clear. induction l as [|x l IH]; intros H; [done|]. apply not_elem_of_cons in H as [? ?].
    rewrite filter_cons_True by congruence. by rewrite IH. }
  rewrite filter_app, filter_cons_False by tauto. rewrite !Hid; [by rewrite <- Permutation_middle|done|].
  intros Hin. apply (Hd r Hin). by left.
Qed.

Lemma keeps_unlink eh eb s r c t ref cl x d :
  keeps eh eb s -> st_refs s !! r = Some ref -> st_clients s !! c = Some cl -> r ∈ tree_refs cl ->
  inorder t = filter (fun x => x <> r) (tree_refs cl) ->
  st_handles s !! ref_handle ref = Some x -> dmabuf_of (ref_is_ro ref) x = DBuf d -> slack s r ref (dupes ref) ->
  keeps (bump (ref_handle ref) (dupes ref) eh) (bump d 1 eb) (unlink r c t ref cl x s).
Proof.
  intros K Er Ec Hr Ht Ex Ed Hsl. unfold unlink.
  assert (Htp : tree_refs cl ≡ₚ r :: inorder t).
  { rewrite Ht. apply filter_ne_perm; [|done]. by eapply tree_NoDup1. }
  assert (Hout : forall c2 cl2, c2 <> c -> st_clients s !! c2 = Some cl2 -> r ∉ tree_refs cl2).
  { intros c2 cl2 Hne E2 Hin. apply Hne. by eapply (tree_unique K r). }
  pose proof (k_ptr _ _ _ K _ x (ref_is_ro ref) Ex) as Hd. rewrite Ed in Hd. destruct Hd as [nd Hd].
  set (h := ref_handle ref) in *. set (ro := ref_is_ro ref) in *.
  keeps_split K. constructor; simpl; try done.
  - intros h2 y E2.
    assert (Hy : exists y0, st_handles s !! h2 = Some y0 /\ h_ref y = h_ref y0 /\
      share_count y = share_count y0 - (if decide (h2 = h) then 1 else 0)).
    { apply lookup_insert_Some in E2 as [[<- <-]|[Hne E2]]; [exists x|exists y]; case_decide; simpl; split_and!; done || lia. }
    destruct Hy as (y0 & Ey0 & -> & ->). destruct (K1 h2 y0 Ey0) as (? & ? & ?).
    unfold dupes_of, bufs_of, entries_of, refs_of in *. simpl. rewrite !(msum_del _ _ r ref) by done. fold h.
    destruct (h =? h2) eqn:Eq; zb; bump_lia; simpl; lia.
  - intros d2 b E2. destruct (K2 d2 b E2) as (H & ? & y & Ey & Hy). split_and!; try done.
    + rewrite H. unfold kind_of, fds_of. simpl. rewrite (msum_del _ _ r ref) by done.
      assert (En : named (info_handle b) (info_is_ro b) ref = bool_decide (d2 = d)).
      { apply (named_buf (st_bufs s) (st_handles s) d2 d b nd _ x y); done. }
      rewrite En. unfold bump. case_bool_decide; case_decide; simpl; done || lia.
    + eapply field_insert; [done|by destruct (info_is_ro b)|eauto].
  - intros h2 y is_ro2 [[<- <-]|[Hne Ey]]%lookup_insert_Some; [|by eapply K3].
    specialize (K3 h x is_ro2 Ex). by destruct is_ro2.
  - intros r2 y [Hne E2]%lookup_delete_Some. destruct (K4 r2 y E2) as (? & hx & d2 & H1 & H2). split; [done|].
    destruct (field_insert (st_handles s) h x (set_share (share_count x - 1) x) (ref_handle y) (ref_is_ro y) d2 Ex) as (hx' & ? & ?);
      [by destruct (ref_is_ro y)|eauto|eauto].
  - intros e He. destruct (K5 e He). split; [done|]. by apply some_insert.
  - apply (Permutation_cons_inv (a := r)). rewrite gather_insert. unfold tree_refs at 1. simpl.
    rewrite app_comm_cons. rewrite <- Htp. rewrite <- (gather_delete tree_refs _ _ _ Ec), K7.
    by rewrite <- (map_to_list_delete (st_refs s) r ref Er).
  - intros c2 cl2 d2 E2 Hp.
    assert (Hdel : forall t, r ∉ inorder t -> forall h is_ro, dupes_in (delete r (st_refs s)) t h is_ro = dupes_in (st_refs s) t h is_ro).
    { intros t2 Hr2 h2 is_ro2. apply dupes_in_ext. intros r2 Hin. rewrite lookup_delete_ne; [done|]. by intros <-. }
    apply lookup_insert_Some in E2 as [[<- <-]|[Hne E2]].
    + unfold ids_of in Hp. simpl in Hp. fold (ids_of cl d2) in Hp. destruct (K8 c cl d2 Ec Hp) as (b & Eb & Hle). exists b. split; [done|].
      unfold ids_of. simpl. fold (ids_of cl d2). rewrite Hdel by (rewrite Ht; intros [? _]%list_elem_of_filter; done).
      assert (Hs : dupes_in (st_refs s) (handle_refs cl) (info_handle b) (info_is_ro b) =
        (if named (info_handle b) (info_is_ro b) ref then dupes ref else 0) + dupes_in (st_refs s) t (info_handle b) (info_is_ro b)).
      { unfold dupes_in. fold (tree_refs cl). rewrite (lsum_perm _ _ _ Htp). simpl. unfold dupes_at at 1. by rewrite Er. }
      destruct (named (info_handle b) (info_is_ro b) ref) eqn:En; [|lia]. specialize (Hsl c cl d2 b Ec Hr Eb En Hp). lia.
    + destruct (K8 c2 cl2 d2 E2 Hp) as (b & Eb & Hle). exists b. split; [done|]. rewrite Hdel; [done|]. by eapply Hout.
  - intros h2 H2. apply lookup_insert_is_Some. destruct (decide (h = h2)); [by left|right]. split; [done|]. apply K9. bump_lia.
  - intros d2 H2. destruct (decide (d2 = d)) as [->|]; [eauto|]. apply K10. bump_lia.
Qed.

(** ** Handles and dma-bufs come and go *)

(** A handle with its first dma-buf. *)
Lemma keeps_new eh eb s h d is_ro :
  keeps eh eb s -> st_handles s !! h = None -> st_bufs s !! d = None ->
  keeps (bump h 1 eh) (bump d 1 eb)
    (set_handles (<[h := set_dmabuf is_ro (DBuf d) (Handle 2 0 false DNull DNull)]> (st_handles s))
      (set_bufs (<[d := DmaBuf 1 h is_ro]> (st_bufs s)) s)).
Proof.
  intros K Eh Ed. pose proof (dupes_nonneg K h). pose proof (entries_nonneg K h).
  assert (Hbuf : forall d b, st_bufs s !! d = Some b -> info_handle b <> h).
  { intros d2 b Eb <-. destruct (buf_handle K d2 b Eb) as (x & Ex & _). congruence. }
  assert (Href : forall r y, st_refs s !! r = Some y -> ref_handle y <> h).
  { intros r y Er <-. destruct (k_reference _ _ _ K r y Er) as (_ & x & _ & Ex & _). congruence. }
  assert (Hent : forall e, e ∈ st_entries s -> entry_handle e <> h).
  { intros e Hin <-. destruct (k_entry _ _ _ K e Hin) as [_ [x Ex]]. congruence. }
  assert (Hfd : d ∉ st_fds s) by (intros Hin; destruct (k_fd _ _ _ K d Hin); congruence).
  assert (Z1 : dupes_of s h = 0).
  { apply msum_zero. intros r y Er. specialize (Href r y Er). by case_match; zb. }
  assert (Z2 : refs_of s h = 0).
  { apply msum_zero. intros r y Er. specialize (Href r y Er). destruct (ref_handle y =? h) eqn:E; [zb; done|done]. }
  assert (Z3 : bufs_of s h = 0).
  { apply msum_zero. intros r y Er. specialize (Hbuf r y Er). destruct (info_handle y =? h) eqn:E; [zb; done|done]. }
  assert (Z4 : entries_of s h = 0).
  { apply lsum_zero. intros e He. specialize (Hent e He). by case_match; zb. }
  assert (Z5 : forall ro, kind_of s h ro = 0).
  { intros ro. apply msum_zero. intros r y Er. specialize (Href r y Er). destruct (named h ro y) eqn:E; [|done].
    by apply named_true in E as [? _]. }
  assert (Z6 : fds_of s d = 0).
  { apply lsum_zero. intros e He. destruct (e =? d) eqn:E; [|done]. zb. by subst. }
  assert (Z7 : eh h = 0) by (destruct (decide (eh h = 0)); [done|]; destruct (k_tok _ _ _ K h); [done|congruence]).
  assert (Z8 : eb d = 0) by (destruct (decide (eb d = 0)); [done|]; destruct (k_tokb _ _ _ K d); [done|congruence]).
  assert (Hfield : forall h2 ro d2, (exists y, st_handles s !! h2 = Some y /\ dmabuf_of ro y = DBuf d2) ->
    exists y, <[h := set_dmabuf is_ro (DBuf d) (Handle 2 0 false DNull DNull)]> (st_handles s) !! h2 = Some y /\ dmabuf_of ro y = DBuf d2).
  { intros h2 ro d2 (y & Ey & ?). exists y. rewrite lookup_insert_ne; [done|]. intros <-. congruence. }
  keeps_split K. constructor; simpl; try done.
  - intros h2 y [[<- <-]|[Hne Ey]]%lookup_insert_Some.
    + unfold dupes_of, bufs_of, entries_of, refs_of in *. simpl. rewrite msum_new by done. simpl. rewrite Z.eqb_refl. simpl.
      destruct is_ro; simpl; bump_lia.
    + destruct (K1 h2 y Ey) as (? & ? & ?). unfold dupes_of, bufs_of, entries_of, refs_of in *. simpl. rewrite msum_new by done. simpl.
      destruct (h =? h2) eqn:E; zb; [done|]. simpl. bump_lia.
  - intros d2 b [[<- <-]|[Hne Eb]]%lookup_insert_Some.
    + simpl. unfold kind_of, fds_of in *. simpl. specialize (Z5 is_ro). split_and!; [bump_lia|lia|].
      eexists. split; [by rewrite lookup_insert_eq|]. by destruct is_ro.
    + destruct (K2 d2 b Eb) as (? & ? & Hx). unfold kind_of, fds_of in *. simpl. split_and!; [bump_lia|done|by apply Hfield].
  - intros h2 y ro [[<- <-]|[Hne Ey]]%lookup_insert_Some.
    + destruct is_ro, ro; simpl; try done; eexists; by rewrite lookup_insert_eq.
    + specialize (K3 h2 y ro Ey). destruct (dmabuf_of ro y) as [| |d2]; try done. destruct K3 as [n En]. exists n.
      rewrite lookup_insert_ne; [done|]. intros <-. congruence.
  - intros r y Er. destruct (K4 r y Er) as (? & hx & d2 & H1 & H2). split; [done|].
    destruct (Hfield (ref_handle y) (ref_is_ro y) d2) as (hx' & ? & ?); eauto.
  - intros e He. destruct (K5 e He). split; [done|]. by apply some_insert.
  - intros d2 Hd. apply some_insert. auto.
  - intros c cl d2 Ec Hp. destruct (K8 c cl d2 Ec Hp) as (b & Eb & Hle). exists b. rewrite lookup_insert_ne; [done|]. intros <-. congruence.
  - intros h2 H2. apply lookup_insert_is_Some. destruct (decide (h = h2)); [by left|right]. split; [done|]. apply K9. bump_lia.
  - intros d2 H2. apply lookup_insert_is_Some. destruct (decide (d = d2)); [by left|right]. split; [done|]. apply K10. bump_lia.
Qed.

(** A read-only dma-buf for a handle that has none. *)
Lemma keeps_make eh eb s h x d :
  keeps eh eb s -> st_handles s !! h = Some x -> h_dmabuf_ro x = DNull -> st_bufs s !! d = None ->
  keeps eh (bump d 1 eb)
    (set_handles (<[h := set_dmabuf true (DBuf d) (set_ref (h_ref x + 1) x)]> (st_handles s))
      (set_bufs (<[d := DmaBuf 1 h true]> (st_bufs s)) s)).
Proof.
  intros K Ex Ero Ed.
  assert (Href : forall r y, st_refs s !! r = Some y -> named h true y = false).
  { intros r y Er. apply not_true_is_false. intros [H1 H2]%named_true.
    destruct (k_reference _ _ _ K r y Er) as (_ & hx & d2 & Eh & E2). subst. rewrite H2 in E2. simpl in E2. congruence. }
  assert (Hnb : forall d2 b, st_bufs s !! d2 = Some b -> ~ (info_handle b = h /\ info_is_ro b = true)).
  { intros d2 b Eb [H1 H2]. destruct (buf_handle K d2 b Eb) as (y & Ey & Hy). rewrite H1, H2 in *. simpl in Hy. congruence. }
  assert (Hfd : d ∉ st_fds s) by (intros Hin; destruct (k_fd _ _ _ K d Hin); congruence).
  assert (Z5 : kind_of s h true = 0) by (apply msum_zero; intros r y Er; by rewrite (Href r y Er)).
  assert (Z6 : fds_of s d = 0).
  { apply lsum_zero. intros e He. destruct (e =? d) eqn:E; [|done]. zb. by subst. }
  assert (Z8 : eb d = 0) by (destruct (decide (eb d = 0)); [done|]; destruct (k_tokb _ _ _ K d); [done|congruence]).
  assert (Hfield : forall h2 ro d2, (exists y, st_handles s !! h2 = Some y /\ dmabuf_of ro y = DBuf d2) ->
    exists y, <[h := set_dmabuf true (DBuf d) (set_ref (h_ref x + 1) x)]> (st_handles s) !! h2 = Some y /\ dmabuf_of ro y = DBuf d2).
  { intros h2 ro d2 (y & Ey & Hy). destruct (decide (h2 = h)) as [->|]; [|exists y; by rewrite lookup_insert_ne].
    eexists. split; [by rewrite lookup_insert_eq|]. destruct ro; simpl in *; congruence. }
  keeps_split K. constructor; simpl; try done.
  - intros h2 y [[<- <-]|[Hne Ey]]%lookup_insert_Some.
    + destruct (K1 h x Ex) as (? & ? & ?). unfold dupes_of, bufs_of, entries_of, refs_of in *. simpl. rewrite msum_new by done. simpl.
      rewrite Z.eqb_refl. simpl. lia.
    + destruct (K1 h2 y Ey) as (? & ? & ?). unfold dupes_of, bufs_of, entries_of, refs_of in *. simpl. rewrite msum_new by done. simpl.
      destruct (h =? h2) eqn:E; zb; [done|]. simpl. lia.
  - intros d2 b [[<- <-]|[Hne Eb]]%lookup_insert_Some.
    + simpl. unfold kind_of, fds_of in *. simpl. split_and!; [bump_lia|lia|].
      eexists. split; [by rewrite lookup_insert_eq|]. done.
    + destruct (K2 d2 b Eb) as (? & ? & Hx). unfold kind_of, fds_of in *. simpl. split_and!; [bump_lia|done|by apply Hfield].
  - intros h2 y ro [[<- <-]|[Hne Ey]]%lookup_insert_Some.
    + destruct ro; simpl; [eexists; by rewrite lookup_insert_eq|]. specialize (K3 h x false Ex). simpl in K3.
      destruct (h_dmabuf x) as [| |d2]; try done. destruct K3 as [n En]. exists n. rewrite lookup_insert_ne; [done|]. intros <-. congruence.
    + specialize (K3 h2 y ro Ey). destruct (dmabuf_of ro y) as [| |d2]; try done. destruct K3 as [n En]. exists n.
      rewrite lookup_insert_ne; [done|]. intros <-. congruence.
  - intros r y Er. destruct (K4 r y Er) as (? & hx & d2 & H1 & H2). split; [done|].
    destruct (Hfield (ref_handle y) (ref_is_ro y) d2) as (hx' & ? & ?); eauto.
  - intros e He. destruct (K5 e He). split; [done|]. by apply some_insert.
  - intros d2 Hd. apply some_insert. auto.
  - intros c cl d2 Ec Hp. destruct (K8 c cl d2 Ec Hp) as (b & Eb & Hle). exists b. rewrite lookup_insert_ne; [done|]. intros <-. congruence.
  - intros h2 H2. apply some_insert. auto.
  - intros d2 H2. apply lookup_insert_is_Some. destruct (decide (d = d2)); [by left|right]. split; [done|]. apply K10. bump_lia.
Qed.

(** The release of a dma-buf, up to the handle's reference. *)
Lemma keeps_release eh eb s d b x :
  keeps eh eb s -> st_bufs s !! d = Some b -> f_count b = 0 -> eb d = 0 -> st_handles s !! info_handle b = Some x ->
  keeps (bump (info_handle b) 1 eh) eb
    (set_bufs (delete d (st_bufs s))
      (set_handles (<[info_handle b := set_dmabuf (info_is_ro b) DNull x]> (st_handles s)) s)).
Proof.
  intros K Eb Ef Eeb Ex. destruct (k_buf _ _ _ K d b Eb) as (Hsum & _ & x' & Ex' & Hx). assert (x' = x) as -> by congruence.
  pose proof (kind_nonneg s (info_handle b) (info_is_ro b)). pose proof (fds_nonneg s d).
  assert (Href : forall r y, st_refs s !! r = Some y -> named (info_handle b) (info_is_ro b) y = false).
  { intros r y Er. apply not_true_is_false. intros [H1 H2]%named_true. pose proof (kind_pos s r y Er) as Hk. rewrite H1, H2 in Hk. lia. }
  assert (Hfd : d ∉ st_fds s) by (intros Hin; pose proof (fds_pos s d Hin); lia).
  set (h := info_handle b) in *.
  assert (Hfield : forall h2 ro d2, d2 <> d -> (exists y, st_handles s !! h2 = Some y /\ dmabuf_of ro y = DBuf d2) ->
    exists y, <[h := set_dmabuf (info_is_ro b) DNull x]> (st_handles s) !! h2 = Some y /\ dmabuf_of ro y = DBuf d2).
  { intros h2 ro d2 Hne (y & Ey & Hy). destruct (decide (h2 = h)) as [->|]; [|exists y; by rewrite lookup_insert_ne].
    eexists. split; [by rewrite lookup_insert_eq|]. assert (y = x) as -> by congruence.
    destruct ro, (info_is_ro b); simpl in *; congruence. }
  keeps_split K. constructor; simpl; try done.
  - intros h2 y E2.
    assert (Hy : exists y0, st_handles s !! h2 = Some y0 /\ h_ref y = h_ref y0 /\ share_count y = share_count y0).
    { apply lookup_insert_Some in E2 as [[<- <-]|[Hne E2]]; [exists x|exists y]; split_and!; try done; by destruct (info_is_ro b). }
    destruct Hy as (y0 & Ey0 & -> & ->). destruct (K1 h2 y0 Ey0) as (? & ? & ?).
    unfold dupes_of, bufs_of, entries_of, refs_of in *. simpl. rewrite (msum_del _ _ d b) by done. fold h.
    destruct (h =? h2) eqn:Eq; zb; bump_lia; simpl; lia.
  - intros d2 b2 [Hne Eb2]%lookup_delete_Some. destruct (K2 d2 b2 Eb2) as (? & ? & Hx2). split_and!; [done|done|]. by apply Hfield.
  - intros h2 y ro E2.
    assert (Hk : forall y0, st_handles s !! h2 = Some y0 -> (h2 = h -> ro <> info_is_ro b) ->
      match dmabuf_of ro y0 with DNull => True | DErr => False | DBuf d2 => exists n, delete d (st_bufs s) !! d2 = Some (DmaBuf n h2 ro) end).
    { intros y0 Ey0 Hne. specialize (K3 h2 y0 ro Ey0). destruct (dmabuf_of ro y0) as [| |d2] eqn:E3; try done. destruct K3 as [n En].
      exists n. rewrite lookup_delete_ne; [done|]. intros <-. rewrite Eb in En. simplify_eq/=. by apply Hne. }
    apply lookup_insert_Some in E2 as [[<- <-]|[Hne E2]]; [|apply Hk; [done|congruence]].
    destruct (decide (ro = info_is_ro b)) as [->|Hro]; [by destruct (info_is_ro b)|].
    replace (dmabuf_of ro (set_dmabuf (info_is_ro b) DNull x)) with (dmabuf_of ro x) by (by destruct ro, (info_is_ro b)).
    by apply Hk.
  - intros r y Er. destruct (K4 r y Er) as (? & hx & d2 & H1 & H2). split; [done|].
    assert (Hd : d2 <> d).
    { intros ->. pose proof (K3 _ hx (ref_is_ro y) H1) as Hp. rewrite H2 in Hp. destruct Hp as [n En]. rewrite Eb in En.
      specialize (Href r y Er). apply not_true_iff_false in Href. apply Href, named_true. unfold h. injection En as ->. done. }
    destruct (Hfield (ref_handle y) (ref_is_ro y) d2) as (hx' & ? & ?); eauto.
  - intros e He. destruct (K5 e He). split; [done|]. by apply some_insert.
  - intros d2 Hd. rewrite lookup_delete_ne by congruence. auto.
  - intros c cl d2 Ec Hp. destruct (K8 c cl d2 Ec Hp) as (b2 & Eb2 & Hle). exists b2. rewrite lookup_delete_ne; [done|]. intros <-.
    rewrite Eb in Eb2. simplify_eq.
    assert (Hd : dupes_in (st_refs s) (handle_refs cl) (info_handle b2) (info_is_ro b2) = 0); [|lia].
    apply lsum_zero. intros r Hr. unfold dupes_at. destruct (st_refs s !! r) as [y|] eqn:Er; [|done]. fold h. by rewrite (Href r y Er).
  - intros h2 H2. apply lookup_insert_is_Some. destruct (decide (h = h2)); [by left|right]. split; [done|]. apply K9. bump_lia.
  - intros d2 H2. rewrite lookup_delete_ne by congruence. auto.
Qed.

(** ** Numbers, entries, descriptors, clients *)
Lemma keeps_id_add eh eb s c cl id d b :
  keeps eh eb s -> st_clients s !! c = Some cl -> ida cl !! id = None -> st_bufs s !! d = Some b ->
  ids_of cl d + 1 <= dupes_in (st_refs s) (handle_refs cl) (info_handle b) (info_is_ro b) ->
  keeps eh eb (set_clients (<[c := set_ida (<[id := d]> (ida cl)) cl]> (st_clients s)) s).
Proof.
  intros K Ec Ei Eb Hle. keeps_split K. constructor; simpl; try done.
  - rewrite gather_insert. rewrite <- K7. by rewrite (gather_delete tree_refs _ _ _ Ec).
  - intros c2 cl2 d2 [[<- <-]|[Hne E2]]%lookup_insert_Some; [|eauto]. unfold ids_of. simpl. rewrite msum_new by done.
    fold (ids_of cl d2). destruct (d =? d2) eqn:Ed; zb; simpl; intros Hp.
    + subst. exists b. split; [done|lia].
    + rewrite Z.add_0_r in *. eauto.
Qed.
Lemma keeps_id_del eh eb s c cl id :
  keeps eh eb s -> st_clients s !! c = Some cl ->
  keeps eh eb (set_clients (<[c := set_ida (delete id (ida cl)) cl]> (st_clients s)) s).
Proof.
  intros K Ec. keeps_split K. constructor; simpl; try done.
  - rewrite gather_insert. rewrite <- K7. by rewrite (gather_delete tree_refs _ _ _ Ec).
  - intros c2 cl2 d2 [[<- <-]|[Hne E2]]%lookup_insert_Some; [|eauto]. unfold ids_of. simpl. intros Hp.
    destruct (ida cl !! id) as [d|] eqn:Ei; [|rewrite delete_id in Hp |- * by done; eauto].
    rewrite (msum_del _ _ id d) in Hp |- * by done. fold (ids_of cl d2) in Hp |- *. pose proof (ind_nonneg (d =? d2)).
    destruct (K8 c cl d2 Ec) as (b & Eb & ?); [lia|]. exists b. split; [done|lia].
Qed.
Lemma keeps_ids_clear eh eb s c cl :
  keeps eh eb s -> st_clients s !! c = Some cl -> keeps eh eb (set_clients (<[c := set_ida ∅ cl]> (st_clients s)) s).
Proof.
  intros K Ec. keeps_split K. constructor; simpl; try done.
  - rewrite gather_insert. rewrite <- K7. by rewrite (gather_delete tree_refs _ _ _ Ec).
  - intros c2 cl2 d2 [[<- <-]|[Hne E2]]%lookup_insert_Some; [|eauto]. unfold ids_of. simpl. rewrite msum_empty. lia.
Qed.

Lemma keeps_entries eh eh' eb s l :
  keeps eh eb s -> (forall e, e ∈ l -> 1 <= entry_refcount e /\ is_Some (st_handles s !! entry_handle e)) ->
  (forall h, lsum (fun e => if entry_handle e =? h then entry_refcount e else 0) l + eh' h = entries_of s h + eh h) ->
  keeps eh' eb (set_entries l s).
Proof.
  intros K Hl Hs. pose proof (entries_nonneg K) as Hn. keeps_split K. constructor; simpl; try done.
  - intros h x E. destruct (K1 h x E) as (? & ? & ?). unfold dupes_of, bufs_of, refs_of in *. simpl. specialize (Hs h).
    unfold entries_of at 1. simpl. lia.
  - intros h Hh. specialize (Hs h). destruct (decide (eh h = 0)) as [E0|]; [|auto].
    destruct (decide (0 < entries_of s h)) as [Hp|].
    + apply lsum_pos in Hp as (e & He & Hp). case_match eqn:E; [|lia]. zb. subst. by apply K5.
    + specialize (Hn h). assert (Hp : 0 < lsum (fun e => if entry_handle e =? h then entry_refcount e else 0) l).
      { pose proof (lsum_nonneg (fun e => if entry_handle e =? h then entry_refcount e else 0) l). 
        assert (0 <= lsum (fun e => if entry_handle e =? h then entry_refcount e else 0) l); [|lia].
        apply H. intros e He. destruct (Hl e He). case_match; lia. }
      apply lsum_pos in Hp as (e & He & Hp). case_match eqn:E; [|lia]. zb. subst. by apply Hl.
Qed.

Lemma keeps_fds eh eb eb' s l :
  keeps eh eb s -> (forall d, d ∈ l -> is_Some (st_bufs s !! d)) ->
  (forall d, lsum (fun x => ind (x =? d)) l + eb' d = fds_of s d + eb d) ->
  (forall d, eb' d <> 0 -> is_Some (st_bufs s !! d)) ->
  keeps eh eb' (set_fds l s).
Proof.
  intros K Hl Hs Ht. keeps_split K. constructor; simpl; try done.
  intros d b Eb. destruct (K2 d b Eb) as (? & ? & ?). split; [|done]. specialize (Hs d). unfold kind_of in *. unfold fds_of at 1. simpl. lia.
Qed.

Lemma keeps_open eh eb s c :
  keeps eh eb s -> st_clients s !! c = None -> keeps eh eb (set_clients (<[c := Client Leaf ∅]> (st_clients s)) s).
Proof.
  intros K Ec. keeps_split K. constructor; simpl; try done.
  - rewrite gather_insert, delete_id by done. done.
  - intros c2 cl2 d2 [[<- <-]|[Hne E2]]%lookup_insert_Some; [|eauto]. unfold ids_of. simpl. rewrite msum_empty. lia.
Qed.
Lemma keeps_close eh eb s c cl :
  keeps eh eb s -> st_clients s !! c = Some cl -> tree_refs cl = [] ->
  keeps eh eb (set_clients (delete c (st_clients s)) s).
Proof.
  intros K Ec Et. keeps_split K. constructor; simpl; try done.
  - rewrite <- K7. rewrite (gather_delete tree_refs _ _ _ Ec), Et. done.
  - intros c2 cl2 d2 [Hne E2]%lookup_delete_Some. eauto.
Qed.

Lemma keeps_sids eh eb s x : keeps eh eb s -> keeps eh eb (set_sids x s).
Proof. intros K. keeps_split K. by constructor. Qed.
Lemma keeps_unq eh eb s x : keeps eh eb s -> keeps eh eb (set_unq x s).
Proof. intros K. keeps_split K. by constructor. Qed.
Lemma keeps_xa_start eh eb s x : keeps eh eb s -> keeps eh eb (set_xa_start x s).
Proof. intros K. keeps_split K. by constructor. Qed.
