(* ===== verification/NvmapShareOps.v ===== *)
(** Every function on nvmap's handles keeps the reference counts exact.

    [runs m s Q]: from [s] the function [m] comes to an end, without a crash, and [Q] holds
    of its result and of the state.  Each function has a lemma in this form. *)
From S2P Require Import Prelude Sums NvmapHandle NvmapHandleInv.

(** * Running *)
Definition runs {A} (m : M A) (s : state) (Q : A -> state -> Prop) : Prop := exists a s', m s = Some (a, s') /\ Q a s'.

Section runs.
Context {A B : Type}.
Lemma runs_then (m : M A) (f : A -> M B) s Q : runs m s (fun a s' => runs (f a) s' Q) -> runs (m ≫= f) s Q.
Proof. intros (a & s1 & E & b & s2 & E2 & H). exists b, s2. split; [|done]. unfold mbind, M_bind. by rewrite E. Qed.
Lemma runs_ret (a : A) s (Q : A -> state -> Prop) : Q a s -> runs (mret a) s Q.
Proof. intros H. by exists a, s. Qed.
Lemma runs_get (f : state -> A) s (Q : A -> state -> Prop) : Q (f s) s -> runs (get f) s Q.
Proof. intros H. by exists (f s), s. Qed.
Lemma runs_need (x : option A) a s (Q : A -> state -> Prop) : x = Some a -> Q a s -> runs (need x) s Q.
Proof. intros -> H. by exists a, s. Qed.
Lemma runs_mono (m : M A) s (Q Q' : A -> state -> Prop) : runs m s Q -> (forall a s', Q a s' -> Q' a s') -> runs m s Q'.
Proof. intros (a & s' & E & H) HQ. exists a, s'. auto. Qed.
Lemma runs_assoc3 {C D} (m1 : M C) (m2 : M D) (m3 : M A) (m : M B) s Q :
  runs (m1;; m2;; m3) s (fun _ s' => runs m s' Q) -> runs (m1;; m2;; m3;; m) s Q.
Proof.
  intros (v & s1 & E & b & s2 & Em & H). exists b, s2. split; [|done]. unfold mbind, M_bind in *.
  destruct (m1 s) as [[? s3]|]; [|done]. destruct (m2 s3) as [[? s4]|]; [|done]. by rewrite E.
Qed.
End runs.
Lemma runs_modify f s (Q : unit -> state -> Prop) : Q tt (f s) -> runs (modify f) s Q.
Proof. intros H. by exists tt, (f s). Qed.

Lemma runs_get_handle h x s (Q : nvmap_handle -> state -> Prop) : st_handles s !! h = Some x -> Q x s -> runs (get_handle h) s Q.
Proof. intros E H. apply runs_then, runs_get. by apply (runs_need _ x). Qed.
Lemma runs_upd_handle h f x s (Q : unit -> state -> Prop) : st_handles s !! h = Some x ->
  Q tt (set_handles (<[h := f x]> (st_handles s)) s) -> runs (upd_handle h f) s Q.
Proof. intros E H. apply runs_then. apply (runs_get_handle h x); [done|]. by apply runs_modify. Qed.
Lemma runs_get_buf d b s (Q : dma_buf -> state -> Prop) : st_bufs s !! d = Some b -> Q b s -> runs (get_buf d) s Q.
Proof. intros E H. apply runs_then, runs_get. by apply (runs_need _ b). Qed.
Lemma runs_upd_buf d f b s (Q : unit -> state -> Prop) : st_bufs s !! d = Some b ->
  Q tt (set_bufs (<[d := f b]> (st_bufs s)) s) -> runs (upd_buf d f) s Q.
Proof. intros E H. apply runs_then. apply (runs_get_buf d b); [done|]. by apply runs_modify. Qed.
Lemma runs_get_ref r x s (Q : nvmap_handle_ref -> state -> Prop) : st_refs s !! r = Some x -> Q x s -> runs (get_ref r) s Q.
Proof. intros E H. apply runs_then, runs_get. by apply (runs_need _ x). Qed.
Lemma runs_upd_ref r f x s (Q : unit -> state -> Prop) : st_refs s !! r = Some x ->
  Q tt (set_refs (<[r := f x]> (st_refs s)) s) -> runs (upd_ref r f) s Q.
Proof. intros E H. apply runs_then. apply (runs_get_ref r x); [done|]. by apply runs_modify. Qed.
Lemma runs_get_client c cl s (Q : nvmap_client -> state -> Prop) : st_clients s !! c = Some cl -> Q cl s -> runs (get_client c) s Q.
Proof. intros E H. apply runs_then, runs_get. by apply (runs_need _ cl). Qed.
Lemma runs_upd_client c f cl s (Q : unit -> state -> Prop) : st_clients s !! c = Some cl ->
  Q tt (set_clients (<[c := f cl]> (st_clients s)) s) -> runs (upd_client c f) s Q.
Proof. intros E H. apply runs_then. apply (runs_get_client c cl); [done|]. by apply runs_modify. Qed.

Ltac run := repeat match goal with
  | |- runs (mbind _ _) _ _ => apply runs_then
  | |- runs (mret _) _ _ => apply runs_ret
  | |- runs (get _) _ _ => apply runs_get
  | |- runs (modify _) _ _ => apply runs_modify
  end.
Ltac bumps := eapply keeps_ext; [eassumption| |]; intros; bump_lia.

#[local] Arguments get_dma_buf : simpl never.
#[local] Arguments dma_buf_put : simpl never.

(** * Interfaces *)

(** What is relied on of the kernel's trees and numbers. *)
Class KernelOk (k : kernel) : Prop := {
  insert_color_inorder r t : inorder (rb_insert_color k r t) = inorder t;
  erase_inorder r t : inorder (rb_erase k r t) = filter (fun x => x <> r) (inorder t);
  xa_alloc_free m start id : xa_alloc k m start = inr id -> m !! id = None
}.

Definition info (b : dma_buf) : Z * bool := (info_handle b, info_is_ro b).
Definition same_bufs (bs bs' : gmap Z dma_buf) : Prop := forall d, info <$> bs' !! d = info <$> bs !! d.
Lemma same_bufs_refl bs : same_bufs bs bs.
Proof. done. Qed.
Lemma same_bufs_trans bs1 bs2 bs3 : same_bufs bs1 bs2 -> same_bufs bs2 bs3 -> same_bufs bs1 bs3.
Proof. intros H1 H2 d. by rewrite H2. Qed.
Lemma same_bufs_lookup bs bs' d b : same_bufs bs bs' -> bs !! d = Some b -> exists n, bs' !! d = Some (set_f_count n b).
Proof.
  intros H E. specialize (H d). rewrite E in H. destruct (bs' !! d) as [b'|]; simplify_eq/=. exists (f_count b').
  destruct b, b'. unfold info, set_f_count in *. simpl in *. congruence.
Qed.
Lemma same_bufs_count bs d b n : bs !! d = Some b -> same_bufs bs (<[d := set_f_count n b]> bs).
Proof. intros E d2. destruct (decide (d2 = d)) as [->|]; [by rewrite lookup_insert_eq, E|by rewrite lookup_insert_ne]. Qed.

(** Write access: who has a reference that is not read-only. *)
Definition writes (s : state) (c h : Z) : Prop :=
  exists cl r x, st_clients s !! c = Some cl /\ r ∈ tree_refs cl /\ st_refs s !! r = Some x /\ ref_handle x = h /\ ref_is_ro x = false.
Definition gains (P : Z -> Z -> Prop) (s s' : state) : Prop := forall c h, writes s' c h -> writes s c h \/ P c h.

(** What duplicating or freeing leaves alone. *)
Record frame (P : Z -> Z -> Prop) (s s' : state) : Prop := {
  fr_entries : st_entries s' = st_entries s;
  fr_fds : st_fds s' = st_fds s;
  fr_start : xa_start s' = xa_start s;
  fr_ida c : ida <$> st_clients s' !! c = ida <$> st_clients s !! c;
  fr_bufs d b : d ∈ st_fds s -> st_bufs s !! d = Some b -> info <$> st_bufs s' !! d = Some (info b);
  fr_gains : gains P s s'
}.
Lemma same_bufs_kept (fds : list Z) bs bs' d b : same_bufs bs bs' -> d ∈ fds -> bs !! d = Some b -> info <$> bs' !! d = Some (info b).
Proof. intros H _ E. by rewrite H, E. Qed.
Lemma frame_same P s s' : st_entries s' = st_entries s -> st_fds s' = st_fds s -> xa_start s' = xa_start s ->
  st_clients s' = st_clients s -> st_refs s' = st_refs s ->
  (forall d b, d ∈ st_fds s -> st_bufs s !! d = Some b -> info <$> st_bufs s' !! d = Some (info b)) -> frame P s s'.
Proof.
  intros E1 E2 E3 E4 E5 E6. constructor; try done; [intros; by rewrite E4|]. intros c h (cl & r & x & H). left. exists cl, r, x. by rewrite <- E4, <- E5.
Qed.
Lemma frame_trans P s1 s2 s3 : frame P s1 s2 -> frame P s2 s3 -> frame P s1 s3.
Proof.
  intros [A1 A2 A3 A4 A5 A6] [B1 B2 B3 B4 B5 B6]. constructor; [congruence|congruence|congruence|intros; by rewrite B4| |].
  - intros d b Hd Eb. specialize (A5 d b Hd Eb). destruct (st_bufs s2 !! d) as [b2|] eqn:E2; [|done].
    rewrite (B5 d b2) by (by rewrite ?A2). done.
  - intros c h H. destruct (B6 c h H) as [H2|]; [|auto]. apply A6, H2.
Qed.
Lemma frame_client P s s' c cl : frame P s s' -> st_clients s !! c = Some cl -> exists cl', st_clients s' !! c = Some cl' /\ ida cl' = ida cl.
Proof. intros F E. pose proof (fr_ida _ _ _ F c) as H. rewrite E in H. destruct (st_clients s' !! c) as [cl'|]; simplify_eq/=. eauto. Qed.

Definition nobody : Z -> Z -> Prop := fun _ _ => False.
Definition zero : Z -> Z := fun _ => 0.

Section ops.
Context (k : kernel) {HK : KernelOk k}.

(** * Counts *)
Lemma handle_get_runs h s eh eb (Q : bool -> state -> Prop) :
  keeps eh eb s -> is_Some (st_handles s !! h) ->
  (forall hs, keeps (bump h 1 eh) eb (set_handles hs s) -> Q true (set_handles hs s)) -> runs (nvmap_handle_get h) s Q.
Proof.
  intros K [x E] HQ. unfold nvmap_handle_get. apply runs_then. eapply runs_upd_handle; [done|].
  apply runs_then. eapply runs_get_handle; [apply lookup_insert_eq|]. simpl.
  destruct (k_ref _ _ _ K h x E) as (_ & Hp & _). rewrite (proj2 (Z.leb_gt _ _)) by lia. apply runs_ret, HQ.
  eapply keeps_ext; [apply (keeps_handle eh eb s h x (set_ref (h_ref x + 1) x)); simpl; done || lia || by intros []| |];
    intros; simpl; bump_lia.
Qed.

Lemma handle_put_runs h s eh eb (Q : unit -> state -> Prop) :
  keeps eh eb s -> 1 <= eh h \/ (exists x, st_handles s !! h = Some x /\ 2 <= h_ref x) ->
  (forall hs, keeps (bump h (-1) eh) eb (set_handles hs s) -> Q tt (set_handles hs s)) -> runs (nvmap_handle_put h) s Q.
Proof.
  intros K Hh HQ. assert (Hx : exists x, st_handles s !! h = Some x).
  { destruct Hh as [H|(x & ? & _)]; [|eauto]. apply (k_tok _ _ _ K). lia. }
  destruct Hx as [x E]. destruct (k_ref _ _ _ K h x E) as (_ & Hp & _).
  unfold nvmap_handle_put. apply runs_then. eapply runs_upd_handle; [done|].
  apply runs_then. eapply runs_get_handle; [apply lookup_insert_eq|]. simpl. rewrite (proj2 (Z.ltb_ge _ _)) by lia.
  destruct (decide (h_ref x = 1)) as [E1|].
  - rewrite E1. simpl. unfold nvmap_handle_free. apply runs_then. eapply runs_get_handle; [apply lookup_insert_eq|]. simpl.
    apply runs_modify. simpl. rewrite delete_insert_eq. apply HQ. apply (keeps_free _ _ _ _ x); try done.
    destruct Hh as [?|(y & ? & ?)]; [done|]. simplify_eq. lia.
  - rewrite (proj2 (Z.eqb_neq _ _)) by lia. apply runs_ret, HQ.
    eapply keeps_ext; [apply (keeps_handle eh eb s h x (set_ref (h_ref x - 1) x)); simpl; done || lia || by intros []| |];
      intros; simpl; bump_lia.
Qed.

Lemma buf_get_runs d b s eh eb (Q : unit -> state -> Prop) :
  keeps eh eb s -> st_bufs s !! d = Some b -> 0 < f_count b ->
  (forall bs, same_bufs (st_bufs s) bs -> keeps eh (bump d 1 eb) (set_bufs bs s) -> Q tt (set_bufs bs s)) -> runs (get_dma_buf (DBuf d)) s Q.
Proof.
  intros K E Hp HQ. unfold get_dma_buf. apply runs_then. eapply runs_get_buf; [done|]. rewrite (proj2 (Z.leb_gt _ _)) by lia.
  eapply runs_upd_buf; [done|]. apply HQ; [by apply same_bufs_count|]. apply keeps_fcount; [done|done|lia].
Qed.
Lemma buf_put_runs d s eh eb (Q : unit -> state -> Prop) :
  keeps eh eb s -> 1 <= eb d ->
  (forall bs, same_bufs (st_bufs s) bs -> keeps eh (bump d (-1) eb) (set_bufs bs s) -> Q tt (set_bufs bs s)) -> runs (dma_buf_put (DBuf d)) s Q.
Proof.
  intros K Hp HQ. destruct (k_tokb _ _ _ K d) as [b E]; [lia|]. destruct (k_buf _ _ _ K d b E) as (Hs & _).
  pose proof (kind_nonneg s (info_handle b) (info_is_ro b)). pose proof (fds_nonneg s d).
  unfold dma_buf_put. apply runs_then. eapply runs_get_buf; [done|]. rewrite (proj2 (Z.leb_gt _ _)) by lia.
  eapply runs_upd_buf; [done|]. apply HQ; [by apply same_bufs_count|].
  change (f_count b - 1) with (f_count b + (-1)). apply keeps_fcount; [done|done|lia].
Qed.

Lemma release_runs d b s eh eb (Q : unit -> state -> Prop) :
  keeps eh eb s -> st_bufs s !! d = Some b -> f_count b = 0 -> eb d = 0 -> 0 <= eh (info_handle b) ->
  (forall hs, keeps eh eb (set_handles hs (set_bufs (delete d (st_bufs s)) s)) ->
     Q tt (set_handles hs (set_bufs (delete d (st_bufs s)) s))) -> runs (nvmap_dmabuf_release d) s Q.
Proof.
  intros K E Ef Ee Hh HQ. destruct (buf_handle K d b E) as (x & Ex & Hx).
  unfold nvmap_dmabuf_release. apply runs_then. eapply runs_get_buf; [done|]. apply runs_then. eapply runs_get_handle; [done|].
  rewrite Hx, Z.eqb_refl. apply runs_then. eapply runs_upd_handle; [done|]. apply runs_then, runs_modify.
  pose proof (keeps_release _ _ _ _ _ _ K E Ef Ee Ex) as K2.
  eapply handle_put_runs; [exact K2|left; bump_lia|]. intros hs K3. apply HQ. bumps.
Qed.

(** * References *)
Lemma validate_total refs t h is_ro :
  (forall r, r ∈ inorder t -> is_Some (refs !! r)) -> exists found, validate_in refs t h is_ro = Some found /\
    forall r, found = Some r -> r ∈ inorder t /\ exists x, refs !! r = Some x /\ ref_handle x = h /\ ref_is_ro x = is_ro.
Proof.
  induction t as [|l IHl y r IHr]; intros H; simpl; [by exists None|].
  destruct (H y) as [x E]; [simpl; set_solver|]. rewrite E. simpl.
  destruct ((ref_handle x =? h) && Bool.eqb (ref_is_ro x) is_ro) eqn:En.
  - zb. exists (Some y). split; [done|]. intros r' [= <-]. split; [set_solver|]. exists x. split_and!; [done|done|by apply eqb_prop].
  - destruct (ref_handle x <? h).
    + destruct IHr as (f & Ef & Hf); [intros r' Hr'; apply H; simpl; set_solver|]. exists f. split; [done|]. intros r' Er.
      destruct (Hf r' Er). split; [simpl; set_solver|done].
    + destruct IHl as (f & Ef & Hf); [intros r' Hr'; apply H; simpl; set_solver|]. exists f. split; [done|]. intros r' Er.
      destruct (Hf r' Er). split; [simpl; set_solver|done].
Qed.
Lemma validate_runs c cl h is_ro s eh eb (Q : option Z -> state -> Prop) :
  keeps eh eb s -> st_clients s !! c = Some cl ->
  Q None s -> (forall r x, r ∈ tree_refs cl -> st_refs s !! r = Some x -> ref_handle x = h -> ref_is_ro x = is_ro -> Q (Some r) s) ->
  runs (__nvmap_validate_locked c h is_ro) s Q.
Proof.
  intros K Ec Hn Hs. unfold __nvmap_validate_locked. apply runs_then. eapply runs_get_client; [done|]. run.
  destruct (validate_total (st_refs s) (handle_refs cl) h is_ro) as (f & Ef & Hf).
  { intros r Hr. by eapply tree_ref. }
  eapply runs_need; [done|]. destruct f as [r|]; [|done]. destruct (Hf r eq_refl) as (? & x & ? & ? & ?). eauto.
Qed.

Lemma link_total refs h x t :
  (forall r, r ∈ inorder t -> is_Some (refs !! r)) -> exists t', rb_link_node refs h x t = Some t' /\ inorder t' ≡ₚ x :: inorder t.
Proof.
  induction t as [|l IHl y r IHr]; intros H; simpl; [by eexists|].
  destruct (H y) as [ref E]; [simpl; set_solver|]. rewrite E. simpl. destruct (ref_handle ref <? h).
  - destruct IHr as (t' & -> & Ht); [intros r' Hr'; apply H; simpl; set_solver|]. simpl. eexists. split; [done|]. simpl. rewrite Ht.
    rewrite (Permutation_middle (inorder l) (y :: inorder r) x). f_equiv. constructor.
  - destruct IHl as (t' & -> & Ht); [intros r' Hr'; apply H; simpl; set_solver|]. simpl. eexists. split; [done|]. simpl. by rewrite Ht.
Qed.

Lemma add_ref_runs r c cl h x is_ro s eh eb (Q : unit -> state -> Prop) :
  keeps eh eb s -> st_refs s !! r = None -> st_clients s !! c = Some cl -> st_handles s !! h = Some x ->
  (forall t, inorder t ≡ₚ r :: tree_refs cl -> Q tt (link r c h is_ro t cl x s)) ->
  runs (new_ref r h;; add_handle_ref k c r;; upd_ref r (set_is_ro is_ro)) s Q.
Proof.
  intros K Er Ec Ex HQ. unfold new_ref, add_handle_ref. run.
  eapply runs_get_ref; [apply lookup_insert_eq|]. run. eapply runs_get_client; [done|]. run.
  destruct (link_total (<[r := HandleRef h 1 false]> (st_refs s)) h r (handle_refs cl)) as (t & Et & Ht).
  { intros r2 Hr2. apply some_insert. by eapply tree_ref. }
  eapply runs_need; [done|]. run. eapply runs_upd_client; [done|]. eapply runs_upd_handle; [done|]. run.
  eapply runs_upd_ref; [apply lookup_insert_eq|]. simpl.
  assert (Hperm : inorder (rb_insert_color k r t) ≡ₚ r :: tree_refs cl) by (by rewrite insert_color_inorder).
  pose proof (HQ _ Hperm) as H. unfold link in H. unfold set_refs, set_handles, set_clients in *. simpl in *.
  by rewrite insert_insert_eq.
Qed.

Lemma link_writes r c h is_ro t cl x s eh eb :
  keeps eh eb s -> st_refs s !! r = None -> st_clients s !! c = Some cl -> inorder t ≡ₚ r :: tree_refs cl ->
  gains (fun c2 h2 => c2 = c /\ h2 = h /\ is_ro = false) s (link r c h is_ro t cl x s).
Proof.
  intros K Er Ec Ht c2 h2 (cl2 & r2 & x2 & E1 & E2 & E3 & E4 & E5). simpl in *.
  apply lookup_insert_Some in E1 as [[<- <-]|[Hne E1]].
  - apply lookup_insert_Some in E3 as [[<- <-]|[Hne E3]]; [by right|]. left. exists cl, r2, x2. split_and!; try done.
    unfold tree_refs in E2. simpl in E2. rewrite Ht in E2. set_solver.
  - left. destruct (tree_ref K r2 c2 cl2 E1 E2) as [y Ey]. exists cl2, r2, x2. split_and!; try done.
    rewrite lookup_insert_ne in E3; [done|]. intros <-. congruence.
Qed.

(** * Numbers *)

(** A dma-buf that a client has a number for is held by one of its references. *)
Lemma id_count c cl id d s eh eb :
  keeps eh eb s -> 0 <= eb d -> st_clients s !! c = Some cl -> ida cl !! id = Some d ->
  exists b, st_bufs s !! d = Some b /\ 0 < f_count b.
Proof.
  intros K He Ec Ei. destruct (id_held K c cl id d Ec Ei) as (b & r & x & Eb & Hr & Er & [H1 H2]%named_true & _).
  exists b. split; [done|]. destruct (k_buf _ _ _ K d b Eb) as (-> & _). pose proof (kind_pos s r x Er) as Hk.
  pose proof (fds_nonneg s d). rewrite H1, H2 in Hk. lia.
Qed.

Lemma get_from_id_runs c cl id s eh eb (Q : option Z -> state -> Prop) :
  keeps eh eb s -> (forall d, 0 <= eb d) -> st_clients s !! c = Some cl ->
  (ida cl !! id = None -> Q None s) ->
  (forall d b hs bs, ida cl !! id = Some d -> st_bufs s !! d = Some b -> same_bufs (st_bufs s) bs ->
     keeps (bump (info_handle b) 1 eh) eb (set_handles hs (set_bufs bs s)) ->
     Q (Some (info_handle b)) (set_handles hs (set_bufs bs s))) ->
  runs (nvmap_handle_get_from_id c id) s Q.
Proof.
  intros K He Ec Hn Hs. unfold nvmap_handle_get_from_id, nvmap_id_array_get_dmabuf_from_id. run.
  eapply runs_get_client; [done|]. destruct (ida cl !! id) as [d|] eqn:Ei; [|run; auto].
  destruct (id_count c cl id d s eh eb) as (b & Eb & Hp); try done. run. eapply buf_get_runs; [done..|]. intros bs Hb K1. run.
  destruct (same_bufs_lookup _ _ d b Hb Eb) as [n En]. eapply runs_get_buf; [done|]. simpl. run.
  eapply handle_get_runs; [done| |]. { destruct (buf_handle K d b Eb) as (x & ? & _). by exists x. }
  intros hs K2. run. eapply buf_put_runs; [done|specialize (He d); bump_lia|]. simpl. intros bs2 Hb2 K3. run.
  eapply Hs; [done|done|by eapply same_bufs_trans|]. bumps.
Qed.

Lemma id_ro_runs c cl id s eh eb (Q : option bool -> state -> Prop) :
  keeps eh eb s -> (forall d, 0 <= eb d) -> st_clients s !! c = Some cl ->
  (ida cl !! id = None -> Q None s) ->
  (forall d b bs, ida cl !! id = Some d -> st_bufs s !! d = Some b -> same_bufs (st_bufs s) bs ->
     keeps eh eb (set_bufs bs s) -> Q (Some (info_is_ro b)) (set_bufs bs s)) ->
  runs (is_nvmap_id_ro c id) s Q.
Proof.
  intros K He Ec Hn Hs. unfold is_nvmap_id_ro, nvmap_id_array_get_dmabuf_from_id. run.
  eapply runs_get_client; [done|]. destruct (ida cl !! id) as [d|] eqn:Ei; [|run; auto].
  destruct (id_count c cl id d s eh eb) as (b & Eb & Hp); try done. run. eapply buf_get_runs; [done..|]. intros bs Hb K1. run.
  destruct (same_bufs_lookup _ _ d b Hb Eb) as [n En]. eapply runs_get_buf; [done|]. simpl. run.
  eapply buf_put_runs; [done|specialize (He d); bump_lia|]. simpl. intros bs2 Hb2 K3. run.
  eapply Hs; [done|done|by eapply same_bufs_trans|]. bumps.
Qed.

Definition id_available (cl : nvmap_client) (start : Z) : bool :=
  match xa_alloc k (ida cl) start with
  | inr _ => true
  | inl e => (e =? - EBUSY) && negb (start =? U32_MAX / 2) &&
             match xa_alloc k (ida cl) (U32_MAX / 2) with inr _ => true | inl _ => false end
  end.

Lemma id_alloc_runs c cl d s (Q : option Z -> state -> Prop) :
  st_clients s !! c = Some cl -> id_available cl (xa_start s) = true ->
  (forall id start, ida cl !! id = None ->
     Q (Some id) (set_xa_start start (set_clients (<[c := set_ida (<[id := d]> (ida cl)) cl]> (st_clients s)) s))) ->
  runs (nvmap_id_array_id_alloc k c (DBuf d)) s Q.
Proof.
  intros Ec Ha HQ. unfold nvmap_id_array_id_alloc, id_available in *. run. eapply runs_get_client; [done|]. run.
  destruct (xa_alloc k (ida cl) (xa_start s)) as [e|id] eqn:Ex.
  - zb. subst e. rewrite Z.eqb_refl, (proj2 (Z.eqb_neq _ _)) by done. simpl. destruct (xa_alloc k (ida cl) (U32_MAX / 2)) as [|id] eqn:Ex2; [done|].
    run. eapply runs_upd_client; [done|]. run. apply HQ. by eapply xa_alloc_free.
  - run. eapply runs_upd_client; [done|]. run. apply HQ. by eapply xa_alloc_free.
Qed.

(** * Freeing *)
Lemma slack_neg eh eb s r x n : keeps eh eb s -> n <= 0 -> slack s r x n.
Proof.
  intros K Hn c cl d b Ec _ Eb _ Hp. destruct (k_ids _ _ _ K c cl d Ec Hp) as (b' & Eb' & Hle). simplify_eq. lia.
Qed.

Lemma unlink_gains P r c t ref cl x s : st_clients s !! c = Some cl -> inorder t = filter (fun x => x <> r) (tree_refs cl) ->
  gains P s (unlink r c t ref cl x s).
Proof.
  intros Ec Ht c2 h2 (cl2 & r2 & x2 & E1 & E2 & E3 & E4 & E5). simpl in *. apply lookup_delete_Some in E3 as [Hne E3]. left.
  apply lookup_insert_Some in E1 as [[<- <-]|[Hne2 E1]]; [|by exists cl2, r2, x2].
  exists cl, r2, x2. split_and!; try done. unfold tree_refs in E2. simpl in E2. rewrite Ht in E2. by apply list_elem_of_filter in E2 as [_ ?].
Qed.

Lemma free_handle_runs P c cl h is_ro s eh eb (Q : unit -> state -> Prop) :
  keeps eh eb s -> (forall h, 0 <= eh h) -> (forall d, 0 <= eb d) -> st_clients s !! c = Some cl ->
  (forall d n, st_bufs s !! d = Some (DmaBuf n h is_ro) -> 0 < ids_of cl d ->
     ids_of cl d + 1 <= dupes_in (st_refs s) (handle_refs cl) h is_ro) ->
  (forall s', keeps eh eb s' -> frame P s s' -> Q tt s') -> runs (nvmap_free_handle k c h is_ro) s Q.
Proof.
  intros K Hh Hb Ec Hsl HQ. unfold nvmap_free_handle. run.
  eapply validate_runs; [done|done|run; apply HQ; [done|by apply frame_same; [..|intros ? ? ? E6; apply (f_equal (fmap info)) in E6]]|].
  intros r x Hr Er Eh Ero. run. eapply runs_upd_ref; [done|]. run. eapply runs_get_ref; [apply lookup_insert_eq|]. simpl.
  assert (Hs : slack s r x 1).
  { intros c2 cl2 d b E2 Hr2 Eb [H1 H2]%named_true Hp. assert (c2 = c) as -> by (by eapply (tree_unique K r)). simplify_eq.
    rewrite <- H1, <- H2. eapply (Hsl d (f_count b)); [|done]. rewrite H1, H2. by destruct b. }
  destruct (k_reference _ _ _ K r x Er) as [Hd1 _]. destruct (ref_buf K r x Er) as (hx & d & n & Ex & Ed & Ebuf).
  destruct (decide (dupes x = 1)) as [E1|].
  - rewrite E1. simpl. run. eapply runs_upd_client; [done|]. run. eapply runs_upd_handle; [done|]. run.
    eapply runs_get_handle; [apply lookup_insert_eq|].
    assert (Edb : dmabuf_of is_ro (set_share (share_count hx - 1) hx) = DBuf d) by (rewrite <- Ero; by destruct (ref_is_ro x)).
    rewrite Edb.
    pose proof (kind_pos s r x Er) as Hk. destruct (k_buf _ _ _ K d _ Ebuf) as (Hc & _). simpl in Hc. pose proof (fds_nonneg s d).
    specialize (Hb d) as Hbd. unfold dma_buf_put. run. eapply runs_get_buf; [done|]. simpl. rewrite (proj2 (Z.leb_gt _ _)) by lia.
    eapply runs_upd_buf; [done|]. unfold free_ref. run. simpl.
    eapply runs_get_handle; [apply lookup_insert_eq|]. simpl.
    destruct (k_ref _ _ _ K _ hx Ex) as (_ & Hpos & _). rewrite (proj2 (Z.eqb_neq _ _)) by lia.
    set (t := rb_erase k r (handle_refs cl)).
    assert (Ht : inorder t = filter (fun x => x <> r) (tree_refs cl)) by apply erase_inorder.
    assert (K1 : keeps (bump (ref_handle x) (dupes x) eh) (bump d 1 eb) (unlink r c t x cl hx s)).
    { eapply keeps_unlink; try done. by rewrite E1. }
    pose proof (keeps_fcount _ _ _ d _ (-1) K1 Ebuf) as K2. simpl in K2. specialize (K2 ltac:(lia)).
    assert (F : frame P s (set_bufs (<[d := set_f_count (n + -1) (DmaBuf n (ref_handle x) (ref_is_ro x))]> (st_bufs s)) (unlink r c t x cl hx s))).
    { constructor; try done.
      - intros c2. simpl. destruct (decide (c2 = c)) as [->|]; [by rewrite lookup_insert_eq, Ec|by rewrite lookup_insert_ne].
      - intros d2 b2 Hf E2. eapply same_bufs_kept; [by eapply same_bufs_count|done|done].
      - exact (unlink_gains P r c t x cl hx s Ec Ht). }
    eapply (handle_put_runs _ _ (bump (ref_handle x) (dupes x) eh) (bump d (-1) (bump d 1 eb))).
    + unfold set_handles, set_refs, set_clients, set_bufs, unlink in *. simpl in *. rewrite delete_insert_eq. exact K2.
    + left. specialize (Hh (ref_handle x)). bump_lia.
    + intros hs K3. apply HQ.
      * eapply keeps_ext; [exact K3| |]; intros; rewrite ?E1; bump_lia.
      * eapply frame_trans; [exact F|]. unfold set_handles, set_refs, set_clients, set_bufs, unlink. simpl.
        rewrite delete_insert_eq. by apply frame_same; [..|intros ? ? ? E6; apply (f_equal (fmap info)) in E6].
  - rewrite (proj2 (Z.eqb_neq (dupes x - 1) 0)) by lia. simpl. run. eapply runs_get_handle; [done|].
    destruct (k_ref _ _ _ K _ hx Ex) as (_ & Hpos & _). rewrite (proj2 (Z.eqb_neq _ _)) by lia.
    pose proof (keeps_dupes _ _ _ r x (-1) K Er ltac:(lia) Hs) as K1.
    change (dupes x - 1) with (dupes x + -1).
    eapply handle_put_runs; [exact K1|left; specialize (Hh (ref_handle x)); bump_lia|].
    intros hs K2. apply HQ; [bumps|]. constructor; try done; [intros ? ? ? E2; simpl; by rewrite E2|].
    intros c2 h2 (cl2 & r2 & x2 & F1 & F2 & F3 & F4 & F5). simpl in *. left.
    apply lookup_insert_Some in F3 as [[<- <-]|[Hne F3]]; [by exists cl2, r, x|by exists cl2, r2, x2].
Qed.

(** * Duplicating *)
Lemma duplicate_runs P a c cl h is_ro d n s eh eb (Q : Z + Z -> state -> Prop) :
  keeps eh eb s -> 0 <= eh h -> (forall d, 0 <= eb d) -> st_clients s !! c = Some cl ->
  st_bufs s !! d = Some (DmaBuf n h is_ro) -> 0 < n -> (forall r, a_ref a = Some r -> st_refs s !! r = None) ->
  (is_ro = false -> P c h) ->
  (forall e s', keeps eh eb s' -> frame P s s' -> same_bufs (st_bufs s) (st_bufs s') -> Q (inl e) s') ->
  (forall r x cl' s', keeps eh eb s' -> frame P s s' -> same_bufs (st_bufs s) (st_bufs s') ->
     st_refs s' !! r = Some x -> ref_handle x = h -> ref_is_ro x = is_ro -> st_clients s' !! c = Some cl' -> r ∈ tree_refs cl' ->
     ida cl' = ida cl ->
     dupes_in (st_refs s') (handle_refs cl') h is_ro = dupes_in (st_refs s) (handle_refs cl) h is_ro + 1 ->
     Q (inr r) s') ->
  runs (nvmap_duplicate_handle k a c h is_ro) s Q.
Proof.
  intros K Hh Hb Ec Ed Hn Hfresh HP He Hs. unfold nvmap_duplicate_handle, nvmap_validate_get. run.
  destruct (buf_handle K d _ Ed) as (x0 & Ex0 & Edx0). simpl in Ex0, Edx0. rewrite decide_True by (by exists x0).
  eapply handle_get_runs; [done|by exists x0|]. intros hs K1. simpl. run.
  destruct (buf_handle K1 d _ Ed) as (x & Ex & Edx). simpl in Ex, Edx. eapply runs_get_handle; [done|].
  destruct (h_alloc x); simpl.
  2:{ run. eapply handle_put_runs; [exact K1|left; bump_lia|]. intros hs2 K2. run. apply He; [bumps|by apply frame_same; [..|intros ? ? ? E6; apply (f_equal (fmap info)) in E6]|done]. }
  run. eapply validate_runs; [exact K1|done| |].
  - destruct (a_ref a) as [r|] eqn:Ea.
    2:{ run. eapply handle_put_runs; [exact K1|left; bump_lia|]. intros hs2 K2. run. apply He; [bumps|by apply frame_same; [..|intros ? ? ? E6; apply (f_equal (fmap info)) in E6]|done]. }
    specialize (Hfresh r eq_refl).
    apply runs_assoc3. eapply add_ref_runs; [exact K1|done|done|done|]. intros t Ht. run.
    pose proof (keeps_link _ _ _ r c h is_ro t cl x d K1 Hfresh Ec Ex Edx Ht) as K2.
    eapply runs_get_handle; [apply lookup_insert_eq|].
    assert (Edl : dmabuf_of is_ro (set_share (share_count x + 1) x) = DBuf d) by (rewrite <- Edx; by destruct is_ro). rewrite Edl. run.
    eapply buf_get_runs; [exact K2|done|done|]. intros bs Hbs K3. run.
    eapply (Hs r (HandleRef h 1 is_ro) (set_tree t cl)); simpl; try done.
    + eapply keeps_ext; [exact K3| |]; intros; bump_lia.
    + constructor; try done.
      * intros c2. simpl. destruct (decide (c2 = c)) as [->|]; [by rewrite lookup_insert_eq, Ec|by rewrite lookup_insert_ne].
      * intros d2 b2 Hf E2. by eapply same_bufs_kept.
      * intros c2 h2 Hw. destruct (link_writes r c h is_ro t cl x _ _ _ K1 Hfresh Ec Ht c2 h2 Hw) as [?|(-> & -> & ?)]; auto.
    + by rewrite lookup_insert_eq.
    + by rewrite lookup_insert_eq.
    + unfold tree_refs. simpl. rewrite Ht. left.
    + unfold dupes_in. rewrite (lsum_perm _ _ _ Ht). simpl. unfold dupes_at at 1. rewrite lookup_insert_eq.
      replace (named h is_ro (HandleRef h 1 is_ro)) with true by (symmetry; by apply named_true). simpl.
      rewrite (lsum_ext _ (dupes_at (st_refs s) h is_ro)); [unfold tree_refs; lia|]. intros r2 Hr2. unfold dupes_at.
      rewrite lookup_insert_ne; [done|]. intros <-. destruct (tree_ref K r c cl Ec Hr2). congruence.
  - intros r y Hr Er Eh Ero. run. eapply runs_upd_ref; [done|]. run.
    destruct (k_reference _ _ _ K1 r y Er) as [Hd1 _].
    pose proof (keeps_dupes _ _ _ r y 1 K1 Er ltac:(lia) (slack_neg _ _ _ r y (- 1) K1 ltac:(lia))) as K2.
    eapply (Hs r (set_dupes (dupes y + 1) y) cl); simpl; try done.
    + eapply keeps_ext; [exact K2| |]; intros; bump_lia.
    + constructor; try done; [intros ? ? ? E2; simpl; by rewrite E2|]. intros c2 h2 (cl2 & r2 & x2 & F1 & F2 & F3 & F4 & F5). simpl in *. left.
      apply lookup_insert_Some in F3 as [[<- <-]|[Hne F3]]; [by exists cl2, r, y|by exists cl2, r2, x2].
    + by rewrite lookup_insert_eq.
    + rewrite (dupes_in_upd _ _ _ _ r y); try done; [|by eapply (tree_NoDup1 K)].
      replace (named h is_ro y) with true by (symmetry; by apply named_true). simpl. lia.
Qed.

(** Making or finding a handle's read-only dma-buf. *)
Lemma make_runs a h x d s eh eb (Q : option Z -> state -> Prop) :
  keeps eh eb s -> st_handles s !! h = Some x -> h_dmabuf_ro x = DNull -> a_buf a = Some d -> st_bufs s !! d = None ->
  (forall hs, keeps eh (bump d 1 eb) (set_handles hs (set_bufs (<[d := DmaBuf 1 h true]> (st_bufs s)) s)) ->
     Q None (set_handles hs (set_bufs (<[d := DmaBuf 1 h true]> (st_bufs s)) s))) ->
  runs (made ← __nvmap_make_dmabuf (a_buf a) h true;
        match made with
        | inl err => upd_handle h (set_dmabuf true DErr);; mret (Some err)
        | inr d => upd_handle h (set_dmabuf true (DBuf d));; mret None
        end) s Q.
Proof.
  intros K Ex Ero Ea Ed HQ. rewrite Ea. unfold __nvmap_make_dmabuf, nvmap_handle_get. run.
  eapply runs_upd_handle; [done|]. run. eapply runs_get_handle; [apply lookup_insert_eq|]. simpl.
  destruct (k_ref _ _ _ K h x Ex) as (_ & Hp & _). rewrite (proj2 (Z.leb_gt _ _)) by lia. run.
  eapply runs_upd_handle; [apply lookup_insert_eq|]. run.
  pose proof (keeps_make _ _ _ h x d K Ex Ero Ed) as K1.
  assert (Es : forall y z, set_handles (<[h := z]> (<[h := y]> (st_handles s))) (set_handles (<[h := y]> (st_handles s))
      (set_bufs (<[d := DmaBuf 1 h true]> (st_bufs s)) s)) =
    set_handles (<[h := z]> (st_handles s)) (set_bufs (<[d := DmaBuf 1 h true]> (st_bufs s)) s)).
  { intros y z. unfold set_handles, set_bufs. simpl. by rewrite insert_insert_eq. }
  simpl. rewrite Es. apply HQ. exact K1.
Qed.

Lemma set_self s : set_handles (st_handles s) (set_bufs (st_bufs s) s) = s.
Proof. by destruct s. Qed.

Lemma frame_bufs P hs bs s :
  (forall d b, d ∈ st_fds s -> st_bufs s !! d = Some b -> info <$> bs !! d = Some (info b)) ->
  frame P s (set_handles hs (set_bufs bs s)).
Proof. intros H. by apply frame_same. Qed.

Lemma get_dmabuf_ro_runs a h d0 s eh eb (Q : option Z -> state -> Prop) :
  keeps eh eb s -> (forall h, 0 <= eh h) -> (forall d, 0 <= eb d) -> is_Some (st_handles s !! h) ->
  (forall s', keeps eh eb s' -> st_entries s' = st_entries s -> is_Some (st_handles s' !! h)) ->
  a_buf a = Some d0 -> st_bufs s !! d0 = None ->
  (forall e hs bs, keeps eh eb (set_handles hs (set_bufs bs s)) -> frame nobody s (set_handles hs (set_bufs bs s)) ->
     Q (Some e) (set_handles hs (set_bufs bs s))) ->
  (forall d n hs bs, keeps eh (bump d 1 eb) (set_handles hs (set_bufs bs s)) -> frame nobody s (set_handles hs (set_bufs bs s)) ->
     bs !! d = Some (DmaBuf n h true) -> 0 < n -> Q None (set_handles hs (set_bufs bs s))) ->
  runs (get_dmabuf_ro a h) s Q.
Proof.
  intros K Hh Hb [x Ex] Halive Ea Ed He Hs. unfold get_dmabuf_ro. apply runs_then. eapply runs_get_handle; [done|].
  destruct (h_dmabuf_ro x) as [| |d] eqn:Ero.
  - eapply make_runs; [done..|]. intros hs K1. eapply Hs; [exact K1| |apply lookup_insert_eq|lia].
    apply frame_bufs. intros d b _ Eb. rewrite lookup_insert_ne by congruence. by rewrite Eb.
  - pose proof (k_ptr _ _ _ K h x true Ex) as H. simpl in H. by rewrite Ero in H.
  - pose proof (k_ptr _ _ _ K h x true Ex) as H. simpl in H. rewrite Ero in H. destruct H as [n En].
    destruct (k_buf _ _ _ K d _ En) as (Hc & Hc0 & _). simpl in Hc, Hc0.
    pose proof (kind_nonneg s h true). pose proof (fds_nonneg s d). specialize (Hb d) as Hbd.
    apply runs_then. unfold get_file_rcu. apply runs_then. eapply runs_get_buf; [done|]. simpl.
    destruct (decide (n = 0)) as [->|].
    + simpl. apply runs_ret, runs_then.
      assert (Hfd : forall d2, d2 ∈ st_fds s -> d2 <> d) by (intros d2 Hin ->; pose proof (fds_pos s d Hin); lia).
      destruct (a_waited a).
      * eapply release_runs; [exact K|exact En|done|lia|apply Hh|]. intros hs K1.
        assert (F1 : frame nobody s (set_handles hs (set_bufs (delete d (st_bufs s)) s))).
        { apply frame_bufs. intros d2 b2 Hin Eb. rewrite lookup_delete_ne by (apply not_eq_sym; auto). by rewrite Eb. }
        destruct (Halive _ K1 eq_refl) as [x1 Ex1]. apply runs_then. eapply runs_get_handle; [exact Ex1|].
        destruct (h_dmabuf_ro x1) as [| |d1] eqn:E1; [|by apply runs_ret, He|by apply runs_ret, He].
        eapply make_runs; [exact K1|exact Ex1|exact E1|exact Ea|simpl; by rewrite lookup_delete_None; right|]. intros hs2 K2.
        apply (Hs d0 1 hs2 (<[d0 := DmaBuf 1 h true]> (delete d (st_bufs s)))); [exact K2| |apply lookup_insert_eq|lia].
        apply frame_bufs. intros d2 b2 Hin Eb. rewrite lookup_insert_ne by congruence.
        rewrite lookup_delete_ne by (apply not_eq_sym; auto). by rewrite Eb.
      * apply runs_ret, runs_then. eapply runs_get_handle; [done|]. apply runs_ret.
        pose proof (He (- EINVAL) (st_handles s) (st_bufs s)) as HE. rewrite set_self in HE. apply HE; [done|].
        apply frame_same; try done. intros ? ? ? E6. by rewrite E6.
    + rewrite (proj2 (Z.eqb_neq _ _)) by done. apply runs_then. eapply runs_upd_buf; [done|]. apply runs_ret, runs_ret.
      pose proof (keeps_fcount _ _ _ d _ 1 K En ltac:(simpl; lia)) as K1. simpl in K1.
      assert (F : frame nobody s (set_handles (st_handles s) (set_bufs (<[d := DmaBuf (n + 1) h true]> (st_bufs s)) s))).
      { apply frame_bufs. intros d2 b2 Hin Eb. eapply same_bufs_kept; [|done|done]. exact (same_bufs_count _ d _ (n + 1) En). }
      exact (Hs d (n + 1) (st_handles s) (<[d := DmaBuf (n + 1) h true]> (st_bufs s)) K1 F (lookup_insert_eq _ _ _) ltac:(lia)).
Qed.
End ops.
