(* ===== verification/NvmapShare.v ===== *)
(** References to nvmap's handles stay exact, and write access to a buffer spreads only from
    those who have it (src/drivers/video/tegra/nvmap).

    The events are ioctls of clients, descriptors that are closed, clients that end, and
    the kernel's deferred releases of dma-bufs, one after the other.  What [event_ok] asks
    of an event is that what it names exists, and that it is not one of the cases that the
    code gets wrong; the executions at the end of [NvmapReach] show what happens then. *)
From S2P Require Import Prelude Sums NvmapHandle NvmapHandleInv NvmapShareOps.

(** * Who can write *)
Inductive agent := A_client (c : Z) | A_fd (d : Z) | A_peer (vuid : Z).
Definition can_write (s : state) (ag : agent) (h : Z) : Prop :=
  match ag with
  | A_client c => writes s c h
  | A_fd d => d ∈ st_fds s /\ exists n, st_bufs s !! d = Some (DmaBuf n h false)
  | A_peer vuid => exists e, e ∈ st_entries s /\ entry_handle e = h /\ peer_vuid e = vuid /\ entry_flags e <> PROT_READ
  end.
(** What an event hands from one to another. *)
Definition passes (e : event) (from to : agent) : Prop :=
  match e, from, to with
  | E_getfd _ c _, A_client c', A_fd _ => c' = c
  | E_from_fd _ c fd, A_fd fd', A_client c' => fd' = fd /\ c' = c
  | E_export _ c _ flags (Some vuid), A_client c', A_peer vuid' => c' = c /\ vuid' = vuid /\ flags <> PROT_READ
  | E_import _ c flags _ (Some vuid), A_peer vuid', A_client c' => vuid' = vuid /\ c' = c /\ flags <> PROT_READ
  | _, _, _ => False
  end.
Definition creates (e : event) (c : Z) : Prop :=
  match e with E_create _ c' _ | E_create_from_va _ c' _ _ _ => c = c' | _ => False end.
Definition spreads (e : event) (s s' : state) : Prop := forall ag h, can_write s' ag h ->
  can_write s ag h \/ (exists c, ag = A_client c /\ creates e c /\ st_handles s !! h = None) \/
  exists from, can_write s from h /\ passes e from ag.

(** * Events that can happen *)
Definition fresh (a : answers) (s : state) : Prop :=
  (forall h, a_handle a = Some h -> st_handles s !! h = None) /\
  (forall r, a_ref a = Some r -> st_refs s !! r = None) /\
  (forall d, a_buf a = Some d -> st_bufs s !! d = None).

Section share.
Context (k : kernel).

(** The client has a number left, and the user's memory can be written. *)
Definition can_number (a : answers) (s : state) (c : Z) : Prop :=
  a_copied a = true /\ exists cl, st_clients s !! c = Some cl /\ id_available k cl (xa_start s) = true.
(** The entry that an import finds: for write access the buffer's dma-buf must be there. *)
Definition importable (s : state) (flags sid : Z) : Prop :=
  forall i e, nvmap_find_entry_for_id sid (st_entries s) = Some (i, e) -> flags <> PROT_READ ->
    exists d n, st_bufs s !! d = Some (DmaBuf n (entry_handle e) false) /\ 0 < n.

(** What is asked of an event, besides that the client or descriptor it names exists and that
    what the allocators return is not in use:
    - an ioctl that gives a number finds one ([id_available]) and can copy it to the user
      ([a_copied]); otherwise the dma-buf is put twice ([create_puts_twice]);
    - a duplication or an import gets the memory for a read-only dma-buf ([a_buf]); otherwise
      an error stays where its address is expected ([failed_make_is_used]);
    - an import gets the memory to note the number that becomes free ([a_sid]); otherwise a
      duplication is counted for good ([import_keeps_duplication]);
    - an import for write access finds the dma-buf of the buffer ([importable]); otherwise a
      freed reference stays in the tree ([import_leaves_freed_reference]);
    - getfd is not given a descriptor in place of a number ([getfd_of_fd_puts_twice]). *)
Definition event_ok (s : state) (e : event) : Prop :=
  match e with
  | E_open c => st_clients s !! c = None
  | E_create a c _ | E_create_from_va a c _ _ _ => fresh a s /\ can_number a s c
  | E_alloc c _ _ | E_free c _ | E_getfd _ c _ | E_export _ c _ _ _ | E_close c => is_Some (st_clients s !! c)
  | E_dup a c _ _ => fresh a s /\ is_Some (a_buf a) /\ can_number a s c
  | E_from_fd a c fd => fresh a s /\ can_number a s c /\ fd ∈ st_fds s
  | E_close_fd fd => fd ∈ st_fds s
  | E_import a c flags sid _ => fresh a s /\ is_Some (a_buf a) /\ can_number a s c /\ a_sid a = true /\ importable s flags sid
  | E_release d => exists b, st_bufs s !! d = Some b /\ f_count b = 0
  | E_getfd_fd _ => False
  end.
Definition hstep (s s' : state) : Prop := exists e, event_ok s e /\ exec k e s = Some (tt, s').

Context {HK : KernelOk k}.

(** * Numbers *)

(** What an ioctl leaves alone until its end. *)
Record moves (P : Z -> Z -> Prop) (s s' : state) : Prop := {
  mv_entries : st_entries s' = st_entries s;
  mv_fds : st_fds s' = st_fds s;
  mv_bufs d b : d ∈ st_fds s -> st_bufs s !! d = Some b -> info <$> st_bufs s' !! d = Some (info b);
  mv_gains : gains P s s'
}.
Lemma frame_moves P s s' : frame P s s' -> moves P s s'.
Proof. intros [A1 A2 A3 A4 A5 A6]. by constructor. Qed.
Lemma moves_trans P s1 s2 s3 : moves P s1 s2 -> moves P s2 s3 -> moves P s1 s3.
Proof.
  intros [A1 A2 A3 A4] [B1 B2 B3 B4]. constructor; [congruence|congruence| |].
  - intros d b Hd Eb. specialize (A3 d b Hd Eb). destruct (st_bufs s2 !! d) as [b2|] eqn:E2; [|done].
    rewrite (B3 d b2) by (by rewrite ?A2). done.
  - intros c h H. destruct (B4 c h H) as [H2|]; [|auto]. apply A4, H2.
Qed.
Lemma gains_mono (P P' : Z -> Z -> Prop) s s' : gains P s s' -> (forall c h, P c h -> P' c h) -> gains P' s s'.
Proof. intros H HP c h Hw. destruct (H c h Hw); auto. Qed.
Lemma moves_mono (P P' : Z -> Z -> Prop) s s' : moves P s s' -> (forall c h, P c h -> P' c h) -> moves P' s s'.
Proof. intros [A1 A2 A3 A4] H. constructor; try done. by eapply gains_mono. Qed.
Lemma frame_mono (P P' : Z -> Z -> Prop) s s' : frame P s s' -> (forall c h, P c h -> P' c h) -> frame P' s s'.
Proof. intros [A1 A2 A3 A4 A5 A6] H. constructor; try done. by eapply gains_mono. Qed.
Lemma frame_nobody P s s' : frame nobody s s' -> frame P s s'.
Proof. intros H. by eapply frame_mono. Qed.

(** Descriptors keep what they give access to. *)
Lemma fd_write s s' d h : keeps zero zero s -> d ∈ st_fds s ->
  (forall d b, d ∈ st_fds s -> st_bufs s !! d = Some b -> info <$> st_bufs s' !! d = Some (info b)) ->
  (exists n, st_bufs s' !! d = Some (DmaBuf n h false)) -> exists n, st_bufs s !! d = Some (DmaBuf n h false).
Proof.
  intros K Hd H [n En]. destruct (k_fd _ _ _ K d Hd) as [b Eb]. specialize (H d b Hd Eb). rewrite En in H. simpl in H.
  exists (f_count b). rewrite Eb. unfold info in H. simpl in H. destruct b as [c h2 ro]. simpl in *. congruence.
Qed.

Lemma moves_spreads P e s s' : keeps zero zero s -> moves P s s' ->
  (forall c h, P c h -> creates e c /\ st_handles s !! h = None \/ writes s c h \/
     exists from, can_write s from h /\ passes e from (A_client c)) -> spreads e s s'.
Proof.
  intros K [A1 A2 A3 A4] HP ag h Hw. destruct ag as [c|d|v]; simpl in Hw.
  - destruct (A4 c h Hw) as [|H]; [by left|]. destruct (HP c h H) as [[? ?]|[?|?]]; [right; left; eauto|by left|by right; right].
  - left. destruct Hw as [Hd Hb]. rewrite A2 in Hd. split; [done|]. by eapply fd_write.
  - left. simpl. by rewrite <- A1.
Qed.

Definition room (s : state) (cl : nvmap_client) (h : Z) (is_ro : bool) : Prop :=
  forall d n, st_bufs s !! d = Some (DmaBuf n h is_ro) -> ids_of cl d + 1 <= dupes_in (st_refs s) (handle_refs cl) h is_ro.

Lemma dupes_at_nonneg eh eb s h is_ro r : keeps eh eb s -> 0 <= dupes_at (st_refs s) h is_ro r.
Proof.
  intros K. unfold dupes_at. destruct (st_refs s !! r) as [x|] eqn:E; [|done]. destruct (k_reference _ _ _ K r x E). case_match; lia.
Qed.
Lemma dupes_in_pos eh eb s r x cl : keeps eh eb s -> st_refs s !! r = Some x -> r ∈ tree_refs cl ->
  dupes x <= dupes_in (st_refs s) (handle_refs cl) (ref_handle x) (ref_is_ro x).
Proof.
  intros K E Hr. apply (lsum_elem _ _ r); [done| |intros; by eapply dupes_at_nonneg].
  unfold dupes_at. by rewrite E, named_self.
Qed.
Lemma ids_le eh eb s c cl d b : keeps eh eb s -> st_clients s !! c = Some cl -> st_bufs s !! d = Some b ->
  ids_of cl d <= dupes_in (st_refs s) (handle_refs cl) (info_handle b) (info_is_ro b).
Proof.
  intros K Ec Eb. destruct (decide (0 < ids_of cl d)) as [Hp|].
  - destruct (k_ids _ _ _ K c cl d Ec Hp) as (b' & Eb' & Hle). by simplify_eq.
  - assert (0 <= dupes_in (st_refs s) (handle_refs cl) (info_handle b) (info_is_ro b)); [|lia].
    apply lsum_nonneg. intros. by eapply dupes_at_nonneg.
Qed.

Lemma restore_dupes (m : gmap Z nvmap_handle_ref) r x : m !! r = Some x ->
  <[r := set_dupes (dupes x + 1 - 1) (set_dupes (dupes x + 1) x)]> (<[r := set_dupes (dupes x + 1) x]> m) = m.
Proof.
  intros E. rewrite insert_insert_eq. apply insert_id. rewrite E. f_equal. destruct x. unfold set_dupes. simpl. f_equal. lia.
Qed.

(** The state after a number has been given. *)
Definition numbered (c id d start : Z) (cl : nvmap_client) (s : state) : state :=
  set_xa_start start (set_clients (<[c := set_ida (<[id := d]> (ida cl)) cl]> (st_clients s)) s).
Lemma numbered_moves P c id d start cl s : st_clients s !! c = Some cl -> moves P s (numbered c id d start cl s).
Proof.
  intros Ec. constructor; [done|done|intros ? ? ? E; simpl; by rewrite E|].
  intros c2 h2 (cl2 & r2 & x2 & E1 & E2). simpl in *. left.
  apply lookup_insert_Some in E1 as [[<- <-]|[Hne E1]]; [by exists cl, r2, x2|by exists cl2, r2, x2].
Qed.
Lemma numbered_keeps eh eb c id d n start cl h is_ro s :
  keeps eh eb s -> st_clients s !! c = Some cl -> ida cl !! id = None -> st_bufs s !! d = Some (DmaBuf n h is_ro) ->
  room s cl h is_ro -> keeps eh eb (numbered c id d start cl s).
Proof. intros K Ec Ei Ed Hroom. apply keeps_xa_start. eapply keeps_id_add; try done. simpl. by eapply Hroom. Qed.

Lemma give_id_runs P a c r x cl s (Q : Z + Z -> state -> Prop) :
  keeps zero zero s -> st_refs s !! r = Some x -> st_clients s !! c = Some cl -> r ∈ tree_refs cl ->
  id_available k cl (xa_start s) = true -> a_copied a = true -> room s cl (ref_handle x) (ref_is_ro x) ->
  (forall id s', keeps zero zero s' -> moves P s s' -> Q (inr id) s') ->
  runs (give_id k a c r (ref_is_ro x)) s Q.
Proof.
  intros K Er Ec Hr Ha Hcopied Hroom HQ. unfold give_id. apply runs_then. eapply runs_upd_ref; [done|].
  apply runs_then. eapply runs_get_ref; [apply lookup_insert_eq|]. destruct (ref_buf K r x Er) as (hx & d & n & Ex & Ed & Eb).
  apply runs_then. eapply runs_get_handle; [done|]. rewrite Ed. apply runs_then. apply (id_alloc_runs k c cl d); [done|done|].
  intros id start Ei. rewrite Hcopied. apply runs_then. eapply runs_upd_ref; [apply lookup_insert_eq|]. apply runs_ret. simpl.
  match goal with |- Q _ ?s' => assert (Es : s' = numbered c id d start cl s) end.
  { unfold numbered, set_refs, set_clients, set_xa_start. simpl. by rewrite restore_dupes. }
  rewrite Es. apply HQ; [by eapply numbered_keeps|by apply numbered_moves].
Qed.

(** * Duplication *)

(** What a duplication leaves: a reference of the kind, with room for a number. *)
Definition duplicated (P : Z -> Z -> Prop) (c : Z) (cl : nvmap_client) (is_ro : bool) (s s' : state) (r : Z) : Prop :=
  exists x cl', st_refs s' !! r = Some x /\ ref_is_ro x = is_ro /\ st_clients s' !! c = Some cl' /\ ida cl' = ida cl /\
    r ∈ tree_refs cl' /\ room s' cl' (ref_handle x) is_ro /\ frame P s s'.
Lemma duplicated_after P c cl is_ro s1 s s' r : frame P s1 s -> duplicated P c cl is_ro s s' r -> duplicated P c cl is_ro s1 s' r.
Proof. intros F (x & cl' & ? & ? & ? & ? & ? & ? & F'). exists x, cl'. split_and!; try done. by eapply frame_trans. Qed.
Lemma duplicated_counts P c cl is_ro s s' r hs bs : duplicated P c cl is_ro s s' r -> same_bufs (st_bufs s') bs ->
  duplicated P c cl is_ro s (set_handles hs (set_bufs bs s')) r.
Proof.
  intros (x & cl' & ? & ? & ? & ? & ? & Hroom & F') Hb. exists x, cl'. split_and!; try done.
  - intros d n E. simpl in E. specialize (Hb d). rewrite E in Hb. simpl in Hb.
    destruct (st_bufs s' !! d) as [b|] eqn:Eb; [|done]. unfold info in Hb. simpl in Hb. destruct b as [n' h' ro']. simpl in Hb.
    simplify_eq. eapply Hroom. done.
  - eapply frame_trans; [exact F'|]. apply frame_bufs. intros. by eapply same_bufs_kept.
Qed.

Lemma duplicated_put P c cl is_ro s s' r hs : duplicated P c cl is_ro s s' r -> duplicated P c cl is_ro s (set_handles hs s') r.
Proof.
  intros H. pose proof (duplicated_counts _ _ _ _ _ _ _ hs (st_bufs s') H (same_bufs_refl _)) as H2.
  by replace (set_handles hs (set_bufs (st_bufs s') s')) with (set_handles hs s') in H2 by (by destruct s').
Qed.

Lemma dup_runs P a c cl h is_ro d n s eh eb (Q : Z + Z -> state -> Prop) :
  keeps eh eb s -> 0 <= eh h -> (forall d, 0 <= eb d) -> st_clients s !! c = Some cl ->
  st_bufs s !! d = Some (DmaBuf n h is_ro) -> 0 < n -> (forall r, a_ref a = Some r -> st_refs s !! r = None) ->
  (is_ro = false -> P c h) ->
  (forall e s', keeps eh eb s' -> frame P s s' -> same_bufs (st_bufs s) (st_bufs s') -> Q (inl e) s') ->
  (forall r s', keeps eh eb s' -> duplicated P c cl is_ro s s' r -> same_bufs (st_bufs s) (st_bufs s') ->
    (exists x, st_refs s' !! r = Some x /\ ref_handle x = h) -> Q (inr r) s') ->
  runs (nvmap_duplicate_handle k a c h is_ro) s Q.
Proof.
  intros K Hh Hb Ec Ed Hn Hf HP He Hs. eapply (duplicate_runs k P a c cl h is_ro d n s eh eb); try done.
  intros r x cl' s' K' F Hbs Er <- <- Ec' Hr Ei Hd. apply Hs; [done| |done|eauto].
  exists x, cl'. split_and!; try done. intros d2 n2 E2.
  specialize (Hbs d2). rewrite E2 in Hbs. destruct (st_bufs s !! d2) as [b|] eqn:Eb; [|done]. destruct b as [n' h' ro']. unfold info in Hbs. simplify_eq/=.
  pose proof (ids_le _ _ _ c cl d2 _ K Ec Eb) as Hle. simpl in Hle. rewrite Hd. unfold ids_of in *. rewrite Ei. lia.
Qed.

Lemma zero_nonneg x : 0 <= zero x.
Proof. done. Qed.

Lemma dup_ro_runs a c cl id s (Q : Z + Z -> state -> Prop) :
  keeps zero zero s -> st_clients s !! c = Some cl -> fresh a s -> is_Some (a_buf a) ->
  (forall e s', keeps zero zero s' -> frame nobody s s' -> Q (inl e) s') ->
  (forall r s', keeps zero zero s' -> duplicated nobody c cl true s s' r -> Q (inr r) s') ->
  runs (nvmap_dup_handle_ro k a c id) s Q.
Proof.
  intros K Ec (_ & Hfr & Hfb) [d0 Ed0] He Hs. unfold nvmap_dup_handle_ro. apply runs_then.
  eapply get_from_id_runs; [exact K|done|exact Ec| |].
  { intros _. apply runs_ret, He; [done|]. by apply frame_same; [..|intros ? ? ? ->]. }
  intros d b hs bs Ei Eb Hbs K1. apply runs_then. set (h := info_handle b) in *.
  assert (F0 : frame nobody s (set_handles hs (set_bufs bs s))) by (apply frame_bufs; intros; by eapply same_bufs_kept).
  assert (Htok : forall eb s', keeps (bump h 1 zero) eb s' -> is_Some (st_handles s' !! h)).
  { intros eb s' K'. apply (k_tok _ _ _ K'). unfold bump, zero. by rewrite decide_True. }
  eapply (get_dmabuf_ro_runs a h d0 _ (bump h 1 zero) zero); [exact K1|..].
  - intros h2. unfold bump, zero. case_decide; lia.
  - done.
  - by eapply Htok.
  - intros s' K' _. by eapply Htok.
  - done.
  - simpl. specialize (Hbs d0). rewrite (Hfb d0 Ed0) in Hbs. by destruct (bs !! d0).
  - intros e hs1 bs1 K2 F2. apply runs_then. eapply handle_put_runs; [exact K2|left; unfold zero; bump_lia|]. intros hs2 K3.
    apply runs_ret, He; [bumps|]. eapply frame_trans; [exact F0|]. eapply frame_trans; [exact F2|].
    by apply frame_same; [..|intros ? ? ? E6; apply (f_equal (fmap info)) in E6].
  - intros d1 n hs1 bs1 K2 F2 En Hn. apply runs_then. set (s1 := set_handles hs1 _) in *.
    eapply (dup_runs nobody a c cl h true d1 n s1); [exact K2|..]; try done.
    + unfold bump, zero. rewrite decide_True by done. lia.
    + intros d2. unfold bump, zero. case_decide; lia.
    + intros e s' K3 F3 Hbs3. apply runs_then. destruct (same_bufs_lookup _ _ d1 _ Hbs3 En) as [n' En'].
      destruct (buf_handle K3 d1 _ En') as (x & Ex & Edx). simpl in Ex, Edx. eapply runs_get_handle; [exact Ex|]. rewrite Edx.
      apply runs_then. eapply buf_put_runs; [exact K3|unfold zero; bump_lia|]. intros bs4 Hbs4 K4. apply runs_then.
      eapply handle_put_runs; [exact K4|left; unfold zero; bump_lia|]. intros hs5 K5. apply runs_ret, He; [bumps|].
      eapply frame_trans; [exact F0|]. eapply frame_trans; [exact F2|]. eapply frame_trans; [exact F3|].
      apply frame_bufs. intros. by eapply same_bufs_kept.
    + intros r s' K3 Hd Hbs3 _. apply runs_then. destruct (same_bufs_lookup _ _ d1 _ Hbs3 En) as [n' En'].
      destruct (buf_handle K3 d1 _ En') as (x & Ex & Edx). simpl in Ex, Edx. eapply runs_get_handle; [exact Ex|]. rewrite Edx.
      apply runs_then. eapply buf_put_runs; [exact K3|unfold zero; bump_lia|]. intros bs4 Hbs4 K4. apply runs_then.
      eapply handle_put_runs; [exact K4|left; unfold zero; bump_lia|]. intros hs5 K5. apply runs_ret, Hs; [bumps|].
      eapply duplicated_after; [exact F0|]. eapply duplicated_after; [exact F2|]. by apply duplicated_counts.
Qed.

(** The dma-buf that a client's number stands for says what the client may do. *)
Lemma id_writes c cl id d b s eh eb : keeps eh eb s -> st_clients s !! c = Some cl -> ida cl !! id = Some d ->
  st_bufs s !! d = Some b -> info_is_ro b = false -> writes s c (info_handle b).
Proof.
  intros K Ec Ei Eb Ero. destruct (id_held K c cl id d Ec Ei) as (b' & r & x & Eb' & Hr & Er & [H1 H2]%named_true & _).
  simplify_eq. exists cl, r, x. split_and!; try done. congruence.
Qed.

Lemma from_id_runs a c cl id s (Q : Z + Z -> state -> Prop) :
  keeps zero zero s -> st_clients s !! c = Some cl -> fresh a s ->
  (forall d b, ida cl !! id = Some d -> st_bufs s !! d = Some b -> info_is_ro b = false) ->
  (forall e s', keeps zero zero s' -> frame (writes s) s s' -> Q (inl e) s') ->
  (forall r s', keeps zero zero s' -> duplicated (writes s) c cl false s s' r -> Q (inr r) s') ->
  runs (nvmap_create_handle_from_id k a c id) s Q.
Proof.
  intros K Ec (_ & Hfr & _) Hrw He Hs. unfold nvmap_create_handle_from_id. apply runs_then.
  eapply id_ro_runs; [exact K|done|exact Ec| |].
  { intros _. apply runs_ret, He; [done|]. by apply frame_same; [..|intros ? ? ? ->]. }
  intros d b bs Ei Eb Hbs K1. rewrite (Hrw d b Ei Eb). apply runs_then.
  eapply get_from_id_runs; [exact K1|done|exact Ec|congruence|].
  intros d' b' hs bs2 Ei' Eb' Hbs2 K2. assert (d' = d) as -> by congruence. simpl in Eb', Hbs2.
  destruct (same_bufs_lookup _ _ d b Hbs Eb) as [n1 En1]. assert (b' = set_f_count n1 b) as -> by congruence. simpl in *.
  destruct (same_bufs_lookup _ _ d _ Hbs2 Eb') as [n2 En2]. simpl in En2. set (h := info_handle b) in *.
  assert (F0 : frame (writes s) s (set_handles hs (set_bufs bs2 (set_bufs bs s)))).
  { apply (frame_bufs _ hs bs2 s). intros d2 b2 Hd2 E2. by apply (same_bufs_kept (st_fds s) (st_bufs s)); [apply (same_bufs_trans _ bs)|..]. }
  apply runs_then. set (s1 := set_handles hs _) in *.
  assert (Hn : 0 < n2).
  { destruct (id_count c cl id d s1 _ _ K2 ltac:(done) Ec Ei) as (b3 & Eb3 & Hp). simpl in Eb3. rewrite En2 in Eb3. by simplify_eq. }
  eapply (dup_runs (writes s) a c cl h false d n2 s1 (bump h 1 zero) zero); [exact K2|..]; try done.
  - unfold bump, zero. rewrite decide_True by done. lia.
  - rewrite <- (Hrw d b Ei Eb). simpl. rewrite En2. done.
  - intros _. eapply (id_writes c cl id d b s); [exact K|done|done|done|by eapply Hrw].
  - intros e s' K3 F3 _. apply runs_then. eapply handle_put_runs; [exact K3|left; unfold zero; bump_lia|]. intros hs4 K4.
    apply runs_ret, He; [bumps|]. eapply frame_trans; [exact F0|]. eapply frame_trans; [exact F3|].
    by apply frame_same; [..|intros ? ? ? E6; apply (f_equal (fmap info)) in E6].
  - intros r s' K3 Hd _ _. apply runs_then. eapply handle_put_runs; [exact K3|left; unfold zero; bump_lia|]. intros hs4 K4.
    apply runs_ret, Hs; [bumps|]. eapply duplicated_after; [exact F0|]. by apply duplicated_put.
Qed.

(** Together with the number. *)
Lemma numbered_dup P a c cl is_ro s s' r (Q : Z + Z -> state -> Prop) :
  keeps zero zero s' -> duplicated P c cl is_ro s s' r -> a_copied a = true -> id_available k cl (xa_start s) = true ->
  (forall id s2, keeps zero zero s2 -> moves P s s2 -> Q (inr id) s2) -> runs (give_id k a c r is_ro) s' Q.
Proof.
  intros K (x & cl' & Er & Ero & Ec & Ei & Hr & Hroom & F) Hc Ha HQ. subst is_ro.
  eapply (give_id_runs P a c r x cl'); [done|done|done|done| |done|done|].
  - unfold id_available in *. rewrite (fr_start _ _ _ F), Ei. done.
  - intros id s2 K2 M. apply HQ; [done|]. eapply moves_trans; [by apply frame_moves|done].
Qed.
End share.
