(* ===== verification/NvmapAccess.v ===== *)
(** Every event on nvmap's handles keeps the counts exact and hands write access only from
    who has it (src/drivers/video/tegra/nvmap): a lemma for each event, and [exec_post]. *)
From S2P Require Import Prelude Sums NvmapHandle NvmapHandleInv NvmapShareOps NvmapShare.

#[local] Arguments get_dma_buf : simpl never.
#[local] Arguments dma_buf_put : simpl never.

Section access.
Context (k : kernel) {HK : KernelOk k}.

(** What an event that happens leaves behind. *)
Definition post {A} (e : event) (s : state) (_ : A) (s' : state) : Prop := keeps zero zero s' /\ spreads e s s'.

Lemma discard_runs {A} (m : M A) e s : runs m s (post e s) -> runs (discard m) s (post e s).
Proof. intros H. apply runs_then. eapply runs_mono; [exact H|]. intros. by apply runs_ret. Qed.

Lemma moves_post {A} (a : A) P e s s' : keeps zero zero s -> keeps zero zero s' -> moves P s s' ->
  (forall c h, P c h -> creates e c /\ st_handles s !! h = None \/ writes s c h \/
     exists from, can_write s from h /\ passes e from (A_client c)) -> post e s a s'.
Proof. intros K K' M HP. split; [done|]. by eapply moves_spreads. Qed.
Lemma frame_post {A} (a : A) e s s' : keeps zero zero s -> keeps zero zero s' -> frame nobody s s' -> post e s a s'.
Proof. intros K K' F. eapply moves_post; [done|done|by apply frame_moves|]. by intros. Qed.
Lemma same_post {A} (a : A) e s : keeps zero zero s -> post e s a s.
Proof. intros K. apply frame_post; [done|done|]. apply frame_same; try done. intros ? ? ? E. by rewrite E. Qed.
Lemma counts_frame P s hs bs : same_bufs (st_bufs s) bs -> frame P s (set_handles hs (set_bufs bs s)).
Proof. intros H. apply frame_bufs. intros. by eapply same_bufs_kept. Qed.
Lemma counts_post {A} (a : A) e s hs bs : keeps zero zero s -> same_bufs (st_bufs s) bs ->
  keeps zero zero (set_handles hs (set_bufs bs s)) -> post e s a (set_handles hs (set_bufs bs s)).
Proof. intros K Hb K'. apply frame_post; [done|done|]. by apply counts_frame. Qed.

(** * Simple events *)
Lemma open_post c s : keeps zero zero s -> event_ok k s (E_open c) -> runs (exec k (E_open c)) s (post (E_open c) s).
Proof.
  intros K Ec. apply runs_modify. split; [by apply keeps_open|]. eapply (moves_spreads nobody); [done| |by intros].
  constructor; try done; [intros ? ? ? E; simpl; by rewrite E|].
  intros c2 h2 (cl2 & r2 & x2 & E1 & E2 & H). simpl in *. left.
  apply lookup_insert_Some in E1 as [[<- <-]|[Hne E1]]; [by apply not_elem_of_nil in E2|by exists cl2, r2, x2].
Qed.

Lemma release_post d s : keeps zero zero s -> event_ok k s (E_release d) -> runs (exec k (E_release d)) s (post (E_release d) s).
Proof.
  intros K (b & Eb & E0). simpl. eapply release_runs; [done|done|done|done|done|]. intros hs K1. apply frame_post; [done|done|].
  apply frame_bufs. intros d2 b2 Hin E2. rewrite lookup_delete_ne, E2; [done|]. intros <-. simplify_eq.
  destruct (k_buf _ _ _ K d _ Eb) as (Hc & _). pose proof (fds_pos s d Hin). pose proof (kind_nonneg s (info_handle b) (info_is_ro b)).
  unfold zero in Hc. lia.
Qed.

Lemma alloc_post c id memory s : keeps zero zero s -> event_ok k s (E_alloc c id memory) ->
  runs (exec k (E_alloc c id memory)) s (post (E_alloc c id memory) s).
Proof.
  intros K [cl Ec]. apply discard_runs. unfold nvmap_ioctl_alloc. run.
  eapply get_from_id_runs; [exact K|done|exact Ec|intros _; run; by apply same_post|]. intros d b hs bs _ Eb Hbs K1.
  set (h := info_handle b) in *. run. destruct (k_tok _ _ _ K1 h) as [x Ex]; [unfold zero; bump_lia|].
  eapply runs_get_handle; [exact Ex|]. destruct memory; simpl; [destruct (h_alloc x)|].
  - run. eapply handle_put_runs; [exact K1|left; unfold zero; bump_lia|]. intros hs2 K2. run.
    apply (counts_post _ _ s hs2 bs); [done|done|bumps].
  - run. eapply runs_upd_handle; [exact Ex|]. run. destruct (k_ref _ _ _ K1 h x Ex) as (_ & Hp & _).
    pose proof (keeps_handle _ _ _ h x (set_alloc true x) K1 Ex ltac:(by intros []) eq_refl Hp) as K2.
    eapply handle_put_runs; [exact K2|left; simpl; unfold zero; bump_lia|]. intros hs2 K3. run.
    apply (counts_post _ _ s hs2 bs); [done|done|]. eapply keeps_ext; [exact K3| |]; intros; simpl; bump_lia.
  - run. eapply handle_put_runs; [exact K1|left; unfold zero; bump_lia|]. intros hs2 K2. run.
    apply (counts_post _ _ s hs2 bs); [done|done|bumps].
Qed.

Lemma dup_post a c id access_ro s : keeps zero zero s -> event_ok k s (E_dup a c id access_ro) ->
  runs (exec k (E_dup a c id access_ro)) s (post (E_dup a c id access_ro) s).
Proof.
  intros K (Hf & Hb & Hc & cl & Ec & Ha). apply discard_runs. unfold nvmap_ioctl_dup_handle. run.
  eapply id_ro_runs; [exact K|done|exact Ec|intros _; run; by apply same_post|]. intros d b bs Ei Eb Hbs K1.
  assert (F0 : forall P, frame P s (set_bufs bs s)) by (intros P; by apply (counts_frame P s (st_handles s))).
  assert (Hf1 : fresh a (set_bufs bs s)).
  { destruct Hf as (? & ? & Hf3). split_and!; try done. intros d2 E2. simpl. specialize (Hbs d2). rewrite (Hf3 d2 E2) in Hbs.
    by destruct (bs !! d2). }
  assert (Hnum : forall P is_ro r s', keeps zero zero s' -> duplicated P c cl is_ro (set_bufs bs s) s' r ->
    (forall c h, P c h -> writes s c h) -> runs (give_id k a c r is_ro) s' (post (E_dup a c id access_ro) s)).
  { intros P is_ro r s' K2 Hd HP. eapply (numbered_dup k P); [exact K2|exact Hd|exact Hc|exact Ha|]. intros id' s2 K3 M.
    eapply (moves_post _ P); [exact K|exact K3|by eapply moves_trans; [apply frame_moves|]|]. auto. }
  destruct (info_is_ro b && negb access_ro) eqn:Ep; [run; by apply (counts_post _ _ s (st_handles s))|].
  run. destruct access_ro.
  - eapply dup_ro_runs; [exact HK|exact K1|exact Ec|exact Hf1|exact Hb| |].
    + intros e s' K2 F. run. apply frame_post; [done|done|by eapply frame_trans].
    + intros r s' K2 Hd. by eapply Hnum.
  - eapply from_id_runs; [exact HK|exact K1|exact Ec|exact Hf1| | |].
    + intros d' b' Ei' Eb'. simplify_eq. destruct (same_bufs_lookup _ _ d _ Hbs Eb) as [n En]. simpl in Eb'.
      rewrite En in Eb'. simplify_eq. simpl. by destruct (info_is_ro b).
    + intros e s' K2 F. run. eapply (moves_post _ (writes s)); [done|done|by eapply moves_trans; apply frame_moves|]. auto.
    + intros r s' K2 Hd. by eapply Hnum.
Qed.

(** The dma-buf of a client's number, found a second time. *)
Lemma room_after_release c cl id d b s eh eb : keeps eh eb s -> st_clients s !! c = Some cl -> ida cl !! id = Some d ->
  st_bufs s !! d = Some b -> forall d' n, st_bufs s !! d' = Some (DmaBuf n (info_handle b) (info_is_ro b)) ->
  ids_of (set_ida (delete id (ida cl)) cl) d' + 1 <= dupes_in (st_refs s) (handle_refs cl) (info_handle b) (info_is_ro b).
Proof.
  intros K Ec Ei Eb d' n Ed. destruct (buf_handle K d b Eb) as (x & Ex & Hx). destruct (buf_handle K d' _ Ed) as (x' & Ex' & Hx').
  simpl in *. assert (d' = d) as -> by congruence. pose proof (ids_le _ _ _ c cl d b K Ec Eb) as Hle.
  unfold ids_of in *. simpl. rewrite (msum_del _ _ id d) by done. rewrite Z.eqb_refl. simpl. lia.
Qed.

Lemma free_post c id s : keeps zero zero s -> event_ok k s (E_free c id) -> runs (exec k (E_free c id)) s (post (E_free c id) s).
Proof.
  intros K [cl Ec]. simpl. unfold nvmap_ioctl_free. run.
  eapply get_from_id_runs; [exact K|done|exact Ec|intros _; run; by apply same_post|]. intros d b hs bs Ei Eb Hbs K1. run.
  set (h := info_handle b) in *. eapply id_ro_runs; [exact K1|done|exact Ec|simpl; congruence|].
  intros d' b' bs2 Ei' Eb' Hbs2 K2. assert (d' = d) as -> by congruence. simpl in *.
  destruct (same_bufs_lookup _ _ d b Hbs Eb) as [n En]. rewrite En in Eb'. simplify_eq. simpl.
  destruct (same_bufs_lookup _ _ d _ Hbs2 En) as [n2 En2]. simpl in En2.
  pose proof (keeps_id_del _ _ _ c cl id K2 Ec) as K3. run. unfold nvmap_id_array_id_release. eapply runs_upd_client; [exact Ec|]. run.
  eapply (free_handle_runs k nobody); [exact K3| |done|apply lookup_insert_eq| |].
  - intros h2. unfold zero. bump_lia.
  - intros d' n' Ed' _. eapply (room_after_release c cl id d _ _ _ _ K2 Ec Ei En2). exact Ed'.
  - intros s' K4 F. eapply handle_put_runs; [exact K4|left; unfold zero; bump_lia|]. intros hs3 K5.
    eapply (moves_post _ nobody); [exact K|bumps| |by intros].
    eapply moves_trans; [|eapply moves_trans; [apply frame_moves, F|]].
    + constructor; [done|done| |].
      * intros d2 b2 _ E2. simpl. by rewrite Hbs2, Hbs, E2.
      * intros c2 h2 (cl2 & r2 & x2 & E1 & E2). simpl in *. left.
        apply lookup_insert_Some in E1 as [[<- <-]|[Hne E1]]; [by exists cl, r2, x2|by exists cl2, r2, x2].
    + apply frame_moves, (counts_frame _ s' hs3 (st_bufs s')). apply same_bufs_refl.
Qed.

(** * Descriptors *)

(** What is new among descriptors and entries. *)
Lemma parts_post {A} (a : A) P e s s' : keeps zero zero s -> keeps zero zero s' ->
  moves P s (set_fds (st_fds s) (set_entries (st_entries s) s')) ->
  (forall c h, P c h -> creates e c /\ st_handles s !! h = None \/ writes s c h \/
     exists from, can_write s from h /\ passes e from (A_client c)) ->
  (forall d n h, d ∈ st_fds s' -> st_bufs s' !! d = Some (DmaBuf n h false) ->
     d ∈ st_fds s \/ exists from, can_write s from h /\ passes e from (A_fd d)) ->
  (forall x, x ∈ st_entries s' -> entry_flags x <> PROT_READ ->
     can_write s (A_peer (peer_vuid x)) (entry_handle x) \/
     exists from, can_write s from (entry_handle x) /\ passes e from (A_peer (peer_vuid x))) ->
  post e s a s'.
Proof.
  intros K K' M HP Hf He. split; [done|]. intros ag h Hw.
  pose proof (moves_spreads P e s _ K M HP) as Hs. destruct ag as [c|d|v].
  - destruct (Hs (A_client c) h Hw) as [?|[?|?]]; auto.
  - destruct Hw as [Hd [n En]]. destruct (Hf d n h Hd En) as [Hd'|?]; [|by right; right].
    apply (Hs (A_fd d) h). split; [exact Hd'|by exists n].
  - destruct Hw as (x & Hx & <- & <- & Hfl). destruct (He x Hx Hfl) as [?|?]; [by left|by right; right].
Qed.

Lemma getfd_post a c id s : keeps zero zero s -> event_ok k s (E_getfd a c id) ->
  runs (exec k (E_getfd a c id)) s (post (E_getfd a c id) s).
Proof.
  intros K [cl Ec]. apply discard_runs. unfold nvmap_ioctl_getfd. run.
  eapply get_from_id_runs; [exact K|done|exact Ec|intros _; run; by apply same_post|]. intros d b hs bs Ei Eb Hbs K1. run.
  set (h := info_handle b) in *. eapply id_ro_runs; [exact K1|done|exact Ec|simpl; congruence|].
  intros d' b' bs2 Ei' Eb' Hbs2 K2. assert (d' = d) as -> by congruence. simpl in *.
  destruct (same_bufs_lookup _ _ d b Hbs Eb) as [n En]. rewrite En in Eb'. simplify_eq. simpl.
  destruct (same_bufs_lookup _ _ d _ Hbs2 En) as [n2 En2]. simpl in En2.
  unfold __nvmap_dmabuf_export. run. eapply handle_get_runs; [exact K2|apply (k_tok _ _ _ K2); unfold zero; bump_lia|].
  intros hs3 K3. simpl. run. destruct (buf_handle K3 d _ En2) as (x & Ex & Edx). simpl in Ex, Edx. eapply runs_get_handle; [exact Ex|].
  rewrite Edx. run. destruct (id_count c cl id d _ _ _ K3 ltac:(done) Ec Ei) as (b3 & Eb3 & Hp).
  eapply buf_get_runs; [exact K3|exact Eb3|exact Hp|]. intros bs4 Hbs4 K4. run. simpl in Eb3, Hbs4. rewrite En2 in Eb3. simplify_eq.
  eapply handle_put_runs; [exact K4|left; unfold zero; bump_lia|]. intros hs5 K5. run.
  assert (Hsame : same_bufs (st_bufs s) bs4) by (eapply same_bufs_trans; [exact Hbs|by eapply same_bufs_trans]).
  assert (Hput : runs (dma_buf_put (DBuf d);; mret (- EFAULT)) (set_handles hs5 (set_bufs bs4 s))
    (fun r s' => runs (nvmap_handle_put h;; mret r) s' (post (E_getfd a c id) s))).
  { run. eapply buf_put_runs; [exact K5|unfold zero; bump_lia|]. intros bs6 Hbs6 K6. run.
    eapply handle_put_runs; [exact K6|left; unfold zero; bump_lia|]. intros hs7 K7. run.
    apply (counts_post _ _ s hs7 bs6); [done|by eapply same_bufs_trans|bumps]. }
  destruct (a_fd a); [|exact Hput]. destruct (a_copied a); [|exact Hput]. simpl. clear Hput. run.
  assert (K6 : keeps (bump h 1 zero) zero (set_fds (d :: st_fds s) (set_handles hs5 (set_bufs bs4 s)))).
  { apply (keeps_fds (bump h 1 zero) (bump d 1 zero) zero); [bumps| | |done].
    - intros d2 [->|Hd2]%elem_of_cons; [apply (k_tokb _ _ _ K5); unfold zero; bump_lia|by apply (k_fd _ _ _ K5)].
    - intros d2. unfold fds_of, zero, ind. simpl. destruct (Z.eqb_spec d d2); bump_lia. }
  eapply handle_put_runs; [exact K6|left; unfold zero; bump_lia|]. intros hs7 K7. run.
  eapply (parts_post _ nobody); [exact K|bumps| |by intros| |].
  - apply frame_moves, (counts_frame _ s hs7 bs4 Hsame).
  - intros d2 m h2 [->|Hd2]%elem_of_cons E2; [|by left]. right. simpl in E2. exists (A_client c). split; [|done].
    specialize (Hsame d). rewrite E2, Eb in Hsame. unfold info in Hsame. simpl in Hsame. injection Hsame as -> Hro.
    by eapply (id_writes c cl id d b s).
  - intros x2 Hx2 Hfl. left. by exists x2.
Qed.

Lemma remove_first_sum d l d2 : d ∈ l -> lsum (fun x => ind (x =? d2)) (list_remove_first d l) + (if decide (d2 = d) then 1 else 0) =
  lsum (fun x => ind (x =? d2)) l.
Proof.
  induction l as [|x l IH]; intros Hd; [by apply not_elem_of_nil in Hd|]. simpl. destruct (Z.eqb_spec x d) as [->|Hne].
  - unfold ind. case_decide; destruct (Z.eqb_spec d d2); subst; try done; lia.
  - simpl. rewrite <- IH; [lia|]. set_solver.
Qed.
Lemma remove_first_elem d l x : x ∈ list_remove_first d l -> x ∈ l.
Proof. induction l as [|y l IH]; simpl; [done|]. case_match; set_solver. Qed.

Lemma close_fd_post fd s : keeps zero zero s -> event_ok k s (E_close_fd fd) ->
  runs (exec k (E_close_fd fd)) s (post (E_close_fd fd) s).
Proof.
  intros K Hfd. simpl in *. run. destruct (k_fd _ _ _ K fd Hfd) as [b Eb].
  assert (K1 : keeps zero (bump fd 1 zero) (set_fds (list_remove_first fd (st_fds s)) s)).
  { eapply keeps_fds; [exact K| | |].
    - intros d Hd%remove_first_elem. by apply (k_fd _ _ _ K).
    - intros d. unfold fds_of, zero, bump. rewrite <- (remove_first_sum fd (st_fds s) d Hfd). lia.
    - intros d. unfold zero, bump. case_decide; subst; [by exists b|done]. }
  eapply buf_put_runs; [exact K1|unfold zero; bump_lia|]. intros bs Hbs K2.
  eapply (parts_post _ nobody); [exact K|bumps| |by intros| |].
  - apply frame_moves, (counts_frame _ s (st_handles s) bs Hbs).
  - intros d n h Hd _. left. exact (remove_first_elem fd _ d Hd).
  - intros x Hx Hfl. left. by exists x.
Qed.
(** The handle and the kind of a descriptor. *)
Lemma fd_count fd b s : keeps zero zero s -> fd ∈ st_fds s -> st_bufs s !! fd = Some b -> 0 < f_count b.
Proof.
  intros K Hfd Eb. destruct (k_buf _ _ _ K fd b Eb) as (-> & _). pose proof (fds_pos s fd Hfd).
  pose proof (kind_nonneg s (info_handle b) (info_is_ro b)). unfold zero. lia.
Qed.
Lemma fd_handle_runs fd b s (Q : option Z -> state -> Prop) :
  keeps zero zero s -> fd ∈ st_fds s -> st_bufs s !! fd = Some b ->
  (forall hs bs, same_bufs (st_bufs s) bs -> (forall b', bs !! fd = Some b' -> 0 < f_count b') ->
     keeps (bump (info_handle b) 1 zero) zero (set_handles hs (set_bufs bs s)) ->
     Q (Some (info_handle b)) (set_handles hs (set_bufs bs s))) ->
  runs (nvmap_handle_get_from_dmabuf_fd fd) s Q.
Proof.
  intros K Hfd Eb HQ. unfold nvmap_handle_get_from_dmabuf_fd. run. eapply buf_get_runs; [exact K|exact Eb|by apply (fd_count fd b s)|].
  intros bs Hbs K1. run. destruct (same_bufs_lookup _ _ fd b Hbs Eb) as [n En]. eapply runs_get_buf; [exact En|]. simpl. run.
  eapply handle_get_runs; [exact K1| |]. { destruct (buf_handle K fd b Eb) as (x & ? & _). by exists x. }
  intros hs K2. run. eapply buf_put_runs; [exact K2|unfold zero; bump_lia|]. intros bs2 Hbs2 K3. run.
  apply HQ; [by eapply same_bufs_trans| |bumps]. intros b' Eb'. destruct (k_buf _ _ _ K3 fd b' Eb') as (-> & _).
  match goal with |- 0 < kind_of ?s' ?h ?ro + _ + _ => pose proof (fds_pos s' fd Hfd); pose proof (kind_nonneg s' h ro) end.
  unfold zero. bump_lia.
Qed.
Lemma fd_ro_runs fd b s eh (Q : bool -> state -> Prop) :
  keeps eh zero s -> st_bufs s !! fd = Some b -> 0 < f_count b ->
  (forall bs, same_bufs (st_bufs s) bs -> keeps eh zero (set_bufs bs s) -> Q (info_is_ro b) (set_bufs bs s)) ->
  runs (is_nvmap_dmabuf_fd_ro fd) s Q.
Proof.
  intros K Eb Hp HQ. unfold is_nvmap_dmabuf_fd_ro. run. eapply buf_get_runs; [exact K|exact Eb|exact Hp|].
  intros bs Hbs K1. run. destruct (same_bufs_lookup _ _ fd b Hbs Eb) as [n En]. eapply runs_get_buf; [exact En|]. simpl. run.
  eapply buf_put_runs; [exact K1|unfold zero; bump_lia|]. intros bs2 Hbs2 K2. run. apply HQ; [by eapply same_bufs_trans|bumps].
Qed.

Lemma from_fd_post a c fd s : keeps zero zero s -> event_ok k s (E_from_fd a c fd) ->
  runs (exec k (E_from_fd a c fd)) s (post (E_from_fd a c fd) s).
Proof.
  intros K ((_ & Hfr & _) & (Hc & cl & Ec & Ha) & Hfd). apply discard_runs.
  unfold nvmap_ioctl_from_fd, nvmap_create_handle_from_fd. run.
  destruct (k_fd _ _ _ K fd Hfd) as [b Eb]. eapply fd_handle_runs; [exact K|exact Hfd|exact Eb|]. intros hs bs Hbs Hp K1.
  set (h := info_handle b) in *. destruct (same_bufs_lookup _ _ fd b Hbs Eb) as [n En]. run.
  eapply fd_ro_runs; [exact K1|exact En|by apply (Hp _ En)|]. simpl. intros bs2 Hbs2 K2. run.
  destruct (same_bufs_lookup _ _ fd _ Hbs2 En) as [n2 En2]. simpl in En2.
  assert (Hsame : same_bufs (st_bufs s) bs2) by (by eapply same_bufs_trans).
  assert (Hn2 : 0 < n2).
  { destruct (k_buf _ _ _ K2 fd _ En2) as (Hn & _). simpl in Hn. pose proof (fds_pos s fd Hfd) as H1. unfold fds_of, zero in *. simpl in *.
    match type of Hn with _ = kind_of ?s' ?h' ?ro + _ + _ => pose proof (kind_nonneg s' h' ro) end. lia. }
  set (P := fun c' h' => c' = c /\ h' = h /\ info_is_ro b = false).
  assert (HP : forall c' h', P c' h' -> creates (E_from_fd a c fd) c' /\ st_handles s !! h' = None \/ writes s c' h' \/
    exists from, can_write s from h' /\ passes (E_from_fd a c fd) from (A_client c')).
  { intros c' h' (-> & -> & Hro). right. right. exists (A_fd fd). split; [|done]. split; [done|]. exists (f_count b).
    rewrite Eb, <- Hro. by destruct b. }
  pose proof (counts_frame P s hs bs2 Hsame) as F0. set (s1 := set_bufs bs2 _) in *.
  eapply (dup_runs k P a c cl h (info_is_ro b) fd n2 s1 (bump h 1 zero) zero); [exact K2| |done|exact Ec|exact En2|exact Hn2|exact Hfr|by split| |].
  - unfold bump, zero. rewrite decide_True by done. lia.
  - intros e s' K3 F _. run. eapply handle_put_runs; [exact K3|left; unfold zero; bump_lia|]. intros hs4 K4. run.
    assert (K5 : keeps zero zero (set_handles hs4 s')) by bumps.
    assert (F2 : frame P s s') by (by eapply frame_trans).
    assert (Hfd' : fd ∈ st_fds (set_handles hs4 s')) by (simpl; by rewrite (fr_fds _ _ _ F2)).
    destruct (k_fd _ _ _ K5 fd Hfd') as [b5 Eb5]. eapply buf_get_runs; [exact K5|exact Eb5|by eapply (fd_count fd)|].
    intros bs6 Hbs6 K6. run. eapply buf_put_runs; [exact K6|unfold zero; bump_lia|]. intros bs7 Hbs7 K7. run.
    eapply (moves_post _ P); [exact K|bumps| |exact HP]. apply frame_moves. eapply frame_trans; [exact F2|].
    apply (counts_frame P s' hs4 bs7). by eapply same_bufs_trans.
  - intros r s' K3 Hd _ _. run. eapply handle_put_runs; [exact K3|left; unfold zero; bump_lia|]. intros hs4 K4. run.
    pose proof (duplicated_put _ _ _ _ _ _ _ hs4 Hd) as Hd2. destruct (id Hd2) as (x & cl' & Er & Ero & _).
    eapply runs_get_ref; [exact Er|]. rewrite Ero.
    eapply (numbered_dup k P); [|exact Hd2|exact Hc|exact Ha|]; [bumps|]. intros id' s2 K5 M.
    eapply (moves_post _ P); [exact K|exact K5| |exact HP]. eapply moves_trans; [apply frame_moves, F0|exact M].
Qed.
(** * Creation *)

(** The state with a new handle and its dma-buf. *)
Definition made (h d : Z) (is_ro : bool) (s : state) : state :=
  set_handles (<[h := set_dmabuf is_ro (DBuf d) (Handle 2 0 false DNull DNull)]> (st_handles s))
    (set_bufs (<[d := DmaBuf 1 h is_ro]> (st_bufs s)) s).

Lemma linked_new c cl r h d is_ro t s : keeps zero zero s -> st_handles s !! h = None -> st_bufs s !! d = None ->
  st_refs s !! r = None -> st_clients s !! c = Some cl -> inorder t ≡ₚ r :: tree_refs cl ->
  let x := set_dmabuf is_ro (DBuf d) (Handle 2 0 false DNull DNull) in
  let s' := link r c h is_ro t cl x (made h d is_ro s) in
  keeps zero zero s' /\ duplicated (fun c' h' => c' = c /\ st_handles s !! h' = None) c cl is_ro s s' r.
Proof.
  intros K Eh Ed Er Ec Ht x s'. pose proof (keeps_new _ _ _ h d is_ro K Eh Ed) as K1.
  assert (Hx : dmabuf_of is_ro x = DBuf d) by (by destruct is_ro).
  assert (K2 : keeps (bump h (-1) (bump h 1 zero)) (bump d (-1) (bump d 1 zero)) s').
  { eapply keeps_link; [exact K1|exact Er|exact Ec|apply lookup_insert_eq|exact Hx|exact Ht]. }
  assert (K3 : keeps zero zero s') by bumps. clear K2. split; [exact K3|].
  exists (HandleRef h 1 is_ro), (set_tree t cl). split_and!; try done; try apply lookup_insert_eq.
  - unfold tree_refs. simpl. rewrite Ht. left.
  - intros d2 n E2. simpl in E2. assert (d2 = d) as ->.
    { apply lookup_insert_Some in E2 as [[<- _]|[_ E2]]; [done|]. destruct (buf_handle K d2 _ E2) as (y & Ey & _). simpl in *. congruence. }
    assert (Hids : ids_of (set_tree t cl) d = 0).
    { apply msum_zero. intros id d' Ei. unfold ind. case_match; [|done]. zb. subst d'.
      destruct (id_held K c cl id d Ec Ei) as (b & _ & _ & Eb & _). congruence. }
    rewrite Hids. assert (Hin : r ∈ tree_refs (set_tree t cl)) by (unfold tree_refs; simpl; rewrite Ht; left).
    pose proof (dupes_in_pos _ _ _ r (HandleRef h 1 is_ro) (set_tree t cl) K3 (lookup_insert_eq _ _ _) Hin) as Hle. simpl in Hle |- *. lia.
  - constructor; try done.
    + intros c2. simpl. destruct (decide (c2 = c)) as [->|]; [by rewrite lookup_insert_eq, Ec|by rewrite lookup_insert_ne].
    + intros d2 b _ E2. simpl. rewrite lookup_insert_ne by congruence. by rewrite E2.
    + intros c2 h2 Hw. destruct (link_writes k r c h is_ro t cl x _ _ _ K1 Er Ec Ht c2 h2 Hw) as [?|(-> & -> & _)]; [by left|by right].
Qed.

Lemma create_runs a c cl size is_ro s (Q : Z + Z -> state -> Prop) :
  keeps zero zero s -> fresh a s -> st_clients s !! c = Some cl ->
  (forall e, Q (inl e) s) ->
  (forall r s', keeps zero zero s' -> duplicated (fun c' h' => c' = c /\ st_handles s !! h' = None) c cl is_ro s s' r -> Q (inr r) s') ->
  runs (nvmap_create_handle k a c size is_ro) s Q.
Proof.
  intros K (Hfh & Hfr & Hfb) Ec He Hs. unfold nvmap_create_handle. destruct (size =? 0); [by run|].
  destruct (a_handle a) as [h|]; [|by run]. destruct (a_ref a) as [r|]; [|by run].
  specialize (Hfh h eq_refl). specialize (Hfr r eq_refl). run. destruct (a_buf a) as [d|]; unfold __nvmap_make_dmabuf; simpl; run.
  - specialize (Hfb d eq_refl). unfold nvmap_handle_get. run. eapply runs_upd_handle; [apply lookup_insert_eq|]. run.
    eapply runs_get_handle; [apply lookup_insert_eq|]. simpl. run. eapply runs_upd_handle; [apply lookup_insert_eq|].
    set (x := set_dmabuf is_ro (DBuf d) (Handle 2 0 false DNull DNull)).
    match goal with |- runs _ ?s' _ => assert (Es : s' = made h d is_ro s) end.
    { unfold made, set_handles, set_bufs, set_ref. simpl. by rewrite !insert_insert_eq. }
    rewrite Es. clear Es. pose proof (keeps_new _ _ _ h d is_ro K Hfh Hfb) as K1.
    apply runs_assoc3. eapply (add_ref_runs _ r c cl h x is_ro (made h d is_ro s)); [exact K1|exact Hfr|exact Ec|apply lookup_insert_eq|].
    intros t Ht. run. destruct (linked_new c cl r h d is_ro t s K Hfh Hfb Hfr Ec Ht) as [K2 Hd]. by apply Hs.
  - match goal with |- Q _ ?s' => assert (Es : s' = s) end; [|rewrite Es; apply He].
    unfold set_handles. simpl. rewrite delete_insert_id by done. by destruct s.
Qed.

Lemma created_post {A} (a : A) e c s s' : keeps zero zero s -> keeps zero zero s' -> creates e c ->
  moves (fun c' h' => c' = c /\ st_handles s !! h' = None) s s' -> post e s a s'.
Proof. intros K K' He M. eapply (moves_post _ _); [exact K|exact K'|exact M|]. intros c' h' [-> ?]. by left. Qed.

Lemma create_post a c size s : keeps zero zero s -> event_ok k s (E_create a c size) ->
  runs (exec k (E_create a c size)) s (post (E_create a c size) s).
Proof.
  intros K (Hf & Hc & cl & Ec & Ha). apply discard_runs. unfold nvmap_ioctl_create. run.
  eapply create_runs; [exact K|exact Hf|exact Ec|intros e; run; by apply same_post|]. intros r s' K1 Hd. run.
  destruct (id Hd) as (x & cl' & Er & Ero & _). eapply runs_get_ref; [exact Er|]. rewrite Ero.
  eapply (numbered_dup k); [exact K1|exact Hd|exact Hc|exact Ha|]. intros id' s2 K2 M. by eapply created_post.
Qed.

Lemma create_from_va_post a c size is_ro va s : keeps zero zero s -> event_ok k s (E_create_from_va a c size is_ro va) ->
  runs (exec k (E_create_from_va a c size is_ro va)) s (post (E_create_from_va a c size is_ro va) s).
Proof.
  intros K (Hf & Hc & cl & Ec & Ha). apply discard_runs. unfold nvmap_ioctl_create_from_va. run.
  eapply create_runs; [exact K|exact Hf|exact Ec|intros e; run; by apply same_post|]. intros r s' K1 Hd. run.
  destruct (id Hd) as (x & cl' & Er & Ero & Ec' & Ei & Hr & Hroom & F). eapply runs_get_ref; [exact Er|].
  destruct (k_reference _ _ _ K1 r x Er) as (_ & hx & d & Ex & _). destruct va; run.
  - eapply runs_upd_handle; [exact Ex|]. destruct (k_ref _ _ _ K1 _ hx Ex) as (_ & Hp & _).
    pose proof (keeps_handle _ _ _ _ hx (set_alloc true hx) K1 Ex ltac:(by intros []) eq_refl Hp) as K2.
    eapply (numbered_dup k); [|by apply duplicated_put|exact Hc|exact Ha|].
    + eapply keeps_ext; [exact K2| |]; intros; simpl; bump_lia.
    + intros id' s2 K3 M. by eapply created_post.
  - eapply (free_handle_runs k); [exact K1|done|done|exact Ec'| |].
    + intros d' n E _. by eapply Hroom.
    + intros s2 K2 F2. run. eapply created_post; try done. apply frame_moves. by eapply frame_trans.
Qed.
(** * Numbers for a peer *)
Definition same_entry (x y : nvmap_sci_ipc_entry) : Prop :=
  entry_handle x = entry_handle y /\ peer_vuid x = peer_vuid y /\ entry_flags x = entry_flags y.
Lemma find_entry_spec P l i j e : find_entry P i l = Some (j, e) -> (i <= j)%nat /\ l !! (j - i)%nat = Some e /\ P e = true.
Proof.
  revert i. induction l as [|x l IH]; intros i H; simpl in H; [done|]. destruct (P x) eqn:EP.
  - simplify_eq. by rewrite Nat.sub_diag.
  - destruct (IH (S i) H) as (Hle & El & Ee). split_and!; [lia| |done]. by replace (j - i)%nat with (S (j - S i)) by lia.
Qed.
Lemma insert_entry_perm x l : nvmap_insert_sci_ipc_entry x l ≡ₚ x :: l.
Proof. induction l as [|y l IH]; simpl; [done|]. case_match; [done|]. rewrite IH. constructor. Qed.
Lemma find_for_id sid l i e : nvmap_find_entry_for_id sid l = Some (i, e) -> l !! i = Some e.
Proof.
  unfold nvmap_find_entry_for_id. intros H. destruct (find_entry _ 0 l) as [[j x]|] eqn:E.
  - simplify_eq. destruct (find_entry_spec _ _ _ _ _ E) as (_ & El & _). by rewrite Nat.sub_0_r in El.
  - destruct (last l) as [y|] eqn:El; simplify_eq/=. by rewrite last_lookup in El.
Qed.
Lemma elem_insert_entry (i : nat) n e (l : list nvmap_sci_ipc_entry) x : l !! i = Some e -> x ∈ <[i := set_refcount n e]> l -> exists y, y ∈ l /\ same_entry x y.
Proof.
  intros El [j Hj]%list_elem_of_lookup. destruct (decide (j = i)) as [->|Hne].
  - rewrite list_lookup_insert_eq in Hj by (by eapply lookup_lt_Some). simplify_eq. exists e. split; [by eapply list_elem_of_lookup_2|done].
  - rewrite list_lookup_insert_ne in Hj by done. exists x. split; [by eapply list_elem_of_lookup_2|done].
Qed.

Lemma create_sci_runs a h flags vuid s (Q : Z + Z -> state -> Prop) : keeps (bump h 1 zero) zero s ->
  (forall e, Q (inl e) s) ->
  (forall sid hs l sids unq, let s' := set_handles hs (set_entries l (set_sids sids (set_unq unq s))) in
     keeps (bump h 1 zero) zero s' ->
     (forall x, x ∈ l -> (exists y, y ∈ st_entries s /\ same_entry x y) \/ entry_handle x = h /\ peer_vuid x = vuid /\ entry_flags x = flags) ->
     Q (inr sid) s') ->
  runs (nvmap_create_sci_ipc_id a h flags vuid) s Q.
Proof.
  intros K He Hs. assert (Hh : is_Some (st_handles s !! h)) by (apply (k_tok _ _ _ K); unfold zero; bump_lia).
  unfold nvmap_create_sci_ipc_id. run.
  assert (Hget : forall sid l sids unq, let s1 := set_entries l (set_sids sids (set_unq unq s)) in keeps zero zero s1 ->
     (forall x, x ∈ l -> (exists y, y ∈ st_entries s /\ same_entry x y) \/ entry_handle x = h /\ peer_vuid x = vuid /\ entry_flags x = flags) ->
     runs (nvmap_handle_get h) s1 (fun ok s' => runs (mret (if ok : bool then inr sid else inl (- EINVAL))) s' Q)).
  { intros sid l sids unq s1 K1 Hl. eapply handle_get_runs; [exact K1|exact Hh|]. intros hs K2. run. by apply Hs. }
  destruct (nvmap_search_sci_ipc_entry h flags vuid (st_entries s)) as [[i e]|] eqn:Ef.
  - apply find_entry_spec in Ef as (_ & El & Ee). rewrite Nat.sub_0_r in El. zb. run.
    apply (Hget _ _ (free_sid_list s) (unq_id s)).
    + pose proof (k_entry _ _ _ K e ltac:(by eapply list_elem_of_lookup_2)) as [Hc _].
      eapply (keeps_entries (bump h 1 zero) zero); [by apply keeps_sids, keeps_unq| |].
      * intros x [j Hj]%list_elem_of_lookup. destruct (decide (j = i)) as [->|Hne].
        -- rewrite list_lookup_insert_eq in Hj by (by eapply lookup_lt_Some). simplify_eq. simpl. split; [lia|done].
        -- rewrite list_lookup_insert_ne in Hj by done. apply (k_entry _ _ _ K). by eapply list_elem_of_lookup_2.
      * intros h2. rewrite (lsum_insert _ _ _ _ _ El). unfold entries_of, zero. simpl. destruct (Z.eqb_spec (entry_handle e) h2); bump_lia.
    + intros x Hx. left. by eapply elem_insert_entry.
  - destruct (a_entry a); [|by run].
    assert (Hins : forall sid sids unq, let s0 := set_sids sids (set_unq unq s) in
      runs (nvmap_handle_get h) (set_entries (nvmap_insert_sci_ipc_entry (SciEntry h sid vuid flags 1) (st_entries s)) s0) (fun ok s' => runs (mret (if ok : bool then inr sid else inl (- EINVAL))) s' Q)).
    { intros sid sids unq s0. apply (Hget _ _ sids unq).
      - eapply (keeps_entries (bump h 1 zero) zero); [by apply keeps_sids, keeps_unq| |].
        + intros x. rewrite insert_entry_perm. intros [->|Hx]%elem_of_cons; [simpl; split; [lia|done]|by apply (k_entry _ _ _ K)].
        + intros h2. rewrite (lsum_perm _ _ _ (insert_entry_perm _ _)). unfold entries_of, zero. simpl. destruct (Z.eqb_spec h h2); bump_lia.
      - intros x. rewrite insert_entry_perm. intros [->|Hx]%elem_of_cons; [by right|left; by exists x]. }
    unfold nvmap_unique_sci_ipc_id. run. destruct (free_sid_list s) as [|sid sids] eqn:Es; run.
    + exact (Hins _ (free_sid_list s) _).
    + exact (Hins sid sids (unq_id s)).
Qed.

Lemma export_post a c id flags auth s : keeps zero zero s -> event_ok k s (E_export a c id flags auth) ->
  runs (exec k (E_export a c id flags auth)) s (post (E_export a c id flags auth) s).
Proof.
  intros K [cl Ec]. apply discard_runs. unfold nvmap_ioctl_get_sci_ipc_id. run.
  eapply get_from_id_runs; [exact K|done|exact Ec|intros _; run; by apply same_post|]. intros d b hs bs Ei Eb Hbs K1. run.
  set (h := info_handle b) in *. eapply id_ro_runs; [exact K1|done|exact Ec|simpl; congruence|].
  intros d' b' bs2 Ei' Eb' Hbs2 K2. assert (d' = d) as -> by congruence. simpl in *.
  destruct (same_bufs_lookup _ _ d b Hbs Eb) as [n En]. rewrite En in Eb'. simplify_eq. simpl.
  assert (Hsame : same_bufs (st_bufs s) bs2) by (by eapply same_bufs_trans).
  assert (Hput : forall r : Z + Z, runs (nvmap_handle_put h) (set_bufs bs2 (set_handles hs (set_bufs bs s)))
    (fun _ s' => runs (mret r) s' (post (E_export a c id flags auth) s))).
  { intros r. eapply handle_put_runs; [exact K2|left; unfold zero; bump_lia|]. intros hs7 K7. run.
    apply (counts_post _ _ s hs7 bs2); [done|done|bumps]. }
  run. destruct (info_is_ro b && negb (flags =? PROT_READ)) eqn:Ep; [run; apply Hput|].
  destruct auth as [vuid|]; [|run; apply Hput]. run.
  eapply create_sci_runs; [exact K2|intros; run; apply Hput|]. intros sid hs3 l sids unq s' K3 Hl. run.
  eapply handle_put_runs; [exact K3|left; unfold zero; bump_lia|]. intros hs4 K4. run.
  eapply (parts_post _ nobody); [exact K|bumps| |by intros| |].
  - apply frame_moves, frame_same; try done. intros d2 b2 _ E2. simpl. by rewrite Hsame, E2.
  - intros d2 m h2 Hd2 _. by left.
  - intros x Hx Hfl. destruct (Hl x Hx) as [(y & Hy & E1 & E2 & E3)|(-> & -> & E3)].
    + left. exists y. rewrite E1, E2. split_and!; try done. congruence.
    + right. exists (A_client c). split; [|by rewrite <- E3]. eapply (id_writes c cl id d b s); try done.
      destruct (info_is_ro b); [|done]. simpl in Ep. zb. congruence.
Qed.
Lemma moves_ext P s s' s2 : moves P s s' -> st_bufs s2 = st_bufs s' -> st_refs s2 = st_refs s' -> st_clients s2 = st_clients s' ->
  moves P s (set_fds (st_fds s) (set_entries (st_entries s) s2)).
Proof.
  intros [A1 A2 A3 A4] E1 E2 E3. constructor; try done; simpl.
  - intros d b Hd Eb. rewrite E1. auto.
  - intros c h (cl & r & x & H). simpl in H. rewrite E2, E3 in H. apply A4. by exists cl, r, x.
Qed.

(** The dma-buf that an import takes a reference to. *)
Lemma import_buf_runs a h (is_ro : bool) s (Q : option Z -> state -> Prop) :
  keeps zero zero s -> (exists e, e ∈ st_entries s /\ entry_handle e = h) -> fresh a s -> is_Some (a_buf a) ->
  (is_ro = false -> exists d n, st_bufs s !! d = Some (DmaBuf n h false) /\ 0 < n) ->
  (forall e s', keeps zero zero s' -> frame nobody s s' -> Q (Some e) s') ->
  (forall d n s', keeps zero (bump d (ind is_ro) zero) s' -> frame nobody s s' -> st_refs s' = st_refs s -> st_clients s' = st_clients s ->
     st_bufs s' !! d = Some (DmaBuf n h is_ro) -> 0 < n -> Q None s') ->
  runs (if is_ro then get_dmabuf_ro a h else mret None) s Q.
Proof.
  intros K (e & He & <-) (_ & _ & Hfb) [d0 Ed0] Hrw Hn Hs. destruct is_ro.
  - assert (Halive : forall s', keeps zero zero s' -> st_entries s' = st_entries s -> is_Some (st_handles s' !! entry_handle e)).
    { intros s' K' E. apply (k_entry _ _ _ K'). by rewrite E. }
    eapply (get_dmabuf_ro_runs a _ d0 s zero zero); [exact K|done|done|by apply Halive|exact Halive|exact Ed0|by apply Hfb| |].
    + intros e2 hs bs K1 F. by apply Hn.
    + intros d n hs bs K1 F En Hp. eapply Hs; [exact K1|exact F|done|done|exact En|exact Hp].
  - destruct (Hrw eq_refl) as (d & n & En & Hp). run. eapply (Hs d n s); try done.
    + eapply keeps_ext; [exact K|done|]. intros x. simpl. bump_lia.
    + apply frame_same; try done. intros ? ? ? E. by rewrite E.
Qed.
Lemma import_put_runs h (is_ro : bool) d n s (Q : unit -> state -> Prop) :
  keeps zero (bump d (ind is_ro) zero) s -> st_bufs s !! d = Some (DmaBuf n h is_ro) ->
  (forall bs, same_bufs (st_bufs s) bs -> keeps zero zero (set_bufs bs s) -> Q tt (set_bufs bs s)) ->
  runs (if is_ro then x ← get_handle h; dma_buf_put (h_dmabuf_ro x) else mret tt) s Q.
Proof.
  intros K En HQ. destruct is_ro; run.
  - destruct (buf_handle K d _ En) as (x & Ex & Edx). simpl in Ex, Edx. eapply runs_get_handle; [exact Ex|]. rewrite Edx.
    eapply buf_put_runs; [exact K|simpl; unfold zero; bump_lia|]. intros bs Hbs K2. apply HQ; [done|].
    eapply keeps_ext; [exact K2|done|]. intros x2. simpl. bump_lia.
  - pose proof (HQ (st_bufs s) (same_bufs_refl _)) as H. replace (set_bufs (st_bufs s) s) with s in H by (by destruct s). apply H.
    eapply keeps_ext; [exact K|done|]. intros x2. simpl. bump_lia.
Qed.
(** The entry's reference becomes the client's. *)
Lemma entry_used c id d start cl i e l s sids :
  keeps (bump (entry_handle e) (-1) zero) zero (numbered c id d start cl s) -> st_entries s !! i = Some e ->
  (l = remove_entry i (st_entries s) /\ entry_refcount e = 1 \/
   l = <[i := set_refcount (entry_refcount e - 1) e]> (st_entries s) /\ entry_refcount e <> 1) ->
  keeps zero zero (set_sids sids (set_entries l (numbered c id d start cl s))) /\
  (forall x, x ∈ l -> exists y, y ∈ st_entries s /\ same_entry x y).
Proof.
  intros K El Hl. pose proof (list_elem_of_lookup_2 _ _ _ El) as He. destruct (k_entry _ _ _ K e He) as [Hc Halive].
  assert (Hin : forall x, x ∈ l -> exists y, y ∈ st_entries s /\ same_entry x y).
  { intros x Hx. destruct Hl as [[-> _]|[-> _]]; [|by eapply elem_insert_entry]. exists x. split; [|done].
    rewrite <- (take_drop_middle _ _ _ El). unfold remove_entry in Hx. set_solver. }
  split; [|exact Hin]. apply keeps_sids. eapply keeps_entries; [exact K| |].
  - intros x Hx. destruct (Hin x Hx) as (y & Hy & E1 & _). destruct (k_entry _ _ _ K y Hy) as [Hcy Hay]. rewrite E1. split; [|done].
    destruct Hl as [[-> _]|[-> Hne]].
    + apply (k_entry _ _ _ K x). simpl. rewrite <- (take_drop_middle _ _ _ El). unfold remove_entry in Hx. set_solver.
    + apply list_elem_of_lookup in Hx as [j Hj]. destruct (decide (j = i)) as [->|Hji].
      * rewrite list_lookup_insert_eq in Hj by (by eapply lookup_lt_Some). simplify_eq. simpl. lia.
      * rewrite list_lookup_insert_ne in Hj by done. apply (k_entry _ _ _ K x). by eapply list_elem_of_lookup_2.
  - intros h. unfold entries_of, zero. simpl. destruct Hl as [[-> H1]|[-> Hne]].
    + unfold remove_entry. rewrite (lsum_take_drop _ _ _ _ El). destruct (Z.eqb_spec (entry_handle e) h); bump_lia.
    + rewrite (lsum_insert _ _ _ _ _ El). simpl. destruct (Z.eqb_spec (entry_handle e) h); bump_lia.
Qed.

(** The references of the entry and of the client are of the same handle. *)
Lemma shared_count r x e s : keeps zero zero s -> st_refs s !! r = Some x -> e ∈ st_entries s -> ref_handle x = entry_handle e ->
  exists hx, st_handles s !! entry_handle e = Some hx /\ 2 <= h_ref hx.
Proof.
  intros K Er He Eh. destruct (k_entry _ _ _ K e He) as [Hce [hx Ehx]]. exists hx. split; [exact Ehx|].
  destruct (k_ref _ _ _ K _ hx Ehx) as (-> & _). pose proof (entries_pos K e He). pose proof (dupes_pos K r x Er) as Hd.
  destruct (k_reference _ _ _ K r x Er) as [H1 _]. rewrite Eh in Hd. pose proof (bufs_nonneg s (entry_handle e)). unfold zero. lia.
Qed.

Lemma import_ref_runs P a c cl is_ro i e r s0 s (Q : Z + Z -> state -> Prop) :
  keeps zero zero s -> duplicated P c cl is_ro s0 s r -> (exists x, st_refs s !! r = Some x /\ ref_handle x = entry_handle e) ->
  st_entries s !! i = Some e -> id_available k cl (xa_start s0) = true -> a_sid a = true ->
  (forall id s', keeps zero zero s' -> moves P s0 (set_fds (st_fds s0) (set_entries (st_entries s0) s')) -> st_fds s' = st_fds s0 ->
     (forall x, x ∈ st_entries s' -> exists y, y ∈ st_entries s /\ same_entry x y) -> Q (inr id) s') ->
  runs (import_ref k a c is_ro (st_entries s) i e r) s Q.
Proof.
  intros K Hd (x & Ex & Exh) El Ha Hsid HQ. pose proof (list_elem_of_lookup_2 _ _ _ El) as He. set (h := entry_handle e) in *.
  unfold import_ref. run. eapply (handle_put_runs h s); [exact K|right; by eapply shared_count|].
  intros hs K1. pose proof (duplicated_put _ _ _ _ _ _ _ hs Hd) as (x' & cl' & Er & Ero & Ec' & Ei & Hr & Hroom & F).
  assert (x' = x) as -> by (simpl in Er; congruence). rewrite <- Ero. set (s1 := set_handles hs s) in *.
  assert (Hes1 : st_entries s1 = st_entries s) by done.
  run. eapply runs_upd_ref; [exact Er|]. run. destruct (ref_buf K1 r x Er) as (hx & d & n & Ehx & Edx & Eb). rewrite Exh in Ehx, Eb.
  eapply runs_get_handle; [exact Ehx|]. rewrite Edx. run. eapply (id_alloc_runs k c cl' d); [exact Ec'| |].
  { unfold id_available in *. pose proof (fr_start _ _ _ F) as Hst. simpl in Hst |- *. by rewrite Ei, Hst. }
  intros id start Eid. set (s2 := numbered c id d start cl' s1).
  assert (K2 : keeps (bump h (-1) zero) zero s2).
  { eapply numbered_keeps; [exact K1|exact Ec'|exact Eid|exact Eb|]. rewrite Ero. by rewrite Exh in Hroom. }
  assert (Hfin : forall l sids, (l = remove_entry i (st_entries s1) /\ entry_refcount e = 1 \/
      l = <[i := set_refcount (entry_refcount e - 1) e]> (st_entries s1) /\ entry_refcount e <> 1) ->
    Q (inr id) (set_refs (<[r := set_dupes (dupes x + 1 - 1) (set_dupes (dupes x + 1) x)]> (<[r := set_dupes (dupes x + 1) x]> (st_refs s1)))
      (set_sids sids (set_entries l s2)))).
  { intros l sids Hl. rewrite (restore_dupes (st_refs s1)) by done.
    destruct (entry_used c id d start cl' i e l s1 sids K2 El Hl) as [K3 Hin]. apply HQ; [exact K3| |apply F|exact Hin].
    eapply moves_ext; [eapply moves_trans; [apply frame_moves, F|by apply numbered_moves]|done..]. }
  rewrite Hsid, <- Hes1. destruct (Z.eqb_spec (entry_refcount e - 1) 0) as [H1|H1]; run; (eapply runs_upd_ref; [apply lookup_insert_eq|]); run.
  - exact (Hfin _ (free_sid_list s1 ++ [sci_ipc_id e]) ltac:(left; split; [done|lia])).
  - exact (Hfin _ (free_sid_list s1) ltac:(right; split; [done|lia])).
Qed.

Lemma import_post a c flags sid auth s : keeps zero zero s -> event_ok k s (E_import a c flags sid auth) ->
  runs (exec k (E_import a c flags sid auth)) s (post (E_import a c flags sid auth) s).
Proof.
  intros K (Hf & Hb & (Hc & cl & Ec & Ha) & Hsid & Himp). apply discard_runs.
  unfold nvmap_ioctl_handle_from_sci_ipc_id. destruct auth as [vuid|]; [|run; by apply same_post]. run.
  unfold nvmap_get_handle_from_sci_ipc_id. run.
  destruct (nvmap_find_entry_for_id sid (st_entries s)) as [[i e]|] eqn:Efind; [|run; by apply same_post].
  destruct (negb _ || negb _) eqn:Echeck; [run; by apply same_post|]. apply orb_false_iff in Echeck as [Ev Efl]. zb.
  pose proof (find_for_id _ _ _ _ Efind) as El. pose proof (list_elem_of_lookup_2 _ _ _ El) as He.
  set (h := entry_handle e) in *. set (is_ro := flags =? PROT_READ).
  assert (Hro : is_ro = false -> flags <> PROT_READ) by (unfold is_ro; intros H; by zb).
  run. eapply (import_buf_runs a h is_ro s); [exact K|by exists e|exact Hf|exact Hb| | |].
  { intros H. apply (Himp i e Efind). auto. }
  { intros err s' K1 F. run. by apply frame_post. }
  intros d n s1 K1 F1 Er1 Ec1 En Hn. run. apply (frame_nobody (fun c' h' => c' = c /\ h' = h /\ is_ro = false)) in F1.
  set (P := fun c' h' => _) in F1.
  assert (HP : forall c' h', P c' h' -> creates (E_import a c flags sid (Some vuid)) c' /\ st_handles s !! h' = None \/ writes s c' h' \/
    exists from, can_write s from h' /\ passes (E_import a c flags sid (Some vuid)) from (A_client c')).
  { intros c' h' (-> & -> & H). right. right. exists (A_peer vuid). split; [|by split_and!; auto]. exists e. split_and!; try done.
    rewrite Efl. auto. }
  eapply (dup_runs k P a c cl h is_ro d n s1 zero _); [exact K1|done| |by rewrite Ec1|exact En|exact Hn| |by split| |].
  - intros d2. unfold bump, zero, ind. destruct is_ro; case_decide; lia.
  - rewrite Er1. by destruct Hf as (_ & ? & _).
  - intros err s2 K2 F2 Hb2. run. destruct (same_bufs_lookup _ _ d _ Hb2 En) as [n2 En2].
    eapply (import_put_runs h is_ro d); [exact K2|exact En2|]. intros bs Hbs K3. run.
    eapply (moves_post _ P); [exact K|exact K3| |exact HP]. apply frame_moves. eapply frame_trans; [exact F1|].
    eapply frame_trans; [exact F2|]. by apply (counts_frame P s2 (st_handles s2)).
  - intros r s2 K2 Hd2 Hb2 Hx. run. destruct (same_bufs_lookup _ _ d _ Hb2 En) as [n2 En2].
    eapply (import_put_runs h is_ro d); [exact K2|exact En2|]. intros bs Hbs K3. run.
    pose proof (duplicated_counts _ _ _ _ _ _ _ (st_handles s2) bs Hd2 Hbs) as Hd3.
    set (s3 := set_bufs bs s2) in *. change (set_handles (st_handles s2) s3) with s3 in Hd3.
    apply (duplicated_after _ _ _ _ s) in Hd3; [|exact F1].
    assert (Hes : st_entries s3 = st_entries s) by (destruct Hd3 as (? & ? & ? & ? & ? & ? & ? & ? & F); apply F).
    rewrite <- Hes. eapply (import_ref_runs P); [exact K3|exact Hd3|exact Hx|by rewrite Hes|exact Ha|exact Hsid|].
    intros id s' K4 M Efds Hin. run. eapply (parts_post _ P); [exact K|exact K4|exact M|exact HP| |].
    + intros d2 m h2 Hd' _. left. by rewrite <- Efds.
    + intros x2 Hx2 Hfl2. left. destruct (Hin x2 Hx2) as (y & Hy & E1 & E2 & E3). rewrite Hes in Hy.
      exists y. rewrite E1, E2. split_and!; try done. congruence.
Qed.

(** * The end of a client *)

(** The puts do not look at the references. *)
Lemma put_refs h m s : nvmap_handle_put h (set_refs m s) = (fun r => (r.1, set_refs m r.2)) <$> nvmap_handle_put h s.
Proof.
  unfold nvmap_handle_put, nvmap_handle_free, upd_handle, get_handle, get, need, modify, crash, mbind, M_bind, mret, M_ret. simpl.
  destruct (st_handles s !! h) as [x|] eqn:E; simpl; [|done]. rewrite ?E, !lookup_insert_eq. simpl.
  destruct (h_ref x - 1 <? 0) eqn:E1; [done|]. destruct (h_ref x - 1 =? 0); [|done]. simpl. rewrite !lookup_insert_eq. simpl.
  destruct (0 <? h_ref x - 1); [done|]. by rewrite E1.
Qed.
Lemma put_times_refs n h m s : put_times n h (set_refs m s) = (fun r => (r.1, set_refs m r.2)) <$> put_times n h s.
Proof.
  revert s. induction n as [|n IH]; intros s; simpl; [done|]. unfold mbind, M_bind. rewrite put_refs.
  destruct (nvmap_handle_put h s) as [[[] s']|]; simpl; [apply IH|done].
Qed.
Lemma put_then_free {A} n h r (f : unit -> M A) s (Q : A -> state -> Prop) :
  runs (put_times n h) (set_refs (delete r (st_refs s)) s) (fun _ s' => exists hs, s' = set_handles hs (set_refs (delete r (st_refs s)) s) /\ runs (f tt) s' Q) ->
  runs (put_times n h) s (fun _ s' => runs (free_ref r ≫= f) s' Q).
Proof.
  intros (v & s' & E & hs & -> & HQ). pose proof (put_times_refs n h (delete r (st_refs s)) s) as H. rewrite E in H.
  destruct (put_times n h s) as [[w s1]|] eqn:E1; [|done]. simpl in H. exists w, s1. split; [done|]. apply runs_then, runs_modify.
  assert (Hs1 : set_handles hs (set_refs (delete r (st_refs s)) s) = set_refs (delete r (st_refs s)) s1) by congruence. destruct v. clear H.
  assert (Er : st_refs s1 = st_refs s).
  { pose proof (put_times_refs n h (st_refs s) s) as H2. replace (set_refs (st_refs s) s) with s in H2 by (by destruct s).
    rewrite E1 in H2. simpl in H2. assert (H3 : s1 = set_refs (st_refs s) s1) by congruence. by apply (f_equal st_refs) in H3. }
  rewrite Er, <- Hs1. exact HQ.
Qed.

Lemma put_times_runs n h s eh eb : keeps eh eb s -> Z.of_nat n <= eh h ->
  runs (put_times n h) s (fun _ s' => exists hs, s' = set_handles hs s /\ keeps (bump h (- Z.of_nat n) eh) eb s').
Proof.
  revert s eh. induction n as [|n IH]; intros s eh K Hn; simpl.
  - apply runs_ret. exists (st_handles s). split; [by destruct s|]. bumps.
  - run. eapply handle_put_runs; [exact K|left; lia|]. intros hs K1. eapply runs_mono; [apply (IH _ _ K1); bump_lia|].
    intros _ s' (hs2 & -> & K2). exists hs2. split; [done|]. bumps.
Qed.

Lemma destroy_refs_runs fuel c cl s : keeps zero zero s -> st_clients s !! c = Some cl -> ida cl = ∅ ->
  (length (tree_refs cl) <= fuel)%nat ->
  runs (destroy_refs k fuel c) s (fun _ s' => keeps zero zero s' /\ frame nobody s s' /\
    exists cl', st_clients s' !! c = Some cl' /\ tree_refs cl' = []).
Proof.
  revert cl s. induction fuel as [|fuel IH]; intros cl s K Ec Ei Hlen; simpl; run; (eapply runs_get_client; [exact Ec|]).
  all: change (inorder (handle_refs cl)) with (tree_refs cl); destruct (tree_refs cl) as [|r rs] eqn:Et; simpl in Hlen; try lia.
  1,2: run; split_and!; [done| |by exists cl]; apply frame_same; try done; intros ? ? ? E; by rewrite E.
  assert (Hr : r ∈ tree_refs cl) by (rewrite Et; left).
  destruct (tree_ref K r c cl Ec Hr) as [x Er]. destruct (ref_buf K r x Er) as (hx & d & n & Ex & Ed & Ebuf).
  destruct (k_reference _ _ _ K r x Er) as [Hd1 _]. run. eapply runs_get_ref; [exact Er|]. run. eapply runs_get_handle; [exact Ex|]. run.
  rewrite Ed. pose proof (kind_pos s r x Er) as Hk. destruct (k_buf _ _ _ K d _ Ebuf) as (Hcnt & _). simpl in Hcnt. pose proof (fds_nonneg s d).
  unfold dma_buf_put. run. eapply runs_get_buf; [exact Ebuf|]. simpl. unfold zero in Hcnt. rewrite (proj2 (Z.leb_gt _ _)) by lia.
  eapply runs_upd_buf; [exact Ebuf|]. run. eapply runs_upd_client; [exact Ec|]. run. eapply runs_upd_handle; [exact Ex|]. run.
  set (t := rb_erase k r (handle_refs cl)).
  assert (Ht : inorder t = filter (fun x => x <> r) (tree_refs cl)) by apply erase_inorder.
  assert (Hsl : slack s r x (dupes x)).
  { intros c2 cl2 d2 b2 E2 Hr2 _ _ Hp. assert (c2 = c) as -> by (by eapply (tree_unique K r)). simplify_eq.
    unfold ids_of in Hp. rewrite Ei in Hp. by rewrite msum_empty in Hp. }
  pose proof (keeps_unlink _ _ _ r c t x cl hx d K Er Ec Hr Ht Ex Ed Hsl) as K1.
  pose proof (keeps_fcount _ _ _ d _ (-1) K1 Ebuf ltac:(simpl; lia)) as K2. simpl in K2.
  eapply put_then_free. eapply runs_mono; [eapply put_times_runs; [exact K2|unfold zero; bump_lia]|].
  intros _ s' (hs & -> & K3). exists hs. split; [done|].
  assert (K4 : keeps zero zero (set_handles hs (set_bufs (<[d := set_f_count (n + -1) (DmaBuf n (ref_handle x) (ref_is_ro x))]> (st_bufs s)) (unlink r c t x cl hx s)))) by bumps.
  assert (F : frame nobody s (set_handles hs (set_bufs (<[d := set_f_count (n + -1) (DmaBuf n (ref_handle x) (ref_is_ro x))]> (st_bufs s)) (unlink r c t x cl hx s)))).
  { constructor; try done.
    - intros c2. simpl. destruct (decide (c2 = c)) as [->|]; [by rewrite lookup_insert_eq, Ec|by rewrite lookup_insert_ne].
    - intros d2 b2 Hf E2. eapply same_bufs_kept; [by eapply same_bufs_count|done|done].
    - exact (unlink_gains nobody r c t x cl hx s Ec Ht). }
  eapply runs_mono; [eapply (IH (set_tree t cl)); [exact K4|apply lookup_insert_eq|exact Ei|]|].
  - unfold tree_refs at 1. simpl. rewrite Ht, Et, filter_cons_False by (intros H0; by apply H0).
    pose proof (length_filter (fun x => x <> r) rs). lia.
  - intros _ s' (K5 & F5 & Hcl). split_and!; [done|by eapply frame_trans|done].
Qed.

Lemma close_post c s : keeps zero zero s -> event_ok k s (E_close c) -> runs (exec k (E_close c)) s (post (E_close c) s).
Proof.
  intros K [cl Ec]. simpl. unfold destroy_client. run. eapply runs_upd_client; [exact Ec|]. run.
  pose proof (keeps_ids_clear _ _ _ c cl K Ec) as K1. eapply runs_get_client; [apply lookup_insert_eq|]. run.
  eapply runs_mono; [eapply destroy_refs_runs; [exact K1|apply lookup_insert_eq|done|done]|].
  intros _ s' (K2 & F & cl' & Ec' & Et). run. pose proof (keeps_close _ _ _ c cl' K2 Ec' Et) as K3.
  eapply (moves_post _ nobody); [exact K|exact K3| |by intros].
  eapply moves_trans; [|eapply moves_trans; [apply frame_moves, F|]].
  - constructor; [done|done|intros ? ? ? E; simpl; by rewrite E|].
    intros c2 h2 (cl2 & r2 & x2 & E1 & E2). simpl in *. left.
    apply lookup_insert_Some in E1 as [[<- <-]|[Hne E1]]; [by exists cl, r2, x2|by exists cl2, r2, x2].
  - constructor; [done|done|intros ? ? ? E; simpl; by rewrite E|].
    intros c2 h2 (cl2 & r2 & x2 & E1 & E2). simpl in *. left. apply lookup_delete_Some in E1 as [_ E1]. by exists cl2, r2, x2.
Qed.

(** * Every event *)
Lemma exec_post e s : keeps zero zero s -> event_ok k s e -> runs (exec k e) s (post e s).
Proof.
  intros K He. destruct e; [by apply open_post|by apply create_post|by apply create_from_va_post|by apply alloc_post|by apply dup_post|
    by apply free_post|by apply getfd_post|by apply from_fd_post|by apply close_fd_post|by apply export_post|by apply import_post|
    by apply close_post|by apply release_post|done].
Qed.
End access.
