(* ===== verification/NvmapReach.v ===== *)
(** What holds of every state of nvmap's handles that is reached: counts are exact, nothing
    is used after it is freed, and write access stays with those it was given to
    (src/drivers/video/tegra/nvmap); and executions in which the code goes wrong. *)
From S2P Require Import Prelude Sums NvmapHandle NvmapHandleInv NvmapShareOps NvmapShare NvmapAccess.

(** * Every state that is reached *)
Definition init : state := State ∅ ∅ ∅ ∅ [] [] [] 0 (U32_MAX / 2).
Lemma init_keeps : keeps zero zero init.
Proof.
  constructor; simpl; try done; try (by intros *; rewrite lookup_empty); try (intros ? H; by apply not_elem_of_nil in H).
Qed.
Lemma reached_keeps k {HK : KernelOk k} s : rtc (hstep k) init s -> keeps zero zero s.
Proof.
  intros H. apply (rtc_ind_r (R := hstep k) (fun s => keeps zero zero s) init init_keeps); [|done].
  intros s1 s2 _ (e & He & E) K. destruct (exec_post k e s1 K He) as ([] & s' & E' & K' & _). congruence.
Qed.
Lemma exec_spreads k {HK : KernelOk k} e s s' : keeps zero zero s -> event_ok k s e -> exec k e s = Some (tt, s') -> keeps zero zero s' /\ spreads e s s'.
Proof. intros K He E. destruct (exec_post k e s K He) as ([] & s2 & E2 & K2 & H). assert (s2 = s') as -> by congruence. done. Qed.

(** ** Witness kernel *)

(** A spine of three nodes is rotated, as a red-black tree's is. *)
Definition rotate (_ : Z) (t : tree) : tree :=
  match t with
  | Node Leaf x (Node Leaf y (Node Leaf z Leaf)) => Node (Node Leaf x Leaf) y (Node Leaf z Leaf)
  | Node (Node (Node Leaf z Leaf) y Leaf) x Leaf => Node (Node Leaf z Leaf) y (Node Leaf x Leaf)
  | _ => t
  end.
Definition spine (r : Z) (t : tree) : tree := foldr (fun x t => Node Leaf x t) Leaf (filter (fun x => x <> r) (inorder t)).
Definition first_free (m : gmap Z Z) (start : Z) : Z + Z :=
  match filter (fun id => m !! id = None) (seqZ start (Z.of_nat (S (size m)))) with
  | id :: _ => if id <=? U32_MAX then inr id else inl (- EBUSY)
  | [] => inl (- EBUSY)
  end.
Definition demo : kernel := Kernel rotate spine first_free.
#[export] Instance demo_ok : KernelOk demo.
Proof.
  split.
  - intros r t. simpl. unfold rotate. repeat case_match; done.
  - intros r t. simpl. unfold spine. induction (filter _ (inorder t)) as [|x l IH]; simpl; [done|]. by rewrite IH.
  - intros m start id. simpl. unfold first_free. intros H.
    destruct (filter _ _) as [|x l] eqn:E; [done|]. case_match; simplify_eq.
    assert (Hin : id ∈ id :: l) by left. rewrite <- E in Hin. by apply list_elem_of_filter in Hin as [? _].
Qed.

(** * Properties *)

(** Counts that are exact: a handle's by its references' duplications, its dma-bufs and its
    entries for peers; a dma-buf's by the references of its kind and its descriptors. *)
Definition exact (s : state) : Prop :=
  (forall h x, st_handles s !! h = Some x ->
     h_ref x = dupes_of s h + bufs_of s h + entries_of s h /\ 0 < h_ref x /\ share_count x = refs_of s h) /\
  (forall d b, st_bufs s !! d = Some b -> f_count b = kind_of s (info_handle b) (info_is_ro b) + fds_of s d).
(** What is named is there: by references, numbers, descriptors, entries and dma-bufs. *)
Definition no_dangling (s : state) : Prop :=
  (forall r x, st_refs s !! r = Some x -> exists hx d b, st_handles s !! ref_handle x = Some hx /\
     dmabuf_of (ref_is_ro x) hx = DBuf d /\ st_bufs s !! d = Some b /\ 0 < f_count b) /\
  (forall c cl id d, st_clients s !! c = Some cl -> ida cl !! id = Some d -> exists b, st_bufs s !! d = Some b /\ 0 < f_count b) /\
  (forall d, d ∈ st_fds s -> exists b, st_bufs s !! d = Some b /\ 0 < f_count b) /\
  (forall e, e ∈ st_entries s -> is_Some (st_handles s !! entry_handle e)) /\
  (forall d b, st_bufs s !! d = Some b -> is_Some (st_handles s !! info_handle b)).
(** Without clients, entries and descriptors all dma-bufs can be released; then all is free. *)
Definition no_leak (s : state) : Prop :=
  st_clients s = ∅ -> st_entries s = [] -> st_fds s = [] ->
  st_refs s = ∅ /\ (forall d b, st_bufs s !! d = Some b -> f_count b = 0) /\ (st_bufs s = ∅ -> st_handles s = ∅).

Lemma keeps_no_leak s : keeps zero zero s -> no_leak s.
Proof.
  intros K Ec Ee Ef.
  assert (Er : st_refs s = ∅).
  { pose proof (k_tree _ _ _ K) as H. rewrite Ec in H. unfold gather in H. rewrite map_to_list_empty in H. simpl in H.
    apply Permutation_nil in H. apply fmap_nil_inv in H. by apply map_to_list_empty_iff in H. }
  split_and!; [done| |].
  - intros d b Eb. destruct (k_buf _ _ _ K d b Eb) as (-> & _). unfold kind_of, fds_of, zero. rewrite Er, Ef, msum_empty. done.
  - intros Eb. apply map_empty. intros h. destruct (st_handles s !! h) as [x|] eqn:Eh; [|done].
    destruct (k_ref _ _ _ K h x Eh) as (H & Hp & _). unfold dupes_of, bufs_of, entries_of, zero in H. rewrite Er, Eb, Ee, !msum_empty in H.
    simpl in H. lia.
Qed.
Lemma keeps_no_dangling s : keeps zero zero s -> no_dangling s.
Proof.
  intros K. split_and!.
  - intros r x Er. destruct (ref_buf K r x Er) as (hx & d & n & Eh & Ed & Eb). exists hx, d, (DmaBuf n (ref_handle x) (ref_is_ro x)).
    split_and!; try done. destruct (k_buf _ _ _ K d _ Eb) as (-> & _). pose proof (kind_pos s r x Er). pose proof (fds_nonneg s d).
    simpl. unfold zero. lia.
  - intros c cl id d Ec Ei. by eapply id_count.
  - intros d Hd. destruct (k_fd _ _ _ K d Hd) as [b Eb]. exists b. split; [done|by eapply fd_count].
  - intros e He. by apply (k_entry _ _ _ K).
  - intros d b Eb. destruct (buf_handle K d b Eb) as (x & E & _). by exists x.
Qed.

(** C10. In every state that events lead to (nvmap's ioctls, closed descriptors, ending
    clients and deferred releases, one after the other) of which each satisfies [event_ok]:
    the reference counts of handles and dma-bufs are exactly what refers to them; whatever a
    client's reference or number, a descriptor, an entry for a peer or a dma-buf names has not
    been freed; nothing stays once nobody refers to it; and every further event with
    [event_ok] runs to its end, without touching what is freed.  [event_ok] leaves out, next
    to names that do not exist, the cases the code gets wrong: no number left or none that can
    be copied to the user, no memory for a read-only dma-buf or for the freed number of an
    import, an import for write access whose dma-buf is gone, and getfd given a descriptor;
    for each of them there is an execution at the end of this file that contradicts the
    statement. *)
Theorem handle_references_exact k {HK : KernelOk k} s : rtc (hstep k) init s ->
  exact s /\ no_dangling s /\ no_leak s /\ forall e, event_ok k s e -> exists s', exec k e s = Some (tt, s').
Proof.
  intros H. pose proof (reached_keeps k s H) as K. split; [split|split; [by apply keeps_no_dangling|split; [by apply keeps_no_leak|]]].
  - intros h x E. destruct (k_ref _ _ _ K h x E) as (-> & ? & ?). unfold zero in *. split_and!; [lia|lia|done].
  - intros d b E. destruct (k_buf _ _ _ K d b E) as (-> & _). unfold zero. lia.
  - intros e He. destruct (exec_post k e s K He) as ([] & s' & E & _). by exists s'.
Qed.

(** A run of events during which a handle exists. *)
Inductive hrun (k : kernel) (h : Z) : list event -> state -> state -> Prop :=
| hrun_nil s : hrun k h [] s s
| hrun_cons e es s s1 s2 : event_ok k s e -> exec k e s = Some (tt, s1) -> is_Some (st_handles s !! h) ->
    hrun k h es s1 s2 -> hrun k h (e :: es) s s2.

(** C13. As long as a handle exists, write access to it (a reference, a descriptor or a
    peer's entry that is not read-only) stays within a group: if those who have it are in the
    group, and nobody of the group hands a descriptor, or an entry that is not read-only, to
    somebody outside, then nobody outside gets it, by any sequence of events of anybody that
    satisfy [event_ok], that is, without the cases listed there in which nvmap frees what is
    still named (see [handle_references_exact]): a failure to give or copy a number, to make
    a read-only dma-buf or to note a freed number, an import for write access of a released
    dma-buf, and getfd given a descriptor.  The ioctls run one after the other. *)
Theorem write_access_confined k {HK : KernelOk k} (G : agent -> Prop) h s es s' :
  rtc (hstep k) init s -> hrun k h es s s' -> (forall ag, can_write s ag h -> G ag) ->
  (forall e from to, e ∈ es -> passes e from to -> G from -> G to) -> forall ag, can_write s' ag h -> G ag.
Proof.
  intros H%(reached_keeps k) Hr. induction Hr as [|e es s s1 s2 He E Hh Hr IH]; [done|]. intros HG Hp.
  destruct (exec_spreads k e s s1 H He E) as [K1 Hs]. apply IH; [done| |intros; by eapply Hp; [right|..]].
  intros ag Hw. destruct (Hs ag h Hw) as [?|[(c & -> & _ & Hno)|(from & Hf & Hpass)]]; [by apply HG| |].
  - rewrite Hno in Hh. by destruct Hh.
  - eapply Hp; [left|exact Hpass|by apply HG].
Qed.

(** * Executions *)
Definition absent {A} (x : option A) : bool := match x with None => true | Some _ => false end.
Definition freshb (a : answers) (s : state) : bool :=
  match a_handle a with Some h => absent (st_handles s !! h) | None => true end &&
  match a_ref a with Some r => absent (st_refs s !! r) | None => true end &&
  match a_buf a with Some d => absent (st_bufs s !! d) | None => true end.
Definition can_numberb (k : kernel) (a : answers) (s : state) (c : Z) : bool :=
  a_copied a && match st_clients s !! c with Some cl => id_available k cl (xa_start s) | None => false end.
Definition importableb (s : state) (flags sid : Z) : bool :=
  match nvmap_find_entry_for_id sid (st_entries s) with
  | None => true
  | Some (_, e) => (flags =? PROT_READ) ||
      existsb (fun b => (info_handle b.2 =? entry_handle e) && negb (info_is_ro b.2) && (0 <? f_count b.2)) (map_to_list (st_bufs s))
  end.
Definition event_okb (k : kernel) (s : state) (e : event) : bool :=
  match e with
  | E_open c => absent (st_clients s !! c)
  | E_create a c _ | E_create_from_va a c _ _ _ => freshb a s && can_numberb k a s c
  | E_alloc c _ _ | E_free c _ | E_getfd _ c _ | E_export _ c _ _ _ | E_close c => negb (absent (st_clients s !! c))
  | E_dup a c _ _ => freshb a s && negb (absent (a_buf a)) && can_numberb k a s c
  | E_from_fd a c fd => freshb a s && can_numberb k a s c && bool_decide (fd ∈ st_fds s)
  | E_close_fd fd => bool_decide (fd ∈ st_fds s)
  | E_import a c flags sid _ => freshb a s && negb (absent (a_buf a)) && can_numberb k a s c && a_sid a && importableb s flags sid
  | E_release d => match st_bufs s !! d with Some b => f_count b =? 0 | None => false end
  | E_getfd_fd _ => false
  end.
Lemma absent_true {A} (x : option A) : absent x = true -> x = None.
Proof. by destruct x. Qed.
Lemma absent_false {A} (x : option A) : negb (absent x) = true -> is_Some x.
Proof. destruct x; [by eexists|done]. Qed.
Lemma freshb_ok a s : freshb a s = true -> fresh a s.
Proof.
  unfold freshb. intros [[H1 H2]%andb_true_iff H3]%andb_true_iff.
  split_and!; intros x E; rewrite E in *; by apply absent_true.
Qed.
Lemma can_numberb_ok k a s c : can_numberb k a s c = true -> can_number k a s c.
Proof. unfold can_numberb. intros [H1 H2]%andb_true_iff. split; [done|]. destruct (st_clients s !! c) as [cl|]; [eauto|done]. Qed.
Lemma importableb_ok s flags sid : importableb s flags sid = true -> importable s flags sid.
Proof.
  unfold importableb. intros H i e Ef Hne. rewrite Ef in H. apply orb_true_iff in H as [H|H]; [by zb|].
  apply existsb_exists in H as ([d [n h ro]] & Hin & H). simpl in H. zb. destruct ro; [done|]. subst h.
  apply list_elem_of_In, elem_of_map_to_list in Hin. eauto.
Qed.
Lemma event_okb_ok k s e : event_okb k s e = true -> event_ok k s e.
Proof.
  destruct e; simpl; rewrite ?andb_true_iff; intros H; destruct_and?; split_and?;
    try (eapply bool_decide_eq_true; eassumption); eauto using absent_true, absent_false, freshb_ok, can_numberb_ok, importableb_ok.
  destruct (st_bufs s !! d) as [b|]; [|done]. exists b. split; [done|by zb].
Qed.

Fixpoint run_events (k : kernel) (es : list event) (s : state) : option state :=
  match es with
  | [] => Some s
  | e :: es => if event_okb k s e then r ← exec k e s; run_events k es r.2 else None
  end.
Lemma run_events_reach k es s s' : run_events k es s = Some s' -> rtc (hstep k) s s'.
Proof.
  revert s. induction es as [|e es IH]; intros s H; simpl in H; [by simplify_eq|].
  destruct (event_okb k s e) eqn:Eo; [|done]. destruct (exec k e s) as [[[] s1]|] eqn:E; [|done]. simpl in H.
  eapply rtc_l; [|by apply IH]. exists e. split; [by apply event_okb_ok|done].
Qed.

(** Addresses that are not used yet, and nothing that fails. *)
Definition ans (n : Z) : answers := Answers (Some (100 + n)) (Some (200 + n)) (Some (300 + n)) true true true true true.
Definition id1 : Z := U32_MAX / 2.
(** A client makes a buffer and hands it to another one, by a descriptor and, for read access
    only, by a number for a peer; then it gives up its own access. *)
Definition shared_events : list event :=
  [E_open 1; E_open 2; E_create (ans 0) 1 4096; E_alloc 1 id1 true; E_getfd (ans 1) 1 id1; E_from_fd (ans 2) 2 300;
   E_dup (ans 3) 1 id1 true; E_export (ans 4) 1 id1 PROT_READ (Some 7); E_import (ans 5) 2 PROT_READ 2 (Some 7); E_free 1 id1;
   E_close_fd 300].
Definition shared : state := default init (run_events demo shared_events init).

Lemma handle_references_exact_witness :
  rtc (hstep demo) init shared /\ (h_ref <$> st_handles shared !! 100) = Some 5 /\ exact shared /\ no_dangling shared /\ no_leak shared /\
  (exists s', exec demo (E_close 2) shared = Some (tt, s')).
Proof.
  assert (H : rtc (hstep demo) init shared) by (apply (run_events_reach demo shared_events); vm_compute; reflexivity).
  destruct (handle_references_exact demo shared H) as (H1 & H2 & H3 & H4).
  split; [exact H|]. split; [vm_compute; reflexivity|]. split; [exact H1|]. split; [exact H2|]. split; [exact H3|].
  apply H4. apply event_okb_ok. vm_compute. reflexivity.
Defined.

(** Everything is free at the end. *)
Example shared_ends : run_events demo (shared_events ++ [E_close 1; E_close 2; E_release 300; E_release 303]) init =
  Some (State ∅ ∅ ∅ ∅ [] [] [2] 2 (id1 + 4)).
Proof. vm_compute. reflexivity. Qed.

(** The events at which the first client has the only access, and what others may try then. *)
Definition owned : state := default init (run_events demo [E_open 1; E_open 2; E_create (ans 0) 1 4096; E_alloc 1 id1 true] init).
Definition attempts : list event :=
  [E_export (ans 1) 1 id1 PROT_READ (Some 7); E_import (ans 2) 2 PROT_READ 2 (Some 7); E_dup (ans 3) 2 (id1 + 1) false;
   E_export (ans 4) 2 (id1 + 1) 3 (Some 8); E_import (ans 5) 2 3 2 (Some 8); E_free 2 (id1 + 1)].
Definition attempted : state := default init (run_events demo attempts owned).

Lemma run_events_hrun k h es s s' : run_events k es s = Some s' ->
  forallb (fun n => match run_events k (take n es) s with Some s1 => negb (absent (st_handles s1 !! h)) | None => false end)
    (seq 0 (length es)) = true -> hrun k h es s s'.
Proof.
  revert s. induction es as [|e es IH]; intros s H Ha; simpl in H; [simplify_eq; constructor|].
  destruct (event_okb k s e) eqn:Eo; [|done]. destruct (exec k e s) as [[[] s1]|] eqn:E; [|done]. simpl in H.
  simpl in Ha. apply andb_true_iff in Ha as [H0 Ha]. eapply hrun_cons; [by apply event_okb_ok|exact E|by apply absent_false|].
  apply IH; [exact H|]. rewrite <- seq_shift in Ha. rewrite forallb_forall in Ha |- *. intros n Hn.
  specialize (Ha (S n) ltac:(apply in_map, Hn)). simpl in Ha. by rewrite Eo, E in Ha.
Qed.

Lemma write_access_confined_witness :
  hrun demo 100 attempts owned attempted /\ forall ag, can_write attempted ag 100 -> ag = A_client 1.
Proof.
  assert (H : hrun demo 100 attempts owned attempted) by (apply run_events_hrun; vm_compute; reflexivity).
  split; [exact H|]. apply (write_access_confined demo (fun ag => ag = A_client 1) 100 owned attempts attempted).
  - apply (run_events_reach demo [E_open 1; E_open 2; E_create (ans 0) 1 4096; E_alloc 1 id1 true]). vm_compute. reflexivity.
  - exact H.
  - intros ag Hw. destruct ag as [c|d|v]; simpl in Hw.
    + destruct Hw as (cl & r & x & E & Hr & _). change (st_clients owned) with (<[2 := Client Leaf ∅]> (<[1 := Client (Node Leaf 200 Leaf) {[id1 := 300]}]> ∅) : gmap Z nvmap_client) in E.
      apply lookup_insert_Some in E as [[<- <-]|[_ E]]; [by apply not_elem_of_nil in Hr|].
      by apply lookup_insert_Some in E as [[<- _]|[_ E]].
    + destruct Hw as [Hw _]. by apply not_elem_of_nil in Hw.
    + destruct Hw as (e & He & _). by apply not_elem_of_nil in He.
  - intros e from to He Hp ->. unfold attempts in He. repeat (apply elem_of_cons in He as [->|He]; [destruct to; simpl in Hp; naive_solver|]).
    by apply not_elem_of_nil in He.
Defined.

(** ** Executions in which the code goes wrong *)

(** A client has a reference of each kind to a handle, and rebalancing has put the read-only
    one above the other, on the side where [__nvmap_validate_locked] does not look: freeing
    the other's number removes the number, but not the reference. *)
Definition straddle : state := default init (run_events demo
  [E_open 1; E_create (ans 0) 1 4096; E_alloc 1 id1 true; E_dup (ans 1) 1 id1 true; E_create (ans (-50)) 1 4096] init).
Lemma free_misses_reference :
  (handle_refs <$> st_clients straddle !! 1) = Some (Node (Node Leaf 150 Leaf) 201 (Node Leaf 200 Leaf)) /\
  (ref_handle <$> st_refs straddle !! 200) = Some 100 /\
  (s ← run_events demo [E_free 1 id1; E_free 1 (id1 + 1); E_free 1 (id1 + 2)] straddle; Some (ida <$> st_clients s !! 1, st_refs s !! 200)) =
    Some (Some ∅, Some (HandleRef 100 1 false)).
Proof. vm_compute. auto. Qed.

(** Without a number, or when the number cannot be copied to the user, the dma-buf is put
    twice: the second put finds no reference left. *)
Lemma create_puts_twice :
  run_events demo [E_open 1; E_create (ans 0) 1 4096] init <> None /\
  (s ← run_events demo [E_open 1] init;
   exec demo (E_create (Answers (Some 100) (Some 200) (Some 300) true true true false true) 1 4096) s) = None /\
  (s ← run_events demo [E_open 1] init;
   exec (Kernel rotate spine (fun _ _ => inl (- ENOMEM))) (E_create (ans 0) 1 4096) s) = None.
Proof. split_and!; [by vm_compute|vm_compute; reflexivity|vm_compute; reflexivity]. Qed.

(** A number that no entry has gives the last entry. *)
Lemma import_unknown_number :
  (s ← run_events demo [E_export (ans 1) 1 id1 PROT_READ (Some 7); E_import (ans 2) 2 PROT_READ 999 (Some 7)] owned;
   Some (st_entries s, st_refs s !! 202)) = Some ([], Some (HandleRef 100 1 true)).
Proof. vm_compute. reflexivity. Qed.

(** When the dma-buf of a handle has been released, an import for write access frees its new
    reference, but leaves it in the client's tree, where the end of the client finds it. *)
Lemma import_leaves_freed_reference :
  (s ← run_events demo [E_export (ans 1) 1 id1 3 (Some 7); E_close 1; E_release 300] owned;
   r ← exec demo (E_import (ans 2) 2 3 2 (Some 7)) s;
   Some (handle_refs <$> st_clients r.2 !! 2, st_refs r.2 !! 202, exec demo (E_close 2) r.2)) =
  Some (Some (Node Leaf 202 Leaf), None, None).
Proof. vm_compute. reflexivity. Qed.

(** A read-only dma-buf that cannot be made leaves an error where its address is expected:
    the next duplication uses it. *)
Lemma failed_make_is_used :
  (r ← exec demo (E_dup (Answers None (Some 201) None true true true true true) 1 id1 true) owned;
   Some (h_dmabuf_ro <$> st_handles r.2 !! 100, exec demo (E_dup (ans 2) 1 id1 true) r.2)) = Some (Some DErr, None).
Proof. vm_compute. reflexivity. Qed.

(** Without memory for the number that becomes free, an import ends with an error, and its
    reference keeps one duplication too many. *)
Lemma import_keeps_duplication :
  (s ← run_events demo [E_export (ans 1) 1 id1 PROT_READ (Some 7)] owned;
   r ← exec demo (E_import (Answers None (Some 202) (Some 302) true false true true true) 2 PROT_READ 2 (Some 7)) s;
   Some (st_refs r.2 !! 202, kind_of r.2 100 true, ida <$> st_clients r.2 !! 2)) =
  Some (Some (HandleRef 100 2 true), 1, Some {[id1 + 1 := 302]}).
Proof. vm_compute. reflexivity. Qed.

(** What is never imported is never freed. *)
Lemma export_outlives_clients :
  (s ← run_events demo [E_export (ans 1) 1 id1 PROT_READ (Some 7); E_close 1; E_close 2; E_release 300] owned;
   Some (st_clients s, st_fds s, st_bufs s, h_ref <$> st_handles s !! 100)) = Some (∅, [], ∅, Some 1).
Proof. vm_compute. reflexivity. Qed.

(** Asking for a descriptor with a descriptor puts the dma-buf once too often: after two
    calls nothing holds the dma-buf that a number and a descriptor still name, and closing
    the descriptor uses what may have been freed. *)
Lemma getfd_of_fd_puts_twice :
  (s ← run_events demo [E_getfd (ans 1) 1 id1] owned;
   r ← getfd_of_fd 300 s; r2 ← getfd_of_fd 300 r.2;
   Some (f_count <$> st_bufs s !! 300, f_count <$> st_bufs r2.2 !! 300, kind_of r2.2 100 false + fds_of r2.2 300,
     exec demo (E_close_fd 300) r2.2)) = Some (Some 2, Some 0, 2, None).
Proof. vm_compute. reflexivity. Qed.
